(* ===== verification/_CoqProject ===== *)
-Q . S2P
Prelude.v
TigTypes.v
TigFormat.v
Fnv.v
Kernel.v
ByteRegions.v
Bitset.v
BitWords.v
Utf8.v
Sha256.v
PackageArtifact.v
PackageArtifactFacts.v
TigVerify.v
TigEncode.v
TigRuntime.v
TigFormatFacts.v
TigStructure.v
TigDominators.v
TigTyping.v
TigVerified.v
TigRuntimeLogic.v
TigSoundness.v
TigAuthority.v
TigRoundtrip.v
TigExamples.v
PythcSyntax.v
PythcLexer.v
PythcLexerFacts.v
PythcParser.v
PythcGrammar.v
PythcParserFacts.v
PythcTypecheck.v
PythcTyping.v
PythcLower.v
PythcBuild.v
PythcExamples.v
ServiceIdentity.v
Capabilities.v
IpcChannels.v
DynamicCapabilities.v
UserElf.v
PhysicalMemory.v
StorageService.v
StorageJournal.v
BlockAllocator.v
SlotTable.v
ObjectFormat.v
ObjectFormatFacts.v
ObjectStore.v
Relationships.v
RevisionHistory.v
StorageQuotas.v
UserCopy.v
ObjectService.v
ObjectVault.v
ObjectServiceFacts.v
ObjectServiceRefines.v
ObjectSeed.v
ObjectSnapshot.v
ObjectServiceSafety.v
ObjectCheckpoint.v
ObjectImage.v
ObjectDisk.v
ObjectDurability.v
PackageContent.v
PackageContentFacts.v
PackageContentRestore.v
PackageContentSafety.v
ObjectExamples.v
CheckpointExamples.v
PackageExamples.v
KernelExamples.v
