(* ===== verification/Prelude.v ===== *)
(** * PythOS: a verification library

    PythOS is an operating system written in Rust. Its programs are graphs of
    typed instructions (PythTIG packages): the compiler [tools/pythc] builds a
    package from source text, the verifier [shared/src/pyth_tig] decides
    whether a package may run, and the interpreter [user/pyth-runtime] executes
    it and reaches the kernel through host calls that present capabilities.
    The kernel [core/src] keeps the tables behind those calls: service
    identities, capabilities, storage with its journal and block allocator, and
    the retained objects. The library models these parts function by function
    and proves what they promise each other.

    ** How the code is modelled

    - A Rust function is a Gallina function. A [Result] is an [outcome]: a
      value, an error, a panic (failed [expect], index out of range, arithmetic
      overflow) or [Diverge] when a loop has used up the fuel of the model.
    - A [&mut self] method is an [action] (file Kernel): it returns the outcome
      and the structure it leaves behind, also when it fails.
    - Integers are [Z]; wrapping, checked and panicking arithmetic is written
      out at the width of the source ([wrap], [checked_add], [expect]).
      [usize] has 64 bits. A fixed array is a list whose length is part of the
      invariant.
    - The kernel behind a host call is a typeclass ([Host], file TigRuntime);
      every theorem on runs holds for every instance.

    ** Files

    Shared: Prelude (outcomes, loops, integers, slices, bytes), Kernel (actions
    and handle stores), ByteRegions (regions of byte arrays), SlotTable (arrays
    of optional entries), BitWords (bitmaps in arrays of words), Fnv, Bitset,
    Utf8.

    Packages and their execution ([shared/src/pyth_tig], [user/pyth-runtime]):
    TigTypes ([types.rs], [opcode.rs], ABI constants), TigFormat ([format.rs]),
    TigVerify ([verify.rs]), TigEncode ([tools/pythc/src/graph.rs],
    [encode.rs]) and TigRuntime ([interpreter.rs], [value.rs]) are the models.
    TigFormatFacts, TigStructure, TigDominators, TigTyping and TigVerified show
    what an accepted package satisfies; TigRuntimeLogic, TigSoundness and
    TigAuthority what a run of it does; TigRoundtrip that encoding and decoding
    agree; TigExamples has the concrete instances.

    The compiler ([tools/pythc/src]): PythcSyntax ([span.rs], [token.rs],
    [ast.rs], [types.rs]), PythcLexer ([lexer.rs]), PythcParser ([parser.rs]),
    PythcTypecheck ([intrinsics.rs], [typecheck.rs]) and PythcLower
    ([lower.rs], the build command of [main.rs]) are the models.
    PythcLexerFacts, PythcGrammar and PythcParserFacts relate lexer and parser
    to a declarative grammar, PythcTyping the checker to typing rules, and
    PythcBuild the emitted package to the source program; PythcExamples has the
    concrete instances.

    The kernel ([core/src]): ServiceIdentity ([service_identity.rs]),
    Capabilities ([capabilities.rs]), StorageService ([storage_service.rs]),
    StorageJournal ([storage_journal.rs]), BlockAllocator
    ([storage_allocator.rs]), each with its theorems; KernelExamples has the
    concrete instances.

    Retained objects ([core/src]): ObjectFormat ([typed_object_format.rs], the
    kinds of [shell_objects.rs]) with ObjectFormatFacts, ObjectStore
    ([dynamic_object_store.rs]), Relationships ([object_relationships.rs]),
    RevisionHistory ([revision_history.rs]), StorageQuotas
    ([storage_quotas.rs]) and UserCopy ([user_copy.rs]), each with its
    theorems. ObjectService ([object_service.rs]) composes them. ObjectVault is
    its abstract specification, a step relation on objects, revisions and live
    capabilities; ObjectServiceFacts and ObjectServiceRefines show that every
    call implements it, ObjectSeed does so for the seeded state and
    ObjectSnapshot for restarts from a snapshot. ObjectServiceSafety has the
    theorems on histories, ObjectExamples the concrete instances.

    Checkpoints ([core/src/object_service_checkpoint.rs] and the retained slot
    of [retained_services.rs]): ObjectCheckpoint is the model, with the block
    device as a class whose writes may fail and tear a sector; it names images
    by the digests of Sha256 ([shared/src/sha256.rs]). ObjectImage relates
    snapshots and slot images, ObjectDisk slot images and devices, and
    ObjectDurability relates runs of the machine, with power failures, to a
    durable vault: event by event, with the results that the code returns.
    CheckpointExamples has two devices and the concrete instances.

    Software packages: PackageArtifact ([shared/src/package_format.rs]) is the
    artifact format, PackageArtifactFacts its exact description. PackageContent
    ([core/src/package_content_store.rs], with the content records of
    [package_registry.rs] and the sectors of [package_candidate_store.rs])
    stores the contents of packages in extents of the device, staged before
    they are committed; PackageContentFacts has the invariant and the
    specifications of its operations, PackageContentRestore those of the
    operations on registries, PackageContentSafety the theorems on histories
    and PackageExamples the concrete instances. The histories are those of the
    operations that [package_service.rs] calls; a content that does not fit
    into the transaction is rolled back, as it does, and a registry describes
    the committed contents.

    Processes and memory ([core/src]): IpcChannels ([ipc_channels.rs]),
    DynamicCapabilities ([dynamic_capabilities.rs], on ServiceIdentity and
    Capabilities), UserElf ([user_elf.rs]) and PhysicalMemory
    ([memory/physical.rs], where the read of a descriptor of the firmware's
    memory map is a parameter), each with its theorems and instances.

    ** What the theorems show

    - Runs of verified packages are safe: [verify_bytes] returns on every byte
      string, what it accepts is well formed and typed, and a run of it ends in
      an exit record with no structural error, whatever the host does.
    - Authority: every host call of a verified package presents a capability
      that its imports or an earlier call of the run granted with the needed
      kind and rights. For a compiled program these are the imports the source
      declares.
    - The graph passes of the verifier (reachability, dominators) compute
      exactly their textbook definitions.
    - The compiler front end is exact: lexer and parser accept the language of
      the grammar, the type checker the typing rules.
    - Handles of the kernel tables are never forged or reused: a granted
      capability is valid for exactly what was granted until it is revoked,
      and never afterwards, also through the storage service.
    - Storage survives crashes: journal recovery replays exactly the committed
      prefix, and it agrees with the allocator as long as every change is a
      journaled allocation that is committed before the next one.
    - The object service implements its specification: no call panics, an
      object is in all stores or in none, revisions are never lost, objects of
      the external workspace stay out of reach, and a snapshot restores the
      service. Its limits are theorems too: revisions run out, and a restart
      sets the clock back.
    - Checkpoints are atomic: from any contents of the device recovery returns,
      and through any failing writes and power failures a boot finds the last
      checkpoint that returned or one that was under way.
    - Package artifacts are accepted exactly when they have the described
      form, parse back to what was written and are bound by their digest.
      Contents of packages never share a block, an installation that fails
      anywhere leaves the installed contents readable, and what is read has the
      recorded digest.
    - Processes get what their creator grants: a spawned process can use
      exactly the resources of its policy, an IPC channel is a queue between
      two services, an accepted ELF file maps disjoint user pages that are
      never writable and executable, and a physical page has one owner; it
      is outside the reserved memory as long as nobody releases a page that
      was not handed out.
    - User ranges are accepted exactly inside one mapping that allows the
      access.

    ** Fuel

    Loops that are not structural run on fuel, and each total-correctness
    theorem shows that it is never used up. Reachability marks one of at most
    128 blocks or drops a pending bit in each round and gets 513 rounds; the dominator iteration removes a bit
    of a 128 by 128 matrix in each round but the last and gets 128 * 128 + 1;
    the interpreter gets one round more than its node budget; journal recovery
    gets nine rounds for eight records; the lexer gets one round per byte and
    one more; the parser gets five nested calls per token, because every
    chain of four calls consumes a token or ends.

    ** Not modelled

    Device drivers and probes, interrupt and paging code, the boot loader and
    the screens: they act on memory-mapped registers, ports and raw pointers,
    so their meaning is the hardware's. The system-call layer copies between
    user memory and the services modelled here. Of the software packages the
    requests of the package service and the packages, schemas, exports and
    grants of the registry are left out, and so are the task service, the
    scheduler and the network services, which keep tables of their own.
    Of the modelled files, tests and serial-port output are left out. *)

(** ** Prelude

    Shared vocabulary: the outcome monad of Rust code (a value, an error
    value, a panic, or a loop that has not finished within its fuel), its
    postcondition logic, bounded loops, machine integers over [Z], checked
    slice access and little-endian byte codecs. *)

From stdpp Require Import base numbers list sets.
From Stdlib Require Import ZArith Lia.
From Stdlib Require Import Strings.Byte.

#[global] Open Scope Z_scope.

(** ** Outcomes *)

(** What a Rust call can do: return [Ok], return [Err], panic (a failed
    [expect], an out-of-range index, an arithmetic overflow), or keep looping
    past the fuel the model grants to its loops. *)
Inductive outcome (E A : Type) : Type :=
| Ok (a : A)
| Err (e : E)
| Panic
| Diverge.
Arguments Ok {E A} a.
Arguments Err {E A} e.
Arguments Panic {E A}.
Arguments Diverge {E A}.

#[export] Instance outcome_ret E : MRet (outcome E) := fun A a => Ok a.
#[export] Instance outcome_bind E : MBind (outcome E) := fun A B k m =>
  match m with
  | Ok a => k a
  | Err e => Err e
  | Panic => Panic
  | Diverge => Diverge
  end.

#[export] Instance outcome_fmap E : FMap (outcome E) := fun A B f m =>
  match m with
  | Ok a => Ok (f a)
  | Err e => Err e
  | Panic => Panic
  | Diverge => Diverge
  end.

(** [Result::map_err] *)
Definition map_err {E F A} (f : E -> F) (m : outcome E A) : outcome F A :=
  match m with
  | Ok a => Ok a
  | Err e => Err (f e)
  | Panic => Panic
  | Diverge => Diverge
  end.

(** [Option::ok_or] *)
Definition ok_or {E A} (o : option A) (e : E) : outcome E A :=
  match o with Some a => Ok a | None => Err e end.

(** [Option::expect] *)
Definition expect {E A} (o : option A) : outcome E A :=
  match o with Some a => Ok a | None => Panic end.

(** [if c { return Err(e) }] *)
Definition reject {E} (c : bool) (e : E) : outcome E unit :=
  if c then Err e else Ok tt.

Definition is_ok {E A} (m : outcome E A) : bool :=
  match m with Ok _ => true | _ => false end.

(** ** Postconditions *)

(** [wp m Q R]: [m] neither panics nor diverges, a returned value satisfies
    [Q] and a returned error satisfies [R]. *)
Definition wp {E A} (m : outcome E A) (Q : A -> Prop) (R : E -> Prop) : Prop :=
  match m with
  | Ok a => Q a
  | Err e => R e
  | Panic => False
  | Diverge => False
  end.

(** Postcondition of the value alone; any error is allowed. *)
Abbreviation post m Q := (wp m Q (fun _ => True)).

Section wp_rules.
Context {E A B : Type}.

Lemma wp_ok (a : A) (Q : A -> Prop) (R : E -> Prop) : Q a -> wp (Ok a) Q R.
Proof. done. Qed.

Lemma wp_bind (m : outcome E A) (k : A -> outcome E B) Q R :
  wp m (fun a => wp (k a) Q R) R -> wp (m ≫= k) Q R.
Proof. by destruct m. Qed.

Lemma wp_mono (m : outcome E A) (Q Q' : A -> Prop) (R R' : E -> Prop) :
  wp m Q R -> (forall a, Q a -> Q' a) -> (forall e, R e -> R' e) -> wp m Q' R'.
Proof. destruct m; simpl; auto. Qed.

Lemma post_mono (m : outcome E A) (Q Q' : A -> Prop) :
  post m Q -> (forall a, Q a -> Q' a) -> post m Q'.
Proof. destruct m; simpl; auto. Qed.

Lemma wp_value (m : outcome E A) Q R : wp m Q R -> forall a, m = Ok a -> Q a.
Proof. intros H a ->. exact H. Qed.

Lemma wp_error (m : outcome E A) Q R : wp m Q R -> forall e, m = Err e -> R e.
Proof. intros H e ->. exact H. Qed.

Lemma wp_and (m : outcome E A) (Q Q' : A -> Prop) (R R' : E -> Prop) :
  wp m Q R -> wp m Q' R' -> wp m (fun a => Q a /\ Q' a) (fun e => R e /\ R' e).
Proof. destruct m; simpl; auto. Qed.

Lemma wp_ok_or (o : option A) (e : E) (Q : A -> Prop) (R : E -> Prop) :
  (forall a, o = Some a -> Q a) -> (o = None -> R e) -> wp (ok_or o e) Q R.
Proof. destruct o; simpl; auto. Qed.

Lemma wp_expect (o : option A) (Q : A -> Prop) (R : E -> Prop) :
  (exists a, o = Some a /\ Q a) -> wp (expect o) Q R.
Proof. by intros (a & -> & HQ). Qed.

Lemma wp_reject (c : bool) (e : E) (Q : unit -> Prop) (R : E -> Prop) :
  (c = false -> Q tt) -> (c = true -> R e) -> wp (reject c e) Q R.
Proof. destruct c; simpl; auto. Qed.

(** A postcondition, read as a case analysis on the outcome. *)
Lemma wp_elim (m : outcome E A) (Q : A -> Prop) (R : E -> Prop) :
  wp m Q R -> match m with Ok a => Q a | Err e => R e | _ => False end.
Proof. by destruct m. Qed.

Lemma ok_bind (a : A) (k : A -> outcome E B) : Ok a ≫= k = k a.
Proof. done. Qed.

Lemma bind_ok_inv (m : outcome E A) (k : A -> outcome E B) b :
  m ≫= k = Ok b -> exists a, m = Ok a /\ k a = Ok b.
Proof. destruct m; naive_solver. Qed.
End wp_rules.

Lemma wp_equals {E A} (m : outcome E A) a : wp m (fun x => x = a) (fun _ => False) -> m = Ok a.
Proof. unfold wp. destruct m; naive_solver. Qed.

Lemma wp_map_err {E F A} (f : E -> F) (m : outcome E A) Q R :
  wp m Q (fun e => R (f e)) -> wp (map_err f m) Q R.
Proof. by destruct m. Qed.

Lemma wp_fmap {E A B} (f : A -> B) (m : outcome E A) (Q : B -> Prop) R :
  wp m (fun a => Q (f a)) R -> wp (f <$> m) Q R.
Proof. by destruct m. Qed.

Lemma map_err_ok {E F A} (f : E -> F) (m : outcome E A) a :
  map_err f m = Ok a <-> m = Ok a.
Proof. destruct m; simpl; naive_solver. Qed.

(** Rewrites the head of an outcome hypothesis [H : m ≫= k = Ok b]. *)
Ltac inv_bind H :=
  let a := fresh "a" in
  let Ha := fresh "H" a in
  apply bind_ok_inv in H as (a & Ha & H).

(** One step of symbolic execution under [wp]. *)
Ltac wp_step :=
  cbv beta;
  lazymatch goal with
  | |- wp (_ ≫= _) _ _ => apply wp_bind
  | |- wp (Ok _) _ _ => apply wp_ok
  | |- wp (expect (Some _)) _ _ => apply wp_ok
  | |- wp (mret _) _ _ => apply wp_ok
  | |- wp (reject _ _) _ _ => apply wp_reject; [intros ?|done]
  | |- wp (ok_or _ _) _ _ => apply wp_ok_or; [intros ? ?|done]
  | |- wp (map_err _ _) _ _ => apply wp_map_err
  | |- wp (Err _) _ _ => exact I
  end.

(** Uses the postcondition [lem] of the call at the head. *)
Tactic Notation "wp_use" uconstr(lem) "as" simple_intropattern(x) simple_intropattern(H) :=
  eapply post_mono; [eapply lem | cbv beta; intros x H].

(** ** Loops *)

(** [for x in l { s = f(s, x)? }] *)
Fixpoint foldM {E S A} (f : S -> A -> outcome E S) (s : S) (l : list A) : outcome E S :=
  match l with
  | [] => Ok s
  | x :: l' => f s x ≫= fun s' => foldM f s' l'
  end.

(** [for x in l { f(x)? }] *)
Definition forM {E A} (l : list A) (f : A -> outcome E unit) : outcome E unit :=
  foldM (fun _ x => f x) tt l.

(** [loop] with at most [fuel] rounds; [inr] leaves the loop. *)
Fixpoint loop {E S R} (fuel : nat) (body : S -> outcome E (S + R)) (s : S) : outcome E R :=
  match fuel with
  | O => Diverge
  | S n => body s ≫= fun r => match r with inl s' => loop n body s' | inr r => Ok r end
  end.

(** [a..b] *)
Definition range (a b : Z) : list Z := seqZ a (b - a).

(** [len()] *)
Definition len {A} (l : list A) : Z := Z.of_nat (length l).

(** [iter().enumerate()] *)
Definition enumerate {A} (l : list A) : list (Z * A) := zip (range 0 (len l)) l.

Lemma wp_foldM_prefix {E S A} (f : S -> A -> outcome E S) (R : E -> Prop)
    (I : nat -> S -> Prop) (l : list A) (s : S) :
  I O s ->
  (forall i x s, l !! i = Some x -> I i s -> wp (f s x) (I (Datatypes.S i)) R) ->
  wp (foldM f s l) (I (length l)) R.
Proof.
  revert I s. induction l as [|x l IH]; intros I s H0 Hs; simpl; [done|].
  apply wp_bind. eapply wp_mono; [apply (Hs O x); done| |done].
  intros s' H'. apply (IH (fun i => I (Datatypes.S i))); [done|].
  intros i y s1 Hy. by apply (Hs (Datatypes.S i)).
Qed.

Lemma length_range a b : length (range a b) = Z.to_nat (b - a).
Proof. apply length_seqZ. Qed.

Lemma lookup_range a b (i : nat) x :
  range a b !! i = Some x <-> x = a + Z.of_nat i /\ a + Z.of_nat i < b.
Proof. unfold range. rewrite lookup_seqZ. lia. Qed.

Lemma elem_of_range a b x : x ∈ range a b <-> a <= x < b.
Proof. unfold range. rewrite elem_of_seqZ. lia. Qed.

Lemma range_nil a b : b <= a -> range a b = [].
Proof. intros H. apply length_zero_iff_nil. rewrite length_range. lia. Qed.

Lemma range_cons a b : a < b -> range a b = a :: range (a + 1) b.
Proof. intros H. unfold range. rewrite seqZ_cons by lia. f_equal. f_equal; lia. Qed.

Lemma length_enumerate {A} (l : list A) : length (enumerate l) = length l.
Proof. unfold enumerate, len. rewrite length_zip_with, length_range. lia. Qed.

Lemma lookup_enumerate {A} (l : list A) (i : nat) k x :
  enumerate l !! i = Some (k, x) <-> k = Z.of_nat i /\ l !! i = Some x.
Proof.
  unfold enumerate. rewrite lookup_zip_Some, lookup_range. split.
  - intros [[-> _] Hx]. split; [lia|done].
  - intros [-> Hx]. apply lookup_lt_Some in Hx as Hlt. unfold len. split; [lia|done].
Qed.

(** The loop invariant [I] is indexed by the number of elements done. *)
Lemma wp_foldM_enumerate {E S A} (f : S -> Z * A -> outcome E S) (R : E -> Prop)
    (I : nat -> S -> Prop) (l : list A) (s : S) :
  I O s ->
  (forall i x s, l !! i = Some x -> I i s -> wp (f s (Z.of_nat i, x)) (I (Datatypes.S i)) R) ->
  wp (foldM f s (enumerate l)) (I (length l)) R.
Proof.
  intros H0 Hs. rewrite <- (length_enumerate l).
  apply wp_foldM_prefix; [done|].
  intros i [k x] s' [-> Hx]%lookup_enumerate HI. by apply Hs.
Qed.

(** The loop invariant [I] is indexed by the next value of the range. *)
Lemma wp_foldM_range {E S} (f : S -> Z -> outcome E S) (R : E -> Prop)
    (I : Z -> S -> Prop) a b (s : S) :
  a <= b -> I a s ->
  (forall i s, a <= i < b -> I i s -> wp (f s i) (I (i + 1)) R) ->
  wp (foldM f s (range a b)) (I b) R.
Proof.
  intros Hab H0 Hs.
  pose proof (wp_foldM_prefix f R (fun i => I (a + Z.of_nat i)) (range a b) s) as H.
  rewrite length_range in H. replace (a + Z.of_nat (Z.to_nat (b - a))) with b in H by lia.
  apply H; [by rewrite Z.add_0_r|].
  intros i x s' [-> Hlt]%lookup_range HI.
  replace (a + Z.of_nat (Datatypes.S i)) with (a + Z.of_nat i + 1) by lia.
  apply Hs; [lia|done].
Qed.

(** A loop without state: what each round checks holds of every element. *)
Lemma wp_forM {E A} (l : list A) (f : A -> outcome E unit) (P : A -> Prop) (R : E -> Prop) :
  (forall x, x ∈ l -> wp (f x) (fun _ => P x) R) ->
  wp (forM l f) (fun _ => forall x, x ∈ l -> P x) R.
Proof.
  intros Hf.
  eapply wp_mono; [apply (wp_foldM_prefix _ R (fun n _ => forall i x, (i < n)%nat -> l !! i = Some x -> P x))|..].
  - lia.
  - intros i x s Hx HI. eapply wp_mono; [apply Hf, list_elem_of_lookup; eauto| |done].
    intros ? HP j y Hj Hy. destruct (decide (j = i)) as [->|]; [by simplify_eq|].
    apply (HI j); [lia|done].
  - simpl. intros ? H x [i Hi]%list_elem_of_lookup. eapply H; [|done]. by eapply lookup_lt_Some.
  - done.
Qed.

Lemma post_forM {E A} (l : list A) (f : A -> outcome E unit) (P : A -> Prop) :
  (forall x, x ∈ l -> post (f x) (fun _ => P x)) ->
  post (forM l f) (fun _ => forall x, x ∈ l -> P x).
Proof. apply wp_forM. Qed.

Lemma forM_ok {E A} (l : list A) (f : A -> outcome E unit) :
  forM l f = Ok tt <-> forall x, x ∈ l -> f x = Ok tt.
Proof.
  unfold forM. induction l as [|x l IH]; simpl.
  - split; [|done]. intros _ x Hx. set_solver.
  - split.
    + intros H. inv_bind H. destruct a. pose proof (proj1 IH H). set_solver.
    + intros H. rewrite (H x) by set_solver. simpl. apply IH. set_solver.
Qed.

(** Rule for [loop]: an invariant and a measure that every further round
    decreases; the fuel exceeds the measure. *)
Lemma wp_loop {E S R} (body : S -> outcome E (S + R)) (I : S -> Prop) (mu : S -> nat)
    (Q : R -> Prop) (EQ : E -> Prop) :
  (forall s, I s -> wp (body s)
     (fun r => match r with inl s' => I s' /\ (mu s' < mu s)%nat | inr r => Q r end) EQ) ->
  forall fuel s, I s -> (mu s < fuel)%nat -> wp (loop fuel body s) Q EQ.
Proof.
  intros Hb fuel. induction fuel as [|n IH]; intros s HI Hmu; [lia|]. simpl.
  apply wp_bind. eapply wp_mono; [by apply Hb| |done].
  intros [s'|r]; [|done]. intros [HI' Hlt]. apply IH; [done|lia].
Qed.

(** ** Machine integers *)

Definition u8_max : Z := 2 ^ 8 - 1.
Definition u16_max : Z := 2 ^ 16 - 1.
Definition u32_max : Z := 2 ^ 32 - 1.
Definition u64_max : Z := 2 ^ 64 - 1.

(** [as uN], [wrapping_*]: reduction modulo [2 ^ w]. *)
Definition wrap (w x : Z) : Z := x mod 2 ^ w.

(** [checked_add] and [checked_mul] at width [w]; [usize] has 64 bits on the
    x86-64 target. *)
Definition checked (w x : Z) : option Z :=
  if (0 <=? x) && (x <? 2 ^ w) then Some x else None.
Definition checked_add (w a b : Z) : option Z := checked w (a + b).
Definition checked_mul (w a b : Z) : option Z := checked w (a * b).

Definition uint (w x : Z) : Prop := 0 <= x < 2 ^ w.

#[export] Instance uint_dec w x : Decision (uint w x).
Proof. unfold uint. apply _. Defined.

Lemma checked_Some w x y : checked w x = Some y <-> y = x /\ uint w x.
Proof.
  unfold checked, uint. destruct (0 <=? x) eqn:?, (x <? 2 ^ w) eqn:?; simpl;
    split; intros; destruct_and?; simplify_eq; try split; lia.
Qed.

Lemma checked_id w x : uint w x -> checked w x = Some x.
Proof. intros. by apply checked_Some. Qed.

Lemma checked_None w x : checked w x = None <-> ~ uint w x.
Proof.
  unfold checked, uint. destruct (0 <=? x) eqn:?, (x <? 2 ^ w) eqn:?; simpl;
    split; intros; simplify_eq; try done; lia.
Qed.

Lemma wrap_range w x : 0 <= w -> uint w (wrap w x).
Proof. intros. unfold wrap, uint. apply Z.mod_pos_bound. lia. Qed.

Lemma wrap_small w x : uint w x -> wrap w x = x.
Proof. intros H. unfold wrap. by apply Z.mod_small. Qed.

(** ** Slices *)

(** [slice.get(i)] with a [usize] index. *)
Definition get {A} (l : list A) (i : Z) : option A :=
  if (0 <=? i) && (i <? len l) then l !! Z.to_nat i else None.

(** [slice[i]] panics out of range. *)
Definition index {E A} (l : list A) (i : Z) : outcome E A := expect (get l i).

(** [slice[i] = x] panics out of range. *)
Definition index_set {E A} (l : list A) (i : Z) (x : A) : outcome E (list A) :=
  if (0 <=? i) && (i <? len l) then Ok (<[Z.to_nat i := x]> l) else Panic.

(** [slice.get(a..b)] *)
Definition get_range {A} (l : list A) (a b : Z) : option (list A) :=
  if (0 <=? a) && (a <=? b) && (b <=? len l)
  then Some (take (Z.to_nat (b - a)) (drop (Z.to_nat a) l)) else None.

Lemma get_Some {A} (l : list A) i x :
  get l i = Some x <-> 0 <= i < len l /\ l !! Z.to_nat i = Some x.
Proof.
  unfold get. destruct (0 <=? i) eqn:?, (i <? len l) eqn:?; simpl;
    split; intros; destruct_and?; simplify_eq; try done; try lia.
  split; [lia|done].
Qed.

Lemma get_of_nat {A} (l : list A) (i : nat) : get l (Z.of_nat i) = l !! i.
Proof.
  unfold get, len. rewrite Nat2Z.id. destruct (decide (i < length l)%nat) as [H|H].
  - replace ((0 <=? Z.of_nat i) && (Z.of_nat i <? Z.of_nat (length l))) with true by lia. done.
  - replace ((0 <=? Z.of_nat i) && (Z.of_nat i <? Z.of_nat (length l))) with false by lia.
    symmetry. apply lookup_ge_None. lia.
Qed.

Lemma get_is_Some {A} (l : list A) i : is_Some (get l i) <-> 0 <= i < len l.
Proof.
  split.
  - intros [x Hx%get_Some]. by destruct Hx.
  - intros H. destruct (lookup_lt_is_Some_2 l (Z.to_nat i)) as [x Hx]; [unfold len in H; lia|].
    exists x. by apply get_Some.
Qed.

Lemma get_None {A} (l : list A) i : get l i = None <-> ~ (0 <= i < len l).
Proof. rewrite <- get_is_Some, eq_None_not_Some. done. Qed.

Lemma wp_index {E A} (l : list A) i (Q : A -> Prop) (R : E -> Prop) :
  0 <= i < len l -> (forall x, get l i = Some x -> Q x) -> wp (index l i) Q R.
Proof.
  intros [x Hx]%get_is_Some HQ. unfold index. apply wp_expect. eauto.
Qed.

Lemma wp_index_set {E A} (l : list A) i x (Q : list A -> Prop) (R : E -> Prop) :
  0 <= i < len l -> Q (<[Z.to_nat i := x]> l) -> wp (index_set l i x) Q R.
Proof.
  intros H HQ. unfold index_set.
  replace ((0 <=? i) && (i <? len l)) with true by lia. done.
Qed.

Lemma len_nonneg {A} (l : list A) : 0 <= len l.
Proof. unfold len. lia. Qed.

Lemma len_insert {A} (l : list A) (i : nat) x : len (<[i := x]> l) = len l.
Proof. unfold len. by rewrite length_insert. Qed.

Lemma len_replicate {A} (n : nat) (x : A) : len (replicate n x) = Z.of_nat n.
Proof. unfold len. by rewrite length_replicate. Qed.

Lemma get_insert_eq {A} (l : list A) i x :
  0 <= i < len l -> get (<[Z.to_nat i := x]> l) i = Some x.
Proof.
  intros H. apply get_Some. rewrite len_insert. split; [done|].
  apply list_lookup_insert_eq. unfold len in H. lia.
Qed.

Lemma get_insert_ne {A} (l : list A) i j x :
  0 <= i -> i <> j -> get (<[Z.to_nat i := x]> l) j = get l j.
Proof.
  intros Hi Hij. unfold get. rewrite len_insert.
  destruct (0 <=? j) eqn:?, (j <? len l) eqn:?; simpl; try done.
  apply list_lookup_insert_ne. lia.
Qed.

Lemma get_replicate {A} (n : nat) (x : A) i y :
  get (replicate n x) i = Some y <-> y = x /\ 0 <= i < Z.of_nat n.
Proof.
  rewrite get_Some, len_replicate, lookup_replicate.
  split; intros; destruct_and?; repeat split; auto with lia.
Qed.

Lemma get_elem_of {A} (l : list A) i x : get l i = Some x -> x ∈ l.
Proof. intros [_ H]%get_Some. apply list_elem_of_lookup. eauto. Qed.

Lemma elem_of_get {A} (l : list A) x : x ∈ l -> exists i, get l i = Some x.
Proof. intros [i Hi]%list_elem_of_lookup. exists (Z.of_nat i). by rewrite get_of_nat. Qed.

Lemma get_range_Some {A} (l : list A) a b r :
  get_range l a b = Some r <->
    0 <= a <= b /\ b <= len l /\ r = take (Z.to_nat (b - a)) (drop (Z.to_nat a) l).
Proof.
  unfold get_range.
  destruct (0 <=? a) eqn:?, (a <=? b) eqn:?, (b <=? len l) eqn:?; simpl;
    split; intros; destruct_and?; simplify_eq; try done; try lia.
  repeat split; lia.
Qed.

Lemma len_get_range {A} (l : list A) a b r : get_range l a b = Some r -> len r = b - a.
Proof.
  intros (? & ? & ->)%get_range_Some. unfold len in *. rewrite length_take, length_drop. lia.
Qed.

(** ** Bytes *)

Definition byte_val (b : byte) : Z := Z.of_N (Byte.to_N b).

(** [as u8] *)
Definition byte_of (x : Z) : byte :=
  match Byte.of_N (Z.to_N (wrap 8 x)) with Some b => b | None => x00 end.

#[export] Instance byte_eq_decision : EqDecision byte := Byte.byte_eq_dec.

Lemma byte_val_range b : 0 <= byte_val b < 256.
Proof. unfold byte_val. pose proof (Byte.to_N_bounded b). lia. Qed.

Lemma byte_val_of x : byte_val (byte_of x) = x mod 256.
Proof.
  unfold byte_val, byte_of, wrap. change (2 ^ 8) with 256.
  pose proof (Z.mod_pos_bound x 256 eq_refl) as Hb.
  destruct (Byte.of_N (Z.to_N (x mod 256))) as [b|] eqn:Hof.
  - apply Byte.to_of_N in Hof. rewrite Hof. lia.
  - apply Byte.of_N_None_iff in Hof. lia.
Qed.

Lemma byte_val_inj a b : byte_val a = byte_val b -> a = b.
Proof.
  unfold byte_val. intros H%N2Z.inj.
  pose proof (Byte.of_to_N a) as Ha. pose proof (Byte.of_to_N b) as Hb.
  rewrite H in Ha. congruence.
Qed.

Lemma byte_of_val b : byte_of (byte_val b) = b.
Proof. apply byte_val_inj. rewrite byte_val_of. apply Z.mod_small, byte_val_range. Qed.

(** [uN::from_le_bytes] *)
Fixpoint le_val (l : list byte) : Z :=
  match l with
  | [] => 0
  | b :: l' => byte_val b + 256 * le_val l'
  end.

(** [uN::to_le_bytes] of an [n]-byte integer. *)
Fixpoint le_bytes (n : nat) (x : Z) : list byte :=
  match n with
  | O => []
  | S n' => byte_of x :: le_bytes n' (x / 256)
  end.

Lemma length_le_bytes n x : length (le_bytes n x) = n.
Proof. revert x. induction n; simpl; auto. Qed.

Lemma le_val_range l : 0 <= le_val l < 256 ^ len l.
Proof.
  induction l as [|b l IH]; simpl; [done|]. pose proof (byte_val_range b).
  unfold len in *. simpl length. rewrite Nat2Z.inj_succ, Z.pow_succ_r by lia. lia.
Qed.

Lemma le_val_bytes n x : 0 <= x < 256 ^ Z.of_nat n -> le_val (le_bytes n x) = x.
Proof.
  revert x. induction n as [|n IH]; intros x Hx; simpl.
  - simpl in Hx. lia.
  - rewrite Nat2Z.inj_succ, Z.pow_succ_r in Hx by lia.
    rewrite byte_val_of, IH.
    + pose proof (Z.div_mod x 256 ltac:(lia)). lia.
    + split; [apply Z.div_pos; lia|]. apply Z.div_lt_upper_bound; lia.
Qed.

Lemma le_bytes_val l : le_bytes (length l) (le_val l) = l.
Proof.
  induction l as [|b l IH]; simpl; [done|]. pose proof (byte_val_range b) as Hb. f_equal.
  - apply byte_val_inj. rewrite byte_val_of, (Z.mul_comm 256), Z.mod_add by lia.
    by apply Z.mod_small.
  - rewrite (Z.mul_comm 256), Z.div_add, Z.div_small, Z.add_0_l by lia. done.
Qed.

Lemma le_val_inj l l' : length l = length l' -> le_val l = le_val l' -> l = l'.
Proof. intros Hl Hv. rewrite <- (le_bytes_val l), <- (le_bytes_val l'). congruence. Qed.

#[export] Hint Resolve byte_val_range len_nonneg : core.

(** ** Bit masks *)

Lemma testbit_bit i j : 0 <= i -> Z.testbit (Z.shiftl 1 i) j = bool_decide (i = j).
Proof.
  intros Hi. rewrite Z.shiftl_1_l, Z.pow2_bits_eqb by done.
  destruct (Z.eqb_spec i j); case_bool_decide; done.
Qed.

(** [mask & (1 << i) != 0] *)
Lemma land_bit_nonzero m i :
  0 <= i -> (Z.land m (Z.shiftl 1 i) =? 0) = negb (Z.testbit m i).
Proof.
  intros Hi. destruct (Z.testbit m i) eqn:Hb; simpl.
  - apply Z.eqb_neq. intros H0.
    assert (Z.testbit (Z.land m (Z.shiftl 1 i)) i = true) as H.
    { rewrite Z.land_spec, Hb, testbit_bit by done. by rewrite bool_decide_eq_true_2. }
    rewrite H0, Z.bits_0 in H. done.
  - apply Z.eqb_eq. apply Z.bits_inj'. intros j Hj.
    rewrite Z.land_spec, testbit_bit, Z.bits_0 by done.
    case_bool_decide; subst; [by rewrite Hb|apply andb_false_r].
Qed.

(** ** Pairs of a list *)

Lemma ordpairs_app {A} (P : A -> A -> Prop) (L M : list A) :
  ForallOrdPairs P (L ++ M) <->
  ForallOrdPairs P L /\ ForallOrdPairs P M /\ forall x y, x ∈ L -> y ∈ M -> P x y.
Proof.
  induction L as [|x L IH]; simpl.
  - split; [intros H; split_and!; [constructor|done|]; intros x y Hx; by apply not_elem_of_nil in Hx|by intros (_ & H & _)].
  - split.
    + intros H. inversion H as [|? ? Hx Hr]; subst. apply IH in Hr as (H1 & H2 & H3). apply Forall_app in Hx as [Hx1 Hx2].
      split_and!; [by constructor|done|]. intros y z [->|Hy]%elem_of_cons Hz; [|by apply H3]. rewrite Forall_forall in Hx2. by apply Hx2.
    + intros (H1 & H2 & H3). inversion H1 as [|? ? Hx Hr]; subst. constructor.
      * apply Forall_app. split; [done|]. apply Forall_forall. intros y Hy. apply H3; [by left|done].
      * apply IH. split_and!; [done..|]. intros y z Hy Hz. apply H3; [by right|done].
Qed.
