(* ===== verification/TigTypes.v ===== *)
(** * PythTIG types, opcodes and signatures

    Models [shared/src/pyth_tig/types.rs], [shared/src/pyth_tig/opcode.rs] and
    the numeric constants of the runtime, command and task ABIs that the
    verifier and the interpreter share. *)

From stdpp Require Import base numbers list sets.
From S2P Require Import Prelude.

Module Ty.
Inductive PythType : Type :=
| Unit | Bool | U64 | I64 | Bytes | Utf8 | ObjectId | RevisionId | TaskId
| ProposalId | Capability | Effect | ErrorCode.

#[export] Instance PythType_eq_dec : EqDecision PythType.
Proof. solve_decision. Defined.
End Ty.
Abbreviation PythType := Ty.PythType.
#[export] Existing Instance Ty.PythType_eq_dec.

Definition type_code (t : PythType) : Z :=
  match t with
  | Ty.Unit => 0x0000
  | Ty.Bool => 0x0001
  | Ty.U64 => 0x0002
  | Ty.I64 => 0x0003
  | Ty.Bytes => 0x0004
  | Ty.Utf8 => 0x0005
  | Ty.ObjectId => 0x0006
  | Ty.RevisionId => 0x0007
  | Ty.TaskId => 0x0008
  | Ty.ProposalId => 0x0009
  | Ty.Capability => 0x000A
  | Ty.Effect => 0x000B
  | Ty.ErrorCode => 0x000C
  end.

(** [TryFrom<u16> for PythType]; [None] is [UnknownType]. *)
Definition type_try_from (value : Z) : option PythType :=
  match value with
  | 0x0000 => Some Ty.Unit
  | 0x0001 => Some Ty.Bool
  | 0x0002 => Some Ty.U64
  | 0x0003 => Some Ty.I64
  | 0x0004 => Some Ty.Bytes
  | 0x0005 => Some Ty.Utf8
  | 0x0006 => Some Ty.ObjectId
  | 0x0007 => Some Ty.RevisionId
  | 0x0008 => Some Ty.TaskId
  | 0x0009 => Some Ty.ProposalId
  | 0x000A => Some Ty.Capability
  | 0x000B => Some Ty.Effect
  | 0x000C => Some Ty.ErrorCode
  | _ => None
  end.

Module Op.
Inductive Opcode : Type :=
| BlockParam | ConstBool | ConstU64 | ConstI64 | ConstBytes | ConstUtf8
| EffectStart | HostResult
| Eq | LessThanU64 | AddU64 | SubU64 | BoolAnd | BoolOr | BoolNot | Select
| Jump | Branch | Return
| SystemLog
| ObjectCreate | ObjectQuery | ObjectInspect | ObjectRevise | ObjectHistory
| TaskActiveRead | TaskProposalEmit | TaskProposalApprove | TaskSuspend
| TaskRevive | TaskContextRead
| GraphQueryRelated | RelevanceAssertionEmit
| CapabilityRequestEmit
| CommandRead | CommandResultEmit.

#[export] Instance Opcode_eq_dec : EqDecision Opcode.
Proof. solve_decision. Defined.
End Op.
Abbreviation Opcode := Op.Opcode.
#[export] Existing Instance Op.Opcode_eq_dec.

Definition opcode_code (o : Opcode) : Z :=
  match o with
  | Op.BlockParam => 0x0001
  | Op.ConstBool => 0x0002
  | Op.ConstU64 => 0x0003
  | Op.ConstI64 => 0x0004
  | Op.ConstBytes => 0x0005
  | Op.ConstUtf8 => 0x0006
  | Op.EffectStart => 0x0007
  | Op.HostResult => 0x0008
  | Op.Eq => 0x0100
  | Op.LessThanU64 => 0x0101
  | Op.AddU64 => 0x0102
  | Op.SubU64 => 0x0103
  | Op.BoolAnd => 0x0104
  | Op.BoolOr => 0x0105
  | Op.BoolNot => 0x0106
  | Op.Select => 0x0107
  | Op.Jump => 0x0200
  | Op.Branch => 0x0201
  | Op.Return => 0x0202
  | Op.SystemLog => 0x1000
  | Op.ObjectCreate => 0x1100
  | Op.ObjectQuery => 0x1101
  | Op.ObjectInspect => 0x1102
  | Op.ObjectRevise => 0x1103
  | Op.ObjectHistory => 0x1104
  | Op.TaskActiveRead => 0x1200
  | Op.TaskProposalEmit => 0x1201
  | Op.TaskProposalApprove => 0x1202
  | Op.TaskSuspend => 0x1203
  | Op.TaskRevive => 0x1204
  | Op.TaskContextRead => 0x1205
  | Op.GraphQueryRelated => 0x1300
  | Op.RelevanceAssertionEmit => 0x1301
  | Op.CapabilityRequestEmit => 0x1400
  | Op.CommandRead => 0x1500
  | Op.CommandResultEmit => 0x1501
  end.

(** [TryFrom<u16> for Opcode]; [None] is [UnknownOpcode]. *)
Definition opcode_try_from (value : Z) : option Opcode :=
  match value with
  | 0x0001 => Some Op.BlockParam
  | 0x0002 => Some Op.ConstBool
  | 0x0003 => Some Op.ConstU64
  | 0x0004 => Some Op.ConstI64
  | 0x0005 => Some Op.ConstBytes
  | 0x0006 => Some Op.ConstUtf8
  | 0x0007 => Some Op.EffectStart
  | 0x0008 => Some Op.HostResult
  | 0x0100 => Some Op.Eq
  | 0x0101 => Some Op.LessThanU64
  | 0x0102 => Some Op.AddU64
  | 0x0103 => Some Op.SubU64
  | 0x0104 => Some Op.BoolAnd
  | 0x0105 => Some Op.BoolOr
  | 0x0106 => Some Op.BoolNot
  | 0x0107 => Some Op.Select
  | 0x0200 => Some Op.Jump
  | 0x0201 => Some Op.Branch
  | 0x0202 => Some Op.Return
  | 0x1000 => Some Op.SystemLog
  | 0x1100 => Some Op.ObjectCreate
  | 0x1101 => Some Op.ObjectQuery
  | 0x1102 => Some Op.ObjectInspect
  | 0x1103 => Some Op.ObjectRevise
  | 0x1104 => Some Op.ObjectHistory
  | 0x1200 => Some Op.TaskActiveRead
  | 0x1201 => Some Op.TaskProposalEmit
  | 0x1202 => Some Op.TaskProposalApprove
  | 0x1203 => Some Op.TaskSuspend
  | 0x1204 => Some Op.TaskRevive
  | 0x1205 => Some Op.TaskContextRead
  | 0x1300 => Some Op.GraphQueryRelated
  | 0x1301 => Some Op.RelevanceAssertionEmit
  | 0x1400 => Some Op.CapabilityRequestEmit
  | 0x1500 => Some Op.CommandRead
  | 0x1501 => Some Op.CommandResultEmit
  | _ => None
  end.

Definition RESOURCE_SYSTEM_LOG : Z := 1.
Definition RESOURCE_OBJECT_WORKSPACE : Z := 2.
Definition RESOURCE_OBJECT : Z := 3.
Definition RESOURCE_TASK : Z := 4.
Definition RESOURCE_GRAPH : Z := 5.
Definition RESOURCE_COMMAND : Z := 6.

Definition RIGHTS_READ : Z := 0x0001.
Definition RIGHTS_QUERY : Z := 0x0002.
Definition RIGHTS_REVISE : Z := 0x0004.
Definition RIGHTS_CREATE : Z := 0x0008.
Definition RIGHTS_APPEND : Z := 0x0010.
Definition RIGHTS_APPROVE : Z := 0x0020.
Definition RIGHTS_CONTROL : Z := 0x0040.

Definition TASK_RIGHT_READ_CONTEXT : Z := 0x0001.
Definition TASK_RIGHT_CREATE_PROPOSAL : Z := 0x0008.
Definition TASK_RIGHT_APPROVE_PROPOSAL : Z := 0x0020.
Definition TASK_RIGHT_CONTROL_STATE : Z := 0x0040.

(** [inputs] is the four-element array padded with [Unit]. *)
Record OpcodeSignature : Type := {
  inputs : list PythType;
  input_count : Z;
  result : PythType;
  effectful : bool;
  terminator : bool;
  required_resource_kind : option Z;
  required_rights : Z }.

Definition sig (ins : list PythType) (res : PythType) : OpcodeSignature := {|
  inputs := ins ++ replicate (4 - length ins) Ty.Unit;
  input_count := wrap 8 (len ins);
  result := res;
  effectful := false;
  terminator := false;
  required_resource_kind := None;
  required_rights := 0 |}.

Definition terminator_with_inputs (ins : list PythType) (res : PythType) : OpcodeSignature :=
  let s := sig ins res in
  {| inputs := inputs s; input_count := input_count s; result := result s;
     effectful := effectful s; terminator := true;
     required_resource_kind := required_resource_kind s;
     required_rights := required_rights s |}.

Definition terminator_sig (res : PythType) : OpcodeSignature :=
  terminator_with_inputs [] res.

Definition host_sig (ins : list PythType) (resource_kind rights : Z) : OpcodeSignature :=
  let s := sig ins Ty.Effect in
  {| inputs := inputs s; input_count := input_count s; result := result s;
     effectful := true; terminator := terminator s;
     required_resource_kind := Some resource_kind;
     required_rights := rights |}.

Definition signature (o : Opcode) : OpcodeSignature :=
  match o with
  | Op.BlockParam => sig [] Ty.Unit
  | Op.ConstBool => sig [] Ty.Bool
  | Op.ConstU64 => sig [] Ty.U64
  | Op.ConstI64 => sig [] Ty.I64
  | Op.ConstBytes => sig [] Ty.Bytes
  | Op.ConstUtf8 => sig [] Ty.Utf8
  | Op.EffectStart => sig [] Ty.Effect
  | Op.HostResult => sig [Ty.Effect] Ty.Unit
  | Op.Eq => sig [Ty.U64; Ty.U64] Ty.Bool
  | Op.LessThanU64 => sig [Ty.U64; Ty.U64] Ty.Bool
  | Op.AddU64 => sig [Ty.U64; Ty.U64] Ty.U64
  | Op.SubU64 => sig [Ty.U64; Ty.U64] Ty.U64
  | Op.BoolAnd => sig [Ty.Bool; Ty.Bool] Ty.Bool
  | Op.BoolOr => sig [Ty.Bool; Ty.Bool] Ty.Bool
  | Op.BoolNot => sig [Ty.Bool] Ty.Bool
  | Op.Select => sig [Ty.Bool; Ty.U64; Ty.U64] Ty.U64
  | Op.Jump => terminator_sig Ty.Unit
  | Op.Branch => terminator_with_inputs [Ty.Bool] Ty.Unit
  | Op.Return => terminator_sig Ty.Unit
  | Op.SystemLog =>
      host_sig [Ty.Effect; Ty.Capability; Ty.Utf8] RESOURCE_SYSTEM_LOG RIGHTS_READ
  | Op.ObjectCreate =>
      host_sig [Ty.Effect; Ty.Capability; Ty.Utf8] RESOURCE_OBJECT_WORKSPACE RIGHTS_CREATE
  | Op.ObjectQuery =>
      host_sig [Ty.Effect; Ty.Capability; Ty.Utf8] RESOURCE_OBJECT_WORKSPACE RIGHTS_QUERY
  | Op.ObjectInspect =>
      host_sig [Ty.Effect; Ty.Capability; Ty.ObjectId] RESOURCE_OBJECT RIGHTS_READ
  | Op.ObjectRevise =>
      host_sig [Ty.Effect; Ty.Capability; Ty.ObjectId; Ty.Bytes] RESOURCE_OBJECT RIGHTS_REVISE
  | Op.ObjectHistory =>
      host_sig [Ty.Effect; Ty.Capability; Ty.ObjectId] RESOURCE_OBJECT RIGHTS_READ
  | Op.TaskActiveRead =>
      host_sig [Ty.Effect; Ty.Capability] RESOURCE_TASK TASK_RIGHT_READ_CONTEXT
  | Op.TaskProposalEmit =>
      host_sig [Ty.Effect; Ty.Capability; Ty.TaskId; Ty.U64] RESOURCE_TASK
        TASK_RIGHT_CREATE_PROPOSAL
  | Op.TaskProposalApprove =>
      host_sig [Ty.Effect; Ty.Capability; Ty.ProposalId] RESOURCE_TASK
        TASK_RIGHT_APPROVE_PROPOSAL
  | Op.TaskSuspend | Op.TaskRevive =>
      host_sig [Ty.Effect; Ty.Capability; Ty.TaskId] RESOURCE_TASK TASK_RIGHT_CONTROL_STATE
  | Op.TaskContextRead =>
      host_sig [Ty.Effect; Ty.Capability] RESOURCE_TASK TASK_RIGHT_READ_CONTEXT
  | Op.GraphQueryRelated =>
      host_sig [Ty.Effect; Ty.Capability; Ty.ObjectId] RESOURCE_GRAPH RIGHTS_QUERY
  | Op.RelevanceAssertionEmit =>
      host_sig [Ty.Effect; Ty.Capability; Ty.ObjectId; Ty.ObjectId] RESOURCE_GRAPH RIGHTS_APPEND
  | Op.CapabilityRequestEmit =>
      host_sig [Ty.Effect; Ty.Capability; Ty.Utf8] RESOURCE_TASK RIGHTS_APPEND
  | Op.CommandRead => host_sig [Ty.Effect; Ty.Capability] RESOURCE_COMMAND RIGHTS_READ
  | Op.CommandResultEmit =>
      host_sig [Ty.Effect; Ty.Capability; Ty.ErrorCode; Ty.Utf8] RESOURCE_COMMAND RIGHTS_APPEND
  end.

(** ** ABI constants *)

Definition HOST_RESULT_STATUS : Z := 0.
Definition HOST_RESULT_OBJECT_ID : Z := 1.
Definition HOST_RESULT_REVISION : Z := 2.
Definition HOST_RESULT_CAPABILITY : Z := 3.
Definition HOST_RESULT_UTF8 : Z := 4.
Definition MAX_HOST_RESULT_BYTES : Z := 64.
Definition MAX_PYTH_GRAPH_IMPORTS : Z := 32.

Definition TASK_CONTEXT_RESULT_ACTIVE_TASK_ID : Z := 0.
Definition TASK_CONTEXT_RESULT_CANDIDATE_TASK_ID : Z := 1.
Definition TASK_CONTEXT_RESULT_CONFIDENCE_SCORE : Z := 2.
Definition TASK_CONTEXT_RESULT_PROPOSAL_KIND : Z := 3.
Definition TASK_CONTEXT_RESULT_REASON_UTF8 : Z := 4.

Definition COMMAND_FIELD_KIND : Z := 0.
Definition COMMAND_FIELD_OBJECT_ID : Z := 1.
Definition COMMAND_FIELD_TASK_ID : Z := 2.
Definition COMMAND_FIELD_PROPOSAL_ID : Z := 3.
Definition COMMAND_FIELD_TEXT_UTF8 : Z := 4.

Definition command_kind_is_known (kind : Z) : bool := (1 <=? kind) && (kind <=? 12).

(** ** Facts *)

Lemma type_try_from_code t : type_try_from (type_code t) = Some t.
Proof. by destruct t. Qed.

Lemma opcode_try_from_code o : opcode_try_from (opcode_code o) = Some o.
Proof. by destruct o. Qed.

(** Closes [try_from c = Some x -> code x = c] by walking the decision tree of
    the literal match. *)
Ltac walk_literals :=
  repeat match goal with
  | H : context [match ?x with _ => _ end] |- _ => is_var x; destruct x; try discriminate H
  end; intros; simplify_eq; reflexivity.

Lemma type_code_try_from c t : type_try_from c = Some t -> type_code t = c.
Proof. unfold type_try_from. intros H. walk_literals. Qed.

Lemma opcode_code_try_from c o : opcode_try_from c = Some o -> opcode_code o = c.
Proof. unfold opcode_try_from. intros H. walk_literals. Qed.

Lemma type_code_range t : uint 16 (type_code t).
Proof. destruct t; unfold uint; simpl; lia. Qed.

Lemma opcode_code_range o : uint 16 (opcode_code o).
Proof. destruct o; unfold uint; simpl; lia. Qed.
