(* ===== verification/TigFormat.v ===== *)
(** * The PythTIG package format

    Models [shared/src/pyth_tig/format.rs]: the 96-byte header, the four record
    tables, the byte sections, the FNV-1a checksum and the decoder. Field names
    carry a prefix per record ([h_], [t_], [b_], [n_], [i_]). A [usize] is a
    64-bit integer, so the [u32] to [usize] conversions of the source are
    identities; its checked arithmetic is kept. *)

From stdpp Require Import base numbers list sets.
From Stdlib Require Import Strings.Byte.
From S2P Require Import Prelude.

Definition PYTH_TIG_MAGIC : list byte := [x50; x59; x54; x48; x54; x49; x47; x31].
Definition PYTH_TIG_MAJOR : Z := 1.
Definition PYTH_TIG_MINOR : Z := 1.

Definition MAX_PACKAGE_BYTES : Z := 131072.
Definition MAX_GRAPH_NODES : Z := 1024.
Definition MAX_BLOCKS : Z := 128.
Definition MAX_CAPABILITY_IMPORTS : Z := 32.
Definition MAX_CONSTANT_POOL_BYTES : Z := 65536.
Definition MAX_STRING_TABLE_BYTES : Z := 16384.
Definition MAX_RUNTIME_VALUES : Z := 1024.

Definition NO_VALUE : Z := u32_max.

Definition PYTH_GRAPH_HEADER_SIZE : Z := 96.
Definition TYPE_RECORD_SIZE : Z := 8.
Definition BLOCK_RECORD_SIZE : Z := 24.
Definition NODE_RECORD_SIZE : Z := 40.
Definition CAPABILITY_IMPORT_RECORD_SIZE : Z := 24.
Definition RECORD_SECTION_ALIGNMENT : Z := 4.
Definition CHECKSUM_OFFSET : Z := 84.
Definition CHECKSUM_END : Z := 92.

Record PythGraphHeader : Type := {
  h_magic : list byte;
  h_major : Z;
  h_minor : Z;
  h_flags : Z;
  h_package_id : Z;
  h_principal_id : Z;
  h_entry_block : Z;
  h_type_count : Z;
  h_block_count : Z;
  h_node_count : Z;
  h_import_count : Z;
  h_constant_pool_len : Z;
  h_string_table_len : Z;
  h_types_offset : Z;
  h_blocks_offset : Z;
  h_nodes_offset : Z;
  h_imports_offset : Z;
  h_constant_pool_offset : Z;
  h_string_table_offset : Z;
  h_checksum : Z;
  h_reserved : Z }.

Record TypeRecord : Type := { t_kind : Z; t_flags : Z; t_auxiliary : Z }.

Record BlockRecord : Type := {
  b_block_id : Z;
  b_first_node : Z;
  b_node_count : Z;
  b_parameter_count : Z;
  b_flags : Z;
  b_terminator_node : Z;
  b_reserved : Z }.

Record NodeRecord : Type := {
  n_opcode : Z;
  n_result_type : Z;
  n_flags : Z;
  n_block_index : Z;
  n_input0 : Z;
  n_input1 : Z;
  n_input2 : Z;
  n_input3 : Z;
  n_auxiliary0 : Z;
  n_auxiliary1 : Z;
  n_immediate : Z }.

Record CapabilityImportRecord : Type := {
  i_name_offset : Z;
  i_name_len : Z;
  i_resource_kind : Z;
  i_rights : Z;
  i_expected_type : Z;
  i_import_slot : Z;
  i_reserved : Z }.

Inductive PackageDecodeError : Type :=
| PackageTooLarge | HeaderTooShort | BadMagic | UnsupportedMajor | UnsupportedMinor
| UnsupportedFlags | NonZeroReserved | CountLimit | LengthLimit | OffsetOverflow
| SectionOutOfBounds | SectionUnaligned | SectionOrder | SectionOverlap
| ChecksumMismatch | StringOutOfBounds.

Record PythGraphPackage : Type := { p_bytes : list byte; p_header : PythGraphHeader }.

Record SectionRange : Type := { s_start : Z; s_end : Z }.

(** ** Field reads *)

Definition read_bytes (n : Z) (bytes : list byte) (offset : Z)
  : outcome PackageDecodeError (list byte) :=
  end_ ← ok_or (checked_add 64 offset n) OffsetOverflow;
  ok_or (get_range bytes offset end_) HeaderTooShort.

Definition read_u16 (bytes : list byte) (offset : Z) : outcome PackageDecodeError Z :=
  raw ← read_bytes 2 bytes offset; Ok (le_val raw).
Definition read_u32 (bytes : list byte) (offset : Z) : outcome PackageDecodeError Z :=
  raw ← read_bytes 4 bytes offset; Ok (le_val raw).
Definition read_u64 (bytes : list byte) (offset : Z) : outcome PackageDecodeError Z :=
  raw ← read_bytes 8 bytes offset; Ok (le_val raw).
Definition read_magic (bytes : list byte) : outcome PackageDecodeError (list byte) :=
  read_bytes 8 bytes 0.

Definition read_header (bytes : list byte) : outcome PackageDecodeError PythGraphHeader :=
  magic ← read_magic bytes;
  major ← read_u16 bytes 8;
  minor ← read_u16 bytes 10;
  flags ← read_u32 bytes 12;
  package_id ← read_u64 bytes 16;
  principal_id ← read_u64 bytes 24;
  entry_block ← read_u32 bytes 32;
  type_count ← read_u32 bytes 36;
  block_count ← read_u32 bytes 40;
  node_count ← read_u32 bytes 44;
  import_count ← read_u32 bytes 48;
  constant_pool_len ← read_u32 bytes 52;
  string_table_len ← read_u32 bytes 56;
  types_offset ← read_u32 bytes 60;
  blocks_offset ← read_u32 bytes 64;
  nodes_offset ← read_u32 bytes 68;
  imports_offset ← read_u32 bytes 72;
  constant_pool_offset ← read_u32 bytes 76;
  string_table_offset ← read_u32 bytes 80;
  checksum ← read_u64 bytes CHECKSUM_OFFSET;
  reserved ← read_u32 bytes CHECKSUM_END;
  Ok {| h_magic := magic; h_major := major; h_minor := minor; h_flags := flags;
        h_package_id := package_id; h_principal_id := principal_id;
        h_entry_block := entry_block; h_type_count := type_count;
        h_block_count := block_count; h_node_count := node_count;
        h_import_count := import_count; h_constant_pool_len := constant_pool_len;
        h_string_table_len := string_table_len; h_types_offset := types_offset;
        h_blocks_offset := blocks_offset; h_nodes_offset := nodes_offset;
        h_imports_offset := imports_offset; h_constant_pool_offset := constant_pool_offset;
        h_string_table_offset := string_table_offset; h_checksum := checksum;
        h_reserved := reserved |}.

Definition decode_type_record (bytes : list byte) (offset : Z)
  : outcome PackageDecodeError TypeRecord :=
  kind ← read_u16 bytes offset;
  flags ← read_u16 bytes (offset + 2);
  auxiliary ← read_u32 bytes (offset + 4);
  Ok {| t_kind := kind; t_flags := flags; t_auxiliary := auxiliary |}.

Definition decode_block_record (bytes : list byte) (offset : Z)
  : outcome PackageDecodeError BlockRecord :=
  block_id ← read_u32 bytes offset;
  first_node ← read_u32 bytes (offset + 4);
  node_count ← read_u32 bytes (offset + 8);
  parameter_count ← read_u16 bytes (offset + 12);
  flags ← read_u16 bytes (offset + 14);
  terminator_node ← read_u32 bytes (offset + 16);
  reserved ← read_u32 bytes (offset + 20);
  Ok {| b_block_id := block_id; b_first_node := first_node; b_node_count := node_count;
        b_parameter_count := parameter_count; b_flags := flags;
        b_terminator_node := terminator_node; b_reserved := reserved |}.

Definition decode_node_record (bytes : list byte) (offset : Z)
  : outcome PackageDecodeError NodeRecord :=
  opcode ← read_u16 bytes offset;
  result_type ← read_u16 bytes (offset + 2);
  flags ← read_u16 bytes (offset + 4);
  block_index ← read_u16 bytes (offset + 6);
  input0 ← read_u32 bytes (offset + 8);
  input1 ← read_u32 bytes (offset + 12);
  input2 ← read_u32 bytes (offset + 16);
  input3 ← read_u32 bytes (offset + 20);
  auxiliary0 ← read_u32 bytes (offset + 24);
  auxiliary1 ← read_u32 bytes (offset + 28);
  immediate ← read_u64 bytes (offset + 32);
  Ok {| n_opcode := opcode; n_result_type := result_type; n_flags := flags;
        n_block_index := block_index; n_input0 := input0; n_input1 := input1;
        n_input2 := input2; n_input3 := input3; n_auxiliary0 := auxiliary0;
        n_auxiliary1 := auxiliary1; n_immediate := immediate |}.

Definition decode_capability_import_record (bytes : list byte) (offset : Z)
  : outcome PackageDecodeError CapabilityImportRecord :=
  name_offset ← read_u32 bytes offset;
  name_len ← read_u16 bytes (offset + 4);
  resource_kind ← read_u16 bytes (offset + 6);
  rights ← read_u64 bytes (offset + 8);
  expected_type ← read_u16 bytes (offset + 16);
  import_slot ← read_u16 bytes (offset + 18);
  reserved ← read_u32 bytes (offset + 20);
  Ok {| i_name_offset := name_offset; i_name_len := name_len;
        i_resource_kind := resource_kind; i_rights := rights;
        i_expected_type := expected_type; i_import_slot := import_slot;
        i_reserved := reserved |}.

(** ** Header and section validation *)

Definition validate_count (count limit : Z) : outcome PackageDecodeError unit :=
  reject (limit <? count) CountLimit.

Definition validate_len (l limit : Z) : outcome PackageDecodeError unit :=
  reject (limit <? l) LengthLimit.

Definition validate_header (header : PythGraphHeader) : outcome PackageDecodeError unit :=
  reject (negb (bool_decide (h_magic header = PYTH_TIG_MAGIC))) BadMagic;;
  reject (negb (h_major header =? PYTH_TIG_MAJOR)) UnsupportedMajor;;
  reject (PYTH_TIG_MINOR <? h_minor header) UnsupportedMinor;;
  reject (negb (h_flags header =? 0)) UnsupportedFlags;;
  reject (negb (h_reserved header =? 0)) NonZeroReserved;;
  validate_count (h_type_count header) MAX_RUNTIME_VALUES;;
  validate_count (h_block_count header) MAX_BLOCKS;;
  validate_count (h_node_count header) MAX_GRAPH_NODES;;
  validate_count (h_import_count header) MAX_CAPABILITY_IMPORTS;;
  validate_len (h_constant_pool_len header) MAX_CONSTANT_POOL_BYTES;;
  validate_len (h_string_table_len header) MAX_STRING_TABLE_BYTES.

Definition range_from_parts (start l : Z) : outcome PackageDecodeError SectionRange :=
  end_ ← ok_or (checked_add 64 start l) OffsetOverflow;
  Ok {| s_start := start; s_end := end_ |}.

Definition record_range (offset count record_size : Z) : outcome PackageDecodeError SectionRange :=
  l ← ok_or (checked_mul 64 count record_size) LengthLimit;
  range_from_parts offset l.

Definition byte_range (offset l : Z) : outcome PackageDecodeError SectionRange :=
  range_from_parts offset l.

Definition validate_byte_section (bytes : list byte) (r : SectionRange)
  : outcome PackageDecodeError unit :=
  reject (len bytes <? s_end r) SectionOutOfBounds.

Definition validate_record_section (bytes : list byte) (r : SectionRange)
  : outcome PackageDecodeError unit :=
  validate_byte_section bytes r;;
  reject (negb (s_start r mod RECORD_SECTION_ALIGNMENT =? 0)) SectionUnaligned.

Definition validate_record_reserved (bytes : list byte) (r : SectionRange)
    (count record_size field_offset : Z) : outcome PackageDecodeError unit :=
  forM (range 0 count) (fun index =>
    record_delta ← ok_or (checked_mul 64 index record_size) LengthLimit;
    record_start ← ok_or (checked_add 64 (s_start r) record_delta) OffsetOverflow;
    reserved_offset ← ok_or (checked_add 64 record_start field_offset) OffsetOverflow;
    v ← read_u32 bytes reserved_offset;
    reject (negb (v =? 0)) NonZeroReserved).

Definition validate_section_layout (bytes_len : Z) (sections : list SectionRange)
  : outcome PackageDecodeError unit :=
  expected_start ← foldM (fun expected_start section =>
      reject (s_start section <? expected_start) SectionOverlap;;
      reject (expected_start <? s_start section) SectionOrder;;
      Ok (s_end section))
    PYTH_GRAPH_HEADER_SIZE sections;
  reject (negb (expected_start =? bytes_len)) SectionOutOfBounds.

Definition validate_sections (bytes : list byte) (header : PythGraphHeader)
  : outcome PackageDecodeError unit :=
  types ← record_range (h_types_offset header) (h_type_count header) TYPE_RECORD_SIZE;
  blocks ← record_range (h_blocks_offset header) (h_block_count header) BLOCK_RECORD_SIZE;
  nodes ← record_range (h_nodes_offset header) (h_node_count header) NODE_RECORD_SIZE;
  imports ← record_range (h_imports_offset header) (h_import_count header)
              CAPABILITY_IMPORT_RECORD_SIZE;
  constant_pool ← byte_range (h_constant_pool_offset header) (h_constant_pool_len header);
  string_table ← byte_range (h_string_table_offset header) (h_string_table_len header);
  validate_record_section bytes types;;
  validate_record_section bytes blocks;;
  validate_record_section bytes nodes;;
  validate_record_section bytes imports;;
  validate_record_reserved bytes blocks (h_block_count header) BLOCK_RECORD_SIZE 20;;
  validate_record_reserved bytes imports (h_import_count header)
    CAPABILITY_IMPORT_RECORD_SIZE 20;;
  validate_byte_section bytes constant_pool;;
  validate_byte_section bytes string_table;;
  validate_section_layout (len bytes)
    [types; blocks; nodes; imports; constant_pool; string_table].

(** ** Checksum *)

(** One FNV-1a round; [wrapping_mul] by the 64-bit prime. *)
Definition fnv_step (hash byte : Z) : Z := wrap 64 (Z.lxor hash byte * 0x100000001B3).

Definition package_checksum (bytes : list byte) : Z :=
  foldl (fun hash '(index, byte) =>
      fnv_step hash (if (CHECKSUM_OFFSET <=? index) && (index <? CHECKSUM_END)
                     then 0 else byte_val byte))
    0xcbf29ce484222325 (enumerate bytes).

(** ** The decoder *)

Definition decode (bytes : list byte) : outcome PackageDecodeError PythGraphPackage :=
  reject (MAX_PACKAGE_BYTES <? len bytes) PackageTooLarge;;
  reject (len bytes <? PYTH_GRAPH_HEADER_SIZE) HeaderTooShort;;
  header ← read_header bytes;
  validate_header header;;
  validate_sections bytes header;;
  reject (negb (package_checksum bytes =? h_checksum header)) ChecksumMismatch;;
  Ok {| p_bytes := bytes; p_header := header |}.

(** ** Record tables *)

Definition record_bytes (bytes : list byte) (index record_size : Z) : option (list byte) :=
  start ← checked_mul 64 index record_size;
  end_ ← checked_add 64 start record_size;
  get_range bytes start end_.

(** [Result::ok] *)
Definition ok {E A} (m : outcome E A) : option A :=
  match m with Ok a => Some a | _ => None end.

Definition type_record_get (bytes : list byte) (index : Z) : option TypeRecord :=
  record_bytes bytes index TYPE_RECORD_SIZE ≫= fun b => ok (decode_type_record b 0).
Definition block_record_get (bytes : list byte) (index : Z) : option BlockRecord :=
  record_bytes bytes index BLOCK_RECORD_SIZE ≫= fun b => ok (decode_block_record b 0).
Definition node_record_get (bytes : list byte) (index : Z) : option NodeRecord :=
  record_bytes bytes index NODE_RECORD_SIZE ≫= fun b => ok (decode_node_record b 0).
Definition import_record_get (bytes : list byte) (index : Z) : option CapabilityImportRecord :=
  record_bytes bytes index CAPABILITY_IMPORT_RECORD_SIZE ≫= fun b =>
    ok (decode_capability_import_record b 0).

(** [*RecordIter::next] run to the end: records from [index] on until [get]
    returns [None]. *)
Fixpoint collect {A} (get : Z -> option A) (fuel : nat) (index : Z) : list A :=
  match fuel with
  | O => []
  | S n => match get index with None => [] | Some x => x :: collect get n (index + 1) end
  end.

(** [PythGraphPackage::record_section] and [byte_section]: they panic when the
    range does not fit, which a decoded package excludes
    ([sections_never_panic] below). *)
Definition record_section (p : PythGraphPackage) (offset count record_size : Z)
  : outcome PackageDecodeError (list byte) :=
  r ← expect (ok (record_range offset count record_size));
  expect (get_range (p_bytes p) (s_start r) (s_end r)).

Definition byte_section (p : PythGraphPackage) (offset l : Z)
  : outcome PackageDecodeError (list byte) :=
  r ← expect (ok (byte_range offset l));
  expect (get_range (p_bytes p) (s_start r) (s_end r)).

Definition or_empty (m : outcome PackageDecodeError (list byte)) : list byte :=
  default [] (ok m).

Definition types_bytes (p : PythGraphPackage) : list byte :=
  or_empty (record_section p (h_types_offset (p_header p)) (h_type_count (p_header p))
              TYPE_RECORD_SIZE).
Definition blocks_bytes (p : PythGraphPackage) : list byte :=
  or_empty (record_section p (h_blocks_offset (p_header p)) (h_block_count (p_header p))
              BLOCK_RECORD_SIZE).
Definition nodes_bytes (p : PythGraphPackage) : list byte :=
  or_empty (record_section p (h_nodes_offset (p_header p)) (h_node_count (p_header p))
              NODE_RECORD_SIZE).
Definition imports_bytes (p : PythGraphPackage) : list byte :=
  or_empty (record_section p (h_imports_offset (p_header p)) (h_import_count (p_header p))
              CAPABILITY_IMPORT_RECORD_SIZE).
Definition constant_pool (p : PythGraphPackage) : list byte :=
  or_empty (byte_section p (h_constant_pool_offset (p_header p))
              (h_constant_pool_len (p_header p))).
Definition string_table (p : PythGraphPackage) : list byte :=
  or_empty (byte_section p (h_string_table_offset (p_header p))
              (h_string_table_len (p_header p))).

(** The tables as lists: [package.nodes().iter()] lists them,
    [package.nodes().get(i)] is [get (nodes p) i] and [package.nodes().len()] is
    [len (nodes p)] ([table_get], [table_len]). *)
Definition types (p : PythGraphPackage) : list TypeRecord :=
  collect (type_record_get (types_bytes p)) (length (types_bytes p)) 0.
Definition blocks (p : PythGraphPackage) : list BlockRecord :=
  collect (block_record_get (blocks_bytes p)) (length (blocks_bytes p)) 0.
Definition nodes (p : PythGraphPackage) : list NodeRecord :=
  collect (node_record_get (nodes_bytes p)) (length (nodes_bytes p)) 0.
Definition imports (p : PythGraphPackage) : list CapabilityImportRecord :=
  collect (import_record_get (imports_bytes p)) (length (imports_bytes p)) 0.

Definition string_at (p : PythGraphPackage) (offset l : Z)
  : outcome PackageDecodeError (list byte) :=
  end_offset ← ok_or (checked_add 32 offset l) OffsetOverflow;
  ok_or (get_range (string_table p) offset end_offset) StringOutOfBounds.
