(* ===== verification/Fnv.v ===== *)
(** * FNV-1a hashes

    The 64-bit checksum of PythTIG packages and the 32-bit checksums of the
    storage journals are FNV-1a. One round is injective in the state and in the
    byte, because the prime is odd; hence a change of one byte of the input
    always changes the hash. *)

From stdpp Require Import base numbers list.
From S2P Require Import Prelude.

Lemma lxor_uint w x y : 0 <= w -> uint w x -> uint w y -> uint w (Z.lxor x y).
Proof.
  unfold uint. intros Hw Hx Hy. split; [apply Z.lxor_nonneg; lia|].
  destruct (decide (Z.lxor x y = 0)) as [->|Hne]; [lia|].
  assert (0 <= Z.lxor x y) by (apply Z.lxor_nonneg; lia).
  apply Z.log2_lt_pow2; [lia|].
  destruct (decide (w = 0)) as [->|]; [assert (x = 0) by lia; assert (y = 0) by lia; by subst|].
  pose proof (Z.log2_lxor x y ltac:(lia) ltac:(lia)).
  assert (Z.log2 x < w) by (destruct (decide (x = 0)) as [->|]; [simpl; lia|apply Z.log2_lt_pow2; lia]).
  assert (Z.log2 y < w) by (destruct (decide (y = 0)) as [->|]; [simpl; lia|apply Z.log2_lt_pow2; lia]).
  lia.
Qed.

Lemma lxor_cancel_l a b c : Z.lxor a b = Z.lxor a c -> b = c.
Proof.
  intros H. rewrite <- (Z.lxor_0_l b), <- (Z.lxor_nilpotent a), Z.lxor_assoc, H,
    <- Z.lxor_assoc, Z.lxor_nilpotent, Z.lxor_0_l. done.
Qed.

Lemma lxor_cancel_r a b c : Z.lxor b a = Z.lxor c a -> b = c.
Proof. rewrite !(Z.lxor_comm _ a). apply lxor_cancel_l. Qed.

(** One round at width [w] with the multiplier [p]. *)
Definition fnv_round (w p h b : Z) : Z := wrap w (Z.lxor h b * p).

Section fnv.
Context (w p : Z).
Hypothesis Hw : 0 <= w.
Hypothesis Hodd : Z.gcd (2 ^ w) p = 1.

Lemma fnv_mul_inj x y :
  uint w x -> uint w y -> wrap w (x * p) = wrap w (y * p) -> x = y.
Proof.
  unfold uint, wrap. intros Hx Hy Heq.
  assert ((2 ^ w | (x - y) * p)) as Hdiv.
  { apply Z.mod_divide; [lia|]. rewrite Z.mul_sub_distr_r, Zminus_mod, Heq, Z.sub_diag.
    apply Z.mod_0_l. lia. }
  rewrite Z.mul_comm in Hdiv. apply Z.gauss in Hdiv; [|done].
  destruct Hdiv as [k Hk]. set (m := 2 ^ w) in *.
  assert (k < 1) by (apply (Z.mul_lt_mono_pos_r m); lia).
  assert (-1 < k) by (apply (Z.mul_lt_mono_pos_r m); lia).
  assert (k = 0) as -> by lia. lia.
Qed.

Lemma fnv_round_range h b : uint w (fnv_round w p h b).
Proof. by apply wrap_range. Qed.

Lemma fnv_round_inj h h' b b' :
  uint w h -> uint w h' -> uint w b -> uint w b' ->
  fnv_round w p h b = fnv_round w p h' b' -> Z.lxor h b = Z.lxor h' b'.
Proof. intros. apply fnv_mul_inj; [by apply lxor_uint..|done]. Qed.

Lemma fnv_foldl_range l h : uint w h -> uint w (foldl (fnv_round w p) h l).
Proof.
  revert h. induction l as [|b l IH]; intros h Hh; simpl; [done|]. apply IH, fnv_round_range.
Qed.

Lemma fnv_foldl_inj l h h' :
  uint w h -> uint w h' -> Forall (uint w) l ->
  foldl (fnv_round w p) h l = foldl (fnv_round w p) h' l -> h = h'.
Proof.
  revert h h'. induction l as [|b l IH]; intros h h' Hh Hh' Hl Heq; simpl in *; [done|].
  apply Forall_cons in Hl as [Hb Hl].
  apply IH in Heq; [|apply fnv_round_range|apply fnv_round_range|done].
  apply (lxor_cancel_r b). by apply fnv_round_inj.
Qed.

(** Two inputs that differ at one position have different hashes. *)
Lemma fnv_insert_ne l (i : nat) x y h :
  uint w h -> Forall (uint w) l -> l !! i = Some x -> uint w y -> x <> y ->
  foldl (fnv_round w p) h (<[i := y]> l) <> foldl (fnv_round w p) h l.
Proof.
  intros Hh Hl Hi Hy Hne. apply lookup_lt_Some in Hi as Hlt.
  rewrite insert_take_drop by done. rewrite <- (take_drop_middle l i x Hi) at 3.
  rewrite !foldl_app. simpl. intros Heq.
  assert (Forall (uint w) (drop (S i) l)) by by apply Forall_drop.
  assert (uint w x) by exact (Forall_lookup_1 _ _ _ _ Hl Hi).
  apply fnv_foldl_inj in Heq; [|apply fnv_round_range..|done].
  apply fnv_round_inj in Heq; [|by apply fnv_foldl_range|by apply fnv_foldl_range|done|done].
  by apply lxor_cancel_l in Heq.
Qed.
End fnv.
