(* ===== verification/Kernel.v ===== *)
(** * Stateful kernel components

    The kernel services of [core/src] are structures with [&mut self] methods
    that return [Result]. A method is modelled as an action: it takes the
    structure, and returns the outcome together with the structure it leaves
    behind, also when the outcome is an error. This file has the monad of
    actions, the iterator adaptors the services use, and the abstract handle
    store that the tables handing out identifiers refine. *)

From stdpp Require Import base numbers list gmap relations.
From S2P Require Import Prelude.

(** ** Actions *)

Definition action (S E A : Type) : Type := S -> outcome E A * S.

#[export] Instance action_ret S E : MRet (action S E) := fun A a s => (Ok a, s).
#[export] Instance action_bind S E : MBind (action S E) := fun A B k m s =>
  match m s with
  | (Ok a, s') => k a s'
  | (Err e, s') => (Err e, s')
  | (Panic, s') => (Panic, s')
  | (Diverge, s') => (Diverge, s')
  end.

(** A computation that only reads the state. *)
Definition reads {S E A} (f : S -> outcome E A) : action S E A := fun s => (f s, s).

(** An assignment to fields of the state. *)
Definition update {S E} (f : S -> S) : action S E unit := fun s => (Ok tt, f s).

(** The value of an expression that does not depend on the state. *)
Definition pure {S E A} (m : outcome E A) : action S E A := fun s => (m, s).

(** Runs an action and keeps only its outcome. *)
Definition outcome_of {S E A} (m : action S E A) (s : S) : outcome E A := fst (m s).

(** What [m] run from [s] does; [wpA] excludes panics and loops. *)
Definition wpA {S E A} (m : action S E A) (s : S)
    (Q : A -> S -> Prop) (R : E -> S -> Prop) : Prop :=
  match m s with
  | (Ok a, s') => Q a s'
  | (Err e, s') => R e s'
  | _ => False
  end.

Section action_rules.
Context {S E A B : Type}.
Implicit Types (m : action S E A) (s : S) (Q : A -> S -> Prop) (R : E -> S -> Prop).

Lemma wpA_bind m (k : A -> action S E B) s (Q : B -> S -> Prop) R :
  wpA m s (fun a s' => wpA (k a) s' Q R) R -> wpA (m ≫= k) s Q R.
Proof. unfold wpA, mbind, action_bind. by destruct (m s) as [[] ?]. Qed.

Lemma wpA_mono m s Q Q' R R' :
  wpA m s Q R -> (forall a s', Q a s' -> Q' a s') -> (forall e s', R e s' -> R' e s') ->
  wpA m s Q' R'.
Proof. unfold wpA. destruct (m s) as [[] ?]; auto. Qed.

Lemma wpA_ret (a : A) s Q R : Q a s -> wpA (mret a) s Q R.
Proof. done. Qed.

Lemma wpA_reads (f : S -> outcome E A) s Q R :
  wp (f s) (fun a => Q a s) (fun e => R e s) -> wpA (reads f) s Q R.
Proof. unfold wpA, reads. by destruct (f s). Qed.

Lemma wpA_pure (o : outcome E A) s Q R :
  wp o (fun a => Q a s) (fun e => R e s) -> wpA (pure o) s Q R.
Proof. unfold wpA, pure. by destruct o. Qed.

Lemma wpA_update (f : S -> S) s (Q : unit -> S -> Prop) R : Q tt (f s) -> wpA (update f) s Q R.
Proof. done. Qed.

(** An action has exactly one run. *)
Lemma wpA_run m s Q R :
  wpA m s Q R ->
  (exists a s', m s = (Ok a, s') /\ Q a s') \/ (exists e s', m s = (Err e, s') /\ R e s').
Proof. unfold wpA. destruct (m s) as [[] ?]; naive_solver. Qed.

Lemma bind_run m (k : A -> action S E B) s b s'' :
  (m ≫= k) s = (Ok b, s'') -> exists a s', m s = (Ok a, s') /\ k a s' = (Ok b, s'').
Proof. unfold mbind, action_bind. destruct (m s) as [[] ?]; naive_solver. Qed.

Lemma wpA_ok m s Q R a s' : wpA m s Q R -> m s = (Ok a, s') -> Q a s'.
Proof. unfold wpA. intros H Hm. by rewrite Hm in H. Qed.

Lemma wpA_err m s Q R e s' : wpA m s Q R -> m s = (Err e, s') -> R e s'.
Proof. unfold wpA. intros H Hm. by rewrite Hm in H. Qed.
End action_rules.

(** One step of symbolic execution of an action. *)
Ltac act_step :=
  cbv beta;
  lazymatch goal with
  | |- wpA (_ ≫= _) _ _ _ => apply wpA_bind
  | |- wpA (mret _) _ _ _ => apply wpA_ret
  | |- wpA (reads _) _ _ _ => apply wpA_reads
  | |- wpA (pure _) _ _ _ => apply wpA_pure
  | |- wpA (update _) _ _ _ => apply wpA_update
  | |- wp (ok_or _ _) _ _ => apply wp_ok_or
  | |- wp (reject _ _) _ _ => apply wp_reject
  | |- wp (_ ≫= _) _ _ => apply wp_bind
  | |- wp (Ok _) _ _ => apply wp_ok
  end.

(** ** Iterators *)

(** [iter().position(p)] *)
Definition position {A} (p : A -> bool) (l : list A) : option Z :=
  (fun r => Z.of_nat r.1) <$> list_find (fun x => p x = true) l.

(** [iter().find(p)] *)
Definition find {A} (p : A -> bool) (l : list A) : option A :=
  snd <$> list_find (fun x => p x = true) l.

Lemma position_Some {A} (p : A -> bool) l i :
  position p l = Some i ->
  0 <= i < len l /\ (exists x, get l i = Some x /\ p x = true) /\
  forall j x, 0 <= j < i -> get l j = Some x -> p x = false.
Proof.
  unfold position. intros ([n x] & (Hn & Hp & Hmin)%list_find_Some & ->)%fmap_Some. simpl.
  split; [|split].
  - apply lookup_lt_Some in Hn. unfold len. lia.
  - exists x. by rewrite get_of_nat.
  - intros j y Hj [_ Hy]%get_Some. apply not_true_iff_false. eapply Hmin; [done|lia].
Qed.

Lemma position_None {A} (p : A -> bool) l :
  position p l = None -> forall x, x ∈ l -> p x = false.
Proof.
  unfold position. intros H%fmap_None x Hx. apply list_find_None in H.
  rewrite Forall_forall in H. by apply not_true_iff_false, H.
Qed.

Lemma find_Some {A} (p : A -> bool) l x : find p l = Some x -> x ∈ l /\ p x = true.
Proof.
  unfold find. intros ([n y] & (Hn & Hp & _)%list_find_Some & ->)%fmap_Some.
  split; [|done]. apply list_elem_of_lookup. eauto.
Qed.

Lemma find_None {A} (p : A -> bool) l : find p l = None -> forall x, x ∈ l -> p x = false.
Proof.
  unfold find. intros H%fmap_None x Hx. apply list_find_None in H.
  rewrite Forall_forall in H. by apply not_true_iff_false, H.
Qed.

(** ** Handle stores

    What a table of revocable handles promises: a new handle was never issued
    before, the authority behind a live handle never changes, and a handle
    that was retired is never live again. *)

Record store (K V : Type) `{Countable K} := {
  live : gmap K V;
  issued : gset K;
}.
Arguments live {K V _ _} s.
Arguments issued {K V _ _} s.
Arguments Build_store {K V _ _} _ _.

Section store.
Context {K V : Type} `{Countable K}.
Implicit Types s : store K V.

Definition empty_store : store K V := Build_store ∅ ∅.

Inductive store_step : store K V -> store K V -> Prop :=
| step_stay s : store_step s s
| step_issue s k v :
    k ∉ issued s -> store_step s (Build_store (<[k := v]> (live s)) ({[k]} ∪ issued s))
| step_retire s k : store_step s (Build_store (delete k (live s)) (issued s)).

Definition store_wf s : Prop := dom (live s) ⊆ issued s.

Lemma store_step_wf s s' : store_step s s' -> store_wf s -> store_wf s'.
Proof.
  unfold store_wf. destruct 1 as [s|s k v Hk|s k]; simpl; [done| |].
  - rewrite dom_insert. set_solver.
  - rewrite dom_delete. set_solver.
Qed.

Lemma store_step_issued s s' : store_step s s' -> issued s ⊆ issued s'.
Proof. destruct 1; simpl; set_solver. Qed.

(** A step never creates or alters the authority of a handle issued before. *)
Lemma store_step_live s s' k v :
  store_step s s' -> k ∈ issued s -> live s' !! k = Some v -> live s !! k = Some v.
Proof.
  destruct 1 as [s|s j w Hj|s j]; simpl; intros Hk; [done| |].
  - rewrite lookup_insert_ne; [done|]. intros ->. done.
  - rewrite lookup_delete_Some. naive_solver.
Qed.

Lemma store_steps_issued s s' : rtc store_step s s' -> issued s ⊆ issued s'.
Proof. induction 1; [done|]. etrans; [by apply store_step_issued|done]. Qed.

Lemma store_steps_wf s s' : rtc store_step s s' -> store_wf s -> store_wf s'.
Proof. induction 1; eauto using store_step_wf. Qed.

Lemma store_steps_live s s' k v :
  rtc store_step s s' -> k ∈ issued s -> live s' !! k = Some v -> live s !! k = Some v.
Proof.
  induction 1 as [|s s1 s2 Hs Hss IH]; intros Hk Hl; [done|].
  eapply store_step_live; [done..|]. apply IH; [|done]. by eapply store_step_issued.
Qed.

End store.

(** A concrete table [T] with its own steps implements a handle store: [abs]
    relates a table to the store it represents, and every step of the table is
    a step of the store. *)
Class HandleTable (T K V : Type) `{Countable K} := {
  table_step : T -> T -> Prop;
  represents : T -> store K V -> Prop;
  represents_wf t s : represents t s -> store_wf s;
  table_step_simulates t t' s :
    represents t s -> table_step t t' -> exists s', store_step s s' /\ represents t' s';
}.

Section handle_table.
Context {T K V : Type} `{HT : HandleTable T K V}.

Lemma table_steps_simulate t t' s :
  represents t s -> rtc table_step t t' ->
  exists s', rtc store_step s s' /\ represents t' s'.
Proof.
  intros Hr Hs. revert s Hr. induction Hs as [|t t1 t2 Hs _ IH]; intros s Hr.
  - eexists. by split; [apply rtc_refl|].
  - destruct (table_step_simulates t t1 s Hr Hs) as (s1 & Hs1 & Hr1).
    destruct (IH s1 Hr1) as (s2 & Hs2 & Hr2).
    exists s2. split; [by eapply rtc_l|done].
Qed.

(** Handles keep their authority until they are retired, and stay retired. *)
Lemma handle_history t t' s k :
  represents t s -> rtc table_step t t' -> k ∈ issued s ->
  exists s', represents t' s' /\ k ∈ issued s' /\
    forall v, live s' !! k = Some v -> live s !! k = Some v.
Proof.
  intros Hr Hs Hk. destruct (table_steps_simulate t t' s Hr Hs) as (s' & Hss & Hr').
  exists s'. split_and!; [done|by eapply store_steps_issued|].
  intros v. by apply store_steps_live.
Qed.
End handle_table.

(** ** Local tables

    A function that owns a table drops it when [?] leaves the function, so a
    call on the table passes it on only with a value. *)
Definition run {S E A} (m : action S E A) (s : S) : outcome E (A * S) :=
  match m s with
  | (Ok a, s') => Ok (a, s')
  | (Err e, _) => Err e
  | (Panic, _) => Panic
  | (Diverge, _) => Diverge
  end.

Lemma wp_run {S E A} (m : action S E A) s (Q : A * S -> Prop) (R : E -> Prop) :
  wpA m s (fun a s' => Q (a, s')) (fun e _ => R e) -> wp (run m s) Q R.
Proof. unfold wpA, run. by destruct (m s) as [[] ?]. Qed.

(** ** Calls on a part of the state *)

Definition on_fst {S T E A} (m : action S E A) : action (S * T) E A := fun st =>
  let '(r, s') := m (fst st) in (r, (s', snd st)).
Definition on_snd {S T E A} (m : action T E A) : action (S * T) E A := fun st =>
  let '(r, t') := m (snd st) in (r, (fst st, t')).

Lemma wpA_on_fst {S T E A} (m : action S E A) (s : S) (t : T) Q (R : E -> S * T -> Prop) :
  wpA m s (fun a s' => Q a (s', t)) (fun e s' => R e (s', t)) -> wpA (on_fst m) (s, t) Q R.
Proof. unfold wpA, on_fst. simpl. by destruct (m s) as [[] ?]. Qed.

Lemma wpA_on_snd {S T E A} (m : action T E A) (s : S) (t : T) Q (R : E -> S * T -> Prop) :
  wpA m t (fun a t' => Q a (s, t')) (fun e t' => R e (s, t')) -> wpA (on_snd m) (s, t) Q R.
Proof. unfold wpA, on_snd. simpl. by destruct (m t) as [[] ?]. Qed.

(** A method call on a field: the field has its own error type, which [From]
    turns into the error of the structure. *)
Definition zoom {S T E F A} (part : S -> T) (put : T -> S -> S) (inj : E -> F)
    (m : action T E A) : action S F A := fun s =>
  let '(r, t) := m (part s) in (map_err inj r, put t s).

Lemma wpA_zoom {S T E F A} (part : S -> T) (put : T -> S -> S) (inj : E -> F)
    (m : action T E A) (s : S) (Q : A -> S -> Prop) (R : F -> S -> Prop) :
  wpA m (part s) (fun a t => Q a (put t s)) (fun e t => R (inj e) (put t s)) ->
  wpA (zoom part put inj m) s Q R.
Proof. unfold wpA, zoom. by destruct (m (part s)) as [[] ?]. Qed.

(** [let _ = m;] drops the result, but not the effect. *)
Definition ignore {S E F A} (m : action S E A) : action S F unit := fun s =>
  match m s with
  | (Ok _, s') | (Err _, s') => (Ok tt, s')
  | (Panic, s') => (Panic, s')
  | (Diverge, s') => (Diverge, s')
  end.

Lemma wpA_ignore {S E F A} (m : action S E A) (s : S) (Q : unit -> S -> Prop) (R : F -> S -> Prop) :
  wpA m s (fun _ s' => Q tt s') (fun _ s' => Q tt s') -> wpA (ignore m) s Q R.
Proof. unfold wpA, ignore. by destruct (m s) as [[] ?]. Qed.

(** [if let Err(error) = m { undo; return Err(error) }] *)
Definition or_undo {S E A} (m : action S E A) (undo : action S E unit) : action S E A := fun s =>
  match m s with
  | (Err e, s') => (undo;; pure (Err e)) s'
  | r => r
  end.

Lemma wpA_or_undo {S E A} (m : action S E A) (undo : action S E unit) (s : S)
    (Q : A -> S -> Prop) (R : E -> S -> Prop) :
  wpA m s Q (fun e s' => wpA undo s' (fun _ s2 => R e s2) R) -> wpA (or_undo m undo) s Q R.
Proof.
  unfold wpA, or_undo, mbind, action_bind, pure. destruct (m s) as [[] s']; try done.
  by destruct (undo s') as [[] ?].
Qed.

(** [let mut staged = *self; ...; *self = staged]: an error leaves the
    structure as it was. *)
Definition staged {S E A} (m : action S E A) : action S E A := fun s =>
  match m s with
  | (Ok a, s') => (Ok a, s')
  | (r, _) => (r, s)
  end.

Lemma wpA_staged {S E A} (m : action S E A) (s : S) (Q : A -> S -> Prop) (R : E -> S -> Prop) :
  wpA m s Q (fun e _ => R e s) -> wpA (staged m) s Q R.
Proof. unfold wpA, staged. by destruct (m s) as [[] ?]. Qed.

(** ** Invariants of successful runs

    [keeps I m Q]: when [m] succeeds from a state with [I], it leaves a state
    with [I] and its result has [Q]. *)
Definition keeps {S E A} (I : S -> Prop) (m : action S E A) (Q : A -> Prop) : Prop :=
  forall s a s', I s -> m s = (Ok a, s') -> I s' /\ Q a.

Section keeps_rules.
Context {S E : Type} (I : S -> Prop).

Lemma keeps_ret {A} (a : A) (Q : A -> Prop) : Q a -> keeps (E := E) I (mret a) Q.
Proof. intros HQ s ? ? Hs [= <- <-]. done. Qed.

Lemma keeps_bind {A B} (m : action S E A) (k : A -> action S E B) Q Q' :
  keeps I m Q -> (forall a, Q a -> keeps I (k a) Q') -> keeps I (m ≫= k) Q'.
Proof.
  intros Hm Hk s b s' Hs. unfold mbind, action_bind.
  destruct (m s) as [[a| | |] s1] eqn:E1; try done. intros Hb.
  destruct (Hm _ _ _ Hs E1) as [H1 Ha]. by apply (Hk a Ha s1).
Qed.

Lemma keeps_pure {A} (o : outcome E A) (Q : A -> Prop) :
  (forall a, o = Ok a -> Q a) -> keeps I (pure o) Q.
Proof. intros HQ s a s' Hs [= Ho <-]. auto. Qed.

Lemma keeps_reads {A} (f : S -> outcome E A) (Q : A -> Prop) :
  (forall s a, I s -> f s = Ok a -> Q a) -> keeps I (reads f) Q.
Proof. intros HQ s a s' Hs [= Ho <-]. eauto. Qed.

Lemma keeps_update (f : S -> S) (Q : unit -> Prop) :
  (forall s, I s -> I (f s)) -> Q tt -> keeps (E := E) I (update f) Q.
Proof. intros Hf HQ s a s' Hs [= <- <-]. auto. Qed.

Lemma keeps_mono {A} (m : action S E A) (Q Q' : A -> Prop) :
  keeps I m Q -> (forall a, Q a -> Q' a) -> keeps I m Q'.
Proof. intros Hm HQ s a s' Hs Ha. destruct (Hm s a s' Hs Ha). auto. Qed.
End keeps_rules.

(** ** Loops *)

(** [for x in l { t = f(t, x)?; }] *)
Fixpoint foldA {S E T A} (f : T -> A -> action S E T) (t : T) (l : list A) : action S E T :=
  match l with
  | [] => mret t
  | x :: l => t' ← f t x; foldA f t' l
  end.

Lemma wpA_foldA {S E T A} (f : T -> A -> action S E T) (I : nat -> T -> S -> Prop) (R : E -> S -> Prop)
    (l : list A) (t : T) (s : S) :
  I 0%nat t s ->
  (forall i x t s, l !! i = Some x -> I i t s -> wpA (f t x) s (I (Datatypes.S i)) R) ->
  wpA (foldA f t l) s (I (length l)) R.
Proof.
  revert I t s. induction l as [|x l IH]; intros I t s H0 Hf; [exact H0|].
  apply wpA_bind. eapply wpA_mono; [exact (Hf 0%nat x t s eq_refl H0)| |done].
  intros t' s' H1. apply (IH (fun i => I (Datatypes.S i))); [exact H1|]. intros i y u v Hy. exact (Hf (Datatypes.S i) y u v Hy).
Qed.
