(* ===== verification/ByteRegions.v ===== *)
(** * Regions of byte arrays

    The storage formats of the kernel are filled by writes at fixed offsets
    into zeroed sectors and read back at the same offsets. This file has the
    vocabulary for that: a memory is seen through its read function, a region
    holds a byte string, and a write overwrites one region and no other. *)

From stdpp Require Import base numbers list.
From Stdlib Require Import Strings.Byte.
From S2P Require Import Prelude.

(** ** Byte strings *)

Lemma len_app {A} (l k : list A) : len (l ++ k) = len l + len k.
Proof. unfold len. rewrite length_app. lia. Qed.

Lemma get_ext {A} (l k : list A) : (forall i, get l i = get k i) -> l = k.
Proof. intros H. apply list_eq. intros i. by rewrite <- !get_of_nat. Qed.

Lemma get_fmap {A B} (f : A -> B) (l : list A) i : get (f <$> l) i = f <$> get l i.
Proof.
  unfold get, len. rewrite length_fmap. destruct ((0 <=? i) && _); [|done]. by rewrite list_lookup_fmap.
Qed.

Lemma len_le_bytes n x : len (le_bytes n x) = Z.of_nat n.
Proof. unfold len. by rewrite length_le_bytes. Qed.

Definition zeros (r : Z) : list byte := replicate (Z.to_nat r) x00.

Lemma len_zeros r : 0 <= r -> len (zeros r) = r.
Proof. intros. unfold zeros. rewrite len_replicate. lia. Qed.

Lemma le_val_field n w v : w = 8 * Z.of_nat n -> uint w v -> le_val (le_bytes n v) = v.
Proof.
  intros -> Hv. apply le_val_bytes. unfold uint in Hv. by rewrite Z.pow_mul_r in Hv by lia.
Qed.


Lemma le_val_snoc l x : le_val (l ++ [x]) = le_val l + byte_val x * 2 ^ (Z.of_nat (length l) * 8).
Proof.
  induction l as [|y l IH]; simpl length; simpl app; simpl le_val; [lia|].
  rewrite IH, Nat2Z.inj_succ.
  replace (Z.succ (Z.of_nat (length l)) * 8) with (8 + Z.of_nat (length l) * 8) by lia.
  rewrite Z.pow_add_r by lia. lia.
Qed.

Lemma foldM_app {E S A} (f : S -> A -> outcome E S) s (l1 l2 : list A) :
  foldM f s (l1 ++ l2) = foldM f s l1 ≫= fun s' => foldM f s' l2.
Proof. revert s. induction l1 as [|x l1 IH]; intros s; simpl; [done|]. destruct (f s x); simpl; auto. Qed.

(** ** Regions *)

(** The memory read by [g] holds the bytes [bs] from the offset [k] on. *)
Definition holds_at (g : Z -> option byte) (k : Z) (bs : list byte) : Prop :=
  forall j x, get bs j = Some x -> g (k + j) = Some x.

(** Nothing outside [a, b) changes from [g] to [g']. *)
Definition same_outside (a b : Z) (g g' : Z -> option byte) : Prop :=
  forall i, ~ (a <= i < b) -> g' i = g i.

(** The write of [bs] at [k]. *)
Definition overwrites (k : Z) (bs : list byte) (g g' : Z -> option byte) : Prop :=
  same_outside k (k + len bs) g g' /\ holds_at g' k bs.

Lemma holds_at_same a b g g' k bs :
  same_outside a b g g' -> k + len bs <= a \/ b <= k -> holds_at g k bs -> holds_at g' k bs.
Proof.
  intros Hs Hd Hb j x Hx. pose proof (proj1 (get_Some _ _ _) Hx) as [Hj _].
  rewrite Hs by lia. by apply Hb.
Qed.

Lemma holds_at_app g k bs cs :
  holds_at g k (bs ++ cs) <-> holds_at g k bs /\ holds_at g (k + len bs) cs.
Proof.
  unfold holds_at. split.
  - intros H. split.
    + intros j x [Hj Hx]%get_Some. apply H, get_Some. rewrite len_app. pose proof (len_nonneg cs).
      split; [lia|]. by apply lookup_app_l_Some.
    + intros j x [Hj Hx]%get_Some. rewrite <- Z.add_assoc. apply H, get_Some. rewrite len_app.
      pose proof (len_nonneg bs). split; [lia|]. rewrite lookup_app_r by (unfold len in *; lia).
      rewrite <- Hx. f_equal. unfold len. lia.
  - intros [H1 H2] j x [Hj Hx]%get_Some. rewrite len_app in Hj.
    apply lookup_app_Some in Hx as [Hx|[Hl Hx]].
    + apply H1, get_Some. split; [|done]. apply lookup_lt_Some in Hx. unfold len. lia.
    + replace (k + j) with (k + len bs + (j - len bs)) by lia. apply H2, get_Some.
      unfold len in *. split; [lia|]. rewrite <- Hx. f_equal. lia.
Qed.

Lemma holds_at_ext g g' k bs :
  (forall i, k <= i < k + len bs -> g' i = g i) -> holds_at g k bs -> holds_at g' k bs.
Proof.
  intros He Hb j x Hx. pose proof (proj1 (get_Some _ _ _) Hx) as [Hj _].
  rewrite He by lia. by apply Hb.
Qed.

Lemma holds_at_cons g k b bs : holds_at g k (b :: bs) <-> g k = Some b /\ holds_at g (k + 1) bs.
Proof.
  change (b :: bs) with ([b] ++ bs). rewrite holds_at_app. change (len [b]) with 1.
  apply and_iff_compat_r. split.
  - intros H. specialize (H 0 b eq_refl). by rewrite Z.add_0_r in H.
  - intros H j x [Hj Hx]%get_Some. change (len [b]) with 1 in Hj. assert (j = 0) as -> by lia.
    simpl in Hx. simplify_eq. by rewrite Z.add_0_r.
Qed.

Lemma holds_at_nil g k : holds_at g k [].
Proof. intros j x [Hj _]%get_Some. unfold len in Hj. simpl in Hj. lia. Qed.

Lemma same_outside_refl a b g : same_outside a b g g.
Proof. done. Qed.

Lemma same_outside_trans a b g g1 g2 :
  same_outside a b g g1 -> same_outside a b g1 g2 -> same_outside a b g g2.
Proof. intros H1 H2 i Hi. by rewrite H2, H1. Qed.

Lemma same_outside_weaken a b a' b' g g' :
  same_outside a b g g' -> a' <= a -> b <= b' -> same_outside a' b' g g'.
Proof. intros H Ha Hb i Hi. apply H. lia. Qed.

(** Two adjacent writes are one write. *)
Lemma overwrites_app k bs cs g g1 g2 :
  overwrites k bs g g1 -> overwrites (k + len bs) cs g1 g2 -> overwrites k (bs ++ cs) g g2.
Proof.
  intros [Hs1 Hb1] [Hs2 Hb2]. pose proof (len_nonneg bs). pose proof (len_nonneg cs). split.
  - rewrite len_app. eapply same_outside_trans; eapply same_outside_weaken; try done; lia.
  - apply holds_at_app. split; [|done]. eapply holds_at_same; [done|lia|done].
Qed.

Lemma holds_at_zeros g k n : (forall i, k <= i < k + n -> g i = Some x00) -> holds_at g k (zeros n).
Proof. intros H j x [-> Hj]%get_replicate. apply H. lia. Qed.

(** The bytes of a region, read back. *)
Lemma get_range_holds_at (l : list byte) k n bs :
  holds_at (get l) k bs -> 0 <= k -> n = len bs -> k + n <= len l -> get_range l k (k + n) = Some bs.
Proof.
  intros Hb Hk -> Hn. apply get_range_Some. pose proof (len_nonneg bs). split_and!; [lia..|].
  apply list_eq. intros i. destruct (decide (i < length bs)%nat) as [Hi|Hi].
  - rewrite lookup_take_lt by (unfold len; lia). rewrite lookup_drop.
    destruct (lookup_lt_is_Some_2 bs i Hi) as [x Hx]. rewrite Hx. symmetry.
    specialize (Hb (Z.of_nat i) x). rewrite get_of_nat in Hb.
    apply Hb, get_Some in Hx as [_ Hx]. rewrite <- Hx. f_equal. lia.
  - rewrite (proj2 (lookup_ge_None _ _)) by lia. symmetry. apply lookup_ge_None.
    rewrite length_take. unfold len. lia.
Qed.

(** ** Copies *)

(** [bytes[offset..offset + n].copy_from_slice(data)] *)
Definition copy_into {E} (bytes : list byte) (offset : Z) (data : list byte) :
    outcome E (list byte) :=
  if (0 <=? offset) && (offset + len data <=? len bytes)
  then Ok (take (Z.to_nat offset) bytes ++ data ++ drop (Z.to_nat offset + length data) bytes)
  else Panic.

Lemma wp_copy_into {E} (b : list byte) o d (Q : list byte -> Prop) (R' : E -> Prop) :
  0 <= o -> o + len d <= len b ->
  (forall b', len b' = len b -> overwrites o d (get b) (get b') -> Q b') ->
  wp (copy_into b o d) Q R'.
Proof.
  intros Ho Hd HQ. pose proof (len_nonneg d). unfold copy_into.
  replace ((0 <=? o) && (o + len d <=? len b)) with true by lia. simpl.
  set (b' := take _ _ ++ _). assert (len b' = len b) as Hl.
  { unfold b', len in *. rewrite !length_app, length_take, length_drop. lia. }
  apply HQ; [done|]. split.
  - intros i Hi. unfold get. rewrite Hl. destruct ((0 <=? i) && (i <? len b)) eqn:Hr; [|done].
    apply andb_true_iff in Hr as [?%Z.leb_le ?%Z.ltb_lt].
    unfold b', len in *. destruct (decide (i < o)).
    + rewrite lookup_app_l by (rewrite length_take; lia). by rewrite lookup_take_lt by lia.
    + rewrite lookup_app_r by (rewrite length_take; lia). rewrite length_take.
      rewrite lookup_app_r by lia. rewrite lookup_drop. f_equal. lia.
  - intros j x [Hj Hx]%get_Some. apply get_Some. rewrite Hl. split; [lia|].
    unfold b', len in *. rewrite lookup_app_r by (rewrite length_take; lia). rewrite length_take.
    apply lookup_app_l_Some. rewrite <- Hx. f_equal. lia.
Qed.

(** ** Proof steps *)

Create Rewrite HintDb lens.
#[export] Hint Rewrite @len_app len_le_bytes : lens.

(** Adjacent writes in front of the last one collect into one write. *)
Ltac collect_writes :=
  repeat lazymatch goal with
  | Hw1 : overwrites ?k ?bs ?g ?g1, Hw2 : overwrites ?k2 ?cs ?g1 ?g2 |- _ =>
      assert (overwrites k (bs ++ cs) g g2) by
        (eapply overwrites_app; [exact Hw1|];
         replace (k + len bs) with k2 by (autorewrite with lens; lia); exact Hw2);
      clear Hw1 Hw2
  | H : overwrites ?k ?bs ?g ?g' |- overwrites ?k ?cs ?g ?g' =>
      rewrite <- ?app_assoc in H; exact H
  end.
