(* ===== verification/Bitset.v ===== *)
(** * 128-bit sets

    The verifier keeps sets of blocks in [u128] masks. This file has the
    membership and cardinality lemmas its loops need. *)

From stdpp Require Import base numbers list sets.
From S2P Require Import Prelude.

Definition bit (i : Z) : Z := Z.shiftl 1 i.

Lemma bit_spec i j : 0 <= i -> Z.testbit (bit i) j = true <-> i = j.
Proof. intros. unfold bit. rewrite testbit_bit by done. apply bool_decide_eq_true. Qed.

Lemma bit_nonneg i : 0 <= bit i.
Proof. unfold bit. apply Z.shiftl_nonneg. lia. Qed.

Lemma lor_bit_spec x i j : 0 <= i ->
  Z.testbit (Z.lor x (bit i)) j = true <-> Z.testbit x j = true \/ i = j.
Proof. intros. rewrite Z.lor_spec, orb_true_iff, bit_spec by done. done. Qed.

Lemma ldiff_bit_spec x i j : 0 <= i -> 
  Z.testbit (Z.ldiff x (bit i)) j = true <-> Z.testbit x j = true /\ i <> j.
Proof.
  intros. rewrite Z.ldiff_spec, andb_true_iff, negb_true_iff, <- not_true_iff_false, bit_spec by done.
  done.
Qed.

Lemma land_bit_zero x i : 0 <= i -> (Z.land x (bit i) =? 0) = negb (Z.testbit x i).
Proof. apply land_bit_nonzero. Qed.

(** Two non-negative masks with the same bits are equal. *)
Lemma mask_ext x y : 0 <= x -> 0 <= y ->
  (forall i, 0 <= i -> Z.testbit x i = true <-> Z.testbit y i = true) -> x = y.
Proof.
  intros Hx Hy H. apply Z.bits_inj'. intros i Hi. specialize (H i Hi).
  destruct (Z.testbit x i), (Z.testbit y i); naive_solver.
Qed.

(** The number of elements below 128. *)
Definition card (x : Z) : nat := length (filter (fun i => Z.testbit x i = true) (range 0 128)).
Arguments card : simpl never.

Section filter_length.
Context {A : Type} (P Q : A -> Prop) `{HP : !forall x, Decision (P x)} `{HQ : !forall x, Decision (Q x)}.

Lemma filter_length_mono (l : list A) :
  (forall x, x ∈ l -> P x -> Q x) -> (length (filter P l) <= length (filter Q l))%nat.
Proof.
  induction l as [|x l IH]; intros H; [done|]. rewrite !filter_cons.
  specialize (IH ltac:(set_solver)).
  destruct (decide (P x)), (decide (Q x)); simpl; try lia. exfalso. set_solver.
Qed.

Lemma filter_length_strict (l : list A) y :
  (forall x, x ∈ l -> P x -> Q x) -> y ∈ l -> Q y -> ~ P y ->
  (length (filter P l) < length (filter Q l))%nat.
Proof.
  induction l as [|x l IH]; intros H Hy Hq Hp; [set_solver|]. rewrite !filter_cons.
  pose proof (filter_length_mono l ltac:(set_solver)).
  apply elem_of_cons in Hy as [->|Hy].
  - rewrite (decide_False (P := P x)), (decide_True (P := Q x)) by done. simpl. lia.
  - specialize (IH ltac:(set_solver) Hy Hq Hp).
    destruct (decide (P x)), (decide (Q x)); simpl; try lia. exfalso. set_solver.
Qed.
End filter_length.

Lemma card_le x : (card x <= 128)%nat.
Proof.
  unfold card. etrans; [apply length_filter|]. rewrite length_range. lia.
Qed.

Lemma card_mono x y :
  (forall i, 0 <= i < 128 -> Z.testbit x i = true -> Z.testbit y i = true) ->
  (card x <= card y)%nat.
Proof. intros H. apply filter_length_mono. intros i Hi%elem_of_range. by apply H. Qed.

Lemma card_strict x y i :
  (forall j, 0 <= j < 128 -> Z.testbit x j = true -> Z.testbit y j = true) ->
  0 <= i < 128 -> Z.testbit y i = true -> Z.testbit x i = false -> (card x < card y)%nat.
Proof.
  intros H Hi Hy Hx. apply (filter_length_strict _ _ _ i).
  - intros j Hj%elem_of_range. by apply H.
  - by apply elem_of_range.
  - done.
  - by rewrite Hx.
Qed.

(** Adding one element adds at most one. *)
Lemma filter_length_add (l : list Z) (P : Z -> Prop) `{!forall x, Decision (P x)} i :
  NoDup l ->
  (length (filter (fun j => P j \/ i = j) l) <= S (length (filter P l)))%nat.
Proof.
  induction l as [|x l IH]; intros Hnd; [simpl; lia|].
  apply NoDup_cons in Hnd as [Hx Hnd]. rewrite !filter_cons.
  destruct (decide (i = x)) as [->|Hne].
  - rewrite (decide_True (P := P x \/ x = x)) by auto.
    assert (length (filter (fun j => P j \/ x = j) l) <= length (filter P l))%nat.
    { apply filter_length_mono. intros j Hj [?|<-]; done. }
    destruct (decide (P x)); simpl; lia.
  - destruct (decide (P x \/ i = x)) as [[?|?]|], (decide (P x)); simpl;
      try specialize (IH Hnd); try lia; naive_solver.
Qed.

Lemma NoDup_range a b : NoDup (range a b).
Proof. apply NoDup_seqZ. Qed.

Lemma card_lor_le x i : 0 <= i -> (card (Z.lor x (bit i)) <= S (card x))%nat.
Proof.
  intros Hi. etrans; [|apply (filter_length_add (range 0 128) (fun j => Z.testbit x j = true) i),
    NoDup_range].
  apply filter_length_mono. intros j _. by rewrite lor_bit_spec.
Qed.

Lemma card_lor_new x i : 0 <= i < 128 -> Z.testbit x i = false ->
  (card x < card (Z.lor x (bit i)))%nat.
Proof.
  intros Hi Hx. apply (card_strict _ _ i); [|done| |done].
  - intros j _ Hj. apply lor_bit_spec; [lia|by left].
  - apply lor_bit_spec; [lia|by right].
Qed.

Lemma card_ldiff x i : 0 <= i < 128 -> Z.testbit x i = true ->
  (card (Z.ldiff x (bit i)) < card x)%nat.
Proof.
  intros Hi Hx. apply (card_strict _ _ i); [|done|done|].
  - intros j _ Hj. apply ldiff_bit_spec in Hj; [naive_solver|lia].
  - apply not_true_iff_false. rewrite ldiff_bit_spec by lia. naive_solver.
Qed.

(** A proper subset of a 128-bit mask is smaller. *)
Lemma card_proper x y :
  0 <= x -> 0 <= y -> (forall i, Z.testbit x i = true -> Z.testbit y i = true) ->
  (forall i, Z.testbit y i = true -> 0 <= i < 128) -> x <> y -> (card x < card y)%nat.
Proof.
  intros Hx Hy Hsub Hr Hne.
  destruct (decide (Forall (fun i => Z.testbit y i = true -> Z.testbit x i = true) (range 0 128)))
    as [Hall|Hex].
  - exfalso. apply Hne, mask_ext; [done..|]. intros i _. split; [apply Hsub|]. intros Hi.
    rewrite Forall_forall in Hall. apply Hall; [|done]. by apply elem_of_range, Hr.
  - apply (not_Forall_Exists _ _) in Hex. apply Exists_exists in Hex as (i & Hi & Hn).
    apply elem_of_range in Hi.
    destruct (Z.testbit y i) eqn:Hyi, (Z.testbit x i) eqn:Hxi; try (exfalso; apply Hn; congruence).
    by apply (card_strict _ _ i); auto.
Qed.

Lemma ones_spec n i : 0 <= n -> Z.testbit (Z.ones n) i = true <-> 0 <= i < n.
Proof.
  intros Hn. destruct (decide (i < 0)); [rewrite Z.testbit_neg_r by done; split; [done|lia]|].
  rewrite Z.testbit_ones_nonneg by lia. lia.
Qed.

(** Total size of an array of masks. *)
Definition total (D : list Z) : nat := sum_list (card <$> D).

Lemma total_le D : (total D <= 128 * length D)%nat.
Proof.
  induction D as [|x D IH]; unfold total in *; csimpl; [lia|]. pose proof (card_le x). lia.
Qed.

Lemma total_insert D (b : nat) old new :
  D !! b = Some old -> (card new < card old)%nat -> (total (<[b := new]> D) < total D)%nat.
Proof.
  unfold total. revert b. induction D as [|x D IH]; intros b Hb Hlt; [done|].
  destruct b as [|b]; csimpl in *; [simplify_eq; lia|]. specialize (IH b Hb Hlt). lia.
Qed.
