(* ===== verification/BitWords.v ===== *)
(** * Bitmaps of 64-bit words

    A bitmap is a list of words; bit [b] is bit [b mod 64] of word [b / 64].
    Setting or clearing one bit changes that bit and no other. *)

From stdpp Require Import base numbers list.
From S2P Require Import Prelude Bitset.

Definition marked (bm : list Z) (b : Z) : Prop := exists w, get bm (b / 64) = Some w /\ Z.testbit w (b mod 64) = true.

Lemma same_block b b' : b / 64 = b' / 64 -> b mod 64 = b' mod 64 -> b = b'.
Proof. pose proof (Z.div_mod b 64). pose proof (Z.div_mod b' 64). lia. Qed.

(** The bit of a word that is known. *)
Lemma marked_word bm b w : get bm (b / 64) = Some w -> marked bm b <-> Z.testbit w (b mod 64) = true.
Proof.
  intros Hw. unfold marked. rewrite Hw. split; [by intros (x & [= <-] & Ht)|]. intros Ht. by exists w.
Qed.

(** A test of one bit. *)
Lemma marked_test bm b w :
  get bm (b / 64) = Some w -> (Z.land w (Z.shiftl 1 (b mod 64)) =? 0) = false <-> marked bm b.
Proof.
  intros Hw. rewrite (marked_word _ _ _ Hw). fold (bit (b mod 64)).
  rewrite land_bit_zero by (apply Z.mod_pos_bound; lia). by rewrite negb_false_iff.
Qed.

(** One bit of one word is set or cleared. *)
Definition put_bit (allocated : bool) (w i : Z) : Z := if allocated then Z.lor w (Z.shiftl 1 i) else Z.ldiff w (Z.shiftl 1 i).

Lemma put_bit_spec allocated w i j :
  0 <= i ->
  Z.testbit (put_bit allocated w i) j =
  if allocated then Z.testbit w j || bool_decide (i = j) else Z.testbit w j && negb (bool_decide (i = j)).
Proof.
  intros Hi. unfold put_bit. rewrite <- (testbit_bit i j Hi). destruct allocated; [apply Z.lor_spec|]. by rewrite Z.ldiff_spec.
Qed.

Lemma marked_put allocated bm b w b' :
  get bm (b / 64) = Some w ->
  marked (<[Z.to_nat (b / 64) := put_bit allocated w (b mod 64)]> bm) b' <->
  (if allocated then marked bm b' \/ b' = b else marked bm b' /\ b' <> b).
Proof.
  intros Hget. pose proof (proj1 (get_Some _ _ _) Hget) as [Hw _]. unfold marked.
  assert (0 <= b mod 64) as Hm by (apply Z.mod_pos_bound; lia).
  destruct (decide (b' / 64 = b / 64)) as [Heq|Hne].
  - rewrite Heq, get_insert_eq, Hget by done. split.
    + intros (x & [= <-] & Ht). rewrite put_bit_spec in Ht by done. destruct allocated.
      * apply orb_true_iff in Ht as [Ht|Ht%bool_decide_eq_true]; [left; by exists w|right; by apply same_block].
      * apply andb_true_iff in Ht as [Ht Hn]. split; [by exists w|]. intros ->. by rewrite bool_decide_eq_true_2 in Hn.
    + intros H. eexists. split; [reflexivity|]. rewrite put_bit_spec by done. destruct allocated.
      * destruct H as [(x & [= <-] & ->)| ->]; [done|]. by rewrite bool_decide_eq_true_2, orb_true_r.
      * destruct H as [(x & [= <-] & ->) Hn]. rewrite bool_decide_eq_false_2; [done|]. intros Hm'. by apply Hn, same_block.
  - rewrite get_insert_ne by lia. destruct allocated; [|naive_solver]. split; [by left|]. intros [H|H]; [done|]. by subst.
Qed.
