(* ===== verification/Utf8.v ===== *)
(** * UTF-8 validation

    [core::str::from_utf8] as the source uses it: a byte string is accepted when
    it is a sequence of well-formed encodings of Unicode scalar values. *)

From stdpp Require Import base numbers list.
From Stdlib Require Import Strings.Byte.
From S2P Require Import Prelude.

Definition in_range (lo hi : Z) (b : byte) : bool := (lo <=? byte_val b) && (byte_val b <=? hi).

Abbreviation cont := (in_range 0x80 0xBF).

(** [from_utf8(bytes).is_ok()] *)
Fixpoint from_utf8 (l : list byte) : bool :=
  match l with
  | [] => true
  | b0 :: l1 =>
      if in_range 0x00 0x7F b0 then from_utf8 l1 else
      match l1 with
      | [] => false
      | b1 :: l2 =>
          if in_range 0xC2 0xDF b0 then cont b1 && from_utf8 l2 else
          match l2 with
          | [] => false
          | b2 :: l3 =>
              if in_range 0xE0 0xEF b0 then
                (if byte_val b0 =? 0xE0 then in_range 0xA0 0xBF b1
                 else if byte_val b0 =? 0xED then in_range 0x80 0x9F b1
                 else cont b1) && cont b2 && from_utf8 l3
              else
              match l3 with
              | [] => false
              | b3 :: l4 =>
                  in_range 0xF0 0xF4 b0 &&
                  (if byte_val b0 =? 0xF0 then in_range 0x90 0xBF b1
                   else if byte_val b0 =? 0xF4 then in_range 0x80 0x8F b1
                   else cont b1) && cont b2 && cont b3 && from_utf8 l4
              end
          end
      end
  end.
