(* ===== verification/Sha256.v ===== *)
(** * SHA-256

    [shared/src/sha256.rs]: a hasher that takes the message in pieces. The
    digest of a message is defined after the standard, on the padded message
    as a whole; the hasher returns it for every way to cut the message. *)

From stdpp Require Import base numbers list.
From Stdlib Require Import Strings.Byte.
From S2P Require Import Prelude ByteRegions.

(** ** Model *)

Definition INITIAL_STATE : list Z :=
  [0x6a09_e667; 0xbb67_ae85; 0x3c6e_f372; 0xa54f_f53a; 0x510e_527f; 0x9b05_688c; 0x1f83_d9ab; 0x5be0_cd19].

Definition SHA_K : list Z :=
  [0x428a_2f98; 0x7137_4491; 0xb5c0_fbcf; 0xe9b5_dba5; 0x3956_c25b; 0x59f1_11f1; 0x923f_82a4; 0xab1c_5ed5;
   0xd807_aa98; 0x1283_5b01; 0x2431_85be; 0x550c_7dc3; 0x72be_5d74; 0x80de_b1fe; 0x9bdc_06a7; 0xc19b_f174;
   0xe49b_69c1; 0xefbe_4786; 0x0fc1_9dc6; 0x240c_a1cc; 0x2de9_2c6f; 0x4a74_84aa; 0x5cb0_a9dc; 0x76f9_88da;
   0x983e_5152; 0xa831_c66d; 0xb003_27c8; 0xbf59_7fc7; 0xc6e0_0bf3; 0xd5a7_9147; 0x06ca_6351; 0x1429_2967;
   0x27b7_0a85; 0x2e1b_2138; 0x4d2c_6dfc; 0x5338_0d13; 0x650a_7354; 0x766a_0abb; 0x81c2_c92e; 0x9272_2c85;
   0xa2bf_e8a1; 0xa81a_664b; 0xc24b_8b70; 0xc76c_51a3; 0xd192_e819; 0xd699_0624; 0xf40e_3585; 0x106a_a070;
   0x19a4_c116; 0x1e37_6c08; 0x2748_774c; 0x34b0_bcb5; 0x391c_0cb3; 0x4ed8_aa4a; 0x5b9c_ca4f; 0x682e_6ff3;
   0x748f_82ee; 0x78a5_636f; 0x84c8_7814; 0x8cc7_0208; 0x90be_fffa; 0xa450_6ceb; 0xbef9_a3f7; 0xc671_78f2].

Record Sha256 := {
  sha_state : list Z;
  len_bytes : Z;
  buffer : list byte;
  buffer_len : Z;
}.

(** None of the functions fails, so the error type is free. *)
Section model.
Context {E : Type}.
Abbreviation O := (outcome E).

(** [a.wrapping_add(b)] on [u32]. *)
Definition add32 (a b : Z) : Z := wrap 32 (a + b).

(** [x.rotate_right(n)] *)
Definition rotate_right (x n : Z) : Z := Z.lor (Z.shiftr x n) (wrap 32 (Z.shiftl x (32 - n))).

(** [!x & z] clears the bits of [x]. *)
Definition ch (x y z : Z) : Z := Z.lxor (Z.land x y) (Z.land (Z.lxor x u32_max) z).
Definition maj (x y z : Z) : Z := Z.lxor (Z.lxor (Z.land x y) (Z.land x z)) (Z.land y z).
Definition big_sigma0 (x : Z) : Z := Z.lxor (Z.lxor (rotate_right x 2) (rotate_right x 13)) (rotate_right x 22).
Definition big_sigma1 (x : Z) : Z := Z.lxor (Z.lxor (rotate_right x 6) (rotate_right x 11)) (rotate_right x 25).
Definition small_sigma0 (x : Z) : Z := Z.lxor (Z.lxor (rotate_right x 7) (rotate_right x 18)) (Z.shiftr x 3).
Definition small_sigma1 (x : Z) : Z := Z.lxor (Z.lxor (rotate_right x 17) (rotate_right x 19)) (Z.shiftr x 10).

(** [u32::from_be_bytes], [to_be_bytes] *)
Definition be_val (bs : list byte) : Z := le_val (rev bs).
Definition be_bytes (n : nat) (x : Z) : list byte := rev (le_bytes n x).

(** One round of the first loop of [compress_block]. *)
Definition load_word (block : list byte) (w : list Z) (i : Z) : O (list Z) :=
  let offset := i * 4 in
  b0 ← index block offset;
  b1 ← index block (offset + 1);
  b2 ← index block (offset + 2);
  b3 ← index block (offset + 3);
  index_set w i (be_val [b0; b1; b2; b3]).

(** One round of the second loop. *)
Definition expand_word (w : list Z) (i : Z) : O (list Z) :=
  w15 ← index w (i - 15);
  w2 ← index w (i - 2);
  w16 ← index w (i - 16);
  w7 ← index w (i - 7);
  index_set w i (add32 (add32 (add32 w16 (small_sigma0 w15)) w7) (small_sigma1 w2)).

(** The variables [a] to [h]. *)
Record working := Working { wa : Z; wb : Z; wc : Z; wd : Z; we : Z; wf : Z; wg : Z; wh : Z }.

(** The body of the third loop for the constant [k] and the word [x]. *)
Definition sha_round (v : working) (k x : Z) : working :=
  let t1 := add32 (add32 (add32 (add32 (wh v) (big_sigma1 (we v))) (ch (we v) (wf v) (wg v))) k) x in
  let t2 := add32 (big_sigma0 (wa v)) (maj (wa v) (wb v) (wc v)) in
  Working (add32 t1 t2) (wa v) (wb v) (wc v) (add32 (wd v) t1) (we v) (wf v) (wg v).

Definition compress_round (w : list Z) (v : working) (i : Z) : O working :=
  k ← index SHA_K i;
  x ← index w i;
  Ok (sha_round v k x).

Definition working_list (v : working) : list Z := [wa v; wb v; wc v; wd v; we v; wf v; wg v; wh v].

(** [state[i] = state[i].wrapping_add(x)] *)
Definition add_to (x : list Z) (state : list Z) (i : Z) : O (list Z) :=
  a ← index state i;
  b ← index x i;
  index_set state i (add32 a b).

(** The [debug_assert_eq] is a panic. *)
Definition compress_block (state : list Z) (block : list byte) : O (list Z) :=
  if negb (len block =? 64) then Panic
  else
    w ← foldM (load_word block) (replicate 64 0) (range 0 16);
    w ← foldM expand_word w (range 16 64);
    a ← index state 0; b ← index state 1; c ← index state 2; d ← index state 3;
    e ← index state 4; f ← index state 5; g ← index state 6; h ← index state 7;
    v ← foldM (compress_round w) (Working a b c d e f g h) (range 0 64);
    foldM (add_to (working_list v)) state (range 0 8).

Definition sha_new : Sha256 :=
  {| sha_state := INITIAL_STATE; len_bytes := 0; buffer := zeros 64; buffer_len := 0 |}.

(** [&l[..n]] and [&l[n..]] *)
Definition slice_to (l : list byte) (n : Z) : O (list byte) := expect (get_range l 0 n).
Definition slice_from (l : list byte) (n : Z) : O (list byte) := expect (get_range l n (len l)).

(** The first part of [update], which fills a buffer that is not empty. *)
Definition fill_buffer (h : Sha256) (input : list byte) : O (Sha256 * list byte) :=
  if buffer_len h =? 0 then Ok (h, input)
  else
    let copied := Z.min (64 - buffer_len h) (len input) in
    first ← slice_to input copied;
    b ← copy_into (buffer h) (buffer_len h) first;
    input ← slice_from input copied;
    if buffer_len h + copied =? 64 then
      st ← compress_block (sha_state h) b;
      Ok ({| sha_state := st; len_bytes := len_bytes h; buffer := zeros 64; buffer_len := 0 |}, input)
    else
      Ok ({| sha_state := sha_state h; len_bytes := len_bytes h; buffer := b;
             buffer_len := buffer_len h + copied |}, input).

(** One round of the loop over whole blocks. *)
Definition absorb_round (s : list Z * list byte) : O ((list Z * list byte) + (list Z * list byte)) :=
  let '(st, input) := s in
  if 64 <=? len input then
    block ← slice_to input 64;
    st ← compress_block st block;
    input ← slice_from input 64;
    Ok (inl (st, input))
  else Ok (inr (st, input)).

Definition sha_update (h : Sha256) (bytes : list byte) : O Sha256 :=
  let total := wrap 64 (len_bytes h + len bytes) in
  '(h, input) ← fill_buffer h bytes;
  '(st, input) ← loop (S (length input)) absorb_round (sha_state h, input);
  if len input =? 0 then
    Ok {| sha_state := st; len_bytes := total; buffer := buffer h; buffer_len := buffer_len h |}
  else
    b ← copy_into (buffer h) 0 input;
    Ok {| sha_state := st; len_bytes := total; buffer := b; buffer_len := len input |}.

(** [buffer[a..b].fill(0)] *)
Definition fill_zero (b : list byte) (first last : Z) : O (list byte) :=
  if last <? first then Panic else copy_into b first (zeros (last - first)).

(** The block with the end marker, when the length does not fit behind it. *)
Definition flush_marker (st : list Z) (b : list byte) (n : Z) : O (list Z * list byte * Z) :=
  if 56 <? n then
    b ← fill_zero b n 64;
    st ← compress_block st b;
    Ok (st, zeros 64, 0)
  else Ok (st, b, n).

(** One round of the loop that writes the digest. *)
Definition write_word (st : list Z) (out : list byte) (i : Z) : O (list byte) :=
  x ← index st i;
  copy_into out (i * 4) (be_bytes 4 x).

Definition sha_finalize (h : Sha256) : O (list byte) :=
  let bit_len := wrap 64 (len_bytes h * 8) in
  b ← index_set (buffer h) (buffer_len h) x80;
  '(st, b, n) ← flush_marker (sha_state h) b (buffer_len h + 1);
  b ← fill_zero b n 56;
  b ← copy_into b 56 (be_bytes 8 bit_len);
  st ← compress_block st b;
  foldM (write_word st) (zeros 32) (range 0 (len st)).

Definition sha256 (bytes : list byte) : O (list byte) :=
  h ← sha_update sha_new bytes;
  sha_finalize h.
End model.

(** ** The standard *)

Definition word_at (m : list byte) (t : nat) : Z := be_val (take 4 (drop (4 * t) m)).

Definition next_word (ws : list Z) : Z :=
  let t := length ws in
  add32 (add32 (add32 (ws !!! (t - 16)%nat) (small_sigma0 (ws !!! (t - 15)%nat))) (ws !!! (t - 7)%nat))
    (small_sigma1 (ws !!! (t - 2)%nat)).

(** The message schedule after [n] words. *)
Definition schedule (block : list byte) (n : nat) : list Z :=
  Nat.iter (n - 16) (fun ws => ws ++ [next_word ws]) (word_at block <$> seq 0 16).

Definition rounds (v : working) (kws : list (Z * Z)) : working :=
  foldl (fun v p => sha_round v p.1 p.2) v kws.

Definition working_of (st : list Z) : working :=
  Working (st !!! 0%nat) (st !!! 1%nat) (st !!! 2%nat) (st !!! 3%nat)
    (st !!! 4%nat) (st !!! 5%nat) (st !!! 6%nat) (st !!! 7%nat).

Definition hash_block (st : list Z) (block : list byte) : list Z :=
  zip_with add32 st (working_list (rounds (working_of st) (zip SHA_K (schedule block 64)))).

(** The state after the first [n] blocks of [m]. *)
Fixpoint absorb (n : nat) (st : list Z) (m : list byte) : list Z :=
  match n with
  | O => st
  | S n => absorb n (hash_block st (take 64 m)) (drop 64 m)
  end.

(** The padding of a message of [n] bytes. *)
Definition padding (n : Z) : list byte :=
  [x80] ++ zeros ((55 - n) mod 64) ++ be_bytes 8 (wrap 64 (n * 8)).

Definition sha256_digest (m : list byte) : list byte :=
  let p := m ++ padding (len m) in
  concat (be_bytes 4 <$> absorb (length p / 64) INITIAL_STATE p).

(** ** One block *)

#[local] Instance byte_inhabited : Inhabited byte := populate x00.

Lemma index_ok {E A} (l : list A) i x : get l i = Some x -> index (E := E) l i = Ok x.
Proof. intros H. unfold index. by rewrite H. Qed.

Lemma length_schedule block n : (16 <= n)%nat -> length (schedule block n) = n.
Proof.
  intros Hn. unfold schedule. replace n with (16 + (n - 16))%nat at 2 by lia.
  induction (n - 16)%nat as [|k IH]; [done|]. rewrite Nat.iter_succ, length_app, IH. simpl. lia.
Qed.

Lemma schedule_next block n :
  (16 <= n)%nat -> schedule block (S n) = schedule block n ++ [next_word (schedule block n)].
Proof. intros Hn. unfold schedule. rewrite Nat.sub_succ_l by lia. by rewrite Nat.iter_succ. Qed.

Section block.
Context {E : Type} (block : list byte) (Hblock : len block = 64).

(** The words computed so far, the others still zero. *)
Definition padded (ws : list Z) : list Z := ws ++ replicate (64 - length ws) 0.

Lemma padded_set ws x : (length ws < 64)%nat -> <[length ws := x]> (padded ws) = padded (ws ++ [x]).
Proof.
  intros Hl. unfold padded. rewrite insert_app_r_alt by lia. rewrite Nat.sub_diag, length_app. simpl.
  replace (64 - length ws)%nat with (S (64 - (length ws + 1))) by lia. simpl. by rewrite <- app_assoc.
Qed.

Lemma get_padded ws i : 0 <= i < len ws -> get (padded ws) i = Some (ws !!! Z.to_nat i).
Proof.
  intros Hi. unfold len in Hi. apply get_Some. unfold padded, len. rewrite length_app. split; [lia|].
  rewrite lookup_app_l by lia. apply list_lookup_lookup_total_lt. lia.
Qed.

Lemma len_padded ws : (length ws <= 64)%nat -> len (padded ws) = 64.
Proof. intros. unfold padded, len. rewrite length_app, length_replicate. lia. Qed.

Lemma load_words :
  foldM (load_word (E := E) block) (replicate 64 0) (range 0 16) = Ok (padded (word_at block <$> seq 0 16)).
Proof.
  apply wp_equals. apply (wp_foldM_range _ _ (fun n w => w = padded (word_at block <$> seq 0 (Z.to_nat n)))); [done|done|].
  intros n w Hn ->. unfold load_word.
  assert (forall k, 0 <= k < 4 -> index (E := E) block (n * 4 + k) = Ok (block !!! Z.to_nat (n * 4 + k))) as Hb.
  { intros k Hk. apply index_ok, get_Some. split; [lia|]. apply list_lookup_lookup_total_lt. unfold len in Hblock. lia. }
  rewrite <- (Z.add_0_r (n * 4)) at 1. rewrite !Hb by lia. simpl.
  assert (be_val [block !!! Z.to_nat (n * 4 + 0); block !!! Z.to_nat (n * 4 + 1); block !!! Z.to_nat (n * 4 + 2);
    block !!! Z.to_nat (n * 4 + 3)] = word_at block (Z.to_nat n)) as ->.
  { unfold word_at. f_equal. unfold len in Hblock. symmetry.
    replace (4 * Z.to_nat n)%nat with (Z.to_nat (n * 4 + 0)) by lia.
    apply (list_eq_same_length _ _ 4); [done|rewrite length_take, length_drop; lia|].
    intros i x y Hi. rewrite lookup_take_lt, lookup_drop by lia. intros Hx Hy.
    apply list_lookup_total_correct in Hx.
    destruct i as [|[|[|[|i]]]]; [..|lia]; simpl in Hy; injection Hy as <-; rewrite <- Hx; f_equal; lia. }
  set (ws := word_at block <$> seq 0 (Z.to_nat n)).
  assert (length ws = Z.to_nat n) as Hws by (unfold ws; by rewrite length_fmap, length_seq).
  apply wp_index_set; [rewrite len_padded; lia|]. rewrite <- Hws at 1. rewrite padded_set by lia.
  f_equal. unfold ws. replace (Z.to_nat (n + 1)) with (S (Z.to_nat n)) by lia. by rewrite seq_S, fmap_app.
Qed.

Lemma expand_words :
  foldM (expand_word (E := E)) (padded (word_at block <$> seq 0 16)) (range 16 64) = Ok (schedule block 64).
Proof.
  apply wp_equals.
  eapply (wp_mono _ (fun w => w = padded (schedule block (Z.to_nat 64))) _ (fun _ => False)); [| |done].
  2:{ intros w ->. unfold padded. rewrite length_schedule by lia. by rewrite app_nil_r. }
  apply (wp_foldM_range _ _ (fun n w => w = padded (schedule block (Z.to_nat n)))); [done|done|].
  intros n w Hn ->. set (ws := schedule block (Z.to_nat n)).
  assert (length ws = Z.to_nat n) as Hws by (apply length_schedule; lia).
  unfold expand_word.
  assert (forall k, 0 < k <= 16 -> index (E := E) (padded ws) (n - k) = Ok (ws !!! (length ws - Z.to_nat k)%nat)) as Hi.
  { intros k Hk. apply index_ok. rewrite get_padded by (unfold len; lia). do 2 f_equal. lia. }
  rewrite !Hi by lia. simpl. apply wp_index_set; [rewrite len_padded; lia|]. rewrite <- Hws at 1.
  rewrite padded_set by lia. f_equal. replace (Z.to_nat (n + 1)) with (S (Z.to_nat n)) by lia.
  rewrite schedule_next by lia. done.
Qed.

Lemma run_rounds ws v :
  length ws = 64%nat ->
  foldM (compress_round (E := E) ws) v (range 0 64) = Ok (rounds v (zip SHA_K ws)).
Proof.
  intros Hws. apply wp_equals.
  eapply (wp_mono _ (fun x => x = rounds v (take (Z.to_nat 64) (zip SHA_K ws))) _ (fun _ => False)); [| |done].
  2:{ intros x ->. rewrite take_ge; [done|]. rewrite length_zip_with, Hws. done. }
  apply (wp_foldM_range _ _ (fun n x => x = rounds v (take (Z.to_nat n) (zip SHA_K ws)))); [done|done|].
  intros n x Hn ->. unfold compress_round.
  assert (length SHA_K = 64%nat) as HK by done.
  destruct (lookup_lt_is_Some_2 SHA_K (Z.to_nat n)) as [k Hk]; [lia|].
  destruct (lookup_lt_is_Some_2 ws (Z.to_nat n)) as [y Hy]; [lia|].
  rewrite (index_ok SHA_K n k), (index_ok ws n y) by (apply get_Some; unfold len; split; [lia|done]). rewrite !ok_bind. apply wp_ok.
  replace (Z.to_nat (n + 1)) with (S (Z.to_nat n)) by lia.
  rewrite (take_S_r _ _ (k, y)) by (rewrite lookup_zip_with, Hk, Hy; done).
  unfold rounds. by rewrite foldl_app.
Qed.

Lemma add_words (st x : list Z) :
  length st = 8%nat -> length x = 8%nat ->
  foldM (add_to (E := E) x) st (range 0 8) = Ok (zip_with add32 st x).
Proof.
  intros Hst Hx. apply wp_equals.
  eapply (wp_mono _ (fun l => l = zip_with add32 (take (Z.to_nat 8) st) (take (Z.to_nat 8) x) ++ drop (Z.to_nat 8) st) _ (fun _ => False));
    [| |done].
  2:{ intros l ->. by rewrite !take_ge, drop_ge, app_nil_r by (simpl; lia). }
  apply (wp_foldM_range _ _ (fun n l => l = zip_with add32 (take (Z.to_nat n) st) (take (Z.to_nat n) x) ++ drop (Z.to_nat n) st));
    [done|done|].
  intros n l Hn ->. set (done := zip_with add32 (take (Z.to_nat n) st) (take (Z.to_nat n) x)).
  assert (length done = Z.to_nat n) as Hd by (unfold done; rewrite length_zip_with, !length_take; lia).
  destruct (lookup_lt_is_Some_2 st (Z.to_nat n)) as [a Ha]; [lia|].
  destruct (lookup_lt_is_Some_2 x (Z.to_nat n)) as [b Hb]; [lia|].
  unfold add_to. rewrite (index_ok (done ++ drop (Z.to_nat n) st) n a), ok_bind, (index_ok x n b), ok_bind.
  2:{ apply get_Some. unfold len. split; [lia|done]. }
  2:{ apply get_Some. unfold len. rewrite length_app, length_drop. split; [lia|].
      rewrite lookup_app_r by lia. rewrite lookup_drop, <- Ha. f_equal. lia. }
  apply wp_index_set; [unfold len; rewrite length_app, length_drop; lia|].
  rewrite insert_app_r_alt by lia. rewrite Hd, Nat.sub_diag, (drop_S _ a) by done. simpl.
  replace (Z.to_nat (n + 1)) with (S (Z.to_nat n)) by lia.
  rewrite (take_S_r st _ a), (take_S_r x _ b), zip_with_app by (done || rewrite !length_take; lia).
  by rewrite <- app_assoc.
Qed.

Lemma compress_block_spec st :
  length st = 8%nat -> compress_block (E := E) st block = Ok (hash_block st block).
Proof.
  intros Hst. unfold compress_block. rewrite Hblock. cbn [Z.eqb negb Pos.eqb].
  rewrite load_words, ok_bind, expand_words, ok_bind.
  assert (forall i, 0 <= i < 8 -> index (E := E) st i = Ok (st !!! Z.to_nat i)) as Hi.
  { intros i Hi. apply index_ok, get_Some. unfold len. split; [lia|]. apply list_lookup_lookup_total_lt. lia. }
  rewrite !Hi, !ok_bind by lia. rewrite run_rounds, ok_bind by by apply length_schedule; lia.
  by apply add_words.
Qed.

Lemma length_hash_block st : length st = 8%nat -> length (hash_block st block) = 8%nat.
Proof. intros Hst. unfold hash_block. rewrite length_zip_with, Hst. done. Qed.
End block.

(** ** Several blocks *)

(** Hashing the blocks of [d] takes the state [st] to [st']. *)
Definition hashed (st : list Z) (d : list byte) (st' : list Z) : Prop :=
  exists n, length d = (64 * n)%nat /\ st' = absorb n st d.

Lemma absorb_app n k st a b :
  length a = (64 * n)%nat -> absorb (n + k) st (a ++ b) = absorb k (absorb n st a) b.
Proof.
  revert st a. induction n as [|n IH]; intros st a Ha.
  - destruct a; [done|]. simpl in Ha. lia.
  - cbn [absorb Nat.add]. rewrite <- IH by (rewrite length_drop; lia).
    by rewrite take_app_le, drop_app_le by lia.
Qed.

Lemma hashed_nil st : hashed st [] st.
Proof. by exists 0%nat. Qed.

Lemma hashed_block st b : length b = 64%nat -> hashed st b (hash_block st b).
Proof. intros Hb. exists 1%nat. split; [done|]. cbn [absorb]. by rewrite take_ge by lia. Qed.

Lemma hashed_app st a st1 b st2 : hashed st a st1 -> hashed st1 b st2 -> hashed st (a ++ b) st2.
Proof.
  intros (n & Ha & ->) (k & Hb & ->). exists (n + k)%nat.
  split; [rewrite length_app; lia|]. by rewrite absorb_app.
Qed.

Lemma length_hashed st d st' : hashed st d st' -> length st = 8%nat -> length st' = 8%nat.
Proof.
  intros (n & _ & ->). revert st d. induction n as [|n IH]; intros st d Hst; [done|].
  cbn [absorb]. by apply IH, length_hash_block.
Qed.

Lemma digest_hashed m st :
  hashed INITIAL_STATE (m ++ padding (len m)) st -> sha256_digest m = concat (be_bytes 4 <$> st).
Proof.
  intros (n & Hl & ->). unfold sha256_digest. rewrite Hl, Nat.mul_comm, Nat.div_mul by done. done.
Qed.

Lemma length_absorb n st m : length st = 8%nat -> length (absorb n st m) = 8%nat.
Proof. revert st m. induction n as [|n IH]; intros st m Hst; [done|]. cbn [absorb]. by apply IH, length_hash_block. Qed.

Lemma len_digest m : len (sha256_digest m) = 32.
Proof.
  unfold sha256_digest, len. set (st := absorb _ _ _). assert (length st = 8%nat) as Hst by by apply length_absorb.
  do 9 (destruct st as [|? st]; [done|]). discriminate Hst.
Qed.

(** ** The hasher *)

(** The bytes of [m] taken so far: the state holds the whole blocks and the
    buffer starts with the rest. *)
Definition represents (h : Sha256) (m : list byte) : Prop :=
  exists blocks rest junk,
    m = blocks ++ rest /\ hashed INITIAL_STATE blocks (sha_state h) /\
    buffer h = rest ++ junk /\ len (buffer h) = 64 /\
    buffer_len h = len rest /\ len rest < 64 /\ len_bytes h = wrap 64 (len m).

Section hasher.
Context {E : Type}.

Lemma copy_after (a c d : list byte) n :
  n = len a -> len d <= len c -> copy_into (E := E) (a ++ c) n d = Ok (a ++ d ++ drop (length d) c).
Proof.
  intros -> Hd. unfold copy_into. rewrite len_app. pose proof (len_nonneg a).
  replace ((0 <=? len a) && (len a + len d <=? len a + len c)) with true by lia.
  unfold len. rewrite Nat2Z.id, take_app_length, drop_app_add. done.
Qed.

Lemma slice_to_ok (l : list byte) n : 0 <= n <= len l -> slice_to (E := E) l n = Ok (take (Z.to_nat n) l).
Proof.
  intros Hn. unfold slice_to. rewrite (proj2 (get_range_Some l 0 n (take (Z.to_nat n) l))); [done|].
  split_and!; [lia..|]. by rewrite Z.sub_0_r.
Qed.

Lemma slice_from_ok (l : list byte) n : 0 <= n <= len l -> slice_from (E := E) l n = Ok (drop (Z.to_nat n) l).
Proof.
  intros Hn. unfold slice_from. rewrite (proj2 (get_range_Some l n (len l) (drop (Z.to_nat n) l))); [done|].
  split_and!; [lia..|]. rewrite take_ge; [done|]. rewrite length_drop. unfold len. lia.
Qed.

Lemma state_words h m : represents h m -> length (sha_state h) = 8%nat.
Proof. intros (? & ? & ? & ? & Hh & _). by eapply length_hashed. Qed.

Lemma represents_new : represents sha_new [].
Proof. exists [], [], (zeros 64). split_and!; try done. apply hashed_nil. Qed.

(** The loop hashes the whole blocks of its input. *)
Lemma absorb_blocks st input :
  length st = 8%nat ->
  wp (loop (S (length input)) (absorb_round (E := E)) (st, input))
    (fun r => exists d, input = d ++ r.2 /\ hashed st d r.1 /\ len r.2 < 64) (fun _ => False).
Proof.
  intros Hst.
  apply (wp_loop _ (fun s => exists d, input = d ++ s.2 /\ hashed st d s.1) (fun s => length s.2)); [|by exists []; split; [|apply hashed_nil]|simpl; lia].
  intros [s rest] (d & -> & Hd). simpl in *. destruct (Z.leb_spec 64 (len rest)) as [Hl|Hl]; [|by exists d].
  rewrite slice_to_ok, ok_bind by lia.
  assert (length (take (Z.to_nat 64) rest) = 64%nat) as Hb by (rewrite length_take; unfold len in Hl; lia).
  rewrite compress_block_spec, ok_bind by (unfold len; rewrite ?Hb; done || by eapply length_hashed).
  rewrite slice_from_ok, ok_bind by lia. apply wp_ok. split.
  - exists (d ++ take (Z.to_nat 64) rest). simpl. rewrite <- app_assoc, take_drop. split; [done|].
    eapply hashed_app; [done|]. by apply hashed_block.
  - simpl. rewrite length_drop. unfold len in Hl. lia.
Qed.

(** After [fill_buffer] the buffer is empty, or the whole input is in it. *)
Lemma fill_buffer_spec h m input :
  represents h m ->
  wp (fill_buffer (E := E) h input)
    (fun r => exists taken, input = taken ++ r.2 /\
       represents (Build_Sha256 (sha_state r.1) (wrap 64 (len (m ++ taken))) (buffer r.1) (buffer_len r.1)) (m ++ taken) /\
       (r.2 = [] \/ buffer_len r.1 = 0)) (fun _ => False).
Proof.
  intros Hr. pose proof (state_words _ _ Hr) as Hst.
  destruct Hr as (blocks & rest & junk & -> & Hh & Hb & H64 & Hn & Hl & _). unfold fill_buffer.
  destruct (Z.eqb_spec (buffer_len h) 0) as [H0|H0].
  { apply wp_ok. exists []. rewrite !app_nil_r. split_and!; [done| |by right].
    by exists blocks, rest, junk. }
  set (copied := Z.min (64 - buffer_len h) (len input)).
  pose proof (len_nonneg input). pose proof (len_nonneg rest).
  rewrite slice_to_ok, ok_bind by lia. set (first := take (Z.to_nat copied) input).
  assert (len first = copied) as Hf by (unfold first, len in *; rewrite length_take; lia).
  assert (len rest + len junk = 64) as Hj by (rewrite Hb, len_app in H64; lia).
  rewrite Hn, Hb, copy_after, ok_bind by lia. rewrite slice_from_ok, ok_bind by lia.
  assert (len (rest ++ first ++ drop (length first) junk) = 64) as Hlen.
  { unfold len in *. rewrite !length_app, length_drop. lia. }
  destruct (Z.eqb_spec (len rest + copied) 64) as [Hc|Hc].
  - rewrite compress_block_spec, ok_bind by done. apply wp_ok. exists first. simpl.
    unfold first. rewrite take_drop. split_and!; [done| |by right]. fold first.
    assert (drop (length first) junk = []) as Hd by (apply drop_ge; unfold len in *; lia).
    rewrite Hd, app_nil_r in *.
    exists (blocks ++ rest ++ first), [], (zeros 64). rewrite app_nil_r, <- app_assoc.
    split_and!; try done. eapply hashed_app; [done|]. apply hashed_block. unfold len in *. lia.
  - apply wp_ok. exists first. simpl. unfold first. rewrite take_drop. fold first. split_and!; [done| |].
    + exists blocks, (rest ++ first), (drop (length first) junk). simpl. rewrite <- !app_assoc, (len_app rest first).
      split_and!; try done; lia.
    + left. apply drop_ge. unfold len in *. lia.
Qed.

Lemma sha_update_spec h m bytes :
  represents h m ->
  wp (sha_update (E := E) h bytes) (fun h' => represents h' (m ++ bytes)) (fun _ => False).
Proof.
  intros Hr. unfold sha_update.
  assert (wrap 64 (len_bytes h + len bytes) = wrap 64 (len (m ++ bytes))) as ->.
  { destruct Hr as (? & ? & ? & _ & _ & _ & _ & _ & _ & ->). rewrite len_app. unfold wrap.
    by rewrite Zplus_mod_idemp_l. }
  apply wp_bind. eapply wp_mono; [by apply fill_buffer_spec| |done].
  intros [h1 input] (taken & -> & Hr1 & Hcase). cbn [fst snd] in *.
  apply wp_bind. eapply wp_mono; [apply absorb_blocks; apply (state_words _ _ Hr1)| |done].
  intros [st rest'] (d & -> & Hd & Hlt). cbn [fst snd] in *. rewrite !app_assoc.
  destruct Hr1 as (blocks & rest & junk & Hm & Hh & Hb & H64 & Hn & Hl & _). simpl in *. rewrite Hm in *.
  destruct (Z.eqb_spec (len rest') 0) as [H0|H0].
  - assert (rest' = []) as -> by (unfold len in H0; by destruct rest'). rewrite !app_nil_r in *.
    apply wp_ok. destruct Hcase as [->|H0'].
    + assert (st = sha_state h1) as ->.
      { destruct Hd as (n & Hln & ->). simpl in Hln. by destruct n. }
      rewrite app_nil_r. by exists blocks, rest, junk.
    + assert (rest = []) as -> by (rewrite Hn in H0'; unfold len in H0'; by destruct rest).
      rewrite app_nil_r in *. exists (blocks ++ d), [], junk. rewrite app_nil_r. split_and!; try done.
      by eapply hashed_app.
  - destruct Hcase as [Hnil|H0'].
    { apply app_nil in Hnil as [_ ->]. done. }
    assert (rest = []) as -> by (rewrite Hn in H0'; unfold len in H0'; by destruct rest).
    rewrite app_nil_r in *. simpl in Hb. rewrite Hb in *.
    change (copy_into (E := E) junk 0 rest') with (copy_into (E := E) ([] ++ junk) (len (A := byte) []) rest').
    rewrite copy_after, ok_bind by lia. apply wp_ok.
    exists (blocks ++ d), rest', (drop (length rest') junk). simpl. split_and!; try done.
    + by eapply hashed_app.
    + unfold len in *. rewrite length_app, length_drop. lia.
Qed.

Lemma fill_zero_after (a c : list byte) last :
  len a <= last <= len (a ++ c) ->
  fill_zero (E := E) (a ++ c) (len a) last = Ok (a ++ zeros (last - len a) ++ drop (Z.to_nat (last - len a)) c).
Proof.
  rewrite len_app. intros Hl. unfold fill_zero. rewrite (proj2 (Z.ltb_ge _ _)) by lia.
  rewrite copy_after by (done || rewrite len_zeros; lia). do 4 f_equal. unfold zeros. by rewrite length_replicate.
Qed.

Lemma flush_marker_spec st a c :
  length st = 8%nat -> len (a ++ c) = 64 ->
  wp (flush_marker (E := E) st (a ++ c) (len a))
    (fun '(st', b, n) => exists d a' c', b = a' ++ c' /\ n = len a' /\ len b = 64 /\ len a' <= 56 /\
       hashed st d st' /\ a ++ zeros ((56 - len a) mod 64) = d ++ a' ++ zeros (56 - len a')) (fun _ => False).
Proof.
  intros Hst Hl. pose proof (len_nonneg a). pose proof (len_nonneg c) as Hc. rewrite len_app in Hl. unfold flush_marker.
  destruct (Z.ltb_spec 56 (len a)) as [Ha|Ha].
  - rewrite fill_zero_after, ok_bind by (rewrite len_app; lia).
    rewrite drop_ge, app_nil_r by (unfold len in *; lia).
    assert (len (a ++ zeros (64 - len a)) = 64) as Hb by (rewrite len_app, len_zeros; lia).
    rewrite compress_block_spec, ok_bind by done. apply wp_ok.
    exists (a ++ zeros (64 - len a)), [], (zeros 64). split_and!; try done.
    + apply hashed_block. unfold len in *. lia.
    + rewrite <- app_assoc. f_equal. unfold zeros. rewrite app_nil_l, <- replicate_add. f_equal.
      change (len []) with 0. rewrite <- (Z_mod_plus_full _ 1), Z.mod_small by lia. lia.
  - apply wp_ok. exists [], a, c. rewrite Z.mod_small, len_app by lia. split_and!; try done. apply hashed_nil.
Qed.

Lemma write_words st :
  length st = 8%nat -> foldM (write_word (E := E) st) (zeros 32) (range 0 (len st)) = Ok (concat (be_bytes 4 <$> st)).
Proof.
  intros Hst. assert (len st = 8) as Hl by (unfold len; lia). rewrite Hl. apply wp_equals.
  eapply (wp_mono _ (fun out => out = concat (be_bytes 4 <$> take (Z.to_nat 8) st) ++ zeros (32 - 4 * 8)) _ (fun _ => False)); [| |done].
  2:{ intros out ->. rewrite take_ge by (rewrite Hst; done). apply app_nil_r. }
  apply (wp_foldM_range _ _ (fun n out => out = concat (be_bytes 4 <$> take (Z.to_nat n) st) ++ zeros (32 - 4 * n))); [lia|done|].
  intros n out Hn ->. destruct (lookup_lt_is_Some_2 st (Z.to_nat n)) as [x Hx]; [lia|].
  unfold write_word. rewrite (index_ok st n x), ok_bind by (apply get_Some; split; [lia|done]).
  assert (len (concat (be_bytes 4 <$> take (Z.to_nat n) st)) = n * 4) as Hc.
  { rewrite <- (Z2Nat.id n) at 2 by lia. assert (Z.to_nat n <= length st)%nat as Hle by lia. clear -Hle.
    unfold len. rewrite <- (length_take_le st (Z.to_nat n)) at 2 by done.
    induction (take (Z.to_nat n) st) as [|y l IH]; [done|]. rewrite fmap_cons, concat_cons, length_app. cbn [length be_bytes le_bytes rev]. simpl. lia. }
  rewrite copy_after by (done || rewrite len_zeros by lia; change (len (be_bytes 4 x)) with 4; lia). apply wp_ok.
  replace (Z.to_nat (n + 1)) with (S (Z.to_nat n)) by lia.
  rewrite (take_S_r _ _ x), fmap_app, concat_app, <- app_assoc by done. cbn [fmap list_fmap concat]. rewrite app_nil_r.
  do 2 f_equal. unfold zeros. rewrite drop_replicate. f_equal. change (length (be_bytes 4 x)) with 4%nat. lia.
Qed.

Lemma sha_finalize_spec h m : represents h m -> sha_finalize (E := E) h = Ok (sha256_digest m).
Proof.
  intros Hr. pose proof (state_words _ _ Hr) as Hst.
  destruct Hr as (blocks & rest & junk & Hm & Hh & Hb & H64 & Hn & Hl & Hlb). apply wp_equals.
  pose proof (len_nonneg rest). unfold sha_finalize. rewrite Hn. apply wp_bind, wp_index_set; [lia|].
  rewrite Hb in *. destruct junk as [|j junk]; [rewrite app_nil_r in H64; lia|].
  replace (Z.to_nat (len rest)) with (length rest) by (unfold len; lia).
  rewrite insert_app_r_alt, Nat.sub_diag by lia.
  change (<[0%nat := x80]> (j :: junk)) with ([x80] ++ junk). rewrite app_assoc.
  assert (len (rest ++ [x80]) = len rest + 1) as Hmark by by rewrite len_app.
  rewrite <- Hmark. apply wp_bind.
  eapply wp_mono; [apply flush_marker_spec; [done|]| |done].
  { rewrite len_app in H64. rewrite len_app, Hmark. unfold len in *. simpl in *. lia. }
  intros [[st b] n] (d & a & c & -> & -> & Hbl & Ha & Hd & Hpad).
  pose proof (length_hashed _ _ _ Hd Hst) as Hst'. pose proof (len_nonneg a).
  rewrite fill_zero_after, ok_bind by lia. rewrite app_assoc.
  assert (len (a ++ zeros (56 - len a)) = 56) as H56 by (rewrite len_app, len_zeros; lia).
  rewrite copy_after, ok_bind; [|done|].
  2:{ rewrite len_app in Hbl. unfold len in *. rewrite length_drop. simpl. lia. }
  rewrite (drop_ge (drop _ _)), app_nil_r by (rewrite len_app in Hbl; unfold len in *; rewrite length_drop; simpl; lia).
  set (final := (a ++ zeros (56 - len a)) ++ be_bytes 8 (wrap 64 (len_bytes h * 8))).
  assert (len final = 64) as Hfinal by (unfold final; by rewrite len_app, H56).
  rewrite compress_block_spec, ok_bind by done.
  rewrite write_words by by apply length_hash_block. apply wp_ok. symmetry. apply digest_hashed.
  assert (m ++ padding (len m) = blocks ++ d ++ final) as ->.
  { rewrite Hm at 1. rewrite <- !app_assoc. f_equal. unfold final, padding. rewrite !app_assoc. rewrite Hmark in Hpad.
    rewrite <- (app_assoc d a), <- Hpad. f_equal; [f_equal|].
    - f_equal. rewrite Hm, len_app. destruct Hh as (k & Hk & _). unfold len at 1. rewrite Hk.
      replace (55 - (Z.of_nat (64 * k) + len rest)) with (56 - (len rest + 1) + (- Z.of_nat k) * 64) by lia.
      by rewrite Z_mod_plus_full.
    - f_equal. rewrite Hlb. unfold wrap. by rewrite Zmult_mod_idemp_l. }
  eapply hashed_app; [done|]. eapply hashed_app; [done|]. apply hashed_block. unfold len in Hfinal. lia.
Qed.

Lemma sha_pieces (chunks : list (list byte)) :
  foldM (sha_update (E := E)) sha_new chunks ≫= sha_finalize = Ok (sha256_digest (concat chunks)).
Proof.
  assert (wp (foldM (sha_update (E := E)) sha_new chunks)
    (fun h => represents h (concat (take (length chunks) chunks))) (fun _ => False)) as H.
  { apply (wp_foldM_prefix _ _ (fun n h => represents h (concat (take n chunks)))); [apply represents_new|].
    intros i x h Hx Hr. rewrite (take_S_r _ _ x) by done. rewrite concat_app. simpl. rewrite app_nil_r.
    by apply sha_update_spec. }
  rewrite take_ge in H by done. destruct (foldM _ _ _) as [h| | |]; try done. by apply sha_finalize_spec.
Qed.

(** C29: However a message is cut into pieces, feeding the pieces to the hasher
    one by one and finishing it returns the SHA-256 digest of the message: no
    index of the buffer arithmetic is out of range, no loop runs on, and the
    digest depends only on the bytes. *)
Theorem hasher_returns_digest (chunks : list (list byte)) :
  foldM (sha_update (E := E)) sha_new chunks ≫= sha_finalize = Ok (sha256_digest (concat chunks)).
Proof. apply sha_pieces. Qed.
End hasher.

(** The vectors of the standard for the empty message and for [abc]. *)
Example digest_of_nothing :
  sha256 (E := unit) [] =
    Ok (be_bytes 32 0xe3b0c44298fc1c149afbf4c8996fb92427ae41e4649b934ca495991b7852b855).
Proof. by vm_compute. Qed.

Example digest_of_abc :
  sha256 (E := unit) [x61; x62; x63] =
    Ok (be_bytes 32 0xba7816bf8f01cfea414140de5dae2223b00361a396177a9cb410ff61f20015ad).
Proof. by vm_compute. Qed.
