(* ===== verification/PackageArtifact.v ===== *)
(** * Package artifacts

    Models [shared/src/package_format.rs]: the 160-byte header of an artifact,
    its manifest of sorted named records, its content table and the three
    levels of SHA-256 digests. *)

From stdpp Require Import base numbers list.
From Stdlib Require Import Strings.Byte.
From S2P Require Import Prelude ByteRegions Sha256.

Module Artifact.

Definition MAX_PACKAGE_ARTIFACT_BYTES : Z := 4194304.
Definition MAX_MANIFEST_BYTES : Z := 65536.
Definition MAX_CONTENT_TABLE_BYTES : Z := 32768.
Definition MAX_CONTENT_BYTES : Z := 4194304.
Definition MAX_MANIFEST_RECORDS : Z := 256.
Definition MAX_CONTENT_ENTRIES : Z := 64.
Definition MAX_STABLE_NAME_BYTES : Z := 48.
Definition MAX_MANIFEST_RECORD_PAYLOAD_BYTES : Z := 1024.
Definition MAX_CONTENT_EXTENTS_PER_RECORD : Z := 32.

(** ["PYTHPKG0"] and ["PYTHMAN0"] *)
Definition PACKAGE_ARTIFACT_MAGIC : list byte := [x50; x59; x54; x48; x50; x4b; x47; x30].
Definition PACKAGE_ARTIFACT_MAJOR : Z := 0.
Definition PACKAGE_ARTIFACT_MINOR : Z := 1.
Definition PACKAGE_ARTIFACT_HEADER_LEN : Z := 160.
Definition PACKAGE_MANIFEST_MAGIC : list byte := [x50; x59; x54; x48; x4d; x41; x4e; x30].
Definition PACKAGE_MANIFEST_HEADER_LEN : Z := 12.
Definition MANIFEST_RECORD_HEADER_LEN : Z := 10.
Definition CONTENT_ENTRY_V0_LEN : Z := 64.

Definition MAGIC_OFFSET : Z := 0.
Definition MAJOR_OFFSET : Z := 8.
Definition MINOR_OFFSET : Z := 10.
Definition HEADER_LEN_OFFSET : Z := 12.
Definition MANIFEST_OFFSET_OFFSET : Z := 16.
Definition MANIFEST_LENGTH_OFFSET : Z := 24.
Definition CONTENT_TABLE_OFFSET_OFFSET : Z := 32.
Definition CONTENT_TABLE_LENGTH_OFFSET : Z := 40.
Definition CONTENT_BYTES_OFFSET_OFFSET : Z := 48.
Definition CONTENT_BYTES_LENGTH_OFFSET : Z := 56.
Definition MANIFEST_SHA256_OFFSET : Z := 64.
Definition ARTIFACT_SHA256_OFFSET : Z := 96.
Definition RESERVED_OFFSET : Z := 128.
Definition RESERVED_END : Z := PACKAGE_ARTIFACT_HEADER_LEN.

Inductive PackageFormatError : Type :=
| TooShort | InvalidMagic | UnsupportedMajor | UnsupportedRequiredMinor | InvalidHeaderLength
| NonZeroReserved | LengthOverflow | BoundsExceeded | ManifestDigestMismatch | ArtifactDigestMismatch
| InvalidManifest | DuplicateStableName | UnsortedManifestRecord | StableNameTooLong
| ManifestPayloadTooLong | TooManyManifestRecords | TooManyContentEntries | TooManyContentExtents
| ContentRangeOutsidePayload | ContentDigestMismatch.

Record ManifestRecordV0 := { record_type : Z; stable_name : list byte; payload : list byte }.

Record ManifestV0 := { manifest_bytes : list byte; record_count : Z }.

Record ContentEntryV0 := {
  content_index : Z;
  role : Z;
  format : Z;
  extent_count : Z;
  content_offset : Z;
  content_length : Z;
  content_sha256 : list byte;
  declared_runtime : Z;
  declared_entrypoint : Z;
}.

(** [Range] of the source. *)
Record Span := { start : Z; end_ : Z }.

Record PackageArtifactV0 := {
  artifact_bytes : list byte;
  content_table_range : Span;
  content_payload_range : Span;
  manifest_sha256 : list byte;
  artifact_sha256 : list byte;
  manifest : ManifestV0;
}.

Abbreviation R := (outcome PackageFormatError).

(** ** Fields *)

(** [&bytes[first..last]] *)
Definition slice (bytes : list byte) (first last : Z) : R (list byte) := expect (get_range bytes first last).

Definition read_u16 (bytes : list byte) (offset : Z) : R Z := le_val <$> slice bytes offset (offset + 2).
Definition read_u32 (bytes : list byte) (offset : Z) : R Z := le_val <$> slice bytes offset (offset + 4).
Definition read_u64 (bytes : list byte) (offset : Z) : R Z := le_val <$> slice bytes offset (offset + 8).
Definition read_sha256 (bytes : list byte) (offset : Z) : R (list byte) := slice bytes offset (offset + 32).

Definition span_slice (r : Span) (bytes : list byte) : R (list byte) := slice bytes (start r) (end_ r).

Definition artifact_digest (bytes : list byte) : R (list byte) :=
  before ← slice bytes 0 ARTIFACT_SHA256_OFFSET;
  hasher ← sha_update sha_new before;
  hasher ← sha_update hasher (zeros 32);
  after ← slice bytes (ARTIFACT_SHA256_OFFSET + 32) (len bytes);
  hasher ← sha_update hasher after;
  sha_finalize hasher.

(** A [u64] fits into a [usize]. *)
Definition checked_range (offset length bytes_len max_len : Z) : R Span :=
  reject (max_len <? length) BoundsExceeded;;
  last ← ok_or (checked_add 64 offset length) LengthOverflow;
  reject ((offset <? PACKAGE_ARTIFACT_HEADER_LEN) || (bytes_len <? last)) BoundsExceeded;;
  Ok {| start := offset; end_ := last |}.

(** ** The manifest *)

(** [u8::is_ascii_graphic] *)
Definition is_ascii_graphic (b : byte) : bool := (33 <=? byte_val b) && (byte_val b <=? 126).

Definition read_manifest_record_checked (bytes : list byte) (offset : Z) : R (ManifestRecordV0 * Z) :=
  header_end ← ok_or (checked_add 64 offset MANIFEST_RECORD_HEADER_LEN) LengthOverflow;
  reject (len bytes <? header_end) BoundsExceeded;;
  flags ← read_u16 bytes (offset + 2);
  reject (negb (flags =? 0)) InvalidManifest;;
  name_len ← read_u16 bytes (offset + 4);
  payload_len ← read_u32 bytes (offset + 6);
  reject (name_len =? 0) InvalidManifest;;
  reject (MAX_STABLE_NAME_BYTES <? name_len) StableNameTooLong;;
  reject (MAX_MANIFEST_RECORD_PAYLOAD_BYTES <? payload_len) ManifestPayloadTooLong;;
  name_end ← ok_or (checked_add 64 header_end name_len) LengthOverflow;
  payload_end ← ok_or (checked_add 64 name_end payload_len) LengthOverflow;
  reject (len bytes <? payload_end) BoundsExceeded;;
  name ← slice bytes header_end name_end;
  reject (existsb (fun b => negb (is_ascii_graphic b)) name) InvalidManifest;;
  kind ← read_u16 bytes offset;
  data ← slice bytes name_end payload_end;
  Ok ({| record_type := kind; stable_name := name; payload := data |}, payload_end).

Definition read_manifest_record (bytes : list byte) (offset : Z) : R (ManifestRecordV0 * Z) :=
  let header_end := offset + MANIFEST_RECORD_HEADER_LEN in
  name_len ← read_u16 bytes (offset + 4);
  payload_len ← read_u32 bytes (offset + 6);
  let name_end := header_end + name_len in
  let payload_end := name_end + payload_len in
  kind ← read_u16 bytes offset;
  name ← slice bytes header_end name_end;
  data ← slice bytes name_end payload_end;
  Ok ({| record_type := kind; stable_name := name; payload := data |}, payload_end).

Inductive KeyOrder : Type := Less | Equal | Greater.

(** The loop of [compare_bytes] runs along both slices. *)
Fixpoint compare_bytes (l r : list byte) : KeyOrder :=
  match l, r with
  | a :: l, b :: r =>
      if byte_val a <? byte_val b then Less
      else if byte_val b <? byte_val a then Greater
      else compare_bytes l r
  | [], _ :: _ => Less
  | _ :: _, [] => Greater
  | [], [] => Equal
  end.

Definition compare_manifest_key (previous_type : Z) (previous_name : list byte) (current_type : Z)
    (current_name : list byte) : KeyOrder :=
  if previous_type <? current_type then Less
  else if current_type <? previous_type then Greater
  else compare_bytes previous_name current_name.

Definition check_order (previous : option (Z * list byte)) (record : ManifestRecordV0) : R unit :=
  match previous with
  | None => Ok tt
  | Some (previous_type, previous_name) =>
      match compare_manifest_key previous_type previous_name (record_type record) (stable_name record) with
      | Less => Ok tt
      | Equal => Err DuplicateStableName
      | Greater => Err UnsortedManifestRecord
      end
  end.

(** One round of the loop: the offset and the key of the previous record. *)
Definition manifest_round (bytes : list byte) (s : Z * option (Z * list byte)) (_ : Z) :
    R (Z * option (Z * list byte)) :=
  let '(offset, previous) := s in
  r ← read_manifest_record_checked bytes offset;
  let '(record, next) := r in
  check_order previous record;;
  Ok (next, Some (record_type record, stable_name record)).

Definition manifest_parse (bytes : list byte) : R ManifestV0 :=
  reject (len bytes <? PACKAGE_MANIFEST_HEADER_LEN) InvalidManifest;;
  magic ← slice bytes 0 8;
  reject (negb (bool_decide (magic = PACKAGE_MANIFEST_MAGIC))) InvalidManifest;;
  count ← read_u32 bytes 8;
  reject (MAX_MANIFEST_RECORDS <? count) TooManyManifestRecords;;
  s ← foldM (manifest_round bytes) (PACKAGE_MANIFEST_HEADER_LEN, None) (range 0 count);
  reject (negb (fst s =? len bytes)) BoundsExceeded;;
  Ok {| manifest_bytes := bytes; record_count := count |}.

(** The loop of [record] that skips one record. *)
Definition skip_record (bytes : list byte) (offset _ : Z) : R Z :=
  name_len ← read_u16 bytes (offset + 4);
  payload_len ← read_u32 bytes (offset + 6);
  Ok (offset + (MANIFEST_RECORD_HEADER_LEN + name_len + payload_len)).

Definition record (m : ManifestV0) (i : Z) : R (option ManifestRecordV0) :=
  if record_count m <=? i then Ok None
  else
    offset ← foldM (skip_record (manifest_bytes m)) PACKAGE_MANIFEST_HEADER_LEN (range 0 i);
    r ← read_manifest_record (manifest_bytes m) offset;
    Ok (Some (fst r)).

(** ** The content table *)

Definition read_content_entry (bytes : list byte) (offset : Z) : R ContentEntryV0 :=
  i ← read_u16 bytes offset;
  role ← read_u16 bytes (offset + 2);
  format ← read_u16 bytes (offset + 4);
  extents ← read_u16 bytes (offset + 6);
  position ← read_u64 bytes (offset + 8);
  length ← read_u64 bytes (offset + 16);
  digest ← read_sha256 bytes (offset + 24);
  runtime ← read_u16 bytes (offset + 56);
  entrypoint ← read_u16 bytes (offset + 58);
  Ok {| content_index := i; role := role; format := format; extent_count := extents;
        content_offset := position; content_length := length; content_sha256 := digest;
        declared_runtime := runtime; declared_entrypoint := entrypoint |}.

Definition content_slice (content_payload : list byte) (entry : ContentEntryV0) : R (list byte) :=
  let first := content_offset entry in
  last ← ok_or (checked_add 64 first (content_length entry)) LengthOverflow;
  reject (len content_payload <? last) ContentRangeOutsidePayload;;
  bytes ← slice content_payload first last;
  digest ← sha256 bytes;
  reject (negb (bool_decide (digest = content_sha256 entry))) ContentDigestMismatch;;
  Ok bytes.

Definition validate_entry (table content_payload : list byte) (i : Z) : R unit :=
  entry ← read_content_entry table (i * CONTENT_ENTRY_V0_LEN);
  reject (negb (content_index entry =? i)) InvalidManifest;;
  reject (MAX_CONTENT_EXTENTS_PER_RECORD <? extent_count entry) TooManyContentExtents;;
  content_slice content_payload entry;;
  Ok tt.

Definition validate_content_table (table content_payload : list byte) : R unit :=
  reject (negb (len table mod CONTENT_ENTRY_V0_LEN =? 0)) BoundsExceeded;;
  let count := len table / CONTENT_ENTRY_V0_LEN in
  reject (MAX_CONTENT_ENTRIES <? count) TooManyContentEntries;;
  forM (range 0 count) (validate_entry table content_payload).

(** ** The artifact *)

Definition parse_header (bytes : list byte) : R unit :=
  reject (len bytes <? PACKAGE_ARTIFACT_HEADER_LEN) TooShort;;
  reject (MAX_PACKAGE_ARTIFACT_BYTES <? len bytes) BoundsExceeded;;
  magic ← slice bytes MAGIC_OFFSET (MAGIC_OFFSET + 8);
  reject (negb (bool_decide (magic = PACKAGE_ARTIFACT_MAGIC))) InvalidMagic;;
  major ← read_u16 bytes MAJOR_OFFSET;
  minor ← read_u16 bytes MINOR_OFFSET;
  reject (negb (major =? PACKAGE_ARTIFACT_MAJOR)) UnsupportedMajor;;
  reject (PACKAGE_ARTIFACT_MINOR <? minor) UnsupportedRequiredMinor;;
  header_len ← read_u32 bytes HEADER_LEN_OFFSET;
  reject (negb (header_len =? PACKAGE_ARTIFACT_HEADER_LEN)) InvalidHeaderLength;;
  reserved ← slice bytes RESERVED_OFFSET RESERVED_END;
  reject (existsb (fun b => negb (byte_val b =? 0)) reserved) NonZeroReserved.

(** A range given by two fields of the header. *)
Definition header_range (bytes : list byte) (offset_field length_field max_len : Z) : R Span :=
  offset ← read_u64 bytes offset_field;
  length ← read_u64 bytes length_field;
  checked_range offset length (len bytes) max_len.

Definition parse (bytes : list byte) : R PackageArtifactV0 :=
  parse_header bytes;;
  manifest_range ← header_range bytes MANIFEST_OFFSET_OFFSET MANIFEST_LENGTH_OFFSET MAX_MANIFEST_BYTES;
  content_table_range ← header_range bytes CONTENT_TABLE_OFFSET_OFFSET CONTENT_TABLE_LENGTH_OFFSET MAX_CONTENT_TABLE_BYTES;
  content_payload_range ← header_range bytes CONTENT_BYTES_OFFSET_OFFSET CONTENT_BYTES_LENGTH_OFFSET MAX_CONTENT_BYTES;
  manifest_sha256 ← read_sha256 bytes MANIFEST_SHA256_OFFSET;
  manifest_slice ← span_slice manifest_range bytes;
  digest ← sha256 manifest_slice;
  reject (negb (bool_decide (digest = manifest_sha256))) ManifestDigestMismatch;;
  manifest ← manifest_parse manifest_slice;
  artifact_sha256 ← read_sha256 bytes ARTIFACT_SHA256_OFFSET;
  digest ← artifact_digest bytes;
  reject (negb (bool_decide (digest = artifact_sha256))) ArtifactDigestMismatch;;
  table ← span_slice content_table_range bytes;
  content ← span_slice content_payload_range bytes;
  validate_content_table table content;;
  Ok {| artifact_bytes := bytes; content_table_range := content_table_range;
        content_payload_range := content_payload_range; manifest_sha256 := manifest_sha256;
        artifact_sha256 := artifact_sha256; manifest := manifest |}.

Definition content_table_bytes (a : PackageArtifactV0) : R (list byte) :=
  span_slice (content_table_range a) (artifact_bytes a).

Definition content_payload_bytes (a : PackageArtifactV0) : R (list byte) :=
  span_slice (content_payload_range a) (artifact_bytes a).

Definition content_entry (a : PackageArtifactV0) (i : Z) : R (option ContentEntryV0) :=
  table ← content_table_bytes a;
  let count := len table / CONTENT_ENTRY_V0_LEN in
  if count <=? i then Ok None
  else
    entry ← read_content_entry table (i * CONTENT_ENTRY_V0_LEN);
    Ok (Some entry).

Definition content_bytes (a : PackageArtifactV0) (entry : ContentEntryV0) : R (list byte) :=
  content ← content_payload_bytes a;
  content_slice content entry.

End Artifact.
