(* ===== verification/PackageArtifactFacts.v ===== *)
(** * What an accepted package artifact is

    A declarative format: the header, the image of a sorted list of manifest
    records, and a content table whose entries name digested parts of the
    payload. The parser accepts exactly this format, its accessors return the
    parts, and the artifact digest stands for the whole artifact. *)

From stdpp Require Import base numbers list.
From Stdlib Require Import Strings.Byte.
From S2P Require Import Prelude ByteRegions Sha256 PackageArtifact.
Import Artifact.

(** ** Parts of a byte string *)

Definition sub (l : list byte) (a b : Z) : list byte := take (Z.to_nat (b - a)) (drop (Z.to_nat a) l).

Lemma len_sub l a b : 0 <= a <= b -> b <= len l -> len (sub l a b) = b - a.
Proof. intros. unfold sub, len in *. rewrite length_take, length_drop. lia. Qed.

Lemma slice_sub l a b : 0 <= a <= b -> b <= len l -> slice l a b = Ok (sub l a b).
Proof. intros. unfold slice. by rewrite (proj2 (get_range_Some l a b (sub l a b))). Qed.

Lemma wp_slice l a b (Q : list byte -> Prop) R :
  0 <= a <= b -> b <= len l -> Q (sub l a b) -> wp (slice l a b) Q R.
Proof. intros. by rewrite slice_sub. Qed.

Lemma sub_split l a b c : 0 <= a <= b -> b <= c -> sub l a c = sub l a b ++ sub l b c.
Proof.
  intros. unfold sub. replace (Z.to_nat (c - a)) with (Z.to_nat (b - a) + Z.to_nat (c - b))%nat by lia.
  rewrite <- take_take_drop, drop_drop. do 3 f_equal. lia.
Qed.

Lemma sub_sub l a b c d : 0 <= a -> 0 <= c <= d -> a + d <= b -> sub (sub l a b) c d = sub l (a + c) (a + d).
Proof.
  intros. unfold sub. rewrite skipn_firstn_comm, drop_drop, take_take. f_equal; [lia|]. f_equal. lia.
Qed.

Lemma sub_middle (p x s : list byte) k : k = len p + len x -> sub (p ++ x ++ s) (len p) k = x.
Proof.
  intros ->. unfold sub, len. rewrite Nat2Z.id, drop_app_length. apply take_app_length'. lia.
Qed.

Lemma sub_all l : sub l 0 (len l) = l.
Proof. unfold sub. simpl. apply take_ge. unfold len. lia. Qed.

(** The fields of a byte string. *)
Definition u16_at l o := le_val (sub l o (o + 2)).
Definition u32_at l o := le_val (sub l o (o + 4)).
Definition u64_at l o := le_val (sub l o (o + 8)).

Lemma artifact_u16_at l o : 0 <= o -> o + 2 <= len l -> read_u16 l o = Ok (u16_at l o).
Proof. intros. unfold read_u16. by rewrite slice_sub by lia. Qed.
Lemma read_u32_at l o : 0 <= o -> o + 4 <= len l -> read_u32 l o = Ok (u32_at l o).
Proof. intros. unfold read_u32. by rewrite slice_sub by lia. Qed.
Lemma artifact_u64_at l o : 0 <= o -> o + 8 <= len l -> read_u64 l o = Ok (u64_at l o).
Proof. intros. unfold read_u64. by rewrite slice_sub by lia. Qed.

Lemma sub_field l a n : 0 <= a -> 0 <= n -> a + n <= len l -> sub l a (a + n) = le_bytes (Z.to_nat n) (le_val (sub l a (a + n))).
Proof.
  intros. rewrite <- (le_bytes_val (sub l a (a + n))) at 1. f_equal.
  pose proof (len_sub l a (a + n)). unfold len in *. lia.
Qed.

Lemma field_range l a n w : 0 <= a -> 0 <= n -> a + n <= len l -> w = 8 * n -> uint w (le_val (sub l a (a + n))).
Proof.
  intros ? ? ? ->. pose proof (le_val_range (sub l a (a + n))) as Hr. rewrite len_sub in Hr by lia.
  unfold uint. rewrite Z.pow_mul_r by lia. replace (a + n - a) with n in Hr by lia. exact Hr.
Qed.

(** ** Keys *)

Lemma compare_bytes_Equal l r : compare_bytes l r = Equal <-> l = r.
Proof.
  revert r. induction l as [|a l IH]; intros [|b r]; simpl; [naive_solver..|].
  destruct (Z.ltb_spec (byte_val a) (byte_val b)); [split; [done|intros [= -> ->]; lia]|].
  destruct (Z.ltb_spec (byte_val b) (byte_val a)); [split; [done|intros [= -> ->]; lia]|].
  rewrite IH. split; [|naive_solver]. intros ->. f_equal. apply byte_val_inj. lia.
Qed.

Lemma compare_bytes_trans l m r : compare_bytes l m = Less -> compare_bytes m r = Less -> compare_bytes l r = Less.
Proof.
  revert m r. induction l as [|a l IH]; intros [|b m] [|c r]; simpl; try done.
  repeat match goal with |- context [?x <? ?y] => destruct (Z.ltb_spec x y) end; try done; try lia. apply IH.
Qed.

Definition key_lt (a b : ManifestRecordV0) : Prop :=
  compare_manifest_key (record_type a) (stable_name a) (record_type b) (stable_name b) = Less.

Lemma key_lt_trans a b c : key_lt a b -> key_lt b c -> key_lt a c.
Proof.
  unfold key_lt, compare_manifest_key.
  repeat match goal with |- context [?x <? ?y] => destruct (Z.ltb_spec x y) end; try done; try lia.
  apply compare_bytes_trans.
Qed.

Lemma key_lt_irrefl a b : key_lt a b -> record_type a = record_type b -> stable_name a = stable_name b -> False.
Proof.
  unfold key_lt, compare_manifest_key. intros H Ht Hn. rewrite Ht, Hn, Z.ltb_irrefl in H.
  by rewrite (proj2 (compare_bytes_Equal _ _) eq_refl) in H.
Qed.

(** ** The manifest *)

Definition record_image (r : ManifestRecordV0) : list byte :=
  le_bytes 2 (record_type r) ++ le_bytes 2 0 ++ le_bytes 2 (len (stable_name r)) ++
  le_bytes 4 (len (payload r)) ++ stable_name r ++ payload r.

Definition records_image (rs : list ManifestRecordV0) : list byte := concat (record_image <$> rs).

Definition manifest_image (rs : list ManifestRecordV0) : list byte :=
  PACKAGE_MANIFEST_MAGIC ++ le_bytes 4 (len rs) ++ records_image rs.

Record record_ok (r : ManifestRecordV0) : Prop := {
  ro_type : uint 16 (record_type r);
  ro_name : 0 < len (stable_name r) <= MAX_STABLE_NAME_BYTES;
  ro_graphic : Forall (fun b => is_ascii_graphic b = true) (stable_name r);
  ro_payload : len (payload r) <= MAX_MANIFEST_RECORD_PAYLOAD_BYTES;
}.

(** The records are strictly sorted by type and name. *)
Definition ordered (rs : list ManifestRecordV0) : Prop :=
  forall i a b, rs !! i = Some a -> rs !! S i = Some b -> key_lt a b.

Record manifest_ok (rs : list ManifestRecordV0) : Prop := {
  mo_count : len rs <= MAX_MANIFEST_RECORDS;
  mo_records : Forall record_ok rs;
  mo_ordered : ordered rs;
}.

Lemma len_record_image r :
  len (record_image r) = MANIFEST_RECORD_HEADER_LEN + len (stable_name r) + len (payload r).
Proof. unfold record_image. autorewrite with lens. change MANIFEST_RECORD_HEADER_LEN with 10. lia. Qed.

Lemma sub_record r a b : 0 <= a <= b -> b <= len (record_image r) ->
  sub (record_image r) (10 + a) (10 + b) = sub (stable_name r ++ payload r) a b.
Proof.
  intros. unfold sub. replace (10 + b - (10 + a)) with (b - a) by lia.
  replace (Z.to_nat (10 + a)) with (10 + Z.to_nat a)%nat by lia. reflexivity.
Qed.

Lemma image_name r : sub (record_image r) 10 (10 + len (stable_name r)) = stable_name r.
Proof.
  pose proof (len_nonneg (stable_name r)). pose proof (len_nonneg (payload r)).
  replace 10 with (10 + 0) at 1 by lia. rewrite sub_record by (rewrite ?len_record_image; change MANIFEST_RECORD_HEADER_LEN with 10; lia).
  exact (sub_middle [] (stable_name r) (payload r) _ eq_refl).
Qed.

Lemma image_payload r : sub (record_image r) (10 + len (stable_name r)) (len (record_image r)) = payload r.
Proof.
  pose proof (len_nonneg (stable_name r)). pose proof (len_nonneg (payload r)). rewrite len_record_image.
  replace (MANIFEST_RECORD_HEADER_LEN + len (stable_name r) + len (payload r))
    with (10 + (len (stable_name r) + len (payload r))) by (change MANIFEST_RECORD_HEADER_LEN with 10; lia).
  rewrite sub_record by (rewrite ?len_record_image; change MANIFEST_RECORD_HEADER_LEN with 10; lia).
  rewrite <- (app_nil_r (stable_name r ++ payload r)), <- app_assoc. by apply sub_middle.
Qed.

(** The fields of the record at [o]. *)
Record image_at (l : list byte) (o : Z) (r : ManifestRecordV0) : Prop := {
  ia_bounds : 0 <= o /\ o + len (record_image r) <= len l;
  ia_image : sub l o (o + len (record_image r)) = record_image r;
}.

Lemma image_sub l o r a b :
  image_at l o r -> 0 <= a <= b -> b <= len (record_image r) ->
  slice l (o + a) (o + b) = Ok (sub (record_image r) a b).
Proof.
  intros [Hb Hi] Ha Hl. rewrite slice_sub by lia. rewrite <- Hi, sub_sub by lia. reflexivity.
Qed.

Lemma image_at_fields l o r :
  image_at l o r -> record_ok r ->
  read_u16 l o = Ok (record_type r) /\ read_u16 l (o + 2) = Ok 0 /\
  read_u16 l (o + 4) = Ok (len (stable_name r)) /\ read_u32 l (o + 6) = Ok (len (payload r)) /\
  slice l (o + 10) (o + 10 + len (stable_name r)) = Ok (stable_name r) /\
  slice l (o + 10 + len (stable_name r)) (o + len (record_image r)) = Ok (payload r).
Proof.
  intros Ha [Ht Hn _ Hp]. pose proof (len_nonneg (stable_name r)). pose proof (len_nonneg (payload r)).
  pose proof (len_record_image r) as Hl. change MANIFEST_RECORD_HEADER_LEN with 10 in Hl.
  change MAX_STABLE_NAME_BYTES with 48 in Hn. change MAX_MANIFEST_RECORD_PAYLOAD_BYTES with 1024 in Hp.
  pose proof (image_sub l o r) as Hs. unfold read_u16, read_u32. split_and!.
  - replace (slice l o (o + 2)) with (slice l (o + 0) (o + 2)) by (f_equal; lia). rewrite Hs by (done || lia).
    change (sub (record_image r) 0 2) with (le_bytes 2 (record_type r)). cbn [fmap outcome_fmap].
    f_equal. by apply (le_val_field 2 16).
  - rewrite <- Z.add_assoc, Hs by (done || lia). reflexivity.
  - rewrite <- Z.add_assoc, Hs by (done || lia).
    change (sub (record_image r) 4 (4 + 2)) with (le_bytes 2 (len (stable_name r))). cbn [fmap outcome_fmap].
    f_equal. apply (le_val_field 2 16); [done|]. split; [lia|]. change (2 ^ 16) with 65536. lia.
  - rewrite <- Z.add_assoc, Hs by (done || lia).
    change (sub (record_image r) 6 (6 + 4)) with (le_bytes 4 (len (payload r))). cbn [fmap outcome_fmap].
    f_equal. apply (le_val_field 4 32); [done|]. split; [lia|]. change (2 ^ 32) with 4294967296. lia.
  - rewrite <- Z.add_assoc, Hs by (done || lia). by rewrite image_name.
  - rewrite <- Z.add_assoc, Hs by (done || lia). by rewrite image_payload.
Qed.

(** ** Reading a record *)

(** The record whose fields lie at [o]. *)
Lemma build_image l o n p :
  0 <= o -> o + 10 + n + p <= len l -> 0 <= n -> 0 <= p -> u16_at l (o + 2) = 0 -> u16_at l (o + 4) = n ->
  u32_at l (o + 6) = p ->
  image_at l o {| record_type := u16_at l o; stable_name := sub l (o + 10) (o + 10 + n);
                  payload := sub l (o + 10 + n) (o + 10 + n + p) |}.
Proof.
  intros Ho Hl Hn Hp Hf Hnl Hpl. set (r := {| record_type := _ |}).
  assert (len (stable_name r) = n) as Hsn by (subst r; simpl; rewrite len_sub; lia).
  assert (len (payload r) = p) as Hpn by (subst r; simpl; rewrite len_sub; lia).
  assert (len (record_image r) = 10 + n + p) as Hlen by (rewrite len_record_image, Hsn, Hpn; reflexivity).
  split; [lia|]. rewrite Hlen. unfold record_image. rewrite Hsn, Hpn. subst r; simpl stable_name; simpl payload; simpl record_type.
  rewrite (sub_split l o (o + 2)) by lia. f_equal; [apply (sub_field l o 2); lia|].
  rewrite (sub_split l (o + 2) (o + 2 + 2)) by lia. f_equal; [rewrite (sub_field l (o + 2) 2) by lia; fold (u16_at l (o + 2)); by rewrite Hf|].
  replace (o + 2 + 2) with (o + 4) by lia.
  rewrite (sub_split l (o + 4) (o + 4 + 2)) by lia. f_equal; [rewrite (sub_field l (o + 4) 2) by lia; fold (u16_at l (o + 4)); by rewrite Hnl|].
  replace (o + 4 + 2) with (o + 6) by lia.
  rewrite (sub_split l (o + 6) (o + 6 + 4)) by lia. f_equal; [rewrite (sub_field l (o + 6) 4) by lia; fold (u32_at l (o + 6)); by rewrite Hpl|].
  replace (o + 6 + 4) with (o + 10) by lia. replace (o + (10 + n + p)) with (o + 10 + n + p) by lia.
  apply sub_split; lia.
Qed.

Lemma not_existsb {A} (p : A -> bool) l : existsb (fun x => negb (p x)) l = false <-> Forall (fun x => p x = true) l.
Proof.
  rewrite Forall_forall. split.
  - intros H x Hx. destruct (p x) eqn:Hp; [done|]. rewrite <- not_true_iff_false, existsb_exists in H.
    destruct H. exists x. by rewrite Hp, <- list_elem_of_In.
  - intros H. apply not_true_iff_false. rewrite existsb_exists. intros (x & Hx & Hp). rewrite <- list_elem_of_In in Hx.
    by rewrite (H x Hx) in Hp.
Qed.

Section manifest.
Variable l : list byte.
Hypothesis Hlen : len l <= MAX_MANIFEST_BYTES.

Lemma small_fits x : 0 <= x <= 2 * MAX_MANIFEST_BYTES -> checked 64 x = Some x.
Proof. intros Hx. apply checked_id. change MAX_MANIFEST_BYTES with 65536 in Hx. unfold uint. lia. Qed.

Lemma read_checked_post o :
  0 <= o <= len l ->
  post (read_manifest_record_checked l o)
    (fun rn => image_at l o rn.1 /\ record_ok rn.1 /\ rn.2 = o + len (record_image rn.1)).
Proof.
  intros Ho. unfold read_manifest_record_checked, checked_add. change MAX_MANIFEST_BYTES with 65536 in Hlen.
  change MANIFEST_RECORD_HEADER_LEN with 10. rewrite small_fits by (change MAX_MANIFEST_BYTES with 65536; lia).
  apply wp_bind, wp_ok. wp_step. wp_step. apply Z.ltb_ge in H.
  rewrite (artifact_u16_at l (o + 2)), ok_bind by lia. wp_step. wp_step. apply negb_false_iff, Z.eqb_eq in H0 as Hf.
  rewrite (artifact_u16_at l (o + 4)), ok_bind, (read_u32_at l (o + 6)), ok_bind by lia.
  assert (uint 16 (u16_at l (o + 4))) as [Hn0 Hn1] by (apply field_range; lia).
  assert (uint 32 (u32_at l (o + 6))) as [Hp0 Hp1] by (apply field_range; lia).
  do 6 wp_step. apply Z.eqb_neq in H1. apply Z.ltb_ge in H2, H3.
  change MAX_STABLE_NAME_BYTES with 48 in H2. change MAX_MANIFEST_RECORD_PAYLOAD_BYTES with 1024 in H3.
  do 2 (rewrite small_fits by (change MAX_MANIFEST_BYTES with 65536; lia); cbn [ok_or]; rewrite ok_bind).
  wp_step. wp_step. apply Z.ltb_ge in H4. set (n := u16_at l (o + 4)) in *. set (p := u32_at l (o + 6)) in *.
  wp_step. apply wp_slice; [lia..|]. wp_step. wp_step. rewrite (artifact_u16_at l o), ok_bind by lia.
  wp_step. apply wp_slice; [lia..|]. apply wp_ok. cbn [fst snd].
  pose proof (build_image l o n p ltac:(lia) ltac:(lia) ltac:(lia) ltac:(lia) Hf eq_refl eq_refl) as Hi.
  split; [exact Hi|]. split; [|rewrite len_record_image; simpl; rewrite !len_sub by lia; change MANIFEST_RECORD_HEADER_LEN with 10; lia].
  split; simpl; rewrite ?len_sub by lia; [apply field_range; lia|change MAX_STABLE_NAME_BYTES with 48; lia| |
    change MAX_MANIFEST_RECORD_PAYLOAD_BYTES with 1024; lia]. by apply not_existsb.
Qed.

Lemma read_checked_image o r :
  image_at l o r -> record_ok r ->
  read_manifest_record_checked l o = Ok (r, o + len (record_image r)).
Proof.
  intros Hi Hr. pose proof (image_at_fields l o r Hi Hr) as (Ht & Hf & Hn & Hp & Hsn & Hsp).
  destruct Hi as [Hb _]. destruct Hr as [_ Hrn Hg Hrp]. pose proof (len_nonneg (payload r)).
  rewrite len_record_image in *. change MAX_MANIFEST_BYTES with 65536 in Hlen. change MANIFEST_RECORD_HEADER_LEN with 10 in *.
  unfold read_manifest_record_checked, checked_add. change MANIFEST_RECORD_HEADER_LEN with 10.
  rewrite small_fits by (change MAX_MANIFEST_BYTES with 65536; lia). cbn [ok_or]. rewrite ok_bind.
  replace (len l <? o + 10) with false by lia. rewrite Hf, Hn, Hp, Ht. cbn [reject]. rewrite !ok_bind. cbn [Z.eqb negb reject]. rewrite !ok_bind.
  replace (len (stable_name r) =? 0) with false by lia. replace (MAX_STABLE_NAME_BYTES <? len (stable_name r)) with false by lia.
  replace (MAX_MANIFEST_RECORD_PAYLOAD_BYTES <? len (payload r)) with false by lia. cbn [reject]. rewrite !ok_bind.
  do 2 (rewrite small_fits by (change MAX_MANIFEST_BYTES with 65536; lia); cbn [ok_or]; rewrite ok_bind).
  replace (len l <? o + 10 + len (stable_name r) + len (payload r)) with false by lia. cbn [reject]. rewrite ok_bind, Hsn, ok_bind.
  rewrite (proj2 (not_existsb _ _) Hg). cbn [reject]. rewrite !ok_bind.
  replace (o + (10 + len (stable_name r) + len (payload r))) with (o + 10 + len (stable_name r) + len (payload r)) in * by lia.
  rewrite Hsp, ok_bind. by destruct r.
Qed.

Lemma read_image o r :
  image_at l o r -> record_ok r -> read_manifest_record l o = Ok (r, o + len (record_image r)).
Proof.
  intros Hi Hr. pose proof (image_at_fields l o r Hi Hr) as (Ht & Hf & Hn & Hp & Hsn & Hsp).
  unfold read_manifest_record. change MANIFEST_RECORD_HEADER_LEN with 10. rewrite Hn, ok_bind, Hp, ok_bind, Ht, ok_bind, Hsn, ok_bind.
  rewrite len_record_image in *. change MANIFEST_RECORD_HEADER_LEN with 10 in *.
  replace (o + (10 + len (stable_name r) + len (payload r))) with (o + 10 + len (stable_name r) + len (payload r)) in * by lia.
  rewrite Hsp, ok_bind. by destruct r.
Qed.

(** ** The loop over the records *)

Definition key (r : ManifestRecordV0) : Z * list byte := (record_type r, stable_name r).

(** The records [rs] lie behind the header of the manifest. *)
Definition records_at (rs : list ManifestRecordV0) : Prop :=
  12 + len (records_image rs) <= len l /\ sub l 12 (12 + len (records_image rs)) = records_image rs.

Definition loop_state (rs : list ManifestRecordV0) : Z * option (Z * list byte) :=
  (12 + len (records_image rs), key <$> last rs).

Lemma records_image_snoc rs r : records_image (rs ++ [r]) = records_image rs ++ record_image r.
Proof. unfold records_image. rewrite fmap_app, concat_app. simpl. by rewrite app_nil_r. Qed.

Lemma ordered_snoc rs r :
  ordered (rs ++ [r]) <-> ordered rs /\ (forall a, last rs = Some a -> key_lt a r).
Proof.
  unfold ordered. split.
  - intros H. split.
    + intros i a b Ha Hb. apply (H i); by apply lookup_app_l_Some.
    + intros a Ha. rewrite last_lookup in Ha. destruct rs as [|x rs]; [done|]. simpl in Ha.
      apply (H (length rs)); [apply lookup_app_l_Some; exact Ha|]. rewrite lookup_app_r by (simpl; lia).
      by replace (S (length rs) - length (x :: rs))%nat with 0%nat by (simpl; lia).
  - intros [H Hl] i a b Ha Hb. apply lookup_snoc_Some in Hb as [[Hi Hb]|[Hi <-]].
    + apply (H i); [|done]. rewrite lookup_app_l in Ha by lia. done.
    + apply Hl. rewrite lookup_app_l in Ha by lia. rewrite last_lookup, <- Ha. f_equal. lia.
Qed.

Lemma check_order_ok rs r : (forall a, last rs = Some a -> key_lt a r) -> check_order (key <$> last rs) r = Ok tt.
Proof.
  unfold check_order, key_lt. destruct (last rs) as [a|]; simpl; [|done]. intros H. by rewrite (H a eq_refl).
Qed.

Lemma check_order_post rs r :
  post (check_order (key <$> last rs) r) (fun _ => forall a, last rs = Some a -> key_lt a r).
Proof.
  unfold check_order, key_lt. destruct (last rs) as [a|]; simpl; [|naive_solver].
  destruct (compare_manifest_key _ _ _ _) eqn:Hc; simpl; [|done..]. by intros ? [= <-].
Qed.

Lemma records_at_snoc rs r : records_at rs -> image_at l (12 + len (records_image rs)) r -> records_at (rs ++ [r]).
Proof.
  intros [Hb Hs] [Hb' Hi]. pose proof (len_nonneg (records_image rs)). pose proof (len_nonneg (record_image r)).
  unfold records_at. rewrite records_image_snoc, len_app. split; [lia|].
  rewrite (sub_split l 12 (12 + len (records_image rs))) by lia. rewrite Hs, Z.add_assoc, Hi. reflexivity.
Qed.

Lemma manifest_loop_post n :
  12 <= len l ->
  post (foldM (manifest_round l) (12, None) (range 0 n))
    (fun s => exists rs, length rs = Z.to_nat n /\ s = loop_state rs /\ records_at rs /\ Forall record_ok rs /\ ordered rs).
Proof.
  intros H12.
  eapply wp_mono; [apply (wp_foldM_prefix _ _ (fun i s => exists rs, length rs = i /\ s = loop_state rs /\ records_at rs /\
    Forall record_ok rs /\ ordered rs))| |done].
  - exists []. split_and!; [done|done| |constructor|intros ? ? ? [=]]. split; [change (len (records_image [])) with 0; lia|reflexivity].
  - intros i x s _ (rs & Hl & -> & Hat & Hok & Hord). unfold loop_state at 1, manifest_round.
    pose proof (proj1 Hat). pose proof (len_nonneg (records_image rs)).
    apply wp_bind. eapply wp_mono; [apply read_checked_post; lia| |done]. intros [r next] (Hi & Hr & Hn). cbn [fst snd] in *. subst next.
    apply wp_bind. eapply wp_mono; [apply check_order_post| |done]. intros ? Hlt. apply wp_ok.
    exists (rs ++ [r]). split_and!.
    + rewrite length_app. simpl. lia.
    + unfold loop_state. rewrite records_image_snoc, len_app, last_snoc, Z.add_assoc. reflexivity.
    + by apply records_at_snoc.
    + apply Forall_app. by split; [|constructor].
    + by apply ordered_snoc.
  - intros s (rs & Hl & H). exists rs. by rewrite Hl, length_range, Z.sub_0_r.
Qed.

(** The manifest of records that lie in [l]: the record at [i] behind the others. *)
Lemma record_at rs i r : records_at rs -> rs !! i = Some r -> image_at l (12 + len (records_image (take i rs))) r.
Proof.
  intros [Hb Hs] Hr. pose proof (len_nonneg (records_image (take i rs))). pose proof (len_nonneg (record_image r)).
  assert (records_image rs = records_image (take i rs) ++ record_image r ++ records_image (drop (S i) rs)) as Himg.
  { rewrite <- (take_drop_middle rs i r Hr) at 1. unfold records_image. rewrite fmap_app, concat_app. reflexivity. }
  assert (12 + len (records_image (take i rs)) + len (record_image r) <= 12 + len (records_image rs)) as Hle.
  { rewrite Himg, !len_app. pose proof (len_nonneg (records_image (drop (S i) rs))). lia. }
  split; [lia|]. rewrite <- Z.add_assoc, <- (sub_sub l 12 (12 + len (records_image rs))) by lia.
  rewrite Hs, Himg. by apply sub_middle.
Qed.

Lemma ordered_take rs i r : ordered rs -> rs !! i = Some r -> forall a, last (take i rs) = Some a -> key_lt a r.
Proof.
  intros Hord Hr a Ha. assert (i < length rs)%nat by by eapply lookup_lt_Some.
  rewrite last_lookup, length_take, Nat.min_l in Ha by lia. destruct i as [|i]; [done|].
  rewrite lookup_take_lt in Ha by (simpl; lia). exact (Hord i a r Ha Hr).
Qed.

Lemma manifest_loop_image rs :
  records_at rs -> Forall record_ok rs -> ordered rs ->
  foldM (manifest_round l) (12, None) (range 0 (len rs)) = Ok (loop_state rs).
Proof.
  intros Hat Hok Hord. apply wp_equals.
  replace (loop_state rs) with (loop_state (take (length (range 0 (len rs))) rs)) by (f_equal; apply take_ge; rewrite length_range; unfold len; lia).
  apply (wp_foldM_prefix _ _ (fun i s => s = loop_state (take i rs))); [done|].
  intros i x s [-> Hlt]%lookup_range ->. destruct (lookup_lt_is_Some_2 rs i) as [r Hr]; [unfold len in Hlt; lia|].
  unfold loop_state at 1, manifest_round. rewrite Forall_lookup in Hok.
  rewrite (read_checked_image _ r (record_at rs i r Hat Hr) (Hok i r Hr)), ok_bind.
  rewrite (check_order_ok _ r (ordered_take rs i r Hord Hr)), ok_bind. apply wp_ok.
  unfold loop_state. rewrite (take_S_r rs i r Hr), records_image_snoc, len_app, last_snoc, Z.add_assoc. reflexivity.
Qed.

Lemma skip_image rs i :
  records_at rs -> Forall record_ok rs -> (i <= length rs)%nat ->
  foldM (skip_record l) 12 (range 0 (Z.of_nat i)) = Ok (12 + len (records_image (take i rs))).
Proof.
  intros Hat Hok Hi. apply wp_equals.
  replace (take i rs) with (take (length (range 0 (Z.of_nat i))) rs) by (f_equal; rewrite length_range; lia).
  apply (wp_foldM_prefix _ _ (fun j s => s = 12 + len (records_image (take j rs)))); [done|].
  intros j x s [-> Hlt]%lookup_range ->. destruct (lookup_lt_is_Some_2 rs j) as [r Hr]; [lia|].
  rewrite Forall_lookup in Hok. pose proof (image_at_fields l _ r (record_at rs j r Hat Hr) (Hok j r Hr)) as (_ & _ & Hn & Hp & _).
  unfold skip_record. rewrite Hn, ok_bind, Hp, ok_bind. apply wp_ok.
  rewrite (take_S_r rs j r Hr), records_image_snoc, len_app, len_record_image. lia.
Qed.
End manifest.

(** ** The whole manifest *)

Lemma len_manifest_image rs : len (manifest_image rs) = 12 + len (records_image rs).
Proof. unfold manifest_image. autorewrite with lens. change (len PACKAGE_MANIFEST_MAGIC) with 8. lia. Qed.

Lemma manifest_records_at rs : records_at (manifest_image rs) rs.
Proof.
  unfold records_at. rewrite len_manifest_image. split; [lia|]. rewrite <- (app_nil_r (manifest_image rs)).
  unfold manifest_image. rewrite app_assoc, <- app_assoc. apply sub_middle. autorewrite with lens. reflexivity.
Qed.

Lemma manifest_parse_post l :
  len l <= MAX_MANIFEST_BYTES ->
  post (manifest_parse l) (fun m => exists rs, manifest_ok rs /\ l = manifest_image rs /\
    m = {| manifest_bytes := l; record_count := len rs |}).
Proof.
  intros Hl. unfold manifest_parse. wp_step. wp_step. apply Z.ltb_ge in H. change PACKAGE_MANIFEST_HEADER_LEN with 12 in *.
  wp_step. apply wp_slice; [lia..|]. wp_step. wp_step. apply negb_false_iff, bool_decide_eq_true in H0.
  rewrite read_u32_at, ok_bind by lia. wp_step. wp_step. apply Z.ltb_ge in H1.
  assert (uint 32 (u32_at l 8)) as [Hc0 _] by (apply field_range; lia).
  apply wp_bind. eapply wp_mono; [by apply manifest_loop_post| |done]. intros s (rs & Hn & -> & Hat & Hok & Hord). cbn [fst loop_state].
  assert (u32_at l 8 = len rs) as Hcount by (unfold len; lia). wp_step. wp_step. apply negb_false_iff, Z.eqb_eq in H2.
  apply wp_ok. exists rs. rewrite Hcount in *. split; [by split|]. split; [|done].
  rewrite <- (sub_all l), (sub_split l 0 8) by lia. rewrite (sub_split l 8 (8 + 4)) by lia. unfold manifest_image.
  rewrite H0. f_equal. f_equal; [rewrite (sub_field l 8 4) by lia; fold (u32_at l 8); by rewrite Hcount|].
  replace (8 + 4) with 12 by lia. rewrite <- H2. exact (proj2 Hat).
Qed.

Lemma manifest_parse_image rs :
  manifest_ok rs -> len (manifest_image rs) <= MAX_MANIFEST_BYTES ->
  manifest_parse (manifest_image rs) = Ok {| manifest_bytes := manifest_image rs; record_count := len rs |}.
Proof.
  intros [Hn Hok Hord] Hl. pose proof (len_nonneg (records_image rs)). pose proof (len_manifest_image rs) as Hli.
  unfold manifest_parse. change PACKAGE_MANIFEST_HEADER_LEN with 12. replace (len (manifest_image rs) <? 12) with false by lia.
  cbn [reject]. rewrite ok_bind, slice_sub, ok_bind by lia. change (sub (manifest_image rs) 0 8) with PACKAGE_MANIFEST_MAGIC.
  rewrite bool_decide_eq_true_2 by done. cbn [negb reject]. rewrite ok_bind, read_u32_at, ok_bind by lia.
  change (u32_at (manifest_image rs) 8) with (le_val (le_bytes 4 (len rs))). change MAX_MANIFEST_RECORDS with 256 in *.
  rewrite (le_val_field 4 32) by (done || (split; [apply len_nonneg|]; change (2 ^ 32) with 4294967296; lia)).
  change MAX_MANIFEST_RECORDS with 256. replace (256 <? len rs) with false by lia. cbn [reject]. rewrite ok_bind.
  rewrite (manifest_loop_image _ Hl rs (manifest_records_at rs) Hok Hord), ok_bind. cbn [fst loop_state].
  rewrite <- Hli, Z.eqb_refl. reflexivity.
Qed.

Lemma record_of_manifest rs i :
  manifest_ok rs -> 0 <= i ->
  record {| manifest_bytes := manifest_image rs; record_count := len rs |} i = Ok (rs !! Z.to_nat i).
Proof.
  intros [_ Hok _] Hi. unfold record. cbn [record_count manifest_bytes]. destruct (Z.leb_spec (len rs) i).
  - rewrite (proj2 (lookup_ge_None _ _)); [done|]. unfold len in *. lia.
  - destruct (lookup_lt_is_Some_2 rs (Z.to_nat i)) as [r Hr]; [unfold len in *; lia|].
    rewrite <- (Z2Nat.id i Hi) at 1. change PACKAGE_MANIFEST_HEADER_LEN with 12.
    rewrite (skip_image _ rs _ (manifest_records_at rs) Hok), ok_bind by (unfold len in *; lia).
    rewrite Forall_lookup in Hok. rewrite (read_image _ _ r (record_at _ rs _ r (manifest_records_at rs) Hr) (Hok _ r Hr)), ok_bind.
    by rewrite Hr.
Qed.

(** ** The content table *)

Definition entry_at (table : list byte) (o : Z) : ContentEntryV0 :=
  {| content_index := u16_at table o; role := u16_at table (o + 2); format := u16_at table (o + 4);
     extent_count := u16_at table (o + 6); content_offset := u64_at table (o + 8);
     content_length := u64_at table (o + 16); content_sha256 := sub table (o + 24) (o + 24 + 32);
     declared_runtime := u16_at table (o + 56); declared_entrypoint := u16_at table (o + 58) |}.

Lemma read_entry_at table o : 0 <= o -> o + 64 <= len table -> read_content_entry table o = Ok (entry_at table o).
Proof.
  intros. unfold read_content_entry, read_sha256. rewrite (slice_sub table (o + 24)) by lia.
  by rewrite !artifact_u16_at, !artifact_u64_at by lia.
Qed.

Lemma sha256_ok {E} m : sha256 (E := E) m = Ok (sha256_digest m).
Proof.
  unfold sha256. pose proof (sha_pieces (E := E) [m]) as H. cbn [concat] in H. rewrite app_nil_r in H.
  cbn [foldM] in H. destruct (sha_update sha_new m); done.
Qed.

(** An entry names a digested part of the payload. *)
Record entry_ok (content : list byte) (e : ContentEntryV0) : Prop := {
  eo_range : content_offset e + content_length e <= len content;
  eo_digest : content_sha256 e = sha256_digest (sub content (content_offset e) (content_offset e + content_length e));
}.

(** The offset and the length of an entry are [u64] values. *)
Definition entry_uint (e : ContentEntryV0) : Prop := uint 64 (content_offset e) /\ uint 64 (content_length e).

Lemma entry_at_uint table o : 0 <= o -> o + 64 <= len table -> entry_uint (entry_at table o).
Proof. intros. split; apply (field_range table _ 8); lia. Qed.

Lemma content_slice_post content e :
  len content <= MAX_CONTENT_BYTES -> entry_uint e ->
  post (content_slice content e) (fun bytes => entry_ok content e /\
    bytes = sub content (content_offset e) (content_offset e + content_length e)).
Proof.
  intros Hc [[Ho0 Ho1] [Hl0 Hl1]]. unfold content_slice, checked_add. wp_step. wp_step. apply checked_Some in H as [-> _].
  wp_step. wp_step. apply Z.ltb_ge in H. wp_step. apply wp_slice; [lia..|]. rewrite sha256_ok, ok_bind.
  wp_step. wp_step. apply negb_false_iff, bool_decide_eq_true in H0. apply wp_ok. by split; [split|].
Qed.

Lemma content_slice_ok content e :
  len content <= MAX_CONTENT_BYTES -> entry_uint e -> entry_ok content e ->
  content_slice content e = Ok (sub content (content_offset e) (content_offset e + content_length e)).
Proof.
  intros Hc [[Ho0 Ho1] [Hl0 Hl1]] [Hr Hd]. unfold content_slice, checked_add. change MAX_CONTENT_BYTES with 4194304 in Hc.
  rewrite checked_id by (split; [lia|]; change (2 ^ 64) with 18446744073709551616; lia). cbn [ok_or]. rewrite ok_bind.
  replace (len content <? content_offset e + content_length e) with false by lia. cbn [reject].
  rewrite ok_bind, slice_sub, ok_bind, sha256_ok, ok_bind by lia. by rewrite bool_decide_eq_true_2.
Qed.

Record content_ok (table content : list byte) : Prop := {
  co_size : len table mod 64 = 0;
  co_count : len table / 64 <= MAX_CONTENT_ENTRIES;
  co_entries i : 0 <= i < len table / 64 ->
    let e := entry_at table (i * 64) in
    content_index e = i /\ extent_count e <= MAX_CONTENT_EXTENTS_PER_RECORD /\ entry_ok content e;
}.

Lemma table_slot (table : list byte) i : 0 <= i < len table / 64 -> 0 <= i * 64 /\ i * 64 + 64 <= len table.
Proof. pose proof (Z.mul_div_le (len table) 64). lia. Qed.

Lemma validate_post table content :
  len content <= MAX_CONTENT_BYTES -> post (validate_content_table table content) (fun _ => content_ok table content).
Proof.
  intros Hc. unfold validate_content_table. change CONTENT_ENTRY_V0_LEN with 64. wp_step. wp_step.
  apply negb_false_iff, Z.eqb_eq in H. wp_step. wp_step. apply Z.ltb_ge in H0.
  eapply wp_mono; [apply (post_forM _ _ (fun i => let e := entry_at table (i * 64) in
    content_index e = i /\ extent_count e <= MAX_CONTENT_EXTENTS_PER_RECORD /\ entry_ok content e))| |done].
  - intros i Hi%elem_of_range. pose proof (table_slot table i Hi). unfold validate_entry. change CONTENT_ENTRY_V0_LEN with 64.
    rewrite read_entry_at, ok_bind by lia. wp_step. wp_step. apply negb_false_iff, Z.eqb_eq in H2.
    wp_step. wp_step. apply Z.ltb_ge in H3. wp_step. eapply wp_mono; [apply content_slice_post; [done|apply entry_at_uint; lia]| |done].
    intros bytes [He _]. by apply wp_ok.
  - intros u He. split; [done..|]. intros i Hi. by apply He, elem_of_range.
Qed.

Lemma validate_ok table content :
  len content <= MAX_CONTENT_BYTES -> content_ok table content -> validate_content_table table content = Ok tt.
Proof.
  intros Hc [Hs Hn He]. unfold validate_content_table. change CONTENT_ENTRY_V0_LEN with 64. rewrite Hs. cbn [Z.eqb negb reject].
  rewrite ok_bind. replace (MAX_CONTENT_ENTRIES <? len table / 64) with false by lia. cbn [reject]. rewrite ok_bind.
  apply forM_ok. intros i Hi%elem_of_range. destruct (He i Hi) as (Hx & Hxt & Hok). pose proof (table_slot table i Hi).
  unfold validate_entry. change CONTENT_ENTRY_V0_LEN with 64. rewrite read_entry_at, ok_bind, Hx, Z.eqb_refl by lia. cbn [negb reject].
  rewrite ok_bind. replace (MAX_CONTENT_EXTENTS_PER_RECORD <? _) with false by lia. cbn [reject].
  by rewrite ok_bind, content_slice_ok by (done || apply entry_at_uint; lia).
Qed.

(** ** The artifact *)

Record header_ok (l : list byte) : Prop := {
  ho_len : PACKAGE_ARTIFACT_HEADER_LEN <= len l <= MAX_PACKAGE_ARTIFACT_BYTES;
  ho_magic : sub l 0 8 = PACKAGE_ARTIFACT_MAGIC;
  ho_major : u16_at l 8 = PACKAGE_ARTIFACT_MAJOR;
  ho_minor : u16_at l 10 <= PACKAGE_ARTIFACT_MINOR;
  ho_header_len : u32_at l 12 = PACKAGE_ARTIFACT_HEADER_LEN;
  ho_reserved : sub l 128 160 = zeros 32;
}.

Lemma all_zero l : Forall (fun b => (byte_val b =? 0) = true) l <-> l = zeros (len l).
Proof.
  unfold zeros, len. rewrite Nat2Z.id. induction l as [|b l IH]; simpl; [done|]. rewrite Forall_cons, IH. split.
  - intros [Hb%Z.eqb_eq Hl]. f_equal; [by apply byte_val_inj|exact Hl].
  - intros [= -> Hl]. by split.
Qed.

Lemma parse_header_post l : post (parse_header l) (fun _ => header_ok l).
Proof.
  unfold parse_header. change PACKAGE_ARTIFACT_HEADER_LEN with 160. do 4 wp_step. apply Z.ltb_ge in H, H0.
  wp_step. apply wp_slice; [done|change (MAGIC_OFFSET + 8) with 8; lia|]. wp_step. wp_step. apply negb_false_iff, bool_decide_eq_true in H1.
  rewrite (artifact_u16_at l MAJOR_OFFSET), ok_bind, (artifact_u16_at l MINOR_OFFSET), ok_bind
    by (unfold MAJOR_OFFSET, MINOR_OFFSET; lia).
  do 4 wp_step. apply negb_false_iff, Z.eqb_eq in H2. apply Z.ltb_ge in H3.
  rewrite read_u32_at, ok_bind by (unfold HEADER_LEN_OFFSET; lia). do 2 wp_step. apply negb_false_iff, Z.eqb_eq in H4.
  wp_step. apply wp_slice; [done|change RESERVED_END with 160; lia|]. wp_step. apply not_existsb, all_zero in H5.
  change (sub l RESERVED_OFFSET RESERVED_END) with (sub l 128 160) in H5. rewrite len_sub in H5 by lia.
  by split.
Qed.

Lemma parse_header_ok l : header_ok l -> parse_header l = Ok tt.
Proof.
  intros [Hl Hm Hmaj Hmin Hh Hr]. unfold parse_header. change PACKAGE_ARTIFACT_HEADER_LEN with 160 in *.
  replace (len l <? 160) with false by lia. replace (MAX_PACKAGE_ARTIFACT_BYTES <? len l) with false by lia. cbn [reject].
  rewrite !ok_bind. change (slice l MAGIC_OFFSET (MAGIC_OFFSET + 8)) with (slice l 0 8).
  rewrite (slice_sub l 0 8), ok_bind, Hm by lia. rewrite bool_decide_eq_true_2 by done. cbn [negb reject]. rewrite ok_bind.
  change MAJOR_OFFSET with 8. change MINOR_OFFSET with 10. change HEADER_LEN_OFFSET with 12.
  rewrite (artifact_u16_at l 8), ok_bind, (artifact_u16_at l 10), ok_bind, Hmaj, Z.eqb_refl by lia. cbn [negb reject]. rewrite ok_bind.
  replace (PACKAGE_ARTIFACT_MINOR <? u16_at l 10) with false by lia. cbn [reject].
  rewrite ok_bind, read_u32_at, ok_bind, Hh, Z.eqb_refl by lia. cbn [negb reject]. rewrite ok_bind.
  change (slice l RESERVED_OFFSET RESERVED_END) with (slice l 128 160). rewrite slice_sub, ok_bind, Hr by lia. reflexivity.
Qed.

(** The part of the artifact that the two header fields name. *)
Record region (l : list byte) (offset_field length_field max_len : Z) (r : Span) : Prop := {
  re_start : start r = u64_at l offset_field;
  re_end : end_ r = start r + u64_at l length_field;
  re_max : end_ r - start r <= max_len;
  re_bounds : PACKAGE_ARTIFACT_HEADER_LEN <= start r /\ start r <= end_ r /\ end_ r <= len l;
}.

Lemma header_range_post l o n max_len :
  160 <= len l -> 0 <= o -> o + 8 <= 160 -> 0 <= n -> n + 8 <= 160 ->
  post (header_range l o n max_len) (region l o n max_len).
Proof.
  intros. unfold header_range, checked_range, checked_add. rewrite (artifact_u64_at l o), ok_bind, (artifact_u64_at l n), ok_bind by lia.
  assert (uint 64 (u64_at l n)) as [Hn0 _] by (apply field_range; lia).
  do 2 wp_step. apply Z.ltb_ge in H4. do 2 wp_step. apply checked_Some in H5 as [-> _]. do 2 wp_step.
  apply orb_false_iff in H5 as [Ha%Z.ltb_ge Hb%Z.ltb_ge]. apply wp_ok. split; simpl; lia.
Qed.

Lemma header_range_ok l o n max_len r :
  160 <= len l <= MAX_PACKAGE_ARTIFACT_BYTES -> 0 <= o -> o + 8 <= 160 -> 0 <= n -> n + 8 <= 160 ->
  region l o n max_len r -> header_range l o n max_len = Ok r.
Proof.
  intros Hl ? ? ? ? [Hs He Hm Hb]. unfold header_range, checked_range, checked_add.
  rewrite (artifact_u64_at l o), ok_bind, (artifact_u64_at l n), ok_bind by lia. rewrite <- Hs.
  replace (max_len <? u64_at l n) with false by lia. cbn [reject]. rewrite ok_bind, <- He.
  change MAX_PACKAGE_ARTIFACT_BYTES with 4194304 in Hl. change PACKAGE_ARTIFACT_HEADER_LEN with 160 in *.
  rewrite checked_id by (split; [lia|]; change (2 ^ 64) with 18446744073709551616; lia). cbn [ok_or]. rewrite ok_bind.
  replace ((start r <? 160) || (len l <? end_ r)) with false by lia. cbn [reject]. rewrite ok_bind. by destruct r.
Qed.

(** The digest of an artifact ranges over the artifact without the digest. *)
Definition digest_input (l : list byte) : list byte := sub l 0 96 ++ zeros 32 ++ sub l 128 (len l).

Lemma artifact_digest_ok l : 160 <= len l -> artifact_digest l = Ok (sha256_digest (digest_input l)).
Proof.
  intros Hl. unfold artifact_digest. change ARTIFACT_SHA256_OFFSET with 96. change (96 + 32) with 128.
  rewrite (slice_sub l 0 96), ok_bind, (slice_sub l 128) by lia.
  pose proof (sha_pieces (E := PackageFormatError) [sub l 0 96; zeros 32; sub l 128 (len l)]) as Hp.
  cbn [concat] in Hp. rewrite app_nil_r in Hp. fold (digest_input l) in Hp. rewrite <- Hp. cbn [foldM].
  destruct (sha_update sha_new (sub l 0 96)) as [h| | |]; [rewrite !ok_bind|done..].
  destruct (sha_update h (zeros 32)) as [h'| | |]; [rewrite !ok_bind|done..].
  by destruct (sha_update h' (sub l 128 (len l))).
Qed.

Definition span_sub (r : Span) (l : list byte) : list byte := sub l (start r) (end_ r).

(** The artifact [a] with the manifest records [rs] in the bytes [l]. *)
Record artifact_ok (l : list byte) (a : PackageArtifactV0) (rs : list ManifestRecordV0) : Prop := {
  ao_header : header_ok l;
  ao_bytes : artifact_bytes a = l;
  ao_table : region l 32 40 MAX_CONTENT_TABLE_BYTES (content_table_range a);
  ao_content : region l 48 56 MAX_CONTENT_BYTES (content_payload_range a);
  ao_records : manifest_ok rs;
  ao_manifest : exists m, region l 16 24 MAX_MANIFEST_BYTES m /\ span_sub m l = manifest_image rs;
  ao_manifest_value : manifest a = {| manifest_bytes := manifest_image rs; record_count := len rs |};
  ao_manifest_field : manifest_sha256 a = sub l 64 96;
  ao_manifest_digest : manifest_sha256 a = sha256_digest (manifest_image rs);
  ao_artifact_field : artifact_sha256 a = sub l 96 128;
  ao_artifact_digest : artifact_sha256 a = sha256_digest (digest_input l);
  ao_entries : content_ok (span_sub (content_table_range a) l) (span_sub (content_payload_range a) l);
}.

Lemma span_slice_ok l o n max_len r : region l o n max_len r -> span_slice r l = Ok (span_sub r l).
Proof. intros [_ _ _ Hb]. change PACKAGE_ARTIFACT_HEADER_LEN with 160 in Hb. apply slice_sub; lia. Qed.

Lemma len_span l o n max_len r : region l o n max_len r -> len (span_sub r l) <= max_len.
Proof. intros [_ _ Hm Hb]. change PACKAGE_ARTIFACT_HEADER_LEN with 160 in Hb. unfold span_sub. rewrite len_sub; lia. Qed.

Lemma parse_post l : post (parse l) (fun a => exists rs, artifact_ok l a rs).
Proof.
  unfold parse. apply wp_bind. eapply wp_mono; [apply parse_header_post| |done]. intros u Hh.
  pose proof (ho_len l Hh) as Hl. change PACKAGE_ARTIFACT_HEADER_LEN with 160 in Hl.
  apply wp_bind. eapply wp_mono; [apply header_range_post; unfold MANIFEST_OFFSET_OFFSET, MANIFEST_LENGTH_OFFSET; lia| |done]. intros m Hm.
  apply wp_bind. eapply wp_mono; [apply header_range_post; unfold CONTENT_TABLE_OFFSET_OFFSET, CONTENT_TABLE_LENGTH_OFFSET; lia| |done]. intros t Ht.
  apply wp_bind. eapply wp_mono; [apply header_range_post; unfold CONTENT_BYTES_OFFSET_OFFSET, CONTENT_BYTES_LENGTH_OFFSET; lia| |done]. intros c Hc.
  unfold read_sha256 at 1. change (MANIFEST_SHA256_OFFSET + 32) with 96. change MANIFEST_SHA256_OFFSET with 64. wp_step. apply wp_slice; [lia..|].
  rewrite (span_slice_ok _ _ _ _ _ Hm), ok_bind, sha256_ok, ok_bind. do 2 wp_step. apply negb_false_iff, bool_decide_eq_true in H.
  apply wp_bind. eapply wp_mono; [exact (manifest_parse_post _ (len_span _ _ _ _ _ Hm))| |done]. intros mv (rs & Hrs & Himg & ->).
  unfold read_sha256. change (ARTIFACT_SHA256_OFFSET + 32) with 128. change ARTIFACT_SHA256_OFFSET with 96. wp_step. apply wp_slice; [lia..|].
  rewrite artifact_digest_ok, ok_bind by lia. do 2 wp_step. apply negb_false_iff, bool_decide_eq_true in H0.
  rewrite (span_slice_ok _ _ _ _ _ Ht), ok_bind, (span_slice_ok _ _ _ _ _ Hc), ok_bind. apply wp_bind.
  eapply wp_mono; [exact (validate_post _ _ (len_span _ _ _ _ _ Hc))| |done]. intros u' Hv. apply wp_ok.
  exists rs. rewrite Himg in H. split; simpl; try done; [by exists m|by rewrite Himg].
Qed.

Lemma parse_ok l a rs : artifact_ok l a rs -> parse l = Ok a.
Proof.
  intros [Hh Hb Ht Hc Hrs (m & Hm & Himg) Hmv Hmf Hmd Haf Had He]. unfold parse. pose proof (ho_len l Hh) as Hl.
  change PACKAGE_ARTIFACT_HEADER_LEN with 160 in Hl. rewrite (parse_header_ok l Hh), ok_bind.
  change MANIFEST_OFFSET_OFFSET with 16. change MANIFEST_LENGTH_OFFSET with 24. change CONTENT_TABLE_OFFSET_OFFSET with 32.
  change CONTENT_TABLE_LENGTH_OFFSET with 40. change CONTENT_BYTES_OFFSET_OFFSET with 48. change CONTENT_BYTES_LENGTH_OFFSET with 56.
  rewrite (header_range_ok l 16 24 _ m) by (done || lia). rewrite ok_bind.
  rewrite (header_range_ok l 32 40 _ (content_table_range a)) by (done || lia). rewrite ok_bind.
  rewrite (header_range_ok l 48 56 _ (content_payload_range a)) by (done || lia). rewrite ok_bind.
  unfold read_sha256. change (slice l MANIFEST_SHA256_OFFSET _) with (slice l 64 96). rewrite (slice_sub l 64 96), ok_bind by lia.
  rewrite (span_slice_ok _ _ _ _ _ Hm), ok_bind, Himg, sha256_ok, ok_bind, <- Hmf, <- Hmd. rewrite bool_decide_eq_true_2 by done.
  cbn [negb reject]. rewrite ok_bind, manifest_parse_image, ok_bind by (done || rewrite <- Himg; by eapply len_span).
  change (slice l ARTIFACT_SHA256_OFFSET _) with (slice l 96 128). rewrite (slice_sub l 96 128), ok_bind by lia.
  rewrite artifact_digest_ok, ok_bind, <- Haf, <- Had by lia. rewrite bool_decide_eq_true_2 by done. cbn [negb reject]. rewrite ok_bind.
  rewrite (span_slice_ok _ _ _ _ _ Ht), ok_bind, (span_slice_ok _ _ _ _ _ Hc), ok_bind.
  rewrite validate_ok, ok_bind by (done || by eapply len_span). destruct a. simpl in *. by subst.
Qed.

(** ** An artifact for given parts *)

#[local] Opaque sha256_digest manifest_image.

Section build.
Variables (rs : list ManifestRecordV0) (table content : list byte).

Definition fields_image : list byte :=
  let m := len (manifest_image rs) in
  PACKAGE_ARTIFACT_MAGIC ++ le_bytes 2 PACKAGE_ARTIFACT_MAJOR ++ le_bytes 2 PACKAGE_ARTIFACT_MINOR ++
  le_bytes 4 PACKAGE_ARTIFACT_HEADER_LEN ++ le_bytes 8 160 ++ le_bytes 8 m ++ le_bytes 8 (160 + m) ++
  le_bytes 8 (len table) ++ le_bytes 8 (160 + m + len table) ++ le_bytes 8 (len content).

Definition front_image : list byte := fields_image ++ sha256_digest (manifest_image rs).
Definition rear_image : list byte := zeros 32 ++ manifest_image rs ++ table ++ content.

(** The manifest, the table and the content behind each other. *)
Definition artifact_image : list byte :=
  front_image ++ sha256_digest (front_image ++ zeros 32 ++ rear_image) ++ rear_image.

Definition artifact_value : PackageArtifactV0 :=
  let m := len (manifest_image rs) in
  {| artifact_bytes := artifact_image;
     content_table_range := {| start := 160 + m; end_ := 160 + m + len table |};
     content_payload_range := {| start := 160 + m + len table; end_ := 160 + m + len table + len content |};
     manifest_sha256 := sha256_digest (manifest_image rs);
     artifact_sha256 := sha256_digest (front_image ++ zeros 32 ++ rear_image);
     manifest := {| manifest_bytes := manifest_image rs; record_count := len rs |} |}.

Lemma len_front : len front_image = 96.
Proof. unfold front_image. rewrite len_app, len_digest. reflexivity. Qed.

Lemma len_artifact_image : len artifact_image = 160 + len (manifest_image rs) + len table + len content.
Proof. unfold artifact_image, rear_image. rewrite !len_app, len_front, len_digest. change (len (zeros 32)) with 32. lia. Qed.

(** The image, seen from one of its parts. *)
Lemma image_part p x s k :
  artifact_image = p ++ x ++ s -> k = len p -> sub artifact_image k (k + len x) = x.
Proof. intros -> ->. by apply sub_middle. Qed.

Lemma image_manifest : sub artifact_image 160 (160 + len (manifest_image rs)) = manifest_image rs.
Proof.
  apply (image_part (front_image ++ sha256_digest (front_image ++ zeros 32 ++ rear_image) ++ zeros 32) _ (table ++ content)).
  - unfold artifact_image, rear_image at 2. by rewrite <- !app_assoc.
  - by rewrite !len_app, len_front, len_digest.
Qed.

Lemma image_table : sub artifact_image (160 + len (manifest_image rs)) (160 + len (manifest_image rs) + len table) = table.
Proof.
  apply (image_part (front_image ++ sha256_digest (front_image ++ zeros 32 ++ rear_image) ++ zeros 32 ++ manifest_image rs) _ content).
  - unfold artifact_image, rear_image at 2. by rewrite <- !app_assoc.
  - rewrite !len_app, len_front, len_digest. change (len (zeros 32)) with 32. lia.
Qed.

Lemma image_content :
  sub artifact_image (160 + len (manifest_image rs) + len table) (160 + len (manifest_image rs) + len table + len content) = content.
Proof.
  apply (image_part (front_image ++ sha256_digest (front_image ++ zeros 32 ++ rear_image) ++ zeros 32 ++ manifest_image rs ++ table) _ []).
  - unfold artifact_image, rear_image at 2. by rewrite <- !app_assoc, app_nil_r.
  - rewrite !len_app, len_front, len_digest. change (len (zeros 32)) with 32. lia.
Qed.

Lemma image_digest_input : digest_input artifact_image = front_image ++ zeros 32 ++ rear_image.
Proof.
  unfold digest_input. pose proof (image_part [] front_image _ 0 eq_refl eq_refl) as Hf. rewrite len_front in Hf.
  change (0 + 96) with 96 in Hf. rewrite Hf.
  pose proof (image_part (front_image ++ sha256_digest (front_image ++ zeros 32 ++ rear_image)) rear_image [] 128) as Hr.
  rewrite len_app, len_front, len_digest, <- app_assoc, app_nil_r in Hr. specialize (Hr eq_refl eq_refl).
  replace (len artifact_image) with (128 + len rear_image); [by rewrite Hr|].
  unfold artifact_image. rewrite !len_app, len_front, len_digest. lia.
Qed.

(** The sizes of the parts fit the format. *)
Record parts_ok : Prop := {
  po_records : manifest_ok rs;
  po_manifest : len (manifest_image rs) <= MAX_MANIFEST_BYTES;
  po_table : len table <= MAX_CONTENT_TABLE_BYTES;
  po_total : len artifact_image <= MAX_PACKAGE_ARTIFACT_BYTES;
  po_content : content_ok table content;
}.

Lemma image_u64 k x :
  u64_at artifact_image k = le_val (le_bytes 8 x) -> 0 <= x <= MAX_PACKAGE_ARTIFACT_BYTES -> u64_at artifact_image k = x.
Proof.
  intros -> Hx. apply (le_val_field 8 64); [done|]. change MAX_PACKAGE_ARTIFACT_BYTES with 4194304 in Hx. unfold uint. lia.
Qed.

Lemma image_region o n max_len first size :
  u64_at artifact_image o = le_val (le_bytes 8 first) -> u64_at artifact_image n = le_val (le_bytes 8 size) ->
  160 <= first -> 0 <= size <= max_len -> first + size <= len artifact_image -> len artifact_image <= MAX_PACKAGE_ARTIFACT_BYTES ->
  region artifact_image o n max_len {| start := first; end_ := first + size |}.
Proof.
  intros Ho Hn H160 Hs Hl Hmax. apply image_u64 in Ho; [|lia]. apply image_u64 in Hn; [|lia].
  split; cbn [start end_]; [by rewrite Ho|by rewrite Hn|lia|change PACKAGE_ARTIFACT_HEADER_LEN with 160; lia].
Qed.

Lemma image_header :
  len artifact_image <= MAX_PACKAGE_ARTIFACT_BYTES -> header_ok artifact_image.
Proof.
  intros Hl. pose proof len_artifact_image. pose proof (len_nonneg (manifest_image rs)). pose proof (len_nonneg table).
  pose proof (len_nonneg content). split.
  - change PACKAGE_ARTIFACT_HEADER_LEN with 160. lia.
  - reflexivity.
  - reflexivity.
  - change (u16_at artifact_image 10) with 1. done.
  - reflexivity.
  - apply (image_part (front_image ++ sha256_digest (front_image ++ zeros 32 ++ rear_image)) (zeros 32) (manifest_image rs ++ table ++ content) 128).
    + by rewrite <- app_assoc.
    + by rewrite len_app, len_front, len_digest.
Qed.

Lemma artifact_image_ok : parts_ok -> artifact_ok artifact_image artifact_value rs.
Proof.
  intros [Hrs Hm Ht Htot Hc]. pose proof (len_nonneg (manifest_image rs)). pose proof (len_nonneg table). pose proof (len_nonneg content).
  pose proof len_artifact_image as Hl. change MAX_PACKAGE_ARTIFACT_BYTES with 4194304 in *.
  change MAX_CONTENT_TABLE_BYTES with 32768 in *. change MAX_MANIFEST_BYTES with 65536 in *.
  pose proof (image_part fields_image (sha256_digest (manifest_image rs)) _ 64 (eq_sym (app_assoc _ _ _)) eq_refl) as Hmd.
  pose proof (image_part front_image (sha256_digest (front_image ++ zeros 32 ++ rear_image)) _ 96 eq_refl (eq_sym len_front)) as Had.
  rewrite len_digest in Hmd, Had.
  split; cbn [artifact_bytes content_table_range content_payload_range manifest manifest_sha256 artifact_sha256 artifact_value].
  - exact (image_header Htot).
  - reflexivity.
  - apply image_region; [reflexivity..| | | |]; unfold MAX_CONTENT_TABLE_BYTES, MAX_CONTENT_BYTES, MAX_MANIFEST_BYTES, MAX_PACKAGE_ARTIFACT_BYTES; lia.
  - apply image_region; [reflexivity..| | | |]; unfold MAX_CONTENT_TABLE_BYTES, MAX_CONTENT_BYTES, MAX_MANIFEST_BYTES, MAX_PACKAGE_ARTIFACT_BYTES; lia.
  - exact Hrs.
  - exists {| start := 160; end_ := 160 + len (manifest_image rs) |}. split; [|exact image_manifest].
    apply image_region; [reflexivity..| | | |]; unfold MAX_CONTENT_TABLE_BYTES, MAX_CONTENT_BYTES, MAX_MANIFEST_BYTES, MAX_PACKAGE_ARTIFACT_BYTES; lia.
  - reflexivity.
  - symmetry. exact Hmd.
  - reflexivity.
  - symmetry. exact Had.
  - by rewrite image_digest_input.
  - unfold span_sub. cbn [start end_]. rewrite image_table, image_content. exact Hc.
Qed.
End build.

(** ** Properties *)

Lemma ordered_lt rs i j a b : ordered rs -> (i < j)%nat -> rs !! i = Some a -> rs !! j = Some b -> key_lt a b.
Proof.
  intros Hord Hij. revert b. induction Hij as [|j Hij IH]; intros b Ha Hb; [exact (Hord i a b Ha Hb)|].
  destruct (lookup_lt_is_Some_2 rs j) as [c Hc]; [apply lookup_lt_Some in Hb; lia|].
  exact (key_lt_trans a c b (IH c Ha Hc) (Hord j c b Hc Hb)).
Qed.

(** The entries of the content table. *)
Definition table_entries (table : list byte) : list ContentEntryV0 :=
  (fun i => entry_at table (i * 64)) <$> range 0 (len table / 64).

Lemma content_entry_of l a rs i :
  artifact_ok l a rs -> 0 <= i ->
  content_entry a i = Ok (table_entries (span_sub (content_table_range a) l) !! Z.to_nat i).
Proof.
  intros [_ Hb Ht _ _ _ _ _ _ _ _ He] Hi. unfold content_entry, content_table_bytes. rewrite Hb, (span_slice_ok _ _ _ _ _ Ht), ok_bind.
  change CONTENT_ENTRY_V0_LEN with 64. set (table := span_sub _ l) in *. unfold table_entries. rewrite list_lookup_fmap.
  destruct (Z.leb_spec (len table / 64) i) as [Hge|Hlt].
  - rewrite (proj2 (lookup_ge_None _ _)); [done|]. rewrite length_range. lia.
  - rewrite (proj2 (lookup_range 0 _ _ i)) by lia. pose proof (table_slot table i ltac:(lia)).
    by rewrite read_entry_at, ok_bind by lia.
Qed.

(** C18: The parser returns on every byte string without panic, and it accepts
    exactly the artifacts of the format: a well-formed header, a manifest that
    is the image of at most 256 valid records in strict order, a content table
    whose entries name parts of the payload, and digests that agree. *)
Theorem artifact_parse_exact l :
  post (parse l) (fun _ => True) /\ forall a, parse l = Ok a <-> exists rs, artifact_ok l a rs.
Proof.
  split; [eapply wp_mono; [apply parse_post|done..]|]. intros a. split.
  - intros Hp. exact (wp_value _ _ _ (parse_post l) a Hp).
  - intros [rs Ha]. exact (parse_ok l a rs Ha).
Qed.

(** Records and contents of an accepted artifact can be read without
    failure: there are records and entries such that [record] and
    [content_entry] return them at their indices and nothing behind them, no
    two records have the same type and name, and the bytes of every entry have
    the digest that the entry declares. *)
Theorem artifact_parts_readable l a :
  parse l = Ok a ->
  exists (rs : list ManifestRecordV0) (es : list ContentEntryV0),
    (forall i, 0 <= i -> record (manifest a) i = Ok (rs !! Z.to_nat i) /\ content_entry a i = Ok (es !! Z.to_nat i)) /\
    (forall (i j : nat) r r', rs !! i = Some r -> rs !! j = Some r' -> key r = key r' -> i = j) /\
    (forall e, e ∈ es -> exists bytes, content_bytes a e = Ok bytes /\ sha256_digest bytes = content_sha256 e).
Proof.
  intros Hp. destruct (wp_value _ _ _ (parse_post l) a Hp) as [rs Ha]. exists rs, (table_entries (span_sub (content_table_range a) l)).
  split_and!.
  - intros i Hi. split; [|exact (content_entry_of l a rs i Ha Hi)]. rewrite (ao_manifest_value l a rs Ha).
    exact (record_of_manifest rs i (ao_records l a rs Ha) Hi).
  - intros i j r r' Hr Hr' Hk. injection Hk as Ht Hn. pose proof (mo_ordered rs (ao_records l a rs Ha)) as Hord.
    destruct (Nat.lt_trichotomy i j) as [Hij|[Hij|Hij]]; [|done|]; exfalso.
    + exact (key_lt_irrefl r r' (ordered_lt rs i j r r' Hord Hij Hr Hr') Ht Hn).
    + exact (key_lt_irrefl r' r (ordered_lt rs j i r' r Hord Hij Hr' Hr) (eq_sym Ht) (eq_sym Hn)).
  - intros e [i [-> Hi%elem_of_range]]%list_elem_of_fmap. destruct Ha as [_ Hb Ht Hc _ _ _ _ _ _ _ He].
    destruct (co_entries _ _ He i Hi) as (_ & _ & Hok). pose proof (table_slot _ i Hi).
    unfold content_bytes, content_payload_bytes. rewrite Hb, (span_slice_ok _ _ _ _ _ Hc), ok_bind. eexists. split.
    + apply content_slice_ok; [by eapply len_span|apply entry_at_uint; lia|exact Hok].
    + symmetry. exact (eo_digest _ _ Hok).
Qed.

(** C19: Every valid list of records with a valid content table and content has
    an artifact, and parsing it gives back the records, the table and the
    content. *)
Theorem artifact_roundtrip rs table content :
  parts_ok rs table content ->
  parse (artifact_image rs table content) = Ok (artifact_value rs table content) /\
  content_table_bytes (artifact_value rs table content) = Ok table /\
  content_payload_bytes (artifact_value rs table content) = Ok content /\
  forall i, 0 <= i -> record (manifest (artifact_value rs table content)) i = Ok (rs !! Z.to_nat i).
Proof.
  intros Hp. pose proof (artifact_image_ok rs table content Hp) as Ha. pose proof (ao_table _ _ _ Ha) as Ht. pose proof (ao_content _ _ _ Ha) as Hc.
  split; [exact (parse_ok _ _ _ Ha)|]. unfold content_table_bytes, content_payload_bytes. rewrite (ao_bytes _ _ _ Ha).
  rewrite (span_slice_ok _ _ _ _ _ Ht), (span_slice_ok _ _ _ _ _ Hc). unfold span_sub, artifact_value. cbn [start end_ content_table_range content_payload_range manifest].
  rewrite image_table, image_content. split_and!; [done..|]. intros i Hi. exact (record_of_manifest rs i (po_records _ _ _ Hp) Hi).
Qed.

Lemma artifact_split l : 160 <= len l -> l = sub l 0 96 ++ sub l 96 128 ++ sub l 128 (len l).
Proof. intros. rewrite <- (sub_split l 96 128), <- (sub_split l 0 96) by lia. by rewrite sub_all. Qed.

Lemma digest_input_inj l l' :
  160 <= len l -> 160 <= len l' -> digest_input l = digest_input l' -> sub l 96 128 = sub l' 96 128 -> l = l'.
Proof.
  intros Hl Hl' Hd Hs. rewrite (artifact_split l), (artifact_split l') by lia. unfold digest_input in Hd.
  apply app_inj_1 in Hd as [H1 Hd]; [|pose proof (len_sub l 0 96); pose proof (len_sub l' 0 96); unfold len in *; lia].
  apply app_inj_1 in Hd as [_ H2]; [|done]. by rewrite H1, Hs, H2.
Qed.

(** C20: The artifact digest stands for the artifact: two accepted artifacts
    with the same digest are equal, or the inputs of their digests are two
    different messages with the same SHA-256 digest. *)
Theorem artifact_digest_binds l a l' a' :
  parse l = Ok a -> parse l' = Ok a' -> artifact_sha256 a = artifact_sha256 a' ->
  l = l' \/
  (digest_input l <> digest_input l' /\ sha256_digest (digest_input l) = sha256_digest (digest_input l')).
Proof.
  intros Hp Hp' Hd. destruct (wp_value _ _ _ (parse_post l) a Hp) as [rs Ha]. destruct (wp_value _ _ _ (parse_post l') a' Hp') as [rs' Ha'].
  destruct (decide (digest_input l = digest_input l')) as [Heq|Hne].
  - left. destruct (ho_len _ (ao_header _ _ _ Ha)), (ho_len _ (ao_header _ _ _ Ha')). apply digest_input_inj; [done..|].
    rewrite <- (ao_artifact_field _ _ _ Ha), <- (ao_artifact_field _ _ _ Ha'). exact Hd.
  - right. split; [exact Hne|]. rewrite <- (ao_artifact_digest _ _ _ Ha), <- (ao_artifact_digest _ _ _ Ha'). exact Hd.
Qed.

(** ** A concrete artifact *)

(** One record named [a] and no content. *)
Definition sample_records : list ManifestRecordV0 := [{| record_type := 1; stable_name := [x61]; payload := [x62] |}].

Lemma sample_parts : parts_ok sample_records [] [].
Proof.
  split.
  - split; [done| |intros [|i] a b [= <-] [=]]. constructor; [|constructor]. split; [done|done| |done]. by constructor.
  - done.
  - done.
  - rewrite len_artifact_image. done.
  - split; [done|done|]. intros i Hi. change (len (@nil byte) / 64) with 0 in Hi. lia.
Qed.

Lemma artifact_roundtrip_witness :
  parts_ok sample_records [] [] /\
  parse (artifact_image sample_records [] []) = Ok (artifact_value sample_records [] []).
Proof. split; [exact sample_parts|]. exact (proj1 (artifact_roundtrip sample_records [] [] sample_parts)). Defined.

Lemma sample_parses : parse (artifact_image sample_records [] []) = Ok (artifact_value sample_records [] []).
Proof. exact (parse_ok _ _ _ (artifact_image_ok _ _ _ sample_parts)). Qed.

Lemma artifact_parts_readable_witness :
  exists (rs : list ManifestRecordV0) (es : list ContentEntryV0),
    (forall i, 0 <= i -> record (manifest (artifact_value sample_records [] [])) i = Ok (rs !! Z.to_nat i) /\
       content_entry (artifact_value sample_records [] []) i = Ok (es !! Z.to_nat i)) /\
    (forall (i j : nat) r r', rs !! i = Some r -> rs !! j = Some r' -> key r = key r' -> i = j) /\
    (forall e, e ∈ es -> exists bytes, content_bytes (artifact_value sample_records [] []) e = Ok bytes /\
       sha256_digest bytes = content_sha256 e).
Proof. exact (artifact_parts_readable _ _ sample_parses). Defined.

Lemma artifact_digest_binds_witness :
  artifact_image sample_records [] [] = artifact_image sample_records [] [] \/
  (digest_input (artifact_image sample_records [] []) <> digest_input (artifact_image sample_records [] []) /\
   sha256_digest (digest_input (artifact_image sample_records [] [])) = sha256_digest (digest_input (artifact_image sample_records [] []))).
Proof. exact (artifact_digest_binds _ _ _ _ sample_parses sample_parses eq_refl). Defined.
