(* ===== verification/TigVerify.v ===== *)
(** * The PythTIG verifier

    Models [shared/src/pyth_tig/verify.rs], function by function: block ranges
    and terminators, control-flow targets, reachability, dominators, value
    availability, opcode signatures, capability origins, the effect chain,
    referenced ranges and canonical encoding. Every [expect] and array index of
    the source is a panic of the model. *)

From stdpp Require Import base numbers list sets.
From Stdlib Require Import Strings.Byte.
From S2P Require Import Prelude TigTypes TigFormat Utf8.

Inductive VerifyError : Type :=
| Decode (e : PackageDecodeError)
| UnknownType (code : Z)
| UnknownOpcode (code : Z)
| InvalidBlockRange (block : Z)
| MissingTerminator (block : Z)
| MultipleTerminators (block : Z)
| InvalidControlTarget (block target : Z)
| BlockArgumentCountMismatch (source target : Z)
| ValueNotAvailable (node input : Z)
| ResultTypeForbidden (node : Z)
| TypeMismatch (node input : Z) (expected actual : PythType)
| EffectInputMissing (node : Z)
| EffectFork (producer : Z)
| EffectChainDisconnected (node : Z)
| CapabilityOriginInvalid (node : Z)
| CapabilityImportMissing (node import_slot : Z)
| ImportTypeMismatch (import_slot : Z)
| ImportRightsInsufficient (node import_slot : Z)
| HostResultInvalid (node : Z)
| ResourceBudgetExceeded
| NonCanonicalEncoding
| VerifyChecksumMismatch.

Abbreviation V := (outcome VerifyError).

Definition as_u32 : Z -> Z := wrap 32.
Definition as_u8 : Z -> Z := wrap 8.

(** [usize::MAX], the mark of a node that no block owns yet. *)
Definition usize_max : Z := u64_max.

Definition node_inputs (node : NodeRecord) : list Z :=
  [n_input0 node; n_input1 node; n_input2 node; n_input3 node].

Definition is_terminator (opcode : Opcode) : bool :=
  match opcode with Op.Jump | Op.Branch | Op.Return => true | _ => false end.

(** [1u128 << block] overflows from 128 on. *)
Definition block_bit (block : Z) : V Z :=
  if (0 <=? block) && (block <? 128) then Ok (Z.shiftl 1 block) else Panic.

Definition count_values (inputs : list Z) : Z :=
  foldl (fun count input => if input =? NO_VALUE then count else count + 1) 0 inputs.

(** [Opcode::try_from(node.opcode).expect(..)] and its type counterpart. *)
Definition known_opcode (node : NodeRecord) : V Opcode := expect (opcode_try_from (n_opcode node)).
Definition known_type (node : NodeRecord) : V PythType := expect (type_try_from (n_result_type node)).

(** ** Known types and opcodes *)

Definition verify_known_types (package : PythGraphPackage) : V unit :=
  forM (types package) (fun ty =>
    ok_or (type_try_from (t_kind ty)) (UnknownType (t_kind ty));; Ok tt);;
  forM (nodes package) (fun node =>
    ok_or (type_try_from (n_result_type node)) (UnknownType (n_result_type node));; Ok tt).

Definition verify_known_opcodes (package : PythGraphPackage) : V unit :=
  forM (nodes package) (fun node =>
    ok_or (opcode_try_from (n_opcode node)) (UnknownOpcode (n_opcode node));; Ok tt).

(** ** Block ranges *)

(** The inner loop of [verify_block_ranges]: claims one node for its block and
    counts terminators. *)
Definition claim_node (package : PythGraphPackage) (block : BlockRecord) (block_index end_ : Z)
    (st : list Z * Z) (node_index : Z) : V (list Z * Z) :=
  let '(node_blocks, terminators) := st in
  node_block ← index node_blocks node_index;
  reject (negb (node_block =? usize_max)) (InvalidBlockRange (b_block_id block));;
  node ← ok_or (get (nodes package) node_index) (InvalidBlockRange (b_block_id block));
  reject (negb (n_block_index node =? block_index)) (InvalidBlockRange (b_block_id block));;
  node_blocks ← index_set node_blocks node_index block_index;
  opcode ← known_opcode node;
  if is_terminator opcode then
    reject (negb (node_index + 1 =? end_)) (MultipleTerminators (b_block_id block));;
    Ok (node_blocks, terminators + 1)
  else Ok (node_blocks, terminators).

(** The outer loop body over [package.blocks().iter().enumerate()]. *)
Definition verify_block_range (package : PythGraphPackage)
    (st : list Z * list Z * list Z) (b : Z * BlockRecord) : V (list Z * list Z * list Z) :=
  let '(block_starts, block_ends, node_blocks) := st in
  let '(block_index, block) := b in
  let first := b_first_node block in
  let count := b_node_count block in
  end_ ← ok_or (checked_add 64 first count) (InvalidBlockRange (b_block_id block));
  reject (negb (b_block_id block =? as_u32 block_index) || (count =? 0)
          || (len (nodes package) <? end_)) (InvalidBlockRange (b_block_id block));;
  block_starts ← index_set block_starts block_index first;
  block_ends ← index_set block_ends block_index end_;
  r ← foldM (claim_node package block block_index end_) (node_blocks, 0)
        (range first (Z.min end_ (len node_blocks)));
  let '(node_blocks, terminators) := (r : list Z * Z) in
  reject (terminators =? 0) (MissingTerminator (b_block_id block));;
  reject (1 <? terminators) (MultipleTerminators (b_block_id block));;
  reject (negb (b_terminator_node block =? as_u32 (end_ - 1)))
    (MissingTerminator (b_block_id block));;
  Ok (block_starts, block_ends, node_blocks).

Definition verify_block_ranges (package : PythGraphPackage)
    (block_starts block_ends node_blocks : list Z) : V (list Z * list Z * list Z) :=
  st ← foldM (verify_block_range package) (block_starts, block_ends, node_blocks)
         (enumerate (blocks package));
  let '(block_starts, block_ends, node_blocks) := (st : list Z * list Z * list Z) in
  forM (take (length (nodes package)) (enumerate node_blocks)) (fun '(node_index, node_block) =>
    if node_block =? usize_max then
      node ← ok_or (get (nodes package) node_index) (InvalidBlockRange 0);
      Err (InvalidBlockRange (n_block_index node))
    else Ok tt);;
  Ok (block_starts, block_ends, node_blocks).

(** ** Control flow *)

Definition validate_target (package : PythGraphPackage) (source target : Z) : V unit :=
  reject (len (blocks package) <=? target) (InvalidControlTarget source target).

(** The loop body of [validate_jump_arity] over the first [parameter_count]
    inputs. *)
Definition validate_jump_argument (package : PythGraphPackage) (terminator_index : Z)
    (target_block : BlockRecord) (i : Z * Z) : V unit :=
  let '(input_index, input) := i in
  reject (input =? NO_VALUE) (ValueNotAvailable (as_u32 terminator_index) (as_u8 input_index));;
  parameter_index ← ok_or (checked_add 64 (b_first_node target_block) input_index)
                      (InvalidBlockRange (b_block_id target_block));
  parameter ← ok_or (get (nodes package) parameter_index)
                (InvalidBlockRange (b_block_id target_block));
  parameter_opcode ← known_opcode parameter;
  reject (negb (bool_decide (parameter_opcode = Op.BlockParam)))
    (InvalidBlockRange (b_block_id target_block));;
  producer ← ok_or (get (nodes package) input)
               (ValueNotAvailable (as_u32 terminator_index) (as_u8 input_index));
  actual ← known_type producer;
  expected ← known_type parameter;
  reject (negb (bool_decide (actual = expected)))
    (TypeMismatch (as_u32 terminator_index) (as_u8 input_index) expected actual).

Definition validate_jump_arity (package : PythGraphPackage) (terminator_index : Z)
    (terminator : NodeRecord) (source target : Z) : V unit :=
  target_block ← expect (get (blocks package) target);
  let provided := count_values (node_inputs terminator) in
  reject (negb (provided =? b_parameter_count target_block))
    (BlockArgumentCountMismatch source target);;
  forM (take (Z.to_nat (b_parameter_count target_block)) (enumerate (node_inputs terminator)))
    (validate_jump_argument package terminator_index target_block).

Definition validate_branch_arity (package : PythGraphPackage) (source target : Z) : V unit :=
  target_block ← expect (get (blocks package) target);
  reject (negb (b_parameter_count target_block =? 0)) (BlockArgumentCountMismatch source target).

(** The loop body of [verify_control_flow] for one block. *)
Definition verify_block_control_flow (package : PythGraphPackage)
    (block_starts block_ends : list Z) (block_index : Z) : V unit :=
  block ← expect (get (blocks package) block_index);
  block_end ← index block_ends block_index;
  let terminator_index := block_end - 1 in
  terminator ← expect (get (nodes package) terminator_index);
  opcode ← known_opcode terminator;
  (match opcode with
   | Op.Jump =>
       validate_target package (b_block_id block) (n_auxiliary0 terminator);;
       validate_jump_arity package terminator_index terminator (b_block_id block)
         (n_auxiliary0 terminator)
   | Op.Branch =>
       validate_target package (b_block_id block) (n_auxiliary0 terminator);;
       validate_target package (b_block_id block) (n_auxiliary1 terminator);;
       validate_branch_arity package (b_block_id block) (n_auxiliary0 terminator);;
       validate_branch_arity package (b_block_id block) (n_auxiliary1 terminator)
   | Op.Return => Ok tt
   | _ => Err (MissingTerminator (b_block_id block))
   end);;
  block_start ← index block_starts block_index;
  forM (range block_start terminator_index) (fun node_index =>
    node ← expect (get (nodes package) node_index);
    opcode ← known_opcode node;
    reject (is_terminator opcode) (MultipleTerminators (b_block_id block))).

Definition verify_control_flow (package : PythGraphPackage) (block_starts block_ends : list Z)
  : V unit :=
  forM (range 0 (len (blocks package))) (verify_block_control_flow package block_starts block_ends).

(** ** Reachability *)

Fixpoint pos_trailing_zeros (p : positive) : Z :=
  match p with
  | (q~0)%positive => 1 + pos_trailing_zeros q
  | _ => 0
  end.

(** [u128::trailing_zeros] *)
Definition trailing_zeros (x : Z) : Z :=
  match x with Zpos p => pos_trailing_zeros p | _ => 128 end.

(** One round of the worklist loop of [verify_reachable_blocks] on
    [(reachable, pending)]. *)
Definition reach_step (package : PythGraphPackage) (st : Z * Z) : V (Z * Z + Z) :=
  let '(reachable, pending) := st in
  if pending =? 0 then Ok (inr reachable) else
  let block_index := trailing_zeros pending in
  bit ← block_bit block_index;
  let pending := Z.ldiff pending bit in
  if negb (Z.land reachable bit =? 0) then Ok (inl (reachable, pending)) else
  let reachable := Z.lor reachable bit in
  block ← expect (get (blocks package) block_index);
  terminator ← ok_or (get (nodes package) (b_terminator_node block))
                 (InvalidBlockRange (b_block_id block));
  opcode ← known_opcode terminator;
  match opcode with
  | Op.Jump =>
      b0 ← block_bit (n_auxiliary0 terminator);
      Ok (inl (reachable, Z.lor pending b0))
  | Op.Branch =>
      b0 ← block_bit (n_auxiliary0 terminator);
      b1 ← block_bit (n_auxiliary1 terminator);
      Ok (inl (reachable, Z.lor (Z.lor pending b0) b1))
  | _ => Ok (inl (reachable, pending))
  end.

(** Each round marks a block (at most 128 times, adding at most two pending
    bits) or drops a pending bit, so 513 rounds suffice. *)
Definition reach_fuel : nat := Z.to_nat 513.

Definition verify_reachable_blocks (package : PythGraphPackage) : V unit :=
  let entry := h_entry_block (p_header package) in
  reject (len (blocks package) <=? entry) (InvalidControlTarget entry entry);;
  pending ← block_bit entry;
  reachable ← loop reach_fuel (reach_step package) (0, pending);
  forM (range 0 (len (blocks package))) (fun block_index =>
    bit ← block_bit block_index;
    if Z.land reachable bit =? 0 then
      block ← expect (get (blocks package) block_index);
      Err (InvalidBlockRange (b_block_id block))
    else Ok tt).

(** ** Dominators *)

(** [predecessors[target] |= block_bit(block_index)] *)
Definition add_predecessor (predecessors : list Z) (target block_index : Z) : V (list Z) :=
  old ← index predecessors target;
  bit ← block_bit block_index;
  index_set predecessors target (Z.lor old bit).

Definition block_predecessors (package : PythGraphPackage) (predecessors : list Z)
    (block_index : Z) : V (list Z) :=
  block ← expect (get (blocks package) block_index);
  terminator ← ok_or (get (nodes package) (b_terminator_node block))
                 (InvalidBlockRange (b_block_id block));
  opcode ← known_opcode terminator;
  match opcode with
  | Op.Jump => add_predecessor predecessors (n_auxiliary0 terminator) block_index
  | Op.Branch =>
      predecessors ← add_predecessor predecessors (n_auxiliary0 terminator) block_index;
      add_predecessor predecessors (n_auxiliary1 terminator) block_index
  | _ => Ok predecessors
  end.

Definition all_blocks (block_count : Z) : Z :=
  if block_count =? 128 then 2 ^ 128 - 1 else Z.shiftl 1 block_count - 1.

(** The initial array: the entry dominates itself, every other block starts
    from the full set. *)
Definition initial_dominators (block_count entry : Z) : V (list Z) :=
  foldM (fun dominators block_index =>
      if block_index =? entry then
        bit ← block_bit block_index;
        index_set dominators block_index bit
      else index_set dominators block_index (all_blocks block_count))
    (replicate (Z.to_nat MAX_BLOCKS) 0) (range 0 block_count).

(** The meet over the predecessors of one block. *)
Definition intersect_predecessors (block_count preds : Z) (dominators : list Z) : V Z :=
  foldM (fun intersection '(pred, dominator) =>
      bit ← block_bit pred;
      Ok (if negb (Z.land preds bit =? 0) then Z.land intersection dominator else intersection))
    (all_blocks block_count) (take (Z.to_nat block_count) (enumerate dominators)).

(** The loop body of one pass for one block; the flag is [changed]. *)
Definition dominator_update (block_count entry : Z) (predecessors : list Z)
    (st : list Z * bool) (block_index : Z) : V (list Z * bool) :=
  let '(dominators, changed) := st in
  if block_index =? entry then Ok (dominators, changed) else
  preds ← index predecessors block_index;
  intersection ← intersect_predecessors block_count preds dominators;
  bit ← block_bit block_index;
  let next := Z.lor bit intersection in
  old ← index dominators block_index;
  if negb (old =? next) then
    dominators ← index_set dominators block_index next;
    Ok (dominators, true)
  else Ok (dominators, changed).

(** [while changed { .. }]: one pass over all blocks. *)
Definition dominator_pass (block_count entry : Z) (predecessors dominators : list Z)
  : V (list Z + list Z) :=
  r ← foldM (dominator_update block_count entry predecessors) (dominators, false)
        (range 0 block_count);
  let '(dominators, changed) := (r : list Z * bool) in
  Ok (if changed then inl dominators else inr dominators).

(** Every pass that changes something clears at least one of the [128 * 128]
    bits. *)
Definition dominator_fuel : nat := Z.to_nat (128 * 128 + 1).

Definition compute_dominators (package : PythGraphPackage) : V (list Z) :=
  let block_count := len (blocks package) in
  let entry := h_entry_block (p_header package) in
  reject (block_count <=? entry) (InvalidControlTarget entry entry);;
  predecessors ← foldM (block_predecessors package) (replicate (Z.to_nat MAX_BLOCKS) 0)
                   (range 0 block_count);
  dominators ← initial_dominators block_count entry;
  loop dominator_fuel (dominator_pass block_count entry predecessors) dominators.

(** ** Value availability *)

(** The check of one input of one node. *)
Definition input_available (package : PythGraphPackage) (node_blocks dominators : list Z)
    (node_index : Z) (i : Z * Z) : V unit :=
  let '(input_index, input) := i in
  if input =? NO_VALUE then Ok tt else
  let unavailable := ValueNotAvailable (as_u32 node_index) (as_u8 input_index) in
  reject (len (nodes package) <=? input) unavailable;;
  consumer_block ← index node_blocks node_index;
  producer_block ← index node_blocks input;
  reject ((consumer_block =? usize_max) || (producer_block =? usize_max)) unavailable;;
  available ← (if producer_block =? consumer_block then Ok (input <? node_index)
               else
                 doms ← index dominators consumer_block;
                 bit ← block_bit producer_block;
                 Ok (negb (Z.land doms bit =? 0)));
  reject (negb available) unavailable.

Definition verify_value_availability (package : PythGraphPackage) (node_blocks : list Z) : V unit :=
  dominators ← compute_dominators package;
  forM (enumerate (nodes package)) (fun '(node_index, node) =>
    forM (enumerate (node_inputs node))
      (input_available package node_blocks dominators node_index)).

(** ** Semantics: signatures, capability origins and the effect chain *)

Inductive CapabilityOrigin : Type :=
| OriginNone
| OriginImport (slot : Z)
| OriginHostResult (resource_kind rights : Z).

#[export] Instance CapabilityOrigin_eq_dec : EqDecision CapabilityOrigin.
Proof. solve_decision. Defined.

Record HostResultSchema : Type := {
  schema_result_type : PythType;
  schema_capability_origin : option CapabilityOrigin }.

(** The local arrays and variables of [verify_semantics]. *)
Record SemState : Type := {
  result_types : list PythType;
  capability_origins : list CapabilityOrigin;
  effect_consumers : list Z;
  effect_start : option Z;
  current_effect : Z }.

Definition opcode_accepts_result (opcode : Opcode) (actual expected : PythType) : bool :=
  bool_decide (actual = expected) ||
  match opcode, actual with
  | Op.ConstU64, (Ty.ObjectId | Ty.RevisionId | Ty.TaskId | Ty.ProposalId | Ty.ErrorCode) => true
  | Op.BlockParam, _ => true
  | _, _ => false
  end.

(** The first loop of [verify_opcode_signature]: a declared input. *)
Definition check_declared_input (package : PythGraphPackage) (node_index : Z)
    (signature : OpcodeSignature) (result_types : list PythType) (i : Z * Z) : V unit :=
  let '(input_index, input) := i in
  let unavailable := ValueNotAvailable (as_u32 node_index) (as_u8 input_index) in
  expected ← index (inputs signature) input_index;
  (if input =? NO_VALUE then
     Err (if bool_decide (expected = Ty.Effect)
          then EffectInputMissing (as_u32 node_index) else unavailable)
   else Ok tt);;
  reject (len (nodes package) <=? input) unavailable;;
  actual ← index result_types input;
  reject (negb (bool_decide (actual = expected)))
    (TypeMismatch (as_u32 node_index) (as_u8 input_index) expected actual).

Definition verify_opcode_signature (package : PythGraphPackage) (node_index : Z)
    (node : NodeRecord) (result_types : list PythType) : V unit :=
  opcode ← known_opcode node;
  let signature := signature opcode in
  actual_result ← index result_types node_index;
  reject (negb (opcode_accepts_result opcode actual_result (result signature)))
    (ResultTypeForbidden (as_u32 node_index));;
  let ins := enumerate (node_inputs node) in
  forM (take (Z.to_nat (input_count signature)) ins)
    (check_declared_input package node_index signature result_types);;
  forM (drop (Z.to_nat (input_count signature)) ins) (fun '(input_index, input) =>
    reject (negb (input =? NO_VALUE))
      (ValueNotAvailable (as_u32 node_index) (as_u8 input_index))).

Definition find_import (package : PythGraphPackage) (import_slot : Z)
  : option CapabilityImportRecord :=
  snd <$> list_find (fun i => i_import_slot i = import_slot) (imports package).

Definition verify_import_block_param (package : PythGraphPackage) (node_index : Z)
    (node : NodeRecord) : V Z :=
  reject (negb (n_block_index node =? h_entry_block (p_header package)))
    (CapabilityOriginInvalid (as_u32 node_index));;
  import_slot ← ok_or (checked 16 (n_auxiliary0 node))
                  (CapabilityImportMissing (as_u32 node_index) u16_max);
  import ← ok_or (find_import package import_slot)
             (CapabilityImportMissing (as_u32 node_index) import_slot);
  reject (negb (i_expected_type import =? type_code Ty.Capability))
    (ImportTypeMismatch import_slot);;
  Ok import_slot.

Definition host_result_is_in_contiguous_projection_run (package : PythGraphPackage)
    (producer_index node_index : Z) : bool :=
  if node_index <=? producer_index then false else
  match checked 32 producer_index with
  | None => false
  | Some producer_ref =>
      forallb (fun index =>
          match get (nodes package) index with
          | None => false
          | Some projector =>
              bool_decide (opcode_try_from (n_opcode projector) = Some Op.HostResult)
              && (n_input0 projector =? producer_ref)
          end) (range (producer_index + 1) node_index)
  end.

Definition host_result_field_type (producer_opcode : Opcode) (field : Z) : option PythType :=
  match producer_opcode with
  | Op.ObjectCreate =>
      if field =? HOST_RESULT_STATUS then Some Ty.ErrorCode
      else if field =? HOST_RESULT_OBJECT_ID then Some Ty.ObjectId
      else if field =? HOST_RESULT_REVISION then Some Ty.RevisionId
      else if field =? HOST_RESULT_CAPABILITY then Some Ty.Capability
      else None
  | Op.ObjectQuery =>
      if field =? HOST_RESULT_STATUS then Some Ty.ErrorCode
      else if field =? HOST_RESULT_OBJECT_ID then Some Ty.ObjectId
      else if field =? HOST_RESULT_CAPABILITY then Some Ty.Capability
      else None
  | Op.ObjectInspect =>
      if field =? HOST_RESULT_STATUS then Some Ty.ErrorCode
      else if field =? HOST_RESULT_OBJECT_ID then Some Ty.ObjectId
      else if field =? HOST_RESULT_REVISION then Some Ty.RevisionId
      else if field =? HOST_RESULT_UTF8 then Some Ty.Utf8
      else None
  | Op.ObjectRevise | Op.ObjectHistory =>
      if field =? HOST_RESULT_STATUS then Some Ty.ErrorCode
      else if field =? HOST_RESULT_OBJECT_ID then Some Ty.ObjectId
      else if field =? HOST_RESULT_REVISION then Some Ty.RevisionId
      else None
  | Op.TaskContextRead =>
      if field =? TASK_CONTEXT_RESULT_ACTIVE_TASK_ID then Some Ty.TaskId
      else if field =? TASK_CONTEXT_RESULT_CANDIDATE_TASK_ID then Some Ty.TaskId
      else if field =? TASK_CONTEXT_RESULT_CONFIDENCE_SCORE then Some Ty.U64
      else if field =? TASK_CONTEXT_RESULT_PROPOSAL_KIND then Some Ty.U64
      else if field =? TASK_CONTEXT_RESULT_REASON_UTF8 then Some Ty.Utf8
      else None
  | Op.CommandRead =>
      if field =? COMMAND_FIELD_KIND then Some Ty.U64
      else if field =? COMMAND_FIELD_OBJECT_ID then Some Ty.ObjectId
      else if field =? COMMAND_FIELD_TASK_ID then Some Ty.TaskId
      else if field =? COMMAND_FIELD_PROPOSAL_ID then Some Ty.ProposalId
      else if field =? COMMAND_FIELD_TEXT_UTF8 then Some Ty.Utf8
      else None
  | _ => None
  end.

Definition host_result_field_schema (producer_opcode : Opcode) (field : Z)
  : option HostResultSchema :=
  result_type ← host_result_field_type producer_opcode field;
  Some {| schema_result_type := result_type;
          schema_capability_origin :=
            if bool_decide (result_type = Ty.Capability)
            then Some (OriginHostResult RESOURCE_OBJECT (Z.lor RIGHTS_READ RIGHTS_REVISE))
            else None |}.

Definition verify_host_result (package : PythGraphPackage) (node_index : Z) (node : NodeRecord)
    (actual_result : PythType) : V HostResultSchema :=
  let invalid := HostResultInvalid (as_u32 node_index) in
  let producer_index := n_input0 node in
  reject (negb (host_result_is_in_contiguous_projection_run package producer_index node_index))
    invalid;;
  producer ← ok_or (get (nodes package) producer_index) invalid;
  producer_opcode ← ok_or (opcode_try_from (n_opcode producer)) invalid;
  reject (negb (effectful (signature producer_opcode)) || negb (n_input1 node =? NO_VALUE)
          || negb (n_input2 node =? NO_VALUE) || negb (n_input3 node =? NO_VALUE)) invalid;;
  schema ← ok_or (host_result_field_schema producer_opcode (n_auxiliary0 node)) invalid;
  reject (negb (bool_decide (schema_result_type schema = actual_result))) invalid;;
  Ok schema.

Definition verify_host_import (package : PythGraphPackage) (node_index : Z) (node : NodeRecord)
    (opcode : Opcode) (result_types : list PythType)
    (capability_origins : list CapabilityOrigin) : V unit :=
  let signature := signature opcode in
  match required_resource_kind signature with
  | None => Ok tt
  | Some required_kind =>
      let capability_input := n_input1 node in
      actual ← index result_types capability_input;
      reject (negb (bool_decide (actual = Ty.Capability)))
        (TypeMismatch node_index 1 Ty.Capability actual);;
      origin ← index capability_origins capability_input;
      match origin with
      | OriginImport import_slot =>
          import ← ok_or (find_import package import_slot)
                     (CapabilityImportMissing node_index import_slot);
          reject (negb (i_expected_type import =? type_code Ty.Capability))
            (ImportTypeMismatch import_slot);;
          reject (negb (i_resource_kind import =? required_kind)
                  || negb (Z.land (i_rights import) (required_rights signature)
                           =? required_rights signature))
            (ImportRightsInsufficient node_index import_slot)
      | OriginHostResult resource_kind rights =>
          reject (negb (resource_kind =? required_kind)
                  || negb (Z.land rights (required_rights signature)
                           =? required_rights signature))
            (CapabilityOriginInvalid capability_input)
      | OriginNone => Err (CapabilityOriginInvalid capability_input)
      end
  end.

Definition verify_capability_inputs (node_index : Z) (node : NodeRecord)
    (result_types : list PythType) (capability_origins : list CapabilityOrigin) : V unit :=
  forM (enumerate (node_inputs node)) (fun '(input_index, input) =>
    if input =? NO_VALUE then Ok tt else
    ty ← index result_types input;
    if bool_decide (ty = Ty.Capability) then
      origin ← index capability_origins input;
      reject (bool_decide (origin = OriginNone)) (CapabilityOriginInvalid input)
    else Ok tt).

(** The opcode-specific part of the loop body: the new [capability_origins]. *)
Definition verify_node_origin (package : PythGraphPackage) (node_index : Z) (node : NodeRecord)
    (opcode : Opcode) (actual_result : PythType) (result_types : list PythType)
    (capability_origins : list CapabilityOrigin) : V (list CapabilityOrigin) :=
  match opcode with
  | Op.BlockParam =>
      verify_opcode_signature package node_index node result_types;;
      if bool_decide (actual_result = Ty.Capability) then
        import_slot ← verify_import_block_param package node_index node;
        index_set capability_origins node_index (OriginImport import_slot)
      else Ok capability_origins
  | Op.HostResult =>
      schema ← verify_host_result package node_index node actual_result;
      if bool_decide (actual_result = Ty.Capability) then
        origin ← ok_or (schema_capability_origin schema) (HostResultInvalid (as_u32 node_index));
        index_set capability_origins node_index origin
      else Ok capability_origins
  | Op.Jump => Ok capability_origins
  | _ => verify_opcode_signature package node_index node result_types;; Ok capability_origins
  end.

(** The effect-chain part of the loop body. *)
Definition verify_node_effect (package : PythGraphPackage) (node_index : Z) (node : NodeRecord)
    (opcode : Opcode) (actual_result : PythType) (st : SemState) : V SemState :=
  if bool_decide (opcode = Op.EffectStart) then
    reject (bool_decide (is_Some (effect_start st))
            || negb (bool_decide (actual_result = Ty.Effect))
            || negb (count_values (node_inputs node) =? 0))
      (EffectChainDisconnected (as_u32 node_index));;
    Ok {| result_types := result_types st; capability_origins := capability_origins st;
          effect_consumers := effect_consumers st;
          effect_start := Some (as_u32 node_index);
          current_effect := as_u32 node_index |}
  else if effectful (signature opcode) then
    let producer := n_input0 node in
    reject (producer =? NO_VALUE) (EffectInputMissing (as_u32 node_index));;
    old ← index (effect_consumers st) producer;
    consumers ← index_set (effect_consumers st) producer (Z.min (old + 1) u8_max);
    count ← index consumers producer;
    reject (1 <? count) (EffectFork producer);;
    reject (negb (producer =? current_effect st)) (EffectChainDisconnected (as_u32 node_index));;
    verify_host_import package (as_u32 node_index) node opcode (result_types st)
      (capability_origins st);;
    Ok {| result_types := result_types st; capability_origins := capability_origins st;
          effect_consumers := consumers; effect_start := effect_start st;
          current_effect := as_u32 node_index |}
  else Ok st.

(** The loop body of [verify_semantics]. *)
Definition verify_node_semantics (package : PythGraphPackage) (st : SemState)
    (n : Z * NodeRecord) : V SemState :=
  let '(node_index, node) := n in
  opcode ← known_opcode node;
  actual_result ← known_type node;
  types ← index_set (result_types st) node_index actual_result;
  reject (bool_decide (actual_result = Ty.Capability)
          && negb (bool_decide (opcode = Op.BlockParam) || bool_decide (opcode = Op.HostResult)))
    (CapabilityOriginInvalid (as_u32 node_index));;
  origins ← verify_node_origin package node_index node opcode actual_result types
              (capability_origins st);
  st ← verify_node_effect package node_index node opcode actual_result
         {| result_types := types; capability_origins := origins;
            effect_consumers := effect_consumers st; effect_start := effect_start st;
            current_effect := current_effect st |};
  verify_capability_inputs node_index node (result_types st) (capability_origins st);;
  Ok st.

Definition initial_sem_state : SemState := {|
  result_types := replicate (Z.to_nat MAX_GRAPH_NODES) Ty.Unit;
  capability_origins := replicate (Z.to_nat MAX_GRAPH_NODES) OriginNone;
  effect_consumers := replicate (Z.to_nat MAX_GRAPH_NODES) 0;
  effect_start := None;
  current_effect := NO_VALUE |}.

Definition verify_semantics (package : PythGraphPackage) : V unit :=
  foldM (verify_node_semantics package) initial_sem_state (enumerate (nodes package));; Ok tt.

(** ** Referenced ranges and canonical encoding *)

Definition referenced_bytes (bytes : list byte) (offset l : Z) : option (list byte) :=
  end_ ← checked_add 32 offset l;
  get_range bytes offset end_.

Definition verify_import_name (package : PythGraphPackage) (import : CapabilityImportRecord)
  : V unit :=
  name ← ok_or (referenced_bytes (string_table package) (i_name_offset import) (i_name_len import))
           NonCanonicalEncoding;
  reject (negb (from_utf8 name)) NonCanonicalEncoding.

Definition verify_node_reference (package : PythGraphPackage) (node : NodeRecord) : V unit :=
  opcode ← known_opcode node;
  match opcode with
  | Op.ConstBytes =>
      ok_or (referenced_bytes (constant_pool package) (n_auxiliary0 node) (n_auxiliary1 node))
        NonCanonicalEncoding;; Ok tt
  | Op.ConstUtf8 =>
      text ← ok_or (referenced_bytes (string_table package) (n_auxiliary0 node)
                      (n_auxiliary1 node)) NonCanonicalEncoding;
      reject (negb (from_utf8 text)) NonCanonicalEncoding
  | _ => Ok tt
  end.

Definition verify_referenced_ranges (package : PythGraphPackage) : V unit :=
  forM (imports package) (verify_import_name package);;
  forM (nodes package) (verify_node_reference package).

Definition node_fields_are_canonical (opcode : Opcode) (node : NodeRecord) : bool :=
  let no_auxiliary := (n_auxiliary0 node =? 0) && (n_auxiliary1 node =? 0) in
  let no_immediate := n_immediate node =? 0 in
  match opcode with
  | Op.BlockParam =>
      (n_auxiliary1 node =? 0) && no_immediate
      && ((n_result_type node =? type_code Ty.Capability) || (n_auxiliary0 node =? 0))
  | Op.ConstBool => no_auxiliary && ((n_immediate node =? 0) || (n_immediate node =? 1))
  | Op.ConstU64 | Op.ConstI64 => no_auxiliary
  | Op.ConstBytes | Op.ConstUtf8 => no_immediate
  | Op.EffectStart => no_auxiliary && no_immediate
  | Op.HostResult => (n_auxiliary1 node =? 0) && no_immediate
  | Op.Jump => (n_auxiliary1 node =? 0) && no_immediate
  | Op.Branch => no_immediate
  | Op.Return => no_auxiliary && no_immediate
  | _ => no_auxiliary && no_immediate
  end.

Definition verify_canonical_encoding (package : PythGraphPackage) : V unit :=
  forM (types package) (fun ty =>
    reject (negb (t_flags ty =? 0) || negb (t_auxiliary ty =? 0)) NonCanonicalEncoding);;
  foldM (fun expected_first_node block =>
      reject (negb (b_flags block =? 0) || negb (b_first_node block =? expected_first_node)
              || (4 <? b_parameter_count block)) NonCanonicalEncoding;;
      ok_or (checked_add 32 expected_first_node (b_node_count block)) NonCanonicalEncoding)
    0 (blocks package);;
  forM (nodes package) (fun node =>
    opcode ← known_opcode node;
    reject (negb (n_flags node =? 0) || negb (node_fields_are_canonical opcode node))
      NonCanonicalEncoding);;
  forM (enumerate (imports package)) (fun '(index, import) =>
    reject (negb (i_import_slot import =? index)
            || negb (bool_decide (is_Some (type_try_from (i_expected_type import))))
            || negb ((1 <=? i_resource_kind import) && (i_resource_kind import <=? 6))
            || negb (Z.ldiff (i_rights import) 0x007F =? 0)) NonCanonicalEncoding).

(** ** Entry points *)

Record VerifiedGraph : Type := { graph_package : PythGraphPackage }.

Definition verify_package (package : PythGraphPackage) : V VerifiedGraph :=
  reject ((MAX_BLOCKS <? len (blocks package)) || (MAX_GRAPH_NODES <? len (nodes package)))
    ResourceBudgetExceeded;;
  verify_known_types package;;
  verify_known_opcodes package;;
  st ← verify_block_ranges package (replicate (Z.to_nat MAX_BLOCKS) 0)
         (replicate (Z.to_nat MAX_BLOCKS) 0)
         (replicate (Z.to_nat MAX_GRAPH_NODES) usize_max);
  let '(block_starts, block_ends, node_blocks) := (st : list Z * list Z * list Z) in
  verify_control_flow package block_starts block_ends;;
  verify_reachable_blocks package;;
  verify_value_availability package node_blocks;;
  verify_semantics package;;
  verify_referenced_ranges package;;
  verify_canonical_encoding package;;
  Ok {| graph_package := package |}.

Definition verify_bytes (bytes : list byte) : V VerifiedGraph :=
  package ← map_err Decode (decode bytes);
  verify_package package.
