(* ===== verification/TigEncode.v ===== *)
(** * The compiler back end: graph encoding

    Models [tools/pythc/src/graph.rs] (the records) and
    [tools/pythc/src/encode.rs]: a zeroed buffer of the final size is filled by
    offset-addressed little-endian writes, the checksum is patched in, and the
    result is decoded and verified again before it is returned. *)

From stdpp Require Import base numbers list sets.
From Stdlib Require Import Strings.Byte.
From S2P Require Import Prelude TigTypes TigFormat TigVerify.

Record GraphImport : Type := {
  gi_name_offset : Z;
  gi_name_len : Z;
  gi_resource_kind : Z;
  gi_rights : Z;
  gi_expected_type : PythType;
  gi_import_slot : Z }.

Record GraphBlock : Type := {
  gb_block_id : Z;
  gb_first_node : Z;
  gb_node_count : Z;
  gb_parameter_count : Z;
  gb_terminator_node : Z }.

(** [inputs: [u32; 4]] is the four fields [gn_input0] to [gn_input3]. *)
Record GraphNode : Type := {
  gn_opcode : Opcode;
  gn_result_type : PythType;
  gn_block_index : Z;
  gn_input0 : Z;
  gn_input1 : Z;
  gn_input2 : Z;
  gn_input3 : Z;
  gn_auxiliary0 : Z;
  gn_auxiliary1 : Z;
  gn_immediate : Z }.

Record OwnedGraph : Type := {
  g_principal_id : Z;
  g_imports : list GraphImport;
  g_blocks : list GraphBlock;
  g_nodes : list GraphNode;
  g_constant_pool : list byte;
  g_string_table : list byte;
  g_loop_budgets : list Z }.

(** The one diagnostic of this module: [G0001], the shared verifier rejected
    the compiler output. *)
Inductive EncodeError : Type := verifier_rejected.

Abbreviation W := (outcome EncodeError).

Definition PACKAGE_ID : Z := 0x5059544854494706.

(** [bytes[offset..offset + n].copy_from_slice(data)] *)
Definition copy_at (bytes : list byte) (offset : Z) (data : list byte) : W (list byte) :=
  if (0 <=? offset) && (offset + len data <=? len bytes)
  then Ok (take (Z.to_nat offset) bytes ++ data ++ drop (Z.to_nat offset + length data) bytes)
  else Panic.

Definition write_u16 (bytes : list byte) (offset value : Z) : W (list byte) :=
  copy_at bytes offset (le_bytes 2 value).
Definition write_u32 (bytes : list byte) (offset value : Z) : W (list byte) :=
  copy_at bytes offset (le_bytes 4 value).
Definition write_u64 (bytes : list byte) (offset value : Z) : W (list byte) :=
  copy_at bytes offset (le_bytes 8 value).

Definition checked_u32 (value : Z) : W Z := ok_or (checked 32 value) verifier_rejected.

Definition write_header (bytes : list byte) (graph : OwnedGraph)
    (block_count node_count import_count constant_pool_len string_table_len types_offset
     blocks_offset nodes_offset imports_offset constant_pool_offset string_table_offset : Z)
  : W (list byte) :=
  bytes ← copy_at bytes 0 PYTH_TIG_MAGIC;
  bytes ← write_u16 bytes 8 PYTH_TIG_MAJOR;
  bytes ← write_u16 bytes 10 PYTH_TIG_MINOR;
  bytes ← write_u64 bytes 16 PACKAGE_ID;
  bytes ← write_u64 bytes 24 (g_principal_id graph);
  bytes ← write_u32 bytes 32 0;
  bytes ← write_u32 bytes 36 0;
  v ← checked_u32 block_count; bytes ← write_u32 bytes 40 v;
  v ← checked_u32 node_count; bytes ← write_u32 bytes 44 v;
  v ← checked_u32 import_count; bytes ← write_u32 bytes 48 v;
  v ← checked_u32 constant_pool_len; bytes ← write_u32 bytes 52 v;
  v ← checked_u32 string_table_len; bytes ← write_u32 bytes 56 v;
  v ← checked_u32 types_offset; bytes ← write_u32 bytes 60 v;
  v ← checked_u32 blocks_offset; bytes ← write_u32 bytes 64 v;
  v ← checked_u32 nodes_offset; bytes ← write_u32 bytes 68 v;
  v ← checked_u32 imports_offset; bytes ← write_u32 bytes 72 v;
  v ← checked_u32 constant_pool_offset; bytes ← write_u32 bytes 76 v;
  v ← checked_u32 string_table_offset; write_u32 bytes 80 v.

Definition write_block (bytes : list byte) (offset : Z) (block : GraphBlock) : W (list byte) :=
  bytes ← write_u32 bytes offset (gb_block_id block);
  bytes ← write_u32 bytes (offset + 4) (gb_first_node block);
  bytes ← write_u32 bytes (offset + 8) (gb_node_count block);
  bytes ← write_u16 bytes (offset + 12) (gb_parameter_count block);
  bytes ← write_u16 bytes (offset + 14) 0;
  bytes ← write_u32 bytes (offset + 16) (gb_terminator_node block);
  write_u32 bytes (offset + 20) 0.

Definition write_node (bytes : list byte) (offset : Z) (node : GraphNode) : W (list byte) :=
  bytes ← write_u16 bytes offset (opcode_code (gn_opcode node));
  bytes ← write_u16 bytes (offset + 2) (type_code (gn_result_type node));
  bytes ← write_u16 bytes (offset + 4) 0;
  bytes ← write_u16 bytes (offset + 6) (gn_block_index node);
  bytes ← write_u32 bytes (offset + 8) (gn_input0 node);
  bytes ← write_u32 bytes (offset + 12) (gn_input1 node);
  bytes ← write_u32 bytes (offset + 16) (gn_input2 node);
  bytes ← write_u32 bytes (offset + 20) (gn_input3 node);
  bytes ← write_u32 bytes (offset + 24) (gn_auxiliary0 node);
  bytes ← write_u32 bytes (offset + 28) (gn_auxiliary1 node);
  write_u64 bytes (offset + 32) (gn_immediate node).

Definition write_import (bytes : list byte) (offset : Z) (import : GraphImport) : W (list byte) :=
  bytes ← write_u32 bytes offset (gi_name_offset import);
  bytes ← write_u16 bytes (offset + 4) (gi_name_len import);
  bytes ← write_u16 bytes (offset + 6) (gi_resource_kind import);
  bytes ← write_u64 bytes (offset + 8) (gi_rights import);
  bytes ← write_u16 bytes (offset + 16) (type_code (gi_expected_type import));
  bytes ← write_u16 bytes (offset + 18) (gi_import_slot import);
  write_u32 bytes (offset + 20) 0.

(** The same digest as the decoder's [package_checksum]; the checksum field is
    read as zero. *)
Definition digest64 (bytes : list byte) : Z :=
  foldl (fun hash '(index, byte) =>
      fnv_step hash (if (CHECKSUM_OFFSET <=? index) && (index <? CHECKSUM_END)
                     then 0 else byte_val byte))
    0xcbf29ce484222325 (enumerate bytes).

Definition refresh_checksum (bytes : list byte) : W (list byte) :=
  bytes ← write_u64 bytes CHECKSUM_OFFSET 0;
  write_u64 bytes CHECKSUM_OFFSET (digest64 bytes).

Definition encode_graph (graph : OwnedGraph) : W (list byte) :=
  let type_count := 0 in
  let block_count := len (g_blocks graph) in
  let node_count := len (g_nodes graph) in
  let import_count := len (g_imports graph) in
  let constant_pool_len := len (g_constant_pool graph) in
  let string_table_len := len (g_string_table graph) in
  let types_offset := PYTH_GRAPH_HEADER_SIZE in
  let blocks_offset := types_offset + type_count * TYPE_RECORD_SIZE in
  let nodes_offset := blocks_offset + block_count * BLOCK_RECORD_SIZE in
  let imports_offset := nodes_offset + node_count * NODE_RECORD_SIZE in
  let constant_pool_offset := imports_offset + import_count * CAPABILITY_IMPORT_RECORD_SIZE in
  let string_table_offset := constant_pool_offset + constant_pool_len in
  let package_len := string_table_offset + string_table_len in
  let bytes := replicate (Z.to_nat package_len) x00 in
  bytes ← write_header bytes graph block_count node_count import_count constant_pool_len
            string_table_len types_offset blocks_offset nodes_offset imports_offset
            constant_pool_offset string_table_offset;
  bytes ← foldM (fun bytes '(index, block) =>
              write_block bytes (blocks_offset + index * BLOCK_RECORD_SIZE) block)
            bytes (enumerate (g_blocks graph));
  bytes ← foldM (fun bytes '(index, node) =>
              write_node bytes (nodes_offset + index * NODE_RECORD_SIZE) node)
            bytes (enumerate (g_nodes graph));
  bytes ← foldM (fun bytes '(index, import) =>
              write_import bytes (imports_offset + index * CAPABILITY_IMPORT_RECORD_SIZE) import)
            bytes (enumerate (g_imports graph));
  bytes ← copy_at bytes constant_pool_offset (g_constant_pool graph);
  bytes ← copy_at bytes string_table_offset (g_string_table graph);
  refresh_checksum bytes.

Definition encode_verified_graph (graph : OwnedGraph) : W (list byte) :=
  bytes ← encode_graph graph;
  package ← map_err (fun _ => verifier_rejected) (decode bytes);
  map_err (fun _ => verifier_rejected) (verify_package package);;
  Ok bytes.

(** The graph a decoded package carries, without the loop budgets, which the
    format does not store. *)
Definition block_of_graph (b : GraphBlock) : BlockRecord := {|
  b_block_id := gb_block_id b; b_first_node := gb_first_node b;
  b_node_count := gb_node_count b; b_parameter_count := gb_parameter_count b;
  b_flags := 0; b_terminator_node := gb_terminator_node b; b_reserved := 0 |}.

Definition node_of_graph (n : GraphNode) : NodeRecord := {|
  n_opcode := opcode_code (gn_opcode n); n_result_type := type_code (gn_result_type n);
  n_flags := 0; n_block_index := gn_block_index n;
  n_input0 := gn_input0 n; n_input1 := gn_input1 n; n_input2 := gn_input2 n;
  n_input3 := gn_input3 n; n_auxiliary0 := gn_auxiliary0 n; n_auxiliary1 := gn_auxiliary1 n;
  n_immediate := gn_immediate n |}.

Definition import_of_graph (i : GraphImport) : CapabilityImportRecord := {|
  i_name_offset := gi_name_offset i; i_name_len := gi_name_len i;
  i_resource_kind := gi_resource_kind i; i_rights := gi_rights i;
  i_expected_type := type_code (gi_expected_type i); i_import_slot := gi_import_slot i;
  i_reserved := 0 |}.
