(* ===== verification/TigRuntime.v ===== *)
(** * The PythTIG graph interpreter

    Models [user/pyth-runtime/src/interpreter.rs] and [value.rs], with the
    runtime ABI records of [shared/src/pyth_runtime_abi.rs] and
    [shared/src/capability_abi.rs]. The [Host] trait is a typeclass over a host
    state; the interpreter is a state and error monad over its own fields and
    the host. An error leaves the state as it was at that point, because the
    exit record is built from it. *)

From stdpp Require Import base numbers list vector.
From Stdlib Require Import Strings.Byte.
From S2P Require Import Prelude TigTypes TigFormat Utf8 TigVerify.

(** ** ABI records *)

Record PackedCapability : Type := { raw : Z }.

#[export] Instance PackedCapability_eq_dec : EqDecision PackedCapability.
Proof. solve_decision. Defined.

(** [PackedCapability::from_parts], [slot] and [generation]. *)
Definition from_parts (slot generation : Z) : PackedCapability :=
  {| raw := Z.lor slot (wrap 64 (Z.shiftl generation 32)) |}.
Definition cap_slot (c : PackedCapability) : Z := wrap 32 (raw c).
Definition cap_generation (c : PackedCapability) : Z := wrap 32 (Z.shiftr (raw c) 32).

Record HostCallResult : Type := {
  hr_status : Z;
  hr_bytes_len : Z;
  hr_reserved0 : Z;
  hr_object_id : Z;
  hr_revision : Z;
  hr_capability : PackedCapability;
  hr_bytes : vec byte 64;
  hr_reserved1 : vec byte 16 }.

Definition empty_host_call_result (status : Z) : HostCallResult := {|
  hr_status := status; hr_bytes_len := 0; hr_reserved0 := 0; hr_object_id := 0;
  hr_revision := 0; hr_capability := {| raw := 0 |};
  hr_bytes := vreplicate 64 x00; hr_reserved1 := vreplicate 16 x00 |}.

Record GraphExitRecord : Type := {
  ex_status : Z;
  ex_error_code : Z;
  ex_last_node : Z;
  ex_executed_nodes : Z;
  ex_result_type : Z;
  ex_reserved0 : Z;
  ex_reserved1 : Z;
  ex_result_raw : Z }.

Definition GRAPH_EXIT_OK : Z := 0.
Definition GRAPH_EXIT_RUNTIME_ERROR : Z := 1.
Definition GRAPH_EXIT_BUDGET_EXHAUSTED : Z := 2.
Definition GRAPH_RESULT_UNIT : Z := 0.

(** ** Values, errors and the host *)

Module Val.
Inductive Value : Type :=
| Unit
| Bool (b : bool)
| U64 (x : Z)
| I64 (x : Z)
| Slice (offset slice_len : Z) (utf8 : bool)
| ObjectId (x : Z)
| RevisionId (x : Z)
| TaskId (x : Z)
| ProposalId (x : Z)
| Capability (c : PackedCapability)
| Effect (x : Z)
| ErrorCode (x : Z)
| HostUtf8 (producer_node host_len : Z).
End Val.
Abbreviation Value := Val.Value.

Inductive HostError : Type := Denied | Failed.

(** [trait Host]: each method may change the host. *)
Class Host (H : Type) : Type := {
  system_log : PackedCapability -> list byte -> H -> (HostError + unit) * H;
  object_create : PackedCapability -> list byte -> H -> (HostError + HostCallResult) * H;
  object_query : PackedCapability -> list byte -> H -> (HostError + HostCallResult) * H;
  object_inspect : PackedCapability -> Z -> H -> (HostError + HostCallResult) * H;
  object_revise : PackedCapability -> Z -> list byte -> H -> (HostError + HostCallResult) * H;
  object_history : PackedCapability -> Z -> H -> (HostError + HostCallResult) * H;
  task_context : PackedCapability -> H -> (HostError + HostCallResult) * H;
  task_propose : PackedCapability -> Z -> Z -> H -> (HostError + unit) * H;
  command_read : PackedCapability -> H -> (HostError + HostCallResult) * H;
  command_result_emit : PackedCapability -> Z -> list byte -> H -> (HostError + unit) * H }.

Inductive RuntimeError : Type :=
| BudgetExhausted
| InvalidBlock
| InvalidNode
| InvalidInput
| InvalidValue
| InvalidString
| MissingImport
| UnsupportedOpcode
| HostFailed (e : HostError).

Definition runtime_error_code (e : RuntimeError) : Z :=
  match e with
  | BudgetExhausted => 1
  | InvalidBlock => 2
  | InvalidNode => 3
  | InvalidInput => 4
  | InvalidValue => 5
  | InvalidString => 6
  | MissingImport => 7
  | UnsupportedOpcode => 8
  | HostFailed Denied => 9
  | HostFailed Failed => 10
  end.

(** ** Interpreter state and monad *)

(** The mutable fields of [Interpreter], and the host it is run against. *)
Record Interp (H : Type) : Type := {
  values : list (option Value);
  host_results : list (option HostCallResult);
  budget : Z;
  executed_nodes : Z;
  last_node : Z;
  host : H }.
Arguments values {H} _.
Arguments host_results {H} _.
Arguments budget {H} _.
Arguments executed_nodes {H} _.
Arguments last_node {H} _.
Arguments host {H} _.

Definition M (H A : Type) : Type := Interp H -> outcome RuntimeError A * Interp H.

#[export] Instance M_ret H : MRet (M H) := fun A a s => (Ok a, s).
#[export] Instance M_bind H : MBind (M H) := fun A B k m s =>
  match m s with
  | (Ok a, s') => k a s'
  | (Err e, s') => (Err e, s')
  | (Panic, s') => (Panic, s')
  | (Diverge, s') => (Diverge, s')
  end.

(** A computation that leaves the state alone. *)
Definition lift {H A} (m : outcome RuntimeError A) : M H A := fun s => (m, s).
Definition throw {H A} (e : RuntimeError) : M H A := lift (Err e).
Definition gets {H A} (f : Interp H -> A) : M H A := fun s => (Ok (f s), s).
Definition modify {H} (f : Interp H -> Interp H) : M H unit := fun s => (Ok tt, f s).

(** [host.method(..).map_err(RuntimeError::Host)?] *)
Definition call {H A} (f : H -> (HostError + A) * H) : M H A := fun s =>
  let '(r, h) := f (host s) in
  let s' := {| values := values s; host_results := host_results s; budget := budget s;
               executed_nodes := executed_nodes s; last_node := last_node s; host := h |} in
  match r with inl e => (Err (HostFailed e), s') | inr a => (Ok a, s') end.

(** [Interpreter::new] *)
Definition new_interpreter {H} (bud : Z) (h : H) : Interp H := {|
  values := replicate (Z.to_nat MAX_RUNTIME_VALUES) None;
  host_results := replicate (Z.to_nat MAX_RUNTIME_VALUES) None;
  budget := bud; executed_nodes := 0; last_node := NO_VALUE; host := h |}.

Definition set_value {H} (i : Z) (v : Value) (s : Interp H) : Interp H := {|
  values := <[Z.to_nat i := Some v]> (values s); host_results := host_results s;
  budget := budget s; executed_nodes := executed_nodes s; last_node := last_node s;
  host := host s |}.

Definition set_host_result {H} (i : Z) (r : HostCallResult) (s : Interp H) : Interp H := {|
  values := values s; host_results := <[Z.to_nat i := Some r]> (host_results s);
  budget := budget s; executed_nodes := executed_nodes s; last_node := last_node s;
  host := host s |}.

Definition set_last_node {H} (n : Z) (s : Interp H) : Interp H := {|
  values := values s; host_results := host_results s; budget := budget s;
  executed_nodes := executed_nodes s; last_node := n; host := host s |}.

Definition spend {H} (s : Interp H) : Interp H := {|
  values := values s; host_results := host_results s; budget := budget s - 1;
  executed_nodes := executed_nodes s; last_node := last_node s; host := host s |}.

Definition set_executed {H} (n : Z) (s : Interp H) : Interp H := {|
  values := values s; host_results := host_results s; budget := budget s;
  executed_nodes := n; last_node := last_node s; host := host s |}.

(** ** Host result validation *)

(** [&result.bytes[..len]] *)
Definition result_prefix (r : HostCallResult) (l : Z) : outcome RuntimeError (list byte) :=
  expect (get_range (vec_to_list (hr_bytes r)) 0 l).

Definition validate_host_call_result (r : HostCallResult) : outcome RuntimeError unit :=
  reject (negb (hr_reserved0 r =? 0)
          || negb (bool_decide (vec_to_list (hr_reserved1 r) = replicate 16 x00))
          || (MAX_HOST_RESULT_BYTES <? hr_bytes_len r)) InvalidValue.

Definition validate_task_context_result (r : HostCallResult) : outcome RuntimeError unit :=
  reject (negb (bool_decide (vec_to_list (hr_reserved1 r) = replicate 16 x00))
          || (MAX_HOST_RESULT_BYTES <? hr_bytes_len r)) InvalidValue;;
  text ← result_prefix r (hr_bytes_len r);
  reject (negb (from_utf8 text)) InvalidString.

Definition validate_command_read_result (r : HostCallResult) : outcome RuntimeError unit :=
  command_kind ← ok_or (checked 16 (hr_reserved0 r)) InvalidValue;
  reject (negb (bool_decide (vec_to_list (hr_reserved1 r) = replicate 16 x00))
          || (MAX_HOST_RESULT_BYTES <? hr_bytes_len r)
          || negb (command_kind_is_known command_kind)) InvalidValue;;
  text ← result_prefix r (hr_bytes_len r);
  reject (negb (from_utf8 text)) InvalidString.

Definition host_utf8_value (producer_node : Z) (r : HostCallResult) : outcome RuntimeError Value :=
  reject (MAX_HOST_RESULT_BYTES <? hr_bytes_len r) InvalidString;;
  text ← result_prefix r (hr_bytes_len r);
  reject (negb (from_utf8 text)) InvalidString;;
  Ok (Val.HostUtf8 producer_node (hr_bytes_len r)).

Definition task_context_host_result_value (producer_node field : Z) (r : HostCallResult)
  : outcome RuntimeError Value :=
  if field =? TASK_CONTEXT_RESULT_ACTIVE_TASK_ID then Ok (Val.TaskId (hr_object_id r))
  else if field =? TASK_CONTEXT_RESULT_CANDIDATE_TASK_ID then Ok (Val.TaskId (hr_revision r))
  else if field =? TASK_CONTEXT_RESULT_CONFIDENCE_SCORE then Ok (Val.U64 (raw (hr_capability r)))
  else if field =? TASK_CONTEXT_RESULT_PROPOSAL_KIND then Ok (Val.U64 (hr_reserved0 r))
  else if field =? TASK_CONTEXT_RESULT_REASON_UTF8 then host_utf8_value producer_node r
  else Err InvalidValue.

Definition command_host_result_value (producer_node field : Z) (r : HostCallResult)
  : outcome RuntimeError Value :=
  if field =? COMMAND_FIELD_KIND then Ok (Val.U64 (hr_reserved0 r))
  else if field =? COMMAND_FIELD_OBJECT_ID then Ok (Val.ObjectId (hr_object_id r))
  else if field =? COMMAND_FIELD_TASK_ID then Ok (Val.TaskId (hr_revision r))
  else if field =? COMMAND_FIELD_PROPOSAL_ID then Ok (Val.ProposalId (raw (hr_capability r)))
  else if field =? COMMAND_FIELD_TEXT_UTF8 then host_utf8_value producer_node r
  else Err InvalidValue.

Definition object_host_result_value (producer_node field : Z) (r : HostCallResult)
  : outcome RuntimeError Value :=
  if field =? HOST_RESULT_STATUS then Ok (Val.ErrorCode (hr_status r))
  else if field =? HOST_RESULT_OBJECT_ID then Ok (Val.ObjectId (hr_object_id r))
  else if field =? HOST_RESULT_REVISION then Ok (Val.RevisionId (hr_revision r))
  else if field =? HOST_RESULT_CAPABILITY then
    reject (raw (hr_capability r) =? 0) InvalidValue;; Ok (Val.Capability (hr_capability r))
  else if field =? HOST_RESULT_UTF8 then host_utf8_value producer_node r
  else Err InvalidValue.

(** ** Node execution *)

Section interpreter.
Context {H : Type} `{Host H}.
(** [self.graph] and [self.imports] never change during a run. *)
Context (package : PythGraphPackage) (import_caps : list PackedCapability).

Definition store_value (node_index : Z) (v : Value) : M H unit :=
  vs ← gets values;
  match get vs node_index with
  | Some _ => modify (set_value node_index v)
  | None => throw InvalidValue
  end.

Definition load_value (node_index : Z) : M H Value :=
  vs ← gets values;
  lift (ok_or (mjoin (get vs node_index)) InvalidInput).

Definition expect_effect (node_index : Z) : M H Z :=
  v ← load_value node_index;
  match v with Val.Effect effect => mret effect | _ => throw InvalidValue end.

Definition expect_capability (node_index : Z) : M H PackedCapability :=
  v ← load_value node_index;
  match v with Val.Capability capability => mret capability | _ => throw InvalidValue end.

Definition expect_object_id (node_index : Z) : M H Z :=
  v ← load_value node_index;
  match v with Val.ObjectId object_id => mret object_id | _ => throw InvalidValue end.

Definition expect_task_id (node_index : Z) : M H Z :=
  v ← load_value node_index;
  match v with Val.TaskId task_id => mret task_id | _ => throw InvalidValue end.

Definition expect_u64 (node_index : Z) : M H Z :=
  v ← load_value node_index;
  match v with Val.U64 value => mret value | _ => throw InvalidValue end.

Definition expect_error_code (node_index : Z) : M H Z :=
  v ← load_value node_index;
  match v with Val.ErrorCode value => mret value | _ => throw InvalidValue end.

Definition expect_bool (node_index : Z) : M H bool :=
  v ← load_value node_index;
  match v with Val.Bool value => mret value | _ => throw InvalidValue end.

Definition expect_utf8_bytes (node_index : Z) : M H (list byte) :=
  v ← load_value node_index;
  match v with
  | Val.Slice offset l true =>
      l ← lift (ok_or (checked 16 l) InvalidString);
      lift (map_err (fun _ => InvalidString) (string_at package offset l))
  | Val.HostUtf8 producer_node l =>
      results ← gets host_results;
      r ← lift (ok_or (mjoin (get results producer_node)) InvalidValue);
      lift (reject (MAX_HOST_RESULT_BYTES <? l) InvalidString);;
      bytes ← lift (result_prefix r l);
      lift (reject (negb (from_utf8 bytes)) InvalidString);;
      mret bytes
  | _ => throw InvalidValue
  end.

Definition expect_bytes (node_index : Z) : M H (list byte) :=
  v ← load_value node_index;
  match v with
  | Val.Slice offset l false =>
      end_ ← lift (ok_or (checked_add 64 offset l) InvalidString);
      lift (ok_or (get_range (constant_pool package) offset end_) InvalidString)
  | _ => throw InvalidValue
  end.

(** The tail of the host calls that keep their result. *)
Definition keep_host_result (node_index : Z) (r : HostCallResult) : M H unit :=
  results ← gets host_results;
  (match get results node_index with
   | Some _ => modify (set_host_result node_index r)
   | None => throw InvalidValue
   end);;
  store_value node_index (Val.Effect node_index).

Definition store_host_result (node_index : Z) (r : HostCallResult) : M H unit :=
  lift (validate_host_call_result r);;
  keep_host_result node_index r.

Definition result_type_of (node : NodeRecord) : M H PythType :=
  lift (ok_or (type_try_from (n_result_type node)) InvalidValue).

Definition execute_block_param (node_index : Z) (node : NodeRecord) : M H unit :=
  result_type ← result_type_of node;
  if negb (bool_decide (result_type = Ty.Capability)) then throw UnsupportedOpcode else
  capability ← lift (ok_or (get import_caps (n_auxiliary0 node)) MissingImport);
  if raw capability =? 0 then throw MissingImport else
  store_value node_index (Val.Capability capability).

Definition execute_const_bool (node_index : Z) (node : NodeRecord) : M H unit :=
  result_type ← result_type_of node;
  if negb (bool_decide (result_type = Ty.Bool)) then throw UnsupportedOpcode else
  if n_immediate node =? 0 then store_value node_index (Val.Bool false)
  else if n_immediate node =? 1 then store_value node_index (Val.Bool true)
  else throw InvalidValue.

Definition execute_const_u64 (node_index : Z) (node : NodeRecord) : M H unit :=
  result_type ← result_type_of node;
  match result_type with
  | Ty.U64 => store_value node_index (Val.U64 (n_immediate node))
  | Ty.ObjectId => store_value node_index (Val.ObjectId (n_immediate node))
  | Ty.RevisionId => store_value node_index (Val.RevisionId (n_immediate node))
  | Ty.TaskId => store_value node_index (Val.TaskId (n_immediate node))
  | Ty.ProposalId => store_value node_index (Val.ProposalId (n_immediate node))
  | Ty.ErrorCode =>
      code ← lift (ok_or (checked 16 (n_immediate node)) InvalidValue);
      store_value node_index (Val.ErrorCode code)
  | _ => throw UnsupportedOpcode
  end.

Definition execute_less_than_u64 (node_index : Z) (node : NodeRecord) : M H unit :=
  result_type ← result_type_of node;
  if negb (bool_decide (result_type = Ty.Bool)) then throw UnsupportedOpcode else
  lhs ← expect_u64 (n_input0 node);
  rhs ← expect_u64 (n_input1 node);
  store_value node_index (Val.Bool (lhs <? rhs)).

Definition execute_eq (node_index : Z) (node : NodeRecord) : M H unit :=
  result_type ← result_type_of node;
  if negb (bool_decide (result_type = Ty.Bool)) then throw UnsupportedOpcode else
  lhs ← expect_u64 (n_input0 node);
  rhs ← expect_u64 (n_input1 node);
  store_value node_index (Val.Bool (lhs =? rhs)).

Definition execute_const_utf8 (node_index : Z) (node : NodeRecord) : M H unit :=
  l ← lift (ok_or (checked 16 (n_auxiliary1 node)) InvalidString);
  lift (map_err (fun _ => InvalidString) (string_at package (n_auxiliary0 node) l));;
  store_value node_index (Val.Slice (n_auxiliary0 node) (n_auxiliary1 node) true).

Definition execute_const_bytes (node_index : Z) (node : NodeRecord) : M H unit :=
  end_ ← lift (ok_or (checked_add 64 (n_auxiliary0 node) (n_auxiliary1 node)) InvalidString);
  lift (ok_or (get_range (constant_pool package) (n_auxiliary0 node) end_) InvalidString);;
  store_value node_index (Val.Slice (n_auxiliary0 node) (n_auxiliary1 node) false).

Definition execute_host_result (node_index : Z) (node : NodeRecord) : M H unit :=
  producer ← lift (ok_or (get (nodes package) (n_input0 node)) InvalidInput);
  producer_opcode ← lift (ok_or (opcode_try_from (n_opcode producer)) UnsupportedOpcode);
  results ← gets host_results;
  r ← lift (ok_or (mjoin (get results (n_input0 node))) InvalidValue);
  value ← lift (match producer_opcode with
                | Op.TaskContextRead =>
                    task_context_host_result_value (n_input0 node) (n_auxiliary0 node) r
                | Op.CommandRead =>
                    command_host_result_value (n_input0 node) (n_auxiliary0 node) r
                | _ => object_host_result_value (n_input0 node) (n_auxiliary0 node) r
                end);
  store_value node_index value.

Definition execute_system_log (node_index : Z) (node : NodeRecord) : M H unit :=
  expect_effect (n_input0 node);;
  capability ← expect_capability (n_input1 node);
  text ← expect_utf8_bytes (n_input2 node);
  call (system_log capability text);;
  store_value node_index (Val.Effect node_index).

Definition execute_object_create (node_index : Z) (node : NodeRecord) : M H unit :=
  expect_effect (n_input0 node);;
  capability ← expect_capability (n_input1 node);
  kind ← expect_utf8_bytes (n_input2 node);
  r ← call (object_create capability kind);
  store_host_result node_index r.

Definition execute_object_query (node_index : Z) (node : NodeRecord) : M H unit :=
  expect_effect (n_input0 node);;
  capability ← expect_capability (n_input1 node);
  kind ← expect_utf8_bytes (n_input2 node);
  r ← call (object_query capability kind);
  store_host_result node_index r.

Definition execute_object_inspect (node_index : Z) (node : NodeRecord) : M H unit :=
  expect_effect (n_input0 node);;
  capability ← expect_capability (n_input1 node);
  object_id ← expect_object_id (n_input2 node);
  r ← call (object_inspect capability object_id);
  store_host_result node_index r.

Definition execute_object_revise (node_index : Z) (node : NodeRecord) : M H unit :=
  expect_effect (n_input0 node);;
  capability ← expect_capability (n_input1 node);
  object_id ← expect_object_id (n_input2 node);
  text ← expect_bytes (n_input3 node);
  r ← call (object_revise capability object_id text);
  store_host_result node_index r.

Definition execute_object_history (node_index : Z) (node : NodeRecord) : M H unit :=
  expect_effect (n_input0 node);;
  capability ← expect_capability (n_input1 node);
  object_id ← expect_object_id (n_input2 node);
  r ← call (object_history capability object_id);
  store_host_result node_index r.

Definition execute_task_context (node_index : Z) (node : NodeRecord) : M H unit :=
  expect_effect (n_input0 node);;
  capability ← expect_capability (n_input1 node);
  r ← call (task_context capability);
  lift (validate_task_context_result r);;
  keep_host_result node_index r.

Definition execute_task_proposal_emit (node_index : Z) (node : NodeRecord) : M H unit :=
  expect_effect (n_input0 node);;
  capability ← expect_capability (n_input1 node);
  candidate_task_id ← expect_task_id (n_input2 node);
  score ← expect_u64 (n_input3 node);
  call (task_propose capability candidate_task_id score);;
  store_value node_index (Val.Effect node_index).

Definition execute_command_read (node_index : Z) (node : NodeRecord) : M H unit :=
  expect_effect (n_input0 node);;
  capability ← expect_capability (n_input1 node);
  r ← call (command_read capability);
  lift (validate_command_read_result r);;
  keep_host_result node_index r.

Definition execute_command_result_emit (node_index : Z) (node : NodeRecord) : M H unit :=
  expect_effect (n_input0 node);;
  capability ← expect_capability (n_input1 node);
  status ← expect_error_code (n_input2 node);
  text ← expect_utf8_bytes (n_input3 node);
  call (command_result_emit capability status text);;
  store_value node_index (Val.Effect node_index).

(** The opcode dispatch of [dispatch_node]. *)
Definition execute_node (node_index : Z) (node : NodeRecord) (opcode : Opcode) : M H unit :=
  match opcode with
  | Op.BlockParam => execute_block_param node_index node
  | Op.EffectStart => store_value node_index (Val.Effect node_index)
  | Op.ConstBool => execute_const_bool node_index node
  | Op.ConstU64 => execute_const_u64 node_index node
  | Op.Eq => execute_eq node_index node
  | Op.LessThanU64 => execute_less_than_u64 node_index node
  | Op.ConstBytes => execute_const_bytes node_index node
  | Op.ConstUtf8 => execute_const_utf8 node_index node
  | Op.HostResult => execute_host_result node_index node
  | Op.SystemLog => execute_system_log node_index node
  | Op.ObjectCreate => execute_object_create node_index node
  | Op.ObjectQuery => execute_object_query node_index node
  | Op.ObjectInspect => execute_object_inspect node_index node
  | Op.ObjectRevise => execute_object_revise node_index node
  | Op.ObjectHistory => execute_object_history node_index node
  | Op.TaskContextRead => execute_task_context node_index node
  | Op.TaskProposalEmit => execute_task_proposal_emit node_index node
  | Op.CommandRead => execute_command_read node_index node
  | Op.CommandResultEmit => execute_command_result_emit node_index node
  | Op.Jump | Op.Branch | Op.Return => mret tt
  | _ => throw UnsupportedOpcode
  end.

Definition dispatch_node (node_index : Z) : M H unit :=
  bud ← gets budget;
  if bud =? 0 then
    modify (set_last_node (default NO_VALUE (checked 32 node_index)));;
    throw BudgetExhausted
  else
  modify spend;;
  executed ← gets executed_nodes;
  executed ← lift (ok_or (checked_add 64 executed 1) InvalidValue);
  modify (set_executed executed);;
  last ← lift (ok_or (checked 32 node_index) InvalidNode);
  modify (set_last_node last);;
  node ← lift (ok_or (get (nodes package) node_index) InvalidNode);
  opcode ← lift (ok_or (opcode_try_from (n_opcode node)) UnsupportedOpcode);
  execute_node node_index node opcode.

(** ** Blocks *)

Inductive BlockOutcome : Type := BReturn | BJump (target : Z).

Definition jump_to (target : Z) : M H BlockOutcome :=
  match get (blocks package) target with
  | None => throw InvalidBlock
  | Some _ => mret (BJump target)
  end.

(** The [for node_index in first..end] loop of [execute_block]. *)
Fixpoint run_nodes (l : list Z) : M H BlockOutcome :=
  match l with
  | [] => throw InvalidBlock
  | node_index :: l' =>
      dispatch_node node_index;;
      node ← lift (ok_or (get (nodes package) node_index) InvalidNode);
      opcode ← lift (ok_or (opcode_try_from (n_opcode node)) UnsupportedOpcode);
      match opcode with
      | Op.Return => mret BReturn
      | Op.Jump => jump_to (n_auxiliary0 node)
      | Op.Branch =>
          b ← expect_bool (n_input0 node);
          jump_to (if (b : bool) then n_auxiliary0 node else n_auxiliary1 node)
      | _ => run_nodes l'
      end
  end.

Definition execute_block (block_index : Z) : M H BlockOutcome :=
  block ← lift (ok_or (get (blocks package) block_index) InvalidBlock);
  end_ ← lift (ok_or (checked_add 64 (b_first_node block) (b_node_count block)) InvalidBlock);
  run_nodes (range (b_first_node block) end_).

(** The [loop] of [execute_inner]; a round runs one block. *)
Fixpoint run_blocks (fuel : nat) (block_index : Z) : M H unit :=
  match fuel with
  | O => lift Diverge
  | S n =>
      outcome ← execute_block block_index;
      match outcome with
      | BReturn => mret tt
      | BJump target => run_blocks n target
      end
  end.

(** A round that jumps has dispatched at least one node, so one round more
    than the budget is enough ([execute_total]). *)
Definition execute_inner : M H unit :=
  bud ← gets budget;
  run_blocks (S (Z.to_nat bud)) (h_entry_block (p_header package)).

Definition exit_record (status code : Z) (s : Interp H) : GraphExitRecord := {|
  ex_status := status; ex_error_code := code; ex_last_node := last_node s;
  ex_executed_nodes := executed_nodes s; ex_result_type := GRAPH_RESULT_UNIT;
  ex_reserved0 := 0; ex_reserved1 := 0; ex_result_raw := 0 |}.

Definition exit_ok : Interp H -> GraphExitRecord := exit_record GRAPH_EXIT_OK 0.
Definition exit_budget_exhausted : Interp H -> GraphExitRecord :=
  exit_record GRAPH_EXIT_BUDGET_EXHAUSTED (runtime_error_code BudgetExhausted).
Definition exit_runtime_error (e : RuntimeError) : Interp H -> GraphExitRecord :=
  exit_record GRAPH_EXIT_RUNTIME_ERROR (runtime_error_code e).

(** [Interpreter::execute]; an error of the run is reported in the record. *)
Definition execute (s : Interp H) : outcome RuntimeError GraphExitRecord * Interp H :=
  match execute_inner s with
  | (Ok _, s') => (Ok (exit_ok s'), s')
  | (Err BudgetExhausted, s') => (Ok (exit_budget_exhausted s'), s')
  | (Err e, s') => (Ok (exit_runtime_error e s'), s')
  | (Panic, s') => (Panic, s')
  | (Diverge, s') => (Diverge, s')
  end.
End interpreter.
