(* ===== verification/TigFormatFacts.v ===== *)
(** * Facts on the package format

    The decoder neither panics nor loops; a decoded package is a header and six
    sections that tile the file; the record tables have the declared lengths and
    every field is within its width; and the checksum rejects every
    single-byte corruption. *)

From stdpp Require Import base numbers list sets.
From Stdlib Require Import Strings.Byte.
From S2P Require Import Prelude Fnv TigTypes TigFormat.

(** ** Field reads *)

Definition slice {A} (l : list A) (off n : Z) : list A :=
  take (Z.to_nat n) (drop (Z.to_nat off) l).

Lemma len_slice {A} (l : list A) off n :
  0 <= off -> 0 <= n -> off + n <= len l -> len (slice l off n) = n.
Proof. intros. unfold len, slice in *. rewrite length_take, length_drop. lia. Qed.

Lemma get_range_slice {A} (l : list A) a b :
  0 <= a <= b -> b <= len l -> get_range l a b = Some (slice l a (b - a)).
Proof. intros. apply get_range_Some. done. Qed.

Lemma read_bytes_ok n b off :
  0 <= n -> 0 <= off -> off + n <= len b -> len b < 2 ^ 64 ->
  read_bytes n b off = Ok (slice b off n).
Proof.
  intros. unfold read_bytes, checked_add.
  rewrite (checked_id 64 (off + n)) by (unfold uint; lia). simpl.
  rewrite get_range_slice by lia. simpl. do 2 f_equal. lia.
Qed.

Lemma read_bytes_safe n b off :
  post (read_bytes n b off) (fun raw => len raw = n).
Proof.
  unfold read_bytes. wp_step. wp_step. wp_step.
  match goal with H : checked_add _ _ _ = Some _ |- _ => apply checked_Some in H as [-> _] end.
  match goal with H : get_range _ _ _ = Some _ |- _ => apply len_get_range in H end. lia.
Qed.

Lemma le_val_uint (raw : list byte) n : len raw = n -> uint (8 * n) (le_val raw).
Proof.
  intros <-. unfold uint. rewrite Z.pow_mul_r by (unfold len; lia).
  apply le_val_range.
Qed.

Lemma read_u16_safe b off : post (read_u16 b off) (uint 16).
Proof. unfold read_u16. wp_step. eapply wp_mono; [apply read_bytes_safe|intros ? ?%le_val_uint|]; done. Qed.
Lemma read_u32_safe b off : post (read_u32 b off) (uint 32).
Proof. unfold read_u32. wp_step. eapply wp_mono; [apply read_bytes_safe|intros ? ?%le_val_uint|]; done. Qed.
Lemma read_u64_safe b off : post (read_u64 b off) (uint 64).
Proof. unfold read_u64. wp_step. eapply wp_mono; [apply read_bytes_safe|intros ? ?%le_val_uint|]; done. Qed.

(** Runs a sequence of field reads, keeping the width of each field. *)
Ltac wp_reads :=
  repeat (wp_step; eapply wp_mono;
    [first [apply read_u16_safe|apply read_u32_safe|apply read_u64_safe]|intros ? ?|done]);
  try wp_step.

Definition header_wf (h : PythGraphHeader) : Prop :=
  uint 32 (h_entry_block h) /\
  uint 32 (h_type_count h) /\ uint 32 (h_block_count h) /\ uint 32 (h_node_count h) /\
  uint 32 (h_import_count h) /\ uint 32 (h_constant_pool_len h) /\
  uint 32 (h_string_table_len h) /\ uint 32 (h_types_offset h) /\
  uint 32 (h_blocks_offset h) /\ uint 32 (h_nodes_offset h) /\ uint 32 (h_imports_offset h) /\
  uint 32 (h_constant_pool_offset h) /\ uint 32 (h_string_table_offset h) /\
  uint 64 (h_checksum h).

Definition type_wf (t : TypeRecord) : Prop :=
  uint 16 (t_kind t) /\ uint 16 (t_flags t) /\ uint 32 (t_auxiliary t).

Definition block_wf (b : BlockRecord) : Prop :=
  uint 32 (b_block_id b) /\ uint 32 (b_first_node b) /\ uint 32 (b_node_count b) /\
  uint 16 (b_parameter_count b) /\ uint 16 (b_flags b) /\ uint 32 (b_terminator_node b) /\
  uint 32 (b_reserved b).

Definition node_wf (n : NodeRecord) : Prop :=
  uint 16 (n_opcode n) /\ uint 16 (n_result_type n) /\ uint 16 (n_flags n) /\
  uint 16 (n_block_index n) /\ uint 32 (n_input0 n) /\ uint 32 (n_input1 n) /\
  uint 32 (n_input2 n) /\ uint 32 (n_input3 n) /\ uint 32 (n_auxiliary0 n) /\
  uint 32 (n_auxiliary1 n) /\ uint 64 (n_immediate n).

Definition import_wf (i : CapabilityImportRecord) : Prop :=
  uint 32 (i_name_offset i) /\ uint 16 (i_name_len i) /\ uint 16 (i_resource_kind i) /\
  uint 64 (i_rights i) /\ uint 16 (i_expected_type i) /\ uint 16 (i_import_slot i) /\
  uint 32 (i_reserved i).

Lemma read_header_safe b : post (read_header b) header_wf.
Proof.
  unfold read_header. wp_step. wp_use read_bytes_safe as ? _.
  wp_reads. unfold header_wf; simpl. tauto.
Qed.

Lemma decode_type_record_safe b off : post (decode_type_record b off) type_wf.
Proof. unfold decode_type_record. wp_reads. unfold type_wf; simpl. tauto. Qed.
Lemma decode_block_record_safe b off : post (decode_block_record b off) block_wf.
Proof. unfold decode_block_record. wp_reads. unfold block_wf; simpl. tauto. Qed.
Lemma decode_node_record_safe b off : post (decode_node_record b off) node_wf.
Proof. unfold decode_node_record. wp_reads. unfold node_wf; simpl. tauto. Qed.
Lemma decode_import_record_safe b off : post (decode_capability_import_record b off) import_wf.
Proof. unfold decode_capability_import_record. wp_reads. unfold import_wf; simpl. tauto. Qed.

(** A full record always decodes. *)
Lemma read_u16_ok b off : 0 <= off -> off + 2 <= len b -> len b < 2 ^ 64 ->
  read_u16 b off = Ok (le_val (slice b off 2)).
Proof. intros. unfold read_u16. rewrite read_bytes_ok by lia. done. Qed.
Lemma read_u32_ok b off : 0 <= off -> off + 4 <= len b -> len b < 2 ^ 64 ->
  read_u32 b off = Ok (le_val (slice b off 4)).
Proof. intros. unfold read_u32. rewrite read_bytes_ok by lia. done. Qed.
Lemma read_u64_ok b off : 0 <= off -> off + 8 <= len b -> len b < 2 ^ 64 ->
  read_u64 b off = Ok (le_val (slice b off 8)).
Proof. intros. unfold read_u64. rewrite read_bytes_ok by lia. done. Qed.

Ltac run_reads :=
  repeat first [rewrite read_u16_ok by lia | rewrite read_u32_ok by lia
               | rewrite read_u64_ok by lia | progress simpl].

Lemma decode_type_record_ok b : len b = TYPE_RECORD_SIZE -> is_Some (ok (decode_type_record b 0)).
Proof. intros Hb. change TYPE_RECORD_SIZE with 8 in Hb. unfold decode_type_record. run_reads. eauto. Qed.
Lemma decode_block_record_ok b : len b = BLOCK_RECORD_SIZE -> is_Some (ok (decode_block_record b 0)).
Proof. intros Hb. change BLOCK_RECORD_SIZE with 24 in Hb. unfold decode_block_record. run_reads. eauto. Qed.
Lemma decode_node_record_ok b : len b = NODE_RECORD_SIZE -> is_Some (ok (decode_node_record b 0)).
Proof. intros Hb. change NODE_RECORD_SIZE with 40 in Hb. unfold decode_node_record. run_reads. eauto. Qed.
Lemma decode_import_record_ok b :
  len b = CAPABILITY_IMPORT_RECORD_SIZE -> is_Some (ok (decode_capability_import_record b 0)).
Proof.
  intros Hb. change CAPABILITY_IMPORT_RECORD_SIZE with 24 in Hb.
  unfold decode_capability_import_record. run_reads. eauto.
Qed.

(** ** The decoder *)

(** What [decode] guarantees: limits, widths, and the six sections laid out one
    after the other from the end of the header to the end of the file. *)
Record decoded (p : PythGraphPackage) : Prop := {
  dec_size : PYTH_GRAPH_HEADER_SIZE <= len (p_bytes p) <= MAX_PACKAGE_BYTES;
  dec_header : read_header (p_bytes p) = Ok (p_header p);
  dec_wf : header_wf (p_header p);
  dec_magic : h_magic (p_header p) = PYTH_TIG_MAGIC;
  dec_major : h_major (p_header p) = PYTH_TIG_MAJOR;
  dec_minor : h_minor (p_header p) <= PYTH_TIG_MINOR;
  dec_type_count : h_type_count (p_header p) <= MAX_RUNTIME_VALUES;
  dec_block_count : h_block_count (p_header p) <= MAX_BLOCKS;
  dec_node_count : h_node_count (p_header p) <= MAX_GRAPH_NODES;
  dec_import_count : h_import_count (p_header p) <= MAX_CAPABILITY_IMPORTS;
  dec_pool_len : h_constant_pool_len (p_header p) <= MAX_CONSTANT_POOL_BYTES;
  dec_strings_len : h_string_table_len (p_header p) <= MAX_STRING_TABLE_BYTES;
  dec_types_offset : h_types_offset (p_header p) = PYTH_GRAPH_HEADER_SIZE;
  dec_blocks_offset : h_blocks_offset (p_header p)
    = h_types_offset (p_header p) + h_type_count (p_header p) * TYPE_RECORD_SIZE;
  dec_nodes_offset : h_nodes_offset (p_header p)
    = h_blocks_offset (p_header p) + h_block_count (p_header p) * BLOCK_RECORD_SIZE;
  dec_imports_offset : h_imports_offset (p_header p)
    = h_nodes_offset (p_header p) + h_node_count (p_header p) * NODE_RECORD_SIZE;
  dec_pool_offset : h_constant_pool_offset (p_header p)
    = h_imports_offset (p_header p)
      + h_import_count (p_header p) * CAPABILITY_IMPORT_RECORD_SIZE;
  dec_strings_offset : h_string_table_offset (p_header p)
    = h_constant_pool_offset (p_header p) + h_constant_pool_len (p_header p);
  dec_end : len (p_bytes p)
    = h_string_table_offset (p_header p) + h_string_table_len (p_header p);
  dec_checksum : package_checksum (p_bytes p) = h_checksum (p_header p) }.

Lemma validate_header_safe h :
  post (validate_header h) (fun _ =>
    h_magic h = PYTH_TIG_MAGIC /\ h_major h = PYTH_TIG_MAJOR /\ h_minor h <= PYTH_TIG_MINOR /\
    h_type_count h <= MAX_RUNTIME_VALUES /\ h_block_count h <= MAX_BLOCKS /\
    h_node_count h <= MAX_GRAPH_NODES /\ h_import_count h <= MAX_CAPABILITY_IMPORTS /\
    h_constant_pool_len h <= MAX_CONSTANT_POOL_BYTES /\
    h_string_table_len h <= MAX_STRING_TABLE_BYTES).
Proof.
  unfold validate_header, validate_count, validate_len. repeat wp_step.
  match goal with H : negb (bool_decide (h_magic h = _)) = false |- _ =>
    apply negb_false_iff, bool_decide_eq_true in H end.
  repeat split; solve [done | lia].
Qed.

Lemma range_from_parts_safe start l :
  post (range_from_parts start l) (fun r => r = {| s_start := start; s_end := start + l |}).
Proof.
  unfold range_from_parts. repeat wp_step.
  match goal with H : checked_add _ _ _ = Some _ |- _ => apply checked_Some in H as [-> _] end. done.
Qed.

Lemma record_range_safe offset count size :
  post (record_range offset count size)
    (fun r => r = {| s_start := offset; s_end := offset + count * size |}).
Proof.
  unfold record_range. wp_step. wp_step.
  match goal with H : checked_mul _ _ _ = Some _ |- _ => apply checked_Some in H as [-> _] end.
  apply range_from_parts_safe.
Qed.

Lemma validate_record_reserved_safe bytes r count size field :
  post (validate_record_reserved bytes r count size field) (fun _ => True).
Proof.
  unfold validate_record_reserved. eapply post_mono; [apply (post_forM _ _ (fun _ => True))|done].
  intros i _. repeat wp_step. eapply post_mono; [apply read_u32_safe|intros ? _]. by wp_step.
Qed.

(** A section list is accepted exactly when it tiles [96 .. bytes_len]. *)
Lemma validate_section_layout_safe bytes_len s1 s2 s3 s4 s5 s6 :
  post (validate_section_layout bytes_len [s1; s2; s3; s4; s5; s6]) (fun _ =>
    s_start s1 = PYTH_GRAPH_HEADER_SIZE /\ s_start s2 = s_end s1 /\ s_start s3 = s_end s2 /\
    s_start s4 = s_end s3 /\ s_start s5 = s_end s4 /\ s_start s6 = s_end s5 /\
    bytes_len = s_end s6).
Proof.
  unfold validate_section_layout. wp_step.
  eapply wp_mono; [apply (wp_foldM_prefix _ (fun _ => True)
    (fun i e => match i with
     | 0 => e = PYTH_GRAPH_HEADER_SIZE
     | 1 => s_start s1 = PYTH_GRAPH_HEADER_SIZE /\ e = s_end s1
     | 2 => s_start s1 = PYTH_GRAPH_HEADER_SIZE /\ s_start s2 = s_end s1 /\ e = s_end s2
     | 3 => s_start s1 = PYTH_GRAPH_HEADER_SIZE /\ s_start s2 = s_end s1 /\ s_start s3 = s_end s2 /\
            e = s_end s3
     | 4 => s_start s1 = PYTH_GRAPH_HEADER_SIZE /\ s_start s2 = s_end s1 /\ s_start s3 = s_end s2 /\
            s_start s4 = s_end s3 /\ e = s_end s4
     | 5 => s_start s1 = PYTH_GRAPH_HEADER_SIZE /\ s_start s2 = s_end s1 /\ s_start s3 = s_end s2 /\
            s_start s4 = s_end s3 /\ s_start s5 = s_end s4 /\ e = s_end s5
     | _ => s_start s1 = PYTH_GRAPH_HEADER_SIZE /\ s_start s2 = s_end s1 /\ s_start s3 = s_end s2 /\
            s_start s4 = s_end s3 /\ s_start s5 = s_end s4 /\ s_start s6 = s_end s5 /\ e = s_end s6
     end)%nat)|..|done].
  - done.
  - intros i s e Hs HI. repeat wp_step.
    do 6 (destruct i as [|i]; [simpl in Hs; simplify_eq; simpl; destruct_and?; repeat split; lia|]).
    done.
  - simpl. intros e He. repeat wp_step. destruct_and?. repeat split; lia.
Qed.

Lemma validate_sections_safe bytes h :
  post (validate_sections bytes h) (fun _ =>
    h_types_offset h = PYTH_GRAPH_HEADER_SIZE /\
    h_blocks_offset h = h_types_offset h + h_type_count h * TYPE_RECORD_SIZE /\
    h_nodes_offset h = h_blocks_offset h + h_block_count h * BLOCK_RECORD_SIZE /\
    h_imports_offset h = h_nodes_offset h + h_node_count h * NODE_RECORD_SIZE /\
    h_constant_pool_offset h
      = h_imports_offset h + h_import_count h * CAPABILITY_IMPORT_RECORD_SIZE /\
    h_string_table_offset h = h_constant_pool_offset h + h_constant_pool_len h /\
    len bytes = h_string_table_offset h + h_string_table_len h).
Proof.
  unfold validate_sections.
  do 4 (wp_step; wp_use record_range_safe as ? ->).
  do 2 (wp_step; wp_use range_from_parts_safe as ? ->).
  unfold validate_record_section, validate_byte_section.
  do 4 (wp_step; wp_step; wp_step; wp_step).
  do 2 (wp_step; wp_use validate_record_reserved_safe as ? _).
  do 2 (wp_step; wp_step).
  eapply wp_mono; [apply validate_section_layout_safe|simpl; intros _; intuition lia|done].
Qed.

Lemma decode_safe bytes : post (decode bytes) (fun p => p_bytes p = bytes /\ decoded p).
Proof.
  unfold decode. wp_step. wp_step. wp_step. wp_step. wp_step.
  destruct (read_header bytes) as [h|e| |] eqn:Hh;
    pose proof (read_header_safe bytes) as Hwf; rewrite Hh in Hwf; simpl in Hwf |- *; try done.
  wp_step. wp_use validate_header_safe as ? Hhd.
  wp_step. wp_use validate_sections_safe as ? Hs.
  repeat wp_step. simpl. split; [done|]. destruct_and?.
  constructor; simpl; solve [done | lia].
Qed.

(** ** Record tables *)

(** A table getter that finds exactly the first [n] records. *)
Lemma lookup_collect {A} (getter : Z -> option A) (n : Z) fuel k :
  (forall i, is_Some (getter i) <-> 0 <= i < n) -> 0 <= k ->
  n - k <= Z.of_nat fuel ->
  forall i, collect getter fuel k !! i = getter (k + Z.of_nat i).
Proof.
  intros Hn. revert k. induction fuel as [|f IH]; intros k Hk Hf i; simpl.
  - rewrite lookup_nil. symmetry. apply eq_None_not_Some. rewrite Hn. lia.
  - destruct (getter k) as [x|] eqn:Hx.
    + destruct i as [|i]; simpl; [by rewrite Z.add_0_r|].
      rewrite IH by lia. f_equal. lia.
    + rewrite lookup_nil. symmetry. apply eq_None_not_Some. rewrite Hn.
      apply eq_None_not_Some in Hx. rewrite Hn in Hx. lia.
Qed.

Lemma collect_get {A} (getter : Z -> option A) (n : Z) fuel :
  (forall i, is_Some (getter i) <-> 0 <= i < n) -> 0 <= n <= Z.of_nat fuel ->
  len (collect getter fuel 0) = n /\ forall i, get (collect getter fuel 0) i = getter i.
Proof.
  intros Hn Hf.
  assert (forall i, collect getter fuel 0 !! i = getter (Z.of_nat i)) as Hl.
  { intros i. rewrite (lookup_collect getter n) by (done || lia). f_equal. }
  assert (len (collect getter fuel 0) = n) as Hlen.
  { unfold len. apply Z.le_antisymm.
    - destruct (decide (n < Z.of_nat (length (collect getter fuel 0)))) as [Hlt|]; [|lia].
      destruct (lookup_lt_is_Some_2 (collect getter fuel 0) (Z.to_nat n)) as [x Hx]; [lia|].
      rewrite Hl in Hx. assert (is_Some (getter (Z.of_nat (Z.to_nat n)))) as Hs by eauto.
      rewrite Hn in Hs. lia.
    - destruct (decide (Z.of_nat (length (collect getter fuel 0)) < n)) as [Hlt|]; [|lia].
      assert (is_Some (getter (Z.of_nat (length (collect getter fuel 0))))) as [x Hx]
        by (rewrite Hn; lia).
      rewrite <- Hl in Hx. apply lookup_lt_Some in Hx. lia. }
  split; [done|]. intros i. destruct (decide (0 <= i)) as [Hi|Hi].
  - replace i with (Z.of_nat (Z.to_nat i)) by lia. by rewrite get_of_nat.
  - transitivity (@None A); [apply get_None; lia|].
    symmetry. apply eq_None_not_Some. rewrite Hn. lia.
Qed.

Lemma record_bytes_is_Some bytes size n i :
  0 < size -> len bytes = n * size -> len bytes < 2 ^ 63 -> size < 2 ^ 63 ->
  is_Some (record_bytes bytes i size) <-> 0 <= i < n.
Proof.
  intros Hs Hlen Hb Hs'. unfold record_bytes, checked_mul, checked_add. split.
  - intros [r Hr]. destruct (checked 64 (i * size)) as [a|] eqn:Ha; [|done]. simpl in Hr.
    destruct (checked 64 (a + size)) as [b|] eqn:Hb'; [|done]. simpl in Hr.
    apply checked_Some in Ha as [-> Ha]. apply checked_Some in Hb' as [-> _].
    apply get_range_Some in Hr as (? & ? & _). unfold uint in Ha. nia.
  - intros Hi. assert (0 <= i * size /\ i * size + size <= len bytes) by nia.
    rewrite (checked_id 64 (i * size)) by (unfold uint; lia). simpl.
    rewrite (checked_id 64 (i * size + size)) by (unfold uint; lia). simpl.
    rewrite get_range_slice by lia. eauto.
Qed.

Lemma len_record_bytes bytes size i r : record_bytes bytes i size = Some r -> len r = size.
Proof.
  unfold record_bytes, checked_mul, checked_add. intros Hr.
  destruct (checked 64 (i * size)) as [a|] eqn:Ha; [|done]. simpl in Hr.
  destruct (checked 64 (a + size)) as [b|] eqn:Hb'; [|done]. simpl in Hr.
  apply checked_Some in Hb' as [-> _]. apply len_get_range in Hr. lia.
Qed.

(** A table of full records: its list has [n] entries, [get] is the source's
    [Records::get], and each entry satisfies what the record decoder ensures. *)
Lemma table_spec {A} (dec : list byte -> Z -> outcome PackageDecodeError A) (wf : A -> Prop)
    (size n : Z) (bytes : list byte) :
  let getter i := record_bytes bytes i size ≫= fun b => ok (dec b 0) in
  0 < size < 2 ^ 63 -> 0 <= n -> len bytes = n * size -> len bytes < 2 ^ 63 ->
  (forall b, len b = size -> is_Some (ok (dec b 0))) ->
  (forall b off, post (dec b off) wf) ->
  len (collect getter (length bytes) 0) = n /\
  (forall i, get (collect getter (length bytes) 0) i = getter i) /\
  (forall x, x ∈ collect getter (length bytes) 0 -> wf x).
Proof.
  intros getter Hs Hn Hlen Hb Hdec Hwf.
  assert (forall i, is_Some (getter i) <-> 0 <= i < n) as Hg.
  { intros i. rewrite <- (record_bytes_is_Some bytes size n i) by lia. unfold getter.
    destruct (record_bytes bytes i size) as [r|] eqn:Hr; simpl.
    - split; [eauto|]. intros _. by apply Hdec, (len_record_bytes bytes size i).
    - split; intros [? ?]; done. }
  destruct (collect_get getter n (length bytes) Hg) as [Hl Hget]; [unfold len in Hlen; nia|].
  split; [done|]. split; [done|]. intros x [i Hi]%elem_of_get. rewrite Hget in Hi. unfold getter in Hi.
  destruct (record_bytes bytes i size) as [r|]; [|done]. simpl in Hi.
  specialize (Hwf r 0). destruct (dec r 0); simpl in *; naive_solver.
Qed.

Section package_tables.
Context (p : PythGraphPackage) (Hd : decoded p).

Lemma decoded_bounds :
  0 <= h_type_count (p_header p) <= 1024 /\ 0 <= h_block_count (p_header p) <= 128 /\
  0 <= h_node_count (p_header p) <= 1024 /\ 0 <= h_import_count (p_header p) <= 32 /\
  0 <= h_constant_pool_len (p_header p) <= 65536 /\
  0 <= h_string_table_len (p_header p) <= 16384 /\ len (p_bytes p) <= 131072.
Proof.
  destruct Hd as [Hsz _ Hwf _ _ _ ? ? ? ? ? ? _ _ _ _ _ _ _ _].
  unfold header_wf, uint in Hwf. unfold MAX_RUNTIME_VALUES, MAX_BLOCKS, MAX_GRAPH_NODES,
    MAX_CAPABILITY_IMPORTS, MAX_CONSTANT_POOL_BYTES, MAX_STRING_TABLE_BYTES,
    MAX_PACKAGE_BYTES in *. lia.
Qed.

(** [record_section] of a table inside the file. *)
Lemma record_section_ok offset count size :
  0 <= offset -> 0 <= count -> 0 < size -> offset + count * size <= len (p_bytes p) ->
  record_section p offset count size = Ok (slice (p_bytes p) offset (count * size)).
Proof.
  intros. pose proof decoded_bounds. unfold record_section, record_range, range_from_parts,
    checked_mul, checked_add.
  rewrite (checked_id 64 (count * size)) by (unfold uint; nia). simpl.
  rewrite (checked_id 64 (offset + count * size)) by (unfold uint; nia).
  simpl. rewrite get_range_slice by nia. simpl. do 2 f_equal. lia.
Qed.

Lemma byte_section_ok offset l :
  0 <= offset -> 0 <= l -> offset + l <= len (p_bytes p) ->
  byte_section p offset l = Ok (slice (p_bytes p) offset l).
Proof.
  intros. pose proof decoded_bounds. unfold byte_section, byte_range, range_from_parts, checked_add.
  rewrite (checked_id 64 (offset + l)) by (unfold uint; nia).
  simpl. rewrite get_range_slice by nia. simpl. do 2 f_equal. lia.
Qed.

(** Offsets in one place: every section is inside the file. *)
Lemma section_offsets :
  h_types_offset (p_header p) = 96 /\
  h_blocks_offset (p_header p) = 96 + h_type_count (p_header p) * 8 /\
  h_nodes_offset (p_header p)
    = h_blocks_offset (p_header p) + h_block_count (p_header p) * 24 /\
  h_imports_offset (p_header p)
    = h_nodes_offset (p_header p) + h_node_count (p_header p) * 40 /\
  h_constant_pool_offset (p_header p)
    = h_imports_offset (p_header p) + h_import_count (p_header p) * 24 /\
  h_string_table_offset (p_header p)
    = h_constant_pool_offset (p_header p) + h_constant_pool_len (p_header p) /\
  len (p_bytes p) = h_string_table_offset (p_header p) + h_string_table_len (p_header p).
Proof.
  destruct Hd as [_ _ _ _ _ _ _ _ _ _ _ _ H1 H2 H3 H4 H5 H6 H7 _].
  unfold PYTH_GRAPH_HEADER_SIZE, TYPE_RECORD_SIZE, BLOCK_RECORD_SIZE, NODE_RECORD_SIZE,
    CAPABILITY_IMPORT_RECORD_SIZE in *. lia.
Qed.

Lemma section_slices :
  types_bytes p = slice (p_bytes p) (h_types_offset (p_header p)) (h_type_count (p_header p) * 8) /\
  blocks_bytes p
    = slice (p_bytes p) (h_blocks_offset (p_header p)) (h_block_count (p_header p) * 24) /\
  nodes_bytes p = slice (p_bytes p) (h_nodes_offset (p_header p)) (h_node_count (p_header p) * 40) /\
  imports_bytes p
    = slice (p_bytes p) (h_imports_offset (p_header p)) (h_import_count (p_header p) * 24) /\
  constant_pool p
    = slice (p_bytes p) (h_constant_pool_offset (p_header p)) (h_constant_pool_len (p_header p)) /\
  string_table p
    = slice (p_bytes p) (h_string_table_offset (p_header p)) (h_string_table_len (p_header p)).
Proof.
  pose proof decoded_bounds. pose proof section_offsets.
  unfold types_bytes, blocks_bytes, nodes_bytes, imports_bytes, constant_pool, string_table,
    TYPE_RECORD_SIZE, BLOCK_RECORD_SIZE, NODE_RECORD_SIZE, CAPABILITY_IMPORT_RECORD_SIZE.
  rewrite !record_section_ok, !byte_section_ok by lia. done.
Qed.

Lemma len_string_table : len (string_table p) = h_string_table_len (p_header p).
Proof.
  pose proof decoded_bounds. pose proof section_offsets.
  destruct section_slices as (_ & _ & _ & _ & _ & ->). apply len_slice; lia.
Qed.

Lemma types_table :
  len (types p) = h_type_count (p_header p) /\
  (forall i, get (types p) i = type_record_get (types_bytes p) i) /\
  (forall x, x ∈ types p -> type_wf x).
Proof.
  pose proof decoded_bounds. pose proof section_offsets. pose proof section_slices as (Hs & _).
  apply (table_spec decode_type_record type_wf 8);
    [lia|lia| |rewrite Hs, len_slice by lia; lia|apply decode_type_record_ok
    |apply decode_type_record_safe].
  rewrite Hs. apply len_slice; lia.
Qed.

Lemma blocks_table :
  len (blocks p) = h_block_count (p_header p) /\
  (forall i, get (blocks p) i = block_record_get (blocks_bytes p) i) /\
  (forall x, x ∈ blocks p -> block_wf x).
Proof.
  pose proof decoded_bounds. pose proof section_offsets. pose proof section_slices as (_ & Hs & _).
  apply (table_spec decode_block_record block_wf 24);
    [lia|lia| |rewrite Hs, len_slice by lia; lia|apply decode_block_record_ok
    |apply decode_block_record_safe].
  rewrite Hs. apply len_slice; lia.
Qed.

Lemma nodes_table :
  len (nodes p) = h_node_count (p_header p) /\
  (forall i, get (nodes p) i = node_record_get (nodes_bytes p) i) /\
  (forall x, x ∈ nodes p -> node_wf x).
Proof.
  pose proof decoded_bounds. pose proof section_offsets.
  pose proof section_slices as (_ & _ & Hs & _).
  apply (table_spec decode_node_record node_wf 40);
    [lia|lia| |rewrite Hs, len_slice by lia; lia|apply decode_node_record_ok
    |apply decode_node_record_safe].
  rewrite Hs. apply len_slice; lia.
Qed.

Lemma imports_table :
  len (imports p) = h_import_count (p_header p) /\
  (forall i, get (imports p) i = import_record_get (imports_bytes p) i) /\
  (forall x, x ∈ imports p -> import_wf x).
Proof.
  pose proof decoded_bounds. pose proof section_offsets.
  pose proof section_slices as (_ & _ & _ & Hs & _).
  apply (table_spec decode_capability_import_record import_wf 24);
    [lia|lia| |rewrite Hs, len_slice by lia; lia|apply decode_import_record_ok
    |apply decode_import_record_safe].
  rewrite Hs. apply len_slice; lia.
Qed.
End package_tables.

(** ** Checksum *)

(** The bytes the checksum sees: the checksum field reads as zero. *)
Definition checksum_input (bytes : list byte) : list Z :=
  (fun '(index, byte) => if (CHECKSUM_OFFSET <=? index) && (index <? CHECKSUM_END)
                         then 0 else byte_val byte) <$> enumerate bytes.

Lemma package_checksum_input bytes :
  package_checksum bytes = foldl fnv_step 0xcbf29ce484222325 (checksum_input bytes).
Proof.
  unfold package_checksum, checksum_input. generalize 0xcbf29ce484222325.
  induction (enumerate bytes) as [|[i b] l IH]; intros h; simpl; [done|]. apply IH.
Qed.

Lemma checksum_input_uint bytes : Forall (uint 64) (checksum_input bytes).
Proof.
  unfold checksum_input. apply Forall_fmap, Forall_true. intros [i b].
  unfold uint. simpl. pose proof (byte_val_range b). case_match; lia.
Qed.

Lemma checksum_input_insert bytes (i : nat) b :
  (i < length bytes)%nat ->
  checksum_input (<[i := b]> bytes)
  = <[i := if (CHECKSUM_OFFSET <=? Z.of_nat i) && (Z.of_nat i <? CHECKSUM_END)
           then 0 else byte_val b]> (checksum_input bytes).
Proof.
  intros Hi. unfold checksum_input, enumerate. rewrite len_insert.
  assert (range 0 (len bytes) !! i = Some (Z.of_nat i)) as Hr.
  { apply lookup_range. unfold len. lia. }
  rewrite <- (list_insert_id (range 0 (len bytes)) i (Z.of_nat i)) at 1 by done.
  rewrite <- insert_zip_with, list_fmap_insert. done.
Qed.

Lemma package_checksum_insert bytes (i : nat) b x :
  bytes !! i = Some x -> b <> x ->
  package_checksum (<[i := b]> bytes) = package_checksum bytes
  <-> CHECKSUM_OFFSET <= Z.of_nat i < CHECKSUM_END.
Proof.
  intros Hi Hne. apply lookup_lt_Some in Hi as Hlt.
  rewrite !package_checksum_input, checksum_input_insert by done.
  assert (checksum_input bytes !! i
    = Some (if (CHECKSUM_OFFSET <=? Z.of_nat i) && (Z.of_nat i <? CHECKSUM_END)
            then 0 else byte_val x)) as Hin.
  { unfold checksum_input. rewrite list_lookup_fmap.
    rewrite (proj2 (lookup_enumerate bytes i (Z.of_nat i) x)) by done. done. }
  destruct ((CHECKSUM_OFFSET <=? Z.of_nat i) && (Z.of_nat i <? CHECKSUM_END)) eqn:Hc.
  - rewrite list_insert_id by done. split; [lia|done].
  - split; [|lia]. intros Heq. exfalso. revert Heq. apply (fnv_insert_ne 64 0x100000001B3 ltac:(lia) eq_refl _ i (byte_val x)).
    + unfold uint. lia.
    + apply checksum_input_uint.
    + done.
    + unfold uint. pose proof (byte_val_range b). lia.
    + intros Hv%byte_val_inj. done.
Qed.

Lemma read_header_checksum b h :
  read_header b = Ok h -> read_u64 b CHECKSUM_OFFSET = Ok (h_checksum h).
Proof. intros H. unfold read_header in H. repeat inv_bind H. simplify_eq. done. Qed.

(** Overwriting one byte of a slice changes its little-endian value exactly
    when the position is inside the slice. *)
Lemma slice_insert_outside {A} (l : list A) (i : nat) x off n :
  0 <= off -> 0 <= n -> ~ (off <= Z.of_nat i < off + n) ->
  slice (<[i := x]> l) off n = slice l off n.
Proof.
  intros Hoff Hn Hi. unfold slice.
  destruct (decide (Z.of_nat i < off)) as [Hlt|].
  - rewrite drop_insert_lt by lia. done.
  - rewrite drop_insert_ge by lia. apply take_insert_ge. lia.
Qed.

Lemma slice_insert_inside {A} (l : list A) (i : nat) x y off n :
  0 <= off -> off <= Z.of_nat i < off + n -> l !! i = Some y -> x <> y ->
  slice (<[i := x]> l) off n <> slice l off n.
Proof.
  intros Hoff Hi Hl Hne Heq. apply lookup_lt_Some in Hl as Hlt.
  assert (slice (<[i := x]> l) off n !! (i - Z.to_nat off)%nat = Some x) as H1.
  { unfold slice. rewrite lookup_take_lt, lookup_drop by lia.
    replace (Z.to_nat off + (i - Z.to_nat off))%nat with i by lia.
    by apply list_lookup_insert_eq. }
  rewrite Heq in H1. unfold slice in H1.
  rewrite lookup_take_lt, lookup_drop in H1 by lia.
  replace (Z.to_nat off + (i - Z.to_nat off))%nat with i in H1 by lia. congruence.
Qed.

(** ** Theorems *)

(** on every byte string the decoder returns a package or an error (it never
    panics and its loops end), and a package it returns is the input, within all
    size limits, with the six sections tiling the file from byte 96 to its end
    and the stored checksum equal to the computed one. *)
Theorem decode_total_and_tiled (bytes : list byte) :
  wp (decode bytes) (fun p => p_bytes p = bytes /\ decoded p) (fun _ => True).
Proof. apply decode_safe. Qed.

(** for a decoded package the section accessors, whose [expect] and slice
    indexing could panic, succeed, and the record tables hold as many records as
    the header declares, each readable through [get]. *)
Theorem sections_never_panic (bytes : list byte) (p : PythGraphPackage) :
  decode bytes = Ok p ->
  (exists b, record_section p (h_types_offset (p_header p)) (h_type_count (p_header p))
               TYPE_RECORD_SIZE = Ok b) /\
  (exists b, record_section p (h_blocks_offset (p_header p)) (h_block_count (p_header p))
               BLOCK_RECORD_SIZE = Ok b) /\
  (exists b, record_section p (h_nodes_offset (p_header p)) (h_node_count (p_header p))
               NODE_RECORD_SIZE = Ok b) /\
  (exists b, record_section p (h_imports_offset (p_header p)) (h_import_count (p_header p))
               CAPABILITY_IMPORT_RECORD_SIZE = Ok b) /\
  (exists b, byte_section p (h_constant_pool_offset (p_header p))
               (h_constant_pool_len (p_header p)) = Ok b) /\
  (exists b, byte_section p (h_string_table_offset (p_header p))
               (h_string_table_len (p_header p)) = Ok b) /\
  len (types p) = h_type_count (p_header p) /\
  len (blocks p) = h_block_count (p_header p) /\
  len (nodes p) = h_node_count (p_header p) /\
  len (imports p) = h_import_count (p_header p) /\
  (forall i, get (nodes p) i = node_record_get (nodes_bytes p) i).
Proof.
  intros Hdec. destruct (wp_value _ _ _ (decode_safe bytes) p Hdec) as [_ Hd].
  pose proof (decoded_bounds p Hd). pose proof (section_offsets p Hd).
  unfold TYPE_RECORD_SIZE, BLOCK_RECORD_SIZE, NODE_RECORD_SIZE, CAPABILITY_IMPORT_RECORD_SIZE.
  rewrite !record_section_ok, !byte_section_ok by (done || lia).
  pose proof (types_table p Hd). pose proof (blocks_table p Hd).
  pose proof (nodes_table p Hd). pose proof (imports_table p Hd).
  repeat split; try eauto; tauto.
Qed.

(** Changing any single byte of an accepted package, header, checksum field
    and reserved fields included, makes the decoder reject it. *)
Theorem single_byte_corruption_rejected (bytes : list byte) (p : PythGraphPackage)
    (i : nat) (x b : byte) :
  decode bytes = Ok p -> bytes !! i = Some x -> b <> x ->
  exists e, decode (<[i := b]> bytes) = Err e.
Proof.
  intros Hdec Hi Hne. destruct (wp_value _ _ _ (decode_safe bytes) p Hdec) as [Hb Hd].
  pose proof (decode_safe (<[i := b]> bytes)) as Hs.
  destruct (decode (<[i := b]> bytes)) as [p'|e| |]; simpl in Hs; [|by exists e|done|done].
  exfalso. destruct Hs as [Hb' Hd'].
  pose proof (dec_checksum p Hd) as Hc. pose proof (dec_checksum p' Hd') as Hc'.
  pose proof (read_header_checksum _ _ (dec_header p Hd)) as Hr.
  pose proof (read_header_checksum _ _ (dec_header p' Hd')) as Hr'.
  pose proof (dec_size p Hd) as Hsz. unfold PYTH_GRAPH_HEADER_SIZE, MAX_PACKAGE_BYTES in Hsz.
  rewrite Hb in *. rewrite Hb' in *.
  change CHECKSUM_OFFSET with 84 in Hr, Hr'.
  rewrite read_u64_ok in Hr, Hr' by (rewrite ?len_insert; lia).
  injection Hr as Hr. injection Hr' as Hr'.
  pose proof (package_checksum_insert bytes i b x Hi Hne) as Hiff.
  change CHECKSUM_OFFSET with 84 in Hiff. change CHECKSUM_END with 92 in Hiff.
  destruct (decide (84 <= Z.of_nat i < 92)) as [Hin|Hout].
  - rewrite (proj2 Hiff Hin) in Hc'.
    apply (slice_insert_inside bytes i b x 84 8); [lia|lia|done|done|].
    apply le_val_inj; [|congruence].
    apply Nat2Z.inj. fold (len (slice (<[i:=b]> bytes) 84 8)). fold (len (slice bytes 84 8)).
    rewrite !len_slice; rewrite ?len_insert; lia.
  - rewrite slice_insert_outside in Hr' by lia. apply Hout, Hiff. congruence.
Qed.
