(* ===== verification/TigStructure.v ===== *)
(** * What the verifier establishes: structure

    Postconditions of the first verifier passes on a decoded package: every
    opcode and type code is known, the blocks partition the nodes, each block
    ends in its only terminator, and every control target is a block. Each lemma
    also shows that its pass does not panic. *)

From stdpp Require Import base numbers list sets.
From Stdlib Require Import Strings.Byte.
From S2P Require Import Prelude TigTypes TigFormat TigFormatFacts TigVerify.

(** ** Vocabulary *)

Definition op_at (p : PythGraphPackage) (i : Z) : option Opcode :=
  get (nodes p) i ≫= fun n => opcode_try_from (n_opcode n).

Definition ty_at (p : PythGraphPackage) (i : Z) : option PythType :=
  get (nodes p) i ≫= fun n => type_try_from (n_result_type n).

Definition term_at (p : PythGraphPackage) (i : Z) : bool :=
  match op_at p i with Some o => is_terminator o | None => false end.

Definition b_end (blk : BlockRecord) : Z := b_first_node blk + b_node_count blk.

(** Node [i] lies in the range of block [b]. *)
Definition owns (p : PythGraphPackage) (b i : Z) : Prop :=
  exists blk, get (blocks p) b = Some blk /\ b_first_node blk <= i < b_end blk.

Record known (p : PythGraphPackage) : Prop := {
  known_types : forall n, n ∈ nodes p -> is_Some (type_try_from (n_result_type n));
  known_opcodes : forall n, n ∈ nodes p -> is_Some (opcode_try_from (n_opcode n)) }.

(** The record of block [b] agrees with the nodes of its range. *)
Record block_ok (p : PythGraphPackage) (b : Z) (blk : BlockRecord) : Prop := {
  bo_id : b_block_id blk = b;
  bo_count : 0 < b_node_count blk;
  bo_end : b_end blk <= len (nodes p);
  bo_index : forall i n, b_first_node blk <= i < b_end blk ->
    get (nodes p) i = Some n -> n_block_index n = b;
  bo_body : forall i, b_first_node blk <= i < b_end blk - 1 -> term_at p i = false;
  bo_last : term_at p (b_end blk - 1) = true;
  bo_terminator : b_terminator_node blk = b_end blk - 1 }.

Record blocks_ok (p : PythGraphPackage) : Prop := {
  bs_block : forall b blk, get (blocks p) b = Some blk -> block_ok p b blk;
  bs_owner : forall i, 0 <= i < len (nodes p) -> exists b, owns p b i }.

(** The successors of a block, read off its terminator. *)
Definition succs (p : PythGraphPackage) (b : Z) : list Z :=
  match get (blocks p) b with
  | Some blk =>
      match get (nodes p) (b_terminator_node blk) with
      | Some n =>
          match opcode_try_from (n_opcode n) with
          | Some Op.Jump => [n_auxiliary0 n]
          | Some Op.Branch => [n_auxiliary0 n; n_auxiliary1 n]
          | _ => []
          end
      | None => []
      end
  | None => []
  end.

Definition edge (p : PythGraphPackage) (b c : Z) : Prop := c ∈ succs p b.

Definition targets_ok (p : PythGraphPackage) : Prop :=
  forall b c, edge p b c -> 0 <= c < len (blocks p).

(** ** Basic consequences *)

Section basics.
Context (p : PythGraphPackage) (Hd : decoded p).

Lemma nodes_bound : 0 <= len (nodes p) <= 1024.
Proof. pose proof (nodes_table p Hd) as (-> & _). pose proof (decoded_bounds p Hd). lia. Qed.

Lemma blocks_bound : 0 <= len (blocks p) <= 128.
Proof. pose proof (blocks_table p Hd) as (-> & _). pose proof (decoded_bounds p Hd). lia. Qed.

Lemma node_wf_get i n : get (nodes p) i = Some n -> node_wf n.
Proof. intros H%get_elem_of. by apply (nodes_table p Hd). Qed.

Lemma block_wf_get b blk : get (blocks p) b = Some blk -> block_wf blk.
Proof. intros H%get_elem_of. by apply (blocks_table p Hd). Qed.

Lemma entry_uint : uint 32 (h_entry_block (p_header p)).
Proof. apply (dec_wf p Hd). Qed.

Lemma known_op_at i : known p -> 0 <= i < len (nodes p) -> is_Some (op_at p i).
Proof.
  intros Hk [n Hn]%get_is_Some. unfold op_at. rewrite Hn. simpl.
  apply (known_opcodes p Hk). by eapply get_elem_of.
Qed.

Lemma known_ty_at i : known p -> 0 <= i < len (nodes p) -> is_Some (ty_at p i).
Proof.
  intros Hk [n Hn]%get_is_Some. unfold ty_at. rewrite Hn. simpl.
  apply (known_types p Hk). by eapply get_elem_of.
Qed.

Lemma wp_known_opcode i n (Q : Opcode -> Prop) :
  known p -> get (nodes p) i = Some n -> (forall o, op_at p i = Some o -> Q o) ->
  post (known_opcode n) Q.
Proof.
  intros Hk Hn HQ. unfold known_opcode. apply wp_expect.
  destruct (known_opcodes p Hk n) as [o Ho]; [by eapply get_elem_of|].
  exists o. split; [done|]. apply HQ. unfold op_at. by rewrite Hn.
Qed.

Lemma wp_known_type i n (Q : PythType -> Prop) :
  known p -> get (nodes p) i = Some n -> (forall t, ty_at p i = Some t -> Q t) ->
  post (known_type n) Q.
Proof.
  intros Hk Hn HQ. unfold known_type. apply wp_expect.
  destruct (known_types p Hk n) as [o Ho]; [by eapply get_elem_of|].
  exists o. split; [done|]. apply HQ. unfold ty_at. by rewrite Hn.
Qed.
End basics.

(** ** Known types and opcodes *)

Lemma verify_known_types_post p :
  post (verify_known_types p) (fun _ =>
    forall n, n ∈ nodes p -> is_Some (type_try_from (n_result_type n))).
Proof.
  unfold verify_known_types. wp_step.
  wp_use (post_forM _ _ (fun _ => True)) as _ _; [intros ? _; by repeat wp_step|].
  apply post_forM. intros n _. repeat wp_step. eauto.
Qed.

Lemma verify_known_opcodes_post p :
  post (verify_known_opcodes p) (fun _ =>
    forall n, n ∈ nodes p -> is_Some (opcode_try_from (n_opcode n))).
Proof.
  unfold verify_known_opcodes. apply post_forM. intros n _. repeat wp_step. eauto.
Qed.

(** ** Block ranges *)

Section block_ranges.
Context (p : PythGraphPackage) (Hd : decoded p) (Hk : known p).

(** The node-owner array after the first [k] blocks and, of block [k], the
    nodes below [i]. *)
Definition owners_upto (k : Z) (claimed : Z -> Prop) (nb : list Z) : Prop :=
  len nb = 1024 /\
  forall j v, get nb j = Some v ->
    v = usize_max \/ (0 <= v < k /\ owns p v j) \/ (v = k /\ claimed j).

Lemma claim_node_post b blk first end_ nb t i :
  0 <= b < 128 -> 0 <= first <= i -> i < end_ -> end_ <= len (nodes p) ->
  owners_upto b (fun j => first <= j < i) nb ->
  (t = 0 /\ forall j, first <= j < i -> term_at p j = false) ->
  (forall j n, first <= j < i -> get (nodes p) j = Some n -> n_block_index n = b) ->
  post (claim_node p blk b end_ (nb, t) i) (fun '(nb', t') =>
    owners_upto b (fun j => first <= j < i + 1) nb' /\
    ((t' = 0 /\ forall j, first <= j < i + 1 -> term_at p j = false) \/
     (t' = 1 /\ i + 1 = end_ /\ term_at p i = true /\
      forall j, first <= j < i -> term_at p j = false)) /\
    (forall j n, first <= j < i + 1 -> get (nodes p) j = Some n -> n_block_index n = b)).
Proof.
  intros Hb Hfi Hie Hen [Hlen Hown] [-> Hnt] Hidx. pose proof (nodes_bound p Hd) as Hnb.
  unfold claim_node. wp_step. apply wp_index; [lia|]. intros v Hv.
  wp_step. wp_step. wp_step. apply wp_ok_or; [|done]. intros n Hn.
  wp_step. wp_step. wp_step. apply wp_index_set; [lia|].
  wp_step. apply (wp_known_opcode p i); [done..|]. intros o Ho.
  assert (term_at p i = is_terminator o) as Hti by (unfold term_at; by rewrite Ho).
  assert (owners_upto b (fun j => first <= j < i + 1) (<[Z.to_nat i := b]> nb)) as Hown'.
  { split; [by rewrite len_insert|]. intros j w Hw. destruct (decide (i = j)) as [<-|Hne].
    - rewrite get_insert_eq in Hw by lia. simplify_eq. right; right. split; [done|lia].
    - rewrite get_insert_ne in Hw by lia.
      destruct (Hown j w Hw) as [?|[?|[? ?]]]; [by left|by right; left|].
      right; right. split; [done|lia]. }
  assert (forall j m, first <= j < i + 1 -> get (nodes p) j = Some m -> n_block_index m = b)
    as Hidx'.
  { intros j m Hj Hm. destruct (decide (j = i)) as [->|]; [simplify_eq; lia|].
    apply (Hidx j); [lia|done]. }
  destruct (is_terminator o) eqn:Hterm.
  - wp_step. wp_step. wp_step. split; [done|]. split; [|done].
    right. repeat split; [lia|done|done].
  - wp_step. split; [done|]. split; [|done]. left. split; [done|]. intros j Hj.
    destruct (decide (j = i)) as [->|]; [done|]. apply Hnt. lia.
Qed.

Lemma claim_nodes_post b blk first end_ nb :
  0 <= b < 128 -> 0 <= first -> first < end_ -> end_ <= len (nodes p) ->
  owners_upto b (fun _ => False) nb ->
  post (foldM (claim_node p blk b end_) (nb, 0) (range first end_)) (fun '(nb', t') =>
    owners_upto b (fun j => first <= j < end_) nb' /\
    (t' <> 0 -> t' = 1 /\ term_at p (end_ - 1) = true /\
      forall j, first <= j < end_ - 1 -> term_at p j = false) /\
    (forall j n, first <= j < end_ -> get (nodes p) j = Some n -> n_block_index n = b)).
Proof.
  intros Hb Hf Hfe Hen Hown.
  eapply post_mono.
  - apply (wp_foldM_range _ _ (fun i '(nb', t') =>
      owners_upto b (fun j => first <= j < i) nb' /\
      ((t' = 0 /\ forall j, first <= j < i -> term_at p j = false) \/
       (t' = 1 /\ i = end_ /\ term_at p (end_ - 1) = true /\
        forall j, first <= j < end_ - 1 -> term_at p j = false)) /\
      (forall j n, first <= j < i -> get (nodes p) j = Some n -> n_block_index n = b))).
    + lia.
    + split; [|split; [left; split; [done|lia]|lia]]. destruct Hown as [? Ho]. split; [done|].
      intros j v Hv. destruct (Ho j v Hv) as [?|[?|[_ []]]]; [by left|by right; left].
    + intros i [nb' t'] Hi (Ho & Ht & Hix).
      destruct Ht as [[-> Ht]|(_ & -> & _)]; [|lia].
      eapply post_mono; [apply (claim_node_post b blk first); (done || lia)|].
      intros [nb'' t''] (Ho' & Ht' & Hix'). split; [done|]. split; [|done].
      destruct Ht' as [?|(-> & He & ? & ?)]; [by left|].
      right. replace (end_ - 1) with i by lia. done.
  - intros [nb' t'] (Ho & Ht & Hix). split; [done|]. split; [|done].
    intros Hne. destruct Ht as [[-> _]|(-> & _ & ? & ?)]; [done|]. done.
Qed.

(** The arrays after [k] blocks. *)
Definition ranges_upto (k : nat) (st : list Z * list Z * list Z) : Prop :=
  let '(starts, ends, nb) := st in
  len starts = 128 /\ len ends = 128 /\
  owners_upto (Z.of_nat k) (fun _ => False) nb /\
  forall b blk, b < Z.of_nat k -> get (blocks p) b = Some blk ->
    block_ok p b blk /\ get starts b = Some (b_first_node blk) /\ get ends b = Some (b_end blk).

Lemma verify_block_range_post (k : nat) blk st :
  blocks p !! k = Some blk -> ranges_upto k st ->
  post (verify_block_range p st (Z.of_nat k, blk)) (ranges_upto (S k)).
Proof.
  destruct st as [[starts ends] nb]. intros Hblk (Hls & Hle & Hown & Hprev).
  rewrite <- get_of_nat in Hblk. assert (Hblk' := Hblk).
  apply get_Some in Hblk' as [Hkr _].
  pose proof (blocks_bound p Hd). pose proof (nodes_bound p Hd).
  destruct (block_wf_get p Hd _ _ Hblk) as (_ & Hf & Hc & _). unfold uint in Hf, Hc.
  unfold verify_block_range. wp_step. wp_step.
  match goal with H : checked_add _ _ _ = Some _ |- _ => apply checked_Some in H as [-> _] end.
  wp_step. wp_step. destruct Hown as [Hlnb Hown].
  assert (b_block_id blk = Z.of_nat k /\ 0 < b_node_count blk /\ b_end blk <= len (nodes p))
    as (Hid & Hcount & Hend).
  { unfold as_u32, b_end in *. rewrite wrap_small in * by (unfold uint; lia). lia. }
  wp_step. apply wp_index_set; [lia|]. wp_step. apply wp_index_set; [lia|].
  wp_step. rewrite Hlnb. fold (b_end blk). rewrite Z.min_l by lia.
  wp_use claim_nodes_post as [nb' t'] (Ho' & Ht' & Hix');
    [lia|lia|unfold b_end; lia|done|done|].
  repeat wp_step. destruct Ht' as (_ & Hlast & Hbody); [lia|].
  unfold as_u32 in *.
  assert (b_terminator_node blk = b_end blk - 1) as Hterm.
  { rewrite wrap_small in * by (unfold uint, b_end in *; lia). lia. }
  split_and!.
  - by rewrite len_insert.
  - by rewrite len_insert.
  - split; [apply Ho'|]. intros j v Hv. destruct (proj2 Ho' j v Hv) as [?|[[? ?]|[-> ?]]]; [by left|..].
    + right; left. split; [lia|done].
    + right; left. split; [lia|]. by exists blk.
  - intros b blk' Hb Hget. destruct (decide (b = Z.of_nat k)) as [->|Hne].
    + simplify_eq. split; [by constructor|]. split; apply get_insert_eq; lia.
    + rewrite !get_insert_ne by lia. apply Hprev; [lia|done].
Qed.

Lemma verify_block_ranges_post :
  post (verify_block_ranges p (replicate (Z.to_nat MAX_BLOCKS) 0)
          (replicate (Z.to_nat MAX_BLOCKS) 0)
          (replicate (Z.to_nat MAX_GRAPH_NODES) usize_max))
    (fun '(starts, ends, nb) =>
       blocks_ok p /\ len starts = 128 /\ len ends = 128 /\ len nb = 1024 /\
       (forall b blk, get (blocks p) b = Some blk ->
          get starts b = Some (b_first_node blk) /\ get ends b = Some (b_end blk)) /\
       (forall i, 0 <= i < len (nodes p) ->
          exists b, get nb i = Some b /\ 0 <= b < len (blocks p) /\ owns p b i)).
Proof.
  pose proof (nodes_bound p Hd) as Hnb. pose proof (blocks_bound p Hd) as Hbb.
  unfold verify_block_ranges. wp_step.
  wp_use (wp_foldM_enumerate _ _ ranges_upto) as [[starts ends] nb] (Hls & Hle & [Hlnb Hown] & Hb).
  { split; [done|]. split; [done|]. split.
    - split; [done|]. intros j v [-> _]%get_replicate. by left.
    - intros b blk Hb Hget. apply get_Some in Hget. lia. }
  { intros i blk st Hblk Hst. by apply verify_block_range_post. }
  wp_step.
  wp_use (post_forM _ _ (fun '(i, v) => v <> usize_max)) as _ Hclaimed.
  { intros [i v] _. destruct (Z.eqb_spec v usize_max) as [->|Hne]; repeat wp_step. done. }
  wp_step. change (Z.of_nat (length (blocks p))) with (len (blocks p)) in *.
  assert (forall i, 0 <= i < len (nodes p) ->
    exists b, get nb i = Some b /\ 0 <= b < len (blocks p) /\ owns p b i) as Howner.
  { intros i Hi. destruct (proj2 (get_is_Some nb i)) as [v Hv]; [lia|]. exists v. split; [done|].
    destruct (Hown i v Hv) as [->|[Ho|[_ []]]]; [|done]. exfalso.
    apply (Hclaimed (i, usize_max)); [|done]. apply list_elem_of_lookup. exists (Z.to_nat i).
    rewrite lookup_take_lt by (unfold len in *; lia). apply lookup_enumerate.
    apply get_Some in Hv as [_ Hv]. split; [lia|done]. }
  assert (forall b blk, get (blocks p) b = Some blk -> b < len (blocks p)) as Hin.
  { intros b blk Hget. apply get_Some in Hget. lia. }
  split_and!; try done.
  - constructor.
    + intros b blk Hget. apply Hb; eauto.
    + intros i Hi. destruct (Howner i Hi) as (b & _ & _ & Ho). by exists b.
  - intros b blk Hget. apply Hb; eauto.
Qed.
End block_ranges.

(** ** Control flow *)

(** The arguments of a jump agree in number and type with the parameters of its
    target; the targets of a branch take none. *)
Definition jump_args_ok (p : PythGraphPackage) (n : NodeRecord) (target : Z) : Prop :=
  exists tblk, get (blocks p) target = Some tblk /\
    count_values (node_inputs n) = b_parameter_count tblk /\
    forall k input, 0 <= k < b_parameter_count tblk -> get (node_inputs n) k = Some input ->
      op_at p (b_first_node tblk + k) = Some Op.BlockParam /\
      is_Some (ty_at p input) /\ ty_at p input = ty_at p (b_first_node tblk + k).

Definition no_params (p : PythGraphPackage) (target : Z) : Prop :=
  exists tblk, get (blocks p) target = Some tblk /\ b_parameter_count tblk = 0.

Definition arguments_ok (p : PythGraphPackage) : Prop :=
  forall b blk n, get (blocks p) b = Some blk -> get (nodes p) (b_end blk - 1) = Some n ->
    match opcode_try_from (n_opcode n) with
    | Some Op.Jump => jump_args_ok p n (n_auxiliary0 n)
    | Some Op.Branch => no_params p (n_auxiliary0 n) /\ no_params p (n_auxiliary1 n)
    | _ => True
    end.

Lemma lookup_take_enumerate {A} (l : list A) (m : nat) k x :
  (k, x) ∈ take m (enumerate l) <-> get l k = Some x /\ 0 <= k < Z.of_nat m.
Proof.
  split.
  - intros [i Hi]%list_elem_of_lookup. apply lookup_take_Some in Hi as [Hi Hlt].
    apply lookup_enumerate in Hi as [-> Hx]. rewrite get_of_nat. split; [done|lia].
  - intros [Hx Hk]. apply get_Some in Hx as [? Hx]. apply list_elem_of_lookup.
    exists (Z.to_nat k). rewrite lookup_take_lt by lia. apply lookup_enumerate. split; [lia|done].
Qed.

Lemma elem_of_enumerate {A} (l : list A) k x : (k, x) ∈ enumerate l <-> get l k = Some x.
Proof.
  split.
  - intros [i Hi]%list_elem_of_lookup. apply lookup_enumerate in Hi as [-> Hx]. by rewrite get_of_nat.
  - intros [Hk Hx]%get_Some. apply list_elem_of_lookup. exists (Z.to_nat k).
    apply lookup_enumerate. split; [lia|done].
Qed.

Lemma node_inputs_uint n k input :
  node_wf n -> get (node_inputs n) k = Some input -> uint 32 input.
Proof.
  intros Hwf Hk%get_elem_of. unfold node_inputs in Hk. destruct Hwf; destruct_and?.
  set_solver.
Qed.

Section control_flow.
Context (p : PythGraphPackage) (Hd : decoded p) (Hk : known p) (Hbs : blocks_ok p).

Lemma validate_target_post source target :
  0 <= target -> post (validate_target p source target) (fun _ => 0 <= target < len (blocks p)).
Proof. intros. unfold validate_target. wp_step. lia. Qed.

Lemma validate_branch_arity_post source target :
  0 <= target < len (blocks p) ->
  post (validate_branch_arity p source target) (fun _ => no_params p target).
Proof.
  intros [tblk Ht]%get_is_Some. unfold validate_branch_arity. rewrite Ht. repeat wp_step.
  exists tblk. split; [done|lia].
Qed.

Lemma validate_jump_argument_post t tblk k input :
  uint 32 input -> 0 <= b_first_node tblk -> 0 <= k ->
  post (validate_jump_argument p t tblk (k, input)) (fun _ =>
    op_at p (b_first_node tblk + k) = Some Op.BlockParam /\
    is_Some (ty_at p input) /\ ty_at p input = ty_at p (b_first_node tblk + k)).
Proof.
  intros Hin Hf Hk0. unfold validate_jump_argument. do 4 wp_step.
  match goal with H : checked_add _ _ _ = Some _ |- _ => apply checked_Some in H as [-> _] end.
  wp_step. apply wp_ok_or; [|done]. intros param Hparam.
  wp_step. apply (wp_known_opcode p (b_first_node tblk + k)); [done..|]. intros o Ho.
  wp_step. wp_step.
  match goal with H : negb (bool_decide _) = false |- _ =>
    apply negb_false_iff, bool_decide_eq_true in H as -> end.
  wp_step. apply wp_ok_or; [|done]. intros producer Hprod.
  wp_step. apply (wp_known_type p input); [done..|]. intros ta Hta.
  wp_step. apply (wp_known_type p (b_first_node tblk + k)); [done..|]. intros te Hte.
  wp_step.
  match goal with H : negb (bool_decide _) = false |- _ =>
    apply negb_false_iff, bool_decide_eq_true in H as -> end.
  split; [done|]. split; [by rewrite Hta|congruence].
Qed.

Lemma validate_jump_arity_post t n source target :
  node_wf n -> 0 <= target < len (blocks p) ->
  post (validate_jump_arity p t n source target) (fun _ => jump_args_ok p n target).
Proof.
  intros Hwf [tblk Ht]%get_is_Some. unfold validate_jump_arity. rewrite Ht. do 4 wp_step.
  destruct (block_wf_get p Hd _ _ Ht) as (_ & Hf & _ & Hpc & _). unfold uint in Hf, Hpc.
  wp_use (post_forM _ _ (fun '(k, input) => op_at p (b_first_node tblk + k) = Some Op.BlockParam /\
    is_Some (ty_at p input) /\ ty_at p input = ty_at p (b_first_node tblk + k))) as _ Hall.
  { intros [k input] [Hg Hlt]%lookup_take_enumerate. apply validate_jump_argument_post; try lia.
    by eapply node_inputs_uint. }
  exists tblk. split; [done|]. split; [lia|]. intros k input Hkr Hin.
  apply (Hall (k, input)). apply lookup_take_enumerate. split; [done|lia].
Qed.

Lemma verify_block_control_flow_post starts ends b blk n :
  len starts = 128 -> len ends = 128 ->
  get (blocks p) b = Some blk -> get starts b = Some (b_first_node blk) ->
  get ends b = Some (b_end blk) -> get (nodes p) (b_end blk - 1) = Some n ->
  post (verify_block_control_flow p starts ends b) (fun _ =>
    (forall c, c ∈ succs p b -> 0 <= c < len (blocks p)) /\
    match opcode_try_from (n_opcode n) with
    | Some Op.Jump => jump_args_ok p n (n_auxiliary0 n)
    | Some Op.Branch => no_params p (n_auxiliary0 n) /\ no_params p (n_auxiliary1 n)
    | _ => True
    end).
Proof.
  intros Hls Hle Hb Hst Hen Hn. unfold verify_block_control_flow, index. rewrite Hb, Hst, Hen.
  do 4 wp_step. rewrite Hn. wp_step. wp_step.
  wp_step. apply (wp_known_opcode p (b_end blk - 1)); [done..|]. intros o Ho.
  destruct (node_wf_get p Hd _ _ Hn) as (? & ? & ? & ? & ? & ? & ? & ? & Ha0 & Ha1 & ?).
  unfold uint in Ha0, Ha1. pose proof (bs_block p Hbs b blk Hb) as Hbo.
  assert (Ho' : opcode_try_from (n_opcode n) = Some o) by (unfold op_at in Ho; by rewrite Hn in Ho).
  rewrite Ho'.
  assert (succs p b = match o with Op.Jump => [n_auxiliary0 n]
                      | Op.Branch => [n_auxiliary0 n; n_auxiliary1 n] | _ => [] end) as Hsu.
  { unfold succs. rewrite Hb, (bo_terminator p b blk Hbo), Hn, Ho'. by destruct o. }
  rewrite Hsu. wp_step.
  eapply (post_mono _ (fun _ => (forall c, c ∈ match o with Op.Jump => [n_auxiliary0 n]
      | Op.Branch => [n_auxiliary0 n; n_auxiliary1 n] | _ => [] end -> 0 <= c < len (blocks p)) /\
    match o with Op.Jump => jump_args_ok p n (n_auxiliary0 n)
    | Op.Branch => no_params p (n_auxiliary0 n) /\ no_params p (n_auxiliary1 n)
    | _ => True end)).
  - destruct o; try done.
    + wp_step. wp_use validate_target_post as _ Ht; [lia|].
      wp_use validate_jump_arity_post as _ Hj; [by eapply node_wf_get|done|].
      split; [|done]. intros c Hc. assert (c = n_auxiliary0 n) as -> by set_solver. done.
    + wp_step. wp_use validate_target_post as _ Ht; [lia|].
      wp_step. wp_use validate_target_post as _ Ht1; [lia|].
      wp_step. wp_use validate_branch_arity_post as _ Hp0; [done|].
      wp_use validate_branch_arity_post as _ Hp1; [done|].
      split; [|done]. intros c Hc.
      assert (c = n_auxiliary0 n \/ c = n_auxiliary1 n) as [-> | ->] by set_solver; done.
    + wp_step. split; [set_solver|done].
  - intros _ Hpost. wp_step. wp_step.
    wp_use (post_forM _ _ (fun _ => True)) as _ _; [|done].
    intros i Hi%elem_of_range. pose proof (nodes_bound p Hd).
    pose proof (bo_end p b blk Hbo). destruct (block_wf_get p Hd _ _ Hb) as (_ & Hf & _).
    unfold uint in Hf. destruct (proj2 (get_is_Some (nodes p) i)) as [m Hm]; [lia|].
    rewrite Hm. wp_step. wp_step. wp_step.
    apply (wp_known_opcode p i); [done..|]. intros o' _. by wp_step.
Qed.

Lemma verify_control_flow_post starts ends :
  len starts = 128 -> len ends = 128 ->
  (forall b blk, get (blocks p) b = Some blk ->
     get starts b = Some (b_first_node blk) /\ get ends b = Some (b_end blk)) ->
  post (verify_control_flow p starts ends) (fun _ => targets_ok p /\ arguments_ok p).
Proof.
  intros Hls Hle Harr. unfold verify_control_flow.
  assert (forall b blk, get (blocks p) b = Some blk ->
    exists n, get (nodes p) (b_end blk - 1) = Some n) as Hterm.
  { intros b blk Hb. pose proof (bs_block p Hbs b blk Hb) as Hbo.
    destruct (block_wf_get p Hd _ _ Hb) as (_ & Hf & _). unfold uint in Hf.
    pose proof (bo_end _ _ _ Hbo). pose proof (bo_count _ _ _ Hbo).
    apply (proj2 (get_is_Some (nodes p) _)). unfold b_end in *. lia. }
  wp_use (post_forM _ _ (fun b => forall blk n, get (blocks p) b = Some blk ->
    get (nodes p) (b_end blk - 1) = Some n ->
    (forall c, c ∈ succs p b -> 0 <= c < len (blocks p)) /\
    match opcode_try_from (n_opcode n) with
    | Some Op.Jump => jump_args_ok p n (n_auxiliary0 n)
    | Some Op.Branch => no_params p (n_auxiliary0 n) /\ no_params p (n_auxiliary1 n)
    | _ => True
    end)) as _ Hall.
  { intros b Hb%elem_of_range. apply get_is_Some in Hb as [blk Hb].
    destruct (Hterm b blk Hb) as [n Hn]. destruct (Harr b blk Hb) as [Hst Hen].
    wp_use (verify_block_control_flow_post starts ends b blk n) as _ Hpost; [done..|].
    intros blk' n' Hb' Hn'. simplify_eq. done. }
  split.
  - intros b c Hc. assert (Hc' := Hc). unfold edge, succs in Hc'.
    destruct (get (blocks p) b) as [blk|] eqn:Hb; [|set_solver].
    destruct (Hterm b blk Hb) as [n Hn].
    apply (Hall b) with (blk := blk) (n := n); [|done..].
    apply elem_of_range. apply get_Some in Hb. lia.
  - intros b blk n Hb Hn. apply (Hall b) with (blk := blk); [|done..].
    apply elem_of_range. apply get_Some in Hb. lia.
Qed.
End control_flow.
