(* ===== verification/TigDominators.v ===== *)
(** * Reachability and dominators

    The two graph loops of the verifier. The worklist loop of
    [verify_reachable_blocks] accepts exactly the graphs whose blocks are all
    reachable from the entry, and the iteration of [compute_dominators] ends and
    returns exactly the dominance relation: [d] is in the mask of [b] iff every
    walk from the entry to [b] visits [d]. *)

From stdpp Require Import base numbers list sets relations.
From S2P Require Import Prelude TigTypes TigFormat TigFormatFacts TigVerify Bitset TigStructure.

Lemma wp_block_bit b (Q : Z -> Prop) R : 0 <= b < 128 -> Q (bit b) -> wp (block_bit b) Q R.
Proof.
  intros Hb HQ. unfold block_bit. replace ((0 <=? b) && (b <? 128)) with true by lia. exact HQ.
Qed.

Lemma pos_trailing_zeros_spec q :
  0 <= pos_trailing_zeros q /\ Z.testbit (Zpos q) (pos_trailing_zeros q) = true.
Proof.
  induction q as [q _|q [Hge IH]|]; cbn [pos_trailing_zeros]; [done| |done].
  split; [lia|].
  replace (1 + pos_trailing_zeros q) with (Z.succ (pos_trailing_zeros q)) by lia.
  rewrite Pos2Z.inj_xO, Z.testbit_even_succ by done. done.
Qed.

(** The lowest set bit of a non-empty mask is an element of it. *)
Lemma trailing_zeros_spec x : 0 < x -> Z.testbit x (trailing_zeros x) = true.
Proof. destruct x as [|q|q]; [lia| |lia]. intros _. apply pos_trailing_zeros_spec. Qed.

(** ** Walks and dominance *)

Definition entry (p : PythGraphPackage) : Z := h_entry_block (p_header p).

Definition reachable (p : PythGraphPackage) (b : Z) : Prop := rtc (edge p) (entry p) b.

(** A walk from the entry to a block, with the blocks it visits. *)
Inductive walk (p : PythGraphPackage) : list Z -> Z -> Prop :=
| walk_entry : walk p [entry p] (entry p)
| walk_step l a b : walk p l a -> edge p a b -> walk p (l ++ [b]) b.

Definition dominates (p : PythGraphPackage) (d b : Z) : Prop :=
  forall l, walk p l b -> d ∈ l.

(** The bit [d] of the mask kept for block [b]. *)
Definition dbit (D : list Z) (b d : Z) : bool :=
  match get D b with Some m => Z.testbit m d | None => false end.

Lemma walk_last p l b : walk p l b -> b ∈ l.
Proof. destruct 1; set_solver. Qed.

(** A strict dominator of [b] dominates the predecessors of [b]. *)
Lemma dominates_pred p d a b : dominates p d b -> d <> b -> edge p a b -> dominates p d a.
Proof.
  intros Hdom Hne Hab l Hl. specialize (Hdom _ (walk_step p l a b Hl Hab)). set_solver.
Qed.

Lemma all_blocks_spec n d : 0 <= n <= 128 -> Z.testbit (all_blocks n) d = true <-> 0 <= d < n.
Proof.
  intros Hn. unfold all_blocks. destruct (Z.eqb_spec n 128) as [->|Hne].
  - change (2 ^ 128 - 1) with (Z.ones 128). by apply ones_spec.
  - replace (Z.shiftl 1 n - 1) with (Z.ones n) by (unfold Z.ones; lia). apply ones_spec; lia.
Qed.

Lemma all_blocks_nonneg n : 0 <= n -> 0 <= all_blocks n.
Proof.
  intros Hn. unfold all_blocks. destruct (n =? 128); [done|].
  rewrite Z.shiftl_1_l. pose proof (Z.pow_pos_nonneg 2 n). lia.
Qed.

Section graph.
Context (p : PythGraphPackage) (Hd : decoded p) (Hk : known p) (Hbs : blocks_ok p)
        (Ht : targets_ok p) (Hentry : 0 <= entry p < len (blocks p)).

Let bc := len (blocks p).

Lemma bc_bound : 0 <= bc <= 128.
Proof. apply (blocks_bound p Hd). Qed.

(** The terminator of a block, as the loops read it. *)
Lemma block_terminator b :
  0 <= b < bc -> exists blk n o,
    get (blocks p) b = Some blk /\ get (nodes p) (b_terminator_node blk) = Some n /\
    opcode_try_from (n_opcode n) = Some o /\
    succs p b = match o with Op.Jump => [n_auxiliary0 n]
                | Op.Branch => [n_auxiliary0 n; n_auxiliary1 n] | _ => [] end.
Proof.
  intros [blk Hb]%get_is_Some. pose proof (bs_block p Hbs b blk Hb) as Hbo.
  destruct (block_wf_get p Hd _ _ Hb) as (_ & Hf & _). unfold uint in Hf.
  pose proof (bo_end _ _ _ Hbo). pose proof (bo_count _ _ _ Hbo).
  destruct (proj2 (get_is_Some (nodes p) (b_end blk - 1))) as [n Hn]; [unfold b_end in *; lia|].
  destruct (known_opcodes p Hk n) as [o Ho]; [by eapply get_elem_of|].
  exists blk, n, o. rewrite (bo_terminator _ _ _ Hbo). split_and!; [done..|].
  unfold succs. rewrite Hb, (bo_terminator _ _ _ Hbo), Hn, Ho. by destruct o.
Qed.

(** ** Reachability loop *)

Definition reach_inv (st : Z * Z) : Prop :=
  let '(r, w) := st in
  0 <= r /\ 0 <= w /\
  (forall b, Z.testbit r b = true -> 0 <= b < bc /\ reachable p b) /\
  (forall b, Z.testbit w b = true -> 0 <= b < bc /\ reachable p b) /\
  (forall b c, Z.testbit r b = true -> edge p b c ->
     Z.testbit r c = true \/ Z.testbit w c = true) /\
  (Z.testbit r (entry p) = true \/ Z.testbit w (entry p) = true).

Definition reach_measure (st : Z * Z) : nat :=
  (3 * (128 - card st.1) + card st.2)%nat.

(** Marking block [b] and queueing its successors keeps the invariant. *)
Lemma reach_inv_mark r w b w' :
  reach_inv (r, w) -> Z.testbit w b = true -> 0 <= w' ->
  (forall c, Z.testbit w' c = true <-> (Z.testbit w c = true /\ b <> c) \/ edge p b c) ->
  reach_inv (Z.lor r (bit b), w').
Proof.
  intros (Hr0 & Hw0 & Hr & Hw & Hcl & He) Hb Hw'0 Hw'.
  destruct (Hw b Hb) as [Hbr Hreach].
  assert (forall c, Z.testbit (Z.lor r (bit b)) c = true <-> Z.testbit r c = true \/ b = c) as Hl.
  { intros c. apply lor_bit_spec. lia. }
  split_and!.
  - apply Z.lor_nonneg. split; [done|apply bit_nonneg].
  - done.
  - intros c [?|<-]%Hl; [by apply Hr|done].
  - intros c [[? _]|Hc]%Hw'; [by apply Hw|]. split; [by apply (Ht b)|].
    eapply rtc_r; [done|done].
  - intros a c [Ha|<-]%Hl Hc.
    + rewrite Hl, Hw'. destruct (Hcl a c Ha Hc) as [?|?]; [by left; left|].
      destruct (decide (b = c)); [by left; right|]. right; left. done.
    + right. apply Hw'. by right.
  - rewrite Hl, Hw'. destruct He as [?|?]; [by left; left|].
    destruct (decide (b = entry p)); [by left; right|]. right; left. done.
Qed.

Lemma reach_inv_drop r w b :
  reach_inv (r, w) -> 0 <= b -> Z.testbit r b = true -> reach_inv (r, Z.ldiff w (bit b)).
Proof.
  intros (Hr0 & Hw0 & Hr & Hw & Hcl & He) Hb0 Hb.
  assert (forall c, Z.testbit (Z.ldiff w (bit b)) c = true <-> Z.testbit w c = true /\ b <> c) as Hl.
  { intros c. by apply ldiff_bit_spec. }
  split_and!; [done| |done|..].
  - apply Z.ldiff_nonneg. by left.
  - intros c [? _]%Hl. by apply Hw.
  - intros a c Ha Hc. destruct (Hcl a c Ha Hc) as [?|?]; [by left|].
    destruct (decide (b = c)) as [<-|]; [by left|]. right. by apply Hl.
  - destruct He as [?|?]; [by left|].
    destruct (decide (b = entry p)) as [<-|]; [by left|]. right. by apply Hl.
Qed.

Lemma reach_step_post st :
  reach_inv st ->
  wp (reach_step p st) (fun r => match r with
    | inl st' => reach_inv st' /\ (reach_measure st' < reach_measure st)%nat
    | inr r => forall b, Z.testbit r b = true <-> reachable p b end) (fun _ => False).
Proof.
  destruct st as [r w]. intros Hinv. assert (Hinv' := Hinv).
  destruct Hinv' as (Hr0 & Hw0 & Hr & Hw & Hcl & He).
  pose proof bc_bound as Hbc. unfold reach_step.
  destruct (Z.eqb_spec w 0) as [->|Hne].
  { wp_step. intros b. split; [intros Hb; by apply Hr|].
    intros Hb. apply (rtc_ind_r (fun b => Z.testbit r b = true) (entry p)) in Hb; [done|..].
    - destruct He as [?|He]; [done|]. by rewrite Z.bits_0 in He.
    - intros a c _ Hac Ha. destruct (Hcl a c Ha Hac) as [?|Hc]; [done|]. by rewrite Z.bits_0 in Hc. }
  pose proof (trailing_zeros_spec w ltac:(lia)) as Hb. set (b := trailing_zeros w) in *.
  destruct (Hw b Hb) as [Hbr Hreach].
  wp_step. apply wp_block_bit; [lia|]. rewrite land_bit_zero, negb_involutive by lia.
  pose proof (card_le r) as Hcr.
  pose proof (card_ldiff w b ltac:(lia) Hb) as Hcw.
  destruct (Z.testbit r b) eqn:Hrb.
  { wp_step. split; [apply reach_inv_drop; (done || lia)|]. unfold reach_measure. simpl. lia. }
  pose proof (card_lor_new r b ltac:(lia) Hrb) as Hcr'. pose proof (card_le (Z.lor r (bit b))).
  assert (0 <= Z.ldiff w (bit b)) as Hld by (apply Z.ldiff_nonneg; by left).
  destruct (block_terminator b) as (blk & n & o & Hblk & Hn & Ho & Hs); [done|].
  rewrite Hblk. wp_step. wp_step. rewrite Hn. wp_step. wp_step.
  match goal with H : Some _ = Some _ |- _ => injection H as <- end.
  wp_step. unfold known_opcode. rewrite Ho. wp_step.
  assert (forall c, Z.testbit (Z.ldiff w (bit b)) c = true <-> Z.testbit w c = true /\ b <> c)
    as Hl by (intros; apply ldiff_bit_spec; lia).
  assert (forall c, c ∈ succs p b -> 0 <= c < 128) as Hsr.
  { intros c Hc. specialize (Ht b c Hc). fold bc in Ht. lia. }
  assert (succs p b = [] -> reach_inv (Z.lor r (bit b), Z.ldiff w (bit b)) /\
    (reach_measure (Z.lor r (bit b), Z.ldiff w (bit b)) < reach_measure (r, w))%nat) as Hnil.
  { intros Hsn. split; [|unfold reach_measure; simpl; lia].
    apply (reach_inv_mark r w b); [done..|].
    intros c. unfold edge. rewrite Hsn, Hl, elem_of_nil. tauto. }
  rewrite Hs in Hsr. destruct o; try (wp_step; by apply Hnil); clear Hnil.
  - wp_step. apply wp_block_bit; [apply Hsr; set_solver|].
    pose proof (Hsr (n_auxiliary0 n) ltac:(set_solver)).
    pose proof (card_lor_le (Z.ldiff w (bit b)) (n_auxiliary0 n) ltac:(lia)).
    wp_step. split; [|unfold reach_measure; simpl; lia].
    apply (reach_inv_mark r w b); [done|done|apply Z.lor_nonneg; auto using bit_nonneg|].
    intros c. unfold edge. rewrite Hs, lor_bit_spec, Hl by lia. set_solver.
  - wp_step. apply wp_block_bit; [apply Hsr; set_solver|].
    wp_step. apply wp_block_bit; [apply Hsr; set_solver|].
    pose proof (Hsr (n_auxiliary0 n) ltac:(set_solver)).
    pose proof (Hsr (n_auxiliary1 n) ltac:(set_solver)).
    pose proof (card_lor_le (Z.ldiff w (bit b)) (n_auxiliary0 n) ltac:(lia)).
    pose proof (card_lor_le (Z.lor (Z.ldiff w (bit b)) (bit (n_auxiliary0 n)))
                  (n_auxiliary1 n) ltac:(lia)).
    wp_step. split; [|unfold reach_measure; simpl; lia].
    apply (reach_inv_mark r w b); [done|done|repeat (apply Z.lor_nonneg; split); auto using bit_nonneg|].
    intros c. unfold edge. rewrite Hs, !lor_bit_spec, Hl by lia. set_solver.
Qed.

(** The whole pass, both ways: it succeeds iff every block is reachable. *)
Lemma verify_reachable_blocks_wp :
  wp (verify_reachable_blocks p) (fun _ => forall b, 0 <= b < bc -> reachable p b)
    (fun _ => exists b, 0 <= b < bc /\ ~ reachable p b).
Proof.
  pose proof bc_bound as Hbc. unfold verify_reachable_blocks.
  fold (entry p). fold bc.
  replace (bc <=? entry p) with false by (unfold bc; lia). wp_step. wp_step.
  wp_step. apply wp_block_bit; [unfold bc in *; lia|].
  wp_step. eapply (wp_mono _ (fun r => forall b, Z.testbit r b = true <-> reachable p b)
    _ (fun _ => False)); [|intros r Hr|done].
  { apply (wp_loop _ reach_inv reach_measure); [apply reach_step_post|..].
    - split_and!; [done|apply bit_nonneg|..].
      + intros b. by rewrite Z.bits_0.
      + intros b <-%bit_spec; [|lia]. split; [done|apply rtc_refl].
      + intros b c. by rewrite Z.bits_0.
      + right. apply bit_spec; lia.
    - unfold reach_measure, reach_fuel. simpl.
      pose proof (card_lor_le 0 (entry p) ltac:(lia)) as Hc. rewrite Z.lor_0_l in Hc.
      assert (card 0 <= 0)%nat by (vm_compute; lia). lia. }
  eapply wp_mono; [apply (wp_forM _ _ (fun b => reachable p b)
    (fun _ => exists b, 0 <= b < bc /\ ~ reachable p b))|..|done].
  - intros b Hb%elem_of_range. wp_step. apply wp_block_bit; [lia|].
    rewrite land_bit_zero by lia. destruct (Z.testbit r b) eqn:Hrb; simpl.
    + by apply Hr.
    + destruct (proj2 (get_is_Some (blocks p) b)) as [blk Hblk]; [done|]. rewrite Hblk. simpl.
      exists b. split; [done|]. rewrite <- Hr, Hrb. done.
  - intros u Hall b Hb. apply Hall. by apply elem_of_range.
Qed.
(** ** Dominator iteration *)

Lemma edge_source a c : edge p a c -> 0 <= a < bc.
Proof.
  unfold edge, succs. destruct (get (blocks p) a) as [blk|] eqn:Hb; [|set_solver].
  intros _. apply get_Some in Hb. apply Hb.
Qed.

(** The predecessor masks after the blocks below [k]. *)
Definition preds_upto (k : Z) (P : list Z) : Prop :=
  len P = 128 /\ forall c a, 0 <= c < bc -> dbit P c a = true <-> edge p a c /\ a < k.

Lemma add_predecessor_post P t k (Q : list Z -> Prop) :
  len P = 128 -> 0 <= t < bc -> 0 <= k < bc ->
  (forall P', len P' = 128 ->
     (forall c a, dbit P' c a = true <-> dbit P c a = true \/ (c = t /\ a = k)) -> Q P') ->
  wp (add_predecessor P t k) Q (fun _ => False).
Proof.
  intros Hl Ht0 Hk0 HQ. pose proof bc_bound. unfold add_predecessor.
  wp_step. apply wp_index; [lia|]. intros old Hold.
  wp_step. apply wp_block_bit; [lia|]. apply wp_index_set; [lia|].
  apply HQ; [by rewrite len_insert|]. intros c a. unfold dbit.
  destruct (decide (t = c)) as [<-|Hne].
  - rewrite get_insert_eq, Hold, lor_bit_spec by lia. naive_solver.
  - rewrite get_insert_ne by lia. naive_solver.
Qed.

Lemma block_predecessors_post P k :
  0 <= k < bc -> preds_upto k P ->
  wp (block_predecessors p P k) (preds_upto (k + 1)) (fun _ => False).
Proof.
  intros Hk0 [Hl HP]. destruct (block_terminator k Hk0) as (blk & n & o & Hblk & Hn & Ho & Hs).
  unfold block_predecessors. rewrite Hblk. wp_step. wp_step. rewrite Hn. simpl.
  wp_step. unfold known_opcode. rewrite Ho. simpl.
  assert (forall c, c ∈ succs p k -> 0 <= c < bc) as Hsr by (intros c Hc; by apply (Ht k)).
  assert (forall P', len P' = 128 ->
    (forall c a, dbit P' c a = true <-> dbit P c a = true \/ (c ∈ succs p k /\ a = k)) ->
    preds_upto (k + 1) P') as Hend.
  { intros P' Hl' HP'. split; [done|]. intros c a Hc. rewrite HP', HP by done. unfold edge.
    destruct (decide (a = k)) as [->|]; [naive_solver lia|].
    assert (a < k <-> a < k + 1) by lia. naive_solver. }
  rewrite Hs in Hend, Hsr. destruct o;
    try (wp_step; apply Hend; [done|intros c a; rewrite elem_of_nil; tauto]).
  - apply add_predecessor_post; [done|apply Hsr; set_solver|done|].
    intros P' Hl' HP'. apply Hend; [done|]. intros c a. rewrite HP'. set_solver.
  - wp_step. apply add_predecessor_post; [done|apply Hsr; set_solver|done|].
    intros P1 Hl1 HP1. apply add_predecessor_post; [done|apply Hsr; set_solver|done|].
    intros P' Hl' HP'. apply Hend; [done|]. intros c a. rewrite HP', HP1. set_solver.
Qed.

Lemma predecessors_post :
  wp (foldM (block_predecessors p) (replicate (Z.to_nat MAX_BLOCKS) 0) (range 0 bc))
    (preds_upto bc) (fun _ => False).
Proof.
  pose proof bc_bound. apply (wp_foldM_range _ _ preds_upto).
  - lia.
  - split; [done|]. intros c a Hc. unfold dbit.
    rewrite (proj2 (get_replicate _ 0 c 0)) by (change (Z.of_nat (Z.to_nat MAX_BLOCKS)) with 128; lia).
    rewrite Z.bits_0. split; [done|]. intros [Ha%edge_source ?]. lia.
  - intros i P Hi HP. by apply block_predecessors_post.
Qed.

(** What the meet over the predecessors of [b] and [b] itself contains. *)
Definition next_in (D : list Z) (b d : Z) : Prop :=
  0 <= d < bc /\ (b = d \/ forall a, edge p a b -> dbit D a d = true).

Record dom_inv (D : list Z) : Prop := {
  di_len : len D = 128;
  di_nonneg : forall b m, get D b = Some m -> 0 <= m;
  di_range : forall b d, 0 <= b < bc -> dbit D b d = true -> 0 <= d < bc;
  di_entry : forall d, dbit D (entry p) d = true <-> entry p = d;
  di_sound : forall b d, 0 <= b < bc -> 0 <= d < bc -> dominates p d b -> dbit D b d = true;
  di_shrink : forall b d, 0 <= b < bc -> b <> entry p -> next_in D b d -> dbit D b d = true }.

Lemma intersect_predecessors_post preds D b :
  len D = 128 -> (forall i m, get D i = Some m -> 0 <= m) ->
  (forall a, Z.testbit preds a = true <-> edge p a b) ->
  wp (intersect_predecessors bc preds D)
    (fun x => 0 <= x /\ forall d, Z.testbit x d = true <->
       0 <= d < bc /\ forall a, edge p a b -> dbit D a d = true) (fun _ => False).
Proof.
  intros Hl Hnn Hp. pose proof bc_bound as Hbc. unfold intersect_predecessors.
  set (l := take (Z.to_nat bc) (enumerate D)).
  assert (length l = Z.to_nat bc) as Hll.
  { unfold l. rewrite length_take, length_enumerate. unfold len in Hl. lia. }
  eapply wp_mono; [apply (wp_foldM_prefix _ (fun _ => False) (fun i x => 0 <= x /\ forall d,
    Z.testbit x d = true <->
      0 <= d < bc /\ forall a, a < Z.of_nat i -> edge p a b -> dbit D a d = true))|..|done].
  - split; [apply all_blocks_nonneg; lia|]. intros d. rewrite all_blocks_spec by done.
    split; [|naive_solver]. intros Hd0. split; [done|]. intros a Ha He%edge_source. lia.
  - intros i [k m] x Hi [Hx0 Hx]. unfold l in Hi. apply lookup_take_Some in Hi as [Hi Hlt].
    apply lookup_enumerate in Hi as [-> Hm]. rewrite <- get_of_nat in Hm.
    wp_step. apply wp_block_bit; [lia|]. wp_step.
    rewrite land_bit_zero, negb_involutive by lia.
    assert (forall d, dbit D (Z.of_nat i) d = Z.testbit m d) as Hdb by (intros; unfold dbit; by rewrite Hm).
    assert (forall d, (forall a, a < Z.of_nat (S i) -> edge p a b -> dbit D a d = true) <->
      (forall a, a < Z.of_nat i -> edge p a b -> dbit D a d = true) /\
      (edge p (Z.of_nat i) b -> Z.testbit m d = true)) as Hstep.
    { intros d. rewrite <- Hdb. split; [intros H; split; [intros a Ha|]; apply H; lia|].
      intros [H1 H2] a Ha. destruct (decide (a = Z.of_nat i)) as [->|]; [done|]. apply H1. lia. }
    destruct (Z.testbit preds (Z.of_nat i)) eqn:Hb.
    + apply Hp in Hb. split; [apply Z.land_nonneg; by left|].
      intros d. rewrite Z.land_spec, andb_true_iff, Hx, Hstep. naive_solver.
    + assert (~ edge p (Z.of_nat i) b) by (rewrite <- Hp, Hb; done).
      split; [done|]. intros d. rewrite Hx, Hstep. naive_solver.
  - simpl. intros x [Hx0 Hx]. split; [done|]. intros d. rewrite Hx, Hll.
    split; [|naive_solver]. intros [Hd0 H]. split; [done|]. intros a He. apply H; [|done].
    apply edge_source in He. lia.
Qed.
(** Block [b] satisfies its dataflow equation. *)
Definition stable (D : list Z) (b : Z) : Prop :=
  forall d, dbit D b d = true <-> next_in D b d.

(** Replacing the mask of [b] by its meet keeps the invariant. *)
Lemma dom_inv_update D b next :
  dom_inv D -> 0 <= b < bc -> b <> entry p -> 0 <= next ->
  (forall d, Z.testbit next d = true <-> next_in D b d) ->
  dom_inv (<[Z.to_nat b := next]> D).
Proof.
  intros HI Hb Hbe Hn0 Hn. pose proof bc_bound as Hbc. destruct HI as [Hl Hnn Hr He Hs Hsh].
  assert (forall c d, dbit (<[Z.to_nat b := next]> D) c d =
    if decide (c = b) then Z.testbit next d else dbit D c d) as Hdb.
  { intros c d. unfold dbit. destruct (decide (c = b)) as [->|Hne].
    - by rewrite get_insert_eq by lia.
    - by rewrite get_insert_ne by lia. }
  assert (forall c d, next_in (<[Z.to_nat b := next]> D) c d -> next_in D c d) as Hmono.
  { intros c d [Hd0 [->|Hpre]]; (split; [done|]); [by left|]. right. intros a Ha.
    specialize (Hpre a Ha). rewrite Hdb in Hpre. destruct (decide (a = b)) as [->|]; [|done].
    by apply Hsh, Hn. }
  constructor.
  - by rewrite len_insert.
  - intros c m Hm. destruct (decide (b = c)) as [<-|Hne].
    + rewrite get_insert_eq in Hm by lia. by simplify_eq.
    + rewrite get_insert_ne in Hm by lia. by eapply Hnn.
  - intros c d Hc. rewrite Hdb. destruct (decide (c = b)); [|by apply Hr]. by intros [? _]%Hn.
  - intros d. rewrite Hdb, decide_False by done. apply He.
  - intros c d Hc Hd0 Hdom. rewrite Hdb. destruct (decide (c = b)) as [->|]; [|by apply Hs].
    apply Hn. split; [done|]. destruct (decide (b = d)); [by left|]. right. intros a Ha.
    apply Hs; [by eapply edge_source|done|]. by eapply dominates_pred.
  - intros c d Hc Hce Hnx%Hmono. rewrite Hdb. destruct (decide (c = b)) as [->|]; [by apply Hn|].
    by apply Hsh.
Qed.

Lemma dominator_update_post P D changed b :
  preds_upto bc P -> dom_inv D -> 0 <= b < bc ->
  wp (dominator_update bc (entry p) P (D, changed) b) (fun '(D', changed') =>
    dom_inv D' /\
    ((D' = D /\ changed' = changed /\ (b <> entry p -> stable D b)) \/
     (changed' = true /\ (total D' < total D)%nat))) (fun _ => False).
Proof.
  intros [HPl HP] HI Hb. pose proof bc_bound as Hbc. unfold dominator_update.
  destruct (Z.eqb_spec b (entry p)) as [Hbe|Hbe]; [wp_step; split; [done|left; done]|].
  wp_step. apply wp_index; [lia|]. intros preds Hpreds.
  wp_step. eapply wp_mono; [apply (intersect_predecessors_post preds D b)| |done].
  { apply HI. }
  { apply HI. }
  { intros a. specialize (HP b a Hb). unfold dbit in HP. rewrite Hpreds in HP. rewrite HP.
    split; [naive_solver|]. intros Ha. split; [done|]. apply edge_source in Ha. lia. }
  intros x [Hx0 Hx]. simpl. wp_step. apply wp_block_bit; [lia|].
  wp_step. pose proof (di_len D HI). apply wp_index; [lia|]. intros old Hold.
  set (next := Z.lor (bit b) x).
  assert (forall d, Z.testbit next d = true <-> next_in D b d) as Hn.
  { intros d. unfold next, next_in. rewrite Z.lor_comm, lor_bit_spec, Hx by lia.
    clear -Hb. split; [intros [[? ?]|<-]; auto|]. intros [? [?|?]]; auto. }
  assert (0 <= next) by (apply Z.lor_nonneg; split; [apply bit_nonneg|done]).
  assert (forall d, dbit D b d = Z.testbit old d) as Hdb by (intros; unfold dbit; by rewrite Hold).
  destruct (Z.eqb_spec old next) as [Heq|Hne]; simpl.
  - split; [done|]. left. split; [done|]. split; [done|]. intros _ d. by rewrite Hdb, Heq.
  - wp_step. apply wp_index_set; [lia|]. wp_step. split; [by apply dom_inv_update|].
    right. split; [done|]. apply (total_insert _ _ old).
    { by apply get_Some in Hold as [_ ?]. }
    apply card_proper; [done|by eapply di_nonneg| | |done].
    + intros d Hd0%Hn. rewrite <- Hdb. by apply (di_shrink D HI).
    + intros d. rewrite <- Hdb. intros Hd0%(di_range D HI); [lia|done].
Qed.

Lemma dominator_pass_post P D :
  preds_upto bc P -> dom_inv D ->
  wp (dominator_pass bc (entry p) P D) (fun r => match r with
    | inl D' => dom_inv D' /\ (total D' < total D)%nat
    | inr D' => dom_inv D' /\ forall b, 0 <= b < bc -> b <> entry p -> stable D' b
    end) (fun _ => False).
Proof.
  intros HP HI. pose proof bc_bound as Hbc. unfold dominator_pass. wp_step.
  eapply wp_mono; [apply (wp_foldM_range _ (fun _ => False) (fun i '(D', changed) =>
    dom_inv D' /\ (changed = true -> (total D' < total D)%nat) /\
    (changed = false -> D' = D /\ forall b, 0 <= b < i -> b <> entry p -> stable D b)))|..|done].
  - lia.
  - split; [done|]. split; [done|]. intros _. split; [done|]. lia.
  - intros b [D' ch] Hb (HI' & Hch & Hnch).
    eapply wp_mono; [by apply (dominator_update_post P D' ch b)| |done].
    intros [D'' ch'] [HI'' Hcase]. split; [done|].
    destruct Hcase as [(-> & -> & Hst)|[-> Hlt]].
    + split; [done|]. intros Hf. destruct (Hnch Hf) as [-> Hall]. split; [done|].
      intros c Hc. destruct (decide (c = b)) as [->|]; [done|]. apply Hall. lia.
    + split; [|done]. intros _. destruct ch; [specialize (Hch eq_refl); lia|].
      by destruct (Hnch eq_refl) as [-> _].
  - intros [D' []] (HI' & Hch & Hnch); simpl.
    + split; [done|by apply Hch].
    + destruct (Hnch eq_refl) as [-> Hall]. done.
Qed.

Lemma initial_dominators_post :
  wp (initial_dominators bc (entry p)) dom_inv (fun _ => False).
Proof.
  pose proof bc_bound as Hbc. unfold initial_dominators.
  eapply wp_mono; [apply (wp_foldM_range _ (fun _ => False) (fun i D => len D = 128 /\
    (forall b m, get D b = Some m -> 0 <= m) /\
    forall b, 0 <= b < i -> get D b = Some (if b =? entry p then bit b else all_blocks bc)))|..|done].
  - lia.
  - split; [done|]. split; [|lia]. intros b m [-> _]%get_replicate. done.
  - intros i D Hi (Hl & Hnn & HD). set (v := if i =? entry p then bit i else all_blocks bc).
    assert (0 <= v) as Hv.
    { unfold v. destruct (i =? entry p); [apply bit_nonneg|apply all_blocks_nonneg; lia]. }
    assert (len (<[Z.to_nat i := v]> D) = 128 /\
      (forall b m, get (<[Z.to_nat i := v]> D) b = Some m -> 0 <= m) /\
      forall b, 0 <= b < i + 1 -> get (<[Z.to_nat i := v]> D) b =
        Some (if b =? entry p then bit b else all_blocks bc)) as Hres.
    { rewrite len_insert. split; [done|]. split.
      - intros b m. destruct (decide (i = b)) as [<-|]; [rewrite get_insert_eq by lia; naive_solver|].
        rewrite get_insert_ne by lia. apply Hnn.
      - intros b Hb. destruct (decide (i = b)) as [<-|]; [by rewrite get_insert_eq by lia|].
        rewrite get_insert_ne by lia. apply HD. lia. }
    subst v. destruct (i =? entry p).
    + wp_step. apply wp_block_bit; [lia|]. apply wp_index_set; [lia|done].
    + apply wp_index_set; [lia|done].
  - intros D (Hl & Hnn & HD).
    assert (forall b d, 0 <= b < bc -> dbit D b d = true <->
      if b =? entry p then b = d else 0 <= d < bc) as Hdb.
    { intros b d Hb. unfold dbit. rewrite HD by done. destruct (b =? entry p).
      - apply bit_spec. lia.
      - apply all_blocks_spec. lia. }
    constructor; [done|done|..].
    + intros b d Hb. rewrite Hdb by done. destruct (b =? entry p); lia.
    + intros d. rewrite Hdb by done. by rewrite Z.eqb_refl.
    + intros b d Hb Hd0 Hdom. apply Hdb; [done|]. destruct (Z.eqb_spec b (entry p)) as [->|]; [|done].
      specialize (Hdom _ (walk_entry p)). set_solver.
    + intros b d Hb Hbe [Hd0 _]. apply Hdb; [done|]. by destruct (Z.eqb_spec b (entry p)).
Qed.

(** A solution of the dataflow equations contains only dominators. *)
Lemma stable_dominates D l b :
  dom_inv D -> (forall b, 0 <= b < bc -> b <> entry p -> stable D b) ->
  walk p l b -> forall d, dbit D b d = true -> d ∈ l.
Proof.
  intros HI Hst. induction 1 as [|l a b Hw IH Hab]; intros d Hbit.
  - apply (di_entry D HI) in Hbit. set_solver.
  - pose proof (Ht a b Hab) as Hb. destruct (decide (b = entry p)) as [->|Hbe].
    + apply (di_entry D HI) in Hbit. set_solver.
    + apply Hst in Hbit as [_ [->|Hpre]]; [set_solver| |done|done]. specialize (Hpre a Hab). set_solver.
Qed.

Lemma compute_dominators_wp :
  wp (compute_dominators p) (fun D => len D = 128 /\
    forall b d, 0 <= b < bc -> dbit D b d = true <-> 0 <= d < bc /\ dominates p d b)
    (fun _ => False).
Proof.
  pose proof bc_bound as Hbc. unfold compute_dominators. fold bc. fold (entry p).
  replace (bc <=? entry p) with false by (unfold bc; lia). wp_step. wp_step.
  wp_step. eapply wp_mono; [apply predecessors_post| |done]. intros P HP.
  wp_step. eapply wp_mono; [apply initial_dominators_post| |done]. intros D0 HI0.
  eapply wp_mono; [apply (wp_loop _ dom_inv total (fun D => dom_inv D /\
    forall b, 0 <= b < bc -> b <> entry p -> stable D b) (fun _ => False))| |done].
  - intros D HI. by apply dominator_pass_post.
  - done.
  - pose proof (total_le D0) as Hle. pose proof (di_len D0 HI0) as Hl. unfold len in Hl.
    replace (length D0) with 128%nat in Hle by lia. unfold dominator_fuel. lia.
  - intros D [HI Hst]. split; [apply HI|]. intros b d Hb. split.
    + intros Hbit. split; [by apply (di_range D HI) in Hbit|]. intros l Hl.
      by eapply stable_dominates.
    + intros [? ?]. by apply (di_sound D HI).
Qed.
End graph.
