(* ===== verification/TigTyping.v ===== *)
(** * What the verifier establishes: values, types and authority

    Postconditions of the value passes of the verifier. Availability: every
    input is produced earlier in its own block or in a strictly dominating one.
    Typing: the inputs and the result of every node agree with its opcode
    signature. Authority: the capability of every host call comes from an import
    record or from an object host result that grants what the call needs.
    Effects: the host calls form one chain in node order. *)

From stdpp Require Import base numbers list sets.
From Stdlib Require Import Strings.Byte.
From S2P Require Import Prelude TigTypes TigFormat TigFormatFacts Utf8 TigVerify Bitset TigStructure TigDominators.

(** ** Availability *)

(** The value of node [j] can be read at node [i]. *)
Definition available (p : PythGraphPackage) (i j : Z) : Prop :=
  exists b c, owns p b i /\ owns p c j /\ ((c = b /\ j < i) \/ (c <> b /\ dominates p c b)).

Definition inputs_available (p : PythGraphPackage) : Prop :=
  forall i n k input, get (nodes p) i = Some n -> get (node_inputs n) k = Some input ->
    input <> NO_VALUE -> 0 <= input < len (nodes p) /\ available p i input.

Section availability.
Context (p : PythGraphPackage) (Hd : decoded p) (Hk : known p) (Hbs : blocks_ok p)
        (Ht : targets_ok p) (Hentry : 0 <= entry p < len (blocks p)).

Lemma input_available_post nb D i n k input :
  (forall i, 0 <= i < len (nodes p) ->
     exists b, get nb i = Some b /\ 0 <= b < len (blocks p) /\ owns p b i) ->
  len D = 128 ->
  (forall b d, 0 <= b < len (blocks p) ->
     dbit D b d = true <-> 0 <= d < len (blocks p) /\ dominates p d b) ->
  get (nodes p) i = Some n -> get (node_inputs n) k = Some input ->
  post (input_available p nb D i (k, input)) (fun _ =>
    input <> NO_VALUE -> 0 <= input < len (nodes p) /\ available p i input).
Proof.
  intros Hnb HDl HD Hn Hin. pose proof (blocks_bound p Hd).
  pose proof (node_inputs_uint n k input (node_wf_get p Hd _ _ Hn) Hin) as Hu. unfold uint in Hu.
  unfold input_available. destruct (Z.eqb_spec input NO_VALUE) as [?|Hne]; [by wp_step|].
  wp_step. wp_step. assert (0 <= input < len (nodes p)) as Hir by lia.
  assert (0 <= i < len (nodes p)) as Hi by (apply get_Some in Hn; apply Hn).
  destruct (Hnb i Hi) as (b & Hb & Hbr & Hbo). destruct (Hnb input Hir) as (c & Hc & Hcr & Hco).
  wp_step. unfold index. rewrite Hb, Hc. simpl. wp_step. wp_step.
  destruct (Z.eqb_spec c b) as [->|Hcb].
  - wp_step. wp_step. wp_step. intros _. split; [done|].
    exists b, b. split_and!; [done..|]. left. split; [done|]. lia.
  - wp_step. wp_step. apply wp_expect.
    destruct (proj2 (get_is_Some D b)) as [m Hm]; [lia|]. exists m. split; [done|].
    wp_step. apply wp_block_bit; [lia|]. wp_step. wp_step.
    rewrite land_bit_zero, negb_involutive in * by lia. intros _. split; [done|].
    exists b, c. split_and!; [done..|]. right. split; [done|].
    apply (HD b c Hbr). unfold dbit. rewrite Hm.
    match goal with H : negb (Z.testbit _ _) = false |- _ => by apply negb_false_iff in H end.
Qed.

Lemma verify_value_availability_post nb :
  (forall i, 0 <= i < len (nodes p) ->
     exists b, get nb i = Some b /\ 0 <= b < len (blocks p) /\ owns p b i) ->
  post (verify_value_availability p nb) (fun _ => inputs_available p).
Proof.
  intros Hnb. unfold verify_value_availability. wp_step.
  eapply wp_mono; [by apply compute_dominators_wp| |done]. intros D [HDl HD]. simpl.
  wp_use (post_forM _ _ (fun '(i, n) => forall k input, get (node_inputs n) k = Some input ->
    input <> NO_VALUE -> 0 <= input < len (nodes p) /\ available p i input)) as _ Hall.
  - intros [i n] Hn%elem_of_enumerate.
    wp_use (post_forM _ _ (fun '(k, input) => input <> NO_VALUE ->
      0 <= input < len (nodes p) /\ available p i input)) as _ Hin.
    + intros [k input] Hki%elem_of_enumerate. by eapply input_available_post.
    + intros k input Hki. by apply (Hin (k, input)), elem_of_enumerate.
  - intros i n k input Hn. by apply (Hall (i, n)), elem_of_enumerate.
Qed.
End availability.

(** ** Typing vocabulary *)

(** Input [k] of a node, as the verifier sees it at node [i]: a value of the
    declared type produced no later than [i]. *)
Definition input_typed (p : PythGraphPackage) (i input : Z) (t : PythType) : Prop :=
  input <> NO_VALUE /\ 0 <= input <= i /\ input < len (nodes p) /\ ty_at p input = Some t.

Definition signature_ok (p : PythGraphPackage) (i : Z) (n : NodeRecord) (o : Opcode)
    (t : PythType) : Prop :=
  opcode_accepts_result o t (result (signature o)) = true /\
  forall k input, get (node_inputs n) k = Some input ->
    if k <? input_count (signature o)
    then exists e, get (inputs (signature o)) k = Some e /\ input_typed p i input e
    else input = NO_VALUE.

(** A projection reads a field of a host call that runs right before it. *)
Record host_result_ok (p : PythGraphPackage) (i : Z) (n : NodeRecord) (t : PythType) : Prop := {
  hro_before : 0 <= n_input0 n < i;
  hro_run : forall j m, n_input0 n < j < i -> get (nodes p) j = Some m ->
    op_at p j = Some Op.HostResult /\ n_input0 m = n_input0 n;
  hro_producer : exists o, op_at p (n_input0 n) = Some o /\ effectful (signature o) = true /\
    host_result_field_type o (n_auxiliary0 n) = Some t }.

(** A capability parameter names an import record. *)
Definition import_param_ok (p : PythGraphPackage) (n : NodeRecord) : Prop :=
  n_block_index n = entry p /\ uint 16 (n_auxiliary0 n) /\
  exists imp, find_import p (n_auxiliary0 n) = Some imp /\
    i_expected_type imp = type_code Ty.Capability.

(** Where a capability value comes from, and the kind and rights this origin
    declares. *)
Inductive granted (p : PythGraphPackage) (j kind rights : Z) : Prop :=
| granted_import n imp :
    get (nodes p) j = Some n -> op_at p j = Some Op.BlockParam ->
    find_import p (n_auxiliary0 n) = Some imp ->
    kind = i_resource_kind imp -> rights = i_rights imp -> granted p j kind rights
| granted_result n o :
    get (nodes p) j = Some n -> op_at p j = Some Op.HostResult ->
    op_at p (n_input0 n) = Some o -> (o = Op.ObjectCreate \/ o = Op.ObjectQuery) ->
    n_auxiliary0 n = HOST_RESULT_CAPABILITY ->
    kind = RESOURCE_OBJECT -> rights = Z.lor RIGHTS_READ RIGHTS_REVISE -> granted p j kind rights.

(** The capability input of a host call grants what its opcode requires. *)
Definition authorized (p : PythGraphPackage) (n : NodeRecord) (o : Opcode) : Prop :=
  forall kind, required_resource_kind (signature o) = Some kind ->
    exists rights, granted p (n_input1 n) kind rights /\
      Z.land rights (required_rights (signature o)) = required_rights (signature o).

Definition effect_node (o : Opcode) : bool :=
  bool_decide (o = Op.EffectStart) || effectful (signature o).

(** [j] is the last effect node below [i]. *)
Definition last_effect (p : PythGraphPackage) (i j : Z) : Prop :=
  0 <= j < i /\ (exists o, op_at p j = Some o /\ effect_node o = true) /\
  forall k o, j < k < i -> op_at p k = Some o -> effect_node o = false.

Record node_ok (p : PythGraphPackage) (i : Z) (n : NodeRecord) (o : Opcode) (t : PythType)
  : Prop := {
  no_signature : o <> Op.Jump -> o <> Op.HostResult -> signature_ok p i n o t;
  no_capability : t = Ty.Capability -> o = Op.BlockParam \/ o = Op.HostResult;
  no_param : o = Op.BlockParam -> t = Ty.Capability -> import_param_ok p n;
  no_host_result : o = Op.HostResult -> host_result_ok p i n t;
  no_authority : effectful (signature o) = true -> authorized p n o;
  no_start : o = Op.EffectStart -> forall j, 0 <= j < i -> op_at p j <> Some Op.EffectStart;
  no_effect : effectful (signature o) = true -> last_effect p i (n_input0 n) }.

Definition nodes_ok (p : PythGraphPackage) : Prop :=
  forall i n o t, get (nodes p) i = Some n -> op_at p i = Some o -> ty_at p i = Some t ->
    node_ok p i n o t.

Lemma signature_count o : 0 <= input_count (signature o) <= 4 /\ len (inputs (signature o)) = 4.
Proof. destruct o; vm_compute; by repeat split. Qed.

(** No declared input has type [Unit], the filler of the verifier's array. *)
Lemma signature_inputs o k e :
  0 <= k < input_count (signature o) -> get (inputs (signature o)) k = Some e -> e <> Ty.Unit.
Proof.
  intros Hk. pose proof (signature_count o).
  assert (k = 0 \/ k = 1 \/ k = 2 \/ k = 3) as Hk4 by lia.
  destruct o, Hk4 as [->|[->|[->| ->]]];
    first [exfalso; vm_compute in Hk; by destruct Hk | vm_compute; naive_solver].
Qed.

(** Only object creation and query return a capability. *)
Lemma capability_field o field :
  host_result_field_type o field = Some Ty.Capability ->
  (o = Op.ObjectCreate \/ o = Op.ObjectQuery) /\ field = HOST_RESULT_CAPABILITY.
Proof.
  unfold host_result_field_type. intros H.
  destruct o; try discriminate H;
    repeat match type of H with
    | (if ?x =? ?y then _ else _) = _ => destruct (Z.eqb_spec x y); try discriminate H
    end; auto.
Qed.

(** ** The passes of [verify_semantics] *)

Ltac clean_bools :=
  repeat match goal with
  | H : (_ || _) = false |- _ => apply orb_false_iff in H as [? ?]
  | H : (_ && _) = true |- _ => apply andb_true_iff in H as [? ?]
  | H : negb _ = false |- _ => apply negb_false_iff in H
  | H : negb _ = true |- _ => apply negb_true_iff in H
  | H : bool_decide _ = true |- _ => apply bool_decide_eq_true in H
  | H : bool_decide _ = false |- _ => apply bool_decide_eq_false in H
  | H : (_ =? _) = true |- _ => apply Z.eqb_eq in H
  | H : (_ =? _) = false |- _ => apply Z.eqb_neq in H
  end.

Section semantics.
Context (p : PythGraphPackage) (Hd : decoded p) (Hk : known p)
        (Hbound : forall i n k input, get (nodes p) i = Some n -> get (node_inputs n) k = Some input ->
           input <> NO_VALUE -> 0 <= input < len (nodes p)).

(** The array of result types after [k] nodes. *)
Definition types_upto (k : Z) (types : list PythType) : Prop :=
  len types = 1024 /\
  forall j t, get types j = Some t -> (j < k /\ ty_at p j = Some t) \/ (k <= j /\ t = Ty.Unit).

Definition origin_ok (j : Z) (origin : CapabilityOrigin) : Prop :=
  match origin with
  | OriginNone => True
  | OriginImport slot => exists n, get (nodes p) j = Some n /\ op_at p j = Some Op.BlockParam /\
      n_auxiliary0 n = slot
  | OriginHostResult kind rights => granted p j kind rights
  end.

Definition origins_ok (origins : list CapabilityOrigin) : Prop :=
  len origins = 1024 /\ forall j origin, get origins j = Some origin -> origin_ok j origin.

Lemma origins_ok_insert origins i origin :
  origins_ok origins -> 0 <= i < 1024 -> origin_ok i origin ->
  origins_ok (<[Z.to_nat i := origin]> origins).
Proof.
  intros [Hl Ho] Hi Hn. split; [by rewrite len_insert|]. intros j o'.
  destruct (decide (i = j)) as [<-|]; [rewrite get_insert_eq by lia; naive_solver|].
  rewrite get_insert_ne by lia. apply Ho.
Qed.

Section node.
Context (i : Z) (n : NodeRecord) (o : Opcode) (t : PythType)
        (Hn : get (nodes p) i = Some n) (Ho : op_at p i = Some o) (Hty : ty_at p i = Some t).

Lemma node_index_bound : 0 <= i < len (nodes p) /\ len (nodes p) <= 1024.
Proof. pose proof (nodes_bound p Hd). apply get_Some in Hn. lia. Qed.

Lemma node_known_opcode : opcode_try_from (n_opcode n) = Some o.
Proof. unfold op_at in Ho. by rewrite Hn in Ho. Qed.

Lemma node_known_type : type_try_from (n_result_type n) = Some t.
Proof. unfold ty_at in Hty. by rewrite Hn in Hty. Qed.

Lemma check_declared_input_post types k input :
  types_upto (i + 1) types -> 0 <= k < input_count (signature o) ->
  get (node_inputs n) k = Some input ->
  post (check_declared_input p i (signature o) types (k, input)) (fun _ =>
    exists e, get (inputs (signature o)) k = Some e /\ input_typed p i input e).
Proof.
  intros [Hl Htypes] Hkr Hin. pose proof (signature_count o) as [? Hsl].
  pose proof node_index_bound. unfold check_declared_input.
  wp_step. apply wp_index; [lia|]. intros e He. wp_step.
  destruct (Z.eqb_spec input NO_VALUE) as [?|Hne]; [done|].
  wp_step. wp_step. wp_step. destruct (Hbound i n k input) as [? ?]; [done..|].
  wp_step. apply wp_index; [lia|]. intros a Ha. wp_step. clean_bools. subst a.
  exists e. split; [done|]. destruct (Htypes _ _ Ha) as [[? ?]|[_ ->]].
  - split_and!; (done || lia).
  - exfalso. by eapply signature_inputs.
Qed.

Lemma verify_opcode_signature_post types :
  types_upto (i + 1) types ->
  post (verify_opcode_signature p i n types) (fun _ => signature_ok p i n o t).
Proof.
  intros Htypes. pose proof (signature_count o) as [Hc Hsl]. pose proof node_index_bound.
  unfold verify_opcode_signature, known_opcode. rewrite node_known_opcode. wp_step. wp_step.
  wp_step. apply wp_index; [destruct Htypes; lia|]. intros t' Ht'. wp_step. wp_step.
  assert (t' = t) as ->.
  { destruct (proj2 Htypes _ _ Ht') as [[_ ?]|[? _]]; [congruence|lia]. }
  wp_step. wp_use (post_forM _ _ (fun '(k, input) => exists e,
    get (inputs (signature o)) k = Some e /\ input_typed p i input e)) as _ Hdecl.
  { intros [k input] [Hin Hlt]%lookup_take_enumerate. apply check_declared_input_post; [done|lia|done]. }
  wp_use (post_forM _ _ (fun '(k, input) => input = NO_VALUE)) as _ Hrest.
  { intros [k input] _. wp_step. clean_bools. done. }
  split; [by clean_bools|]. intros k input Hin. destruct (k <? input_count (signature o)) eqn:Hlt.
  - apply (Hdecl (k, input)), lookup_take_enumerate. split; [done|].
    apply get_Some in Hin. lia.
  - apply (Hrest (k, input)). apply list_elem_of_lookup. apply get_Some in Hin as [Hk0 Hin].
    exists (Z.to_nat k - Z.to_nat (input_count (signature o)))%nat.
    rewrite lookup_drop. apply lookup_enumerate.
    replace (Z.to_nat (input_count (signature o)) +
      (Z.to_nat k - Z.to_nat (input_count (signature o))))%nat with (Z.to_nat k) by lia.
    split; [lia|done].
Qed.

Lemma verify_import_block_param_post :
  post (verify_import_block_param p i n) (fun slot =>
    slot = n_auxiliary0 n /\ import_param_ok p n).
Proof.
  unfold verify_import_block_param. wp_step. wp_step. wp_step. apply wp_ok_or; [|done].
  intros slot [-> Hu]%checked_Some. wp_step. apply wp_ok_or; [|done]. intros imp Himp.
  wp_step. wp_step. wp_step. clean_bools. split; [done|]. split_and!; [done..|]. eauto.
Qed.

Lemma verify_host_result_post :
  post (verify_host_result p i n t) (fun schema =>
    host_result_ok p i n t /\
    schema_capability_origin schema =
      (if bool_decide (t = Ty.Capability)
       then Some (OriginHostResult RESOURCE_OBJECT (Z.lor RIGHTS_READ RIGHTS_REVISE)) else None)).
Proof.
  unfold verify_host_result. wp_step. wp_step. clean_bools.
  match goal with H : host_result_is_in_contiguous_projection_run _ _ _ = true |- _ =>
    rename H into Hrun end.
  wp_step. apply wp_ok_or; [|done]. intros m Hm. wp_step. apply wp_ok_or; [|done]. intros po Hpo.
  wp_step. wp_step. wp_step. apply wp_ok_or; [|done]. intros schema Hschema.
  wp_step. wp_step. wp_step. clean_bools.
  unfold host_result_field_schema in Hschema.
  destruct (host_result_field_type po (n_auxiliary0 n)) as [ft|] eqn:Hft; simplify_eq/=.
  unfold host_result_is_in_contiguous_projection_run in Hrun.
  destruct (Z.leb_spec i (n_input0 n)); [done|].
  destruct (checked 32 (n_input0 n)) as [r|] eqn:Hc; [|done]. apply checked_Some in Hc as [-> Hu].
  split; [|done]. constructor.
  - unfold uint in Hu. lia.
  - intros j m' Hj Hm'. rewrite forallb_forall in Hrun. specialize (Hrun j).
    rewrite <- list_elem_of_In, elem_of_range, Hm' in Hrun.
    specialize (Hrun ltac:(lia)). clean_bools. split; [|done]. unfold op_at. by rewrite Hm'.
  - exists po. split; [|done]. unfold op_at. by rewrite Hm.
Qed.

Lemma verify_host_import_post types origins :
  types_upto (i + 1) types -> origins_ok origins ->
  effectful (signature o) = true -> signature_ok p i n o t ->
  post (verify_host_import p (as_u32 i) n o types origins) (fun _ => authorized p n o).
Proof.
  intros [Htl Htypes] [Hol Horigins] Heff [_ Hsig]. unfold verify_host_import, authorized.
  destruct (required_resource_kind (signature o)) as [rk|] eqn:Hrk; [|by wp_step].
  assert (1 < input_count (signature o)) as Hc by (by destruct o).
  specialize (Hsig 1 (n_input1 n) eq_refl).
  destruct (Z.ltb_spec 1 (input_count (signature o))); [|lia].
  destruct Hsig as (e & _ & _ & Hir & Hlt & Hte). pose proof node_index_bound.
  wp_step. apply wp_index; [lia|]. intros a Ha. wp_step. wp_step.
  wp_step. apply wp_index; [lia|]. intros origin Horigin. clean_bools.
  specialize (Horigins _ _ Horigin). destruct origin as [|slot|kind rights]; simpl in Horigins.
  - done.
  - destruct Horigins as (m & Hm & Hmo & <-). wp_step. apply wp_ok_or; [|done]. intros imp Himp.
    wp_step. wp_step. wp_step. clean_bools. intros ? [= <-]. exists (i_rights imp).
    split; [by eapply granted_import|done].
  - wp_step. clean_bools. intros ? [= <-]. exists rights. split; [congruence|done].
Qed.

Lemma verify_capability_inputs_safe types origins :
  len types = 1024 -> len origins = 1024 ->
  post (verify_capability_inputs i n types origins) (fun _ => True).
Proof.
  intros Htl Hol. unfold verify_capability_inputs. pose proof node_index_bound.
  wp_use (post_forM _ _ (fun _ => True)) as _ _; [|done].
  intros [k input] Hin%elem_of_enumerate.
  destruct (Z.eqb_spec input NO_VALUE) as [?|Hne]; [by wp_step|].
  destruct (Hbound i n k input) as [? ?]; [done..|].
  wp_step. apply wp_index; [lia|]. intros a Ha. case_bool_decide; [|by wp_step].
  wp_step. apply wp_index; [lia|]. intros origin _. by wp_step.
Qed.
End node.

(** What the opcode-specific part establishes of the node. *)
Definition origin_facts (i : Z) (n : NodeRecord) (o : Opcode) (t : PythType) : Prop :=
  (o <> Op.Jump -> o <> Op.HostResult -> signature_ok p i n o t) /\
  (o = Op.BlockParam -> t = Ty.Capability -> import_param_ok p n) /\
  (o = Op.HostResult -> host_result_ok p i n t).

Lemma verify_node_origin_post i n o t types origins :
  get (nodes p) i = Some n -> op_at p i = Some o -> ty_at p i = Some t ->
  types_upto (i + 1) types -> origins_ok origins ->
  post (verify_node_origin p i n o t types origins) (fun origins' =>
    origins_ok origins' /\ origin_facts i n o t).
Proof.
  intros Hn Ho Hty Htypes Horigins. pose proof (node_index_bound i n Hn) as Hi. unfold verify_node_origin, origin_facts.
  destruct (decide (o = Op.BlockParam)) as [->|Hbp].
  { wp_step. wp_use verify_opcode_signature_post as _ Hsig; [done..|].
    case_bool_decide as Hcap; [|wp_step; naive_solver].
    wp_step. wp_use verify_import_block_param_post as slot [-> Hip].
    apply wp_index_set; [destruct Horigins; lia|]. split; [|naive_solver].
    apply origins_ok_insert; [done|lia|]. by exists n. }
  destruct (decide (o = Op.HostResult)) as [->|Hhr].
  { wp_step. wp_use verify_host_result_post as schema [Hhro Horg]; [done..|].
    rewrite Horg. case_bool_decide as Hcap; [|wp_step; naive_solver].
    simpl. apply wp_index_set; [destruct Horigins; lia|]. split; [|naive_solver].
    apply origins_ok_insert; [done|lia|]. destruct Hhro as [_ _ (po & Hpo & _ & Hft)].
    subst t. apply capability_field in Hft as [? ?]. by eapply granted_result. }
  assert (origins_ok origins /\ (signature_ok p i n o t -> origin_facts i n o t)) as [_ Hfacts].
  { split; [done|]. unfold origin_facts. naive_solver. }
  destruct o; try done;
    try (wp_step; wp_use verify_opcode_signature_post as _ Hsig; [done..|]; wp_step; by split; [|auto]).
Qed.

(** The effect bookkeeping after [k] nodes. *)
Definition effects_upto (k : Z) (st : SemState) : Prop :=
  len (effect_consumers st) = 1024 /\
  (effect_start st = None -> forall j, 0 <= j < k -> op_at p j <> Some Op.EffectStart) /\
  (current_effect st <> NO_VALUE -> last_effect p k (current_effect st)).

Lemma last_effect_here i o :
  0 <= i -> op_at p i = Some o -> effect_node o = true -> last_effect p (i + 1) i.
Proof.
  intros Hi Ho He. split; [lia|]. split; [by exists o|]. lia.
Qed.

Lemma last_effect_skip i o j :
  op_at p i = Some o -> effect_node o = false -> last_effect p i j -> last_effect p (i + 1) j.
Proof.
  intros Ho He (Hj & Hex & Hno). split; [lia|]. split; [done|]. intros k o' Hk' Hko.
  destruct (decide (k = i)) as [->|]; [congruence|]. apply (Hno k); [lia|done].
Qed.

Lemma verify_node_effect_post i n o t st :
  get (nodes p) i = Some n -> op_at p i = Some o -> ty_at p i = Some t ->
  types_upto (i + 1) (result_types st) -> origins_ok (capability_origins st) ->
  effects_upto i st -> origin_facts i n o t ->
  post (verify_node_effect p i n o t st) (fun st' =>
    result_types st' = result_types st /\ capability_origins st' = capability_origins st /\
    effects_upto (i + 1) st' /\
    (effectful (signature o) = true -> authorized p n o /\ last_effect p i (n_input0 n)) /\
    (o = Op.EffectStart -> forall j, 0 <= j < i -> op_at p j <> Some Op.EffectStart)).
Proof.
  intros Hn Ho Hty Htypes Horigins (Hel & Hes & Hce) (Hsig & _).
  pose proof (node_index_bound i n Hn) as Hi.
  assert (as_u32 i = i) as Hu32 by (unfold as_u32; apply wrap_small; unfold uint; lia).
  unfold verify_node_effect. case_bool_decide as Hstart.
  - wp_step. wp_step. clean_bools. wp_step. rewrite Hu32. split; [done|]. split; [done|]. split.
    + split; [done|]. split; [done|]. intros _. apply (last_effect_here i o); [lia|done|]. by rewrite Hstart.
    + split; [by subst o|]. intros _. apply Hes. by apply eq_None_not_Some.
  - destruct (effectful (signature o)) eqn:Heff.
    + assert (0 < input_count (signature o)) as Hc by (by destruct o).
      assert (o <> Op.Jump /\ o <> Op.HostResult) as [Hj Hh] by (by destruct o).
      specialize (Hsig Hj Hh). assert (Hsig' := Hsig). destruct Hsig' as [_ Hin].
      specialize (Hin 0 (n_input0 n) eq_refl).
      destruct (Z.ltb_spec 0 (input_count (signature o))); [|lia].
      destruct Hin as (e & _ & Hne & Hir & Hlt & _).
      wp_step. wp_step. wp_step. apply wp_index; [lia|]. intros old _.
      wp_step. apply wp_index_set; [lia|]. wp_step.
      apply wp_index; [rewrite len_insert; lia|]. intros count _. wp_step. wp_step.
      wp_step. wp_step. clean_bools.
      wp_step. wp_use verify_host_import_post as _ Hauth; [done..|].
      wp_step. rewrite Hu32. split; [done|]. split; [done|]. split.
      * split; [cbn; by rewrite len_insert|]. split.
        { intros Hn0 j Hj'. destruct (decide (j = i)) as [->|]; [congruence|]. apply Hes; [done|lia]. }
        intros _. apply (last_effect_here i o); [lia|done|]. unfold effect_node. by rewrite Heff, orb_true_r.
      * split; [|done]. intros _. split; [done|].
        match goal with H : n_input0 n = _ |- _ => rewrite H in *; by apply Hce end.
    + wp_step. split; [done|]. split; [done|]. split; [|done]. split; [done|]. split.
      * intros Hn0 j Hj'. destruct (decide (j = i)) as [->|]; [congruence|]. apply Hes; [done|lia].
      * intros Hne. apply (last_effect_skip i o); [done| |by apply Hce]. unfold effect_node.
        by rewrite Heff, orb_false_r, bool_decide_eq_false.
Qed.

(** The loop invariant of [verify_semantics]. *)
Definition sem_upto (k : nat) (st : SemState) : Prop :=
  types_upto (Z.of_nat k) (result_types st) /\ origins_ok (capability_origins st) /\
  effects_upto (Z.of_nat k) st /\
  forall i n o t, i < Z.of_nat k -> get (nodes p) i = Some n -> op_at p i = Some o ->
    ty_at p i = Some t -> node_ok p i n o t.

Lemma verify_node_semantics_post (k : nat) n st :
  nodes p !! k = Some n -> sem_upto k st ->
  post (verify_node_semantics p st (Z.of_nat k, n)) (sem_upto (S k)).
Proof.
  rewrite <- get_of_nat. intros Hn ([Htl Htypes] & Horigins & Heffects & Hprev).
  assert (Z.of_nat (S k) = Z.of_nat k + 1) as HS by lia. unfold sem_upto. rewrite HS. clear HS.
  set (i := Z.of_nat k) in *. pose proof (node_index_bound i n Hn) as Hi. unfold verify_node_semantics.
  wp_step. apply (wp_known_opcode p i); [done..|]. intros o Ho.
  wp_step. apply (wp_known_type p i); [done..|]. intros t Hty.
  wp_step. apply wp_index_set; [lia|]. wp_step. wp_step.
  assert (types_upto (i + 1) (<[Z.to_nat i:=t]> (result_types st))) as Htypes'.
  { split; [by rewrite len_insert|]. intros j t'. destruct (decide (i = j)) as [<-|].
    - rewrite get_insert_eq by lia. intros [= <-]. left. split; [lia|done].
    - rewrite get_insert_ne by lia. intros [[? ?]|[? ?]]%Htypes; [left|right]; (split; [lia|done]). }
  wp_step. wp_use (verify_node_origin_post i n o t) as origins' [Horigins' Hfacts]; [done..|].
  wp_step. wp_use (verify_node_effect_post i n o t) as st' (Hrt & Hco & Heffects' & Heff & Hst);
    [done..|].
  wp_step. wp_use (verify_capability_inputs_safe i n Hn) as _ _.
  { rewrite Hrt. by apply Htypes'. }
  { rewrite Hco. by apply Horigins'. }
  wp_step. rewrite Hrt, Hco. split; [done|]. split; [done|]. split; [done|].
  intros j m o' t' Hj Hm Ho' Ht'. destruct (decide (j = i)) as [->|].
  - simplify_eq. destruct Hfacts as (Hsig & Hpar & Hres). constructor;
      [done| |done|done|by intros [? _]%Heff|done|by intros [_ ?]%Heff].
    intros ->. destruct (decide (o = Op.BlockParam)); [by left|].
    destruct (decide (o = Op.HostResult)); [by right|]. exfalso.
    match goal with H : bool_decide _ && _ = false |- _ => revert H end.
    rewrite !bool_decide_eq_true_2, !bool_decide_eq_false_2 by done. done.
  - apply Hprev; [lia|done..].
Qed.

Lemma verify_semantics_post : post (verify_semantics p) (fun _ => nodes_ok p).
Proof.
  unfold verify_semantics. wp_step.
  wp_use (wp_foldM_enumerate _ _ sem_upto) as st (_ & _ & _ & Hall).
  - split.
    + split; [done|]. intros j t [-> [? ?]]%get_replicate. right. split; [lia|done].
    + split.
      * split; [done|]. intros j origin [-> _]%get_replicate. done.
      * split; [|intros i n o t ? Hn; apply get_Some in Hn; lia].
        split; [done|]. split; [intros _ j ?; lia|done].
  - intros k n st Hn Hst. by apply verify_node_semantics_post.
  - wp_step. intros i n o t Hn. apply Hall; [|done]. apply get_Some in Hn. unfold len in Hn. lia.
Qed.
End semantics.
