(* ===== verification/TigVerified.v ===== *)
(** * Verified packages

    [verified p] collects what an accepted package satisfies. The main result
    of this file is that [verify_bytes] returns on every byte string (it
    neither panics nor loops) and that what it accepts is [verified]. *)

From stdpp Require Import base numbers list sets.
From Stdlib Require Import Strings.Byte.
From S2P Require Import Prelude TigTypes TigFormat TigFormatFacts Utf8 TigVerify Bitset TigStructure TigDominators TigTyping.

(** ** Referenced ranges *)

Definition reference_ok (p : PythGraphPackage) (o : Opcode) (n : NodeRecord) : Prop :=
  match o with
  | Op.ConstBytes =>
      is_Some (referenced_bytes (constant_pool p) (n_auxiliary0 n) (n_auxiliary1 n))
  | Op.ConstUtf8 =>
      exists text, referenced_bytes (string_table p) (n_auxiliary0 n) (n_auxiliary1 n) = Some text /\
        from_utf8 text = true
  | _ => True
  end.

Definition import_name_ok (p : PythGraphPackage) (imp : CapabilityImportRecord) : Prop :=
  exists name, referenced_bytes (string_table p) (i_name_offset imp) (i_name_len imp) = Some name /\
    from_utf8 name = true.

Definition references_ok (p : PythGraphPackage) : Prop :=
  (forall imp, imp ∈ imports p -> import_name_ok p imp) /\
  (forall i n o, get (nodes p) i = Some n -> op_at p i = Some o -> reference_ok p o n).

(** ** Canonical encoding *)

Record canonical (p : PythGraphPackage) : Prop := {
  can_types : forall ty, ty ∈ types p -> t_flags ty = 0 /\ t_auxiliary ty = 0;
  can_blocks : forall b blk, get (blocks p) b = Some blk ->
    b_flags blk = 0 /\ b_parameter_count blk <= 4;
  can_first : forall blk, get (blocks p) 0 = Some blk -> b_first_node blk = 0;
  can_next : forall b blk blk', get (blocks p) b = Some blk -> get (blocks p) (b + 1) = Some blk' ->
    b_first_node blk' = b_end blk;
  can_nodes : forall i n o, get (nodes p) i = Some n -> op_at p i = Some o ->
    n_flags n = 0 /\ node_fields_are_canonical o n = true;
  can_imports : forall k imp, get (imports p) k = Some imp ->
    i_import_slot imp = k /\ is_Some (type_try_from (i_expected_type imp)) /\
    1 <= i_resource_kind imp <= 6 /\ Z.ldiff (i_rights imp) 0x007F = 0 }.

Section passes.
Context (p : PythGraphPackage) (Hd : decoded p) (Hk : known p).

Lemma node_opcode n o i : get (nodes p) i = Some n -> op_at p i = Some o ->
  opcode_try_from (n_opcode n) = Some o.
Proof. intros Hn. unfold op_at. by rewrite Hn. Qed.

Lemma verify_node_reference_post i n o :
  get (nodes p) i = Some n -> op_at p i = Some o ->
  post (verify_node_reference p n) (fun _ => reference_ok p o n).
Proof.
  intros Hn Ho. unfold verify_node_reference, known_opcode. rewrite (node_opcode n o i Hn Ho).
  wp_step. wp_step. destruct o; try by wp_step.
  - wp_step. wp_step. wp_step. by eexists.
  - wp_step. wp_step. wp_step. clean_bools. eexists. done.
Qed.

Lemma verify_referenced_ranges_post : post (verify_referenced_ranges p) (fun _ => references_ok p).
Proof.
  unfold verify_referenced_ranges. wp_step.
  wp_use (post_forM _ _ (import_name_ok p)) as _ Hnames.
  { intros imp _. unfold verify_import_name. wp_step. wp_step. wp_step. clean_bools. by eexists. }
  wp_use (post_forM _ _ (fun n => forall i o, get (nodes p) i = Some n -> op_at p i = Some o ->
    reference_ok p o n)) as _ Hnodes.
  { intros n [i Hn]%elem_of_get. destruct (known_op_at p i Hk) as [o Ho].
    { apply get_Some in Hn. apply Hn. }
    wp_use (verify_node_reference_post i n o) as _ Href; [done..|].
    intros j o' Hj Ho'. apply (node_opcode _ _ _ Hn) in Ho. apply (node_opcode _ _ _ Hj) in Ho'.
    congruence. }
  split; [done|]. intros i n o Hn. apply Hnodes; [by eapply get_elem_of|done].
Qed.

(** The loop over the blocks: its accumulator is the end of the last block. *)
Lemma canonical_blocks_post :
  post (foldM (fun expected_first_node block =>
      reject (negb (b_flags block =? 0) || negb (b_first_node block =? expected_first_node)
              || (4 <? b_parameter_count block)) NonCanonicalEncoding;;
      ok_or (checked_add 32 expected_first_node (b_node_count block)) NonCanonicalEncoding)
    0 (blocks p)) (fun _ => 
    (forall b blk, get (blocks p) b = Some blk -> b_flags blk = 0 /\ b_parameter_count blk <= 4) /\
    (forall blk, get (blocks p) 0 = Some blk -> b_first_node blk = 0) /\
    (forall b blk blk', get (blocks p) b = Some blk -> get (blocks p) (b + 1) = Some blk' ->
       b_first_node blk' = b_end blk)).
Proof.
  wp_use (wp_foldM_prefix _ _ (fun k expected =>
    (k = O -> expected = 0) /\
    (forall b blk, b + 1 = Z.of_nat k -> get (blocks p) b = Some blk -> expected = b_end blk) /\
    forall b blk, b < Z.of_nat k -> get (blocks p) b = Some blk ->
      b_flags blk = 0 /\ b_parameter_count blk <= 4 /\ (b = 0 -> b_first_node blk = 0) /\
      forall blk0, get (blocks p) (b - 1) = Some blk0 -> b_first_node blk = b_end blk0)) as e H.
  - split; [done|]. split; [intros b blk ? Hb; apply get_Some in Hb; lia|].
    intros b blk ? Hb. apply get_Some in Hb. lia.
  - intros k blk expected Hblk (H0 & He & Hall). rewrite <- get_of_nat in Hblk.
    wp_step. wp_step. clean_bools. wp_step.
    match goal with H : checked_add _ _ _ = Some _ |- _ => apply checked_Some in H as [-> _] end.
    split; [done|]. split.
    + intros b blk' Hb Hb'. replace b with (Z.of_nat k) in Hb' by lia. simplify_eq. unfold b_end. lia.
    + intros b blk' Hb Hb'. destruct (decide (b = Z.of_nat k)) as [->|]; [|apply Hall; [lia|done]].
      simplify_eq. split; [done|]. split; [lia|]. split.
      * intros Hz. rewrite <- H0 by lia. lia.
      * intros blk0 Hb0. rewrite <- (He (Z.of_nat k - 1) blk0); [lia..|done].
  - destruct H as (_ & _ & Hall). change (Z.of_nat (length (blocks p))) with (len (blocks p)) in Hall.
    assert (forall b blk, get (blocks p) b = Some blk -> b < len (blocks p)) as Hin.
    { intros b blk Hb. apply get_Some in Hb. lia. }
    split_and!.
    + intros b blk Hb. edestruct Hall as (? & ? & _); eauto.
    + intros blk Hb. edestruct Hall as (_ & _ & H & _); eauto.
    + intros b blk blk' Hb Hb'. edestruct Hall as (_ & _ & _ & H); [|exact Hb'|]; [eauto|].
      apply H. by replace (b + 1 - 1) with b by lia.
Qed.

Lemma verify_canonical_encoding_post :
  post (verify_canonical_encoding p) (fun _ => canonical p).
Proof.
  unfold verify_canonical_encoding. wp_step.
  wp_use (post_forM _ _ (fun ty => t_flags ty = 0 /\ t_auxiliary ty = 0)) as _ Htypes.
  { intros ty _. wp_step. clean_bools. done. }
  wp_step. wp_use canonical_blocks_post as e (Hblocks & Hfirst & Hnext).
  wp_step. wp_use (post_forM _ _ (fun n => forall o, opcode_try_from (n_opcode n) = Some o ->
    n_flags n = 0 /\ node_fields_are_canonical o n = true)) as _ Hnodes.
  { intros n Hn. destruct (known_opcodes p Hk n Hn) as [o Ho]. unfold known_opcode. rewrite Ho.
    wp_step. wp_step. wp_step. clean_bools. naive_solver. }
  wp_use (post_forM _ _ (fun '(k, imp) => i_import_slot imp = k /\
    is_Some (type_try_from (i_expected_type imp)) /\
    1 <= i_resource_kind imp <= 6 /\ Z.ldiff (i_rights imp) 0x007F = 0)) as _ Himports.
  { intros [k imp] _. wp_step. clean_bools. split_and!; [done..|lia|lia|done]. }
  constructor; [done|done|done|done|..].
  - intros i n o Hn Ho. apply Hnodes; [by eapply get_elem_of|]. by eapply node_opcode.
  - intros k imp Hk'. by apply (Himports (k, imp)), elem_of_enumerate.
Qed.
End passes.

(** ** The whole verifier *)

Record verified (p : PythGraphPackage) : Prop := {
  ver_decoded : decoded p;
  ver_known : known p;
  ver_blocks : blocks_ok p;
  ver_targets : targets_ok p;
  ver_arguments : arguments_ok p;
  ver_entry : 0 <= entry p < len (blocks p);
  ver_reachable : forall b, 0 <= b < len (blocks p) -> reachable p b;
  ver_available : inputs_available p;
  ver_nodes : nodes_ok p;
  ver_references : references_ok p;
  ver_canonical : canonical p }.

Lemma verify_reachable_blocks_post p :
  decoded p -> known p -> blocks_ok p -> targets_ok p ->
  post (verify_reachable_blocks p) (fun _ => 0 <= entry p < len (blocks p) /\
    forall b, 0 <= b < len (blocks p) -> reachable p b).
Proof.
  intros Hd Hk Hb Ht. pose proof (entry_uint p Hd) as He. unfold uint in He.
  destruct (decide (entry p < len (blocks p))) as [Hlt|Hge].
  - assert (0 <= entry p < len (blocks p)) as Hr by (unfold entry in *; lia).
    eapply wp_mono; [by apply verify_reachable_blocks_wp| |done]. done.
  - unfold verify_reachable_blocks. fold (entry p).
    replace (len (blocks p) <=? entry p) with true by lia. done.
Qed.

Lemma verify_package_post p :
  decoded p -> post (verify_package p) (fun g => graph_package g = p /\ verified p).
Proof.
  intros Hd. unfold verify_package. wp_step. wp_step.
  wp_step. wp_use verify_known_types_post as _ Hkt. wp_step. wp_use verify_known_opcodes_post as _ Hko.
  assert (known p) as Hk by done.
  wp_step. wp_use (verify_block_ranges_post p Hd Hk) as [[starts ends] nb]
    (Hbs & Hls & Hle & Hln & Harr & Hown).
  wp_step. wp_use (verify_control_flow_post p Hd Hk Hbs starts ends) as _ [Ht Ha]; [done..|].
  wp_step. wp_use verify_reachable_blocks_post as _ [He Hr]; [done..|].
  wp_step. wp_use (verify_value_availability_post p Hd Hk Hbs Ht He nb) as _ Hav; [done|].
  wp_step. wp_use (verify_semantics_post p Hd Hk) as _ Hno.
  { intros i n k input Hn Hin Hne. by eapply Hav. }
  wp_step. wp_use verify_referenced_ranges_post as _ Href; [done|].
  wp_step. wp_use verify_canonical_encoding_post as _ Hcan; [done|].
  wp_step. by split.
Qed.

Lemma verify_bytes_post bytes :
  post (verify_bytes bytes) (fun g =>
    decode bytes = Ok (graph_package g) /\ verified (graph_package g)).
Proof.
  unfold verify_bytes. wp_step. pose proof (decode_safe bytes) as Hdec.
  destruct (decode bytes) as [p|e| |] eqn:Heq; simpl in Hdec |- *; try done.
  destruct Hdec as [_ Hd]. wp_use verify_package_post as g [-> Hv]; [done|]. done.
Qed.

(** ** Consequences for accepted packages *)

Section consequences.
Context (p : PythGraphPackage) (Hv : verified p).

(** The block of a node, from either side of its range. *)
Lemma owner_by_end b blk i :
  get (blocks p) b = Some blk -> b_first_node blk <= i < b_end blk -> owns p b i.
Proof. intros. by exists blk. Qed.

(** A projection is in the block of its host call: nothing between them
    terminates a block. *)
Lemma projection_same_block b i n :
  get (nodes p) i = Some n -> op_at p i = Some Op.HostResult -> owns p b i -> owns p b (n_input0 n).
Proof.
  intros Hn Ho Hb. assert (0 <= i < len (nodes p)) as Hi by (apply get_Some in Hn; apply Hn).
  destruct (known_ty_at p i (ver_known p Hv) Hi) as [t Ht].
  pose proof (no_host_result _ _ _ _ _ (ver_nodes p Hv i n _ _ Hn Ho Ht) eq_refl) as
    [Hlt Hrun (po & Hpo & Heff & _)].
  destruct (bs_owner p (ver_blocks p Hv) (n_input0 n)) as (c & blk & Hc & Hr); [lia|].
  pose proof (bs_block p (ver_blocks p Hv) c blk Hc) as Hbo.
  destruct (decide (i < b_end blk)) as [Hin|Hout].
  - destruct Hb as (blk' & Hblk' & Hi').
    assert (b = c) as ->; [|by exists blk].
    rewrite <- (bo_index _ _ _ (bs_block p (ver_blocks p Hv) b blk' Hblk') i n Hi' Hn).
    by apply (bo_index _ _ _ Hbo i n); [lia|].
  - exfalso. pose proof (bo_last _ _ _ Hbo) as Hterm. unfold term_at in Hterm.
    destruct (decide (b_end blk - 1 = n_input0 n)) as [Heq|Hne].
    + rewrite Heq, Hpo in Hterm. destruct po; discriminate.
    + destruct (proj2 (get_is_Some (nodes p) (b_end blk - 1))) as [m Hm]; [lia|].
      destruct (Hrun (b_end blk - 1) m) as [Hop _]; [lia|done|]. by rewrite Hop in Hterm.
Qed.
End consequences.

(** ** Theorems *)

(** C7: verification is total. On every byte string [verify_bytes] returns (no
    [expect], index, shift or loop of the verifier fails), and a graph it
    accepts is the decoded input and satisfies every invariant of [verified]:
    known opcodes and types, a partition into blocks with one terminator each,
    valid targets, reachability, availability of inputs, typing, authority, the
    effect chain, readable references and canonical encoding. *)
Theorem verify_bytes_total (bytes : list byte) :
  match verify_bytes bytes with
  | Ok g => decode bytes = Ok (graph_package g) /\ verified (graph_package g)
  | Err _ => True
  | Panic | Diverge => False
  end.
Proof. exact (verify_bytes_post bytes). Qed.

(** the blocks of an accepted package partition its nodes: they follow each
    other without gaps from node 0, every node is in exactly one block and names
    it, and a node is a terminator iff it is the last of its block. *)
Theorem verified_blocks_partition (bytes : list byte) (g : VerifiedGraph) (i : Z) :
  verify_bytes bytes = Ok g -> 0 <= i < len (nodes (graph_package g)) ->
  exists b blk n, get (nodes (graph_package g)) i = Some n /\
    get (blocks (graph_package g)) b = Some blk /\
    b_first_node blk <= i < b_first_node blk + b_node_count blk /\ n_block_index n = b /\
    (forall c, owns (graph_package g) c i -> c = b) /\
    (term_at (graph_package g) i = true <-> i = b_first_node blk + b_node_count blk - 1).
Proof.
  intros Hver Hi. destruct (wp_value _ _ _ (verify_bytes_post bytes) g Hver) as [_ Hv].
  set (p := graph_package g) in *.
  destruct (bs_owner p (ver_blocks p Hv) i Hi) as (b & blk & Hb & Hr).
  destruct (proj2 (get_is_Some (nodes p) i) Hi) as [n Hn].
  pose proof (bs_block p (ver_blocks p Hv) b blk Hb) as Hbo.
  pose proof (bo_index _ _ _ Hbo i n Hr Hn) as Hidx.
  exists b, blk, n. split; [done|]. split; [done|]. split; [done|]. split; [done|]. split.
  - intros c (blk' & Hc & Hr').
    by rewrite <- (bo_index _ _ _ (bs_block p (ver_blocks p Hv) c blk' Hc) i n Hr' Hn).
  - fold (b_end blk). split.
    + intros Ht. destruct (decide (i = b_end blk - 1)); [done|].
      rewrite (bo_body _ _ _ Hbo i) in Ht by lia. done.
    + intros ->. apply Hbo.
Qed.

(** A terminator is the last node of its block. *)
Lemma terminator_last p i o n :
  verified p -> get (nodes p) i = Some n -> op_at p i = Some o -> is_terminator o = true ->
  exists b blk, get (blocks p) b = Some blk /\ i = b_end blk - 1.
Proof.
  intros Hv Hn Ho Hterm. apply get_Some in Hn as [Hi _]. destruct (bs_owner p (ver_blocks p Hv) i Hi) as (b & blk & Hb & Hr).
  exists b, blk. split; [done|]. pose proof (bs_block p (ver_blocks p Hv) b blk Hb) as Hbo.
  destruct (decide (i = b_end blk - 1)) as [|Hne]; [done|]. fold (b_end blk) in Hr.
  pose proof (bo_body _ _ _ Hbo i ltac:(lia)) as Hbody. unfold term_at in Hbody. rewrite Ho, Hterm in Hbody. discriminate Hbody.
Qed.

(** C31: typed inputs. In an accepted package every input of a node that is not
    empty is a node that is available there (earlier in the same block, or in a
    strictly dominating block). The inputs of a jump are as many as the
    parameters of its target block and have their types. A projection reads a
    field of an earlier host call, which has the type that the projection
    declares, and only projections of that call come in between. Every other
    node has inputs exactly where its signature declares them, each of the
    declared type and no later than the node; its other inputs are empty. *)
Theorem verified_inputs_typed (bytes : list byte) (g : VerifiedGraph) (i : Z) (n : NodeRecord) (o : Opcode) :
  verify_bytes bytes = Ok g ->
  get (nodes (graph_package g)) i = Some n -> op_at (graph_package g) i = Some o ->
  (forall k input, get (node_inputs n) k = Some input -> input <> NO_VALUE ->
     0 <= input < len (nodes (graph_package g)) /\ available (graph_package g) i input) /\
  match o with
  | Op.Jump => jump_args_ok (graph_package g) n (n_auxiliary0 n)
  | Op.HostResult => exists t, ty_at (graph_package g) i = Some t /\ host_result_ok (graph_package g) i n t
  | _ => forall k input, get (node_inputs n) k = Some input ->
      if k <? input_count (signature o)
      then exists e, get (inputs (signature o)) k = Some e /\ ty_at (graph_package g) input = Some e /\ 0 <= input <= i
      else input = NO_VALUE
  end.
Proof.
  intros Hver Hn Ho. destruct (wp_value _ _ _ (verify_bytes_post bytes) g Hver) as [_ Hv]. set (p := graph_package g) in *.
  split; [intros k input; by apply (ver_available _ Hv i n k input)|].
  destruct (known_ty_at _ i (ver_known _ Hv)) as [t Ht]; [apply get_is_Some; by rewrite Hn|].
  pose proof (ver_nodes _ Hv i n o t Hn Ho Ht) as Hok.
  assert (o <> Op.Jump -> o <> Op.HostResult -> forall k input, get (node_inputs n) k = Some input ->
    if k <? input_count (signature o)
    then exists e, get (inputs (signature o)) k = Some e /\ ty_at p input = Some e /\ 0 <= input <= i
    else input = NO_VALUE) as Hsig.
  { intros Hj Hh k input Hin. destruct (no_signature _ _ _ _ _ Hok Hj Hh) as [_ Hsig]. specialize (Hsig k input Hin).
    destruct (k <? input_count (signature o)); [|done]. destruct Hsig as (e & He & Hne & Hr & _ & Hte). exists e. split_and!; try done; lia. }
  destruct o; try (apply Hsig; discriminate).
  - exists t. split; [exact Ht|]. by apply (no_host_result _ _ _ _ _ Hok).
  - destruct (terminator_last p i _ n Hv Hn Ho eq_refl) as (b & blk & Hb & ->).
    pose proof (ver_arguments _ Hv b blk n Hb Hn) as Ha. by rewrite (node_opcode _ n _ _ Hn Ho) in Ha.
Qed.

(** static authority. Every host call of an accepted package takes its
    capability from an import record, or from the capability field of an object
    creation or query, whose declared resource kind is the one the opcode
    requires and whose rights include the required ones. *)
Theorem verified_calls_authorized (bytes : list byte) (g : VerifiedGraph) (i : Z)
    (n : NodeRecord) (o : Opcode) :
  verify_bytes bytes = Ok g ->
  get (nodes (graph_package g)) i = Some n -> op_at (graph_package g) i = Some o ->
  effectful (signature o) = true ->
  exists kind rights, required_resource_kind (signature o) = Some kind /\
    granted (graph_package g) (n_input1 n) kind rights /\
    Z.land rights (required_rights (signature o)) = required_rights (signature o).
Proof.
  intros Hver Hn Ho Heff. destruct (wp_value _ _ _ (verify_bytes_post bytes) g Hver) as [_ Hv].
  destruct (known_ty_at _ i (ver_known _ Hv)) as [t Ht]; [apply get_is_Some; by rewrite Hn|].
  pose proof (no_authority _ _ _ _ _ (ver_nodes _ Hv i n o t Hn Ho Ht) Heff) as Hauth.
  assert (exists kind, required_resource_kind (signature o) = Some kind) as [kind Hkind].
  { destruct o; try discriminate Heff; by eexists. }
  destruct (Hauth kind Hkind) as (rights & ? & ?). by exists kind, rights.
Qed.

(** the effect chain. In an accepted package the host calls form one chain
    in node order: each consumes the effect of the last effect node before it
    (no effect is skipped or used twice), and there is at most one
    [EffectStart]. *)
Theorem verified_effect_chain (bytes : list byte) (g : VerifiedGraph) (i : Z)
    (n : NodeRecord) (o : Opcode) :
  verify_bytes bytes = Ok g ->
  get (nodes (graph_package g)) i = Some n -> op_at (graph_package g) i = Some o ->
  effect_node o = true ->
  (o = Op.EffectStart /\ forall j, 0 <= j < i -> op_at (graph_package g) j <> Some Op.EffectStart) \/
  last_effect (graph_package g) i (n_input0 n).
Proof.
  intros Hver Hn Ho He. destruct (wp_value _ _ _ (verify_bytes_post bytes) g Hver) as [_ Hv].
  destruct (known_ty_at _ i (ver_known _ Hv)) as [t Ht]; [apply get_is_Some; by rewrite Hn|].
  pose proof (ver_nodes _ Hv i n o t Hn Ho Ht) as Hok.
  unfold effect_node in He. apply orb_true_iff in He as [He|He].
  - apply bool_decide_eq_true in He. left. split; [done|]. by apply (no_start _ _ _ _ _ Hok).
  - right. by apply (no_effect _ _ _ _ _ Hok).
Qed.

(** projections stay with their host call. In an accepted package a
    [HostResult] node follows its host call in the same block, with only
    projections of the same call in between, and the projected field exists for
    that call with the declared type. *)
Theorem verified_projections (bytes : list byte) (g : VerifiedGraph) (i : Z) (n : NodeRecord) :
  verify_bytes bytes = Ok g ->
  get (nodes (graph_package g)) i = Some n -> op_at (graph_package g) i = Some Op.HostResult ->
  0 <= n_input0 n < i /\
  (forall b, owns (graph_package g) b i -> owns (graph_package g) b (n_input0 n)) /\
  (forall j m, n_input0 n < j < i -> get (nodes (graph_package g)) j = Some m ->
     op_at (graph_package g) j = Some Op.HostResult /\ n_input0 m = n_input0 n) /\
  exists o, op_at (graph_package g) (n_input0 n) = Some o /\ effectful (signature o) = true /\
    host_result_field_type o (n_auxiliary0 n) = ty_at (graph_package g) i.
Proof.
  intros Hver Hn Ho. destruct (wp_value _ _ _ (verify_bytes_post bytes) g Hver) as [_ Hv].
  destruct (known_ty_at _ i (ver_known _ Hv)) as [t Ht]; [apply get_is_Some; by rewrite Hn|].
  pose proof (no_host_result _ _ _ _ _ (ver_nodes _ Hv i n _ t Hn Ho Ht) eq_refl) as [Hlt Hrun Hprod].
  split; [done|]. split; [intros b; by apply projection_same_block|]. split; [done|]. by rewrite Ht.
Qed.

(** ** Graph algorithms *)

(** The passes that run before the reachability check. *)
Definition structure_passed (bytes : list byte) (p : PythGraphPackage) : Prop :=
  decode bytes = Ok p /\ verify_known_types p = Ok tt /\ verify_known_opcodes p = Ok tt /\
  exists starts ends nb,
    verify_block_ranges p (replicate (Z.to_nat MAX_BLOCKS) 0) (replicate (Z.to_nat MAX_BLOCKS) 0)
      (replicate (Z.to_nat MAX_GRAPH_NODES) usize_max) = Ok (starts, ends, nb) /\
    verify_control_flow p starts ends = Ok tt.

Lemma structure_passed_facts bytes p :
  structure_passed bytes p -> decoded p /\ known p /\ blocks_ok p /\ targets_ok p.
Proof.
  intros (Hdec & Hkt & Hko & starts & ends & nb & Hbr & Hcf).
  destruct (wp_value _ _ _ (decode_safe bytes) p Hdec) as [_ Hd].
  assert (known p) as Hk.
  { constructor; [exact (wp_value _ _ _ (verify_known_types_post p) tt Hkt)
                 |exact (wp_value _ _ _ (verify_known_opcodes_post p) tt Hko)]. }
  destruct (wp_value _ _ _ (verify_block_ranges_post p Hd Hk) _ Hbr) as (Hbs & Hls & Hle & _ & Harr & _).
  destruct (wp_value _ _ _ (verify_control_flow_post p Hd Hk Hbs starts ends Hls Hle Harr) _ Hcf)
    as [Ht _]. done.
Qed.

(** the reachability pass decides reachability. After the structural
    passes, [verify_reachable_blocks] returns, and it accepts exactly when the
    entry block exists and every block can be reached from it along the control
    edges. *)
Theorem reachability_exact (bytes : list byte) (p : PythGraphPackage) :
  structure_passed bytes p ->
  (verify_reachable_blocks p = Ok tt <->
     0 <= entry p < len (blocks p) /\ forall b, 0 <= b < len (blocks p) -> reachable p b) /\
  (verify_reachable_blocks p = Ok tt \/ exists e, verify_reachable_blocks p = Err e).
Proof.
  intros Hsp. destruct (structure_passed_facts bytes p Hsp) as (Hd & Hk & Hbs & Ht).
  pose proof (verify_reachable_blocks_post p Hd Hk Hbs Ht) as Hpost.
  split; [split|].
  - intros Hok. by rewrite Hok in Hpost.
  - intros [He Hall]. pose proof (verify_reachable_blocks_wp p Hd Hk Hbs Ht He) as Hw.
    destruct (verify_reachable_blocks p) as [[]|e| |]; [done| |done|done].
    destruct Hw as (b & Hb & Hn). by destruct (Hn (Hall b Hb)).
  - destruct (verify_reachable_blocks p) as [[]|e| |]; [by left|by right; eexists|done|done].
Qed.

(** C8: the dominator iteration computes dominance. After the structural passes
    and with the entry in range, [compute_dominators] ends with an array whose
    bit [d] of entry [b] is set exactly when every walk from the entry block to
    [b] visits [d]. *)
Theorem dominators_exact (bytes : list byte) (p : PythGraphPackage) :
  structure_passed bytes p -> 0 <= entry p < len (blocks p) ->
  exists D, compute_dominators p = Ok D /\
    forall b d, 0 <= b < len (blocks p) -> 0 <= d < len (blocks p) ->
      (exists m, get D b = Some m /\ Z.testbit m d = true) <-> dominates p d b.
Proof.
  intros Hsp He. destruct (structure_passed_facts bytes p Hsp) as (Hd & Hk & Hbs & Ht).
  pose proof (compute_dominators_wp p Hd Hk Hbs Ht He) as Hw.
  destruct (compute_dominators p) as [D|e| |]; [|done|done|done].
  exists D. split; [done|]. intros b d Hb Hd'. destruct Hw as [_ Hw]. specialize (Hw b d Hb).
  unfold dbit in Hw. destruct (get D b) as [m|]; [|naive_solver].
  split; [intros (m' & [= <-] & Hm); by apply Hw|intros Hdom; exists m; split; [done|]; by apply Hw].
Qed.
