(* ===== verification/TigRuntimeLogic.v ===== *)
(** * A program logic for the interpreter

    Postconditions for the state and error monad of the interpreter, and the
    first result proved with it: on every package, verified or not, and with
    every host whose results have their machine types, [execute] returns an
    exit record after at most [budget] nodes. *)

From stdpp Require Import base numbers list vector.
From Stdlib Require Import Strings.Byte.
From S2P Require Import Prelude TigTypes TigFormat Utf8 TigVerify TigRuntime.

(** [m] run from [s] neither panics nor diverges; [Q] holds of a returned value
    and the state, [R] of an error and the state it leaves. *)
Definition wpM {H A} (m : M H A) (s : Interp H) (Q : A -> Interp H -> Prop)
    (R : RuntimeError -> Interp H -> Prop) : Prop :=
  match m s with
  | (Ok a, s') => Q a s'
  | (Err e, s') => R e s'
  | _ => False
  end.

Definition set_host {H} (h : H) (s : Interp H) : Interp H := {|
  values := values s; host_results := host_results s; budget := budget s;
  executed_nodes := executed_nodes s; last_node := last_node s; host := h |}.

Section rules.
Context {H A B : Type}.
Implicit Types (m : M H A) (s : Interp H).

Lemma wpM_bind m (k : A -> M H B) s Q R :
  wpM m s (fun a s' => wpM (k a) s' Q R) R -> wpM (m ≫= k) s Q R.
Proof. unfold wpM, mbind, M_bind. by destruct (m s) as [[] ?]. Qed.

Lemma wpM_mono m s (Q Q' : A -> Interp H -> Prop) (R R' : RuntimeError -> Interp H -> Prop) :
  wpM m s Q R -> (forall a s', Q a s' -> Q' a s') -> (forall e s', R e s' -> R' e s') ->
  wpM m s Q' R'.
Proof. unfold wpM. destruct (m s) as [[] ?]; auto. Qed.

Lemma wpM_and m s (Q Q' : A -> Interp H -> Prop) (R R' : RuntimeError -> Interp H -> Prop) :
  wpM m s Q R -> wpM m s Q' R' ->
  wpM m s (fun a s' => Q a s' /\ Q' a s') (fun e s' => R e s' /\ R' e s').
Proof. unfold wpM. destruct (m s) as [[] ?]; auto. Qed.

Lemma wpM_ret (a : A) s (Q : A -> Interp H -> Prop) R : Q a s -> wpM (mret a) s Q R.
Proof. done. Qed.

Lemma wpM_lift (o : outcome RuntimeError A) s (Q : A -> Interp H -> Prop) R :
  wp o (fun a => Q a s) (fun e => R e s) -> wpM (lift o) s Q R.
Proof. unfold wpM, lift. by destruct o. Qed.

Lemma wpM_throw e s (Q : A -> Interp H -> Prop) (R : RuntimeError -> Interp H -> Prop) :
  R e s -> wpM (throw e) s Q R.
Proof. done. Qed.

Lemma wpM_gets (f : Interp H -> A) s (Q : A -> Interp H -> Prop) R :
  Q (f s) s -> wpM (gets f) s Q R.
Proof. done. Qed.

Lemma wpM_modify (f : Interp H -> Interp H) s (Q : unit -> Interp H -> Prop) R :
  Q tt (f s) -> wpM (modify f) s Q R.
Proof. done. Qed.

Lemma wpM_call (f : H -> (HostError + A) * H) s (Q : A -> Interp H -> Prop)
    (R : RuntimeError -> Interp H -> Prop) :
  (forall e h, f (host s) = (inl e, h) -> R (HostFailed e) (set_host h s)) ->
  (forall a h, f (host s) = (inr a, h) -> Q a (set_host h s)) ->
  wpM (call f) s Q R.
Proof.
  unfold wpM, call, set_host. destruct (f (host s)) as [[e|a] h]; intros He Ha;
    [by apply He|by apply Ha].
Qed.
End rules.

(** One step of symbolic execution under [wpM]. *)
Ltac m_step :=
  cbv beta;
  lazymatch goal with
  | |- wpM (_ ≫= _) _ _ _ => apply wpM_bind
  | |- wpM (mret _) _ _ _ => apply wpM_ret
  | |- wpM (throw _) _ _ _ => apply wpM_throw
  | |- wpM (gets _) _ _ _ => apply wpM_gets
  | |- wpM (modify _) _ _ _ => apply wpM_modify
  | |- wpM (lift _) _ _ _ => apply wpM_lift
  | |- wpM (call _) _ _ _ => apply wpM_call; [intros ? ? ?|intros ? ? ?]
  end.

(** ** Hosts *)

(** The machine types of the fields of a host result. *)
Record result_wf (r : HostCallResult) : Prop := {
  rw_status : uint 16 (hr_status r);
  rw_bytes_len : uint 16 (hr_bytes_len r);
  rw_reserved0 : uint 32 (hr_reserved0 r);
  rw_object_id : uint 64 (hr_object_id r);
  rw_revision : uint 64 (hr_revision r);
  rw_capability : uint 64 (raw (hr_capability r)) }.

Definition returns_wf {H} (f : H -> (HostError + HostCallResult) * H) : Prop :=
  forall h r h', f h = (inr r, h') -> result_wf r.

(** A host whose results have their machine types; every Rust host is one. *)
Class HostWf (H : Type) `{Host H} : Prop := {
  hw_create : forall c k, returns_wf (object_create c k);
  hw_query : forall c k, returns_wf (object_query c k);
  hw_inspect : forall c o, returns_wf (object_inspect c o);
  hw_revise : forall c o t, returns_wf (object_revise c o t);
  hw_history : forall c o, returns_wf (object_history c o);
  hw_task_context : forall c, returns_wf (task_context c);
  hw_command_read : forall c, returns_wf (command_read c) }.

Lemma result_prefix_ok r l :
  0 <= l <= MAX_HOST_RESULT_BYTES -> exists text, result_prefix r l = Ok text.
Proof.
  intros Hl. unfold result_prefix.
  destruct (get_range (vec_to_list (hr_bytes r)) 0 l) as [text|] eqn:Hg; [by exists text|].
  unfold get_range, len in Hg. rewrite length_vec_to_list in Hg. unfold MAX_HOST_RESULT_BYTES in Hl.
  change (Z.of_nat 64) with 64 in Hg.
  replace ((0 <=? 0) && (0 <=? l) && (l <=? 64)) with true in Hg by lia. done.
Qed.

(** ** Totality *)

Section total.
Context {H : Type} `{HostWf H}.
Context (package : PythGraphPackage) (import_caps : list PackedCapability).
Implicit Types s : Interp H.

(** The stored values and host results have their machine types. *)
Record rt_ok (s : Interp H) : Prop := {
  ro_values : forall j producer l,
    get (values s) j = Some (Some (Val.HostUtf8 producer l)) -> 0 <= l;
  ro_results : forall j r, get (host_results s) j = Some (Some r) -> result_wf r }.

(** [s] was reached from [s0] inside one node. *)
Definition kept (s0 s : Interp H) : Prop :=
  rt_ok s /\ budget s = budget s0 /\ executed_nodes s = executed_nodes s0.

Lemma kept_set_value s0 s i v :
  kept s0 s -> (forall producer l, v = Val.HostUtf8 producer l -> 0 <= l) -> kept s0 (set_value i v s).
Proof.
  intros ([Hv Hr] & Hb) Hvl. split; [|done]. constructor; [|done]. simpl. intros j producer l Hj.
  apply get_Some in Hj as [Hjr Hj]. apply list_lookup_insert_Some in Hj as [(? & Hj & ?)|[? Hj]].
  - injection Hj as ->. by eapply Hvl.
  - apply (Hv j producer). apply get_Some. rewrite len_insert in Hjr. done.
Qed.

Lemma kept_set_host_result s0 s i r :
  kept s0 s -> result_wf r -> kept s0 (set_host_result i r s).
Proof.
  intros ([Hv Hr] & Hb) Hwf. split; [|done]. constructor; [done|]. simpl. intros j r' Hj.
  apply get_Some in Hj as [Hjr Hj]. apply list_lookup_insert_Some in Hj as [(? & Hj & ?)|[? Hj]].
  - by injection Hj as <-.
  - apply (Hr j). apply get_Some. rewrite len_insert in Hjr. done.
Qed.

Lemma kept_set_host s0 s h : kept s0 s -> kept s0 (set_host h s).
Proof. by intros ([? ?] & ?). Qed.

Lemma store_value_kept s0 s i v :
  kept s0 s -> (forall producer l, v = Val.HostUtf8 producer l -> 0 <= l) ->
  wpM (store_value i v) s (fun _ => kept s0) (fun _ => kept s0).
Proof.
  intros Hs Hv. unfold store_value. m_step. m_step. destruct (get (values s) i).
  - m_step. by apply kept_set_value.
  - by m_step.
Qed.

Lemma keep_host_result_kept s0 s i r :
  kept s0 s -> result_wf r -> wpM (keep_host_result i r) s (fun _ => kept s0) (fun _ => kept s0).
Proof.
  intros Hs Hr. unfold keep_host_result. m_step. m_step. m_step.
  destruct (get (host_results s) i); m_step; [|done].
  apply store_value_kept; [by apply kept_set_host_result|done].
Qed.

(** A computation that only reads the state. *)
Definition reads {A} (m : M H A) : Prop :=
  forall s, rt_ok s -> wpM m s (fun _ s' => s' = s) (fun _ s' => s' = s).

Lemma reads_load i s : rt_ok s ->
  wpM (load_value i) s (fun v s' => s' = s /\ get (values s) i = Some (Some v)) (fun _ s' => s' = s).
Proof.
  intros Hs. unfold load_value. m_step. m_step. m_step.
  destruct (get (values s) i) as [[v|]|]; done.
Qed.

Ltac read_case :=
  intros s Hs; unfold expect_effect, expect_capability, expect_object_id, expect_task_id,
    expect_u64, expect_error_code, expect_bool;
  m_step; eapply wpM_mono; [by apply reads_load| |done];
  intros v s' [-> _]; by destruct v; m_step.

Lemma reads_effect i : reads (expect_effect i).
Proof. read_case. Qed.
Lemma reads_capability i : reads (expect_capability i).
Proof. read_case. Qed.
Lemma reads_object_id i : reads (expect_object_id i).
Proof. read_case. Qed.
Lemma reads_task_id i : reads (expect_task_id i).
Proof. read_case. Qed.
Lemma reads_u64 i : reads (expect_u64 i).
Proof. read_case. Qed.
Lemma reads_error_code i : reads (expect_error_code i).
Proof. read_case. Qed.
Lemma reads_bool i : reads (expect_bool i).
Proof. read_case. Qed.

Lemma string_at_safe offset l (Q : list byte -> Prop) (R : PackageDecodeError -> Prop) :
  (forall x, Q x) -> (forall e, R e) -> wp (string_at package offset l) Q R.
Proof.
  intros HQ HR. unfold string_at. apply wp_bind, wp_ok_or; [|done].
  intros e _. apply wp_ok_or; done.
Qed.
Lemma reads_utf8_bytes i : reads (expect_utf8_bytes package i).
Proof.
  intros s Hs. unfold expect_utf8_bytes. m_step.
  eapply wpM_mono; [by apply reads_load| |done]. intros v s' [-> Hv].
  destruct v as [| | | |offset l []| | | | | | | |producer l]; try by m_step.
  - m_step. m_step. apply wp_ok_or; [|done]. intros l' _. m_step. apply wp_map_err, string_at_safe; done.
  - m_step. m_step. m_step. m_step. apply wp_ok_or; [|done]. intros r Hr. m_step. m_step.
    apply wp_reject; [|done]. intros Hl. m_step. m_step.
    destruct (result_prefix_ok r l) as [text ->].
    { pose proof (ro_values s Hs _ _ _ Hv). lia. }
    simpl. m_step. m_step. by apply wp_reject.
Qed.

Lemma reads_bytes i : reads (expect_bytes package i).
Proof.
  intros s Hs. unfold expect_bytes. m_step.
  eapply wpM_mono; [by apply reads_load| |done]. intros v s' [-> _].
  destruct v as [| | | |offset l []| | | | | | | |]; try by m_step.
  m_step. m_step. apply wp_ok_or; [|done]. intros e _. m_step. by apply wp_ok_or.
Qed.

Lemma wpM_reads {A B} (m : M H A) (k : A -> M H B) s0 s Q :
  reads m -> kept s0 s -> (forall a, wpM (k a) s Q (fun _ => kept s0)) ->
  wpM (m ≫= k) s Q (fun _ => kept s0).
Proof.
  intros Hm Hs Hk. m_step. eapply wpM_mono; [apply Hm, Hs|intros a ? ->; apply Hk|intros e ? ->; done].
Qed.

Lemma wpM_lift_kept {A B} (m : outcome RuntimeError A) (k : A -> M H B) s0 s Q :
  kept s0 s -> post m (fun a => wpM (k a) s Q (fun _ => kept s0)) ->
  wpM (lift m ≫= k) s Q (fun _ => kept s0).
Proof. intros Hs Hm. m_step. m_step. eapply wp_mono; [exact Hm|done|done]. Qed.

Lemma wpM_call_kept {A B} (f : H -> (HostError + A) * H) (k : A -> M H B) s0 s Q :
  kept s0 s ->
  (forall a s', (exists h h', f h = (inr a, h')) -> kept s0 s' -> wpM (k a) s' Q (fun _ => kept s0)) ->
  wpM (call f ≫= k) s Q (fun _ => kept s0).
Proof.
  intros Hs Hk. m_step. m_step; [by apply kept_set_host|]. apply Hk; [eauto|by apply kept_set_host].
Qed.

Lemma store_host_result_kept s0 s i r :
  kept s0 s -> result_wf r -> wpM (store_host_result i r) s (fun _ => kept s0) (fun _ => kept s0).
Proof.
  intros Hs Hr. unfold store_host_result. apply wpM_lift_kept; [done|].
  unfold validate_host_call_result. wp_step. by apply keep_host_result_kept.
Qed.

Lemma validated_prefix r (k : list byte -> outcome RuntimeError unit) Q :
  result_wf r -> hr_bytes_len r <= MAX_HOST_RESULT_BYTES -> (forall text, post (k text) Q) ->
  post (result_prefix r (hr_bytes_len r) ≫= k) Q.
Proof.
  intros [_ Hu _ _ _ _] Hl Hk. unfold uint in Hu.
  destruct (result_prefix_ok r (hr_bytes_len r)) as [text ->]; [lia|]. apply Hk.
Qed.

Lemma validate_task_context_safe r Q :
  result_wf r -> Q tt -> post (validate_task_context_result r) Q.
Proof.
  intros Hr HQ. unfold validate_task_context_result. wp_step. wp_step.
  apply validated_prefix; [done|lia|]. intros text. by wp_step.
Qed.

Lemma validate_command_read_safe r Q :
  result_wf r -> Q tt -> post (validate_command_read_result r) Q.
Proof.
  intros Hr HQ. unfold validate_command_read_result. wp_step. wp_step. wp_step. wp_step.
  apply validated_prefix; [done|lia|]. intros text. by wp_step.
Qed.

Lemma host_utf8_value_safe producer r :
  result_wf r ->
  post (host_utf8_value producer r) (fun v => forall producer' l, v = Val.HostUtf8 producer' l -> 0 <= l).
Proof.
  intros Hr. unfold host_utf8_value. wp_step. wp_step.
  destruct (result_prefix_ok r (hr_bytes_len r)) as [text ->].
  { destruct Hr as [_ Hu _ _ _ _]. unfold uint in Hu. lia. }
  simpl. wp_step. wp_step. wp_step. intros ? ? [= _ <-]. by destruct Hr as [_ [? _] _ _ _ _].
Qed.

Lemma execute_host_result_kept s0 s i n :
  kept s0 s -> wpM (execute_host_result package i n) s (fun _ => kept s0) (fun _ => kept s0).
Proof.
  intros Hs. unfold execute_host_result. apply wpM_lift_kept; [done|]. wp_step.
  apply wpM_lift_kept; [done|]. wp_step. m_step. m_step. apply wpM_lift_kept; [done|].
  apply wp_ok_or; [|done]. intros r Hr. apply wpM_lift_kept; [done|].
  assert (result_wf r) as Hwf.
  { destruct (get (host_results s) (n_input0 n)) as [[r'|]|] eqn:Hg; simplify_eq/=.
    eapply ro_results; [apply Hs|done]. }
  apply (post_mono _ (fun v => forall producer l, v = Val.HostUtf8 producer l -> 0 <= l));
    [|intros v Hv; by apply store_value_kept].
  pose proof (host_utf8_value_safe (n_input0 n) r Hwf) as Hu.
  unfold task_context_host_result_value, command_host_result_value, object_host_result_value.
  match goal with |- context [match ?o with _ => _ end] => destruct o end;
    repeat match goal with |- wp (if ?c then _ else _) _ _ => destruct c end;
    first [exact Hu | done | by wp_step | by (wp_step; wp_step; wp_step)].
Qed.

(** Runs a node body: reads, pure checks, one host call, one store. *)
Ltac node_kept :=
  repeat first
  [ done
  | apply wpM_reads; [solve [auto using reads_effect, reads_capability, reads_object_id,
      reads_task_id, reads_u64, reads_error_code, reads_bool, reads_utf8_bytes, reads_bytes]
      |done|intros ?]
  | apply store_host_result_kept; [done|]
  | apply wpM_lift_kept; [done|]
  | apply wpM_call_kept; [done|intros ? ? (? & ? & ?) ?]
  | apply wp_map_err, string_at_safe; [intros ?|done]
  | apply wp_ok_or; [intros ? _|done]
  | apply store_value_kept; [done|done]
  | apply keep_host_result_kept; [done|]
  | apply validate_task_context_safe
  | apply validate_command_read_safe
  | match goal with
    | |- wpM (if ?c then _ else _) _ _ _ => destruct c
    | |- wpM (match ?t with _ => _ end) _ _ _ => destruct t
    | |- result_wf _ => solve [eapply hw_create; eauto | eapply hw_query; eauto
        | eapply hw_inspect; eauto | eapply hw_revise; eauto | eapply hw_history; eauto
        | eapply hw_task_context; eauto | eapply hw_command_read; eauto]
    end ].

Lemma execute_node_kept s0 s i n o :
  kept s0 s -> wpM (execute_node package import_caps i n o) s (fun _ => kept s0) (fun _ => kept s0).
Proof.
  intros Hs. destruct o; cbn [execute_node]; try by apply execute_host_result_kept.
  all: unfold execute_block_param, execute_const_bool, execute_const_u64, execute_eq,
    execute_less_than_u64, execute_const_bytes, execute_const_utf8, execute_system_log,
    execute_object_create, execute_object_query, execute_object_inspect, execute_object_revise,
    execute_object_history, execute_task_context, execute_task_proposal_emit, execute_command_read,
    execute_command_result_emit, result_type_of; node_kept.
Qed.
(** Budget accounting: every dispatched node moves one unit from [budget] to
    [executed_nodes]. *)
Definition funded (s : Interp H) : Prop :=
  rt_ok s /\ 0 <= budget s /\ 0 <= executed_nodes s /\ uint 64 (executed_nodes s + budget s).

Definition spent (s0 s : Interp H) : Prop :=
  funded s /\ executed_nodes s + budget s = executed_nodes s0 + budget s0 /\ budget s <= budget s0.

Lemma spent_refl s : funded s -> spent s s.
Proof. by intros. Qed.

Lemma spent_trans s0 s1 s2 : spent s0 s1 -> spent s1 s2 -> spent s0 s2.
Proof. intros (_ & ? & ?) (? & ? & ?). split; [done|]. lia. Qed.

Lemma kept_spent s0 s : funded s0 -> kept s0 s -> spent s0 s.
Proof.
  intros (_ & ? & ? & ?) (? & Hb & He). unfold spent, funded. rewrite Hb, He. done.
Qed.

(** The counters of [dispatch_node], separated from the opcode it runs. *)
Lemma dispatch_node_rule s i (Q : unit -> Interp H -> Prop) (R : RuntimeError -> Interp H -> Prop) :
  0 <= executed_nodes s -> (budget s <> 0 -> executed_nodes s < 2 ^ 64 - 1) ->
  (budget s = 0 -> R BudgetExhausted (set_last_node (default NO_VALUE (checked 32 i)) s)) ->
  (budget s <> 0 ->
    let s1 := set_executed (executed_nodes s + 1) (spend s) in
    (~ uint 32 i -> R InvalidNode s1) /\
    (uint 32 i -> let s2 := set_last_node i s1 in
      (get (nodes package) i = None -> R InvalidNode s2) /\
      (forall n, get (nodes package) i = Some n ->
         (opcode_try_from (n_opcode n) = None -> R UnsupportedOpcode s2) /\
         (forall o, opcode_try_from (n_opcode n) = Some o ->
            wpM (execute_node package import_caps i n o) s2 Q R)))) ->
  wpM (dispatch_node package import_caps i) s Q R.
Proof.
  intros He He' H0' H1'. unfold dispatch_node. m_step. m_step.
  destruct (Z.eqb_spec (budget s) 0) as [Hb|Hb]; [m_step; m_step; m_step; by apply H0'|].
  destruct (H1' Hb) as [Hu Hn]. specialize (He' Hb). m_step. m_step. m_step. m_step. m_step. m_step.
  unfold checked_add. rewrite checked_id by (unfold uint; simpl; lia). simpl. m_step. m_step.
  m_step. m_step. destruct (decide (uint 32 i)) as [Hi|Hi].
  - rewrite checked_id by done. simpl. m_step. m_step. destruct (Hn Hi) as [Hnone Hsome].
    m_step. m_step. apply wp_ok_or; [|done]. intros n Hget. destruct (Hsome n Hget) as [Ho1 Ho2].
    m_step. m_step. by apply wp_ok_or.
  - rewrite (proj2 (checked_None 32 i)) by done. by apply Hu.
Qed.

Lemma dispatch_node_spent s i :
  funded s ->
  wpM (dispatch_node package import_caps i) s
    (fun _ s' => spent s s' /\ budget s' < budget s) (fun _ => spent s).
Proof.
  intros Hs. assert (Hs' := Hs). destruct Hs' as ([Hv Hr] & Hb & He & Hu). unfold uint in Hu.
  destruct (decide (budget s = 0)) as [Hz|Hz].
  { unfold dispatch_node. m_step. m_step. rewrite Hz, Z.eqb_refl. m_step. m_step. m_step. by split. }
  assert (forall s', kept (set_executed (executed_nodes s + 1) (spend s)) s' ->
    spent s s' /\ budget s' < budget s) as Hk.
  { intros s' (? & Hb' & He'). simpl in Hb', He'. unfold spent, funded, uint. split_and!; (done || lia). }
  assert (forall j, kept (set_executed (executed_nodes s + 1) (spend s))
    (set_last_node j (set_executed (executed_nodes s + 1) (spend s)))) as Hl by (intros; done).
  apply dispatch_node_rule; [lia|lia|done|]. intros _. split; [intros _; by apply Hk|].
  intros _. split; [intros _; by apply Hk, Hl|]. intros n _. split; [intros _; by apply Hk, Hl|].
  intros o _. eapply wpM_mono; [by apply execute_node_kept|..]; intros; by apply Hk.
Qed.

Lemma jump_to_wp s t (Q : BlockOutcome -> Interp H -> Prop) (R : RuntimeError -> Interp H -> Prop) :
  (0 <= t < len (blocks package) -> Q (BJump t) s) ->
  (~ 0 <= t < len (blocks package) -> R InvalidBlock s) ->
  wpM (jump_to package t) s Q R.
Proof.
  intros HQ HR. unfold jump_to. destruct (get (blocks package) t) as [blk|] eqn:Hb.
  - m_step. apply HQ. apply get_is_Some. by rewrite Hb.
  - m_step. by apply HR, get_None.
Qed.

Lemma run_nodes_spent l s :
  funded s ->
  wpM (run_nodes package import_caps l) s
    (fun _ s' => spent s s' /\ budget s' < budget s) (fun _ => spent s).
Proof.
  revert s. induction l as [|i l IH]; intros s Hs; cbn [run_nodes]; [by m_step|].
  m_step. eapply wpM_mono; [by apply dispatch_node_spent| |done]. intros _ s1 [Hs1 Hlt].
  m_step. m_step. apply wp_ok_or; [|done]. intros n _. m_step. m_step. apply wp_ok_or; [|done].
  intros o _. assert (wpM (run_nodes package import_caps l) s1
    (fun _ s' => spent s s' /\ budget s' < budget s) (fun _ => spent s)) as Hrest.
  { eapply wpM_mono; [apply IH, Hs1|..].
    - intros _ s2 [Hs2 ?]. split; [by eapply spent_trans|lia].
    - intros e s2 Hs2. by eapply spent_trans. }
  destruct o; try exact Hrest.
  - by apply jump_to_wp.
  - m_step. eapply wpM_mono; [apply reads_bool, Hs1|..]; [intros b ? ->|by intros e ? ->].
    by apply jump_to_wp.
  - by m_step.
Qed.

Lemma run_blocks_spent fuel b s :
  funded s -> budget s < Z.of_nat fuel ->
  wpM (run_blocks package import_caps fuel b) s (fun _ => spent s) (fun _ => spent s).
Proof.
  revert b s. induction fuel as [|fuel IH]; intros b s Hs Hf.
  { destruct Hs as (_ & ? & _). lia. }
  cbn [run_blocks]. m_step. unfold execute_block.
  m_step. m_step. apply wp_ok_or; [intros blk _|done]. m_step. m_step.
  apply wp_ok_or; [intros e _|done].
  eapply wpM_mono; [by apply run_nodes_spent| |done]. intros [|t] s1 [Hs1 Hlt]; [by m_step|].
  eapply wpM_mono; [apply IH; [apply Hs1|lia]|..]; intros; by eapply spent_trans.
Qed.

Lemma new_interpreter_funded bud (h : H) : uint 64 bud -> funded (new_interpreter bud h).
Proof.
  intros Hu. unfold uint in Hu.
  split; [constructor; cbn [values host_results new_interpreter]|
          unfold uint; cbn [budget executed_nodes new_interpreter]; lia].
  - intros j ? ? [? _]%get_replicate. done.
  - intros j ? [? _]%get_replicate. done.
Qed.

Lemma execute_inner_spent s :
  funded s -> wpM (execute_inner package import_caps) s (fun _ => spent s) (fun _ => spent s).
Proof.
  intros Hs. unfold execute_inner. m_step. m_step. apply run_blocks_spent; [done|].
  destruct Hs as (_ & ? & _). lia.
Qed.

(** C10: with any package, any imports and any host, [Interpreter::execute]
    returns an exit record: it never panics, and the loop over blocks ends
    because each block spends budget. The record counts at most [budget]
    executed nodes. *)
Theorem execute_total (bud : Z) (h : H) :
  uint 64 bud ->
  exists r s', execute package import_caps (new_interpreter bud h) = (Ok r, s') /\
    0 <= ex_executed_nodes r <= bud /\ ex_executed_nodes r + budget s' = bud.
Proof.
  intros Hu. pose proof (execute_inner_spent _ (new_interpreter_funded bud h Hu)) as Hw.
  unfold wpM in Hw. unfold execute.
  destruct (execute_inner package import_caps (new_interpreter bud h)) as [[u|e| |] s'];
    try done; destruct Hw as ((_ & ? & ? & _) & Hsum & _);
    cbn [budget executed_nodes new_interpreter] in Hsum.
  - exists (exit_ok s'), s'. simpl. split; [done|]. lia.
  - destruct e; eexists _, s'; (split; [done|]); simpl; lia.
Qed.
End total.
