(* ===== verification/TigSoundness.v ===== *)
(** * Soundness of verification for execution

    Runs of verified packages. The invariant says that every node which has run
    holds a value of its declared type, that every node of a dominating block
    has run, and that text projected from a host result still agrees with the
    stored result. It follows that the structural errors of the interpreter
    cannot happen, and that each remaining error is caused by the node the exit
    record names. *)

From stdpp Require Import base numbers list sets vector.
From Stdlib Require Import Strings.Byte.
From S2P Require Import Prelude TigTypes TigFormat TigFormatFacts Utf8 TigVerify Bitset TigStructure TigDominators TigTyping TigVerified TigRuntime TigRuntimeLogic.

(** The verifier does not look at the result type of a jump; the theorems about
    runs ask for the type its signature declares. *)
Definition jumps_unit (p : PythGraphPackage) : Prop :=
  forall i, op_at p i = Some Op.Jump -> ty_at p i = Some Ty.Unit.

(** Opcodes whose host result the interpreter keeps. *)
Definition keeps_result (o : Opcode) : bool :=
  match o with
  | Op.ObjectCreate | Op.ObjectQuery | Op.ObjectInspect | Op.ObjectRevise | Op.ObjectHistory
  | Op.TaskContextRead | Op.CommandRead => true
  | _ => false
  end.

(** Opcodes the interpreter runs; the others end a run with
    [UnsupportedOpcode]. *)
Definition implemented (o : Opcode) : bool :=
  match o with
  | Op.BlockParam | Op.EffectStart | Op.ConstBool | Op.ConstU64 | Op.Eq | Op.LessThanU64
  | Op.ConstBytes | Op.ConstUtf8 | Op.HostResult | Op.SystemLog | Op.ObjectCreate
  | Op.ObjectQuery | Op.ObjectInspect | Op.ObjectRevise | Op.ObjectHistory
  | Op.TaskContextRead | Op.TaskProposalEmit | Op.CommandRead | Op.CommandResultEmit
  | Op.Jump | Op.Branch | Op.Return => true
  | _ => false
  end.

(** The errors a node of a verified package can still end a run with. *)
Definition error_allowed (n : NodeRecord) (o : Opcode) (t : PythType) (e : RuntimeError) : Prop :=
  match e with
  | HostFailed _ => effectful (signature o) = true
  | MissingImport => o = Op.BlockParam /\ t = Ty.Capability
  | UnsupportedOpcode => implemented o = false \/ (o = Op.BlockParam /\ t <> Ty.Capability)
  | InvalidValue =>
      keeps_result o = true \/
      (o = Op.HostResult /\ t = Ty.Capability) \/
      (o = Op.ConstU64 /\ t = Ty.ErrorCode /\ 2 ^ 16 <= n_immediate n)
  | InvalidString =>
      o = Op.TaskContextRead \/ o = Op.CommandRead \/ (o = Op.HostResult /\ t = Ty.Utf8)
  | BudgetExhausted | InvalidBlock | InvalidNode | InvalidInput => False
  end.

(** A runtime value of a declared type, at node [j]. *)
Definition value_ok (p : PythGraphPackage) (j : Z) (v : Value) (t : PythType) : Prop :=
  match t, v with
  | Ty.Bool, Val.Bool _ | Ty.U64, Val.U64 _ | Ty.ObjectId, Val.ObjectId _
  | Ty.RevisionId, Val.RevisionId _ | Ty.TaskId, Val.TaskId _ | Ty.ProposalId, Val.ProposalId _
  | Ty.Capability, Val.Capability _ | Ty.Effect, Val.Effect _ | Ty.ErrorCode, Val.ErrorCode _ => True
  | Ty.Bytes, Val.Slice offset l false =>
      uint 64 (offset + l) /\ is_Some (get_range (constant_pool p) offset (offset + l))
  | Ty.Utf8, Val.Slice offset l true => uint 16 l /\ exists text, string_at p offset l = Ok text
  | Ty.Utf8, Val.HostUtf8 producer l =>
      op_at p j = Some Op.HostResult /\ (exists n, get (nodes p) j = Some n /\ n_input0 n = producer) /\
      0 <= l <= MAX_HOST_RESULT_BYTES
  | _, _ => False
  end.

(** The length kept with a host string is the one of the stored result. *)
Definition text_ok (r : HostCallResult) (l : Z) : Prop :=
  exists text, result_prefix r l = Ok text /\ from_utf8 text = true.

(** ** Structure of verified packages *)

Section structure.
Context (p : PythGraphPackage) (Hv : verified p).

Lemma owner_unique b c i : owns p b i -> owns p c i -> b = c.
Proof.
  intros (blk & Hb & Hi) (blk' & Hc & Hi').
  pose proof (bs_block p (ver_blocks p Hv) b blk Hb) as Hbo.
  pose proof (bs_block p (ver_blocks p Hv) c blk' Hc) as Hco.
  destruct (block_wf_get p (ver_decoded p Hv) _ _ Hb) as (_ & Hf & _). unfold uint in Hf.
  destruct (proj2 (get_is_Some (nodes p) i)) as [n Hn].
  { pose proof (bo_end _ _ _ Hbo). lia. }
  rewrite <- (bo_index _ _ _ Hbo i n Hi Hn). by apply (bo_index _ _ _ Hco i n Hi' Hn).
Qed.

Lemma owns_range b i : owns p b i -> 0 <= i < len (nodes p).
Proof.
  intros (blk & Hb & Hi). pose proof (bs_block p (ver_blocks p Hv) b blk Hb) as Hbo.
  destruct (block_wf_get p (ver_decoded p Hv) _ _ Hb) as (_ & Hf & _). unfold uint in Hf.
  pose proof (bo_end _ _ _ Hbo). lia.
Qed.

(** The node at a valid index, with its opcode and type. *)
Lemma node_at i : 0 <= i < len (nodes p) ->
  exists n o t, get (nodes p) i = Some n /\ op_at p i = Some o /\ ty_at p i = Some t /\
    opcode_try_from (n_opcode n) = Some o /\ type_try_from (n_result_type n) = Some t /\
    node_ok p i n o t.
Proof.
  intros Hi. destruct (proj2 (get_is_Some (nodes p) i) Hi) as [n Hn].
  destruct (known_op_at p i (ver_known p Hv) Hi) as [o Ho].
  destruct (known_ty_at p i (ver_known p Hv) Hi) as [t Ht].
  exists n, o, t. split_and!; [done..| | |].
  - unfold op_at in Ho. by rewrite Hn in Ho.
  - unfold ty_at in Ht. by rewrite Hn in Ht.
  - by apply (ver_nodes p Hv).
Qed.

Lemma node_bound i : 0 <= i < len (nodes p) -> 0 <= i < 1024.
Proof. pose proof (nodes_bound p (ver_decoded p Hv)). lia. Qed.

(** A terminator has type [Unit]. *)
Lemma terminator_unit i o : jumps_unit p -> op_at p i = Some o -> is_terminator o = true ->
  ty_at p i = Some Ty.Unit.
Proof.
  intros Hj Ho Hterm. destruct (get (nodes p) i) as [n|] eqn:Hn; [|by unfold op_at in Ho; rewrite Hn in Ho].
  destruct (node_at i) as (n' & o' & t & Hn' & Ho' & Ht & _ & _ & Hok).
  { apply get_is_Some. by rewrite Hn. }
  simplify_eq. destruct o; try done; [by apply Hj|..];
    destruct (no_signature _ _ _ _ _ Hok ltac:(done) ltac:(done)) as [Hacc _];
    unfold opcode_accepts_result in Hacc; simpl in Hacc; rewrite orb_false_r in Hacc;
    apply bool_decide_eq_true in Hacc; by subst.
Qed.
End structure.

(** ** The run-time invariant *)

Section runs.
Context {H : Type} `{HostWf H}.
Context (p : PythGraphPackage) (Hv : verified p) (Hju : jumps_unit p).
Context (import_caps : list PackedCapability).
Implicit Types s : Interp H.

Definition value_at (s : Interp H) (j : Z) (v : Value) : Prop := get (values s) j = Some (Some v).
Definition result_at (s : Interp H) (j : Z) (r : HostCallResult) : Prop :=
  get (host_results s) j = Some (Some r).

(** What holds of the stored values when node [i] runs next. A projection
    between its producer and [i] may be out of date. *)
Record store_ok (i : Z) (s : Interp H) : Prop := {
  so_values : len (values s) = 1024;
  so_host_results : len (host_results s) = 1024;
  so_typed : forall j v, value_at s j v -> exists t, ty_at p j = Some t /\ value_ok p j v t;
  so_results : forall j r, result_at s j r -> result_wf r /\ hr_bytes_len r <= MAX_HOST_RESULT_BYTES;
  so_kept : forall j v o, value_at s j v -> op_at p j = Some o -> keeps_result o = true ->
    exists r, result_at s j r;
  so_fresh : forall j producer l, value_at s j (Val.HostUtf8 producer l) -> ~ (producer < i <= j) ->
    exists r, result_at s producer r /\ text_ok r l }.

(** Every value that node [i] of block [b] may read is present. *)
Definition ready (b i : Z) (s : Interp H) : Prop :=
  forall j c, owns p c j -> ty_at p j <> Some Ty.Unit ->
    (c = b /\ j < i) \/ (c <> b /\ dominates p c b) -> exists v, value_at s j v.

(** The state before node [i] of block [b]. *)
Definition before (b i : Z) (s : Interp H) : Prop := store_ok i s /\ ready b i s.

(** Counters do not change inside a node. *)
Definition frame (s s' : Interp H) : Prop :=
  budget s' = budget s /\ executed_nodes s' = executed_nodes s /\ last_node s' = last_node s.

Lemma frame_refl s : frame s s.
Proof. done. Qed.

Lemma before_frame b i s s' :
  before b i s -> values s' = values s -> host_results s' = host_results s -> before b i s'.
Proof.
  intros [[] Hready] Hval Hres. split.
  - constructor; unfold value_at, result_at in *; rewrite ?Hval, ?Hres; done.
  - unfold ready, value_at in *. by rewrite Hval.
Qed.

(** Outside a run of projections every host string is up to date. *)
Lemma store_ok_moves i i' s :
  0 <= i < len (nodes p) -> op_at p i <> Some Op.HostResult -> store_ok i s -> store_ok i' s.
Proof.
  intros Hi Hop [Hl1 Hl2 Hty Hr Hk Hf]. constructor; [done..|].
  intros j producer l Hj _. apply (Hf j producer l Hj). intros Hpend.
  destruct (Hty _ _ Hj) as (t & Ht & Hok). destruct t; try done.
  destruct Hok as (Hop' & (n & Hn & Hprod) & _).
  destruct (decide (i = j)) as [->|Hne]; [done|].
  destruct (node_at p Hv j) as (n' & o & t & Hn' & Ho & Hty' & _ & _ & Hok).
  { apply get_is_Some. by rewrite Hn. }
  simplify_eq. pose proof (no_host_result _ _ _ _ _ Hok eq_refl) as Hhr.
  destruct (proj2 (get_is_Some (nodes p) i) Hi) as [m Hm].
  apply Hop. eapply (hro_run _ _ _ _ Hhr i m); [lia|done].
Qed.
(** ** One node *)

Record at_node (b i : Z) (n : NodeRecord) (o : Opcode) (t : PythType) : Prop := {
  an_owns : owns p b i;
  an_node : get (nodes p) i = Some n;
  an_op : op_at p i = Some o;
  an_ty : ty_at p i = Some t;
  an_opcode : opcode_try_from (n_opcode n) = Some o;
  an_type : type_try_from (n_result_type n) = Some t;
  an_ok : node_ok p i n o t }.

Lemma at_node_intro b i : owns p b i -> exists n o t, at_node b i n o t.
Proof.
  intros Hb. destruct (node_at p Hv i) as (n & o & t & ? & ? & ? & ? & ? & ?); [by eapply owns_range|].
  by exists n, o, t.
Qed.

Lemma at_node_range b i n o t : at_node b i n o t -> 0 <= i < 1024.
Proof. intros Ha. by eapply node_bound, owns_range, an_owns. Qed.

(** Running node [i] stores a value of its type, and its host result if it has
    one. *)
Lemma before_store b i n o t v s s1 :
  at_node b i n o t -> before b i s -> value_ok p i v t ->
  values s1 = values s ->
  (host_results s1 = host_results s /\ keeps_result o = false) \/
  (exists r, host_results s1 = <[Z.to_nat i := Some r]> (host_results s) /\ keeps_result o = true /\
     result_wf r /\ hr_bytes_len r <= MAX_HOST_RESULT_BYTES) ->
  (forall producer l, v = Val.HostUtf8 producer l -> exists r, result_at s1 producer r /\ text_ok r l) ->
  before b (i + 1) (set_value i v s1).
Proof.
  intros Ha [Hso Hrd] Hvok Hval Hres Hfr. pose proof (at_node_range _ _ _ _ _ Ha) as Hi.
  destruct Hso as [Hl1 Hl2 Hty Hr Hk Hf].
  assert (forall j w, value_at (set_value i v s1) j w <->
    (j = i /\ w = v) \/ (j <> i /\ value_at s j w)) as Hva.
  { intros j w. unfold value_at. simpl. rewrite Hval. destruct (decide (i = j)) as [<-|].
    - rewrite get_insert_eq by lia. naive_solver.
    - rewrite get_insert_ne by lia. naive_solver. }
  assert (forall j r, j <> i \/ keeps_result o = false ->
    result_at (set_value i v s1) j r <-> result_at s j r) as Hra.
  { intros j r Hj. unfold result_at. simpl. destruct Hres as [[-> _]|(r' & -> & Hkeep & _)]; [done|].
    rewrite get_insert_ne; [done|lia|]. destruct Hj; congruence. }
  split; [constructor|].
  - simpl. by rewrite Hval, len_insert.
  - simpl. destruct Hres as [[-> _]|(r' & -> & _)]; [done|by rewrite len_insert].
  - intros j w [[-> ->]|[_ Hw]]%Hva; [|by apply Hty]. exists t. split; [apply Ha|done].
  - intros j r Hj. destruct (decide (j <> i \/ keeps_result o = false)) as [Hc|Hc].
    { apply Hra in Hj; [by eapply Hr|done]. }
    destruct Hres as [[_ ?]|(r' & Heq & _ & Hwf)]; [tauto|].
    assert (j = i) as -> by (destruct (decide (j = i)); tauto).
    unfold result_at in Hj. simpl in Hj. rewrite Heq, get_insert_eq in Hj by lia. by simplify_eq.
  - intros j w o' [[-> ->]|[Hne Hw]]%Hva Ho' Hkeep.
    + assert (o' = o) as -> by (pose proof (an_op _ _ _ _ _ Ha); congruence).
      destruct Hres as [[_ ?]|(r & Heq & _)]; [congruence|]. exists r.
      unfold result_at. simpl. rewrite Heq. apply get_insert_eq. lia.
    + destruct (Hk j w o' Hw Ho' Hkeep) as [r Hj]. exists r. apply Hra; [by left|done].
  - intros j producer l [[-> <-]|[Hne Hw]]%Hva Hpend; [by apply Hfr|].
    destruct (Hf j producer l Hw) as (r & Hpr & Htext); [lia|]. exists r. split; [|done].
    apply Hra; [|done]. destruct (decide (producer = i)) as [->|]; [|by left]. exfalso.
    destruct (Hty _ _ Hw) as ([] & Htj & Hvj); try done. destruct Hvj as (Hop & (m & Hm & Hpm) & _).
    pose proof (no_host_result _ _ _ _ _ (ver_nodes p Hv j m _ _ Hm Hop Htj) eq_refl) as Hhr.
    pose proof (hro_before _ _ _ _ Hhr). lia.
  - intros j c Hc Htu Hcase. destruct (decide (j = i)) as [->|Hne].
    + exists v. apply Hva. by left.
    + destruct (Hrd j c Hc Htu) as [w Hw].
      { destruct Hcase as [[-> ?]|?]; [left; split; [done|lia]|by right]. }
      exists w. apply Hva. by right.
Qed.

Definition done_node (b i : Z) (s0 s : Interp H) : Prop := before b (i + 1) s /\ frame s0 s.
Definition failed_node (n : NodeRecord) (o : Opcode) (t : PythType) (s0 : Interp H)
    (e : RuntimeError) (s : Interp H) : Prop := error_allowed n o t e /\ frame s0 s.

Lemma store_value_ok b i n o t v s0 s :
  at_node b i n o t -> before b i s -> frame s0 s -> value_ok p i v t -> keeps_result o = false ->
  (forall producer l, v = Val.HostUtf8 producer l -> exists r, result_at s producer r /\ text_ok r l) ->
  wpM (store_value i v) s (fun _ => done_node b i s0) (failed_node n o t s0).
Proof.
  intros Ha Hb Hf Hvok Hk Hfr. unfold store_value. m_step. m_step.
  destruct (proj2 (get_is_Some (values s) i)) as [old Hold].
  { destruct Hb as [[? _ _ _ _ _] _]. by pose proof (at_node_range _ _ _ _ _ Ha); lia. }
  rewrite Hold. m_step. split; [|done]. by eapply before_store; eauto.
Qed.

Lemma keep_host_result_ok b i n o t r s0 s :
  at_node b i n o t -> before b i s -> frame s0 s -> keeps_result o = true -> t = Ty.Effect ->
  result_wf r -> hr_bytes_len r <= MAX_HOST_RESULT_BYTES ->
  wpM (keep_host_result i r) s (fun _ => done_node b i s0) (failed_node n o t s0).
Proof.
  intros Ha Hb Hf Hk -> Hwf Hl. pose proof (at_node_range _ _ _ _ _ Ha) as Hi.
  assert (len (values s) = 1024 /\ len (host_results s) = 1024) as [Hl1 Hl2].
  { by destruct Hb as [[] _]. }
  unfold keep_host_result. m_step. m_step. m_step.
  destruct (proj2 (get_is_Some (host_results s) i)) as [old ->]; [lia|]. m_step.
  unfold store_value. m_step. m_step. simpl.
  destruct (proj2 (get_is_Some (values s) i)) as [old' ->]; [lia|]. m_step.
  split; [|done]. eapply before_store; [done|done|done|done| |done]. right. by exists r.
Qed.

Definition input_ready (s : Interp H) (input : Z) (e : PythType) : Prop :=
  exists v, value_at s input v /\ value_ok p input v e.

(** The declared inputs of a node can be read when it runs. *)
Lemma inputs_ready b i n o t s k input e :
  at_node b i n o t -> before b i s -> o <> Op.Jump -> o <> Op.HostResult ->
  get (node_inputs n) k = Some input -> get (inputs (signature o)) k = Some e ->
  (k <? input_count (signature o)) = true -> input_ready s input e.
Proof.
  intros Ha [Hso Hrd] Hj Hh Hin He Hk.
  destruct (no_signature _ _ _ _ _ (an_ok _ _ _ _ _ Ha) Hj Hh) as [_ Hsig].
  specialize (Hsig k input Hin). rewrite Hk in Hsig. destruct Hsig as (e' & He' & Hne & _ & _ & Hte).
  simplify_eq. destruct (ver_available p Hv i n k input) as [_ (b' & c & Hb' & Hc & Hcase)];
    [apply Ha|done|done|].
  rewrite (owner_unique p Hv b' b i Hb' (an_owns _ _ _ _ _ Ha)) in Hcase.
  destruct (Hrd input c Hc) as [v Hval]; [|done|].
  { intros Hu. rewrite Hte in Hu. injection Hu as ->.
    eapply signature_inputs; [|exact He|done]. apply get_Some in He. lia. }
  exists v. split; [done|]. destruct (so_typed _ _ Hso _ _ Hval) as (t' & Ht' & Hok).
  congruence.
Qed.

Lemma fixed_result b i n o t :
  at_node b i n o t -> o <> Op.Jump -> o <> Op.HostResult -> o <> Op.BlockParam -> o <> Op.ConstU64 ->
  t = result (signature o).
Proof.
  intros Ha Hj Hh Hb Hc.
  destruct (no_signature _ _ _ _ _ (an_ok _ _ _ _ _ Ha) Hj Hh) as [Hacc _].
  unfold opcode_accepts_result in Hacc. apply orb_true_iff in Hacc as [Hacc|Hacc].
  - by apply bool_decide_eq_true in Hacc.
  - by destruct o.
Qed.

(** ** Reading inputs *)

Section reading.
Context (s : Interp H) (input : Z).

Lemma load_ready e (Q : Value -> Interp H -> Prop) (R : RuntimeError -> Interp H -> Prop) :
  input_ready s input e ->
  (forall v, value_at s input v -> value_ok p input v e -> Q v s) -> wpM (load_value input) s Q R.
Proof.
  intros (v & Hval & Hok) HQ. unfold load_value. m_step. m_step. m_step.
  unfold value_at in Hval. rewrite Hval. by apply HQ.
Qed.

Ltac expect_ready :=
  intros Hr HQ; unfold expect_effect, expect_capability, expect_object_id, expect_task_id, expect_u64,
    expect_error_code, expect_bool;
  m_step; eapply load_ready; [exact Hr|]; intros [] _ Hok; first [done | m_step; apply HQ].

Lemma wp_expect_effect (Q : Z -> Interp H -> Prop) R :
  input_ready s input Ty.Effect -> (forall x, Q x s) -> wpM (expect_effect input) s Q R.
Proof. expect_ready. Qed.
Lemma wp_expect_object_id (Q : Z -> Interp H -> Prop) R :
  input_ready s input Ty.ObjectId -> (forall x, Q x s) -> wpM (expect_object_id input) s Q R.
Proof. expect_ready. Qed.
Lemma wp_expect_task_id (Q : Z -> Interp H -> Prop) R :
  input_ready s input Ty.TaskId -> (forall x, Q x s) -> wpM (expect_task_id input) s Q R.
Proof. expect_ready. Qed.
Lemma wp_expect_u64 (Q : Z -> Interp H -> Prop) R :
  input_ready s input Ty.U64 -> (forall x, Q x s) -> wpM (expect_u64 input) s Q R.
Proof. expect_ready. Qed.
Lemma wp_expect_error_code (Q : Z -> Interp H -> Prop) R :
  input_ready s input Ty.ErrorCode -> (forall x, Q x s) -> wpM (expect_error_code input) s Q R.
Proof. expect_ready. Qed.
Lemma wp_expect_bool (Q : bool -> Interp H -> Prop) R :
  input_ready s input Ty.Bool -> (forall x, Q x s) -> wpM (expect_bool input) s Q R.
Proof. expect_ready. Qed.
Lemma wp_expect_capability (Q : PackedCapability -> Interp H -> Prop) R :
  input_ready s input Ty.Capability -> (forall c, value_at s input (Val.Capability c) -> Q c s) ->
  wpM (expect_capability input) s Q R.
Proof.
  intros Hr HQ. unfold expect_capability. m_step. eapply load_ready; [exact Hr|].
  intros [] Hval Hok; try done. m_step. by apply HQ.
Qed.

Lemma wp_expect_bytes (Q : list byte -> Interp H -> Prop) R :
  input_ready s input Ty.Bytes -> (forall x, Q x s) -> wpM (expect_bytes p input) s Q R.
Proof.
  intros Hr HQ. unfold expect_bytes. m_step. eapply load_ready; [exact Hr|].
  intros v _ Hok. destruct v as [| | | |offset l []| | | | | | | |]; try done.
  destruct Hok as [Hu [r Hr']]. m_step. m_step. unfold checked_add. rewrite checked_id by done.
  simpl. m_step. rewrite Hr'. apply HQ.
Qed.

Lemma wp_expect_utf8_bytes i (Q : list byte -> Interp H -> Prop) R :
  store_ok i s -> 0 <= i < len (nodes p) -> op_at p i <> Some Op.HostResult ->
  input_ready s input Ty.Utf8 -> (forall x, Q x s) -> wpM (expect_utf8_bytes p input) s Q R.
Proof.
  intros Hso Hi Hop Hr HQ. unfold expect_utf8_bytes. m_step. eapply load_ready; [exact Hr|].
  intros v Hval Hok. destruct v as [| | | |offset l []| | | | | | | |producer l]; try done.
  - destruct Hok as [Hu [text Htext]]. m_step. m_step. rewrite checked_id by done. simpl.
    m_step. rewrite Htext. simpl. apply HQ.
  - destruct Hok as (_ & _ & Hl).
    destruct (so_fresh _ _ (store_ok_moves i (input + 1) s Hi Hop Hso) input producer l Hval)
      as (r & Hres & text & Hpre & Hutf); [lia|].
    unfold result_at in Hres. m_step. m_step. m_step. m_step. rewrite Hres. simpl.
    m_step. m_step. apply wp_reject; [intros _|lia]. m_step. m_step. rewrite Hpre. simpl.
    m_step. m_step. rewrite Hutf. simpl. m_step. apply HQ.
Qed.
End reading.
(** ** Node bodies *)

(** Host calls leave the interpreter's own state alone. *)
Lemma before_set_host b i s h : before b i s -> before b i (set_host h s).
Proof. intros Hb. by eapply before_frame. Qed.

Lemma frame_set_host s0 s h : frame s0 s -> frame s0 (set_host h s).
Proof. done. Qed.

Lemma host_utf8_value_ok j n producer r :
  get (nodes p) j = Some n -> n_input0 n = producer -> op_at p j = Some Op.HostResult -> result_wf r ->
  wp (host_utf8_value producer r)
    (fun v => value_ok p j v Ty.Utf8 /\
       forall producer' l, v = Val.HostUtf8 producer' l -> producer' = producer /\ text_ok r l)
    (fun e => e = InvalidString).
Proof.
  intros Hn Hp Hop [_ Hu _ _ _ _]. unfold uint in Hu. unfold host_utf8_value.
  wp_step. apply wp_reject; [|done]. intros Hl.
  destruct (result_prefix_ok r (hr_bytes_len r)) as [text Htext]; [lia|]. rewrite Htext. simpl.
  wp_step. apply wp_reject; [|done]. intros Hutf. wp_step. split.
  - split; [done|]. split; [by exists n|lia].
  - intros ? ? [= <- <-]. split; [done|]. exists text. split; [done|]. by apply negb_false_iff.
Qed.

(** The projection of a host result agrees with the type the verifier gave it. *)
Lemma projection_ok j n r po t :
  get (nodes p) j = Some n -> op_at p j = Some Op.HostResult -> result_wf r ->
  host_result_field_type po (n_auxiliary0 n) = Some t ->
  wp (match po with
      | Op.TaskContextRead => task_context_host_result_value (n_input0 n) (n_auxiliary0 n) r
      | Op.CommandRead => command_host_result_value (n_input0 n) (n_auxiliary0 n) r
      | _ => object_host_result_value (n_input0 n) (n_auxiliary0 n) r
      end)
    (fun v => value_ok p j v t /\
       forall producer l, v = Val.HostUtf8 producer l -> producer = n_input0 n /\ text_ok r l)
    (fun e => (e = InvalidValue /\ t = Ty.Capability) \/ (e = InvalidString /\ t = Ty.Utf8)).
Proof.
  intros Hn Hop Hwf. pose proof (host_utf8_value_ok j n (n_input0 n) r Hn eq_refl Hop Hwf) as Hu.
  generalize (n_auxiliary0 n). intros field Hft.
  assert (wp (host_utf8_value (n_input0 n) r)
    (fun v => value_ok p j v Ty.Utf8 /\
       forall producer l, v = Val.HostUtf8 producer l -> producer = n_input0 n /\ text_ok r l)
    (fun e => (e = InvalidValue /\ Ty.Utf8 = Ty.Capability) \/ (e = InvalidString /\ Ty.Utf8 = Ty.Utf8)))
    as Hu' by (eapply wp_mono; [exact Hu|done|by right]).
  unfold host_result_field_type, task_context_host_result_value, command_host_result_value,
    object_host_result_value in *.
  destruct po; try discriminate Hft;
    repeat match type of Hft with
    | (if ?x =? ?y then _ else _) = _ =>
        destruct (Z.eqb_spec x y); [subst field; injection Hft as <-|]
    end; try discriminate Hft; cbn;
    first [exact Hu' | by (split; [done|]) | idtac].
  all: destruct (raw (hr_capability r) =? 0); simpl; [by left|by split].
Qed.

Lemma field_keeps o field t : host_result_field_type o field = Some t -> keeps_result o = true.
Proof. by destruct o. Qed.

(** The producer of a projection has run and left its result. *)
Lemma producer_result b i n t s :
  at_node b i n Op.HostResult t -> before b i s ->
  exists producer po r, get (nodes p) (n_input0 n) = Some producer /\
    opcode_try_from (n_opcode producer) = Some po /\ result_at s (n_input0 n) r /\ result_wf r /\
    host_result_field_type po (n_auxiliary0 n) = Some t.
Proof.
  intros Ha [Hso Hrd]. pose proof (at_node_range _ _ _ _ _ Ha) as Hi.
  pose proof (no_host_result _ _ _ _ _ (an_ok _ _ _ _ _ Ha) eq_refl) as Hhr.
  destruct Hhr as [Hb _ (po & Hpo & Heff & Hft)].
  destruct (ver_available p Hv i n 0 (n_input0 n)) as [Hr (b' & c & Hb' & Hc & Hcase)];
    [apply Ha|done|unfold NO_VALUE, u32_max; lia|].
  rewrite (owner_unique p Hv b' b i Hb' (an_owns _ _ _ _ _ Ha)) in Hcase.
  destruct (node_at p Hv (n_input0 n) Hr) as (m & o & t' & Hm & Ho & Ht' & Hoc & _ & Hok).
  rewrite Hpo in Ho. injection Ho as <-.
  assert (ty_at p (n_input0 n) <> Some Ty.Unit) as Hnu.
  { rewrite Ht'. destruct (no_signature _ _ _ _ _ Hok) as [Hacc _]; [by destruct po..|].
    destruct po; try discriminate Heff;
      unfold opcode_accepts_result in Hacc; simpl in Hacc; rewrite orb_false_r in Hacc;
      apply bool_decide_eq_true in Hacc; by subst. }
  destruct (Hrd _ _ Hc Hnu Hcase) as [v Hval].
  destruct (so_kept _ _ Hso _ _ _ Hval Hpo (field_keeps _ _ _ Hft)) as [r Hres].
  exists m, po, r. split_and!; [done..| |done]. by eapply so_results.
Qed.

Lemma execute_host_result_ok b i n t s :
  at_node b i n Op.HostResult t -> before b i s ->
  wpM (execute_host_result p i n) s (fun _ => done_node b i s) (failed_node n Op.HostResult t s).
Proof.
  intros Ha Hb. destruct (producer_result _ _ _ _ _ Ha Hb) as (m & po & r & Hm & Hpo & Hres & Hwf & Hft).
  unfold execute_host_result. rewrite Hm. m_step. m_step. simpl. m_step. m_step. rewrite Hpo. simpl.
  m_step. m_step. m_step. m_step. unfold result_at in Hres. rewrite Hres. simpl. m_step. m_step.
  eapply wp_mono; [eapply (projection_ok i); [apply Ha|apply Ha|done|exact Hft]|..].
  - intros v [Hvok Htext]. eapply store_value_ok; [done|done|done|done|done|].
    intros producer l Heq. destruct (Htext producer l Heq) as [-> ?]. by exists r.
  - intros e [[-> ->]|[-> ->]]; (split; [|done]); simpl; auto.
Qed.

Lemma utf8_reference b i n t :
  at_node b i n Op.ConstUtf8 t ->
  uint 16 (n_auxiliary1 n) /\ exists text, string_at p (n_auxiliary0 n) (n_auxiliary1 n) = Ok text.
Proof.
  intros Ha. destruct (proj2 (ver_references p Hv) i n _ (an_node _ _ _ _ _ Ha) (an_op _ _ _ _ _ Ha))
    as (text & Href & _).
  unfold referenced_bytes in Href. destruct (checked_add 32 (n_auxiliary0 n) (n_auxiliary1 n)) as [e|] eqn:He;
    [|done]. simpl in Href. assert (He' := He). apply checked_Some in He' as [-> _].
  split; [|exists text; unfold string_at; rewrite He; simpl; by rewrite Href].
  apply get_range_Some in Href as (? & ? & _).
  pose proof (len_string_table p (ver_decoded p Hv)) as Hlen.
  pose proof (dec_strings_len p (ver_decoded p Hv)) as Hmax. unfold MAX_STRING_TABLE_BYTES in Hmax.
  unfold uint. lia.
Qed.

Lemma bytes_reference b i n t :
  at_node b i n Op.ConstBytes t ->
  uint 64 (n_auxiliary0 n + n_auxiliary1 n) /\
  is_Some (get_range (constant_pool p) (n_auxiliary0 n) (n_auxiliary0 n + n_auxiliary1 n)).
Proof.
  intros Ha. pose proof (proj2 (ver_references p Hv) i n _ (an_node _ _ _ _ _ Ha) (an_op _ _ _ _ _ Ha))
    as [text Href].
  unfold referenced_bytes in Href. destruct (checked_add 32 (n_auxiliary0 n) (n_auxiliary1 n)) as [e|] eqn:He;
    [|done]. simpl in Href. apply checked_Some in He as [-> Hu].
  split; [unfold uint in *; lia|by eexists].
Qed.
(** Discharges [input_ready] from the declared signature. *)
Ltac ready_input Ha Hb :=
  let go k := (eapply (inputs_ready _ _ _ _ _ _ k);
    [exact Ha|exact Hb|done|done|reflexivity|reflexivity|reflexivity]) in
  solve [go 0 | go 1 | go 2 | go 3].

(** Reads the declared inputs of a node body one after the other. *)
Ltac read_inputs Ha Hb :=
  repeat (apply wpM_bind; first
    [ apply wp_expect_effect; [ready_input Ha Hb|intros ?]
    | apply wp_expect_capability; [ready_input Ha Hb|intros ? ?]
    | apply wp_expect_object_id; [ready_input Ha Hb|intros ?]
    | apply wp_expect_task_id; [ready_input Ha Hb|intros ?]
    | apply wp_expect_u64; [ready_input Ha Hb|intros ?]
    | apply wp_expect_error_code; [ready_input Ha Hb|intros ?]
    | apply wp_expect_bytes; [ready_input Ha Hb|intros ?]
    | eapply wp_expect_utf8_bytes; [apply Hb|eapply owns_range; [done|apply Ha]
        |rewrite (an_op _ _ _ _ _ Ha); done|ready_input Ha Hb|intros ?] ]).

(** A store of a value without host text. *)
Ltac store_plain :=
  eapply store_value_ok;
    [eassumption|solve [assumption|apply before_set_host; assumption]|done
    |done|done|done].

Lemma validate_task_context_ok r :
  result_wf r ->
  wp (validate_task_context_result r) (fun _ => hr_bytes_len r <= MAX_HOST_RESULT_BYTES)
    (fun e => e = InvalidValue \/ e = InvalidString).
Proof.
  intros [_ Hu _ _ _ _]. unfold uint in Hu. unfold validate_task_context_result.
  wp_step. apply wp_reject; [intros Hc|auto].
  destruct (result_prefix_ok r (hr_bytes_len r)) as [text ->]; [lia|]. simpl.
  apply wp_reject; [lia|auto].
Qed.

Lemma validate_command_read_ok r :
  result_wf r ->
  wp (validate_command_read_result r) (fun _ => hr_bytes_len r <= MAX_HOST_RESULT_BYTES)
    (fun e => e = InvalidValue \/ e = InvalidString).
Proof.
  intros [_ Hu _ _ _ _]. unfold uint in Hu. unfold validate_command_read_result.
  wp_step. apply wp_ok_or; [intros k _|auto]. wp_step. apply wp_reject; [intros Hc|auto].
  destruct (result_prefix_ok r (hr_bytes_len r)) as [text ->]; [lia|]. simpl.
  apply wp_reject; [lia|auto].
Qed.

Lemma store_host_result_ok b i n o t r s0 s :
  at_node b i n o t -> before b i s -> frame s0 s -> keeps_result o = true -> t = Ty.Effect ->
  result_wf r ->
  wpM (store_host_result i r) s (fun _ => done_node b i s0) (failed_node n o t s0).
Proof.
  intros Ha Hb Hf Hk Ht Hwf. unfold store_host_result, validate_host_call_result. m_step. m_step.
  apply wp_reject; [intros Hc|intros _; split; [by left|done]].
  eapply keep_host_result_ok; try done. lia.
Qed.

Lemma execute_const_u64_ok b i n t s :
  at_node b i n Op.ConstU64 t -> before b i s ->
  wpM (execute_const_u64 i n) s (fun _ => done_node b i s) (failed_node n Op.ConstU64 t s).
Proof.
  intros Ha Hb. unfold execute_const_u64, result_type_of. rewrite (an_type _ _ _ _ _ Ha).
  m_step. m_step. simpl.
  destruct (no_signature _ _ _ _ _ (an_ok _ _ _ _ _ Ha) ltac:(done) ltac:(done)) as [Hacc _].
  destruct t; try discriminate Hacc; try store_plain.
  m_step. m_step. apply wp_ok_or; [intros c _; store_plain|].
  intros Hc%checked_None. split; [|done]. right; right. split; [done|]. split; [done|].
  destruct (node_wf_get p (ver_decoded p Hv) _ _ (an_node _ _ _ _ _ Ha)) as
    (? & ? & ? & ? & ? & ? & ? & ? & ? & ? & Him). unfold uint in *. lia.
Qed.

Lemma execute_const_bool_ok b i n t s :
  at_node b i n Op.ConstBool t -> before b i s ->
  wpM (execute_const_bool i n) s (fun _ => done_node b i s) (failed_node n Op.ConstBool t s).
Proof.
  intros Ha Hb. unfold execute_const_bool, result_type_of. rewrite (an_type _ _ _ _ _ Ha).
  pose proof (fixed_result _ _ _ _ _ Ha) as Ht. simpl in Ht. rewrite Ht in * by done. clear Ht.
  m_step. m_step. simpl.
  destruct (can_nodes p (ver_canonical p Hv) i n _ (an_node _ _ _ _ _ Ha) (an_op _ _ _ _ _ Ha))
    as [_ Hcan]. simpl in Hcan. apply andb_true_iff in Hcan as [_ Hcan].
  destruct (n_immediate n =? 0); [store_plain|]. destruct (n_immediate n =? 1); [store_plain|done].
Qed.

Lemma execute_block_param_ok b i n t s :
  at_node b i n Op.BlockParam t -> before b i s ->
  wpM (execute_block_param import_caps i n) s (fun _ => done_node b i s)
    (failed_node n Op.BlockParam t s).
Proof.
  intros Ha Hb. unfold execute_block_param, result_type_of. rewrite (an_type _ _ _ _ _ Ha).
  m_step. m_step. simpl. case_bool_decide as Ht; simpl.
  - m_step. m_step. apply wp_ok_or; [intros c _|done].
    destruct (raw c =? 0); [m_step; done|]. subst t. store_plain.
  - m_step. split; [|done]. right. done.
Qed.

Lemma execute_references_ok b i n o t s :
  at_node b i n o t -> before b i s -> (o = Op.ConstUtf8 \/ o = Op.ConstBytes) ->
  wpM (execute_node p import_caps i n o) s (fun _ => done_node b i s) (failed_node n o t s).
Proof.
  intros Ha Hb Ho. pose proof (fixed_result _ _ _ _ _ Ha) as Ht.
  rewrite Ht in * by (by destruct Ho; subst o). clear Ht.
  destruct Ho as [->| ->]; cbn [execute_node].
  - destruct (utf8_reference _ _ _ _ Ha) as [Hu [text Htext]]. unfold execute_const_utf8.
    m_step. m_step. rewrite checked_id by done. simpl. m_step. m_step. rewrite Htext. simpl.
    eapply store_value_ok; [done|done|done| |done|done]. split; [done|]. by exists text.
  - destruct (bytes_reference _ _ _ _ Ha) as [Hu [text Htext]]. unfold execute_const_bytes.
    m_step. m_step. unfold checked_add. rewrite checked_id by done. simpl. m_step. m_step.
    rewrite Htext. simpl. eapply store_value_ok; [done|done|done| |done|done]. by split.
Qed.
(** A host call whose result is stored: the reads, the call, the checks. *)
Ltac host_node Ha Hb wf :=
  read_inputs Ha Hb; m_step; m_step; [by split|];
  eapply store_host_result_ok; [exact Ha|by apply before_set_host|done|done|done|by eapply wf].

Ltac effect_node_body Ha Hb :=
  read_inputs Ha Hb; m_step; m_step; [by split|]; store_plain.

Lemma execute_node_ok b i n o t s :
  at_node b i n o t -> before b i s -> is_terminator o = false ->
  wpM (execute_node p import_caps i n o) s (fun _ => done_node b i s) (failed_node n o t s).
Proof.
  intros Ha Hb Hterm.
  destruct (decide (o = Op.ConstUtf8 \/ o = Op.ConstBytes)) as [Href|Href];
    [by apply execute_references_ok|].
  destruct (implemented o) eqn:Himpl.
  2: { destruct o; try discriminate Himpl; cbn [execute_node]; m_step; (split; [by left|done]). }
  destruct (decide (o = Op.HostResult)) as [->|Hh]; [by apply execute_host_result_ok|].
  destruct (decide (o = Op.ConstU64)) as [->|Hc]; [by apply execute_const_u64_ok|].
  destruct (decide (o = Op.BlockParam)) as [->|Hp]; [by apply execute_block_param_ok|].
  destruct (decide (o = Op.ConstBool)) as [->|Hcb]; [by apply execute_const_bool_ok|].
  pose proof (an_type _ _ _ _ _ Ha) as Htc.
  pose proof (fixed_result _ _ _ _ _ Ha) as Ht. rewrite Ht in * by (by destruct o). clear Ht.
  destruct o; try done; try (exfalso; tauto); cbn [execute_node].
  - store_plain.
  - unfold execute_eq, result_type_of. rewrite Htc. m_step. m_step. simpl. read_inputs Ha Hb. store_plain.
  - unfold execute_less_than_u64, result_type_of. rewrite Htc. m_step. m_step. simpl.
    read_inputs Ha Hb. store_plain.
  - unfold execute_system_log. effect_node_body Ha Hb.
  - unfold execute_object_create. host_node Ha Hb hw_create.
  - unfold execute_object_query. host_node Ha Hb hw_query.
  - unfold execute_object_inspect. host_node Ha Hb hw_inspect.
  - unfold execute_object_revise. host_node Ha Hb hw_revise.
  - unfold execute_object_history. host_node Ha Hb hw_history.
  - unfold execute_task_proposal_emit. effect_node_body Ha Hb.
  - unfold execute_task_context. read_inputs Ha Hb. m_step. m_step; [by split|]. m_step. m_step.
    match goal with Hc : task_context _ _ = (inr ?r, _) |- _ =>
      assert (result_wf r) as Hwf by (by eapply hw_task_context) end.
    eapply wp_mono; [by apply validate_task_context_ok|..].
    + intros ? Hl. eapply keep_host_result_ok; [exact Ha|by apply before_set_host|done..].
    + intros e [-> | ->]; (split; [simpl; auto|done]).
  - unfold execute_command_read. read_inputs Ha Hb. m_step. m_step; [by split|]. m_step. m_step.
    match goal with Hc : command_read _ _ = (inr ?r, _) |- _ =>
      assert (result_wf r) as Hwf by (by eapply hw_command_read) end.
    eapply wp_mono; [by apply validate_command_read_ok|..].
    + intros ? Hl. eapply keep_host_result_ok; [exact Ha|by apply before_set_host|done..].
    + intros e [-> | ->]; (split; [simpl; auto|done]).
  - unfold execute_command_result_emit. effect_node_body Ha Hb.
Qed.
(** ** Blocks and runs *)

(** Why a run of a verified package ended early. *)
Definition run_failed (e : RuntimeError) (s : Interp H) : Prop :=
  match e with
  | BudgetExhausted => budget s = 0
  | _ => exists n o t, get (nodes p) (last_node s) = Some n /\ op_at p (last_node s) = Some o /\
      ty_at p (last_node s) = Some t /\ error_allowed n o t e
  end.

Lemma failed_run n o t b i s s' e :
  at_node b i n o t -> last_node s = i -> failed_node n o t s e s' -> run_failed e s'.
Proof.
  intros Ha Hi [Hall (_ & _ & Hl)]. unfold run_failed. rewrite Hl, Hi.
  destruct e; try (exists n, o, t; split_and!; [apply Ha..|done]). done.
Qed.

Lemma dispatch_node_ok b i n o t s :
  at_node b i n o t -> before b i s -> funded s ->
  wpM (dispatch_node p import_caps i) s
    (fun _ s' => before b (if is_terminator o then i else i + 1) s') run_failed.
Proof.
  intros Ha Hb (_ & Hbud & Hex & Hu). unfold uint in Hu. pose proof (at_node_range _ _ _ _ _ Ha) as Hi.
  apply dispatch_node_rule; [lia|lia|done|]. intros _. split; [intros Hn; unfold uint in Hn; lia|].
  intros _. split; [intros Hn; rewrite (an_node _ _ _ _ _ Ha) in Hn; done|].
  intros n' Hn'. rewrite (an_node _ _ _ _ _ Ha) in Hn'. injection Hn' as <-.
  rewrite (an_opcode _ _ _ _ _ Ha). split; [done|]. intros o' [= <-].
  set (s2 := set_last_node i (set_executed (executed_nodes s + 1) (spend s))).
  assert (before b i s2) as Hb2 by (by eapply before_frame).
  destruct (is_terminator o) eqn:Hterm; [by destruct o|].
  eapply wpM_mono; [by apply execute_node_ok|intros _ s' [? _]; done|].
  intros e s' Hf. by eapply (failed_run n o t b i s2).
Qed.

(** Leaving a block through its terminator prepares the target. *)
Lemma before_jump b i n o t s c blk :
  at_node b i n o t -> is_terminator o = true -> (forall j, owns p b j -> j <= i) ->
  before b i s -> edge p b c -> get (blocks p) c = Some blk -> before c (b_first_node blk) s.
Proof.
  intros Ha Hterm Hlast [Hso Hrd] Hedge Hblk. split.
  - apply (store_ok_moves i); [by eapply owns_range, an_owns| |exact Hso].
    rewrite (an_op _ _ _ _ _ Ha). intros [= ->]. done.
  - intros j d Hd Hnu [[-> Hj]|[Hne Hdom]].
    + destruct Hd as (blk' & Hblk' & ?). simplify_eq. lia.
    + apply (Hrd j d Hd Hnu). destruct (decide (d = b)) as [->|Hdb].
      * left. split; [done|]. specialize (Hlast j Hd). destruct (decide (j = i)) as [->|]; [|lia].
        exfalso. apply Hnu. eapply terminator_unit; [done|done|apply Ha|done].
      * right. split; [done|]. eapply dominates_pred; eauto.
Qed.

(** What a block leaves: the state before the first node of a successor. *)
Definition block_done (b : Z) (out : BlockOutcome) (s : Interp H) : Prop :=
  match out with
  | BReturn => True
  | BJump c => edge p b c /\ exists blk, get (blocks p) c = Some blk /\ before c (b_first_node blk) s
  end.

Lemma run_terminator_ok b blk i n o t s :
  get (blocks p) b = Some blk -> i = b_end blk - 1 -> at_node b i n o t -> is_terminator o = true ->
  before b i s ->
  wpM (match o with
       | Op.Return => mret BReturn
       | Op.Jump => jump_to p (n_auxiliary0 n)
       | Op.Branch =>
           x ← expect_bool (n_input0 n);
           jump_to p (if (x : bool) then n_auxiliary0 n else n_auxiliary1 n)
       | _ => mret BReturn
       end) s (block_done b) run_failed.
Proof.
  intros Hblk Hi Ha Hterm Hb.
  pose proof (bs_block p (ver_blocks p Hv) b blk Hblk) as Hbo.
  assert (succs p b = match o with Op.Jump => [n_auxiliary0 n]
            | Op.Branch => [n_auxiliary0 n; n_auxiliary1 n] | _ => [] end) as Hs.
  { unfold succs. rewrite Hblk, (bo_terminator _ _ _ Hbo), <- Hi, (an_node _ _ _ _ _ Ha),
      (an_opcode _ _ _ _ _ Ha). by destruct o. }
  assert (forall c, c ∈ succs p b -> wpM (jump_to p c) s (block_done b) run_failed) as Hjump.
  { intros c Hc. apply jump_to_wp; [|intros []; by apply (ver_targets p Hv b)].
    intros [blk' Hblk']%get_is_Some. split; [done|]. exists blk'. split; [done|].
    eapply before_jump; [done|done| |done|done|done].
    intros j (blk0 & Hblk0 & Hj). simplify_eq. lia. }
  rewrite Hs in Hjump. destruct o; try discriminate Hterm.
  - apply Hjump. set_solver.
  - m_step. apply wp_expect_bool; [ready_input Ha Hb|]. intros []; apply Hjump; set_solver.
  - by m_step.
Qed.

Lemma run_nodes_ok b blk i s :
  get (blocks p) b = Some blk -> b_first_node blk <= i < b_end blk -> before b i s -> funded s ->
  wpM (run_nodes p import_caps (range i (b_end blk))) s (block_done b) run_failed.
Proof.
  intros Hblk. remember (Z.to_nat (b_end blk - i)) as k eqn:Hk. revert i s Hk.
  induction k as [|k IH]; intros i s Hk Hi Hb Hf; [lia|].
  pose proof (bs_block p (ver_blocks p Hv) b blk Hblk) as Hbo.
  destruct (at_node_intro b i) as (n & o & t & Ha); [by exists blk|].
  rewrite range_cons by lia. cbn [run_nodes]. m_step.
  eapply wpM_mono; [apply (wpM_and _ _ _ _ _ _ (dispatch_node_ok b i n o t s Ha Hb Hf)
    (dispatch_node_spent p import_caps s i Hf))| |by intros e s' [? _]].
  intros _ s1 [Hb1 [Hs1 _]]. m_step. m_step. rewrite (an_node _ _ _ _ _ Ha). simpl.
  m_step. m_step. rewrite (an_opcode _ _ _ _ _ Ha). simpl.
  destruct (is_terminator o) eqn:Hterm.
  - assert (i = b_end blk - 1) as Hend.
    { destruct (decide (i = b_end blk - 1)); [done|]. exfalso.
      pose proof (bo_body _ _ _ Hbo i ltac:(lia)) as Hnt. unfold term_at in Hnt.
      rewrite (an_op _ _ _ _ _ Ha) in Hnt. congruence. }
    pose proof (run_terminator_ok b blk i n o t s1 Hblk Hend Ha Hterm Hb1) as Ht.
    by destruct o.
  - assert (i + 1 < b_end blk) as Hlt.
    { destruct (decide (i = b_end blk - 1)) as [->|]; [|lia]. exfalso.
      pose proof (bo_last _ _ _ Hbo) as Hl. unfold term_at in Hl.
      rewrite (an_op _ _ _ _ _ Ha) in Hl. congruence. }
    assert (wpM (run_nodes p import_caps (range (i + 1) (b_end blk))) s1 (block_done b) run_failed) as Hr.
    { apply IH; [lia|lia|done|apply Hs1]. }
    by destruct o.
Qed.
Lemma run_blocks_ok fuel b blk s :
  get (blocks p) b = Some blk -> before b (b_first_node blk) s -> funded s ->
  budget s < Z.of_nat fuel ->
  wpM (run_blocks p import_caps fuel b) s (fun _ _ => True) run_failed.
Proof.
  revert b blk s. induction fuel as [|fuel IH]; intros b blk s Hblk Hb Hf Hfuel.
  { destruct Hf as (_ & ? & _). lia. }
  pose proof (bs_block p (ver_blocks p Hv) b blk Hblk) as Hbo.
  destruct (block_wf_get p (ver_decoded p Hv) _ _ Hblk) as (_ & Hf0 & _). unfold uint in Hf0.
  pose proof (bo_end _ _ _ Hbo). pose proof (bo_count _ _ _ Hbo).
  pose proof (nodes_bound p (ver_decoded p Hv)).
  cbn [run_blocks]. m_step. unfold execute_block. rewrite Hblk. m_step. m_step. simpl.
  m_step. m_step. unfold checked_add. rewrite checked_id by (unfold uint, b_end in *; lia). simpl.
  fold (b_end blk).
  eapply wpM_mono; [apply (wpM_and _ _ _ _ _ _
      (run_nodes_ok b blk (b_first_node blk) s Hblk ltac:(unfold b_end; lia) Hb Hf)
      (run_nodes_spent p import_caps (range (b_first_node blk) (b_end blk)) s Hf))
    | |by intros e s' [? _]].
  intros [|c] s1 [Hdone [Hs1 Hlt]]; [by m_step|].
  destruct Hdone as (_ & blk' & Hblk' & Hb'). eapply IH; [done|done|apply Hs1|lia].
Qed.

Lemma new_interpreter_before bud (h : H) blk :
  get (blocks p) (entry p) = Some blk -> before (entry p) (b_first_node blk) (new_interpreter bud h).
Proof.
  intros Hblk. unfold before, ready, new_interpreter, value_at. split.
  - constructor; unfold value_at, result_at; cbn [values host_results].
    1,2: by rewrite len_replicate.
    all: intros *; intros [Hc _]%get_replicate; discriminate Hc.
  - intros j c (blk' & Hblk' & Hj) _ [[-> Hlt]|[Hne Hdom]].
    + simplify_eq. lia.
    + specialize (Hdom _ (walk_entry p)). set_solver.
Qed.

Lemma execute_inner_ok bud (h : H) :
  uint 64 bud ->
  wpM (execute_inner p import_caps) (new_interpreter bud h) (fun _ _ => True) run_failed.
Proof.
  intros Hu. destruct (proj2 (get_is_Some _ _) (ver_entry p Hv)) as [blk Hblk].
  unfold execute_inner. m_step. m_step. fold (entry p).
  eapply run_blocks_ok; [done|by apply new_interpreter_before|by apply new_interpreter_funded|].
  unfold uint in Hu. cbn [budget new_interpreter]. lia.
Qed.
End runs.

(** ** Theorems *)

(** What the exit record of a verified package says. *)
Definition record_explained (p : PythGraphPackage) (bud : Z) (r : GraphExitRecord) : Prop :=
  (ex_status r = GRAPH_EXIT_OK /\ ex_error_code r = 0) \/
  (ex_status r = GRAPH_EXIT_BUDGET_EXHAUSTED /\ ex_executed_nodes r = bud) \/
  (ex_status r = GRAPH_EXIT_RUNTIME_ERROR /\
   exists e n o t, ex_error_code r = runtime_error_code e /\
     get (nodes p) (ex_last_node r) = Some n /\ op_at p (ex_last_node r) = Some o /\
     ty_at p (ex_last_node r) = Some t /\ error_allowed n o t e).

Lemma safe_run {H : Type} `{HostWf H} (p : PythGraphPackage)
    (import_caps : list PackedCapability) (bud : Z) (h : H) :
  verified p -> jumps_unit p -> uint 64 bud ->
  exists r s', execute p import_caps (new_interpreter bud h) = (Ok r, s') /\ record_explained p bud r.
Proof.
  intros Hv Hju Hu.
  pose proof (wpM_and _ _ _ _ _ _
    (execute_inner_ok p Hv Hju import_caps bud h Hu)
    (execute_inner_spent p import_caps _ (new_interpreter_funded bud h Hu))) as Hw.
  unfold wpM in Hw. unfold execute, record_explained.
  destruct (execute_inner p import_caps (new_interpreter bud h)) as [[u|e| |] s'];
    try done; destruct Hw as [Hfail (_ & Hsum & _)].
  - exists (exit_ok s'), s'. split; [done|]. by left.
  - destruct e; eexists _, s'; (split; [done|]); simpl in Hfail; right.
    1: left; split; [done|]; simpl; cbn [budget executed_nodes new_interpreter] in Hsum; lia.
    all: right; split; [done|]; destruct Hfail as (n & o & t & Hn); eexists _, n, o, t;
      (split; [reflexivity|exact Hn]).
Qed.

(** C1: soundness of verification. A package that [verify_bytes] accepts and
    whose jumps declare the [Unit] result of their signature runs, with any
    imports, budget and host, to an exit record that is a normal exit, an
    exhausted budget with every unit spent, or a runtime error which the node
    named in the record may raise: a host failure at a host call, a missing
    import at a capability parameter, an opcode without implementation, a
    malformed host result, or an out-of-range error-code constant. Invalid
    blocks, nodes and inputs, wrongly typed values and unreadable constants do
    not occur. *)
Theorem verified_runs_are_safe {H : Type} `{HostWf H} (bytes : list byte) (g : VerifiedGraph)
    (import_caps : list PackedCapability) (bud : Z) (h : H) :
  verify_bytes bytes = Ok g -> jumps_unit (graph_package g) -> uint 64 bud ->
  exists r s', execute (graph_package g) import_caps (new_interpreter bud h) = (Ok r, s') /\
    record_explained (graph_package g) bud r.
Proof.
  intros Hver Hju Hu. destruct (wp_value _ _ _ (verify_bytes_post bytes) g Hver) as [_ Hv].
  by apply safe_run.
Qed.
