(* ===== verification/TigAuthority.v ===== *)
(** * Authority of running graphs

    A host that records its calls, and the proof that every host call of a
    verified graph presents a capability it was given: either the import whose
    record declares the kind and rights the opcode needs, or a capability that
    an earlier object creation or query of the same run returned. *)

From stdpp Require Import base numbers list sets vector.
From Stdlib Require Import Strings.Byte.
From S2P Require Import Prelude TigTypes TigFormat Utf8 TigVerify TigStructure TigTyping TigVerified TigRuntime TigRuntimeLogic TigSoundness.

(** ** Recording host *)

Record CallEvent : Type := {
  ev_op : Opcode;
  ev_capability : PackedCapability;
  ev_result : option HostCallResult }.

Definition record_call {H A} (o : Opcode) (c : PackedCapability) (keep : A -> option HostCallResult)
    (f : H -> (HostError + A) * H) (h : H * list CallEvent) : (HostError + A) * (H * list CallEvent) :=
  let '(r, h') := f h.1 in
  let kept := match r with inl _ => None | inr a => keep a end in
  (r, (h', {| ev_op := o; ev_capability := c; ev_result := kept |} :: h.2)).

(** The calls of any host, newest first. *)
#[export] Instance recording {H} `{Host H} : Host (H * list CallEvent) := {
  system_log := fun c t => record_call Op.SystemLog c (fun _ => None) (system_log c t);
  object_create := fun c k => record_call Op.ObjectCreate c Some (object_create c k);
  object_query := fun c k => record_call Op.ObjectQuery c Some (object_query c k);
  object_inspect := fun c o => record_call Op.ObjectInspect c Some (object_inspect c o);
  object_revise := fun c o t => record_call Op.ObjectRevise c Some (object_revise c o t);
  object_history := fun c o => record_call Op.ObjectHistory c Some (object_history c o);
  task_context := fun c => record_call Op.TaskContextRead c Some (task_context c);
  task_propose := fun c x y => record_call Op.TaskProposalEmit c (fun _ => None) (task_propose c x y);
  command_read := fun c => record_call Op.CommandRead c Some (command_read c);
  command_result_emit := fun c x t =>
    record_call Op.CommandResultEmit c (fun _ => None) (command_result_emit c x t) }.

(** ** Justified calls *)

Section authority.
Context (p : PythGraphPackage) (import_caps : list PackedCapability).

(** [c] was passed in as the import of a slot declared with this kind and
    these rights. *)
Definition imported (c : PackedCapability) (kind rights : Z) : Prop :=
  exists slot imp, find_import p slot = Some imp /\ get import_caps slot = Some c /\
    i_resource_kind imp = kind /\ i_rights imp = rights.

(** [c] was returned by an object creation or query in [tr]. *)
Definition minted (tr : list CallEvent) (c : PackedCapability) : Prop :=
  exists ev r, ev ∈ tr /\ (ev_op ev = Op.ObjectCreate \/ ev_op ev = Op.ObjectQuery) /\
    ev_result ev = Some r /\ hr_capability r = c.

Definition justified (tr : list CallEvent) (ev : CallEvent) : Prop :=
  exists kind rights, required_resource_kind (signature (ev_op ev)) = Some kind /\
    Z.land rights (required_rights (signature (ev_op ev))) = required_rights (signature (ev_op ev)) /\
    (imported (ev_capability ev) kind rights \/
     (kind = RESOURCE_OBJECT /\ rights = Z.lor RIGHTS_READ RIGHTS_REVISE /\
      minted tr (ev_capability ev))).

Fixpoint trace_justified (tr : list CallEvent) : Prop :=
  match tr with
  | [] => True
  | ev :: tr' => justified tr' ev /\ trace_justified tr'
  end.

Section runs.
Context {H : Type} `{Host H} (Hv : verified p).
Abbreviation T := (H * list CallEvent)%type.
Implicit Types s : Interp T.

(** Where the capability at node [j] came from. *)
Definition cap_from (tr : list CallEvent) (j : Z) (c : PackedCapability) : Prop :=
  exists n, get (nodes p) j = Some n /\
    ((op_at p j = Some Op.BlockParam /\ get import_caps (n_auxiliary0 n) = Some c) \/
     (op_at p j = Some Op.HostResult /\ exists po ev r, op_at p (n_input0 n) = Some po /\
        ev ∈ tr /\ ev_op ev = po /\ ev_result ev = Some r /\ hr_capability r = c)).

Record trace_inv (s : Interp T) : Prop := {
  ti_caps : forall j c, value_at s j (Val.Capability c) -> cap_from (host s).2 j c;
  ti_results : forall j r, result_at s j r ->
    exists o ev, op_at p j = Some o /\ ev ∈ (host s).2 /\ ev_op ev = o /\ ev_result ev = Some r;
  ti_trace : trace_justified (host s).2 }.

Lemma cap_from_cons tr ev j c : cap_from tr j c -> cap_from (ev :: tr) j c.
Proof.
  intros (n & Hn & [?|(Hop & po & ev' & r & ? & ? & ?)]); exists n; (split; [done|]); [by left|].
  right. split; [done|]. exists po, ev', r. split; [done|]. split; [set_solver|done].
Qed.

(** A recorded call that is justified keeps the invariant. *)
Lemma trace_inv_call s h ev :
  trace_inv s -> justified (host s).2 ev -> trace_inv (set_host (h, ev :: (host s).2) s).
Proof.
  intros [Hc Hr Ht] Hj. constructor; simpl.
  - intros j c Hval. by apply cap_from_cons, Hc.
  - intros j r Hres. destruct (Hr j r Hres) as (o & ev' & ? & ? & ?). exists o, ev'.
    split; [done|]. split; [set_solver|done].
  - done.
Qed.

Lemma trace_inv_frame s s' :
  trace_inv s -> values s' = values s -> host_results s' = host_results s -> host s' = host s ->
  trace_inv s'.
Proof.
  intros [Hc Hr Ht] E1 E2 E3.
  constructor; unfold value_at, result_at in *; rewrite ?E1, ?E2, ?E3; done.
Qed.

Lemma trace_inv_set_value s i v :
  0 <= i -> trace_inv s -> (forall c, v = Val.Capability c -> cap_from (host s).2 i c) ->
  trace_inv (set_value i v s).
Proof.
  intros Hi [Hc Hr Ht] Hcap. constructor; [|done|done]. unfold value_at. simpl.
  intros j c Hj. apply get_Some in Hj as [Hjr Hj]. rewrite len_insert in Hjr.
  apply list_lookup_insert_Some in Hj as [(Hji & Hj & ?)|[? Hj]].
  - injection Hj as ->. replace j with i by lia. by apply Hcap.
  - apply Hc. unfold value_at. apply get_Some. done.
Qed.

Lemma trace_inv_set_host_result s i r o ev :
  0 <= i -> trace_inv s -> op_at p i = Some o -> ev ∈ (host s).2 -> ev_op ev = o ->
  ev_result ev = Some r -> trace_inv (set_host_result i r s).
Proof.
  intros Hi [Hc Hr Ht] Ho Hev Heo Her. constructor; [done| |done]. unfold result_at. simpl.
  intros j r' Hj. apply get_Some in Hj as [Hjr Hj]. rewrite len_insert in Hjr.
  apply list_lookup_insert_Some in Hj as [(Hji & Hj & ?)|[? Hj]].
  - injection Hj as ->. replace j with i by lia. by exists o, ev.
  - apply Hr. unfold result_at. apply get_Some. done.
Qed.

(** ** Steps that keep the invariant *)

(** [m] ends in a state with the invariant, whatever its outcome, and [Q] holds
    of a returned value. *)
Definition runs {A} (m : M T A) (s : Interp T) (Q : A -> Interp T -> Prop) : Prop :=
  match m s with
  | (Ok a, s') => Q a s'
  | (_, s') => trace_inv s'
  end.

Lemma runs_bind {A B} (m : M T A) (k : A -> M T B) s Q :
  runs m s (fun a s' => runs (k a) s' Q) -> runs (m ≫= k) s Q.
Proof. unfold runs, mbind, M_bind. by destruct (m s) as [[] ?]. Qed.

Lemma runs_mono {A} (m : M T A) s (Q Q' : A -> Interp T -> Prop) :
  runs m s Q -> (forall a s', Q a s' -> Q' a s') -> runs m s Q'.
Proof. unfold runs. destruct (m s) as [[] ?]; auto. Qed.

Lemma runs_lift {A} (o : outcome RuntimeError A) s (Q : A -> Interp T -> Prop) :
  trace_inv s -> (forall a, o = Ok a -> Q a s) -> runs (lift o) s Q.
Proof. intros Hs HQ. unfold runs, lift. destruct o; auto. Qed.

(** A computation that leaves the state alone. *)
Definition pure {A} (m : M T A) : Prop := forall s, (m s).2 = s.

Lemma pure_bind {A B} (m : M T A) (k : A -> M T B) : pure m -> (forall a, pure (k a)) -> pure (m ≫= k).
Proof.
  intros Hm Hk s. specialize (Hm s). unfold mbind, M_bind. destruct (m s) as [[a| | |] s'];
    simpl in *; subst; [apply Hk|done..].
Qed.

Lemma runs_pure {A} (m : M T A) s (Q : A -> Interp T -> Prop) :
  pure m -> trace_inv s -> (forall a, (m s).1 = Ok a -> Q a s) -> runs m s Q.
Proof.
  intros Hm Hs HQ. specialize (Hm s). unfold runs. destruct (m s) as [[] s']; simpl in *; subst; auto.
Qed.

Ltac pure_tac :=
  intros; repeat first
  [ apply pure_bind; [|intros ?]
  | match goal with |- pure (match ?x with _ => _ end) => destruct x end
  | by intros ? ].

Lemma pure_load i : pure (load_value i).
Proof. unfold load_value. pure_tac. Qed.

Lemma pure_effect i : pure (expect_effect i).
Proof. unfold expect_effect. apply pure_bind; [apply pure_load|]. pure_tac. Qed.
Lemma pure_object_id i : pure (expect_object_id i).
Proof. unfold expect_object_id. apply pure_bind; [apply pure_load|]. pure_tac. Qed.
Lemma pure_task_id i : pure (expect_task_id i).
Proof. unfold expect_task_id. apply pure_bind; [apply pure_load|]. pure_tac. Qed.
Lemma pure_u64 i : pure (expect_u64 i).
Proof. unfold expect_u64. apply pure_bind; [apply pure_load|]. pure_tac. Qed.
Lemma pure_error_code i : pure (expect_error_code i).
Proof. unfold expect_error_code. apply pure_bind; [apply pure_load|]. pure_tac. Qed.
Lemma pure_bool i : pure (expect_bool i).
Proof. unfold expect_bool. apply pure_bind; [apply pure_load|]. pure_tac. Qed.
Lemma pure_utf8 i : pure (expect_utf8_bytes p i).
Proof. unfold expect_utf8_bytes. apply pure_bind; [apply pure_load|]. pure_tac. Qed.
Lemma pure_bytes i : pure (expect_bytes p i).
Proof. unfold expect_bytes. apply pure_bind; [apply pure_load|]. pure_tac. Qed.
Lemma pure_lift {A} (o : outcome RuntimeError A) : pure (lift o).
Proof. done. Qed.

Lemma runs_capability i s (Q : PackedCapability -> Interp T -> Prop) :
  trace_inv s -> (forall c, value_at s i (Val.Capability c) -> Q c s) -> runs (expect_capability i) s Q.
Proof.
  intros Hs HQ. unfold expect_capability. apply runs_bind, runs_pure; [apply pure_load|done|].
  intros v Hl. change ((load_value i s).1) with
    (ok_or (E := RuntimeError) (mjoin (get (values s) i)) InvalidInput) in Hl.
  unfold value_at in HQ. destruct (get (values s) i) as [[w|]|] eqn:Hg; [|done|done].
  cbn in Hl. injection Hl as ->. destruct v; try exact Hs. by apply HQ.
Qed.

Lemma runs_store i v s :
  0 <= i -> trace_inv s -> (forall c, v = Val.Capability c -> cap_from (host s).2 i c) ->
  runs (store_value i v) s (fun _ => trace_inv).
Proof.
  intros Hi Hs Hcap. unfold store_value. apply runs_bind. unfold runs at 1. cbn [gets].
  destruct (get (values s) i); [|exact Hs]. unfold runs. cbn [modify]. by apply trace_inv_set_value.
Qed.

Lemma runs_keep i r s o ev :
  0 <= i -> trace_inv s -> op_at p i = Some o -> ev ∈ (host s).2 -> ev_op ev = o ->
  ev_result ev = Some r -> runs (keep_host_result i r) s (fun _ => trace_inv).
Proof.
  intros Hi Hs Ho Hev Heo Her. unfold keep_host_result. apply runs_bind. unfold runs at 1. cbn [gets].
  apply runs_bind. destruct (get (host_results s) i); [|exact Hs]. unfold runs at 1. cbn [modify].
  apply runs_store; [done| |done]. by eapply trace_inv_set_host_result.
Qed.
(** ** Host calls *)

(** The static origin of the capability input justifies the call. *)
Lemma call_justified i n o t s c :
  get (nodes p) i = Some n -> op_at p i = Some o -> ty_at p i = Some t ->
  effectful (signature o) = true -> trace_inv s -> value_at s (n_input1 n) (Val.Capability c) ->
  forall kept, justified (host s).2 {| ev_op := o; ev_capability := c; ev_result := kept |}.
Proof.
  intros Hn Ho Ht Heff Hs Hval kept.
  pose proof (no_authority _ _ _ _ _ (ver_nodes p Hv i n o t Hn Ho Ht) Heff) as Hauth.
  assert (exists kind, required_resource_kind (signature o) = Some kind) as [kind Hkind].
  { destruct o; try discriminate Heff; by eexists. }
  destruct (Hauth kind Hkind) as (rights & Hgr & Hland).
  exists kind, rights. simpl. split; [done|]. split; [done|].
  destruct (ti_caps s Hs _ _ Hval) as (m & Hm & Hfrom).
  destruct Hgr as [m' imp Hm' Hop Himp -> ->|m' po Hm' Hop Hpo Hpc Haux -> ->]; simplify_eq.
  - left. destruct Hfrom as [[_ Hget]|[Hop' _]]; [|congruence]. by eexists _, imp.
  - right. split; [done|]. split; [done|]. destruct Hfrom as [[Hop' _]|[_ Hres]]; [congruence|].
    destruct Hres as (po' & ev & r & Hpo' & Hev & Heo & Her & Hcap). simplify_eq.
    exists ev, r. done.
Qed.

Lemma runs_call {A B} o c (keep : A -> option HostCallResult) f (k : A -> M T B) s Q :
  trace_inv s -> (forall kept, justified (host s).2 {| ev_op := o; ev_capability := c; ev_result := kept |}) ->
  (forall a s', trace_inv s' ->
     (exists ev, ev ∈ (host s').2 /\ ev_op ev = o /\ ev_result ev = keep a) -> runs (k a) s' Q) ->
  runs (call (record_call o c keep f) ≫= k) s Q.
Proof.
  intros Hs Hj Hk. apply runs_bind. unfold runs at 1, call, record_call.
  destruct (f (host s).1) as [[e|a] h].
  - exact (trace_inv_call s h _ Hs (Hj None)).
  - apply Hk; [exact (trace_inv_call s h _ Hs (Hj (keep a)))|]. simpl.
    eexists. split; [apply list_elem_of_here|done].
Qed.

Ltac read_pure :=
  apply runs_bind; apply runs_pure;
  [solve [auto using pure_effect, pure_object_id, pure_task_id, pure_u64, pure_error_code, pure_bool,
    pure_utf8, pure_bytes, pure_lift]|assumption|intros ? _].

(** Reads, the recorded call, and what it stores. *)
Ltac host_call Hn Ho Ht :=
  read_pure; apply runs_bind; apply runs_capability; [assumption|intros c Hc]; repeat read_pure;
  eapply runs_call; [assumption|eapply call_justified; [exact Hn|exact Ho|exact Ht|done|assumption|eassumption]
    |intros r s' Hs' (ev & Hev & Heo & Her)].

Lemma execute_host_result_runs i n t s :
  0 <= i -> get (nodes p) i = Some n -> op_at p i = Some Op.HostResult -> ty_at p i = Some t ->
  trace_inv s -> runs (execute_host_result p i n) s (fun _ => trace_inv).
Proof.
  intros Hi Hn Ho Ht Hs. unfold execute_host_result.
  apply runs_bind, runs_lift; [done|]. intros m Hm. apply runs_bind, runs_lift; [done|]. intros po Hpo.
  apply runs_bind. unfold runs at 1. cbn [gets]. apply runs_bind, runs_lift; [done|]. intros r Hr.
  assert (result_at s (n_input0 n) r) as Hres.
  { unfold result_at. destruct (get (host_results s) (n_input0 n)) as [[r'|]|]; simpl in *; by simplify_eq. }
  assert (op_at p (n_input0 n) = Some po) as Hop.
  { unfold op_at. destruct (get (nodes p) (n_input0 n)) as [m'|]; simpl in Hm; simplify_eq.
    simpl. by destruct (opcode_try_from (n_opcode m)); simplify_eq/=. }
  destruct (ti_results s Hs _ _ Hres) as (o' & ev & Ho' & Hev & Heo & Her).
  apply runs_bind, runs_lift; [done|]. intros v Hval. apply runs_store; [done|done|]. intros c ->.
  assert (hr_capability r = c) as Hc.
  { revert Hval. unfold task_context_host_result_value, command_host_result_value,
      object_host_result_value, host_utf8_value.
    destruct po; repeat case_match; intros Hval; try discriminate Hval;
      repeat (inv_bind Hval); by simplify_eq. }
  exists n. split; [done|]. right. split; [done|]. exists po, ev, r. by simplify_eq.
Qed.

Lemma execute_block_param_runs i n s :
  0 <= i -> get (nodes p) i = Some n -> op_at p i = Some Op.BlockParam -> trace_inv s ->
  runs (execute_block_param import_caps i n) s (fun _ => trace_inv).
Proof.
  intros Hi Hn Ho Hs. unfold execute_block_param, result_type_of. read_pure.
  destruct (negb _); [exact Hs|]. apply runs_bind, runs_lift; [done|]. intros c Hc.
  destruct (raw c =? 0); [exact Hs|]. apply runs_store; [done|done|]. intros c' [= <-].
  exists n. split; [done|]. left. split; [done|]. by destruct (get import_caps _); simplify_eq/=.
Qed.

Lemma execute_node_runs i n o t s :
  0 <= i -> get (nodes p) i = Some n -> op_at p i = Some o -> ty_at p i = Some t -> trace_inv s ->
  runs (execute_node p import_caps i n o) s (fun _ => trace_inv).
Proof.
  intros Hi Hn Ho Ht Hs.
  destruct o; cbn [execute_node]; try exact Hs;
    try (by apply execute_block_param_runs); try (by eapply execute_host_result_runs);
    unfold execute_const_bool, execute_const_u64, execute_eq, execute_less_than_u64, execute_const_bytes,
      execute_const_utf8, execute_system_log, execute_object_create, execute_object_query,
      execute_object_inspect, execute_object_revise, execute_object_history, execute_task_context,
      execute_task_proposal_emit, execute_command_read, execute_command_result_emit,
      store_host_result, result_type_of;
    cbn [recording system_log object_create object_query object_inspect object_revise object_history
      task_context task_propose command_read command_result_emit];
    first
    [ host_call Hn Ho Ht; repeat read_pure;
      first [by apply runs_store | by eapply runs_keep]
    | repeat first [read_pure | case_match]; first [exact Hs | by apply runs_store] ].
Qed.
(** ** Runs *)

Lemma runs_modify (f : Interp T -> Interp T) s (Q : unit -> Interp T -> Prop) :
  Q tt (f s) -> runs (modify f) s Q.
Proof. done. Qed.

Lemma dispatch_node_runs i s :
  0 <= i -> trace_inv s -> runs (dispatch_node p import_caps i) s (fun _ => trace_inv).
Proof.
  intros Hi Hs. unfold dispatch_node. apply runs_bind. unfold runs at 1. cbn [gets].
  destruct (budget s =? 0).
  { apply runs_bind, runs_modify. by apply (trace_inv_frame s). }
  apply runs_bind, runs_modify. apply runs_bind. unfold runs at 1. cbn [gets].
  apply runs_bind, runs_lift; [by apply (trace_inv_frame s)|]. intros x _.
  apply runs_bind, runs_modify. apply runs_bind, runs_lift; [by apply (trace_inv_frame s)|].
  intros y _. apply runs_bind, runs_modify. apply runs_bind, runs_lift; [by apply (trace_inv_frame s)|].
  intros n Hn. apply runs_bind, runs_lift; [by apply (trace_inv_frame s)|]. intros o Ho.
  destruct (get (nodes p) i) as [n'|] eqn:Hget; simplify_eq/=.
  destruct (opcode_try_from (n_opcode n)) as [o'|] eqn:Hoc; simplify_eq/=.
  assert (op_at p i = Some o) as Hop by (unfold op_at; by rewrite Hget).
  destruct (known_ty_at p i (ver_known p Hv)) as [t Ht]; [by apply get_is_Some; rewrite Hget|].
  eapply execute_node_runs; [done..|]. by apply (trace_inv_frame s).
Qed.

Lemma jump_to_runs c s : trace_inv s -> runs (jump_to p c) s (fun _ => trace_inv).
Proof. intros Hs. unfold jump_to. by destruct (get (blocks p) c). Qed.

Lemma run_nodes_runs l s :
  (forall i, i ∈ l -> 0 <= i) -> trace_inv s ->
  runs (run_nodes p import_caps l) s (fun _ => trace_inv).
Proof.
  revert s. induction l as [|i l IH]; intros s Hl Hs; cbn [run_nodes]; [exact Hs|].
  apply runs_bind. eapply runs_mono; [apply dispatch_node_runs; [set_solver|done]|].
  intros ? s1 Hs1. apply runs_bind, runs_lift; [done|]. intros n _.
  apply runs_bind, runs_lift; [done|]. intros o _.
  destruct o; try (apply IH; [set_solver|done]).
  - by apply jump_to_runs.
  - apply runs_bind, runs_pure; [apply pure_bool|done|]. intros b _. by apply jump_to_runs.
  - exact Hs1.
Qed.

Lemma run_blocks_runs fuel b s :
  trace_inv s -> runs (run_blocks p import_caps fuel b) s (fun _ => trace_inv).
Proof.
  revert b s. induction fuel as [|fuel IH]; intros b s Hs; cbn [run_blocks]; [exact Hs|].
  apply runs_bind. unfold execute_block. apply runs_bind, runs_lift; [done|]. intros blk Hblk.
  apply runs_bind, runs_lift; [done|]. intros e _. eapply runs_mono; [apply run_nodes_runs; [|done]|].
  - intros i Hi%elem_of_range. destruct (get (blocks p) b) as [blk'|] eqn:Hb; simplify_eq/=.
    destruct (block_wf_get p (ver_decoded p Hv) _ _ Hb) as (_ & Hf & _). unfold uint in Hf. lia.
  - intros [|c] s1 Hs1; [exact Hs1|]. by apply IH.
Qed.

Lemma new_interpreter_trace bud (h : H) : trace_inv (new_interpreter bud (h, [])).
Proof.
  constructor; unfold value_at, result_at, new_interpreter; cbn [values host_results host]; [..|done].
  all: intros *; intros [Hc _]%get_replicate; discriminate Hc.
Qed.

Lemma execute_trace bud (h : H) :
  trace_inv (execute p import_caps (new_interpreter bud (h, []))).2.
Proof.
  pose proof (run_blocks_runs (S (Z.to_nat bud)) (h_entry_block (p_header p)) _
    (new_interpreter_trace bud h)) as Hr.
  unfold runs in Hr. unfold execute.
  change (execute_inner p import_caps (new_interpreter bud (h, []))) with
    (run_blocks p import_caps (S (Z.to_nat bud)) (h_entry_block (p_header p))
       (new_interpreter (H := T) bud (h, []))).
  destruct (run_blocks _ _ _ _ _) as [[u|e| |] s']; [done|by destruct e|done|done].
Qed.
End runs.
End authority.

(** ** Theorems *)

(** C2: no forged or ambient authority. Run a verified package against any
    host, recording the host calls: every call presents a capability whose
    origin grants the resource kind and the rights its opcode requires, and that
    is either the capability passed in for the import slot declared with them,
    or one returned by an earlier object creation or query of the same run,
    which stands for an object with read and revise rights. *)
Theorem host_calls_are_justified {H : Type} `{Host H} (bytes : list byte) (g : VerifiedGraph)
    (import_caps : list PackedCapability) (bud : Z) (h : H) :
  verify_bytes bytes = Ok g ->
  trace_justified (graph_package g) import_caps
    (host (execute (graph_package g) import_caps (new_interpreter bud (h, []))).2).2.
Proof.
  intros Hver. destruct (wp_value _ _ _ (verify_bytes_post bytes) g Hver) as [_ Hv].
  apply (ti_trace _ _ _ (execute_trace (graph_package g) import_caps Hv bud h)).
Qed.
