(* ===== verification/TigRoundtrip.v ===== *)
(** * Encoding and decoding agree

    The encoder fills a zeroed buffer front to back. [encode_layout] computes
    the bytes it produces as one concatenation; from it the decoder recovers
    exactly the graph that was encoded. *)

From stdpp Require Import base numbers list sets.
From Stdlib Require Import Strings.Byte.
From S2P Require Import Prelude Fnv ByteRegions TigTypes TigFormat TigFormatFacts TigVerify TigEncode TigStructure TigDominators TigTyping TigVerified.

(** ** Sequential writes *)

(** The buffer after [w] has been written, with [r] bytes to go. *)
Definition buffer (w : list byte) (r : Z) : list byte := w ++ zeros r.

Lemma buffer_skip w r k : 0 <= k <= r -> buffer w r = buffer (w ++ zeros k) (r - k).
Proof.
  intros Hk. unfold buffer, zeros. rewrite <- app_assoc, <- replicate_add. do 2 f_equal. lia.
Qed.

Lemma copy_at_next w r data offset :
  offset = len w -> len data <= r ->
  copy_at (buffer w r) offset data = Ok (buffer (w ++ data) (r - len data)).
Proof.
  intros -> Hr. unfold copy_at. pose proof (len_nonneg data).
  replace ((0 <=? len w) && (len w + len data <=? len (buffer w r))) with true.
  2: { unfold buffer. rewrite len_app, len_zeros by lia. pose proof (len_nonneg w). lia. }
  f_equal. unfold buffer, zeros, len in *. rewrite Nat2Z.id, take_app_length, <- app_assoc.
  do 2 f_equal. rewrite drop_app_ge by lia. replace (length w + length data - length w)%nat
    with (length data) by lia. rewrite drop_replicate. f_equal. lia.
Qed.

Lemma write_u16_next w r v offset :
  offset = len w -> 2 <= r -> write_u16 (buffer w r) offset v = Ok (buffer (w ++ le_bytes 2 v) (r - 2)).
Proof. intros. unfold write_u16. by rewrite copy_at_next by (rewrite ?len_le_bytes; lia). Qed.
Lemma write_u32_next w r v offset :
  offset = len w -> 4 <= r -> write_u32 (buffer w r) offset v = Ok (buffer (w ++ le_bytes 4 v) (r - 4)).
Proof. intros. unfold write_u32. by rewrite copy_at_next by (rewrite ?len_le_bytes; lia). Qed.
Lemma write_u64_next w r v offset :
  offset = len w -> 8 <= r -> write_u64 (buffer w r) offset v = Ok (buffer (w ++ le_bytes 8 v) (r - 8)).
Proof. intros. unfold write_u64. by rewrite copy_at_next by (rewrite ?len_le_bytes; lia). Qed.

(** Runs a list of adjacent writes; lengths are computed from the fields. *)
Ltac run_writes :=
  repeat first
  [ rewrite write_u16_next by (rewrite ?len_app, ?len_le_bytes; lia)
  | rewrite write_u32_next by (rewrite ?len_app, ?len_le_bytes; lia)
  | rewrite write_u64_next by (rewrite ?len_app, ?len_le_bytes; lia)
  | rewrite ok_bind ].

Lemma copy_at_field (h x t data : list byte) offset :
  offset = len h -> length x = length data -> copy_at (h ++ x ++ t) offset data = Ok (h ++ data ++ t).
Proof.
  intros -> Hx. unfold copy_at. unfold len.
  replace ((0 <=? Z.of_nat (length h)) &&
    (Z.of_nat (length h) + Z.of_nat (length data) <=? Z.of_nat (length (h ++ x ++ t)))) with true.
  2: { symmetry. apply andb_true_iff. rewrite !length_app. split; apply Z.leb_le; lia. }
  rewrite Nat2Z.id, take_app_length, drop_app_ge by lia.
  replace (length h + length data - length h)%nat with (length x) by lia.
  by rewrite drop_app_length.
Qed.

(** ** Records *)

Definition block_bytes (b : GraphBlock) : list byte :=
  le_bytes 4 (gb_block_id b) ++ le_bytes 4 (gb_first_node b) ++ le_bytes 4 (gb_node_count b) ++
  le_bytes 2 (gb_parameter_count b) ++ le_bytes 2 0 ++ le_bytes 4 (gb_terminator_node b) ++
  le_bytes 4 0.

Definition node_bytes (n : GraphNode) : list byte :=
  le_bytes 2 (opcode_code (gn_opcode n)) ++ le_bytes 2 (type_code (gn_result_type n)) ++
  le_bytes 2 0 ++ le_bytes 2 (gn_block_index n) ++ le_bytes 4 (gn_input0 n) ++
  le_bytes 4 (gn_input1 n) ++ le_bytes 4 (gn_input2 n) ++ le_bytes 4 (gn_input3 n) ++
  le_bytes 4 (gn_auxiliary0 n) ++ le_bytes 4 (gn_auxiliary1 n) ++ le_bytes 8 (gn_immediate n).

Definition import_bytes (i : GraphImport) : list byte :=
  le_bytes 4 (gi_name_offset i) ++ le_bytes 2 (gi_name_len i) ++ le_bytes 2 (gi_resource_kind i) ++
  le_bytes 8 (gi_rights i) ++ le_bytes 2 (type_code (gi_expected_type i)) ++
  le_bytes 2 (gi_import_slot i) ++ le_bytes 4 0.

Lemma len_block_bytes b : len (block_bytes b) = 24.
Proof. unfold block_bytes. rewrite !len_app, !len_le_bytes. done. Qed.
Lemma len_node_bytes n : len (node_bytes n) = 40.
Proof. unfold node_bytes. rewrite !len_app, !len_le_bytes. done. Qed.
Lemma len_import_bytes i : len (import_bytes i) = 24.
Proof. unfold import_bytes. rewrite !len_app, !len_le_bytes. done. Qed.

Lemma write_block_next w r b offset :
  offset = len w -> 24 <= r ->
  write_block (buffer w r) offset b = Ok (buffer (w ++ block_bytes b) (r - 24)).
Proof.
  intros Ho Hr. unfold write_block, block_bytes. run_writes. rewrite <- !app_assoc. do 2 f_equal. lia.
Qed.

Lemma write_node_next w r n offset :
  offset = len w -> 40 <= r ->
  write_node (buffer w r) offset n = Ok (buffer (w ++ node_bytes n) (r - 40)).
Proof.
  intros Ho Hr. unfold write_node, node_bytes. run_writes. rewrite <- !app_assoc. do 2 f_equal. lia.
Qed.

Lemma write_import_next w r i offset :
  offset = len w -> 24 <= r ->
  write_import (buffer w r) offset i = Ok (buffer (w ++ import_bytes i) (r - 24)).
Proof.
  intros Ho Hr. unfold write_import, import_bytes. run_writes. rewrite <- !app_assoc. do 2 f_equal. lia.
Qed.

(** A loop that writes one record per element. *)
Lemma write_table {A} (write : list byte -> Z -> A -> W (list byte)) (enc : A -> list byte)
    (size base : Z) (l : list A) w r :
  0 < size -> (forall x, len (enc x) = size) ->
  (forall w r x offset, offset = len w -> size <= r ->
     write (buffer w r) offset x = Ok (buffer (w ++ enc x) (r - size))) ->
  base = len w -> len l * size <= r ->
  foldM (fun bytes '(index, x) => write bytes (base + index * size) x) (buffer w r) (enumerate l)
    = Ok (buffer (w ++ (l ≫= enc)) (r - len l * size)).
Proof.
  intros Hs Henc Hw Hb Hr.
  assert (forall (k : Z) w r, base + k * size = len w -> len l * size <= r ->
    foldM (fun bytes '(index, x) => write bytes (base + index * size) x) (buffer w r)
      (zip (range k (k + len l)) l) = Ok (buffer (w ++ (l ≫= enc)) (r - len l * size))) as Hgen.
  { clear w r Hb Hr. induction l as [|x l IH]; intros k w r Hk Hr.
    - unfold range. replace (k + len (@nil A) - k) with 0 by (unfold len; simpl; lia).
      simpl. rewrite app_nil_r. do 2 f_equal. unfold len. simpl. lia.
    - assert (len (x :: l) = len l + 1) as Hlen by (unfold len; simpl; lia).
      rewrite Hlen in *. unfold range. rewrite seqZ_cons by (pose proof (len_nonneg l); lia).
      simpl. pose proof (len_nonneg l). rewrite Hw by (lia || nia). simpl.
      replace (Z.succ k) with (k + 1) by lia.
      replace (Z.pred (k + (len l + 1) - k)) with (k + 1 + len l - (k + 1)) by lia.
      fold (range (k + 1) (k + 1 + len l)). rewrite IH by (rewrite ?len_app, ?Henc; nia).
      csimpl. rewrite <- app_assoc. do 2 f_equal. lia. }
  unfold enumerate. replace (len l) with (0 + len l) at 1 by lia. apply Hgen; lia.
Qed.

(** ** Reading fields back *)

Lemma slice_skip {A} (a l : list A) off n k off' :
  len a = k -> off = k + off' -> 0 <= off' -> slice (a ++ l) off n = slice l off' n.
Proof.
  intros Hk -> Ho. unfold slice. f_equal. unfold len in Hk. rewrite drop_app_ge by lia. f_equal. lia.
Qed.

Lemma slice_here {A} (a l : list A) n : len a = n -> slice (a ++ l) 0 n = a.
Proof. intros <-. unfold slice, len. rewrite Nat2Z.id, drop_0. apply take_app_length. Qed.

Lemma slice_whole {A} (a : list A) n : len a = n -> slice a 0 n = a.
Proof. intros Hn. rewrite <- (app_nil_r a) at 1. by apply slice_here. Qed.

Lemma slice_of_slice {A} (l : list A) a n off m :
  0 <= a -> 0 <= off -> 0 <= m -> off + m <= n -> slice (slice l a n) off m = slice l (a + off) m.
Proof.
  intros. unfold slice. rewrite skipn_firstn_comm, take_take, drop_drop. f_equal; [lia|f_equal; lia].
Qed.

(** Finds the field at a literal offset of a concatenation. *)
Ltac find_field :=
  repeat match goal with
  | |- context [slice (?a ++ ?l) ?off ?n] =>
      let k := eval lazy in (len a) in
      let off' := eval vm_compute in (off - k) in
      lazymatch off' with
      | Zneg _ => rewrite (slice_here a l n) by reflexivity
      | _ => rewrite (slice_skip a l off n k off') by (reflexivity || lia)
      end
  | |- context [slice ?a 0 ?n] => rewrite (slice_whole a n) by reflexivity
  end.

(** Runs reads at known offsets; the buffer stays folded. *)
Ltac run_field_reads :=
  repeat first [rewrite read_u16_ok by lia | rewrite read_u32_ok by lia | rewrite read_u64_ok by lia
               | rewrite ok_bind].

Ltac field_values :=
  repeat first [rewrite (le_val_field 2 16) by (done || lia) | rewrite (le_val_field 4 32) by (done || lia)
               | rewrite (le_val_field 8 64) by (done || lia)].

Lemma decode_block_bytes b :
  block_wf (block_of_graph b) -> decode_block_record (block_bytes b) 0 = Ok (block_of_graph b).
Proof.
  intros (H1 & H2 & H3 & H4 & _ & H6 & _). pose proof (len_block_bytes b) as Hl. simpl in *.
  unfold decode_block_record. run_field_reads. unfold block_of_graph, block_bytes. find_field.
  by field_values.
Qed.

Lemma decode_node_bytes n :
  node_wf (node_of_graph n) -> decode_node_record (node_bytes n) 0 = Ok (node_of_graph n).
Proof.
  intros (H1 & H2 & _ & H4 & H5 & H6 & H7 & H8 & H9 & H10 & H11).
  pose proof (len_node_bytes n) as Hl. simpl in *.
  unfold decode_node_record. run_field_reads. unfold node_of_graph, node_bytes. find_field.
  by field_values.
Qed.

Lemma decode_import_bytes i :
  import_wf (import_of_graph i) ->
  decode_capability_import_record (import_bytes i) 0 = Ok (import_of_graph i).
Proof.
  intros (H1 & H2 & H3 & H4 & H5 & H6 & _). pose proof (len_import_bytes i) as Hl. simpl in *.
  unfold decode_capability_import_record. run_field_reads. unfold import_of_graph, import_bytes. find_field.
  by field_values.
Qed.

Lemma len_table {A} (enc : A -> list byte) size (l : list A) :
  (forall x, len (enc x) = size) -> len (l ≫= enc) = len l * size.
Proof.
  intros He. induction l as [|x l IH]; csimpl; [done|]. rewrite len_app, IH, He.
  unfold len. simpl. lia.
Qed.

Lemma slice_table {A} (enc : A -> list byte) size (l : list A) i x :
  (forall x, len (enc x) = size) -> get l i = Some x -> slice (l ≫= enc) (i * size) size = enc x.
Proof.
  intros He [Hi Hx]%get_Some. assert (0 <= size) by (rewrite <- (He x); apply len_nonneg).
  remember (Z.to_nat i) as k eqn:Hk. revert i Hi Hk. revert Hx. revert k.
  induction l as [|y l IH]; intros k Hx i Hi Hk; [done|]. csimpl.
  destruct k as [|k]; simpl in Hx.
  - simplify_eq. replace (i * size) with 0 by (replace i with 0 by lia; lia). by apply slice_here.
  - rewrite (slice_skip _ _ _ _ size ((i - 1) * size)) by (first [apply He | nia]).
    apply (IH k); [done| |lia]. unfold len in *. simpl in Hi. lia.
Qed.

Lemma record_of_table {A} (enc : A -> list byte) size (l : list A) i :
  0 < size < 2 ^ 63 -> (forall x, len (enc x) = size) -> len l * size < 2 ^ 63 ->
  record_bytes (l ≫= enc) i size = enc <$> get l i.
Proof.
  intros Hs He Hl. pose proof (len_table enc size l He) as Hlen. pose proof (len_nonneg l).
  destruct (get l i) as [x|] eqn:Hx; simpl.
  - assert (0 <= i < len l) as Hi by (apply get_Some in Hx; apply Hx).
    assert (0 <= i * size /\ i * size + size <= len l * size) by nia.
    unfold record_bytes, checked_mul, checked_add. rewrite checked_id by (unfold uint; lia). simpl.
    rewrite checked_id by (unfold uint; lia). simpl. rewrite get_range_slice by lia. f_equal.
    replace (i * size + size - i * size) with size by lia. by apply slice_table.
  - apply eq_None_not_Some. rewrite record_bytes_is_Some by (try exact Hlen; lia).
    by apply get_None.
Qed.

(** The digest does not see the checksum field. *)
Lemma checksum_input_field (h t : list byte) c c' :
  len h = 84 -> checksum_input (h ++ le_bytes 8 c ++ t) = checksum_input (h ++ le_bytes 8 c' ++ t).
Proof.
  intros Hh. apply list_eq. intros i. unfold checksum_input. rewrite !list_lookup_fmap.
  unfold len in Hh. destruct (decide (i < 84)%nat) as [Hlt|Hge].
  { assert (enumerate (h ++ le_bytes 8 c ++ t) !! i = enumerate (h ++ le_bytes 8 c' ++ t) !! i) as ->;
      [|done].
    apply option_eq. intros [k x]. rewrite !lookup_enumerate, !lookup_app_l by lia. done. }
  destruct (decide (i < 92)%nat) as [Hlt|Hge'].
  - assert (forall l : list byte, (i < length l)%nat ->
      (fun '(index, byte) => if (CHECKSUM_OFFSET <=? index) && (index <? CHECKSUM_END)
         then 0 else byte_val byte) <$> enumerate l !! i = Some 0) as Hz.
    { intros l [x Hx]%lookup_lt_is_Some_2.
      assert (enumerate l !! i = Some (Z.of_nat i, x)) as -> by (by apply lookup_enumerate).
      simpl. unfold CHECKSUM_OFFSET, CHECKSUM_END.
      by replace ((84 <=? Z.of_nat i) && (Z.of_nat i <? 92)) with true by lia. }
    rewrite !Hz; [done|..]; rewrite !length_app, length_le_bytes; lia.
  - assert (enumerate (h ++ le_bytes 8 c ++ t) !! i = enumerate (h ++ le_bytes 8 c' ++ t) !! i) as ->;
      [|done].
    apply option_eq. intros [k x]. rewrite !lookup_enumerate.
    rewrite !(lookup_app_r h) by lia. rewrite !lookup_app_r by (rewrite length_le_bytes; lia).
    by rewrite !length_le_bytes.
Qed.

(** ** The whole package *)

(** What Rust's types and the format limits allow for a graph. *)
Record graph_wf (g : OwnedGraph) : Prop := {
  gw_principal : uint 64 (g_principal_id g);
  gw_blocks : len (g_blocks g) <= MAX_BLOCKS;
  gw_nodes : len (g_nodes g) <= MAX_GRAPH_NODES;
  gw_imports : len (g_imports g) <= MAX_CAPABILITY_IMPORTS;
  gw_pool : len (g_constant_pool g) <= MAX_CONSTANT_POOL_BYTES;
  gw_strings : len (g_string_table g) <= MAX_STRING_TABLE_BYTES;
  gw_block : Forall (fun b => block_wf (block_of_graph b)) (g_blocks g);
  gw_node : Forall (fun n => node_wf (node_of_graph n)) (g_nodes g);
  gw_import : Forall (fun i => import_wf (import_of_graph i)) (g_imports g) }.

(** The length of the package that [encode_graph] allocates. *)
Definition package_len (g : OwnedGraph) : Z :=
  96 + len (g_blocks g) * 24 + len (g_nodes g) * 40 + len (g_imports g) * 24 +
  len (g_constant_pool g) + len (g_string_table g).

(** A graph whose package is not too long for the decoder. *)
Definition graph_sized (g : OwnedGraph) : Prop :=
  uint 64 (g_principal_id g) /\ package_len g <= MAX_PACKAGE_BYTES.

Lemma graph_wf_sized g : graph_wf g -> graph_sized g.
Proof.
  intros [Hp H1 H2 H3 H4 H5 _ _ _]. split; [done|]. unfold package_len, MAX_PACKAGE_BYTES.
  unfold MAX_BLOCKS, MAX_GRAPH_NODES, MAX_CAPABILITY_IMPORTS, MAX_CONSTANT_POOL_BYTES,
    MAX_STRING_TABLE_BYTES in *. lia.
Qed.

Section layout.
Context (g : OwnedGraph) (Hsized : graph_sized g).

Let bc := len (g_blocks g).
Let nc := len (g_nodes g).
Let ic := len (g_imports g).
Let pl := len (g_constant_pool g).
Let sl := len (g_string_table g).

Definition body : list byte :=
  (g_blocks g ≫= block_bytes) ++ (g_nodes g ≫= node_bytes) ++ (g_imports g ≫= import_bytes) ++
  g_constant_pool g ++ g_string_table g.

(** The header up to the checksum field. *)
Definition header_bytes : list byte :=
  PYTH_TIG_MAGIC ++ le_bytes 2 PYTH_TIG_MAJOR ++ le_bytes 2 PYTH_TIG_MINOR ++ zeros 4 ++
  le_bytes 8 PACKAGE_ID ++ le_bytes 8 (g_principal_id g) ++ le_bytes 4 0 ++ le_bytes 4 0 ++
  le_bytes 4 bc ++ le_bytes 4 nc ++ le_bytes 4 ic ++ le_bytes 4 pl ++ le_bytes 4 sl ++
  le_bytes 4 96 ++ le_bytes 4 96 ++ le_bytes 4 (96 + bc * 24) ++
  le_bytes 4 (96 + bc * 24 + nc * 40) ++ le_bytes 4 (96 + bc * 24 + nc * 40 + ic * 24) ++
  le_bytes 4 (96 + bc * 24 + nc * 40 + ic * 24 + pl).

Definition package_bytes (checksum : Z) : list byte :=
  header_bytes ++ le_bytes 8 checksum ++ zeros 4 ++ body.

Lemma sizes :
  0 <= bc /\ 0 <= nc /\ 0 <= ic /\ 0 <= pl /\ 0 <= sl /\
  96 + bc * 24 + nc * 40 + ic * 24 + pl + sl <= 131072.
Proof. destruct Hsized as [_ H]. split_and!; [apply len_nonneg..|exact H]. Qed.

Lemma len_header_bytes : len header_bytes = 84.
Proof. unfold header_bytes. rewrite !len_app, !len_le_bytes, len_zeros by lia. done. Qed.

Lemma len_body : len body = bc * 24 + nc * 40 + ic * 24 + pl + sl.
Proof.
  unfold body. rewrite !len_app, (len_table block_bytes 24 _ len_block_bytes),
    (len_table node_bytes 40 _ len_node_bytes), (len_table import_bytes 24 _ len_import_bytes).
  unfold bc, nc, ic, pl, sl. lia.
Qed.

Lemma checked_u32_small v : 0 <= v < 2 ^ 32 -> checked_u32 v = Ok v.
Proof. intros. unfold checked_u32. by rewrite checked_id. Qed.

Lemma write_header_layout total :
  96 <= total ->
  write_header (zeros total) g bc nc ic pl sl 96 96 (96 + bc * 24) (96 + bc * 24 + nc * 40)
    (96 + bc * 24 + nc * 40 + ic * 24) (96 + bc * 24 + nc * 40 + ic * 24 + pl)
  = Ok (buffer header_bytes (total - 84)).
Proof.
  intros Htot. pose proof sizes. unfold write_header. rewrite !checked_u32_small by lia.
  change (zeros total) with (buffer [] total).
  rewrite copy_at_next by (done || (change (len PYTH_TIG_MAGIC) with 8; lia)).
  change (len PYTH_TIG_MAGIC) with 8. rewrite ?ok_bind.
  do 2 (rewrite write_u16_next by ((by vm_compute) || lia); rewrite ?ok_bind).
  rewrite (buffer_skip _ _ 4) by lia.
  do 2 (rewrite write_u64_next by ((by rewrite !len_app, !len_le_bytes, len_zeros by lia) || lia);
        rewrite ?ok_bind).
  repeat (rewrite write_u32_next by ((by rewrite !len_app, !len_le_bytes, len_zeros by lia) || lia);
          rewrite ?ok_bind).
  f_equal. match goal with |- buffer _ ?r = _ => replace r with (total - 84) by lia end.
  unfold buffer, header_bytes. rewrite <- !app_assoc. rewrite app_nil_l. reflexivity.
Qed.
Lemma len_package_bytes c : len (package_bytes c) = 96 + bc * 24 + nc * 40 + ic * 24 + pl + sl.
Proof.
  unfold package_bytes. rewrite !len_app, len_header_bytes, len_le_bytes, len_zeros, len_body by lia. lia.
Qed.

Lemma package_checksum_field c c' :
  package_checksum (package_bytes c) = package_checksum (package_bytes c').
Proof.
  rewrite !package_checksum_input. f_equal. apply checksum_input_field, len_header_bytes.
Qed.

Definition checksum_of_graph : Z := package_checksum (package_bytes 0).

Lemma refresh_checksum_layout : refresh_checksum (package_bytes 0) = Ok (package_bytes checksum_of_graph).
Proof.
  unfold refresh_checksum, write_u64, package_bytes.
  rewrite copy_at_field by (rewrite ?len_header_bytes, ?length_le_bytes; done). rewrite ok_bind.
  rewrite copy_at_field by (rewrite ?len_header_bytes, ?length_le_bytes; done). done.
Qed.

Lemma encode_layout : encode_graph g = Ok (package_bytes checksum_of_graph).
Proof.
  pose proof sizes as Hs. unfold encode_graph. fold bc nc ic pl sl.
  unfold PYTH_GRAPH_HEADER_SIZE, TYPE_RECORD_SIZE, BLOCK_RECORD_SIZE, NODE_RECORD_SIZE,
    CAPABILITY_IMPORT_RECORD_SIZE. rewrite Z.mul_0_l, Z.add_0_r.
  set (total := 96 + bc * 24 + nc * 40 + ic * 24 + pl + sl). fold (zeros total).
  rewrite write_header_layout by (unfold total; lia). rewrite ok_bind.
  rewrite (buffer_skip _ _ 12) by (unfold total; lia).
  rewrite (write_table write_block block_bytes 24 96);
    [|lia|apply len_block_bytes|intros; by apply write_block_next
     |by rewrite len_app, len_header_bytes, len_zeros by lia|fold bc; unfold total; lia].
  rewrite ok_bind. fold bc. rewrite (write_table write_node node_bytes 40 (96 + bc * 24));
    [|lia|apply len_node_bytes|intros; by apply write_node_next
     |rewrite !len_app, len_header_bytes, len_zeros, (len_table block_bytes 24 _ len_block_bytes) by lia;
      fold bc; lia|fold nc; unfold total; lia].
  rewrite ok_bind. fold nc. rewrite (write_table write_import import_bytes 24 (96 + bc * 24 + nc * 40));
    [|lia|apply len_import_bytes|intros; by apply write_import_next
     |rewrite !len_app, len_header_bytes, len_zeros, (len_table block_bytes 24 _ len_block_bytes),
        (len_table node_bytes 40 _ len_node_bytes) by lia; fold bc nc; lia|fold ic; unfold total; lia].
  rewrite ok_bind. fold ic.
  rewrite copy_at_next;
    [|rewrite !len_app, len_header_bytes, len_zeros, (len_table block_bytes 24 _ len_block_bytes),
        (len_table node_bytes 40 _ len_node_bytes), (len_table import_bytes 24 _ len_import_bytes) by lia;
      fold bc nc ic; lia|fold pl; unfold total; lia].
  rewrite ok_bind. fold pl.
  rewrite copy_at_next;
    [|rewrite !len_app, len_header_bytes, len_zeros, (len_table block_bytes 24 _ len_block_bytes),
        (len_table node_bytes 40 _ len_node_bytes), (len_table import_bytes 24 _ len_import_bytes) by lia;
      fold bc nc ic pl; lia|fold sl; unfold total; lia].
  rewrite ok_bind. fold sl.
  match goal with |- refresh_checksum (buffer _ ?r) = _ => replace r with 0 by (unfold total; lia) end.
  rewrite <- refresh_checksum_layout. f_equal. unfold buffer, package_bytes, body.
  change (zeros 0) with (@nil byte). rewrite app_nil_r, <- !app_assoc.
  change (zeros 12) with (le_bytes 8 0 ++ zeros 4). by rewrite <- !app_assoc.
Qed.
(** ** Decoding *)

Definition header_of_graph : PythGraphHeader := {|
  h_magic := PYTH_TIG_MAGIC; h_major := PYTH_TIG_MAJOR; h_minor := PYTH_TIG_MINOR; h_flags := 0;
  h_package_id := PACKAGE_ID; h_principal_id := g_principal_id g; h_entry_block := 0;
  h_type_count := 0; h_block_count := bc; h_node_count := nc; h_import_count := ic;
  h_constant_pool_len := pl; h_string_table_len := sl; h_types_offset := 96; h_blocks_offset := 96;
  h_nodes_offset := 96 + bc * 24; h_imports_offset := 96 + bc * 24 + nc * 40;
  h_constant_pool_offset := 96 + bc * 24 + nc * 40 + ic * 24;
  h_string_table_offset := 96 + bc * 24 + nc * 40 + ic * 24 + pl;
  h_checksum := checksum_of_graph; h_reserved := 0 |}.

Lemma checksum_uint : uint 64 checksum_of_graph.
Proof.
  unfold checksum_of_graph. rewrite package_checksum_input.
  by apply (fnv_foldl_range 64 0x100000001B3); [lia|vm_compute].
Qed.

Lemma read_package_header : read_header (package_bytes checksum_of_graph) = Ok header_of_graph.
Proof.
  pose proof sizes as Hs. pose proof (len_package_bytes checksum_of_graph) as Hl.
  pose proof checksum_uint as Hc. pose proof (proj1 Hsized) as Hp.
  unfold read_header, read_magic, CHECKSUM_OFFSET, CHECKSUM_END.
  rewrite read_bytes_ok by lia. rewrite ok_bind. run_field_reads.
  unfold header_of_graph, package_bytes, header_bytes. rewrite <- !app_assoc. find_field.
  rewrite (le_val_field 8 64 PACKAGE_ID) by done.
  rewrite (le_val_field 8 64 (g_principal_id g)) by done.
  rewrite (le_val_field 8 64 checksum_of_graph) by done.
  repeat (rewrite (le_val_field 4 32) by (first [done | unfold uint; lia])).
  reflexivity.
Qed.
(** The sections of the package. *)
Lemma slice_body c k n : 0 <= k -> slice (package_bytes c) (96 + k) n = slice body k n.
Proof.
  intros Hk. unfold package_bytes.
  rewrite (slice_skip header_bytes _ _ _ 84 (12 + k)) by (first [apply len_header_bytes | lia]).
  rewrite (slice_skip (le_bytes 8 c) _ _ _ 8 (4 + k)) by (first [apply len_le_bytes | lia]).
  by rewrite (slice_skip (zeros 4) _ _ _ 4 k) by (first [reflexivity | lia]).
Qed.

Lemma body_slices :
  slice body 0 (bc * 24) = g_blocks g ≫= block_bytes /\
  slice body (bc * 24) (nc * 40) = g_nodes g ≫= node_bytes /\
  slice body (bc * 24 + nc * 40) (ic * 24) = g_imports g ≫= import_bytes /\
  slice body (bc * 24 + nc * 40 + ic * 24) pl = g_constant_pool g /\
  slice body (bc * 24 + nc * 40 + ic * 24 + pl) sl = g_string_table g.
Proof.
  pose proof sizes as Hs.
  pose proof (len_table block_bytes 24 (g_blocks g) len_block_bytes) as Hb. fold bc in Hb.
  pose proof (len_table node_bytes 40 (g_nodes g) len_node_bytes) as Hn. fold nc in Hn.
  pose proof (len_table import_bytes 24 (g_imports g) len_import_bytes) as Hi. fold ic in Hi.
  unfold body. split_and!.
  - by apply slice_here.
  - rewrite (slice_skip _ _ _ _ (bc * 24) 0) by (done || lia). by apply slice_here.
  - rewrite (slice_skip _ _ _ _ (bc * 24) (nc * 40)) by (done || lia).
    rewrite (slice_skip _ _ _ _ (nc * 40) 0) by (done || lia). by apply slice_here.
  - rewrite (slice_skip _ _ _ _ (bc * 24) (nc * 40 + ic * 24)) by (done || lia).
    rewrite (slice_skip _ _ _ _ (nc * 40) (ic * 24)) by (done || lia).
    rewrite (slice_skip _ _ _ _ (ic * 24) 0) by (done || lia). by apply slice_here.
  - rewrite (slice_skip _ _ _ _ (bc * 24) (nc * 40 + ic * 24 + pl)) by (done || lia).
    rewrite (slice_skip _ _ _ _ (nc * 40) (ic * 24 + pl)) by (done || lia).
    rewrite (slice_skip _ _ _ _ (ic * 24) pl) by (done || lia).
    rewrite (slice_skip _ _ _ _ pl 0) by (done || lia). by apply slice_whole.
Qed.

Lemma range_ok start l : 0 <= start -> 0 <= l -> start + l < 2 ^ 64 ->
  range_from_parts start l = Ok {| s_start := start; s_end := start + l |}.
Proof. intros. unfold range_from_parts, checked_add. by rewrite checked_id by (unfold uint; lia). Qed.

Lemma record_range_ok start count size : 0 <= start -> 0 <= count -> 0 <= size ->
  start + count * size < 2 ^ 64 ->
  record_range start count size = Ok {| s_start := start; s_end := start + count * size |}.
Proof.
  intros. assert (0 <= count * size) by nia. unfold record_range, checked_mul.
  rewrite checked_id by (unfold uint; lia). simpl. by apply range_ok.
Qed.

(** The reserved word of every record of a table is zero. *)
Lemma reserved_ok {A} (enc : A -> list byte) (l : list A) bytes start e :
  (forall x, len (enc x) = 24) -> (forall x, slice (enc x) 20 4 = le_bytes 4 0) ->
  0 <= start -> start + len l * 24 <= len bytes -> len bytes < 2 ^ 63 ->
  slice bytes start (len l * 24) = l ≫= enc ->
  validate_record_reserved bytes {| s_start := start; s_end := e |} (len l) 24 20 = Ok tt.
Proof.
  intros He Hz Hst Hle Hmax Hsl. unfold validate_record_reserved. apply forM_ok.
  intros i Hi%elem_of_range. unfold checked_mul, checked_add.
  rewrite checked_id by (unfold uint; lia). simpl. rewrite checked_id by (unfold uint; lia). simpl.
  rewrite checked_id by (unfold uint; lia). simpl. rewrite read_u32_ok by lia. simpl.
  destruct (proj2 (get_is_Some l i) Hi) as [x Hx].
  replace (slice bytes (start + i * 24 + 20) 4) with (slice (enc x) 20 4); [by rewrite Hz|].
  rewrite <- (slice_table enc 24 l i x He Hx), <- Hsl.
  rewrite slice_of_slice by lia. rewrite slice_of_slice by lia. f_equal. lia.
Qed.

Lemma aligned_ok a : (4 | a) -> (a mod RECORD_SECTION_ALIGNMENT =? 0) = true.
Proof. intros Ha. apply Z.eqb_eq. by apply Z.mod_divide. Qed.

Lemma validate_package_header : graph_wf g -> validate_header header_of_graph = Ok tt.
Proof.
  intros [_ H1 H2 H3 H4 H5 _ _ _]. fold bc nc ic pl sl in H1, H2, H3, H4, H5.
  unfold MAX_BLOCKS, MAX_GRAPH_NODES, MAX_CAPABILITY_IMPORTS, MAX_CONSTANT_POOL_BYTES,
    MAX_STRING_TABLE_BYTES in *. unfold validate_header, validate_count, validate_len.
  unfold MAX_RUNTIME_VALUES, MAX_BLOCKS, MAX_GRAPH_NODES, MAX_CAPABILITY_IMPORTS,
    MAX_CONSTANT_POOL_BYTES, MAX_STRING_TABLE_BYTES.
  cbn [header_of_graph h_magic h_major h_minor h_flags h_reserved h_type_count h_block_count
    h_node_count h_import_count h_constant_pool_len h_string_table_len].
  rewrite bool_decide_eq_true_2 by done.
  replace (128 <? bc) with false by lia. replace (1024 <? nc) with false by lia.
  replace (32 <? ic) with false by lia. replace (65536 <? pl) with false by lia.
  by replace (16384 <? sl) with false by lia.
Qed.

Lemma layout_ok a b c d e f n :
  s_start a = 96 -> s_start b = s_end a -> s_start c = s_end b -> s_start d = s_end c ->
  s_start e = s_end d -> s_start f = s_end e -> n = s_end f ->
  validate_section_layout n [a; b; c; d; e; f] = Ok tt.
Proof.
  intros Ha Hb Hc Hd He Hf Hn. unfold validate_section_layout, PYTH_GRAPH_HEADER_SIZE.
  cbn [foldM]. rewrite Ha, Hn.
  do 6 (rewrite ?Hb, ?Hc, ?Hd, ?He, ?Hf, !Z.ltb_irrefl; cbn [reject]; rewrite !ok_bind).
  by rewrite Z.eqb_refl.
Qed.

Lemma validate_package_sections :
  validate_sections (package_bytes checksum_of_graph) header_of_graph = Ok tt.
Proof.
  pose proof sizes as Hs. pose proof (len_package_bytes checksum_of_graph) as Hl.
  destruct body_slices as (Sb & Sn & Si & _).
  rewrite <- (slice_body checksum_of_graph) in Sb, Si by lia.
  unfold validate_sections, validate_record_section, validate_byte_section, byte_range,
    TYPE_RECORD_SIZE, BLOCK_RECORD_SIZE, NODE_RECORD_SIZE, CAPABILITY_IMPORT_RECORD_SIZE.
  cbn [header_of_graph h_types_offset h_type_count h_blocks_offset h_block_count h_nodes_offset
    h_node_count h_imports_offset h_import_count h_constant_pool_offset h_constant_pool_len
    h_string_table_offset h_string_table_len].
  rewrite !record_range_ok, !range_ok by lia. rewrite !ok_bind. cbn [s_start s_end].
  set (bytes := package_bytes checksum_of_graph) in *.
  rewrite !(proj2 (Z.ltb_ge (len bytes) _)) by lia.
  rewrite (aligned_ok 96) by (by exists 24).
  rewrite (aligned_ok (96 + bc * 24)) by (exists (24 + bc * 6); lia).
  rewrite (aligned_ok (96 + bc * 24 + nc * 40)) by (exists (24 + bc * 6 + nc * 10); lia).
  cbn [reject negb]. rewrite !ok_bind.
  rewrite (reserved_ok block_bytes (g_blocks g));
    [|apply len_block_bytes|intros; unfold block_bytes; find_field; reflexivity|lia|fold bc; lia|lia|exact Sb].
  rewrite ok_bind. rewrite (reserved_ok import_bytes (g_imports g));
    [|apply len_import_bytes|intros; unfold import_bytes; find_field; reflexivity|lia|fold ic; lia|lia
     |rewrite <- Z.add_assoc; exact Si].
  rewrite ok_bind. apply layout_ok; cbn [s_start s_end]; lia.
Qed.
Definition package_of_graph : PythGraphPackage :=
  {| p_bytes := package_bytes checksum_of_graph; p_header := header_of_graph |}.

(** A graph that a decoded package came from is within the limits. *)
Lemma decoded_within_limits p :
  decode (package_bytes checksum_of_graph) = Ok p ->
  bc <= MAX_BLOCKS /\ nc <= MAX_GRAPH_NODES /\ ic <= MAX_CAPABILITY_IMPORTS /\
  pl <= MAX_CONSTANT_POOL_BYTES /\ sl <= MAX_STRING_TABLE_BYTES.
Proof.
  intros Hd. destruct (wp_value _ _ _ (decode_safe _) _ Hd) as [Hb Hp].
  pose proof (dec_header _ Hp) as Hh. rewrite Hb, read_package_header in Hh. injection Hh as Hh.
  destruct Hp. rewrite <- Hh in *. done.
Qed.

Lemma decode_package (Hg : graph_wf g) :
  decode (package_bytes checksum_of_graph) = Ok package_of_graph.
Proof.
  pose proof sizes as Hs. pose proof (len_package_bytes checksum_of_graph) as Hl.
  unfold decode, MAX_PACKAGE_BYTES, PYTH_GRAPH_HEADER_SIZE.
  rewrite (proj2 (Z.ltb_ge 131072 _)) by lia. rewrite (proj2 (Z.ltb_ge _ 96)) by lia.
  cbn [reject]. rewrite !ok_bind, read_package_header, ok_bind, (validate_package_header Hg), ok_bind,
    validate_package_sections, ok_bind.
  rewrite (package_checksum_field checksum_of_graph 0).
  change (package_checksum (package_bytes 0)) with checksum_of_graph.
  change (h_checksum header_of_graph) with checksum_of_graph. by rewrite Z.eqb_refl.
Qed.

(** A record table of the decoded package, entry by entry. *)
Lemma table_of_graph {A B} (enc : A -> list byte) (dec : list byte -> Z -> outcome PackageDecodeError B)
    (f : A -> B) (wf : B -> Prop) size (l : list A) (tbl : list B) bytes :
  0 < size < 2 ^ 63 -> (forall x, len (enc x) = size) -> len l * size < 2 ^ 63 ->
  Forall (fun x => wf (f x)) l -> (forall x, wf (f x) -> dec (enc x) 0 = Ok (f x)) ->
  bytes = l ≫= enc ->
  (forall i, get tbl i = record_bytes bytes i size ≫= fun b => ok (dec b 0)) ->
  tbl = f <$> l.
Proof.
  intros Hs He Hl Hwf Hdec -> Htbl. apply get_ext. intros i.
  rewrite Htbl, (record_of_table enc size l i Hs He Hl), get_fmap.
  destruct (get l i) as [x|] eqn:Hx; [|done]. simpl. rewrite Hdec; [done|].
  rewrite Forall_forall in Hwf. apply Hwf. by eapply get_elem_of.
Qed.

Lemma package_contents (Hg : graph_wf g) :
  types package_of_graph = [] /\ blocks package_of_graph = block_of_graph <$> g_blocks g /\
  nodes package_of_graph = node_of_graph <$> g_nodes g /\
  imports package_of_graph = import_of_graph <$> g_imports g /\
  constant_pool package_of_graph = g_constant_pool g /\
  string_table package_of_graph = g_string_table g.
Proof.
  pose proof sizes as Hs. destruct body_slices as (Sb & Sn & Si & Sp & Ss).
  destruct (wp_value _ _ _ (decode_safe _) _ (decode_package Hg)) as [_ Hd].
  destruct (section_slices _ Hd) as (_ & Hb & Hn & Hi & Hp & Hst). simpl in Hb, Hn, Hi, Hp, Hst.
  replace 96 with (96 + 0) in Hb by lia. rewrite slice_body in Hb by lia. rewrite Sb in Hb.
  rewrite slice_body in Hn by lia. rewrite Sn in Hn.
  replace (96 + bc * 24 + nc * 40) with (96 + (bc * 24 + nc * 40)) in Hi by lia.
  replace (96 + bc * 24 + nc * 40 + ic * 24) with (96 + (bc * 24 + nc * 40 + ic * 24)) in Hp by lia.
  replace (96 + bc * 24 + nc * 40 + ic * 24 + pl)
    with (96 + (bc * 24 + nc * 40 + ic * 24 + pl)) in Hst by lia.
  rewrite slice_body in Hi by lia. rewrite slice_body in Hp by lia. rewrite slice_body in Hst by lia.
  rewrite Si in Hi. rewrite Sp in Hp. rewrite Ss in Hst.
  split_and!; [..|done|done].
  - destruct (types_table _ Hd) as (Hl & _). apply nil_length_inv.
    change (h_type_count (p_header package_of_graph)) with 0 in Hl. unfold len in Hl. lia.
  - eapply (table_of_graph block_bytes decode_block_record block_of_graph block_wf 24);
      [lia|apply len_block_bytes|fold bc; lia|apply Hg|apply decode_block_bytes|exact Hb|].
    apply (blocks_table _ Hd).
  - eapply (table_of_graph node_bytes decode_node_record node_of_graph node_wf 40);
      [lia|apply len_node_bytes|fold nc; lia|apply Hg|apply decode_node_bytes|exact Hn|].
    apply (nodes_table _ Hd).
  - eapply (table_of_graph import_bytes decode_capability_import_record import_of_graph import_wf 24);
      [lia|apply len_import_bytes|fold ic; lia|apply Hg|apply decode_import_bytes|exact Hi|].
    apply (imports_table _ Hd).
Qed.
End layout.

(** ** Accepted graphs *)

(** If the computation returns a buffer, it has [n] bytes. *)
Definition len_is (n : Z) (m : W (list byte)) : Prop := forall b, m = Ok b -> len b = n.

Lemma len_is_copy n bytes offset data : len bytes = n -> len_is n (copy_at bytes offset data).
Proof.
  unfold copy_at. intros <- b. destruct (_ && _) eqn:Hb; [|done]. intros [= <-].
  unfold len in *. rewrite !length_app, length_take, length_drop. lia.
Qed.

Lemma len_is_bind {A} n (m : W A) k :
  (forall a, m = Ok a -> len_is n (k a)) -> len_is n (m ≫= k).
Proof. intros Hk b Hb. inv_bind Hb. by eapply Hk. Qed.

Lemma len_is_foldM {A} n (f : list byte -> A -> W (list byte)) l bytes :
  (forall b x, len b = n -> len_is n (f b x)) -> len bytes = n -> len_is n (foldM f bytes l).
Proof.
  intros Hf. revert bytes. induction l as [|x l IH]; intros bytes Hb; simpl; [by intros ? [= <-]|].
  apply len_is_bind. intros b Hx. apply IH. by eapply Hf.
Qed.

Ltac len_step :=
  match goal with
  | |- len_is _ (copy_at _ _ _) => apply len_is_copy
  | |- len_is _ (_ ≫= _) =>
      apply len_is_bind; let b := fresh "b" in let H := fresh "H" in intros b H;
      try (match type of H with copy_at ?x ?o ?d = _ => 
        apply (len_is_copy _ x o d ltac:(eassumption)) in H end)
  end.

Lemma encode_length g bytes : encode_graph g = Ok bytes -> len bytes = package_len g.
Proof.
  revert bytes. change (len_is (package_len g) (encode_graph g)). unfold encode_graph.
  unfold PYTH_GRAPH_HEADER_SIZE, TYPE_RECORD_SIZE, BLOCK_RECORD_SIZE, NODE_RECORD_SIZE,
    CAPABILITY_IMPORT_RECORD_SIZE. rewrite Z.mul_0_l, Z.add_0_r. fold (package_len g).
  assert (0 <= package_len g) by (unfold package_len, len; lia).
  assert (len (replicate (Z.to_nat (package_len g)) x00) = package_len g) as Hz
    by (rewrite len_replicate; lia).
  apply len_is_bind. intros b0 H0.
  assert (len b0 = package_len g) as H0'.
  { revert b0 H0. lazymatch goal with |- forall b, ?m = Ok b -> _ => change (len_is (package_len g) m) end.
    unfold write_header, write_u16, write_u32, write_u64.
    repeat len_step; assumption. }
  apply len_is_bind. intros b1 H1. apply len_is_foldM with (n := package_len g) in H1; [| |done].
  2:{ intros b [i x] Hb. unfold write_block, write_u16, write_u32. repeat len_step; assumption. }
  apply len_is_bind. intros b2 H2. apply len_is_foldM with (n := package_len g) in H2; [| |done].
  2:{ intros b [i x] Hb. unfold write_node, write_u16, write_u32, write_u64. repeat len_step; assumption. }
  apply len_is_bind. intros b3 H3. apply len_is_foldM with (n := package_len g) in H3; [| |done].
  2:{ intros b [i x] Hb. unfold write_import, write_u16, write_u32, write_u64. repeat len_step; assumption. }
  unfold refresh_checksum, write_u64. repeat len_step; assumption.
Qed.

(** Success of the compiler's last stage shows that the graph fits the format. *)
Lemma encode_verified_wf g bytes :
  uint 64 (g_principal_id g) ->
  Forall (fun b => block_wf (block_of_graph b)) (g_blocks g) ->
  Forall (fun n => node_wf (node_of_graph n)) (g_nodes g) ->
  Forall (fun i => import_wf (import_of_graph i)) (g_imports g) ->
  encode_verified_graph g = Ok bytes ->
  graph_wf g /\ exists vg, verify_bytes bytes = Ok vg /\
    graph_package vg = package_of_graph g /\ bytes = package_bytes g (checksum_of_graph g).
Proof.
  intros Hp Hb Hn Hi H. unfold encode_verified_graph in H. inv_bind H. inv_bind H. inv_bind H.
  injection H as <-. apply map_err_ok in Ha0, Ha1.
  destruct (wp_value _ _ _ (decode_safe _) _ Ha0) as [_ Hd].
  assert (graph_sized g) as Hs.
  { split; [done|]. rewrite <- (encode_length g _ Ha). destruct (wp_value _ _ _ (decode_safe _) _ Ha0) as [<- _].
    apply (dec_size _ Hd). }
  pose proof (encode_layout g Hs) as Hlay. rewrite Ha in Hlay. injection Hlay as ->.
  destruct (decoded_within_limits g Hs _ Ha0) as (? & ? & ? & ? & ?).
  assert (graph_wf g) as Hwf by (by constructor). split; [done|].
  exists a1. unfold verify_bytes. pose proof (decode_package g Hs Hwf) as Hdec.
  rewrite Hdec. rewrite Hdec in Ha0. injection Ha0 as <-.
  split; [by rewrite <- Ha1|]. split; [|done].
  apply (wp_value _ _ _ (verify_package_post _ Hd) _ Ha1).
Qed.

(** ** Theorems *)

(** C9: round trip. Encoding a graph that fits the format never fails or
    panics, and decoding the bytes gives back exactly its blocks, nodes,
    imports, constant pool, string table, principal and entry block 0. *)
Theorem decode_encode_roundtrip (g : OwnedGraph) :
  graph_wf g ->
  exists bytes p, encode_graph g = Ok bytes /\ decode bytes = Ok p /\
    blocks p = block_of_graph <$> g_blocks g /\ nodes p = node_of_graph <$> g_nodes g /\
    imports p = import_of_graph <$> g_imports g /\ constant_pool p = g_constant_pool g /\
    string_table p = g_string_table g /\ types p = [] /\
    h_principal_id (p_header p) = g_principal_id g /\ h_entry_block (p_header p) = 0.
Proof.
  intros Hg. pose proof (graph_wf_sized g Hg) as Hs. destruct (package_contents g Hs Hg) as (? & ? & ? & ? & ? & ?).
  exists (package_bytes g (checksum_of_graph g)), (package_of_graph g).
  split; [by apply encode_layout|]. split; [by apply decode_package|]. done.
Qed.

(** the compiler only emits packages the shared verifier accepts: what
    [encode_verified_graph] returns is the encoding of the graph, decodes, and
    passes [verify_bytes]. *)
Theorem compiler_output_verifies (g : OwnedGraph) (bytes : list byte) :
  encode_verified_graph g = Ok bytes ->
  encode_graph g = Ok bytes /\ exists vg, verify_bytes bytes = Ok vg.
Proof.
  unfold encode_verified_graph, verify_bytes. intros H.
  inv_bind H. inv_bind H. apply map_err_ok in Ha0. inv_bind H. apply map_err_ok in Ha1.
  injection H as <-. split; [done|]. rewrite Ha0. simpl. by exists a1.
Qed.
