(* ===== verification/TigExamples.v ===== *)
(** * Examples

    Concrete graphs and a concrete host. They show that the hypotheses of the
    theorems hold of real packages, and one of them records a gap of the
    verifier: a jump may declare any result type. *)

From stdpp Require Import base numbers list sets vector.
From Stdlib Require Import Strings.Byte.
From S2P Require Import Prelude TigTypes TigFormat TigFormatFacts TigVerify TigEncode TigStructure TigDominators TigTyping TigVerified TigRuntime TigRuntimeLogic TigSoundness TigAuthority TigRoundtrip.

(** ** Graphs *)

Definition gnode (o : Opcode) (t : PythType) (b i0 i1 i2 i3 a0 a1 imm : Z) : GraphNode := {|
  gn_opcode := o; gn_result_type := t; gn_block_index := b; gn_input0 := i0; gn_input1 := i1;
  gn_input2 := i2; gn_input3 := i3; gn_auxiliary0 := a0; gn_auxiliary1 := a1; gn_immediate := imm |}.

Definition gblock (id first count terminator : Z) : GraphBlock := {|
  gb_block_id := id; gb_first_node := first; gb_node_count := count; gb_parameter_count := 0;
  gb_terminator_node := terminator |}.

Definition gimport (slot kind rights : Z) : GraphImport := {|
  gi_name_offset := 0; gi_name_len := 3; gi_resource_kind := kind; gi_rights := rights;
  gi_expected_type := Ty.Capability; gi_import_slot := slot |}.

Abbreviation none := NO_VALUE.

(** Creates an object, logs, and inspects the object on one side of a branch. *)
Definition demo_graph : OwnedGraph := {|
  g_principal_id := 7;
  g_imports := [gimport 0 RESOURCE_SYSTEM_LOG RIGHTS_READ;
                gimport 1 RESOURCE_OBJECT_WORKSPACE (Z.lor RIGHTS_CREATE RIGHTS_QUERY)];
  g_blocks := [gblock 0 0 12 11; gblock 1 12 2 13; gblock 2 14 1 14; gblock 3 15 1 15];
  g_nodes :=
    [ gnode Op.EffectStart Ty.Effect 0 none none none none 0 0 0;
      gnode Op.BlockParam Ty.Capability 0 none none none none 0 0 0;
      gnode Op.BlockParam Ty.Capability 0 none none none none 1 0 0;
      gnode Op.ConstUtf8 Ty.Utf8 0 none none none none 0 3 0;
      gnode Op.ObjectCreate Ty.Effect 0 0 2 3 none 0 0 0;
      gnode Op.HostResult Ty.ObjectId 0 4 none none none HOST_RESULT_OBJECT_ID 0 0;
      gnode Op.HostResult Ty.Capability 0 4 none none none HOST_RESULT_CAPABILITY 0 0;
      gnode Op.SystemLog Ty.Effect 0 4 1 3 none 0 0 0;
      gnode Op.ConstU64 Ty.U64 0 none none none none 0 0 3;
      gnode Op.ConstU64 Ty.U64 0 none none none none 0 0 5;
      gnode Op.LessThanU64 Ty.Bool 0 8 9 none none 0 0 0;
      gnode Op.Branch Ty.Unit 0 10 none none none 1 2 0;
      gnode Op.ObjectInspect Ty.Effect 1 7 6 5 none 0 0 0;
      gnode Op.Jump Ty.Unit 1 none none none none 3 0 0;
      gnode Op.Jump Ty.Unit 2 none none none none 3 0 0;
      gnode Op.Return Ty.Unit 3 none none none none 0 0 0 ];
  g_constant_pool := []; g_string_table := [x61; x62; x63]; g_loop_budgets := [] |}.

(** A jump that declares a [U64] result, and a comparison that reads it. *)
Definition jump_graph : OwnedGraph := {|
  g_principal_id := 7; g_imports := [];
  g_blocks := [gblock 0 0 1 0; gblock 1 1 2 2];
  g_nodes :=
    [ gnode Op.Jump Ty.U64 0 none none none none 1 0 0;
      gnode Op.Eq Ty.Bool 1 0 0 none none 0 0 0;
      gnode Op.Return Ty.Unit 1 none none none none 0 0 0 ];
  g_constant_pool := []; g_string_table := []; g_loop_budgets := [] |}.

Definition encoded (g : OwnedGraph) : list byte :=
  match encode_graph g with Ok bytes => bytes | _ => [] end.

Definition empty_header : PythGraphHeader := {|
  h_magic := []; h_major := 0; h_minor := 0; h_flags := 0; h_package_id := 0; h_principal_id := 0;
  h_entry_block := 0; h_type_count := 0; h_block_count := 0; h_node_count := 0; h_import_count := 0;
  h_constant_pool_len := 0; h_string_table_len := 0; h_types_offset := 0; h_blocks_offset := 0;
  h_nodes_offset := 0; h_imports_offset := 0; h_constant_pool_offset := 0;
  h_string_table_offset := 0; h_checksum := 0; h_reserved := 0 |}.

Definition decoded_package (bytes : list byte) : PythGraphPackage :=
  match decode bytes with Ok p => p | _ => {| p_bytes := []; p_header := empty_header |} end.

Definition demo_bytes : list byte := Eval vm_compute in encoded demo_graph.
Definition demo_package : PythGraphPackage := Eval vm_compute in decoded_package demo_bytes.
Definition demo : VerifiedGraph := {| graph_package := demo_package |}.

Definition jump_bytes : list byte := Eval vm_compute in encoded jump_graph.
Definition jump_package : PythGraphPackage := Eval vm_compute in decoded_package jump_bytes.

(** ** A host *)

(** Grants every call; object 9 has capability 77. *)
#[export] Instance demo_host : Host unit := {
  system_log := fun _ _ h => (inr tt, h);
  object_create := fun _ _ h => (inr
    {| hr_status := 0; hr_bytes_len := 0; hr_reserved0 := 0; hr_object_id := 9; hr_revision := 1;
       hr_capability := {| raw := 77 |}; hr_bytes := vreplicate 64 x00;
       hr_reserved1 := vreplicate 16 x00 |}, h);
  object_query := fun _ _ h => (inr (empty_host_call_result 0), h);
  object_inspect := fun _ _ h => (inr (empty_host_call_result 0), h);
  object_revise := fun _ _ _ h => (inr (empty_host_call_result 0), h);
  object_history := fun _ _ h => (inr (empty_host_call_result 0), h);
  task_context := fun _ h => (inr (empty_host_call_result 0), h);
  task_propose := fun _ _ _ h => (inr tt, h);
  command_read := fun _ h => (inr (empty_host_call_result 0), h);
  command_result_emit := fun _ _ _ h => (inr tt, h) }.

#[export] Instance demo_host_wf : HostWf unit.
Proof.
  constructor; intros; intros h r h' Hr; cbn in Hr; injection Hr as <- _;
    constructor; unfold uint; cbn; lia.
Qed.

Definition demo_caps : list PackedCapability := [{| raw := 5 |}; {| raw := 6 |}].

Lemma demo_verifies : verify_bytes demo_bytes = Ok demo.
Proof. vm_compute. reflexivity. Qed.

Lemma demo_decodes : decode demo_bytes = Ok demo_package.
Proof. vm_compute. reflexivity. Qed.

(** The demo runs to the end. *)
Example demo_run :
  fst (execute demo_package demo_caps (new_interpreter 100 tt)) =
    Ok {| ex_status := GRAPH_EXIT_OK; ex_error_code := 0; ex_last_node := 15; ex_executed_nodes := 15;
          ex_result_type := 0; ex_reserved0 := 0; ex_reserved1 := 0; ex_result_raw := 0 |}.
Proof. vm_compute. reflexivity. Qed.

(** [jumps_unit] can be checked by running over the nodes. *)
Definition jumps_unit_check (p : PythGraphPackage) : bool :=
  forallb (fun n => bool_decide (opcode_try_from (n_opcode n) = Some Op.Jump ->
                                 type_try_from (n_result_type n) = Some Ty.Unit)) (nodes p).

Lemma jumps_unit_check_ok p : jumps_unit_check p = true -> jumps_unit p.
Proof.
  unfold jumps_unit_check, jumps_unit, op_at, ty_at. rewrite forallb_forall. intros Hall i.
  destruct (get (nodes p) i) as [n|] eqn:Hn; [|done]. simpl.
  specialize (Hall n). rewrite <- list_elem_of_In in Hall.
  specialize (Hall (get_elem_of _ _ _ Hn)). by apply bool_decide_eq_true in Hall.
Qed.

Lemma demo_jumps_unit : jumps_unit demo_package.
Proof. apply jumps_unit_check_ok. vm_compute. reflexivity. Qed.

Lemma demo_graph_wf : graph_wf demo_graph.
Proof.
  constructor.
  1-6: by vm_compute.
  all: cbn [demo_graph g_blocks g_nodes g_imports];
    repeat (apply Forall_cons_2; [vm_compute; by repeat split|]); apply Forall_nil_2.
Qed.

Lemma demo_structure : structure_passed demo_bytes demo_package.
Proof.
  split; [exact demo_decodes|]. split; [vm_compute; reflexivity|]. split; [vm_compute; reflexivity|].
  destruct (verify_block_ranges demo_package (replicate (Z.to_nat MAX_BLOCKS) 0)
    (replicate (Z.to_nat MAX_BLOCKS) 0) (replicate (Z.to_nat MAX_GRAPH_NODES) usize_max))
    as [[[starts ends] nb]|e| |] eqn:Hr; [|vm_compute in Hr; discriminate Hr..].
  exists starts, ends, nb. split; [done|]. vm_compute in Hr. injection Hr as <- <- <-.
  vm_compute. reflexivity.
Qed.

(** ** The theorems at the examples *)

Lemma sections_never_panic_witness :
  exists b, byte_section demo_package (h_string_table_offset (p_header demo_package))
              (h_string_table_len (p_header demo_package)) = Ok b.
Proof. apply (sections_never_panic demo_bytes demo_package demo_decodes). Defined.

Lemma single_byte_corruption_rejected_witness :
  exists e, decode (<[116%nat := xff]> demo_bytes) = Err e.
Proof.
  apply (single_byte_corruption_rejected demo_bytes demo_package 116 x00 xff);
    [exact demo_decodes|reflexivity|discriminate].
Defined.

Lemma decode_encode_roundtrip_witness :
  exists bytes p, encode_graph demo_graph = Ok bytes /\ decode bytes = Ok p /\
    nodes p = node_of_graph <$> g_nodes demo_graph.
Proof.
  destruct (decode_encode_roundtrip demo_graph demo_graph_wf) as (bytes & p & He & Hd & _ & Hn & _).
  exists bytes, p. split; [exact He|]. split; [exact Hd|exact Hn].
Defined.

Lemma compiler_output_verifies_witness : exists vg, verify_bytes demo_bytes = Ok vg.
Proof. apply (compiler_output_verifies demo_graph demo_bytes). vm_compute. reflexivity. Defined.

Lemma verified_blocks_partition_witness :
  exists b blk n, get (nodes demo_package) 13 = Some n /\ get (blocks demo_package) b = Some blk /\
    n_block_index n = b.
Proof.
  destruct (verified_blocks_partition demo_bytes demo 13 demo_verifies) as
    (b & blk & n & Hn & Hb & _ & Hi & _).
  - split; vm_compute; [discriminate|reflexivity].
  - exists b, blk, n. split; [exact Hn|]. split; [exact Hb|exact Hi].
Defined.

(** The node of the demo at an index. *)
Definition demo_node (i : Z) : NodeRecord :=
  default (node_of_graph (gnode Op.Return Ty.Unit 0 0 0 0 0 0 0 0)) (get (nodes demo_package) i).

Lemma verified_inputs_typed_witness :
  (exists e, get (inputs (signature Op.ObjectInspect)) 1 = Some e /\ ty_at demo_package 6 = Some e /\ 0 <= 6 <= 12) /\
  available demo_package 12 6.
Proof.
  destruct (verified_inputs_typed demo_bytes demo 12 (demo_node 12) Op.ObjectInspect demo_verifies
    ltac:(vm_compute; reflexivity) ltac:(vm_compute; reflexivity)) as [Havail Htyped]. split.
  - exact (Htyped 1 6 ltac:(vm_compute; reflexivity)).
  - exact (proj2 (Havail 1 6 ltac:(vm_compute; reflexivity) ltac:(discriminate))).
Defined.

Lemma verified_calls_authorized_witness :
  exists kind rights, required_resource_kind (signature Op.ObjectInspect) = Some kind /\
    granted demo_package 6 kind rights /\
    Z.land rights (required_rights (signature Op.ObjectInspect))
      = required_rights (signature Op.ObjectInspect).
Proof.
  apply (verified_calls_authorized demo_bytes demo 12 (demo_node 12) Op.ObjectInspect demo_verifies);
    vm_compute; reflexivity.
Defined.

Lemma verified_effect_chain_witness : last_effect demo_package 12 7.
Proof.
  destruct (verified_effect_chain demo_bytes demo 12 (demo_node 12) Op.ObjectInspect demo_verifies)
    as [[Hc _]|He]; [vm_compute; reflexivity|vm_compute; reflexivity|reflexivity|discriminate Hc|exact He].
Defined.

Lemma verified_projections_witness : owns demo_package 0 4.
Proof.
  apply (verified_projections demo_bytes demo 6 (demo_node 6) demo_verifies);
    [vm_compute; reflexivity|vm_compute; reflexivity|].
  exists (block_of_graph (gblock 0 0 12 11)).
  split; [vm_compute; reflexivity|]. split; vm_compute; [discriminate|reflexivity].
Defined.

Lemma reachability_exact_witness : reachable demo_package 3.
Proof.
  apply (proj1 (reachability_exact demo_bytes demo_package demo_structure));
    [vm_compute; reflexivity|split; vm_compute; [discriminate|reflexivity]].
Defined.

Lemma dominators_exact_witness :
  exists D, compute_dominators demo_package = Ok D /\
    ((exists m, get D 3 = Some m /\ Z.testbit m 0 = true) <-> dominates demo_package 0 3).
Proof.
  destruct (dominators_exact demo_bytes demo_package demo_structure) as (D & HD & Hex);
    [split; vm_compute; [discriminate|reflexivity]|].
  exists D. split; [exact HD|]. apply Hex; (split; vm_compute; [discriminate|reflexivity]).
Defined.

Lemma execute_total_witness :
  exists r s', execute jump_package [] (new_interpreter 10 tt) = (Ok r, s') /\
    0 <= ex_executed_nodes r <= 10 /\ ex_executed_nodes r + budget s' = 10.
Proof. apply (execute_total jump_package [] 10 tt). unfold uint. lia. Defined.

Lemma verified_runs_are_safe_witness :
  exists r s', execute demo_package demo_caps (new_interpreter 100 tt) = (Ok r, s') /\
    record_explained demo_package 100 r.
Proof.
  apply (verified_runs_are_safe demo_bytes demo demo_caps 100 tt demo_verifies demo_jumps_unit).
  unfold uint. lia.
Defined.

(** The three host calls of the demo, newest first. *)
Lemma host_calls_are_justified_witness :
  trace_justified demo_package demo_caps
    (host (execute demo_package demo_caps (new_interpreter 100 (tt, []))).2).2 /\
  (ev_op <$> (host (execute demo_package demo_caps (new_interpreter 100 (tt, []))).2).2)
    = [Op.ObjectInspect; Op.SystemLog; Op.ObjectCreate].
Proof.
  split; [|vm_compute; reflexivity].
  apply (host_calls_are_justified demo_bytes demo demo_caps 100 tt demo_verifies).
Defined.

(** ** A gap of the verifier *)

(** [verify_semantics] skips the signature of jumps, so a jump may declare a
    result type other than [Unit] and a dominated node may read it. This
    package is accepted, and its run stops with [InvalidInput] (code 4) at the
    comparison, because the interpreter stores no value for a jump. *)
Theorem jump_result_type_unchecked :
  exists g, verify_bytes jump_bytes = Ok g /\ ~ jumps_unit (graph_package g) /\
    exists r s', execute (graph_package g) [] (new_interpreter 10 tt) = (Ok r, s') /\
      ex_status r = GRAPH_EXIT_RUNTIME_ERROR /\ ex_error_code r = runtime_error_code InvalidInput /\
      ex_last_node r = 1.
Proof.
  exists {| graph_package := jump_package |}. split; [vm_compute; reflexivity|]. split.
  - intros Hj. specialize (Hj 0). vm_compute in Hj. discriminate (Hj eq_refl).
  - eexists _, _. split; [vm_compute; reflexivity|]. done.
Qed.
