(* ===== verification/PythcSyntax.v ===== *)
(** * Source text, tokens and syntax trees of the pythc compiler

    Models [tools/pythc/src/span.rs], [token.rs], [ast.rs] and [types.rs].
    A [String] is the list of its UTF-8 bytes. *)

From stdpp Require Import base numbers list.
From Stdlib Require Import Strings.Byte.
From Stdlib Require Strings.String.
From S2P Require Import Prelude Utf8 TigTypes.
Export String.StringSyntax.

(** The bytes of a literal of the source. *)
Definition bs (s : String.string) : list byte := String.list_byte_of_string s.
Arguments bs s%_string_scope.

(** ** [span.rs] *)

Record Span := { span_start : Z; span_end : Z }.

Definition default_span : Span := {| span_start := 0; span_end := 0 |}.

Record Diagnostic := {
  diag_code : String.string;
  diag_message : String.string;
  diag_span : Span;
}.

Definition diagnostic (code message : String.string) (span : Span) : Diagnostic :=
  {| diag_code := code; diag_message := message; diag_span := span |}.
Arguments diagnostic (code message)%_string_scope span.

Abbreviation D := (outcome Diagnostic).

(** ** [token.rs] *)

Module Sym.
Inductive Symbol : Type :=
| LBrace | RBrace | LParen | RParen | Colon | Semicolon | Comma | Less | Greater
| Eq | EqEq | Arrow | Plus | Minus | AndAnd | Pipe | OrOr | Bang.

#[export] Instance Symbol_eq_dec : EqDecision Symbol.
Proof. solve_decision. Defined.
End Sym.
Abbreviation Symbol := Sym.Symbol.
#[export] Existing Instance Sym.Symbol_eq_dec.

Inductive TokenKind : Type :=
| TIdent (text : list byte)
| THex (text : list byte)
| TInteger (text : list byte)
| TString (value : list byte)
| TSymbol (s : Symbol)
| TEof.

#[export] Instance TokenKind_eq_dec : EqDecision TokenKind.
Proof. solve_decision. Defined.

Record Token := { token_kind : TokenKind; token_span : Span }.

(** ** [ast.rs] *)

Module Tn.
Inductive TypeName : Type :=
| Bool | U64 | I64 | Bytes | Utf8 | ObjectId | RevisionId | TaskId | ProposalId
| Capability | ErrorCode | Unit.
End Tn.
Abbreviation TypeName := Tn.TypeName.

Record Ident := { ident_text : list byte; ident_span : Span }.

Inductive Literal : Type :=
| LBool (value : bool) (span : Span)
| LInteger (text : list byte) (span : Span)
| LString (value : list byte) (span : Span).

Inductive UnaryOp : Type := Not.

Module Bin.
Inductive BinaryOp : Type := Equal | Less | Add | Subtract | And | Or.
End Bin.
Abbreviation BinaryOp := Bin.BinaryOp.

Inductive Expression : Type :=
| ELiteral (l : Literal)
| EName (name : Ident)
| ECall (callee : Ident) (args : list Expression) (span : Span)
| EUnary (op : UnaryOp) (e : Expression) (span : Span)
| EBinary (op : BinaryOp) (left right : Expression) (span : Span).

Inductive Statement : Type :=
| SLet (name : Ident) (ty : TypeName) (value : Expression) (span : Span)
| SIf (condition : Expression) (then_statements else_statements : list Statement) (span : Span)
| SWhile (budget : Z) (condition : Expression) (statements : list Statement) (span : Span)
| SExpr (e : Expression)
| SReturn (span : Span).

Record ImportDecl := {
  import_name : Ident;
  import_resource : list byte;
  import_rights : list byte;
  import_span : Span;
}.

Record Function := {
  fn_statements : list Statement;
  fn_span : Span;
}.

Record Program := {
  program_name : Ident;
  principal_id : Z;
  program_imports : list ImportDecl;
  main : Function;
  program_span : Span;
}.

Definition literal_span (l : Literal) : Span :=
  match l with LBool _ s | LInteger _ s | LString _ s => s end.

Definition expression_span (e : Expression) : Span :=
  match e with
  | ELiteral l => literal_span l
  | EName name => ident_span name
  | ECall _ _ s | EUnary _ _ s | EBinary _ _ _ s => s
  end.

(** ** [types.rs] *)

Definition ast_type_to_pyth_type (t : TypeName) : PythType :=
  match t with
  | Tn.Bool => Ty.Bool
  | Tn.U64 => Ty.U64
  | Tn.I64 => Ty.I64
  | Tn.Bytes => Ty.Bytes
  | Tn.Utf8 => Ty.Utf8
  | Tn.ObjectId => Ty.ObjectId
  | Tn.RevisionId => Ty.RevisionId
  | Tn.TaskId => Ty.TaskId
  | Tn.ProposalId => Ty.ProposalId
  | Tn.Capability => Ty.Capability
  | Tn.ErrorCode => Ty.ErrorCode
  | Tn.Unit => Ty.Unit
  end.

Definition is_integer_like_type (t : PythType) : bool :=
  match t with
  | Ty.U64 | Ty.I64 | Ty.ObjectId | Ty.RevisionId | Ty.TaskId | Ty.ProposalId | Ty.ErrorCode => true
  | _ => false
  end.

(** ** Induction with the nested lists *)

Section expression_induction.
Context (P : Expression -> Prop).
Hypothesis Hlit : forall l, P (ELiteral l).
Hypothesis Hname : forall n, P (EName n).
Hypothesis Hcall : forall callee args s, Forall P args -> P (ECall callee args s).
Hypothesis Hun : forall op e s, P e -> P (EUnary op e s).
Hypothesis Hbin : forall op l r s, P l -> P r -> P (EBinary op l r s).

Fixpoint expression_rect_nested (e : Expression) : P e :=
  match e with
  | ELiteral l => Hlit l
  | EName n => Hname n
  | ECall callee args s =>
      Hcall callee args s
        ((fix all (l : list Expression) : Forall P l :=
            match l with
            | [] => Forall_nil_2 _
            | x :: l' => Forall_cons_2 _ _ _ (expression_rect_nested x) (all l')
            end) args)
  | EUnary op e s => Hun op e s (expression_rect_nested e)
  | EBinary op l r s => Hbin op l r s (expression_rect_nested l) (expression_rect_nested r)
  end.
End expression_induction.

Section statement_induction.
Context (P : Statement -> Prop).
Hypothesis Hlet : forall n t e s, P (SLet n t e s).
Hypothesis Hif : forall c a b s, Forall P a -> Forall P b -> P (SIf c a b s).
Hypothesis Hwhile : forall n c a s, Forall P a -> P (SWhile n c a s).
Hypothesis Hexpr : forall e, P (SExpr e).
Hypothesis Hret : forall s, P (SReturn s).

Fixpoint statement_rect_nested (st : Statement) : P st :=
  let all := fix all (l : list Statement) : Forall P l :=
    match l with
    | [] => Forall_nil_2 _
    | x :: l' => Forall_cons_2 _ _ _ (statement_rect_nested x) (all l')
    end in
  match st with
  | SLet n t e s => Hlet n t e s
  | SIf c a b s => Hif c a b s (all a) (all b)
  | SWhile n c a s => Hwhile n c a s (all a)
  | SExpr e => Hexpr e
  | SReturn s => Hret s
  end.
End statement_induction.
