(* ===== verification/PythcLexer.v ===== *)
(** * The lexer

    Models [tools/pythc/src/lexer.rs]: one pass over the bytes of the source
    that collects tokens with their spans and ends with an [Eof] token. *)

From stdpp Require Import base numbers list.
From Stdlib Require Import Strings.Byte.
From S2P Require Import Prelude Utf8 PythcSyntax.

(** ** Byte classes *)

Definition is_ascii_alphabetic (b : byte) : bool := in_range 0x41 0x5A b || in_range 0x61 0x7A b.
Definition is_ascii_digit (b : byte) : bool := in_range 0x30 0x39 b.
Definition is_ascii_alphanumeric (b : byte) : bool := is_ascii_alphabetic b || is_ascii_digit b.
Definition is_ascii_hexdigit (b : byte) : bool :=
  is_ascii_digit b || in_range 0x41 0x46 b || in_range 0x61 0x66 b.

Definition is_space (b : byte) : bool :=
  match b with " " | x0d | x0a | x09 => true | _ => false end%byte.
Definition starts_ident (b : byte) : bool :=
  is_ascii_alphabetic b || match b with "_" => true | _ => false end%byte.
Definition continues_ident (b : byte) : bool :=
  is_ascii_alphanumeric b || match b with "_" | "." => true | _ => false end%byte.

(** ** Strings *)

(** [str::is_char_boundary] *)
Definition is_char_boundary (s : list byte) (i : Z) : bool :=
  match get s i with
  | Some b => negb (cont b)
  | None => i =? len s
  end.

(** [&source[a..b]] on a [str]: panics off a character boundary. *)
Definition str_slice (s : list byte) (a b : Z) : D (list byte) :=
  if is_char_boundary s a && is_char_boundary s b then expect (get_range s a b) else Panic.

(** [value.push(byte as char)]: the byte is taken as a Latin-1 character, and
    appended in UTF-8. *)
Definition push_latin1 (value : list byte) (b : byte) : list byte :=
  value ++ (if byte_val b <? 0x80 then [b]
            else [byte_of (Z.lor 0xC0 (Z.shiftr (byte_val b) 6));
                  byte_of (Z.lor 0x80 (Z.land (byte_val b) 0x3F))]).

(** The character an escape stands for. *)
Definition unescape (b : byte) : byte :=
  match b with
  | x22 => x22
  | x5c => x5c
  | "n" => x0a
  | "r" => x0d
  | "t" => x09
  | _ => b
  end%byte.

(** ** Lexing *)

Definition Lexer : Type := Z * list Token.

Definition token (kind : TokenKind) (first last : Z) : Token :=
  {| token_kind := kind; token_span := {| span_start := first; span_end := last |} |}.

Section lexer.
Context (source : list byte).

Definition peek_byte (pos : Z) : option byte := get source pos.
Definition peek_next (pos : Z) : option byte := get source (pos + 1).

(** [while self.peek().is_some_and(p) { self.pos += 1 }] *)
Fixpoint run_length (p : byte -> bool) (l : list byte) : Z :=
  match l with
  | b :: l' => if p b then 1 + run_length p l' else 0
  | [] => 0
  end.
Definition skip_while (p : byte -> bool) (pos : Z) : Z :=
  pos + run_length p (drop (Z.to_nat pos) source).

Definition lex_ident (st : Lexer) : D Lexer :=
  let '(start, tokens) := st in
  let pos := skip_while continues_ident start in
  text ← str_slice source start pos;
  Ok (pos, tokens ++ [token (TIdent text) start pos]).

Definition lex_hex (st : Lexer) : D Lexer :=
  let '(start, tokens) := st in
  let pos := skip_while is_ascii_hexdigit (start + 2) in
  text ← str_slice source start pos;
  Ok (pos, tokens ++ [token (THex text) start pos]).

Definition lex_integer (st : Lexer) : D Lexer :=
  let '(start, tokens) := st in
  let pos := skip_while is_ascii_digit start in
  text ← str_slice source start pos;
  Ok (pos, tokens ++ [token (TInteger text) start pos]).

(** The loop of [lex_string], over the bytes from [pos] on. *)
Fixpoint string_body (start pos : Z) (value l : list byte) {struct l} : D (list byte * Z) :=
  let unterminated p :=
    Err (diagnostic "P0002" "unterminated string" {| span_start := start; span_end := p |}) in
  match l with
  | [] => unterminated pos
  | x22 :: _ => Ok (value, pos + 1)
  | x5c :: [] => unterminated (pos + 1)
  | x5c :: escaped :: l' => string_body start (pos + 2) (push_latin1 value (unescape escaped)) l'
  | b :: l' => string_body start (pos + 1) (push_latin1 value b) l'
  end.

Definition lex_string (st : Lexer) : D Lexer :=
  let '(start, tokens) := st in
  '(value, pos) ← string_body start (start + 1) [] (drop (Z.to_nat (start + 1)) source);
  Ok (pos, tokens ++ [token (TString value) start pos]).

Definition push_symbol (s : Symbol) (n : Z) (st : Lexer) : Lexer :=
  let '(start, tokens) := st in (start + n, tokens ++ [token (TSymbol s) start (start + n)]).

(** The symbol arms of [run], with the length of the symbol. *)
Definition symbol_at (b : byte) (next : option byte) : option (Symbol * Z) :=
  match b with
  | "{" => Some (Sym.LBrace, 1)
  | "}" => Some (Sym.RBrace, 1)
  | "(" => Some (Sym.LParen, 1)
  | ")" => Some (Sym.RParen, 1)
  | ":" => Some (Sym.Colon, 1)
  | ";" => Some (Sym.Semicolon, 1)
  | "," => Some (Sym.Comma, 1)
  | "<" => Some (Sym.Less, 1)
  | ">" => Some (Sym.Greater, 1)
  | "+" => Some (Sym.Plus, 1)
  | "!" => Some (Sym.Bang, 1)
  | "=" => if bool_decide (next = Some "="%byte) then Some (Sym.EqEq, 2) else Some (Sym.Eq, 1)
  | "-" => if bool_decide (next = Some ">"%byte) then Some (Sym.Arrow, 2) else Some (Sym.Minus, 1)
  | "&" => if bool_decide (next = Some "&"%byte) then Some (Sym.AndAnd, 2) else None
  | "|" => if bool_decide (next = Some "|"%byte) then Some (Sym.OrOr, 2) else Some (Sym.Pipe, 1)
  | _ => None
  end%byte.

(** One round of the loop in [run]. *)
Definition lex_round (st : Lexer) : D (Lexer + list Token) :=
  let '(pos, tokens) := st in
  match peek_byte pos with
  | None => Ok (inr (tokens ++ [token TEof pos pos]))
  | Some b =>
      if is_space b then Ok (inl (pos + 1, tokens))
      else if starts_ident b then inl <$> lex_ident st
      else if bool_decide (b = "0"%byte) &&
              match peek_next pos with Some "x"%byte | Some "X"%byte => true | _ => false end
      then inl <$> lex_hex st
      else if is_ascii_digit b then inl <$> lex_integer st
      else if bool_decide (b = x22) then inl <$> lex_string st
      else match symbol_at b (peek_next pos) with
           | Some (s, n) => Ok (inl (push_symbol s n st))
           | None => Err (diagnostic "P0001" "unexpected character"
                            {| span_start := pos; span_end := pos + 1 |})
           end
  end.

(** Every round consumes a byte or ends, so one more round than bytes is
    enough. *)
Definition lex : D (list Token) := loop (S (length source)) lex_round (0, []).
End lexer.

Definition kinds (ts : list Token) : list TokenKind := token_kind <$> ts.

Example lex_sample :
  kinds <$> lex (bs "if a.b==0x1F{ return; }")
  = Ok [TIdent (bs "if"); TIdent (bs "a.b"); TSymbol Sym.EqEq; THex (bs "0x1F");
        TSymbol Sym.LBrace; TIdent (bs "return"); TSymbol Sym.Semicolon; TSymbol Sym.RBrace; TEof].
Proof. by vm_compute. Qed.
