(* ===== verification/PythcLexerFacts.v ===== *)
(** * Properties of the lexer *)

From stdpp Require Import base numbers list.
From Stdlib Require Import Strings.Byte.
From S2P Require Import Prelude Utf8 PythcSyntax PythcLexer.

(** ** Character boundaries *)

Definition ascii (b : byte) : Prop := byte_val b < 0x80.

Lemma in_range_spec lo hi b : in_range lo hi b = true <-> lo <= byte_val b <= hi.
Proof. unfold in_range. lia. Qed.

Lemma ascii_not_cont b : ascii b -> cont b = false.
Proof. unfold ascii. intros H. apply not_true_iff_false. rewrite in_range_spec. lia. Qed.

(** A well-formed string is empty or starts with a whole character: an ASCII
    byte, or a lead byte with its continuation bytes. *)
Lemma from_utf8_cons b l :
  from_utf8 (b :: l) = true ->
  cont b = false /\
  exists n, from_utf8 (drop n l) = true /\
    (ascii b /\ n = O \/ ~ ascii b /\ forall i c, (i < n)%nat -> l !! i = Some c -> ~ ascii c).
Proof.
  unfold ascii. cbn [from_utf8].
  destruct (in_range 0x00 0x7F b) eqn:H0.
  { apply in_range_spec in H0. intros H. split; [apply ascii_not_cont; unfold ascii; lia|].
    exists O. split; [done|]. left. split; [lia|done]. }
  assert (~ byte_val b < 0x80) as Hb.
  { intros H. apply not_true_iff_false in H0. apply H0, in_range_spec. pose proof (byte_val_range b). lia. }
  assert (forall lo hi, in_range lo hi b = true -> 0xC0 <= lo -> cont b = false) as Hnc.
  { intros lo hi Hr Hlo. apply not_true_iff_false. rewrite !in_range_spec in *. lia. }
  assert (forall lo hi c, in_range lo hi c = true -> 0x80 <= lo -> ~ byte_val c < 0x80) as Hc.
  { intros lo hi c Hr%in_range_spec Hlo. lia. }
  destruct l as [|b1 l2]; [done|].
  destruct (in_range 0xC2 0xDF b) eqn:H1.
  { intros [H2 H3]%andb_true_iff. split; [by eapply Hnc|]. exists 1%nat. split; [done|]. right.
    split; [done|]. intros [|i] c Hi Hl; [|lia]. injection Hl as <-. by eapply Hc. }
  destruct l2 as [|b2 l3]; [done|].
  destruct (in_range 0xE0 0xEF b) eqn:H2.
  { intros [[H3 H4]%andb_true_iff H5]%andb_true_iff. split; [by eapply Hnc|].
    exists 2%nat. split; [done|]. right. split; [done|]. intros [|[|i]] c Hi Hl; [| |lia].
    - injection Hl as <-. destruct (byte_val b =? 0xE0); [by eapply Hc|].
      destruct (byte_val b =? 0xED); by eapply Hc.
    - injection Hl as <-. by eapply Hc. }
  destruct l3 as [|b3 l4]; [done|].
  intros [[[[H3 H4]%andb_true_iff H5]%andb_true_iff H6]%andb_true_iff H7]%andb_true_iff.
  split; [by eapply Hnc|]. exists 3%nat. split; [done|]. right. split; [done|].
  intros [|[|[|i]]] c Hi Hl; [| | |lia]; injection Hl as <-; [|by eapply Hc..].
  destruct (byte_val b =? 0xF0); [by eapply Hc|]. destruct (byte_val b =? 0xF4); by eapply Hc.
Qed.

(** In well-formed text the byte after an ASCII byte starts a character. *)
Lemma utf8_after_ascii l i b c :
  from_utf8 l = true -> l !! i = Some b -> ascii b -> l !! S i = Some c -> cont c = false.
Proof.
  remember (length l) as n eqn:Hn. revert l i Hn.
  induction n as [n IH] using lt_wf_ind. intros l i -> Hu Hb Ha Hc.
  destruct l as [|b0 l]; [done|].
  destruct (from_utf8_cons b0 l Hu) as (_ & k & Hk & [[_ ->]|[Hna Hconts]]).
  - destruct i as [|i]; simpl in *.
    + destruct l as [|b1 l]; [done|]. injection Hc as <-. by apply from_utf8_cons in Hk as [? _].
    + eapply (IH (length l)); [lia|done|exact Hk|..]; done.
  - destruct i as [|i]; simpl in *; [by simplify_eq|].
    destruct (decide (i < k)%nat) as [Hlt|Hge]; [by apply Hconts in Hb|].
    eapply (IH (length (drop k l)) ltac:(rewrite length_drop; simpl; lia) (drop k l) (i - k)%nat);
      [done|done| |done|]; rewrite lookup_drop.
    + by replace (k + (i - k))%nat with i by lia.
    + by replace (k + S (i - k))%nat with (S i) by lia.
Qed.

Lemma boundary_at s i b : get s i = Some b -> ascii b -> is_char_boundary s i = true.
Proof. unfold is_char_boundary. intros -> H. by rewrite ascii_not_cont. Qed.

Lemma boundary_after s i b :
  from_utf8 s = true -> get s i = Some b -> ascii b -> is_char_boundary s (i + 1) = true.
Proof.
  intros Hu Hb Ha. pose proof Hb as [Hi Hl]%get_Some. unfold is_char_boundary.
  destruct (get s (i + 1)) as [c|] eqn:Hc.
  - apply get_Some in Hc as [_ Hc]. replace (Z.to_nat (i + 1)) with (S (Z.to_nat i)) in Hc by lia.
    by rewrite (utf8_after_ascii s _ b c Hu Hl Ha Hc).
  - apply get_None in Hc. lia.
Qed.

(** ** Runs of bytes *)

Lemma run_length_spec p l :
  0 <= run_length p l <= len l /\
  (forall i b, (Z.of_nat i < run_length p l) -> l !! i = Some b -> p b = true) /\
  (forall b, l !! Z.to_nat (run_length p l) = Some b -> p b = false).
Proof.
  induction l as [|b l (IHr & IHa & IHs)]; simpl; [split_and!; try done; lia|].
  assert (len (b :: l) = 1 + len l) as -> by (unfold len; simpl; lia).
  destruct (p b) eqn:Hp.
  - split_and!; [lia|lia| |].
    + intros [|i] c Hi Hc; simpl in *; [by simplify_eq|]. apply (IHa i); [lia|done].
    + intros c. replace (Z.to_nat (1 + run_length p l)) with (S (Z.to_nat (run_length p l))) by lia.
      apply IHs.
  - split_and!; [lia|unfold len; lia|lia|]. intros c [= ->]. done.
Qed.

Lemma skip_while_spec s p pos :
  0 <= pos <= len s ->
  let pos' := skip_while s p pos in
  pos <= pos' <= len s /\
  (forall i b, pos <= i < pos' -> get s i = Some b -> p b = true) /\
  (forall b, get s pos' = Some b -> p b = false).
Proof.
  intros Hpos. unfold skip_while. cbv zeta.
  destruct (run_length_spec p (drop (Z.to_nat pos) s)) as (Hr & Ha & Hs).
  unfold len in *. rewrite length_drop in Hr. split_and!; [lia|lia| |].
  - intros i b Hi [_ Hb]%get_Some. apply (Ha (Z.to_nat (i - pos)) b); [lia|].
    rewrite lookup_drop. by replace (Z.to_nat pos + Z.to_nat (i - pos))%nat with (Z.to_nat i) by lia.
  - intros b [_ Hb]%get_Some. apply Hs. rewrite lookup_drop.
    by replace (Z.to_nat pos + Z.to_nat (run_length p (drop (Z.to_nat pos) s)))%nat
      with (Z.to_nat (pos + run_length p (drop (Z.to_nat pos) s))) by lia.
Qed.

(** ** What a token is *)

(** [s] holds the bytes [l] at position [a]. *)
Definition bytes_at (s : list byte) (a : Z) (l : list byte) : Prop :=
  get_range s a (a + len l) = Some l.

Definition symbol_text (s : Symbol) : list byte :=
  match s with
  | Sym.LBrace => bs "{"
  | Sym.RBrace => bs "}"
  | Sym.LParen => bs "("
  | Sym.RParen => bs ")"
  | Sym.Colon => bs ":"
  | Sym.Semicolon => bs ";"
  | Sym.Comma => bs ","
  | Sym.Less => bs "<"
  | Sym.Greater => bs ">"
  | Sym.Eq => bs "="
  | Sym.EqEq => bs "=="
  | Sym.Arrow => bs "->"
  | Sym.Plus => bs "+"
  | Sym.Minus => bs "-"
  | Sym.AndAnd => bs "&&"
  | Sym.Pipe => bs "|"
  | Sym.OrOr => bs "||"
  | Sym.Bang => bs "!"
  end.

(** The value of the text between two quotes. *)
Fixpoint decode_body (value body : list byte) {struct body} : option (list byte) :=
  match body with
  | [] => Some value
  | x22 :: _ => None
  | x5c :: [] => None
  | x5c :: escaped :: body' => decode_body (push_latin1 value (unescape escaped)) body'
  | b :: body' => decode_body (push_latin1 value b) body'
  end.

(** The spelling a token is read from. *)
Definition spelled (k : TokenKind) (l : list byte) : Prop :=
  match k with
  | TIdent text => text = l /\ (exists b l', l = b :: l' /\ starts_ident b = true) /\
                   Forall (fun b => continues_ident b = true) l
  | THex text => text = l /\ exists x digits, l = "0"%byte :: x :: digits /\
                   (x = "x"%byte \/ x = "X"%byte) /\ Forall (fun b => is_ascii_hexdigit b = true) digits
  | TInteger text => text = l /\ l <> [] /\ Forall (fun b => is_ascii_digit b = true) l
  | TString value => exists body, l = x22 :: body ++ [x22] /\ decode_body [] body = Some value
  | TSymbol s => l = symbol_text s
  | TEof => False
  end.

(** The token could not have been longer, given the byte after it. *)
Definition maximal (k : TokenKind) (l : list byte) (next : option byte) : Prop :=
  match k with
  | TIdent _ => forall b, next = Some b -> continues_ident b = false
  | THex _ => forall b, next = Some b -> is_ascii_hexdigit b = false
  | TInteger _ => forall b, next = Some b -> is_ascii_digit b = false /\
                    (l = bs "0" -> b <> "x"%byte /\ b <> "X"%byte)
  | TSymbol Sym.Eq => next <> Some "="%byte
  | TSymbol Sym.Minus => next <> Some ">"%byte
  | TSymbol Sym.Pipe => next <> Some "|"%byte
  | _ => True
  end.

(** The tokens [ts] are what [s] holds between [p] and [q]: in order, each at
    its span and as long as possible, with nothing but spaces between them. *)
Inductive tokens_between (s : list byte) : Z -> list Token -> Z -> Prop :=
| between_nil p : tokens_between s p [] p
| between_space p ts q b :
    get s p = Some b -> is_space b = true ->
    tokens_between s (p + 1) ts q -> tokens_between s p ts q
| between_token p l k ts q :
    bytes_at s p l -> l <> [] -> spelled k l -> maximal k l (get s (p + len l)) ->
    tokens_between s (p + len l) ts q -> tokens_between s p (token k p (p + len l) :: ts) q.

Lemma between_snoc_space s p ts q b :
  tokens_between s p ts q -> get s q = Some b -> is_space b = true ->
  tokens_between s p ts (q + 1).
Proof.
  induction 1 as [p|p ts q b' Hb Hs _ IH|p l k ts q Hat Hne Hsp Hmax _ IH]; intros Hq Hsq.
  - eapply between_space; [done|done|constructor].
  - eapply between_space; eauto.
  - apply between_token; eauto.
Qed.

Lemma between_snoc_token s p ts q l k :
  tokens_between s p ts q -> bytes_at s q l -> l <> [] -> spelled k l ->
  maximal k l (get s (q + len l)) ->
  tokens_between s p (ts ++ [token k q (q + len l)]) (q + len l).
Proof.
  induction 1 as [p|p ts q b' Hb Hs _ IH|p l' k' ts q Hat Hne Hsp Hmax _ IH]; intros; simpl.
  - apply between_token; [done..|constructor].
  - eapply between_space; eauto.
  - apply between_token; eauto.
Qed.

(** ** Slices *)

Lemma bytes_at_spec s a l :
  bytes_at s a l <-> 0 <= a /\ a + len l <= len s /\
    forall i b, 0 <= i < len l -> get s (a + i) = Some b <-> get l i = Some b.
Proof.
  unfold bytes_at. rewrite get_range_Some. pose proof (len_nonneg l) as Hl. split.
  - intros (Ha & Hb & Heq). split_and!; [lia|lia|]. intros i b Hi.
    replace (a + len l - a) with (len l) in Heq by lia. rewrite Heq at 1.
    rewrite !get_Some, lookup_take_Some, lookup_drop. unfold len in *.
    rewrite length_take, length_drop.
    replace (Z.to_nat a + Z.to_nat i)%nat with (Z.to_nat (a + i)) by lia.
    split; intros; destruct_and?; split_and!; auto; lia.
  - intros (Ha & Hb & Hget). split_and!; [lia|lia|lia|].
    apply list_eq. intros i. replace (a + len l - a) with (len l) by lia.
    destruct (decide (i < length l)%nat) as [Hi|Hi].
    + rewrite lookup_take_lt by (unfold len; lia). rewrite lookup_drop.
      destruct (lookup_lt_is_Some_2 l i Hi) as [b Hb']. rewrite Hb'. symmetry.
      assert (get s (a + Z.of_nat i) = Some b) as [_ H]%get_Some.
      { apply Hget; [unfold len; lia|]. by rewrite get_of_nat. }
      by replace (Z.to_nat a + i)%nat with (Z.to_nat (a + Z.of_nat i)) by lia.
    + rewrite lookup_take_ge by (unfold len; lia). apply lookup_ge_None. lia.
Qed.

(** The slice between two positions of the text. *)
Lemma slice_exists s a b : 0 <= a <= b -> b <= len s -> exists l, bytes_at s a l /\ len l = b - a.
Proof.
  intros Ha Hb. eexists (take (Z.to_nat (b - a)) (drop (Z.to_nat a) s)).
  assert (len (take (Z.to_nat (b - a)) (drop (Z.to_nat a) s)) = b - a) as Hl.
  { unfold len in *. rewrite length_take, length_drop. lia. }
  split; [|done]. unfold bytes_at. rewrite Hl. apply get_range_Some. split_and!; [lia..|].
  by replace (a + (b - a) - a) with (b - a) by lia.
Qed.

Lemma str_slice_at s a l :
  is_char_boundary s a = true -> is_char_boundary s (a + len l) = true -> bytes_at s a l ->
  str_slice s a (a + len l) = Ok l.
Proof. unfold str_slice, bytes_at. by intros -> -> ->. Qed.

Lemma bytes_at_forall s a l (p : byte -> bool) :
  bytes_at s a l ->
  Forall (fun b => p b = true) l <->
  forall i b, a <= i < a + len l -> get s i = Some b -> p b = true.
Proof.
  intros (Ha & Hl & Hget)%bytes_at_spec. rewrite Forall_lookup. split.
  - intros Hf i b Hi Hb. apply (Hf (Z.to_nat (i - a))). rewrite <- get_of_nat, Z2Nat.id by lia.
    apply Hget; [lia|]. by replace (a + (i - a)) with i by lia.
  - intros Hf i b Hb. pose proof (lookup_lt_Some _ _ _ Hb). unfold len in *.
    apply (Hf (a + Z.of_nat i)); [lia|]. apply Hget; [lia|]. by rewrite get_of_nat.
Qed.

(** The end of a run is determined by its bytes and the one after it. *)
Lemma skip_while_unique s p a b :
  0 <= a <= b -> b <= len s ->
  (forall i x, a <= i < b -> get s i = Some x -> p x = true) ->
  (forall x, get s b = Some x -> p x = false) ->
  skip_while s p a = b.
Proof.
  intros Hab Hb Hin Hout. destruct (skip_while_spec s p a ltac:(lia)) as (He & Hall & Hstop).
  destruct (Z.lt_trichotomy (skip_while s p a) b) as [Hlt|[Heq|Hgt]]; [|done|].
  - destruct (proj2 (get_is_Some s (skip_while s p a)) ltac:(lia)) as [x Hx].
    pose proof (Hstop x Hx) as Hf. rewrite (Hin (skip_while s p a) x) in Hf; [done|lia|done].
  - destruct (proj2 (get_is_Some s b) ltac:(lia)) as [x Hx].
    pose proof (Hout x Hx) as Hf. rewrite (Hall b x) in Hf; [done|lia|done].
Qed.

(** A run of ASCII bytes can be cut out of well-formed text. *)
Lemma str_slice_ascii s a l :
  from_utf8 s = true -> bytes_at s a l -> l <> [] -> Forall ascii l ->
  str_slice s a (a + len l) = Ok l.
Proof.
  intros Hu Hat Hne Hasc. pose proof Hat as (Ha & Hl & Hget)%bytes_at_spec.
  assert (0 < len l) as Hpos by (destruct l; [done|unfold len; simpl; lia]).
  assert (forall i, 0 <= i < len l -> exists b, get s (a + i) = Some b /\ ascii b) as Hb.
  { intros i Hi. destruct (proj2 (get_is_Some l i) Hi) as [b Hb]. exists b.
    split; [by apply Hget|]. rewrite Forall_forall in Hasc. by eapply Hasc, get_elem_of. }
  apply str_slice_at; [| |done].
  - destruct (Hb 0 ltac:(lia)) as (b & Hb0 & Hba). rewrite Z.add_0_r in Hb0. by eapply boundary_at.
  - destruct (Hb (len l - 1) ltac:(lia)) as (b & Hb0 & Hba).
    replace (a + len l) with (a + (len l - 1) + 1) by lia. by eapply boundary_after.
Qed.

(** ** Byte classes *)

(** Properties of all bytes, by evaluation. *)
Lemma forall_bytes (p : byte -> bool) :
  forallb (fun n => p (byte_of (Z.of_nat n))) (seq 0 256) = true -> forall b, p b = true.
Proof.
  intros H b. rewrite forallb_forall in H. rewrite <- (byte_of_val b).
  specialize (H (Z.to_nat (byte_val b))). rewrite Z2Nat.id in H by apply byte_val_range.
  apply H. apply in_seq. pose proof (byte_val_range b). lia.
Qed.

Lemma classes_ascii b :
  is_space b || continues_ident b || is_ascii_hexdigit b || is_ascii_digit b ||
  starts_ident b = true -> ascii b.
Proof.
  intros H. unfold ascii. apply Z.ltb_lt.
  pose proof (forall_bytes (fun b => implb (is_space b || continues_ident b || is_ascii_hexdigit b ||
    is_ascii_digit b || starts_ident b) (byte_val b <? 0x80)) ltac:(by vm_compute) b) as Hb.
  cbv beta in Hb. rewrite H in Hb. done.
Qed.

(** The arms of the lexer are disjoint. *)
Lemma starts_ident_arms b :
  starts_ident b = true -> is_space b = false /\ continues_ident b = true.
Proof.
  intros H. pose proof (forall_bytes (fun b => implb (starts_ident b)
    (negb (is_space b) && continues_ident b)) ltac:(by vm_compute) b) as Hb.
  cbv beta in Hb. rewrite H in Hb. apply andb_true_iff in Hb as [?%negb_true_iff ?]. done.
Qed.

Lemma digit_arms b :
  is_ascii_digit b = true -> is_space b = false /\ starts_ident b = false.
Proof.
  intros H. pose proof (forall_bytes (fun b => implb (is_ascii_digit b)
    (negb (is_space b) && negb (starts_ident b))) ltac:(by vm_compute) b) as Hb.
  cbv beta in Hb. rewrite H in Hb. by apply andb_true_iff in Hb as [?%negb_true_iff ?%negb_true_iff].
Qed.

Lemma symbol_arms b next s n :
  symbol_at b next = Some (s, n) ->
  is_space b = false /\ starts_ident b = false /\ is_ascii_digit b = false /\
  b <> "0"%byte /\ b <> x22.
Proof. intros H. destruct b; first [discriminate H|split_and!; done]. Qed.

Lemma bytes_at_nil s p : bytes_at s p [] <-> 0 <= p <= len s.
Proof.
  rewrite bytes_at_spec. unfold len at 1 3. simpl. split; [lia|]. intros H. split_and!; [lia..|].
  intros i b Hi. lia.
Qed.

Lemma bytes_at_cons s p b l :
  bytes_at s p (b :: l) <-> get s p = Some b /\ bytes_at s (p + 1) l.
Proof.
  rewrite !bytes_at_spec. assert (len (b :: l) = 1 + len l) as -> by (unfold len; simpl; lia).
  pose proof (len_nonneg l) as Hl.
  assert (forall i x, 0 <= i < len l -> get (b :: l) (1 + i) = Some x <-> get l i = Some x) as Hg.
  { intros i x Hi. rewrite !get_Some. assert (len (b :: l) = 1 + len l) as -> by (unfold len; simpl; lia).
    replace (Z.to_nat (1 + i)) with (S (Z.to_nat i)) by lia. simpl. intuition lia. }
  split.
  - intros (Hp & Hlen & Hget). split_and!; [|lia|lia|].
    + rewrite <- (Z.add_0_r p). apply Hget; [lia|]. done.
    + intros i x Hi. rewrite <- Hg by done. rewrite <- Hget by lia. by rewrite Z.add_assoc.
  - intros (Hb & Hp & Hlen & Hget). pose proof Hb as [Hp0 _]%get_Some. split_and!; [lia|lia|].
    intros i x Hi. destruct (decide (i = 0)) as [->|].
    + rewrite Z.add_0_r, Hb. done.
    + replace i with (1 + (i - 1)) by lia. rewrite Hg by lia. rewrite <- Hget by lia.
      by replace (p + 1 + (i - 1)) with (p + (1 + (i - 1))) by lia.
Qed.

Lemma symbol_at_sound source p b s n :
  get source p = Some b -> symbol_at b (get source (p + 1)) = Some (s, n) ->
  n = len (symbol_text s) /\ bytes_at source p (symbol_text s) /\
  maximal (TSymbol s) (symbol_text s) (get source (p + n)).
Proof.
  intros Hb Hs. pose proof Hb as [Hp _]%get_Some.
  assert (forall c, get source (p + 1) = Some c -> 0 <= p + 1 + 1 <= len source) as Hn.
  { intros c [? _]%get_Some. lia. }
  destruct b; try discriminate Hs; cbn [symbol_at] in Hs; repeat case_bool_decide;
    try discriminate Hs; injection Hs as <- <-; (split; [done|]); split; try done;
    cbn [symbol_text]; vm_compute bs; repeat (apply bytes_at_cons; split; [done|]);
    apply bytes_at_nil; eauto; lia.
Qed.

Lemma symbol_at_complete source p s :
  bytes_at source p (symbol_text s) ->
  maximal (TSymbol s) (symbol_text s) (get source (p + len (symbol_text s))) ->
  exists b, get source p = Some b /\
    symbol_at b (get source (p + 1)) = Some (s, len (symbol_text s)).
Proof.
  intros Hat Hmax. destruct s; apply bytes_at_cons in Hat as [Hb Hat];
    eexists; (split; [exact Hb|]); cbn [symbol_at]; try done;
    try (apply bytes_at_cons in Hat as [Hc _]; rewrite Hc; reflexivity);
    cbn; (rewrite bool_decide_false; [done|exact Hmax]).
Qed.

(** ** String literals *)

(** What the next bytes of a string body are. *)
Inductive body_view : list byte -> Prop :=
| view_end : body_view []
| view_quote l : body_view (x22 :: l)
| view_dangling : body_view [x5c]
| view_escape e l : body_view (x5c :: e :: l)
| view_plain b l : b <> x22 -> b <> x5c -> body_view (b :: l).

Lemma body_view_of l : body_view l.
Proof.
  destruct l as [|b l]; [constructor|].
  destruct (decide (b = x22)) as [->|]; [constructor|].
  destruct (decide (b = x5c)) as [->|]; [|by constructor]. destruct l; constructor.
Qed.

Lemma string_body_plain start pos value b l :
  b <> x22 -> b <> x5c ->
  string_body start pos value (b :: l) = string_body start (pos + 1) (push_latin1 value b) l.
Proof. intros H1 H2. destruct b; done. Qed.

Lemma decode_body_plain value b l :
  b <> x22 -> b <> x5c -> decode_body value (b :: l) = decode_body (push_latin1 value b) l.
Proof. intros H1 H2. destruct b; done. Qed.

Lemma string_body_spec start pos value l :
  start <= pos ->
  wp (string_body start pos value l)
    (fun r => exists body rest, l = body ++ x22 :: rest /\ decode_body value body = Some (fst r) /\
       snd r = pos + len body + 1)
    (fun d => span_start (diag_span d) = start /\ pos <= span_end (diag_span d) <= pos + len l).
Proof.
  remember (length l) as n eqn:Hn. revert pos value l Hn.
  induction n as [n IH] using lt_wf_ind. intros pos value l -> Hpos.
  destruct (body_view_of l) as [|l| |e l|b l H1 H2].
  - simpl. unfold len. simpl. lia.
  - exists [], l. simpl. split_and!; [done|done|]. unfold len. simpl. lia.
  - simpl. unfold len. simpl. lia.
  - cbn [string_body]. eapply wp_mono; [apply (IH (length l)); simpl; lia| |].
    + intros r (body & rest & -> & Hd & Hr). exists (x5c :: e :: body), rest.
      split_and!; [done|done|]. rewrite Hr. unfold len. simpl. lia.
    + intros d [Hs He]. split; [done|]. unfold len in *. simpl. lia.
  - rewrite string_body_plain by done. eapply wp_mono; [apply (IH (length l)); simpl; lia| |].
    + intros r (body & rest & -> & Hd & Hr). exists (b :: body), rest.
      split_and!; [done|by rewrite decode_body_plain|]. rewrite Hr. unfold len. simpl. lia.
    + intros d [Hs He]. split; [done|]. unfold len in *. simpl. lia.
Qed.

Lemma string_body_complete start pos value body rest v :
  decode_body value body = Some v ->
  string_body start pos value (body ++ x22 :: rest) = Ok (v, pos + len body + 1).
Proof.
  remember (length body) as n eqn:Hn. revert pos value body Hn.
  induction n as [n IH] using lt_wf_ind. intros pos value body -> Hd.
  destruct (body_view_of body) as [|l| |e l|b l H1 H2].
  - injection Hd as <-. cbn [app string_body]. do 2 f_equal. unfold len. simpl. lia.
  - done.
  - done.
  - cbn [app string_body]. rewrite (IH (length l)); [|simpl; lia|done|done].
    do 2 f_equal. unfold len. simpl. lia.
  - cbn [app]. rewrite string_body_plain by done. rewrite decode_body_plain in Hd by done.
    rewrite (IH (length l)); [|simpl; lia|done|done]. do 2 f_equal. unfold len. simpl. lia.
Qed.

(** ** Rounds *)

Section rounds.
Context (s : list byte).
Hypothesis Hutf8 : from_utf8 s = true.

Lemma forall_ascii (p : byte -> bool) l :
  (forall b, p b = true -> ascii b) -> Forall (fun b => p b = true) l -> Forall ascii l.
Proof. intros Hp Hl. by eapply Forall_impl. Qed.

Lemma continues_ascii b : continues_ident b = true -> ascii b.
Proof. intros H. apply classes_ascii. rewrite H. by rewrite !orb_true_r. Qed.
Lemma digit_ascii b : is_ascii_digit b = true -> ascii b.
Proof. intros H. apply classes_ascii. rewrite H. by rewrite !orb_true_r. Qed.
Lemma hexdigit_ascii b : is_ascii_hexdigit b = true -> ascii b.
Proof. intros H. apply classes_ascii. rewrite H. by rewrite !orb_true_r. Qed.

(** A run of class [p] from [a] on: cut out as a slice, it is as long as
    possible. *)
Lemma run_slice (p : byte -> bool) a :
  0 <= a <= len s ->
  exists l, bytes_at s a l /\ skip_while s p a = a + len l /\
    Forall (fun b => p b = true) l /\ (forall b, get s (a + len l) = Some b -> p b = false).
Proof.
  intros Ha. destruct (skip_while_spec s p a Ha) as (He & Hall & Hstop).
  destruct (slice_exists s a (skip_while s p a) ltac:(lia) ltac:(lia)) as (l & Hat & Hl).
  exists l. assert (a + len l = skip_while s p a) as Heq by lia.
  split_and!; [done|done| |by rewrite Heq].
  apply (bytes_at_forall s a l p Hat). by rewrite Heq.
Qed.

Lemma run_slice_unique (p : byte -> bool) a l :
  bytes_at s a l -> Forall (fun b => p b = true) l ->
  (forall b, get s (a + len l) = Some b -> p b = false) -> skip_while s p a = a + len l.
Proof.
  intros Hat Hall Hstop. pose proof Hat as (Ha & Hl & _)%bytes_at_spec.
  pose proof (len_nonneg l). apply skip_while_unique; [lia|lia| |done].
  by apply (bytes_at_forall s a l p Hat).
Qed.

Lemma head_of_run (p : byte -> bool) a b l :
  get s a = Some b -> p b = true -> bytes_at s a l -> skip_while s p a = a + len l ->
  exists l', l = b :: l'.
Proof.
  intros Hb Hp Hat Hsk. pose proof Hb as [Ha _]%get_Some.
  destruct l as [|c l].
  - exfalso. destruct (skip_while_spec s p a ltac:(lia)) as (_ & _ & Hstop).
    rewrite Hsk in Hstop. unfold len in Hstop. simpl in Hstop. rewrite Z.add_0_r in Hstop.
    specialize (Hstop b Hb). congruence.
  - apply bytes_at_cons in Hat as [Hc _]. exists l. congruence.
Qed.

Lemma lex_ident_spec p ts b :
  get s p = Some b -> starts_ident b = true ->
  exists l, bytes_at s p l /\ l <> [] /\ spelled (TIdent l) l /\
    maximal (TIdent l) l (get s (p + len l)) /\
    lex_ident s (p, ts) = Ok (p + len l, ts ++ [token (TIdent l) p (p + len l)]).
Proof.
  intros Hb Hs. pose proof Hb as [Hp _]%get_Some. destruct (starts_ident_arms b Hs) as [_ Hc].
  destruct (run_slice continues_ident p ltac:(lia)) as (l & Hat & Hsk & Hall & Hstop).
  destruct (head_of_run _ _ _ _ Hb Hc Hat Hsk) as [l' ->].
  exists (b :: l'). split_and!; try done; [split; [done|split; [by exists b, l'|done]]|].
  unfold lex_ident. rewrite Hsk.
  by rewrite str_slice_ascii; [|done..|eapply forall_ascii; [apply continues_ascii|done]].
Qed.

Lemma lex_integer_spec p ts b :
  get s p = Some b -> is_ascii_digit b = true ->
  (b = "0"%byte -> forall c, get s (p + 1) = Some c -> c <> "x"%byte /\ c <> "X"%byte) ->
  exists l, bytes_at s p l /\ l <> [] /\ spelled (TInteger l) l /\
    maximal (TInteger l) l (get s (p + len l)) /\
    lex_integer s (p, ts) = Ok (p + len l, ts ++ [token (TInteger l) p (p + len l)]).
Proof.
  intros Hb Hd Hx. pose proof Hb as [Hp _]%get_Some.
  destruct (run_slice is_ascii_digit p ltac:(lia)) as (l & Hat & Hsk & Hall & Hstop).
  destruct (head_of_run _ _ _ _ Hb Hd Hat Hsk) as [l' ->].
  exists (b :: l'). split_and!; try done.
  - intros c Hc. split; [by apply Hstop|]. change (bs "0") with ["0"%byte].
    intros [= -> ->]. by apply Hx.
  - unfold lex_integer. rewrite Hsk.
    by rewrite str_slice_ascii; [|done..|eapply forall_ascii; [apply digit_ascii|done]].
Qed.

Lemma lex_hex_spec p ts x :
  get s p = Some "0"%byte -> get s (p + 1) = Some x -> x = "x"%byte \/ x = "X"%byte ->
  exists l, bytes_at s p l /\ l <> [] /\ spelled (THex l) l /\
    maximal (THex l) l (get s (p + len l)) /\
    lex_hex s (p, ts) = Ok (p + len l, ts ++ [token (THex l) p (p + len l)]).
Proof.
  intros Hb Hx Hxx. pose proof Hx as [Hp _]%get_Some.
  destruct (run_slice is_ascii_hexdigit (p + 2) ltac:(lia)) as (l & Hat & Hsk & Hall & Hstop).
  assert (bytes_at s p ("0"%byte :: x :: l)) as Hat'.
  { apply bytes_at_cons. split; [done|]. apply bytes_at_cons. split; [done|].
    by replace (p + 1 + 1) with (p + 2) by lia. }
  exists ("0"%byte :: x :: l).
  assert (p + len ("0"%byte :: x :: l) = p + 2 + len l) as Hl by (unfold len; simpl; lia).
  split_and!; try done; [split; [done|by exists x, l]|by rewrite Hl|].
  unfold lex_hex. rewrite Hsk, <- Hl. rewrite str_slice_ascii; [done..|].
  apply Forall_cons_2; [done|]. apply Forall_cons_2; [by destruct Hxx as [->| ->]|].
  eapply forall_ascii; [apply hexdigit_ascii|done].
Qed.

(** A string literal that starts at [p]. *)
Lemma lex_string_spec p ts :
  get s p = Some x22 ->
  wp (lex_string s (p, ts))
    (fun st => exists v l, bytes_at s p l /\ l <> [] /\ spelled (TString v) l /\
       st = (p + len l, ts ++ [token (TString v) p (p + len l)]))
    (fun d => span_start (diag_span d) = p /\ p < span_end (diag_span d) <= len s).
Proof.
  intros Hb. pose proof Hb as [Hp _]%get_Some. unfold lex_string. apply wp_bind.
  eapply wp_mono; [apply string_body_spec; lia| |].
  - intros [v pos] (body & rest & Hl & Hd & Hpos). simpl in *. exists v, (x22 :: body ++ [x22]).
    assert (len (x22 :: body ++ [x22]) = len body + 2) as Hlen.
    { unfold len. simpl. rewrite length_app. simpl. lia. }
    split_and!; [|done|by exists body|].
    + apply bytes_at_cons. split; [done|]. unfold bytes_at. apply get_range_Some.
      assert (len (drop (Z.to_nat (p + 1)) s) = len s - (p + 1)) as Hdl.
      { unfold len in *. rewrite length_drop. lia. }
      assert (len (body ++ [x22]) = len body + 1) as -> by (unfold len; rewrite length_app; simpl; lia).
      pose proof (len_nonneg body). pose proof (len_nonneg rest).
      rewrite Hl in Hdl. unfold len in Hdl at 1. rewrite length_app in Hdl. simpl in Hdl.
      unfold len in *. split_and!; [lia..|]. rewrite Hl.
      replace (body ++ x22 :: rest) with ((body ++ [x22]) ++ rest) by (by rewrite <- app_assoc).
      symmetry. apply take_app_length'. rewrite length_app. simpl. lia.
    + rewrite Hlen, Hpos. by replace (p + 1 + len body + 1) with (p + (len body + 2)) by lia.
  - intros d [Hs He]. split; [done|]. unfold len in *. rewrite length_drop in He. lia.
Qed.

(** One round either skips a space, reads a token, ends, or reports a span of
    the source. *)
Lemma lex_round_spec p ts :
  0 <= p <= len s ->
  wp (lex_round s (p, ts))
    (fun r => match r with
       | inl st =>
           (exists b, get s p = Some b /\ is_space b = true /\ st = (p + 1, ts)) \/
           (exists k l, bytes_at s p l /\ l <> [] /\ spelled k l /\
              maximal k l (get s (p + len l)) /\ st = (p + len l, ts ++ [token k p (p + len l)]))
       | inr ts' => p = len s /\ ts' = ts ++ [token TEof p p]
       end)
    (fun d => p <= span_start (diag_span d) < span_end (diag_span d) /\
       span_end (diag_span d) <= len s).
Proof.
  intros Hp. unfold lex_round, peek_byte, peek_next. destruct (get s p) as [b|] eqn:Hb.
  2:{ apply get_None in Hb. apply wp_ok. split; [lia|done]. }
  pose proof Hb as [Hlt _]%get_Some.
  destruct (is_space b) eqn:Hsp. { apply wp_ok. left. eauto. }
  destruct (starts_ident b) eqn:Hid.
  { destruct (lex_ident_spec p ts b Hb Hid) as (l & ? & ? & ? & ? & Heq). rewrite Heq.
    right. by exists (TIdent l), l. }
  destruct (bool_decide (b = "0"%byte) && _) eqn:Hhex.
  { apply andb_true_iff in Hhex as [->%bool_decide_eq_true Hx].
    destruct (get s (p + 1)) as [x|] eqn:Hx1; [|done].
    assert (x = "x"%byte \/ x = "X"%byte) as Hxx by (destruct x; auto; discriminate Hx).
    destruct (lex_hex_spec p ts x Hb Hx1 Hxx) as (l & ? & ? & ? & ? & Heq). rewrite Heq.
    right. by exists (THex l), l. }
  destruct (is_ascii_digit b) eqn:Hd.
  { destruct (lex_integer_spec p ts b Hb Hd) as (l & ? & ? & ? & ? & Heq).
    { intros -> c Hc. rewrite Hc, bool_decide_true in Hhex by done. by destruct c. }
    rewrite Heq. right. by exists (TInteger l), l. }
  destruct (bool_decide (b = x22)) eqn:Hq.
  { apply bool_decide_eq_true in Hq as ->. apply wp_fmap.
    eapply wp_mono; [by apply lex_string_spec| |].
    - intros st (v & l & ? & ? & ? & ->). right. by exists (TString v), l.
    - intros d [-> ?]. lia. }
  destruct (symbol_at b (get s (p + 1))) as [[sy n]|] eqn:Hsy; [|simpl; lia].
  destruct (symbol_at_sound s p b sy n Hb Hsy) as (-> & Hat & Hmax). apply wp_ok. right.
  exists (TSymbol sy), (symbol_text sy). split_and!; [done|by destruct sy|done|done|done].
Qed.

Lemma bytes_at_inj p l l' : bytes_at s p l -> bytes_at s p l' -> len l = len l' -> l = l'.
Proof. unfold bytes_at. intros H H' Heq. rewrite Heq in H. congruence. Qed.

(** Two runs of the same class that cannot be extended are the same. *)
Lemma run_inj (c : byte -> bool) p l l' :
  bytes_at s p l -> Forall (fun b => c b = true) l ->
  (forall b, get s (p + len l) = Some b -> c b = false) ->
  bytes_at s p l' -> Forall (fun b => c b = true) l' ->
  (forall b, get s (p + len l') = Some b -> c b = false) -> l = l'.
Proof.
  intros Hat Hall Hstop Hat' Hall' Hstop'. apply (bytes_at_inj p); [done..|].
  pose proof (run_slice_unique c p l Hat Hall Hstop).
  pose proof (run_slice_unique c p l' Hat' Hall' Hstop'). lia.
Qed.

Lemma round_ident p ts l :
  bytes_at s p l -> spelled (TIdent l) l -> maximal (TIdent l) l (get s (p + len l)) ->
  lex_round s (p, ts) = Ok (inl (p + len l, ts ++ [token (TIdent l) p (p + len l)])).
Proof.
  intros Hat (_ & (b & l' & -> & Hs) & Hall) Hmax. pose proof Hat as [Hb _]%bytes_at_cons.
  destruct (lex_ident_spec p ts b Hb Hs) as (l2 & Hat2 & _ & (_ & _ & Hall2) & Hmax2 & Heq).
  assert (l2 = b :: l') as -> by (by eapply (run_inj continues_ident)).
  unfold lex_round, peek_byte. rewrite Hb. destruct (starts_ident_arms b Hs) as [-> _].
  by rewrite Hs, Heq.
Qed.

Lemma round_integer p ts l :
  bytes_at s p l -> spelled (TInteger l) l -> maximal (TInteger l) l (get s (p + len l)) ->
  lex_round s (p, ts) = Ok (inl (p + len l, ts ++ [token (TInteger l) p (p + len l)])).
Proof.
  intros Hat (_ & Hne & Hall) Hmax. destruct l as [|b l]; [done|].
  pose proof Hat as [Hb Hat']%bytes_at_cons. pose proof Hall as [Hd Hall']%Forall_cons.
  assert (b = "0"%byte -> forall c, get s (p + 1) = Some c -> c <> "x"%byte /\ c <> "X"%byte) as Hx.
  { intros -> c Hc. destruct l as [|c' l].
    - by apply Hmax.
    - apply bytes_at_cons in Hat' as [Hc' _]. apply Forall_cons in Hall' as [Hd' _].
      simplify_eq. split; by intros ->. }
  destruct (lex_integer_spec p ts b Hb Hd Hx) as (l2 & Hat2 & _ & (_ & _ & Hall2) & Hmax2 & Heq).
  assert (l2 = b :: l) as ->.
  { eapply (run_inj is_ascii_digit); try done.
    - intros c Hc. by apply Hmax2.
    - intros c Hc. by apply Hmax. }
  unfold lex_round, peek_byte, peek_next. rewrite Hb. destruct (digit_arms b Hd) as [-> ->].
  rewrite Hd, Heq. destruct (bool_decide (b = "0"%byte)) eqn:Hb0; [|done].
  apply bool_decide_eq_true in Hb0. destruct (get s (p + 1)) as [c|] eqn:Hc; [|done].
  destruct (Hx Hb0 c eq_refl) as [H1 H2]. by destruct c.
Qed.

Lemma round_hex p ts l :
  bytes_at s p l -> spelled (THex l) l -> maximal (THex l) l (get s (p + len l)) ->
  lex_round s (p, ts) = Ok (inl (p + len l, ts ++ [token (THex l) p (p + len l)])).
Proof.
  intros Hat (_ & x & ds & -> & Hx & Hall) Hmax.
  pose proof Hat as [Hb [Hx1 Hat']%bytes_at_cons]%bytes_at_cons.
  destruct (lex_hex_spec p ts x Hb Hx1 Hx)
    as (l2 & Hat2 & _ & (_ & x2 & ds2 & -> & _ & Hall2) & Hmax2 & Heq).
  pose proof Hat2 as [_ [Hx2 Hat2']%bytes_at_cons]%bytes_at_cons.
  assert (forall d, p + len ("0"%byte :: x :: d) = p + 1 + 1 + len d) as Hlen
    by (intros; unfold len; simpl; lia).
  assert (x2 = x) as -> by congruence. assert (ds2 = ds) as ->.
  { eapply (run_inj is_ascii_hexdigit); [done..| |done|done|]; rewrite <- Hlen; done. }
  unfold lex_round, peek_byte, peek_next. rewrite Hb, Hx1. cbn [is_space].
  change (starts_ident "0") with false. rewrite bool_decide_true by done.
  destruct Hx as [->| ->]; cbn [andb]; by rewrite Heq.
Qed.

Lemma round_string p ts v l :
  bytes_at s p l -> spelled (TString v) l ->
  lex_round s (p, ts) = Ok (inl (p + len l, ts ++ [token (TString v) p (p + len l)])).
Proof.
  intros Hat (body & -> & Hd). pose proof Hat as [Hb Hat']%bytes_at_cons.
  pose proof Hb as [Hp _]%get_Some.
  assert (len (x22 :: body ++ [x22]) = len body + 2) as Hlen.
  { unfold len. simpl. rewrite length_app. simpl. lia. }
  assert (exists rest, drop (Z.to_nat (p + 1)) s = body ++ x22 :: rest) as [rest Hrest].
  { unfold bytes_at in Hat'. apply get_range_Some in Hat' as (Ha & Hl & Heq).
    exists (drop (length (body ++ [x22])) (drop (Z.to_nat (p + 1)) s)).
    rewrite <- (take_drop (length (body ++ [x22])) (drop (Z.to_nat (p + 1)) s)) at 1.
    replace (Z.to_nat (p + 1 + len (body ++ [x22]) - (p + 1))) with (length (body ++ [x22])) in Heq
      by (unfold len; lia).
    rewrite <- Heq, <- app_assoc. done. }
  unfold lex_round, peek_byte, peek_next. rewrite Hb. cbn [is_space].
  change (starts_ident x22) with false. change (bool_decide (x22 = "0"%byte)) with false.
  change (is_ascii_digit x22) with false. rewrite bool_decide_true by done. cbn [andb].
  unfold lex_string. rewrite Hrest, (string_body_complete p (p + 1) [] body rest v Hd), ok_bind.
  replace (p + 1 + len body + 1) with (p + len (x22 :: body ++ [x22])) by lia. done.
Qed.

Lemma round_symbol p ts sy :
  bytes_at s p (symbol_text sy) ->
  maximal (TSymbol sy) (symbol_text sy) (get s (p + len (symbol_text sy))) ->
  lex_round s (p, ts) = Ok (inl (p + len (symbol_text sy),
    ts ++ [token (TSymbol sy) p (p + len (symbol_text sy))])).
Proof.
  intros Hat Hmax. destruct (symbol_at_complete s p sy Hat Hmax) as (b & Hb & Hsy).
  unfold lex_round, peek_byte, peek_next. rewrite Hb.
  destruct (symbol_arms b _ _ _ Hsy) as (-> & -> & -> & H0 & Hq).
  rewrite !bool_decide_false by done. cbn [andb]. by rewrite Hsy.
Qed.

Lemma round_token p ts k l :
  bytes_at s p l -> spelled k l -> maximal k l (get s (p + len l)) ->
  lex_round s (p, ts) = Ok (inl (p + len l, ts ++ [token k p (p + len l)])).
Proof.
  intros Hat Hsp Hmax. destruct k as [t|t|t|v|sy|].
  - pose proof Hsp as [-> _]. by apply round_ident.
  - pose proof Hsp as [-> _]. by apply round_hex.
  - pose proof Hsp as [-> _]. by apply round_integer.
  - by apply round_string.
  - simpl in Hsp. subst l. by apply round_symbol.
  - done.
Qed.

(** ** The whole text *)

Lemma lex_loop_complete p ts acc fuel :
  tokens_between s p ts (len s) -> 0 <= p -> (Z.to_nat (len s - p) < fuel)%nat ->
  loop fuel (lex_round s) (p, acc) = Ok (acc ++ ts ++ [token TEof (len s) (len s)]).
Proof.
  intros Hb. remember (len s) as q eqn:Hq. revert acc fuel.
  induction Hb as [p|p ts q b Hb Hs _ IH|p l k ts q Hat Hne Hsp Hmax _ IH];
    intros acc fuel Hp Hf; (destruct fuel as [|fuel]; [lia|]); cbn [loop].
  - assert (get s p = None) as Hn by (apply get_None; lia).
    assert (lex_round s (p, acc) = Ok (inr (acc ++ [token TEof p p]))) as ->; [|done].
    unfold lex_round, peek_byte. by rewrite Hn.
  - assert (lex_round s (p, acc) = Ok (inl (p + 1, acc))) as ->.
    { unfold lex_round, peek_byte. by rewrite Hb, Hs. }
    rewrite ok_bind. pose proof Hb as [Hlt _]%get_Some. rewrite IH by (try done; lia). done.
  - rewrite (round_token p acc k l Hat Hsp Hmax), ok_bind.
    assert (0 < len l) by (destruct l; [done|unfold len; simpl; lia]).
    apply bytes_at_spec in Hat as (_ & Hl & _). rewrite IH by (try done; lia).
    by rewrite <- (app_assoc acc).
Qed.

Lemma lex_spec :
  wp (lex s)
    (fun r => exists ts, r = ts ++ [token TEof (len s) (len s)] /\ tokens_between s 0 ts (len s))
    (fun d => 0 <= span_start (diag_span d) < span_end (diag_span d) /\
       span_end (diag_span d) <= len s).
Proof.
  unfold lex. pose proof (len_nonneg s) as Hn.
  apply (wp_loop _ (fun st => 0 <= fst st <= len s /\ tokens_between s 0 (snd st) (fst st))
    (fun st => Z.to_nat (len s - fst st))).
  - intros [p ts] [Hp Hts]. simpl in *.
    eapply wp_mono; [by apply lex_round_spec| |intros d [? ?]; split; lia].
    intros [st|r].
    + intros [(b & Hb & Hs & ->)|(k & l & Hat & Hne & Hsp & Hmax & ->)]; simpl.
      * pose proof Hb as [Hlt _]%get_Some. split_and!; [lia|lia|by eapply between_snoc_space|lia].
      * assert (0 < len l) by (destruct l; [done|unfold len; simpl; lia]).
        pose proof Hat as (_ & Hl & _)%bytes_at_spec.
        split_and!; [lia|lia|by apply between_snoc_token|lia].
    + intros [-> ->]. by exists ts.
  - simpl. split; [lia|constructor].
  - simpl. unfold len in *. lia.
Qed.
End rounds.

(** On every well-formed UTF-8 source the lexer ends without panic. It
    succeeds exactly when the text is a sequence of spaces and tokens, each as
    long as possible and with the span it was read from, and then returns these
    tokens followed by [Eof]; an error points into the source. *)
Lemma lex_exact s :
  from_utf8 s = true ->
  (forall ts, lex s = Ok ts <->
     exists ts', ts = ts' ++ [token TEof (len s) (len s)] /\ tokens_between s 0 ts' (len s)) /\
  match lex s with
  | Ok _ => True
  | Err d => 0 <= span_start (diag_span d) < span_end (diag_span d) /\
             span_end (diag_span d) <= len s
  | _ => False
  end.
Proof.
  intros Hu. pose proof (lex_spec s Hu) as H. split.
  - intros ts. split.
    + intros Heq. by rewrite Heq in H.
    + intros (ts' & -> & Hb). unfold lex. pose proof (len_nonneg s).
      rewrite (lex_loop_complete s Hu 0 ts' []) by (try done; unfold len; lia). done.
  - apply wp_elim in H. destruct (lex s); [done|exact H|done|done].
Qed.

(** ** Non-ASCII string literals *)

Definition plain (b : byte) : Prop := b <> x22 /\ b <> x5c.

(** The bytes one pushed character adds. *)
Definition latin1 (b : byte) : list byte := push_latin1 [] b.
Arguments latin1 : simpl never.

Lemma decode_plain value body :
  Forall plain body -> decode_body value body = Some (value ++ concat (latin1 <$> body)).
Proof.
  intros Hp. revert value. induction Hp as [|b body [H1 H2] _ IH]; intros value.
  - simpl. by rewrite app_nil_r.
  - rewrite decode_body_plain by done. rewrite IH. csimpl. by rewrite app_assoc.
Qed.

Lemma latin1_length b : (1 <= length (latin1 b))%nat /\ (length (latin1 b) = 1%nat <-> ascii b).
Proof.
  unfold latin1, push_latin1, ascii. destruct (Z.ltb_spec (byte_val b) 0x80); simpl; lia.
Qed.

Lemma latin1_identity body : concat (latin1 <$> body) = body <-> Forall ascii body.
Proof.
  split.
  - intros H. apply (f_equal length) in H. clear -H. induction body as [|b body IH]; [constructor|].
    csimpl in H. rewrite length_app in H. destruct (latin1_length b) as [Hge Hiff].
    assert (length body <= length (concat (latin1 <$> body)))%nat as Hl.
    { clear. induction body as [|c body IH]; csimpl; [lia|]. rewrite length_app.
      destruct (latin1_length c) as [? _]. lia. }
    constructor; [apply Hiff; lia|apply IH; lia].
  - induction 1 as [|b body Hb _ IH]; [done|]. csimpl. rewrite IH.
    unfold latin1, push_latin1, ascii in *. by rewrite (proj2 (Z.ltb_lt _ _)).
Qed.

(** C35: A string literal without escapes keeps its bytes exactly when they are
    all ASCII: the lexer takes every byte as a character of its own, so each
    byte of a multi-byte character becomes two bytes of the string. *)
Theorem string_literal_faithful_iff_ascii body :
  from_utf8 (x22 :: body ++ [x22]) = true -> Forall plain body ->
  exists v, kinds <$> lex (x22 :: body ++ [x22]) = Ok [TString v; TEof] /\
    (v = body <-> Forall ascii body) /\
    (length v = length body + length (filter (fun b => ~ ascii b) body))%nat.
Proof.
  intros Hu Hp. set (s := x22 :: body ++ [x22]) in *.
  exists (concat (latin1 <$> body)). split_and!; [|apply latin1_identity|].
  - assert (lex s = Ok ([token (TString (concat (latin1 <$> body))) 0 (0 + len s)] ++
      [token TEof (len s) (len s)])) as ->; [|done].
    apply (lex_exact s Hu). eexists. split; [done|]. apply between_token; [|done| |done|].
    + unfold bytes_at. apply get_range_Some. split_and!; [lia|apply len_nonneg|lia|].
      rewrite drop_0, firstn_all2; [done|]. unfold len. lia.
    + exists body. split; [done|]. by rewrite decode_plain.
    + rewrite Z.add_0_l. constructor.
  - clear. induction body as [|b body IH]; [done|]. csimpl. rewrite length_app, IH.
    rewrite filter_cons. unfold latin1, push_latin1, ascii.
    destruct (Z.ltb_spec (byte_val b) 0x80), (decide (~ byte_val b < 0x80)); simpl; lia.
Qed.
