(* ===== verification/PythcParser.v ===== *)
(** * The parser

    Models [tools/pythc/src/parser.rs]: recursive descent with one token of
    lookahead, binary operators by precedence climbing. The state is the index
    of the next token. *)

From stdpp Require Import base numbers list.
From Stdlib Require Import Strings.Byte.
From S2P Require Import Prelude Utf8 Kernel PythcSyntax PythcLexer.

(** ** Numbers *)

(** [char::to_digit] *)
Definition to_digit (radix : Z) (b : byte) : option Z :=
  let v := byte_val b in
  let d := if is_ascii_digit b then v - 0x30
           else if in_range 0x61 0x7A b then v - 0x61 + 10
           else if in_range 0x41 0x5A b then v - 0x41 + 10
           else radix in
  if d <? radix then Some d else None.

(** [checked_mul] then [checked_add], digit by digit. *)
Fixpoint digits_value (radix acc : Z) (l : list byte) : option Z :=
  match l with
  | [] => Some acc
  | b :: l' =>
      d ← to_digit radix b;
      acc ← checked_mul 64 acc radix;
      acc ← checked_add 64 acc d;
      digits_value radix acc l'
  end.

(** [u64::from_str_radix]; [str::parse::<u64>] is the decimal case. *)
Definition from_str_radix (radix : Z) (l : list byte) : option Z :=
  match l with
  | [] => None
  | ["+"%byte] | ["-"%byte] => None
  | "+"%byte :: l' => digits_value radix 0 l'
  | _ => digits_value radix 0 l
  end.

(** [str::trim_start_matches] with a two-byte pattern. *)
Fixpoint trim_start_matches (a b : byte) (l : list byte) : list byte :=
  match l with
  | x :: y :: l' => if bool_decide (x = a) && bool_decide (y = b) then trim_start_matches a b l' else l
  | _ => l
  end.

(** ** Reading tokens *)

Section parser.
Context (tokens : list Token).

Abbreviation parser := (action Z Diagnostic).

Definition fail {A} (code message : String.string) (span : Span) : parser A :=
  pure (Err (diagnostic code message span)).
Arguments fail {A} (code message)%_string_scope span.

Definition unexpected {A} (span : Span) : parser A := fail "P0003" "unexpected token" span.

Definition peek : parser Token :=
  reads (fun pos => expect (match get tokens pos with Some t => Some t | None => last tokens end)).

Definition advance : parser Token :=
  t ← peek;
  match token_kind t with
  | TEof => mret t
  | _ => update (fun pos => pos + 1);; mret t
  end.

Definition at_keyword (expected : list byte) : parser bool :=
  t ← peek; mret (bool_decide (token_kind t = TIdent expected)).

Definition at_symbol (expected : Symbol) : parser bool :=
  t ← peek; mret (bool_decide (token_kind t = TSymbol expected)).

Definition is_eof : parser bool :=
  t ← peek; mret (bool_decide (token_kind t = TEof)).

Definition match_keyword (expected : list byte) : parser bool :=
  b ← at_keyword expected;
  if (b : bool) then advance;; mret true else mret false.

Definition match_symbol (expected : Symbol) : parser bool :=
  b ← at_symbol expected;
  if (b : bool) then advance;; mret true else mret false.

Definition expect_ident : parser Ident :=
  t ← advance;
  match token_kind t with
  | TIdent text => mret {| ident_text := text; ident_span := token_span t |}
  | _ => unexpected (token_span t)
  end.

Definition expect_keyword (expected : list byte) : parser Span :=
  t ← advance;
  if bool_decide (token_kind t = TIdent expected) then mret (token_span t)
  else unexpected (token_span t).

Definition expect_symbol (expected : Symbol) : parser Span :=
  t ← advance;
  if bool_decide (token_kind t = TSymbol expected) then mret (token_span t)
  else unexpected (token_span t).

Definition error_current {A} (code message : String.string) : parser A :=
  t ← peek; fail code message (token_span t).
Arguments error_current {A} (code message)%_string_scope.

Definition previous_span : parser Span :=
  p ← reads (fun pos => Ok (get tokens (Z.max 0 (pos - 1))));
  match p with
  | Some t => mret (token_span t)
  | None => t ← peek; mret (token_span t)
  end.

Definition error_previous {A} (code message : String.string) : parser A :=
  span ← previous_span; fail code message span.
Arguments error_previous {A} (code message)%_string_scope.

Definition expect_eof : parser unit :=
  b ← is_eof;
  if (b : bool) then mret tt else error_current "P0003" "unexpected token".

Definition out_of_fuel {A} : parser A := pure Diverge.

(** ** Expressions *)

Definition peek_binary_op : parser (option (BinaryOp * Z)) :=
  t ← peek;
  mret match token_kind t with
       | TSymbol Sym.OrOr => Some (Bin.Or, 1)
       | TSymbol Sym.AndAnd => Some (Bin.And, 2)
       | TSymbol Sym.EqEq => Some (Bin.Equal, 3)
       | TSymbol Sym.Less => Some (Bin.Less, 4)
       | TSymbol Sym.Plus => Some (Bin.Add, 5)
       | TSymbol Sym.Minus => Some (Bin.Subtract, 5)
       | _ => None
       end.

Definition join_spans (a b : Span) : Span :=
  {| span_start := span_start a; span_end := span_end b |}.

Fixpoint parse_expression (fuel : nat) (min_precedence : Z) : parser Expression :=
  match fuel with
  | O => out_of_fuel
  | S f =>
      left ← parse_unary f;
      binary_loop f min_precedence left
  end
(** The [while] of [parse_expression]. *)
with binary_loop (fuel : nat) (min_precedence : Z) (left : Expression) : parser Expression :=
  match fuel with
  | O => out_of_fuel
  | S f =>
      op ← peek_binary_op;
      match op with
      | None => mret left
      | Some (op, precedence) =>
          if precedence <? min_precedence then mret left
          else
            advance;;
            right ← parse_expression f (precedence + 1);
            binary_loop f min_precedence
              (EBinary op left right (join_spans (expression_span left) (expression_span right)))
      end
  end
with parse_unary (fuel : nat) : parser Expression :=
  match fuel with
  | O => out_of_fuel
  | S f =>
      bang ← at_symbol Sym.Bang;
      if (bang : bool) then
        t ← advance;
        e ← parse_unary f;
        mret (EUnary Not e (join_spans (token_span t) (expression_span e)))
      else parse_primary f
  end
with parse_primary (fuel : nat) : parser Expression :=
  match fuel with
  | O => out_of_fuel
  | S f =>
      t ← advance;
      match token_kind t with
      | TIdent text =>
          if bool_decide (text = bs "true") || bool_decide (text = bs "false") then
            mret (ELiteral (LBool (bool_decide (text = bs "true")) (token_span t)))
          else
            let ident := {| ident_text := text; ident_span := token_span t |} in
            call ← match_symbol Sym.LParen;
            if (call : bool) then
              empty ← at_symbol Sym.RParen;
              args ← (if (empty : bool) then mret [] else parse_args f);
              fin ← expect_symbol Sym.RParen;
              mret (ECall ident args (join_spans (token_span t) fin))
            else mret (EName ident)
      | TInteger text => mret (ELiteral (LInteger text (token_span t)))
      | TString value => mret (ELiteral (LString value (token_span t)))
      | TSymbol Sym.LParen =>
          e ← parse_expression f 0;
          expect_symbol Sym.RParen;;
          mret e
      | _ => unexpected (token_span t)
      end
  end
(** The [loop] over call arguments. *)
with parse_args (fuel : nat) : parser (list Expression) :=
  match fuel with
  | O => out_of_fuel
  | S f =>
      e ← parse_expression f 0;
      comma ← match_symbol Sym.Comma;
      if (comma : bool) then
        args ← parse_args f;
        mret (e :: args)
      else mret [e]
  end.

(** ** Statements *)

Definition parse_type : parser TypeName :=
  ident ← expect_ident;
  let text := ident_text ident in
  if bool_decide (text = bs "bool") then mret Tn.Bool
  else if bool_decide (text = bs "u64") then mret Tn.U64
  else if bool_decide (text = bs "i64") then mret Tn.I64
  else if bool_decide (text = bs "bytes") then mret Tn.Bytes
  else if bool_decide (text = bs "utf8") then mret Tn.Utf8
  else if bool_decide (text = bs "object_id") then mret Tn.ObjectId
  else if bool_decide (text = bs "revision_id") then mret Tn.RevisionId
  else if bool_decide (text = bs "task_id") then mret Tn.TaskId
  else if bool_decide (text = bs "proposal_id") then mret Tn.ProposalId
  else if bool_decide (text = bs "capability") then mret Tn.Capability
  else if bool_decide (text = bs "error_code") then mret Tn.ErrorCode
  else if bool_decide (text = bs "unit") then mret Tn.Unit
  else fail "P0009" "unknown type spelling" (ident_span ident).

Definition parse_budget : parser Z :=
  t ← advance;
  match token_kind t with
  | TInteger raw =>
      match from_str_radix 10 raw with
      | None => fail "P0007" "while requires literal budget" (token_span t)
      | Some budget =>
          if budget =? 0 then fail "P0008" "zero loop budget" (token_span t) else mret budget
      end
  | _ => fail "P0007" "while requires literal budget" (token_span t)
  end.

Fixpoint parse_block (fuel : nat) : parser (list Statement * Z) :=
  match fuel with
  | O => out_of_fuel
  | S f =>
      expect_symbol Sym.LBrace;;
      statements ← parse_statements f;
      fin ← expect_symbol Sym.RBrace;
      mret (statements, span_end fin)
  end
(** The [while] of [parse_block]. *)
with parse_statements (fuel : nat) : parser (list Statement) :=
  match fuel with
  | O => out_of_fuel
  | S f =>
      close ← at_symbol Sym.RBrace;
      eof ← is_eof;
      if (close : bool) || (eof : bool) then mret []
      else
        st ← parse_statement f;
        rest ← parse_statements f;
        mret (st :: rest)
  end
with parse_statement (fuel : nat) : parser Statement :=
  match fuel with
  | O => out_of_fuel
  | S f =>
      is_let ← at_keyword (bs "let");
      if (is_let : bool) then
        start ← expect_keyword (bs "let");
        name ← expect_ident;
        expect_symbol Sym.Colon;;
        ty ← parse_type;
        expect_symbol Sym.Eq;;
        value ← parse_expression f 0;
        fin ← expect_symbol Sym.Semicolon;
        mret (SLet name ty value (join_spans start fin))
      else
      is_if ← at_keyword (bs "if");
      if (is_if : bool) then
        start ← expect_keyword (bs "if");
        condition ← parse_expression f 0;
        '(then_statements, fin) ← parse_block f;
        has_else ← match_keyword (bs "else");
        '(else_statements, fin) ← (if (has_else : bool) then parse_block f else mret ([], fin));
        mret (SIf condition then_statements else_statements
                {| span_start := span_start start; span_end := fin |})
      else
      is_while ← at_keyword (bs "while");
      if (is_while : bool) then
        start ← expect_keyword (bs "while");
        has_budget ← match_keyword (bs "budget");
        if (has_budget : bool) then
          budget ← parse_budget;
          condition ← parse_expression f 0;
          '(statements, fin) ← parse_block f;
          mret (SWhile budget condition statements
                  {| span_start := span_start start; span_end := fin |})
        else error_current "P0007" "while requires literal budget"
      else
      is_return ← at_keyword (bs "return");
      if (is_return : bool) then
        t ← advance;
        fin ← expect_symbol Sym.Semicolon;
        mret (SReturn (join_spans (token_span t) fin))
      else
      e ← parse_expression f 0;
      expect_symbol Sym.Semicolon;;
      mret (SExpr e)
  end.

(** ** Programs *)

Definition parse_principal : parser Z :=
  t ← advance;
  match token_kind t with
  | THex raw =>
      let digits := trim_start_matches "0"%byte "X"%byte (trim_start_matches "0"%byte "x"%byte raw) in
      match digits with
      | [] => fail "P0006" "invalid principal hex" (token_span t)
      | _ => match from_str_radix 16 digits with
             | Some v => mret v
             | None => fail "P0006" "invalid principal hex" (token_span t)
             end
      end
  | _ => fail "P0006" "invalid principal hex" (token_span t)
  end.

(** [while self.match_symbol(Symbol::Pipe) { .. }] *)
Fixpoint parse_rights (fuel : nat) (rights : list byte) : parser (list byte) :=
  match fuel with
  | O => out_of_fuel
  | S f =>
      pipe ← match_symbol Sym.Pipe;
      if (pipe : bool) then
        ident ← expect_ident;
        parse_rights f (rights ++ bs "|" ++ ident_text ident)
      else mret rights
  end.

Definition parse_import (fuel : nat) (imports : list ImportDecl) : parser ImportDecl :=
  start ← expect_keyword (bs "import");
  name ← expect_ident;
  if bool_decide (ident_text name ∈ (fun i => ident_text (import_name i)) <$> imports) then
    fail "P0010" "duplicate import name" (ident_span name)
  else
    expect_symbol Sym.Colon;;
    expect_keyword (bs "capability");;
    expect_symbol Sym.Less;;
    resource ← expect_ident;
    expect_symbol Sym.Comma;;
    first ← expect_ident;
    rights ← parse_rights fuel (ident_text first);
    expect_symbol Sym.Greater;;
    fin ← expect_symbol Sym.Semicolon;
    mret {| import_name := name; import_resource := ident_text resource; import_rights := rights;
            import_span := join_spans start fin |}.

(** [while self.at_keyword("import") { .. }] *)
Fixpoint parse_imports (fuel : nat) (imports : list ImportDecl) : parser (list ImportDecl) :=
  match fuel with
  | O => out_of_fuel
  | S f =>
      more ← at_keyword (bs "import");
      if (more : bool) then
        import ← parse_import f imports;
        parse_imports f (imports ++ [import])
      else mret imports
  end.

Definition parse_function_after_fn (fuel : nat) (main_seen : bool) : parser Function :=
  start ← expect_keyword (bs "fn");
  name ← expect_ident;
  if negb (bool_decide (ident_text name = bs "main")) then
    fail "P0011" "additional functions unsupported" (ident_span name)
  else if main_seen then fail "P0005" "duplicate main" (ident_span name)
  else
    expect_symbol Sym.LParen;;
    expect_symbol Sym.RParen;;
    expect_symbol Sym.Arrow;;
    expect_keyword (bs "unit");;
    '(statements, fin) ← parse_block fuel;
    mret {| fn_statements := statements;
            fn_span := {| span_start := span_start start; span_end := fin |} |}.

(** [while !self.at_symbol(Symbol::RBrace) && !self.is_eof() { .. }] *)
Fixpoint parse_functions (fuel : nat) (m : option Function) : parser (option Function) :=
  match fuel with
  | O => out_of_fuel
  | S f =>
      close ← at_symbol Sym.RBrace;
      eof ← is_eof;
      if (close : bool) || (eof : bool) then mret m
      else
        is_fn ← at_keyword (bs "fn");
        if (is_fn : bool) then
          function ← parse_function_after_fn f (match m with Some _ => true | None => false end);
          match m with
          | Some _ => error_previous "P0005" "duplicate main"
          | None => parse_functions f (Some function)
          end
        else error_current "P0003" "unexpected token"
  end.

Definition parse_program_tokens (fuel : nat) : parser Program :=
  start ← expect_keyword (bs "program");
  name ← expect_ident;
  expect_keyword (bs "principal");;
  principal ← parse_principal;
  expect_symbol Sym.LBrace;;
  imports ← parse_imports fuel [];
  m ← parse_functions fuel None;
  match m with
  | None => error_current "P0004" "missing main"
  | Some m =>
      fin ← expect_symbol Sym.RBrace;
      expect_eof;;
      mret {| program_name := name; principal_id := principal; program_imports := imports;
              main := m; program_span := join_spans start fin |}
  end.

(** Every chain of four calls consumes a token or ends, so five rounds of calls
    per token are enough; see [parse_program_exact]. *)
Definition parse_fuel : nat := 5 * S (length tokens).

Definition parse_program : D Program := fst (parse_program_tokens parse_fuel 0).
End parser.
Arguments error_current tokens {A} (code message)%_string_scope.
Arguments error_previous tokens {A} (code message)%_string_scope.

Definition parse_source (source : list byte) : D Program :=
  tokens ← lex source;
  parse_program tokens.
