(* ===== verification/PythcGrammar.v ===== *)
(** * The grammar of the language, and that the parser decides it

    A declarative grammar over token sequences: operators of five precedence
    levels that associate to the left, calls, blocks and statements. The parser
    of [tools/pythc/src/parser.rs] accepts exactly the sequences of the grammar
    and returns the tree of the derivation. *)

From stdpp Require Import base numbers list gmap relations.
From Stdlib Require Import Strings.Byte.
From S2P Require Import Prelude Utf8 Kernel PythcSyntax PythcLexer PythcParser.

(** ** Grammar *)

Definition is_symbol (t : Token) (s : Symbol) : Prop := token_kind t = TSymbol s.
Definition is_word (t : Token) (w : list byte) : Prop := token_kind t = TIdent w.

Definition ident_of (t : Token) (i : Ident) : Prop :=
  token_kind t = TIdent (ident_text i) /\ ident_span i = token_span t.

(** Operators with their precedence. *)
Definition operator_of (t : Token) : option (BinaryOp * Z) :=
  match token_kind t with
  | TSymbol Sym.OrOr => Some (Bin.Or, 1)
  | TSymbol Sym.AndAnd => Some (Bin.And, 2)
  | TSymbol Sym.EqEq => Some (Bin.Equal, 3)
  | TSymbol Sym.Less => Some (Bin.Less, 4)
  | TSymbol Sym.Plus => Some (Bin.Add, 5)
  | TSymbol Sym.Minus => Some (Bin.Subtract, 5)
  | _ => None
  end.

Definition boolean_word (w : list byte) : Prop := w = bs "true" \/ w = bs "false".

(** [expr_at p ts e]: [ts] is the expression [e], whose outermost operator, if
    it has one outside parentheses, has at least the precedence [p]. *)
Inductive expr_at : Z -> list Token -> Expression -> Prop :=
| at_unary p ts e : unary_at ts e -> expr_at p ts e
| at_binary p ts1 t ts2 op q l r :
    operator_of t = Some (op, q) -> p <= q ->
    expr_at q ts1 l -> expr_at (q + 1) ts2 r ->
    expr_at p (ts1 ++ t :: ts2)
      (EBinary op l r (join_spans (expression_span l) (expression_span r)))
with unary_at : list Token -> Expression -> Prop :=
| at_bang t ts e :
    is_symbol t Sym.Bang -> unary_at ts e ->
    unary_at (t :: ts) (EUnary Not e (join_spans (token_span t) (expression_span e)))
| at_primary ts e : primary_at ts e -> unary_at ts e
with primary_at : list Token -> Expression -> Prop :=
| at_bool t w :
    is_word t w -> boolean_word w ->
    primary_at [t] (ELiteral (LBool (bool_decide (w = bs "true")) (token_span t)))
| at_name t i :
    ident_of t i -> ~ boolean_word (ident_text i) -> primary_at [t] (EName i)
| at_call t i lp ts args rp :
    ident_of t i -> ~ boolean_word (ident_text i) -> is_symbol lp Sym.LParen ->
    args_at ts args -> is_symbol rp Sym.RParen ->
    primary_at (t :: lp :: ts ++ [rp])
      (ECall i args (join_spans (token_span t) (token_span rp)))
| at_integer t w :
    token_kind t = TInteger w -> primary_at [t] (ELiteral (LInteger w (token_span t)))
| at_string t v :
    token_kind t = TString v -> primary_at [t] (ELiteral (LString v (token_span t)))
| at_parens lp ts rp e :
    is_symbol lp Sym.LParen -> expr_at 0 ts e -> is_symbol rp Sym.RParen ->
    primary_at (lp :: ts ++ [rp]) e
with args_at : list Token -> list Expression -> Prop :=
| at_no_args : args_at [] []
| at_args ts es : arguments_at ts es -> args_at ts es
with arguments_at : list Token -> list Expression -> Prop :=
| at_last_arg ts e : expr_at 0 ts e -> arguments_at ts [e]
| at_more_args ts1 e c ts2 es :
    expr_at 0 ts1 e -> is_symbol c Sym.Comma -> arguments_at ts2 es ->
    arguments_at (ts1 ++ c :: ts2) (e :: es).

Scheme expr_at_mind := Minimality for expr_at Sort Prop
  with unary_at_mind := Minimality for unary_at Sort Prop
  with primary_at_mind := Minimality for primary_at Sort Prop
  with args_at_mind := Minimality for args_at Sort Prop
  with arguments_at_mind := Minimality for arguments_at Sort Prop.
Combined Scheme expressions_at_ind from expr_at_mind, unary_at_mind, primary_at_mind, args_at_mind, arguments_at_mind.

Definition type_word (w : list byte) (t : TypeName) : Prop :=
  match t with
  | Tn.Bool => w = bs "bool"
  | Tn.U64 => w = bs "u64"
  | Tn.I64 => w = bs "i64"
  | Tn.Bytes => w = bs "bytes"
  | Tn.Utf8 => w = bs "utf8"
  | Tn.ObjectId => w = bs "object_id"
  | Tn.RevisionId => w = bs "revision_id"
  | Tn.TaskId => w = bs "task_id"
  | Tn.ProposalId => w = bs "proposal_id"
  | Tn.Capability => w = bs "capability"
  | Tn.ErrorCode => w = bs "error_code"
  | Tn.Unit => w = bs "unit"
  end.

(** The words that start a statement of their own. *)
Definition statement_word (t : Token) : Prop :=
  is_word t (bs "let") \/ is_word t (bs "if") \/ is_word t (bs "while") \/ is_word t (bs "return").

Definition starts_with (P : Token -> Prop) (ts : list Token) : Prop :=
  match ts with t :: _ => P t | [] => False end.

(** The flag says that the statement is an [if] without [else], which must not
    be followed by the word [else]. *)
Inductive statement_at : bool -> list Token -> Statement -> Prop :=
| at_let kw name i colon tyt w ty eq ts e semi :
    is_word kw (bs "let") -> ident_of name i -> is_symbol colon Sym.Colon ->
    is_word tyt w -> type_word w ty -> is_symbol eq Sym.Eq -> expr_at 0 ts e ->
    is_symbol semi Sym.Semicolon ->
    statement_at false (kw :: name :: colon :: tyt :: eq :: ts ++ [semi])
      (SLet i ty e (join_spans (token_span kw) (token_span semi)))
| at_if kw ts c ts1 then_statements fin :
    is_word kw (bs "if") -> expr_at 0 ts c -> block_at ts1 then_statements fin ->
    statement_at true (kw :: ts ++ ts1)
      (SIf c then_statements [] {| span_start := span_start (token_span kw); span_end := fin |})
| at_if_else kw ts c ts1 then_statements fin1 el ts2 else_statements fin :
    is_word kw (bs "if") -> expr_at 0 ts c -> block_at ts1 then_statements fin1 ->
    is_word el (bs "else") -> block_at ts2 else_statements fin ->
    statement_at false (kw :: ts ++ ts1 ++ el :: ts2)
      (SIf c then_statements else_statements
         {| span_start := span_start (token_span kw); span_end := fin |})
| at_while kw bu n raw budget ts c ts1 statements fin :
    is_word kw (bs "while") -> is_word bu (bs "budget") -> token_kind n = TInteger raw ->
    from_str_radix 10 raw = Some budget -> budget <> 0 ->
    expr_at 0 ts c -> block_at ts1 statements fin ->
    statement_at false (kw :: bu :: n :: ts ++ ts1)
      (SWhile budget c statements
         {| span_start := span_start (token_span kw); span_end := fin |})
| at_return kw semi :
    is_word kw (bs "return") -> is_symbol semi Sym.Semicolon ->
    statement_at false [kw; semi] (SReturn (join_spans (token_span kw) (token_span semi)))
| at_expression ts e semi :
    expr_at 0 ts e -> ~ starts_with statement_word ts -> is_symbol semi Sym.Semicolon ->
    statement_at false (ts ++ [semi]) (SExpr e)
with statements_at : list Token -> list Statement -> Prop :=
| at_no_statements : statements_at [] []
| at_statement o ts1 s ts2 ss :
    statement_at o ts1 s -> (o = true -> ~ starts_with (fun t => is_word t (bs "else")) ts2) ->
    statements_at ts2 ss -> statements_at (ts1 ++ ts2) (s :: ss)
with block_at : list Token -> list Statement -> Z -> Prop :=
| at_block lb ts ss rb :
    is_symbol lb Sym.LBrace -> statements_at ts ss -> is_symbol rb Sym.RBrace ->
    block_at (lb :: ts ++ [rb]) ss (span_end (token_span rb)).

Scheme statement_at_mind := Minimality for statement_at Sort Prop
  with statements_at_mind := Minimality for statements_at Sort Prop
  with block_at_mind := Minimality for block_at Sort Prop.
Combined Scheme statements_at_block_ind from statement_at_mind, statements_at_mind, block_at_mind.

(** Rights are words joined by bars. *)
Inductive rights_at : list Token -> list byte -> Prop :=
| at_right t w : is_word t w -> rights_at [t] w
| at_more_rights ts w bar t v :
    rights_at ts w -> is_symbol bar Sym.Pipe -> is_word t v ->
    rights_at (ts ++ [bar; t]) (w ++ bs "|" ++ v).

Inductive import_at : list Token -> ImportDecl -> Prop :=
| at_import kw name i colon cap lt res rw comma ts r gt semi :
    is_word kw (bs "import") -> ident_of name i -> is_symbol colon Sym.Colon ->
    is_word cap (bs "capability") -> is_symbol lt Sym.Less -> is_word res rw ->
    is_symbol comma Sym.Comma -> rights_at ts r -> is_symbol gt Sym.Greater ->
    is_symbol semi Sym.Semicolon ->
    import_at (kw :: name :: colon :: cap :: lt :: res :: comma :: ts ++ [gt; semi])
      {| import_name := i; import_resource := rw; import_rights := r;
         import_span := join_spans (token_span kw) (token_span semi) |}.

Definition import_names (imps : list ImportDecl) : list (list byte) :=
  (fun i => ident_text (import_name i)) <$> imps.

Inductive imports_at : list Token -> list ImportDecl -> Prop :=
| at_no_imports : imports_at [] []
| at_imports ts imps ts' i :
    imports_at ts imps -> import_at ts' i -> ident_text (import_name i) ∉ import_names imps ->
    imports_at (ts ++ ts') (imps ++ [i]).

Inductive function_at : list Token -> Function -> Prop :=
| at_function kw name lp rp arrow u ts ss fin :
    is_word kw (bs "fn") -> is_word name (bs "main") -> is_symbol lp Sym.LParen ->
    is_symbol rp Sym.RParen -> is_symbol arrow Sym.Arrow -> is_word u (bs "unit") ->
    block_at ts ss fin ->
    function_at (kw :: name :: lp :: rp :: arrow :: u :: ts)
      {| fn_statements := ss;
         fn_span := {| span_start := span_start (token_span kw); span_end := fin |} |}.

(** A principal is a hexadecimal literal of 64 bits. *)
Definition principal_value (raw : list byte) (v : Z) : Prop :=
  let digits := trim_start_matches "0"%byte "X"%byte (trim_start_matches "0"%byte "x"%byte raw) in
  digits <> [] /\ from_str_radix 16 digits = Some v.

Inductive program_at : list Token -> Program -> Prop :=
| at_program kw name i pr hex raw v lb ts imps fts f rb :
    is_word kw (bs "program") -> ident_of name i -> is_word pr (bs "principal") ->
    token_kind hex = THex raw -> principal_value raw v -> is_symbol lb Sym.LBrace ->
    imports_at ts imps -> function_at fts f -> is_symbol rb Sym.RBrace ->
    program_at (kw :: name :: pr :: hex :: lb :: ts ++ fts ++ [rb])
      {| program_name := i; principal_id := v; program_imports := imps; main := f;
         program_span := join_spans (token_span kw) (token_span rb) |}.
