(* ===== verification/PythcParserFacts.v ===== *)
(** * The parser decides the grammar

    [tools/pythc/src/parser.rs] accepts exactly the token sequences of the
    grammar, returns the tree of the derivation, and on every sequence that a
    lexer can produce it stops without panicking. *)

From stdpp Require Import base numbers list gmap relations.
From Stdlib Require Import Strings.Byte.
From S2P Require Import Prelude Utf8 Kernel PythcSyntax PythcLexer PythcLexerFacts PythcParser PythcGrammar.

(** ** Grammar facts *)

Lemma expr_at_weaken p p' ts e : p' <= p -> expr_at p ts e -> expr_at p' ts e.
Proof.
  intros Hp H. revert p' Hp. destruct H; intros p' Hp; [by apply at_unary|].
  apply at_binary with q; auto; lia.
Qed.

(** The first token of an expression can start an expression. *)
Definition starts_expression (t : Token) : Prop :=
  match token_kind t with
  | TIdent _ | TInteger _ | TString _ | TSymbol Sym.Bang | TSymbol Sym.LParen => True
  | _ => False
  end.

Lemma starts_with_app (P : Token -> Prop) ts ts' :
  starts_with P ts -> starts_with P (ts ++ ts').
Proof. by destruct ts. Qed.

Lemma primary_at_starts ts e : primary_at ts e -> starts_with starts_expression ts.
Proof.
  intros []; simpl; unfold starts_expression;
    repeat match goal with
    | H : is_word _ _ |- _ => rewrite H; done
    | H : ident_of _ _ |- _ => destruct H as [-> _]; done
    | H : token_kind ?t = _ |- context [token_kind ?t] => rewrite H; done
    | H : is_symbol ?t _ |- context [token_kind ?t] => rewrite H; done
    end.
Qed.

Lemma unary_at_starts ts e : unary_at ts e -> starts_with starts_expression ts.
Proof.
  intros [t ts' e' Ht _|ts' e' H].
  - unfold starts_expression; simpl. by rewrite Ht.
  - by eapply primary_at_starts.
Qed.

Lemma expr_at_starts p ts e : expr_at p ts e -> starts_with starts_expression ts.
Proof.
  induction 1.
  - by eapply unary_at_starts.
  - by apply starts_with_app.
Qed.

(** The next token, if it is an operator, binds less than [p]. *)
Definition no_operator (p : Z) (rest : list Token) : Prop :=
  forall t op q, head rest = Some t -> operator_of t = Some (op, q) -> q < p.

Definition at_start (s : Symbol) (rest : list Token) : Prop := starts_with (fun t => is_symbol t s) rest.

(** ** Token streams *)

Section stream.
Context (body : list Token) (eof : Token).
Hypothesis Heof : token_kind eof = TEof.
Hypothesis Hbody : Forall (fun t => token_kind t <> TEof) body.

Local Abbreviation tokens := (body ++ [eof]).

(** [rest] is what is left of the tokens at [pos]. *)
Definition stream (pos : Z) (rest : list Token) : Prop :=
  exists before, body = before ++ rest /\ pos = len before.

Lemma stream_tail pos t rest : stream pos (t :: rest) -> stream (pos + 1) rest.
Proof.
  intros (before & -> & ->). exists (before ++ [t]). rewrite <- app_assoc. split; [done|].
  unfold len. rewrite length_app. simpl. lia.
Qed.

Lemma stream_kind pos t rest : stream pos (t :: rest) -> token_kind t <> TEof.
Proof. intros (before & -> & _). apply Forall_app in Hbody as [_ H]. by inv H. Qed.

Lemma stream_peek pos rest : stream pos rest -> get tokens pos = Some (default eof (head rest)).
Proof.
  intros (before & -> & ->). unfold len.
  rewrite get_of_nat, <- app_assoc, lookup_app_r, Nat.sub_diag by lia.
  by destruct rest.
Qed.

Section rules.
Context {R : Diagnostic -> Z -> Prop}.
Implicit Types (pos : Z) (rest : list Token).

Lemma peek_rule pos rest Q :
  stream pos rest -> Q (default eof (head rest)) pos -> wpA (peek tokens) pos Q R.
Proof. intros Hs HQ. unfold peek. act_step. rewrite (stream_peek _ _ Hs). done. Qed.

Lemma advance_rule pos rest Q :
  stream pos rest ->
  (forall t rest', rest = t :: rest' -> stream (pos + 1) rest' -> Q t (pos + 1)) ->
  (rest = [] -> Q eof pos) ->
  wpA (advance tokens) pos Q R.
Proof.
  intros Hs H1 H2. unfold advance. act_step. eapply peek_rule; [done|].
  destruct rest as [|t rest]; simpl.
  - rewrite Heof. act_step. auto.
  - pose proof (stream_kind _ _ _ Hs) as Hk. destruct (token_kind t); try done;
      repeat act_step; eapply H1; eauto using stream_tail.
Qed.

(** A test of the next token. *)
Lemma at_symbol_rule s pos rest (Q : bool -> Z -> Prop) :
  stream pos rest ->
  (at_start s rest -> Q true pos) -> (~ at_start s rest -> Q false pos) ->
  wpA (at_symbol tokens s) pos Q R.
Proof.
  intros Hs H1 H2. unfold at_symbol. act_step. eapply peek_rule; [done|]. act_step.
  destruct rest as [|t rest]; simpl.
  - rewrite Heof, bool_decide_false by done. auto.
  - case_bool_decide; auto.
Qed.

Definition at_word (w : list byte) (rest : list Token) : Prop := starts_with (fun t => is_word t w) rest.

Lemma at_keyword_rule w pos rest (Q : bool -> Z -> Prop) :
  stream pos rest ->
  (at_word w rest -> Q true pos) -> (~ at_word w rest -> Q false pos) ->
  wpA (at_keyword tokens w) pos Q R.
Proof.
  intros Hs H1 H2. unfold at_keyword. act_step. eapply peek_rule; [done|]. act_step.
  destruct rest as [|t rest]; simpl.
  - rewrite Heof, bool_decide_false by done. auto.
  - case_bool_decide; auto.
Qed.

Lemma is_eof_rule pos rest (Q : bool -> Z -> Prop) :
  stream pos rest -> (rest = [] -> Q true pos) -> (rest <> [] -> Q false pos) ->
  wpA (is_eof tokens) pos Q R.
Proof.
  intros Hs H1 H2. unfold is_eof. act_step. eapply peek_rule; [done|]. act_step.
  destruct rest as [|t rest]; simpl.
  - rewrite Heof, bool_decide_true by done. auto.
  - rewrite bool_decide_false by eauto using stream_kind. auto.
Qed.

Lemma match_symbol_rule s pos rest (Q : bool -> Z -> Prop) :
  stream pos rest ->
  (forall t rest', rest = t :: rest' -> is_symbol t s -> stream (pos + 1) rest' -> Q true (pos + 1)) ->
  (~ at_start s rest -> Q false pos) ->
  wpA (match_symbol tokens s) pos Q R.
Proof.
  intros Hs H1 H2. unfold match_symbol. act_step. eapply at_symbol_rule; [done|intros Ha|intros Ha].
  - act_step. eapply advance_rule; [done| |by intros ->].
    intros t rest' -> Hs'. act_step. eapply H1; eauto.
  - act_step. auto.
Qed.

Lemma match_keyword_rule w pos rest (Q : bool -> Z -> Prop) :
  stream pos rest ->
  (forall t rest', rest = t :: rest' -> is_word t w -> stream (pos + 1) rest' -> Q true (pos + 1)) ->
  (~ at_word w rest -> Q false pos) ->
  wpA (match_keyword tokens w) pos Q R.
Proof.
  intros Hs H1 H2. unfold match_keyword. act_step. eapply at_keyword_rule; [done|intros Ha|intros Ha].
  - act_step. eapply advance_rule; [done| |by intros ->].
    intros t rest' -> Hs'. act_step. eapply H1; eauto.
  - act_step. auto.
Qed.

Lemma expect_symbol_rule s pos rest (Q : Span -> Z -> Prop) :
  stream pos rest ->
  (forall t rest', rest = t :: rest' -> is_symbol t s -> stream (pos + 1) rest' ->
     Q (token_span t) (pos + 1)) ->
  (~ at_start s rest -> forall d pos', R d pos') ->
  wpA (expect_symbol tokens s) pos Q R.
Proof.
  intros Hs H1 H2. unfold expect_symbol. act_step. eapply advance_rule; [done| |].
  - intros t rest' -> Hs'. case_bool_decide as Hk; [eapply H1; eauto|]. apply H2. naive_solver.
  - intros ->. rewrite Heof, bool_decide_false by done. apply H2. auto.
Qed.

Lemma expect_keyword_rule w pos rest (Q : Span -> Z -> Prop) :
  stream pos rest ->
  (forall t rest', rest = t :: rest' -> is_word t w -> stream (pos + 1) rest' ->
     Q (token_span t) (pos + 1)) ->
  (~ at_word w rest -> forall d pos', R d pos') ->
  wpA (expect_keyword tokens w) pos Q R.
Proof.
  intros Hs H1 H2. unfold expect_keyword. act_step. eapply advance_rule; [done| |].
  - intros t rest' -> Hs'. case_bool_decide as Hk; [eapply H1; eauto|]. apply H2. naive_solver.
  - intros ->. rewrite Heof, bool_decide_false by done. apply H2. auto.
Qed.

Lemma expect_ident_rule pos rest (Q : Ident -> Z -> Prop) :
  stream pos rest ->
  (forall t rest' i, rest = t :: rest' -> ident_of t i -> stream (pos + 1) rest' -> Q i (pos + 1)) ->
  (~ starts_with (fun t => exists i, ident_of t i) rest -> forall d pos', R d pos') ->
  wpA (expect_ident tokens) pos Q R.
Proof.
  intros Hs H1 H2. unfold expect_ident. act_step. eapply advance_rule; [done| |].
  - intros t rest' -> Hs'. destruct (token_kind t) eqn:Hk;
      [eapply H1; eauto; by split|..]; apply H2; intros (i & Hi & _); congruence.
  - intros ->. rewrite Heof. apply H2. auto.
Qed.

Lemma peek_binary_op_rule pos rest Q :
  stream pos rest -> Q (operator_of (default eof (head rest))) pos ->
  wpA (peek_binary_op tokens) pos Q R.
Proof. intros Hs HQ. unfold peek_binary_op. act_step. by eapply peek_rule. Qed.
End rules.

(** ** Soundness of expressions *)

(** The outcome is described by the tokens consumed and the tokens left. *)
Definition parsed {A} (G : list Token -> A -> list Token -> Prop) (rest : list Token)
    (a : A) (pos : Z) : Prop :=
  exists ts rest', rest = ts ++ rest' /\ stream pos rest' /\ G ts a rest'.

Definition any_error (d : Diagnostic) (pos : Z) : Prop := True.

Lemma any_error_intro d pos : any_error d pos.
Proof. done. Qed.

Definition whole_expression (p : Z) (ts : list Token) (e : Expression) (rest : list Token) : Prop :=
  expr_at p ts e /\ no_operator p rest.

Record expression_specs (f : nat) : Prop := {
  expression_ok : forall p pos rest, stream pos rest -> (5 * length rest + 3 <= f)%nat ->
    wpA (parse_expression tokens f p) pos (parsed (whole_expression p) rest) any_error;
  loop_ok : forall p left ts0 pos rest, stream pos rest -> (5 * length rest + 1 <= f)%nat ->
    expr_at p ts0 left ->
    (forall t op q, head rest = Some t -> operator_of t = Some (op, q) -> p <= q -> expr_at q ts0 left) ->
    wpA (binary_loop tokens f p left) pos
      (parsed (fun ts => whole_expression p (ts0 ++ ts)) rest) any_error;
  unary_ok : forall pos rest, stream pos rest -> (5 * length rest + 2 <= f)%nat ->
    wpA (parse_unary tokens f) pos (parsed (fun ts e _ => unary_at ts e) rest) any_error;
  primary_ok : forall pos rest, stream pos rest -> (5 * length rest + 1 <= f)%nat ->
    wpA (parse_primary tokens f) pos (parsed (fun ts e _ => primary_at ts e) rest) any_error;
  args_ok : forall pos rest, stream pos rest -> (5 * length rest + 4 <= f)%nat ->
    wpA (parse_args tokens f) pos (parsed (fun ts es _ => arguments_at ts es) rest) any_error;
}.

(** Continues after a call with a known specification. *)
Lemma wpA_call {A} (m : action Z Diagnostic A) pos G rest (Q : A -> Z -> Prop) :
  wpA m pos (parsed G rest) any_error ->
  (forall ts rest' a pos', rest = ts ++ rest' -> stream pos' rest' -> G ts a rest' -> Q a pos') ->
  wpA m pos Q any_error.
Proof. intros Hm HQ. eapply wpA_mono; [done| |done]. intros a pos' (ts & rest' & ?). naive_solver. Qed.

Lemma parsed_intro {A} (G : list Token -> A -> list Token -> Prop) ts rest' a pos :
  stream pos rest' -> G ts a rest' -> parsed G (ts ++ rest') a pos.
Proof. intros. by exists ts, rest'. Qed.

Section expression_round.
Context (f : nat) (IH : expression_specs f).

Lemma expression_round p pos rest : stream pos rest -> (5 * length rest + 3 <= S f)%nat ->
  wpA (parse_expression tokens (S f) p) pos (parsed (whole_expression p) rest) any_error.
Proof.
  intros Hs Hf. simpl. act_step. eapply wpA_call; [apply (unary_ok _ IH); [done|lia]|].
  intros ts rest' left pos' -> Hs' Hu. rewrite length_app in Hf.
  eapply wpA_call; [apply (loop_ok _ IH p left ts); eauto using at_unary; lia|].
  intros ts' rest'' e pos'' -> Hs'' He. rewrite app_assoc. by apply parsed_intro.
Qed.

Lemma loop_round p left ts0 pos rest : stream pos rest -> (5 * length rest + 1 <= S f)%nat ->
  expr_at p ts0 left ->
  (forall t op q, head rest = Some t -> operator_of t = Some (op, q) -> p <= q -> expr_at q ts0 left) ->
  wpA (binary_loop tokens (S f) p left) pos
    (parsed (fun ts => whole_expression p (ts0 ++ ts)) rest) any_error.
Proof.
  intros Hs Hf Hl Hnext. simpl. act_step. eapply peek_binary_op_rule; [done|].
  assert (no_operator p rest -> parsed (fun ts => whole_expression p (ts0 ++ ts)) rest left pos) as Hstop.
  { intros Hno. apply (parsed_intro _ [] rest); [done|]. by rewrite app_nil_r. }
  destruct (operator_of _) as [[op q]|] eqn:Hop; cycle 1.
  { act_step. apply Hstop. intros t op q Ht. rewrite Ht in Hop. simpl in Hop. congruence. }
  destruct rest as [|t rest]; simpl in *; [unfold operator_of in Hop; by rewrite Heof in Hop|].
  destruct (Z.ltb_spec q p) as [Hq|Hq].
  { act_step. apply Hstop. intros ? ? ? [= <-]. congruence. }
  act_step. eapply advance_rule; [done| |done]. intros ? ? [= <- <-] Hs'.
  act_step. eapply wpA_call; [apply (expression_ok _ IH); [done|lia]|].
  intros ts rest' right pos' -> Hs'' [Hr Hno]. rewrite length_app in Hf.
  assert (expr_at q (ts0 ++ t :: ts)
    (EBinary op left right (join_spans (expression_span left) (expression_span right)))) as Hnew.
  { apply at_binary with q; eauto; lia. }
  eapply wpA_call; [apply (loop_ok _ IH p _ (ts0 ++ t :: ts)); [done|lia| |]|].
  - by apply expr_at_weaken with q.
  - intros u op' q' Hu Hop' Hq'. apply expr_at_weaken with q; [|done].
    specialize (Hno _ _ _ Hu Hop'). lia.
  - intros ts' rest'' e pos'' -> Hs3 He. rewrite app_comm_cons, app_assoc. apply parsed_intro; [done|].
    by rewrite <- app_assoc in He.
Qed.

Lemma unary_round pos rest : stream pos rest -> (5 * length rest + 2 <= S f)%nat ->
  wpA (parse_unary tokens (S f)) pos (parsed (fun ts e _ => unary_at ts e) rest) any_error.
Proof.
  intros Hs Hf. simpl. act_step. eapply at_symbol_rule; [done|intros Hb|intros Hb].
  - act_step. eapply advance_rule; [done| |by intros ->]. intros t rest' -> Hs'. simpl in *.
    act_step. eapply wpA_call; [apply (unary_ok _ IH); [done|lia]|].
    intros ts rest'' e pos' -> Hs'' He. act_step. rewrite app_comm_cons. apply parsed_intro; [done|].
    by apply at_bang.
  - eapply wpA_call; [apply (primary_ok _ IH); [done|lia]|].
    intros ts rest'' e pos' -> Hs'' He. apply parsed_intro; [done|]. by apply at_primary.
Qed.

Lemma args_round pos rest : stream pos rest -> (5 * length rest + 4 <= S f)%nat ->
  wpA (parse_args tokens (S f)) pos (parsed (fun ts es _ => arguments_at ts es) rest) any_error.
Proof.
  intros Hs Hf. simpl. act_step. eapply wpA_call; [apply (expression_ok _ IH); [done|lia]|].
  intros ts rest' e pos' -> Hs' [He _]. rewrite length_app in Hf.
  act_step. eapply match_symbol_rule; [done| |intros _].
  - intros t rest'' -> Ht Hs''. simpl in *. act_step.
    eapply wpA_call; [apply (args_ok _ IH); [done|lia]|].
    intros ts' rest3 es pos'' -> Hs3 Hes. act_step. rewrite app_comm_cons, app_assoc.
    apply parsed_intro; [done|]. by apply at_more_args.
  - act_step. apply parsed_intro; [done|]. by apply at_last_arg.
Qed.

Lemma call_round t i pos rest : ident_of t i -> ~ boolean_word (ident_text i) ->
  stream pos rest -> (5 * length rest + 5 <= f)%nat ->
  wpA (call ← match_symbol tokens Sym.LParen;
       if (call : bool) then
         empty ← at_symbol tokens Sym.RParen;
         args ← (if (empty : bool) then mret [] else parse_args tokens f);
         fin ← expect_symbol tokens Sym.RParen;
         mret (ECall i args (join_spans (token_span t) fin))
       else mret (EName i)) pos
    (parsed (fun ts e _ => primary_at ts e) (t :: rest)) any_error.
Proof.
  intros Hi Hn Hs Hf. act_step. eapply match_symbol_rule; [done| |intros _]; cycle 1.
  { act_step. apply (parsed_intro _ [t] rest); [done|]. by apply at_name. }
  intros lp rest' -> Hlp Hs'. simpl in *. act_step.
  assert (forall args ts rest'' pos', rest' = ts ++ rest'' -> stream pos' rest'' -> args_at ts args ->
    wpA (fin ← expect_symbol tokens Sym.RParen;
         mret (ECall i args (join_spans (token_span t) fin))) pos'
      (parsed (fun ts e _ => primary_at ts e) (t :: lp :: rest')) any_error) as Hclose.
  { intros args ts rest'' pos' -> Hs'' Ha. act_step.
    eapply expect_symbol_rule; [done| |by intros].
    intros rp rest3 -> Hrp Hs3. act_step.
    replace (t :: lp :: ts ++ rp :: rest3) with ((t :: lp :: ts ++ [rp]) ++ rest3)
      by (simpl; by rewrite <- app_assoc).
    apply parsed_intro; [done|]. by apply at_call. }
  eapply at_symbol_rule; [done|intros Hr|intros Hr]; act_step.
  - act_step. eapply (Hclose [] []); [done..|]. constructor.
  - eapply wpA_call; [apply (args_ok _ IH); [done|lia]|].
    intros ts rest'' args pos' Hrest Hs'' Ha. eapply (Hclose args ts); [done..|]. by apply at_args.
Qed.

Lemma parens_round t pos rest : is_symbol t Sym.LParen ->
  stream pos rest -> (5 * length rest + 5 <= f)%nat ->
  wpA (e ← parse_expression tokens f 0; expect_symbol tokens Sym.RParen;; mret e) pos
    (parsed (fun ts e _ => primary_at ts e) (t :: rest)) any_error.
Proof.
  intros Ht Hs Hf. act_step. eapply wpA_call; [apply (expression_ok _ IH); [done|lia]|].
  intros ts rest' e pos' -> Hs' [He _]. act_step. eapply expect_symbol_rule; [done| |by intros].
  intros rp rest3 -> Hrp Hs3. act_step.
  replace (t :: ts ++ rp :: rest3) with ((t :: ts ++ [rp]) ++ rest3)
    by (simpl; by rewrite <- app_assoc).
  apply parsed_intro; [done|]. by apply at_parens.
Qed.

Lemma primary_round pos rest : stream pos rest -> (5 * length rest + 1 <= S f)%nat ->
  wpA (parse_primary tokens (S f)) pos (parsed (fun ts e _ => primary_at ts e) rest) any_error.
Proof.
  intros Hs Hf. simpl. act_step. eapply advance_rule; [done| |]; cycle 1.
  { intros ->. by rewrite Heof. }
  intros t rest' -> Hs'. simpl in *.
  destruct (token_kind t) as [text|text|text|value|s|] eqn:Hk; try done.
  - destruct (bool_decide (text = bs "true") || bool_decide (text = bs "false")) eqn:Hb.
    + act_step. apply (parsed_intro _ [t] rest'); [done|]. apply at_bool; [done|].
      apply orb_prop in Hb as [H|H]; apply bool_decide_eq_true in H; [by left|by right].
    + apply (call_round t {| ident_text := text; ident_span := token_span t |}); [done| |done|lia].
      apply orb_false_elim in Hb as [H1%bool_decide_eq_false H2%bool_decide_eq_false].
      intros [|]; naive_solver.
  - act_step. apply (parsed_intro _ [t] rest'); [done|]. by apply at_integer.
  - act_step. apply (parsed_intro _ [t] rest'); [done|]. by apply at_string.
  - destruct s; try done. apply parens_round; [done..|lia].
Qed.
End expression_round.

Lemma expression_sound f : expression_specs f.
Proof.
  induction f as [|f IH]; [split; intros; lia|].
  split; intros.
  - by apply expression_round.
  - by apply loop_round.
  - by apply unary_round.
  - by apply primary_round.
  - by apply args_round.
Qed.

(** ** Completeness of expressions *)

(** The call returns [a] and leaves [rest]. *)
Definition returns {A} (m : action Z Diagnostic A) (pos : Z) (a : A) (rest : list Token) : Prop :=
  wpA m pos (fun a' pos' => a' = a /\ stream pos' rest) (fun _ _ => False).

Lemma returns_bind {A B} (m : action Z Diagnostic A) (k : A -> action Z Diagnostic B) pos a rest Q R :
  returns m pos a rest -> (forall pos', stream pos' rest -> wpA (k a) pos' Q R) ->
  wpA (m ≫= k) pos Q R.
Proof.
  intros Hm Hk. act_step. eapply wpA_mono; [exact Hm| |done]. intros ? ? [-> ?]. auto.
Qed.

Lemma returns_expect_symbol pos t s rest :
  stream pos (t :: rest) -> is_symbol t s -> returns (expect_symbol tokens s) pos (token_span t) rest.
Proof.
  intros Hs Ht. eapply expect_symbol_rule; [done| |by intros []].
  intros ? ? [= <- <-] _ ?. done.
Qed.

Lemma returns_expect_keyword pos t w rest :
  stream pos (t :: rest) -> is_word t w -> returns (expect_keyword tokens w) pos (token_span t) rest.
Proof.
  intros Hs Ht. eapply expect_keyword_rule; [done| |by intros []].
  intros ? ? [= <- <-] _ ?. done.
Qed.

Lemma ident_of_inj t i j : ident_of t i -> ident_of t j -> i = j.
Proof. destruct i, j. intros [H1 H2] [H3 H4]. simpl in *. congruence. Qed.

Lemma returns_expect_ident pos t i rest :
  stream pos (t :: rest) -> ident_of t i -> returns (expect_ident tokens) pos i rest.
Proof.
  intros Hs Ht. eapply expect_ident_rule; [done| |].
  - intros ? ? j [= <- <-] Hj ?. split; [|done]. by eapply ident_of_inj.
  - intros Hn. destruct Hn. by exists i.
Qed.

Lemma returns_advance pos t rest :
  stream pos (t :: rest) -> returns (advance tokens) pos t rest.
Proof. intros Hs. eapply advance_rule; [done| |done]. by intros ? ? [= <- <-]. Qed.

Lemma returns_at_symbol pos s b rest :
  stream pos rest -> (b = true <-> at_start s rest) -> returns (at_symbol tokens s) pos b rest.
Proof. intros Hs Hb. eapply at_symbol_rule; [done|..]; intros; (split; [|done]); destruct b; naive_solver. Qed.

Lemma returns_at_keyword pos w b rest :
  stream pos rest -> (b = true <-> at_word w rest) -> returns (at_keyword tokens w) pos b rest.
Proof. intros Hs Hb. eapply at_keyword_rule; [done|..]; intros; (split; [|done]); destruct b; naive_solver. Qed.

Lemma returns_is_eof pos t rest :
  stream pos (t :: rest) -> returns (is_eof tokens) pos false (t :: rest).
Proof. intros Hs. by eapply is_eof_rule. Qed.

Lemma returns_match_symbol pos t s rest :
  stream pos (t :: rest) -> is_symbol t s -> returns (match_symbol tokens s) pos true rest.
Proof.
  intros Hs Ht. eapply match_symbol_rule; [done| |by intros []]. by intros ? ? [= <- <-].
Qed.

Lemma returns_no_match_symbol pos s rest :
  stream pos rest -> ~ at_start s rest -> returns (match_symbol tokens s) pos false rest.
Proof.
  intros Hs Ht. eapply match_symbol_rule; [done| |done]. intros ? ? -> ? ?. by destruct Ht.
Qed.

Lemma returns_match_keyword pos t w rest :
  stream pos (t :: rest) -> is_word t w -> returns (match_keyword tokens w) pos true rest.
Proof.
  intros Hs Ht. eapply match_keyword_rule; [done| |by intros []]. by intros ? ? [= <- <-].
Qed.

Lemma returns_no_match_keyword pos w rest :
  stream pos rest -> ~ at_word w rest -> returns (match_keyword tokens w) pos false rest.
Proof.
  intros Hs Ht. eapply match_keyword_rule; [done| |done]. intros ? ? -> ? ?. by destruct Ht.
Qed.

Definition expression_complete (p : Z) (ts : list Token) (e : Expression) : Prop :=
  forall f p' pos rest Q R,
    stream pos (ts ++ rest) -> (5 * length (ts ++ rest) + 3 <= f)%nat -> p' <= p ->
    no_operator (p + 1) rest -> ~ at_start Sym.LParen rest ->
    (forall f' pos', stream pos' rest -> (5 * length rest + 1 <= f')%nat ->
       wpA (binary_loop tokens f' p' e) pos' Q R) ->
    wpA (parse_expression tokens f p') pos Q R.

Definition unary_complete (ts : list Token) (e : Expression) : Prop :=
  forall f pos rest,
    stream pos (ts ++ rest) -> (5 * length (ts ++ rest) + 2 <= f)%nat ->
    ~ at_start Sym.LParen rest -> returns (parse_unary tokens f) pos e rest.

Definition primary_complete (ts : list Token) (e : Expression) : Prop :=
  forall f pos rest,
    stream pos (ts ++ rest) -> (5 * length (ts ++ rest) + 1 <= f)%nat ->
    ~ at_start Sym.LParen rest -> returns (parse_primary tokens f) pos e rest.

Definition arguments_complete (ts : list Token) (es : list Expression) : Prop :=
  forall f pos rest,
    stream pos (ts ++ rest) -> (5 * length (ts ++ rest) + 4 <= f)%nat ->
    at_start Sym.RParen rest ->
    returns (parse_args tokens f) pos es rest /\ ~ at_start Sym.RParen (ts ++ rest).

Definition args_complete (ts : list Token) (es : list Expression) : Prop :=
  (ts = [] /\ es = []) \/ arguments_complete ts es.

Lemma no_operator_symbol t s rest p :
  is_symbol t s -> operator_of t = None -> no_operator p (t :: rest).
Proof. intros Hs Ho ? ? ? [= <-]. congruence. Qed.

Lemma operator_of_symbol t s :
  is_symbol t s ->
  s = Sym.RParen \/ s = Sym.Comma \/ s = Sym.Semicolon \/ s = Sym.LBrace -> operator_of t = None.
Proof. intros Hs H. unfold operator_of. rewrite Hs. by destruct H as [-> | [-> | [-> | ->]]]. Qed.

Lemma at_start_inj s s' rest : at_start s rest -> at_start s' rest -> s = s'.
Proof. destruct rest; [done|]. simpl. unfold is_symbol. congruence. Qed.

Lemma starts_not_at (s : Symbol) ts rest :
  starts_with starts_expression ts -> s <> Sym.Bang -> s <> Sym.LParen -> ~ at_start s (ts ++ rest).
Proof.
  destruct ts as [|t ts]; [done|]. simpl. unfold starts_expression, is_symbol.
  intros H ? ? Hs. rewrite Hs in H. by destruct s.
Qed.

(** The loop ends at a token that is no operator of its level. *)
Lemma loop_stops f p e pos rest :
  stream pos rest -> (1 <= f)%nat -> no_operator p rest -> returns (binary_loop tokens f p e) pos e rest.
Proof.
  intros Hs Hf Hno. destruct f as [|f]; [lia|]. simpl. unfold returns. act_step.
  eapply peek_binary_op_rule; [done|].
  destruct (operator_of _) as [[op q]|] eqn:Hop; [|by act_step].
  destruct rest as [|t rest]; simpl in *; [unfold operator_of in Hop; by rewrite Heof in Hop|].
  specialize (Hno t op q eq_refl Hop). destruct (Z.ltb_spec q p); [by act_step|lia].
Qed.

Lemma no_operator_mono p p' rest : p <= p' -> no_operator p rest -> no_operator p' rest.
Proof. intros Hp Hno t op q Ht Ho. specialize (Hno _ _ _ Ht Ho). lia. Qed.

(** An expression parsed to its end. *)
Lemma expression_complete_whole p ts e f pos rest :
  expression_complete p ts e -> stream pos (ts ++ rest) -> (5 * length (ts ++ rest) + 3 <= f)%nat ->
  no_operator p rest -> ~ at_start Sym.LParen rest -> returns (parse_expression tokens f p) pos e rest.
Proof.
  intros HC Hs Hf Hno Hlp. eapply HC; eauto; [lia| |].
  - eapply no_operator_mono; [|done]. lia.
  - intros f' pos' Hs' Hf'. apply loop_stops; auto; lia.
Qed.

Lemma binary_complete p ts1 t ts2 op q l r :
  operator_of t = Some (op, q) -> p <= q ->
  expression_complete q ts1 l -> expression_complete (q + 1) ts2 r ->
  expression_complete p (ts1 ++ t :: ts2)
    (EBinary op l r (join_spans (expression_span l) (expression_span r))).
Proof.
  intros Hop Hpq H1 H2 f p' pos rest Q R Hs Hf Hp' Hno Hlp Hk.
  rewrite <- app_assoc in Hs, Hf. simpl in Hs, Hf.
  eapply H1; [exact Hs|done|lia| | |].
  - intros ? ? ? [= <-]. rewrite Hop. intros [= <- <-]. lia.
  - simpl. unfold is_symbol. intros Ht. unfold operator_of in Hop. by rewrite Ht in Hop.
  - intros f' pos' Hs' Hf'. destruct f' as [|f']; [lia|]. simpl in *. act_step.
    eapply peek_binary_op_rule; [done|]. simpl. rewrite Hop.
    destruct (Z.ltb_spec q p'); [lia|].
    eapply returns_bind; [by apply returns_advance|]. intros pos1 Hs1.
    eapply returns_bind.
    { eapply expression_complete_whole; eauto; [lia|]. eapply no_operator_mono; [|done]. lia. }
    intros pos2 Hs2. apply Hk; [done|]. rewrite length_app in Hf'. lia.
Qed.

Lemma call_complete t i lp ts args rp :
  ident_of t i -> ~ boolean_word (ident_text i) -> is_symbol lp Sym.LParen ->
  args_complete ts args -> is_symbol rp Sym.RParen ->
  primary_complete (t :: lp :: ts ++ [rp]) (ECall i args (join_spans (token_span t) (token_span rp))).
Proof.
  intros Hi Hb Hlp Ha Hrp f pos rest Hs Hf Hn.
  simpl in Hs, Hf. rewrite <- app_assoc in Hs, Hf. simpl in Hs, Hf.
  destruct f as [|f]; [lia|]. simpl. unfold returns.
  eapply returns_bind; [by apply returns_advance|]. intros pos1 Hs1.
  destruct Hi as [Hi1 Hi2]. rewrite Hi1. destruct i as [text span]; simpl in *. subst span.
  rewrite (bool_decide_false (text = bs "true")), (bool_decide_false (text = bs "false"))
    by (unfold boolean_word in Hb; naive_solver). simpl.
  eapply returns_bind; [by eapply returns_match_symbol|]. intros pos2 Hs2.
  assert (forall pos', stream pos' (rp :: rest) ->
    returns (fin ← expect_symbol tokens Sym.RParen;
             mret (ECall {| ident_text := text; ident_span := token_span t |} args
                     (join_spans (token_span t) fin))) pos'
     (ECall {| ident_text := text; ident_span := token_span t |} args
                     (join_spans (token_span t) (token_span rp))) rest) as Hclose.
  { intros pos' Hs'. unfold returns. eapply returns_bind; [by eapply returns_expect_symbol|].
    intros pos3 Hs3. by act_step. }
  destruct Ha as [[-> ->] | Ha].
  - eapply returns_bind; [by apply (returns_at_symbol _ _ true)|]. intros pos3 Hs3.
    eapply returns_bind; [by apply wpA_ret|]. done.
  - destruct (Ha f pos2 (rp :: rest)) as [Hret Hnot]; [done|lia|done|].
    eapply returns_bind; [by apply (returns_at_symbol _ _ false)|]. intros pos3 Hs3.
    eapply returns_bind; [|done]. by apply Ha; [|lia|].
Qed.

Lemma parens_complete lp ts rp e :
  is_symbol lp Sym.LParen -> expression_complete 0 ts e -> is_symbol rp Sym.RParen ->
  primary_complete (lp :: ts ++ [rp]) e.
Proof.
  intros Hlp He Hrp f pos rest Hs Hf Hn.
  simpl in Hs, Hf. rewrite <- app_assoc in Hs, Hf. simpl in Hs, Hf.
  destruct f as [|f]; [lia|]. simpl. unfold returns.
  eapply returns_bind; [by apply returns_advance|]. intros pos1 Hs1. rewrite Hlp.
  eapply returns_bind.
  { eapply expression_complete_whole; [done..|lia| |].
    - eapply no_operator_symbol; [done|]. eapply operator_of_symbol; eauto.
    - simpl. unfold is_symbol in *. congruence. }
  intros pos2 Hs2. eapply returns_bind; [by eapply returns_expect_symbol|]. intros. by act_step.
Qed.

Lemma leaf_complete t k e :
  token_kind t = k ->
  match k with
  | TIdent w =>
      e = if bool_decide (w = bs "true") || bool_decide (w = bs "false")
          then ELiteral (LBool (bool_decide (w = bs "true")) (token_span t))
          else EName {| ident_text := w; ident_span := token_span t |}
  | TInteger w => e = ELiteral (LInteger w (token_span t))
  | TString v => e = ELiteral (LString v (token_span t))
  | _ => False
  end -> primary_complete [t] e.
Proof.
  intros Hk He f pos rest Hs Hf Hn. destruct f as [|f]; [simpl in *; lia|]. simpl in *. unfold returns.
  eapply returns_bind; [by apply returns_advance|]. intros pos1 Hs1. rewrite Hk.
  destruct k as [w| |w|v| |]; try done; subst e; [|by act_step..].
  case_match; [by act_step|].
  eapply returns_bind; [by apply returns_no_match_symbol|]. intros. by apply wpA_ret.
Qed.

Lemma more_args_complete ts1 e c ts2 es :
  starts_with starts_expression ts1 ->
  expression_complete 0 ts1 e -> is_symbol c Sym.Comma -> arguments_complete ts2 es ->
  arguments_complete (ts1 ++ c :: ts2) (e :: es).
Proof.
  intros Hst He Hc Hes f pos rest Hs Hf Hr.
  rewrite <- app_assoc in Hs, Hf. rewrite <- app_assoc. simpl in Hs, Hf. split; [|by apply starts_not_at].
  destruct f as [|f]; [lia|]. rewrite length_app in Hf. simpl in Hf. simpl. unfold returns.
  eapply returns_bind.
  { eapply expression_complete_whole; eauto; [rewrite length_app; simpl; lia| |].
    - eapply no_operator_symbol; [done|]. eapply operator_of_symbol; eauto.
    - simpl. unfold is_symbol in *. congruence. }
  intros pos1 Hs1. eapply returns_bind; [by eapply returns_match_symbol|]. intros pos2 Hs2.
  eapply returns_bind; [apply (Hes f pos2 rest); [done|lia|done]|]. intros. by act_step.
Qed.

Lemma last_arg_complete ts e :
  starts_with starts_expression ts -> expression_complete 0 ts e -> arguments_complete ts [e].
Proof.
  intros Hst He f pos rest Hs Hf Hr. split; [|by apply starts_not_at].
  destruct f as [|f]; [lia|]. simpl. unfold returns.
  assert (~ at_start Sym.Comma rest) as Hnc by (intros H; by pose proof (at_start_inj _ _ _ H Hr)).
  destruct rest as [|rp rest]; [done|].
  eapply returns_bind.
  { eapply expression_complete_whole; eauto; [lia| |].
    - eapply no_operator_symbol; [done|]. eapply operator_of_symbol; eauto.
    - intros H; by pose proof (at_start_inj _ _ _ H Hr). }
  intros pos1 Hs1. eapply returns_bind; [by apply returns_no_match_symbol|]. intros. by apply wpA_ret.
Qed.

Lemma primary_not_bang ts e rest : primary_at ts e -> ~ at_start Sym.Bang (ts ++ rest).
Proof.
  intros []; simpl; unfold is_symbol, is_word, ident_of in *; intros Hb;
    repeat match goal with H : _ /\ _ |- _ => destruct H end; congruence.
Qed.

Lemma expressions_complete :
  (forall p ts e, expr_at p ts e -> expression_complete p ts e) /\
  (forall ts e, unary_at ts e -> unary_complete ts e) /\
  (forall ts e, primary_at ts e -> primary_complete ts e) /\
  (forall ts es, args_at ts es -> args_complete ts es) /\
  (forall ts es, arguments_at ts es -> arguments_complete ts es).
Proof.
  apply expressions_at_ind.
  - intros p ts e _ Hu f p' pos rest Q R Hs Hf Hp' Hno Hlp Hk. destruct f as [|f]; [lia|]. simpl.
    eapply returns_bind; [apply Hu; [done|lia|done]|]. intros pos1 Hs1. apply Hk; [done|].
    rewrite length_app in Hf. lia.
  - intros. by apply binary_complete with q.
  - intros t ts e Ht _ Hu f pos rest Hs Hf Hlp. destruct f as [|f]; [lia|]. simpl in *. unfold returns.
    eapply returns_bind; [by apply (returns_at_symbol _ _ true)|]. intros pos1 Hs1.
    eapply returns_bind; [by apply returns_advance|]. intros pos2 Hs2.
    eapply returns_bind; [apply Hu; [done|lia|done]|]. intros. by act_step.
  - intros ts e Hp HC f pos rest Hs Hf Hlp. destruct f as [|f]; [lia|]. simpl. unfold returns.
    eapply returns_bind; [apply (returns_at_symbol _ _ false); [done|]|].
    { split; [done|]. intros Hb. by apply (primary_not_bang ts e rest) in Hb. }
    intros pos1 Hs1. apply HC; [done|lia|done].
  - intros t w Ht Hb. eapply leaf_complete; [done|]. simpl.
    by destruct Hb as [-> | ->].
  - intros t [w s] [Ht Hs] Hb. simpl in *. subst s. eapply leaf_complete; [done|]. simpl.
    rewrite (bool_decide_false (w = bs "true")), (bool_decide_false (w = bs "false"))
      by (unfold boolean_word in Hb; naive_solver). done.
  - intros. by apply call_complete.
  - intros t w Ht. by eapply leaf_complete.
  - intros t w Ht. by eapply leaf_complete.
  - intros. by apply parens_complete.
  - by left.
  - intros. by right.
  - intros ts e He HC. apply last_arg_complete; [by eapply expr_at_starts|done].
  - intros ts1 e c ts2 es He HC Hc _ Hes. apply more_args_complete; [by eapply expr_at_starts|done..].
Qed.

(** ** Statements *)

Lemma type_rule pos rest (Q : TypeName -> Z -> Prop) (R : Diagnostic -> Z -> Prop) :
  stream pos rest ->
  (forall t rest' w ty, rest = t :: rest' -> is_word t w -> type_word w ty ->
     stream (pos + 1) rest' -> Q ty (pos + 1)) ->
  (~ starts_with (fun t => exists w ty, is_word t w /\ type_word w ty) rest -> forall d pos', R d pos') ->
  wpA (parse_type tokens) pos Q R.
Proof.
  intros Hs H1 H2. unfold parse_type. act_step. eapply expect_ident_rule; [done| |].
  - intros t rest' [w span] -> [Hw _] Hs'. simpl in *.
    repeat (case_bool_decide; [act_step; eapply H1; [done|done|by subst w|done]|]).
    apply H2. intros (v & ty & Hv & Hty). assert (v = w) as -> by (unfold is_word in Hv; congruence).
    by destruct ty.
  - intros Hn. apply H2. intros Hst. destruct Hn. destruct rest as [|t rest]; [done|].
    destruct Hst as (w & ty & Hw & _). by exists {| ident_text := w; ident_span := token_span t |}.
Qed.

Lemma type_word_inj w ty ty' : type_word w ty -> type_word w ty' -> ty = ty'.
Proof. destruct ty; simpl; intros ->; destruct ty'; simpl; intros H; (done || discriminate H). Qed.

Definition budget_at (t : Token) (budget : Z) : Prop :=
  exists raw, token_kind t = TInteger raw /\ from_str_radix 10 raw = Some budget /\ budget <> 0.

Lemma budget_rule pos rest (Q : Z -> Z -> Prop) (R : Diagnostic -> Z -> Prop) :
  stream pos rest ->
  (forall t rest' b, rest = t :: rest' -> budget_at t b -> stream (pos + 1) rest' -> Q b (pos + 1)) ->
  (~ starts_with (fun t => exists b, budget_at t b) rest -> forall d pos', R d pos') ->
  wpA (parse_budget tokens) pos Q R.
Proof.
  intros Hs H1 H2. unfold parse_budget. act_step. eapply advance_rule; [done| |].
  - intros t rest' -> Hs'. unfold budget_at in *. simpl in *.
    destruct (token_kind t) as [| |raw| | |] eqn:Hk; try (apply H2; naive_solver).
    destruct (from_str_radix 10 raw) as [b|] eqn:Hb; [|apply H2; naive_solver].
    destruct (Z.eqb_spec b 0) as [H0|H0]; [apply H2; naive_solver|]. act_step. eapply H1; eauto.
  - intros ->. rewrite Heof. apply H2. auto.
Qed.

Lemma budget_at_inj t b b' : budget_at t b -> budget_at t b' -> b = b'.
Proof. intros (raw & H1 & H2 & _) (raw' & H3 & H4 & _). congruence. Qed.

(** ** Soundness of statements *)

Definition closed_statement (ts : list Token) (s : Statement) (rest : list Token) : Prop :=
  exists o, statement_at o ts s /\ (o = true -> ~ at_word (bs "else") rest).

Record statement_specs (f : nat) : Prop := {
  block_ok : forall pos rest, stream pos rest -> (5 * length rest + 1 <= f)%nat ->
    wpA (parse_block tokens f) pos (parsed (fun ts r _ => block_at ts r.1 r.2) rest) any_error;
  statements_ok : forall pos rest, stream pos rest -> (5 * length rest + 5 <= f)%nat ->
    wpA (parse_statements tokens f) pos (parsed (fun ts ss _ => statements_at ts ss) rest) any_error;
  statement_ok : forall pos rest, stream pos rest -> (5 * length rest + 4 <= f)%nat ->
    wpA (parse_statement tokens f) pos (parsed closed_statement rest) any_error;
}.

Lemma statement_at_nonempty o ts s : statement_at o ts s -> (1 <= length ts)%nat.
Proof. intros []; simpl; rewrite ?length_app; simpl; lia. Qed.

Section statement_round.
Context (f : nat) (IH : statement_specs f).

Lemma block_round pos rest : stream pos rest -> (5 * length rest + 1 <= S f)%nat ->
  wpA (parse_block tokens (S f)) pos (parsed (fun ts r _ => block_at ts r.1 r.2) rest) any_error.
Proof.
  intros Hs Hf. simpl. act_step. eapply expect_symbol_rule; [done| |by intros].
  intros lb rest1 -> Hlb Hs1. simpl in *. act_step.
  eapply wpA_call; [apply (statements_ok _ IH); [done|lia]|].
  intros ts rest2 ss pos2 -> Hs2 Hss. act_step. eapply expect_symbol_rule; [done| |by intros].
  intros rb rest3 -> Hrb Hs3. act_step.
  replace (lb :: ts ++ rb :: rest3) with ((lb :: ts ++ [rb]) ++ rest3)
    by (simpl; by rewrite <- app_assoc).
  apply parsed_intro; [done|]. by apply at_block.
Qed.

Lemma statements_round pos rest : stream pos rest -> (5 * length rest + 5 <= S f)%nat ->
  wpA (parse_statements tokens (S f)) pos (parsed (fun ts ss _ => statements_at ts ss) rest) any_error.
Proof.
  intros Hs Hf. simpl. act_step.
  assert (parsed (fun ts ss _ => statements_at ts ss) rest [] pos) as Hstop.
  { apply (parsed_intro _ [] rest); [done|]. constructor. }
  assert (wpA (st ← parse_statement tokens f; rest ← parse_statements tokens f; mret (st :: rest)) pos
    (parsed (fun ts ss _ => statements_at ts ss) rest) any_error) as Hgo.
  { act_step. eapply wpA_call; [apply (statement_ok _ IH); [done|lia]|].
    intros ts rest1 s pos1 -> Hs1 (o & Hst & Ho). rewrite length_app in Hf.
    pose proof (statement_at_nonempty _ _ _ Hst).
    act_step. eapply wpA_call; [apply (statements_ok _ IH); [done|lia]|].
    intros ts2 rest2 ss pos2 -> Hs2 Hss. act_step. rewrite app_assoc. apply parsed_intro; [done|].
    apply at_statement with o; [done| |done]. intros ->. destruct ts2; [by intros []|exact (Ho eq_refl)]. }
  eapply at_symbol_rule; [done|intros _|intros _]; act_step;
    (eapply is_eof_rule; [done|intros _|intros _]); simpl; first [exact Hgo | exact Hstop].
Qed.

Lemma let_round pos rest : stream pos rest -> (5 * length rest + 3 <= f)%nat ->
  wpA (start ← expect_keyword tokens (bs "let");
       name ← expect_ident tokens;
       expect_symbol tokens Sym.Colon;;
       ty ← parse_type tokens;
       expect_symbol tokens Sym.Eq;;
       value ← parse_expression tokens f 0;
       fin ← expect_symbol tokens Sym.Semicolon;
       mret (SLet name ty value (join_spans start fin))) pos
    (parsed closed_statement rest) any_error.
Proof.
  intros Hs Hf. act_step. eapply expect_keyword_rule; [done| |by intros]. intros kw r1 -> Hkw Hs1.
  act_step. eapply expect_ident_rule; [done| |by intros]. intros t r2 i -> Hi Hs2.
  act_step. eapply expect_symbol_rule; [done| |by intros]. intros colon r3 -> Hcolon Hs3.
  act_step. eapply type_rule; [done| |by intros]. intros tyt r4 w ty -> Hw Hty Hs4.
  act_step. eapply expect_symbol_rule; [done| |by intros]. intros eq r5 -> Heq Hs5. simpl in Hf.
  act_step. eapply wpA_call; [apply (expression_ok _ (expression_sound f)); [done|lia]|].
  intros ts r6 e pos6 -> Hs6 [He _].
  act_step. eapply expect_symbol_rule; [done| |by intros]. intros semi r7 -> Hsemi Hs7. act_step.
  replace (kw :: t :: colon :: tyt :: eq :: ts ++ semi :: r7)
    with ((kw :: t :: colon :: tyt :: eq :: ts ++ [semi]) ++ r7) by (simpl; by rewrite <- app_assoc).
  apply parsed_intro; [done|]. exists false. split; [|done]. by apply at_let with w.
Qed.

Lemma if_round pos rest : stream pos rest -> (5 * length rest + 3 <= f)%nat ->
  wpA (start ← expect_keyword tokens (bs "if");
       condition ← parse_expression tokens f 0;
       '(then_statements, fin) ← parse_block tokens f;
       has_else ← match_keyword tokens (bs "else");
       '(else_statements, fin) ← (if (has_else : bool) then parse_block tokens f else mret ([], fin));
       mret (SIf condition then_statements else_statements
               {| span_start := span_start start; span_end := fin |})) pos
    (parsed closed_statement rest) any_error.
Proof.
  intros Hs Hf. act_step. eapply expect_keyword_rule; [done| |by intros]. intros kw r1 -> Hkw Hs1.
  simpl in Hf. act_step. eapply wpA_call; [apply (expression_ok _ (expression_sound f)); [done|lia]|].
  intros ts r2 c pos2 -> Hs2 [Hc _]. rewrite length_app in Hf.
  act_step. eapply wpA_call; [apply (block_ok _ IH); [done|lia]|].
  intros ts1 r3 [then_statements fin] pos3 -> Hs3 Hb. simpl in Hb. rewrite length_app in Hf.
  act_step. eapply match_keyword_rule; [done| |].
  - intros el r4 -> Hel Hs4. simpl in Hf. act_step.
    eapply wpA_call; [apply (block_ok _ IH); [done|lia]|].
    intros ts2 r5 [else_statements fin'] pos5 -> Hs5 Hb'. simpl in Hb'. act_step.
    replace (kw :: ts ++ ts1 ++ el :: ts2 ++ r5) with ((kw :: ts ++ ts1 ++ el :: ts2) ++ r5)
      by (simpl; by rewrite <- !app_assoc).
    apply parsed_intro; [done|]. exists false. split; [|done]. by eapply at_if_else.
  - intros Hne. act_step. act_step. act_step. rewrite app_assoc, app_comm_cons.
    apply parsed_intro; [done|]. exists true. split; [|done]. by apply at_if.
Qed.

Lemma while_round pos rest : stream pos rest -> (5 * length rest + 3 <= f)%nat ->
  wpA (start ← expect_keyword tokens (bs "while");
       has_budget ← match_keyword tokens (bs "budget");
       if (has_budget : bool) then
         budget ← parse_budget tokens;
         condition ← parse_expression tokens f 0;
         '(statements, fin) ← parse_block tokens f;
         mret (SWhile budget condition statements
                 {| span_start := span_start start; span_end := fin |})
       else error_current tokens "P0007" "while requires literal budget") pos
    (parsed closed_statement rest) any_error.
Proof.
  intros Hs Hf. act_step. eapply expect_keyword_rule; [done| |by intros]. intros kw r1 -> Hkw Hs1.
  act_step. eapply match_keyword_rule; [done| |].
  - intros bu r2 -> Hbu Hs2. act_step. eapply budget_rule; [done| |by intros].
    intros n r3 b -> (raw & Hraw & Hval & Hb0) Hs3. simpl in Hf.
    act_step. eapply wpA_call; [apply (expression_ok _ (expression_sound f)); [done|lia]|].
    intros ts r4 c pos4 -> Hs4 [Hc _]. rewrite length_app in Hf.
    act_step. eapply wpA_call; [apply (block_ok _ IH); [done|lia]|].
    intros ts1 r5 [ss fin] pos5 -> Hs5 Hb. simpl in Hb. act_step.
    replace (kw :: bu :: n :: ts ++ ts1 ++ r5) with ((kw :: bu :: n :: ts ++ ts1) ++ r5)
      by (simpl; by rewrite <- !app_assoc).
    apply parsed_intro; [done|]. exists false. split; [|done]. by apply at_while with raw.
  - intros _. unfold error_current. act_step. by eapply peek_rule.
Qed.

Lemma return_round pos rest : stream pos rest -> at_word (bs "return") rest ->
  wpA (t ← advance tokens;
       fin ← expect_symbol tokens Sym.Semicolon;
       mret (SReturn (join_spans (token_span t) fin))) pos
    (parsed closed_statement rest) any_error.
Proof.
  intros Hs Hw. act_step. eapply advance_rule; [done| |by intros ->]. intros kw r1 -> Hs1.
  act_step. eapply expect_symbol_rule; [done| |by intros]. intros semi r2 -> Hsemi Hs2. act_step.
  apply (parsed_intro _ [kw; semi] r2); [done|]. exists false. split; [|done]. by apply at_return.
Qed.

Lemma expression_statement_round pos rest : stream pos rest -> (5 * length rest + 3 <= f)%nat ->
  ~ starts_with statement_word rest ->
  wpA (e ← parse_expression tokens f 0; expect_symbol tokens Sym.Semicolon;; mret (SExpr e)) pos
    (parsed closed_statement rest) any_error.
Proof.
  intros Hs Hf Hw. act_step.
  eapply wpA_call; [apply (expression_ok _ (expression_sound f)); [done|lia]|].
  intros ts r1 e pos1 -> Hs1 [He _].
  act_step. eapply expect_symbol_rule; [done| |by intros]. intros semi r2 -> Hsemi Hs2. act_step.
  replace (ts ++ semi :: r2) with ((ts ++ [semi]) ++ r2) by (by rewrite <- app_assoc).
  apply parsed_intro; [done|]. exists false. split; [|done]. apply at_expression; [done| |done].
  intros H. by apply Hw, starts_with_app.
Qed.

Lemma statement_round pos rest : stream pos rest -> (5 * length rest + 4 <= S f)%nat ->
  wpA (parse_statement tokens (S f)) pos (parsed closed_statement rest) any_error.
Proof.
  intros Hs Hf. simpl.
  act_step. eapply at_keyword_rule; [done|intros _; apply let_round; [done|lia]|intros Hlet].
  act_step. eapply at_keyword_rule; [done|intros _; apply if_round; [done|lia]|intros Hif].
  act_step. eapply at_keyword_rule; [done|intros _; apply while_round; [done|lia]|intros Hwhile].
  act_step. eapply at_keyword_rule; [done|intros; by apply return_round|intros Hret].
  apply expression_statement_round; [done|lia|]. destruct rest; [done|]. intros Hw.
  unfold statement_word in Hw. simpl in *. naive_solver.
Qed.
End statement_round.

Lemma statement_sound f : statement_specs f.
Proof.
  induction f as [|f IH]; [split; intros; lia|].
  split; intros.
  - by apply block_round.
  - by apply statements_round.
  - by apply statement_round.
Qed.

(** ** Completeness of statements *)

Definition statement_complete (o : bool) (ts : list Token) (s : Statement) : Prop :=
  forall f pos rest,
    stream pos (ts ++ rest) -> (5 * length (ts ++ rest) + 4 <= f)%nat ->
    (o = true -> ~ at_word (bs "else") rest) -> returns (parse_statement tokens f) pos s rest.

Definition statements_complete (ts : list Token) (ss : list Statement) : Prop :=
  forall f pos rest,
    stream pos (ts ++ rest) -> (5 * length (ts ++ rest) + 5 <= f)%nat ->
    at_start Sym.RBrace rest -> returns (parse_statements tokens f) pos ss rest.

Definition block_complete (ts : list Token) (ss : list Statement) (fin : Z) : Prop :=
  forall f pos rest,
    stream pos (ts ++ rest) -> (5 * length (ts ++ rest) + 1 <= f)%nat ->
    returns (parse_block tokens f) pos (ss, fin) rest.

Lemma returns_type pos t w ty rest :
  stream pos (t :: rest) -> is_word t w -> type_word w ty -> returns (parse_type tokens) pos ty rest.
Proof.
  intros Hs Hw Hty. eapply type_rule; [done| |].
  - intros ? ? w' ty' [= <- <-] Hw' Hty' ?. split; [|done].
    assert (w' = w) as -> by (unfold is_word in *; congruence). by eapply type_word_inj.
  - intros Hn. destruct Hn. by exists w, ty.
Qed.

Lemma returns_budget pos t b rest :
  stream pos (t :: rest) -> budget_at t b -> returns (parse_budget tokens) pos b rest.
Proof.
  intros Hs Hb. eapply budget_rule; [done| |].
  - intros ? ? b' [= <- <-] Hb' ?. split; [|done]. by eapply budget_at_inj.
  - intros Hn. destruct Hn. by exists b.
Qed.

(** An expression that is followed by a semicolon or a block. *)
Lemma returns_expression ts e t s f pos rest :
  expr_at 0 ts e -> is_symbol t s -> s = Sym.Semicolon \/ s = Sym.LBrace ->
  stream pos (ts ++ t :: rest) -> (5 * length (ts ++ t :: rest) + 3 <= f)%nat ->
  returns (parse_expression tokens f 0) pos e (t :: rest).
Proof.
  intros He Ht Hs Hstr Hf. eapply expression_complete_whole; [by apply expressions_complete|done..| |].
  - eapply no_operator_symbol; [done|]. eapply operator_of_symbol; [done|]. naive_solver.
  - simpl. unfold is_symbol in *. rewrite Ht. destruct Hs as [-> | ->]; discriminate.
Qed.

Lemma returns_condition ts e ts1 ss fin f pos rest :
  expr_at 0 ts e -> block_at ts1 ss fin ->
  stream pos (ts ++ ts1 ++ rest) -> (5 * length (ts ++ ts1 ++ rest) + 3 <= f)%nat ->
  returns (parse_expression tokens f 0) pos e (ts1 ++ rest).
Proof.
  intros He Hb Hs Hf. destruct Hb as [lb ts1 ss rb Hlb _ _]. simpl in *.
  eapply returns_expression; eauto.
Qed.

(** Whether the next word is [w], when the next token is a known word. *)
Lemma returns_other_keyword pos t w w' rest :
  stream pos (t :: rest) -> is_word t w -> w <> w' -> returns (at_keyword tokens w') pos false (t :: rest).
Proof.
  intros Hs Hw Hne. apply (returns_at_keyword _ _ false); [done|]. simpl. unfold is_word in *.
  split; [done|congruence].
Qed.

Lemma returns_this_keyword pos t w rest :
  stream pos (t :: rest) -> is_word t w -> returns (at_keyword tokens w) pos true (t :: rest).
Proof. intros Hs Hw. by apply (returns_at_keyword _ _ true). Qed.

Ltac ret_step := eapply returns_bind; [
  first [ by eapply returns_this_keyword | by (eapply returns_other_keyword; [done..|discriminate])
        | by eapply returns_expect_keyword | by eapply returns_expect_ident
        | by eapply returns_expect_symbol | by eapply returns_type | by eapply returns_budget
        | by eapply returns_match_keyword | by eapply returns_match_symbol
        | by eapply returns_advance ] |
  let p := fresh "pos" in let H := fresh "Hs" in intros p H; cbv beta iota ].

Ltac unassoc := repeat (progress (rewrite <- ?app_assoc in *; simpl in * )).

Lemma let_complete kw name i colon tyt w ty eq ts e semi :
  is_word kw (bs "let") -> ident_of name i -> is_symbol colon Sym.Colon ->
  is_word tyt w -> type_word w ty -> is_symbol eq Sym.Eq -> expr_at 0 ts e ->
  is_symbol semi Sym.Semicolon ->
  statement_complete false (kw :: name :: colon :: tyt :: eq :: ts ++ [semi])
    (SLet i ty e (join_spans (token_span kw) (token_span semi))).
Proof.
  intros Hkw Hi Hc Hw Hty Heq He Hsemi f pos rest Hs Hf _. unassoc. destruct f as [|f]; [lia|].
  simpl. unfold returns. repeat ret_step.
  eapply returns_bind; [eapply returns_expression; eauto; lia|]. intros ? ?.
  ret_step. by act_step.
Qed.

Lemma if_complete kw ts c ts1 then_statements fin :
  is_word kw (bs "if") -> expr_at 0 ts c -> block_at ts1 then_statements fin ->
  block_complete ts1 then_statements fin ->
  statement_complete true (kw :: ts ++ ts1)
    (SIf c then_statements [] {| span_start := span_start (token_span kw); span_end := fin |}).
Proof.
  intros Hkw Hc Hb HC f pos rest Hs Hf Hne. unassoc. destruct f as [|f]; [lia|]. simpl. unfold returns.
  repeat ret_step. eapply returns_bind; [eapply returns_condition; eauto; lia|]. intros ? ?.
  rewrite length_app in Hf.
  eapply returns_bind; [apply HC; [done|lia]|]. intros ? ?. cbv beta iota.
  eapply returns_bind; [apply returns_no_match_keyword; [done|by apply Hne]|]. intros ? ?. cbv beta iota.
  act_step. act_step. by act_step.
Qed.

Lemma if_else_complete kw ts c ts1 then_statements fin1 el ts2 else_statements fin :
  is_word kw (bs "if") -> expr_at 0 ts c -> block_at ts1 then_statements fin1 ->
  block_complete ts1 then_statements fin1 ->
  is_word el (bs "else") -> block_complete ts2 else_statements fin ->
  statement_complete false (kw :: ts ++ ts1 ++ el :: ts2)
    (SIf c then_statements else_statements
       {| span_start := span_start (token_span kw); span_end := fin |}).
Proof.
  intros Hkw Hc Hb HC Hel HC' f pos rest Hs Hf _. unassoc. destruct f as [|f]; [lia|].
  simpl. unfold returns.
  repeat ret_step. eapply returns_bind; [eapply returns_condition; eauto; lia|]. intros ? ?.
  rewrite length_app in Hf.
  eapply returns_bind; [apply HC; [done|lia]|]. intros ? ?. cbv beta iota. ret_step.
  rewrite length_app in Hf. simpl in Hf.
  eapply returns_bind; [apply HC'; [done|lia]|]. intros ? ?. cbv beta iota. by act_step.
Qed.

Lemma while_complete kw bu n b ts c ts1 ss fin :
  is_word kw (bs "while") -> is_word bu (bs "budget") -> budget_at n b ->
  expr_at 0 ts c -> block_at ts1 ss fin -> block_complete ts1 ss fin ->
  statement_complete false (kw :: bu :: n :: ts ++ ts1)
    (SWhile b c ss {| span_start := span_start (token_span kw); span_end := fin |}).
Proof.
  intros Hkw Hbu Hn Hc Hb HC f pos rest Hs Hf _. unassoc. destruct f as [|f]; [lia|].
  simpl. unfold returns. repeat ret_step.
  eapply returns_bind; [eapply returns_condition; eauto; lia|]. intros ? ?.
  rewrite length_app in Hf.
  eapply returns_bind; [apply HC; [done|lia]|]. intros ? ?. cbv beta iota. by act_step.
Qed.

Lemma expression_statement_complete ts e semi :
  expr_at 0 ts e -> ~ starts_with statement_word ts -> is_symbol semi Sym.Semicolon ->
  statement_complete false (ts ++ [semi]) (SExpr e).
Proof.
  intros He Hw Hsemi f pos rest Hs Hf _. unassoc. destruct f as [|f]; [lia|]. simpl. unfold returns.
  pose proof (expr_at_starts _ _ _ He) as Hst.
  assert (forall w pos', stream pos' (ts ++ semi :: rest) ->
    w = bs "let" \/ w = bs "if" \/ w = bs "while" \/ w = bs "return" ->
    returns (at_keyword tokens w) pos' false (ts ++ semi :: rest)) as Hkw.
  { intros w pos' Hs' Hw'. apply (returns_at_keyword _ _ false); [done|]. split; [done|].
    intros Ha. destruct Hw. destruct ts as [|t ts]; [done|]. simpl in *. unfold statement_word.
    destruct Hw' as [-> | [-> | [-> | ->]]]; tauto. }
  do 4 (eapply returns_bind; [apply Hkw; tauto|]; intros ? ?; cbv beta iota).
  eapply returns_bind; [eapply returns_expression; eauto; lia|]. intros ? ?. ret_step. by act_step.
Qed.

Lemma statement_not_close o ts s rest :
  statement_at o ts s -> ~ at_start Sym.RBrace (ts ++ rest).
Proof.
  intros []; simpl; unfold is_symbol, is_word in *; try congruence.
  rewrite <- app_assoc. apply starts_not_at; [by eapply expr_at_starts|done..].
Qed.

Lemma statements_cons_complete o ts1 s ts2 ss :
  statement_at o ts1 s -> statement_complete o ts1 s ->
  (o = true -> ~ starts_with (fun t => is_word t (bs "else")) ts2) ->
  statements_complete ts2 ss -> statements_complete (ts1 ++ ts2) (s :: ss).
Proof.
  intros Hst HC Ho HC' f pos rest Hs Hf Hr. unassoc. destruct f as [|f]; [lia|]. simpl. unfold returns.
  pose proof (statement_at_nonempty _ _ _ Hst) as Hne.
  eapply returns_bind; [apply (returns_at_symbol _ _ false); [done|]|].
  { split; [done|]. intros Ha. by eapply statement_not_close in Ha. }
  intros pos1 Hs1. destruct ts1 as [|t ts1]; [simpl in Hne; lia|].
  eapply returns_bind; [apply returns_is_eof; exact Hs1|]. intros pos2 Hs2. cbv beta iota. simpl orb.
  eapply returns_bind; [apply HC; [done|simpl in *; lia|]|].
  { intros ->. specialize (Ho eq_refl). destruct ts2 as [|u ts2]; [|exact Ho].
    destruct rest as [|r rest]; [done|]. simpl in *. unfold is_word, is_symbol in *. congruence. }
  intros pos3 Hs3. simpl in Hf. rewrite length_app in Hf.
  eapply returns_bind; [apply HC'; [done|lia|done]|]. intros. by act_step.
Qed.

Lemma no_statements_complete : statements_complete [] [].
Proof.
  intros f pos rest Hs Hf Hr. destruct f as [|f]; [lia|]. simpl in *. unfold returns.
  eapply returns_bind; [by apply (returns_at_symbol _ _ true)|]. intros pos1 Hs1.
  destruct rest as [|rb rest]; [done|].
  eapply returns_bind; [by apply returns_is_eof|]. intros pos2 Hs2. by apply wpA_ret.
Qed.

Lemma braces_complete lb ts ss rb :
  is_symbol lb Sym.LBrace -> statements_complete ts ss -> is_symbol rb Sym.RBrace ->
  block_complete (lb :: ts ++ [rb]) ss (span_end (token_span rb)).
Proof.
  intros Hlb HC Hrb f pos rest Hs Hf. unassoc. destruct f as [|f]; [lia|]. simpl. unfold returns.
  ret_step. eapply returns_bind; [apply (HC f _ (rb :: rest)); [done|lia|done]|]. intros ? ?. ret_step. by act_step.
Qed.

Lemma return_complete kw semi :
  is_word kw (bs "return") -> is_symbol semi Sym.Semicolon ->
  statement_complete false [kw; semi] (SReturn (join_spans (token_span kw) (token_span semi))).
Proof.
  intros Hkw Hsemi f pos rest Hs Hf _. unassoc. destruct f as [|f]; [lia|].
  simpl. unfold returns. repeat ret_step. by act_step.
Qed.

Lemma all_statements_complete :
  (forall o ts s, statement_at o ts s -> statement_complete o ts s) /\
  (forall ts ss, statements_at ts ss -> statements_complete ts ss) /\
  (forall ts ss fin, block_at ts ss fin -> block_complete ts ss fin).
Proof.
  apply statements_at_block_ind; intros.
  - by eapply let_complete.
  - by apply if_complete.
  - by eapply if_else_complete.
  - apply while_complete; try done. by exists raw.
  - by apply return_complete.
  - by apply expression_statement_complete.
  - by apply no_statements_complete.
  - by apply statements_cons_complete with o.
  - by apply braces_complete.
Qed.

(** ** Imports *)

Lemma rights_sound f ts0 w0 pos rest :
  stream pos rest -> (length rest + 1 <= f)%nat -> rights_at ts0 w0 ->
  wpA (parse_rights tokens f w0) pos (parsed (fun ts w _ => rights_at (ts0 ++ ts) w) rest) any_error.
Proof.
  revert ts0 w0 pos rest. induction f as [|f IH]; intros ts0 w0 pos rest Hs Hf Hr; [lia|]. simpl.
  act_step. eapply match_symbol_rule; [done| |].
  - intros bar r1 -> Hbar Hs1. act_step. eapply expect_ident_rule; [done| |by intros].
    intros t r2 i -> [Hi _] Hs2. simpl in Hf.
    eapply wpA_call; [apply (IH (ts0 ++ [bar; t])); [done|lia|by apply at_more_rights]|].
    intros ts r3 w pos3 -> Hs3 Hw. rewrite <- app_assoc in Hw.
    apply (parsed_intro _ (bar :: t :: ts) r3); [done|]. done.
  - intros _. act_step. apply (parsed_intro _ [] rest); [done|]. by rewrite app_nil_r.
Qed.

Lemma import_sound f imps pos rest :
  stream pos rest -> (length rest <= f)%nat ->
  wpA (parse_import tokens f imps) pos
    (parsed (fun ts i _ => import_at ts i /\ ident_text (import_name i) ∉ import_names imps) rest) any_error.
Proof.
  intros Hs Hf. unfold parse_import.
  act_step. eapply expect_keyword_rule; [done| |by intros]. intros kw r1 -> Hkw Hs1.
  act_step. eapply expect_ident_rule; [done| |by intros]. intros t r2 i -> Hi Hs2.
  case_bool_decide as Hdup; [done|].
  act_step. eapply expect_symbol_rule; [done| |by intros]. intros colon r3 -> Hcolon Hs3.
  act_step. eapply expect_keyword_rule; [done| |by intros]. intros cap r4 -> Hcap Hs4.
  act_step. eapply expect_symbol_rule; [done| |by intros]. intros lt r5 -> Hlt Hs5.
  act_step. eapply expect_ident_rule; [done| |by intros]. intros res r6 j -> [Hj _] Hs6.
  act_step. eapply expect_symbol_rule; [done| |by intros]. intros comma r7 -> Hcomma Hs7.
  act_step. eapply expect_ident_rule; [done| |by intros]. intros first r8 k -> [Hk _] Hs8. simpl in Hf.
  act_step. eapply wpA_call; [apply (rights_sound f [first]); [done|lia|by apply at_right]|].
  intros ts r9 w pos9 -> Hs9 Hw.
  act_step. eapply expect_symbol_rule; [done| |by intros]. intros gt r10 -> Hgt Hs10.
  act_step. eapply expect_symbol_rule; [done| |by intros]. intros semi r11 -> Hsemi Hs11. act_step.
  replace (kw :: t :: colon :: cap :: lt :: res :: comma :: first :: ts ++ gt :: semi :: r11)
    with ((kw :: t :: colon :: cap :: lt :: res :: comma :: ([first] ++ ts) ++ [gt; semi]) ++ r11)
    by (simpl; by rewrite <- app_assoc).
  apply parsed_intro; [done|]. split; [|done]. by apply at_import.
Qed.

Lemma import_at_length ts i : import_at ts i -> (2 <= length ts)%nat.
Proof. intros []. simpl. lia. Qed.

Lemma imports_sound f ts0 imps pos rest :
  stream pos rest -> (length rest + 1 <= f)%nat -> imports_at ts0 imps ->
  wpA (parse_imports tokens f imps) pos (parsed (fun ts is' _ => imports_at (ts0 ++ ts) is') rest) any_error.
Proof.
  revert ts0 imps pos rest. induction f as [|f IH]; intros ts0 imps pos rest Hs Hf Hr; [lia|]. simpl.
  act_step. eapply at_keyword_rule; [done|intros _|intros _].
  - act_step. eapply wpA_call; [apply import_sound; [done|lia]|].
    intros ts r1 i pos1 -> Hs1 [Hi Hn]. rewrite length_app in Hf. pose proof (import_at_length _ _ Hi).
    eapply wpA_call; [apply (IH (ts0 ++ ts)); [done|lia|by apply at_imports]|].
    intros ts' r2 is' pos2 -> Hs2 Hi'. rewrite app_assoc. apply parsed_intro; [done|].
    by rewrite <- app_assoc in Hi'.
  - act_step. apply (parsed_intro _ [] rest); [done|]. by rewrite app_nil_r.
Qed.

Lemma rights_complete ts w :
  rights_at ts w -> exists t ts' w0, ts = t :: ts' /\ is_word t w0 /\
    forall f pos rest Q R, stream pos (ts' ++ rest) -> (length (ts' ++ rest) + 1 <= f)%nat ->
      (forall f' pos', stream pos' rest -> (length rest + 1 <= f')%nat ->
         wpA (parse_rights tokens f' w) pos' Q R) ->
      wpA (parse_rights tokens f w0) pos Q R.
Proof.
  induction 1 as [t w Hw|ts w bar u v _ (t & ts' & w0 & -> & Ht & IH) Hbar Hu].
  - exists t, [], w. auto.
  - exists t, (ts' ++ [bar; u]), w0. split_and!; [done|done|]. intros f pos rest Q R Hs Hf Hk.
    rewrite <- app_assoc in Hs, Hf. eapply IH; [done..|]. intros f' pos' Hs' Hf'. simpl in *.
    destruct f' as [|f']; [lia|]. simpl. ret_step.
    eapply returns_bind; [eapply (returns_expect_ident _ _ {| ident_text := v; ident_span := token_span u |}); [done|by split]|].
    intros pos2 Hs2. apply Hk; [done|lia].
Qed.

Lemma import_complete ts i imps f pos rest :
  import_at ts i -> ident_text (import_name i) ∉ import_names imps ->
  stream pos (ts ++ rest) -> (length (ts ++ rest) <= f)%nat ->
  returns (parse_import tokens f imps) pos i rest.
Proof.
  intros [kw t i' colon cap lt res rw comma rts r gt semi Hkw Hi Hcolon Hcap Hlt Hres Hcomma Hr Hgt Hsemi]
    Hn Hs Hf. simpl in Hn. unassoc. unfold returns, parse_import. do 2 ret_step.
  rewrite bool_decide_false by done. do 3 ret_step.
  eapply returns_bind; [eapply (returns_expect_ident _ _ {| ident_text := rw; ident_span := token_span res |}); [done|by split]|].
  intros ? ?. ret_step.
  destruct (rights_complete _ _ Hr) as (first & ts' & w0 & -> & Hfirst & HC). simpl in *.
  eapply returns_bind; [eapply (returns_expect_ident _ _ {| ident_text := w0; ident_span := token_span first |}); [done|by split]|].
  intros posf Hsf. act_step. eapply (HC f posf); [done|lia|]. intros f' posg Hsg Hf'.
  destruct f' as [|f']; [lia|]. simpl.
  eapply returns_bind; [apply returns_no_match_symbol; [done|]|].
  { simpl. unfold is_symbol in *. congruence. }
  intros ? ?. cbv beta iota. act_step. do 2 ret_step. by act_step.
Qed.

Lemma imports_complete ts imps :
  imports_at ts imps ->
  forall f pos rest Q R, stream pos (ts ++ rest) -> (length (ts ++ rest) + 1 <= f)%nat ->
    (forall f' pos', stream pos' rest -> (length rest + 1 <= f')%nat ->
       wpA (parse_imports tokens f' imps) pos' Q R) ->
    wpA (parse_imports tokens f []) pos Q R.
Proof.
  induction 1 as [|ts imps ts' i _ IH Hi Hn]; [auto|]. intros f pos rest Q R Hs Hf Hk.
  rewrite <- app_assoc in Hs, Hf. eapply IH; [done..|]. intros f' pos' Hs' Hf'.
  destruct f' as [|f']; [lia|]. simpl.
  eapply returns_bind; [apply (returns_at_keyword _ _ true); [done|]|].
  { split; [|done]. intros _. by destruct Hi. }
  intros pos1 Hs1. cbv beta iota.
  eapply returns_bind; [apply (import_complete ts' i imps f' _ rest); [done..|lia]|]. intros pos2 Hs2.
  apply Hk; [done|]. rewrite length_app in Hf'. pose proof (import_at_length _ _ Hi). lia.
Qed.

(** ** The program *)

Lemma function_sound f seen pos rest :
  stream pos rest -> (5 * length rest <= f)%nat ->
  wpA (parse_function_after_fn tokens f seen) pos
    (parsed (fun ts fn _ => seen = false /\ function_at ts fn) rest) any_error.
Proof.
  intros Hs Hf. unfold parse_function_after_fn.
  act_step. eapply expect_keyword_rule; [done| |by intros]. intros kw r1 -> Hkw Hs1.
  act_step. eapply expect_ident_rule; [done| |by intros]. intros t r2 i -> [Hi _] Hs2.
  case_bool_decide as Hmain; simpl; [|done]. destruct seen; [done|]. rewrite Hmain in Hi.
  act_step. eapply expect_symbol_rule; [done| |by intros]. intros lp r3 -> Hlp Hs3.
  act_step. eapply expect_symbol_rule; [done| |by intros]. intros rp r4 -> Hrp Hs4.
  act_step. eapply expect_symbol_rule; [done| |by intros]. intros arrow r5 -> Harrow Hs5.
  act_step. eapply expect_keyword_rule; [done| |by intros]. intros u r6 -> Hu Hs6. simpl in Hf.
  act_step. eapply wpA_call; [apply (block_ok _ (statement_sound f)); [done|lia]|].
  intros ts r7 [ss fin] pos7 -> Hs7 Hb. simpl in Hb. act_step.
  rewrite !app_comm_cons. apply parsed_intro; [done|]. split; [done|]. by apply at_function.
Qed.

Lemma functions_stop f m pos rest :
  stream pos rest -> (5 * length rest + 1 <= f)%nat ->
  wpA (parse_functions tokens f (Some m)) pos
    (parsed (fun ts r _ => ts = [] /\ r = Some m) rest) any_error.
Proof.
  intros Hs Hf. destruct f as [|f]; [lia|]. simpl.
  assert (parsed (fun ts r _ => ts = [] /\ r = Some m) rest (Some m) pos) as Hstop
    by (by apply (parsed_intro _ [] rest)).
  act_step. eapply at_symbol_rule; [done|intros _|intros _]; act_step;
    (eapply is_eof_rule; [done|intros _|intros _]); simpl; try exact Hstop.
  act_step. eapply at_keyword_rule; [done|intros _|intros _].
  - act_step. eapply wpA_call; [apply function_sound; [done|lia]|]. by intros ? ? ? ? _ _ [? _].
  - unfold error_current. act_step. by eapply peek_rule.
Qed.

Lemma functions_sound f pos rest :
  stream pos rest -> (5 * length rest + 1 <= f)%nat ->
  wpA (parse_functions tokens f None) pos
    (parsed (fun ts r _ => (ts = [] /\ r = None) \/ exists fn, r = Some fn /\ function_at ts fn) rest)
    any_error.
Proof.
  intros Hs Hf. destruct f as [|f]; [lia|]. simpl.
  match goal with |- wpA _ _ ?Q _ => assert (Q None pos) as Hstop
    by (apply (parsed_intro _ [] rest); [done|by left]) end.
  act_step. eapply at_symbol_rule; [done|intros _|intros _]; act_step;
    (eapply is_eof_rule; [done|intros _|intros _]); simpl; try exact Hstop.
  act_step. eapply at_keyword_rule; [done|intros _|intros _].
  - act_step. eapply wpA_call; [apply function_sound; [done|lia]|].
    intros ts r1 fn pos1 -> Hs1 [_ Hfn]. rewrite length_app in Hf.
    assert (1 <= length ts)%nat by (destruct Hfn; simpl; lia).
    eapply wpA_call; [apply functions_stop; [done|lia]|]. intros ts' r2 r pos2 -> Hs2 [-> ->].
    apply parsed_intro; [done|]. right. eauto.
  - unfold error_current. act_step. by eapply peek_rule.
Qed.

Lemma principal_rule pos rest (Q : Z -> Z -> Prop) (R : Diagnostic -> Z -> Prop) :
  stream pos rest ->
  (forall t rest' raw v, rest = t :: rest' -> token_kind t = THex raw -> principal_value raw v ->
     stream (pos + 1) rest' -> Q v (pos + 1)) ->
  (~ starts_with (fun t => exists raw v, token_kind t = THex raw /\ principal_value raw v) rest ->
     forall d pos', R d pos') ->
  wpA (parse_principal tokens) pos Q R.
Proof.
  intros Hs H1 H2. unfold parse_principal. act_step. eapply advance_rule; [done| |].
  - intros t rest' -> Hs'. unfold principal_value in *. simpl in *.
    destruct (token_kind t) as [|raw| | | |] eqn:Hk;
      try (apply H2; intros (raw' & v' & H & _); discriminate H).
    destruct (trim_start_matches _ _ _) as [|d ds] eqn:Hd.
    { apply H2. intros (raw' & v' & [= <-] & Hne & _). congruence. }
    destruct (from_str_radix 16 _) as [v|] eqn:Hv; [|apply H2].
    + act_step. eapply H1; eauto. rewrite Hd. done.
    + intros (raw' & v' & [= <-] & _ & Hv'). congruence.
  - intros ->. rewrite Heof. apply H2. auto.
Qed.

Lemma expect_eof_rule pos rest (Q : unit -> Z -> Prop) (R : Diagnostic -> Z -> Prop) :
  stream pos rest -> (rest = [] -> Q tt pos) -> (rest <> [] -> forall d pos', R d pos') ->
  wpA (expect_eof tokens) pos Q R.
Proof.
  intros Hs H1 H2. unfold expect_eof. act_step. eapply is_eof_rule; [done|intros Hr|intros Hr].
  - act_step. auto.
  - unfold error_current. act_step. eapply peek_rule; [done|]. by apply H2.
Qed.

Lemma stream_start : stream 0 body.
Proof. by exists []. Qed.

Lemma parse_program_sound :
  wpA (parse_program_tokens tokens (parse_fuel tokens)) 0
    (fun p _ => program_at body p) any_error.
Proof.
  pose proof stream_start as Hs. unfold parse_fuel. rewrite length_app. simpl length.
  set (f := (5 * S (length body + 1))%nat). assert (Hf : (5 * length body + 10 <= f)%nat) by lia.
  clearbody f. unfold parse_program_tokens.
  act_step. eapply expect_keyword_rule; [done| |by intros]. intros kw r1 Hb1 Hkw Hs1.
  act_step. eapply expect_ident_rule; [done| |by intros]. intros t r2 i Hb2 Hi Hs2.
  act_step. eapply expect_keyword_rule; [done| |by intros]. intros pr r3 Hb3 Hpr Hs3.
  act_step. eapply principal_rule; [done| |by intros]. intros hex r4 raw v Hb4 Hhex Hv Hs4.
  act_step. eapply expect_symbol_rule; [done| |by intros]. intros lb r5 Hb5 Hlb Hs5. subst r1 r2 r3 r4.
  rewrite Hb1 in Hf. simpl in Hf.
  act_step. eapply wpA_call; [apply (imports_sound f []); [done|lia|constructor]|].
  intros ts r6 imps pos6 -> Hs6 Himps. rewrite length_app in Hf.
  act_step. eapply wpA_call; [apply functions_sound; [done|lia]|].
  intros fts r7 m pos7 -> Hs7 [[-> ->]|(fn & -> & Hfn)].
  { unfold error_current. act_step. by eapply peek_rule. }
  act_step. eapply expect_symbol_rule; [done| |by intros]. intros rb r8 -> Hrb Hs8.
  act_step. eapply expect_eof_rule; [done| |by intros]. intros ->. act_step. rewrite Hb1.
  by apply at_program with raw.
Qed.

Lemma returns_principal pos t raw v rest :
  stream pos (t :: rest) -> token_kind t = THex raw -> principal_value raw v ->
  returns (parse_principal tokens) pos v rest.
Proof.
  intros Hs Hk Hv. eapply principal_rule; [done| |].
  - intros ? ? raw' v' [= <- <-] Hk' Hv' ?. split; [|done].
    destruct Hv as [_ Hv], Hv' as [_ Hv']. congruence.
  - intros Hn. destruct Hn. by exists raw, v.
Qed.

Lemma function_complete ts fn f pos rest :
  function_at ts fn -> stream pos (ts ++ rest) -> (5 * length (ts ++ rest) <= f)%nat ->
  returns (parse_function_after_fn tokens f false) pos fn rest.
Proof.
  intros [kw name lp rp arrow u bts ss fin Hkw Hname Hlp Hrp Harrow Hu Hb] Hs Hf. unassoc.
  unfold returns, parse_function_after_fn. ret_step.
  eapply returns_bind; [eapply (returns_expect_ident _ _ {| ident_text := bs "main"; ident_span := token_span name |}); [done|by split]|].
  intros ? ?. simpl. do 4 ret_step.
  eapply returns_bind; [eapply (proj2 (proj2 all_statements_complete)); [done..|lia]|]. intros ? ?. cbv beta iota.
  by act_step.
Qed.

Lemma functions_complete ts fn f pos rb rest :
  function_at ts fn -> is_symbol rb Sym.RBrace -> stream pos (ts ++ rb :: rest) ->
  (5 * length (ts ++ rb :: rest) + 1 <= f)%nat ->
  returns (parse_functions tokens f None) pos (Some fn) (rb :: rest).
Proof.
  intros Hfn Hrb Hs Hf. destruct f as [|f]; [lia|]. simpl. unfold returns.
  assert (exists kw ts', ts = kw :: ts' /\ is_word kw (bs "fn")) as (kw & ts' & -> & Hkw)
    by (destruct Hfn; eauto).
  eapply returns_bind; [apply (returns_at_symbol _ _ false); [done|]|].
  { simpl. unfold is_symbol, is_word in *. split; [done|congruence]. }
  intros ? ?. eapply returns_bind; [by apply returns_is_eof|]. intros ? ?. cbv beta iota. simpl orb.
  cbv iota. ret_step. eapply returns_bind; [apply (function_complete (kw :: ts') fn); [done..|lia]|].
  intros ? ?. rewrite length_app in Hf. simpl in Hf. destruct f as [|f]; [lia|]. simpl.
  eapply returns_bind; [by apply (returns_at_symbol _ _ true)|]. intros ? ?.
  eapply returns_bind; [by apply returns_is_eof|]. intros ? ?. by apply wpA_ret.
Qed.

Lemma parse_program_complete p :
  program_at body p ->
  wpA (parse_program_tokens tokens (parse_fuel tokens)) 0 (fun p' _ => p' = p) (fun _ _ => False).
Proof.
  intros Hp. pose proof stream_start as Hs. unfold parse_fuel. rewrite length_app. simpl length.
  set (f := (5 * S (length body + 1))%nat). assert (Hf : (5 * length body + 10 <= f)%nat) by lia.
  clearbody f.
  remember body as bd eqn:Hb in Hp.
  destruct Hp as [kw name i pr hex raw v lb ts imps fts fn rb Hkw Hi Hpr Hhex Hv Hlb Himps Hfn Hrb].
  rewrite <- Hb in Hs, Hf. clear Hb. unfold parse_program_tokens. simpl length in Hf.
  do 3 ret_step.
  eapply returns_bind; [by eapply returns_principal|]. intros ? ?. ret_step. act_step.
  eapply (imports_complete ts imps); [done..|lia|]. intros f' posm Hsm Hf'. destruct f' as [|f']; [lia|].
  simpl. eapply returns_bind; [apply (returns_at_keyword _ _ false); [done|]|].
  { split; [done|]. intros Hw. destruct Hfn as [kw' ? ? ? ? ? ? ? ? Hkw']. simpl in Hw.
    unfold is_word in *. rewrite Hkw' in Hw. discriminate. }
  intros ? ?. cbv beta iota. act_step. rewrite length_app in Hf.
  eapply returns_bind; [eapply (functions_complete fts fn); [done..|lia]|]. intros ? ?. cbv beta iota.
  ret_step. act_step. eapply expect_eof_rule; [done| |done]. intros _. by act_step.
Qed.
End stream.

(** ** The theorem *)

Lemma parse_program_exact body eof :
  token_kind eof = TEof -> Forall (fun t => token_kind t <> TEof) body ->
  (forall p, parse_program (body ++ [eof]) = Ok p <-> program_at body p) /\
  match parse_program (body ++ [eof]) with Ok _ | Err _ => True | _ => False end.
Proof.
  intros Heof Hbody. pose proof (parse_program_sound body eof Heof Hbody) as Hsound.
  pose proof (parse_program_complete body eof Heof Hbody) as Hcomplete.
  unfold parse_program, wpA in *. destruct (parse_program_tokens _ _ 0) as [[p0|d| |] pos]; simpl; try done.
  - split; [|done]. intros p. split; [by intros [= <-]|]. intros Hp. by rewrite (Hcomplete p Hp).
  - split; [|done]. intros p. split; [done|]. intros Hp. destruct (Hcomplete p Hp).
Qed.

(** Every token of a lexed text but the last is a real token. *)
Lemma tokens_between_kinds s a ts b :
  tokens_between s a ts b -> Forall (fun t => token_kind t <> TEof) ts.
Proof.
  induction 1 as [|p ts q b' _ _ _ IH|p l k ts q _ _ Hk _ _ IH]; [constructor|done|].
  constructor; [|done]. intros E. simpl in E. by subst k.
Qed.

(** C5: [parse_source] is a decision procedure for the language. On every
    well-formed UTF-8 text the lexer and the parser together stop without a
    panic, and they return a syntax tree exactly when the text is a sequence of
    maximal tokens that the grammar derives, with that tree: operators of five
    levels associating to the left, an [else] belonging to the [if] it follows,
    one [main], import names without repetition, 64-bit principals and
    non-zero budgets. *)
Theorem parse_source_exact source :
  from_utf8 source = true ->
  (forall p, parse_source source = Ok p <->
     exists ts, tokens_between source 0 ts (len source) /\ program_at ts p) /\
  match parse_source source with Ok _ | Err _ => True | _ => False end.
Proof.
  intros Hu. destruct (lex_exact source Hu) as [Hex Htot]. unfold parse_source.
  destruct (lex source) as [toks|d| |] eqn:Hlex; csimpl; try done.
  - destruct (proj1 (Hex toks) eq_refl) as (ts & -> & Hts).
    destruct (parse_program_exact ts (token TEof (len source) (len source))) as [Hp Hd];
      [done|by eapply tokens_between_kinds|].
    split; [|done]. intros p. rewrite Hp. split; [eauto|]. intros (ts' & Hts' & Hp').
    assert (ts = ts') as ->; [|done].
    destruct (Hex (ts' ++ [token TEof (len source) (len source)])) as [_ H].
    specialize (H ltac:(eauto)). injection H as H. by apply app_inv_tail in H.
  - split; [|done]. intros p. split; [done|]. intros (ts & Hts & _).
    destruct (Hex (ts ++ [token TEof (len source) (len source)])) as [_ H].
    specialize (H ltac:(eauto)). discriminate.
Qed.
