(* ===== verification/PythcTypecheck.v ===== *)
(** * The type checker

    Models [tools/pythc/src/intrinsics.rs] and [typecheck.rs]. The checker keeps
    the names in scope with their types and, for capabilities, the resource and
    rights they stand for; the intrinsics the program calls; and the host call
    whose result the next expression may still read. *)

From stdpp Require Import base numbers list.
From Stdlib Require Import Strings.Byte.
From S2P Require Import Prelude Utf8 TigTypes Kernel PythcSyntax PythcLexer PythcParser.

(** ** [intrinsics.rs] *)

Module In.
Inductive Intrinsic : Type :=
| SystemLog | ObjectCreate | ObjectCreatedCapability | ObjectCreatedRevision | ObjectQuery
| ObjectQueriedCapability | ObjectInspect | ObjectInspectedRevision | ObjectRevise
| ObjectHistory | TaskActive | TaskContextActive | TaskContextCandidate | TaskContextScore
| TaskContextKind | TaskContextReason | TaskPropose | CommandKind | CommandObject
| CommandTask | CommandProposal | CommandText | CommandResultEmit | GraphRelated
| RelevanceEmit | CapabilityRequest.

#[export] Instance Intrinsic_eq_dec : EqDecision Intrinsic.
Proof. solve_decision. Defined.
End In.
Abbreviation Intrinsic := In.Intrinsic.
#[export] Existing Instance In.Intrinsic_eq_dec.

Record CapabilityRequirement := { req_resource_kind : Z; req_rights : Z }.

Module Hp.
Inductive HostProducer : Type := ObjectCreate | ObjectQuery | ObjectInspect.
End Hp.
Abbreviation HostProducer := Hp.HostProducer.

Module Hr.
Inductive HostResultAccess : Type :=
| CreatedCapability | CreatedRevision | QueriedCapability | InspectedRevision.
End Hr.
Abbreviation HostResultAccess := Hr.HostResultAccess.

Definition intrinsic_names : list (list byte * Intrinsic) :=
  [(bs "system.log", In.SystemLog);
   (bs "object.create", In.ObjectCreate);
   (bs "object.created_capability", In.ObjectCreatedCapability);
   (bs "object.created_revision", In.ObjectCreatedRevision);
   (bs "object.query", In.ObjectQuery);
   (bs "object.queried_capability", In.ObjectQueriedCapability);
   (bs "object.inspect", In.ObjectInspect);
   (bs "object.inspected_revision", In.ObjectInspectedRevision);
   (bs "object.revise", In.ObjectRevise);
   (bs "object.history", In.ObjectHistory);
   (bs "task.active", In.TaskActive);
   (bs "task.context_active", In.TaskContextActive);
   (bs "task.context_candidate", In.TaskContextCandidate);
   (bs "task.context_score", In.TaskContextScore);
   (bs "task.context_kind", In.TaskContextKind);
   (bs "task.context_reason", In.TaskContextReason);
   (bs "task.propose", In.TaskPropose);
   (bs "command.kind", In.CommandKind);
   (bs "command.object", In.CommandObject);
   (bs "command.task", In.CommandTask);
   (bs "command.proposal", In.CommandProposal);
   (bs "command.text", In.CommandText);
   (bs "command.result_emit", In.CommandResultEmit);
   (bs "graph.related", In.GraphRelated);
   (bs "relevance.emit", In.RelevanceEmit);
   (bs "capability.request", In.CapabilityRequest)].

Definition from_name (name : list byte) : option Intrinsic :=
  snd <$> find (fun entry => bool_decide (name = entry.1)) intrinsic_names.

Definition arg_types (i : Intrinsic) : list PythType :=
  match i with
  | In.SystemLog => [Ty.Capability; Ty.Utf8]
  | In.ObjectCreate | In.ObjectQuery => [Ty.Capability; Ty.U64]
  | In.ObjectCreatedCapability | In.ObjectCreatedRevision | In.ObjectQueriedCapability
  | In.ObjectInspectedRevision => []
  | In.ObjectInspect | In.ObjectHistory => [Ty.Capability; Ty.ObjectId]
  | In.ObjectRevise => [Ty.Capability; Ty.ObjectId; Ty.U64; Ty.Utf8]
  | In.TaskActive | In.TaskContextActive | In.TaskContextCandidate | In.TaskContextScore
  | In.TaskContextKind | In.TaskContextReason | In.CommandKind | In.CommandObject
  | In.CommandTask | In.CommandProposal | In.CommandText => [Ty.Capability]
  | In.TaskPropose => [Ty.Capability; Ty.TaskId; Ty.U64]
  | In.CommandResultEmit => [Ty.Capability; Ty.ErrorCode; Ty.Utf8]
  | In.GraphRelated => [Ty.Capability; Ty.TaskId; Ty.U64]
  | In.RelevanceEmit => [Ty.Capability; Ty.ObjectId; Ty.U64; Ty.Utf8]
  | In.CapabilityRequest => [Ty.Capability; Ty.U64; Ty.U64]
  end.

Definition result_type (i : Intrinsic) : PythType :=
  match i with
  | In.SystemLog | In.CommandResultEmit | In.RelevanceEmit => Ty.Unit
  | In.ObjectCreate | In.ObjectQuery | In.GraphRelated => Ty.ObjectId
  | In.ObjectCreatedCapability | In.ObjectQueriedCapability => Ty.Capability
  | In.ObjectCreatedRevision | In.ObjectInspectedRevision | In.ObjectRevise => Ty.RevisionId
  | In.ObjectInspect => Ty.Utf8
  | In.ObjectHistory => Ty.U64
  | In.TaskActive | In.TaskContextActive | In.TaskContextCandidate => Ty.TaskId
  | In.TaskContextScore | In.TaskContextKind => Ty.U64
  | In.TaskContextReason => Ty.Utf8
  | In.TaskPropose => Ty.Unit
  | In.CommandKind => Ty.U64
  | In.CommandObject => Ty.ObjectId
  | In.CommandTask => Ty.TaskId
  | In.CommandProposal => Ty.ProposalId
  | In.CommandText => Ty.Utf8
  | In.CapabilityRequest => Ty.ProposalId
  end.

Definition needs (kind rights : Z) : option CapabilityRequirement :=
  Some {| req_resource_kind := kind; req_rights := rights |}.

Definition requirement (i : Intrinsic) : option CapabilityRequirement :=
  match i with
  | In.SystemLog => needs RESOURCE_SYSTEM_LOG RIGHTS_READ
  | In.ObjectCreate => needs RESOURCE_OBJECT_WORKSPACE RIGHTS_CREATE
  | In.ObjectQuery => needs RESOURCE_OBJECT_WORKSPACE RIGHTS_QUERY
  | In.ObjectInspect | In.ObjectHistory => needs RESOURCE_OBJECT RIGHTS_READ
  | In.ObjectRevise => needs RESOURCE_OBJECT RIGHTS_REVISE
  | In.TaskActive | In.TaskContextActive | In.TaskContextCandidate | In.TaskContextScore
  | In.TaskContextKind | In.TaskContextReason => needs RESOURCE_TASK RIGHTS_READ
  | In.TaskPropose => needs RESOURCE_TASK RIGHTS_CREATE
  | In.CommandKind | In.CommandObject | In.CommandTask | In.CommandProposal
  | In.CommandText => needs RESOURCE_COMMAND RIGHTS_READ
  | In.CommandResultEmit => needs RESOURCE_COMMAND RIGHTS_APPEND
  | In.CapabilityRequest => needs RESOURCE_TASK RIGHTS_APPEND
  | In.GraphRelated => needs RESOURCE_GRAPH RIGHTS_QUERY
  | In.RelevanceEmit => needs RESOURCE_GRAPH RIGHTS_APPEND
  | In.ObjectCreatedCapability | In.ObjectCreatedRevision | In.ObjectQueriedCapability
  | In.ObjectInspectedRevision => None
  end.

Definition producer (i : Intrinsic) : option HostProducer :=
  match i with
  | In.ObjectCreate => Some Hp.ObjectCreate
  | In.ObjectQuery => Some Hp.ObjectQuery
  | In.ObjectInspect => Some Hp.ObjectInspect
  | _ => None
  end.

Definition host_result_access (i : Intrinsic) : option HostResultAccess :=
  match i with
  | In.ObjectCreatedCapability => Some Hr.CreatedCapability
  | In.ObjectCreatedRevision => Some Hr.CreatedRevision
  | In.ObjectQueriedCapability => Some Hr.QueriedCapability
  | In.ObjectInspectedRevision => Some Hr.InspectedRevision
  | _ => None
  end.

(** ** [typecheck.rs] *)

Definition MAX_LOOP_BUDGET : Z := 65536.

(** [TypedFunction] is its result type. *)
Record TypedProgram := {
  typed_program : Program;
  typed_main : PythType;
  typed_required_intrinsics : list Intrinsic;
}.

Record CapabilityInfo := { cap_resource_kind : Z; cap_rights : Z }.

Record SymbolInfo := { sym_ty : PythType; sym_capability : option CapabilityInfo }.

Record ExprOutcome := {
  out_ty : PythType;
  out_capability : option CapabilityInfo;
  out_producer : option HostProducer;
  out_host_result_access : bool;
}.

Record Checker := {
  symbols : list (list byte * SymbolInfo);
  required_intrinsics : list Intrinsic;
  pending_host_producer : option HostProducer;
}.

Definition checker_new : Checker :=
  {| symbols := []; required_intrinsics := []; pending_host_producer := None |}.

Abbreviation checking := (action Checker Diagnostic).

Definition error {A} (code message : String.string) (span : Span) : checking A :=
  pure (Err (diagnostic code message span)).
Arguments error {A} (code message)%_string_scope span.

Definition set_symbols (v : list (list byte * SymbolInfo)) : checking unit :=
  update (fun c => {| symbols := v; required_intrinsics := required_intrinsics c;
                      pending_host_producer := pending_host_producer c |}).

Definition set_pending (v : option HostProducer) : checking unit :=
  update (fun c => {| symbols := symbols c; required_intrinsics := required_intrinsics c;
                      pending_host_producer := v |}).

Definition outcome_plain (ty : PythType) : ExprOutcome :=
  {| out_ty := ty; out_capability := None; out_producer := None; out_host_result_access := false |}.

(** [resource_kind], also the table of [import_contract] of [lower.rs]. *)
Definition resource_kind (resource : list byte) : option Z :=
  if bool_decide (resource = bs "system.log") then Some RESOURCE_SYSTEM_LOG
  else if bool_decide (resource = bs "object.workspace") then Some RESOURCE_OBJECT_WORKSPACE
  else if bool_decide (resource = bs "object") then Some RESOURCE_OBJECT
  else if bool_decide (resource = bs "task") || bool_decide (resource = bs "task.context")
          || bool_decide (resource = bs "task.proposal") then Some RESOURCE_TASK
  else if bool_decide (resource = bs "graph") then Some RESOURCE_GRAPH
  else if bool_decide (resource = bs "command") then Some RESOURCE_COMMAND
  else None.

(** [str::split] with a one-byte pattern: the pieces between the separators,
    one more than there are separators. *)
Fixpoint split_at (sep : byte) (piece : list byte) (l : list byte) : list (list byte) :=
  match l with
  | [] => [piece]
  | b :: l' => if bool_decide (b = sep) then piece :: split_at sep [] l'
               else split_at sep (piece ++ [b]) l'
  end.

Definition right_bit (right : list byte) : option Z :=
  if bool_decide (right = bs "read") || bool_decide (right = bs "write") then Some RIGHTS_READ
  else if bool_decide (right = bs "query") then Some RIGHTS_QUERY
  else if bool_decide (right = bs "revise") then Some RIGHTS_REVISE
  else if bool_decide (right = bs "create") then Some RIGHTS_CREATE
  else if bool_decide (right = bs "append") then Some RIGHTS_APPEND
  else if bool_decide (right = bs "approve") then Some RIGHTS_APPROVE
  else if bool_decide (right = bs "control") then Some RIGHTS_CONTROL
  else None.

(** [for right in rights.split('|') { bits |= match right { .. } }] *)
Fixpoint or_rights (bits : Z) (rights : list (list byte)) : option Z :=
  match rights with
  | [] => Some bits
  | r :: rights' => b ← right_bit r; or_rights (Z.lor bits b) rights'
  end.

Definition rights_bits (rights : list byte) : option Z :=
  or_rights 0 (split_at "|"%byte [] rights).

Definition code_message (code message : String.string) : String.string * String.string :=
  (code, message).
Arguments code_message (code message)%_string_scope.

Definition capability_info_for_import (resource rights : list byte) :
    outcome (String.string * String.string) CapabilityInfo :=
  kind ← ok_or (resource_kind resource) (code_message "T0011" "import resource mismatch");
  bits ← ok_or (rights_bits rights) (code_message "T0012" "import rights insufficient");
  Ok {| cap_resource_kind := kind; cap_rights := bits |}.

Definition capability_for_intrinsic_result (i : Intrinsic) : option CapabilityInfo :=
  match i with
  | In.ObjectCreatedCapability | In.ObjectQueriedCapability =>
      Some {| cap_resource_kind := RESOURCE_OBJECT; cap_rights := Z.lor RIGHTS_READ RIGHTS_REVISE |}
  | _ => None
  end.

(** ** Symbols *)

(** [iter().rev().find_map(..)]: the last entry with the name. *)
Definition lookup_last {V} (name : list byte) (l : list (list byte * V)) : option V :=
  snd <$> find (fun entry => bool_decide (entry.1 = name)) (rev l).

Definition lookup_symbol (name : list byte) : checking (option SymbolInfo) :=
  reads (fun c => Ok (lookup_last name (symbols c))).

Definition define_symbol (ident : Ident) (info : SymbolInfo) : checking unit :=
  syms ← reads (fun c => Ok (symbols c));
  if bool_decide (ident_text ident ∈ fst <$> syms) then error "T0001" "duplicate local" (ident_span ident)
  else set_symbols (syms ++ [(ident_text ident, info)]).

Definition record_intrinsic (i : Intrinsic) : checking unit :=
  update (fun c =>
    if bool_decide (i ∈ required_intrinsics c) then c
    else {| symbols := symbols c; required_intrinsics := required_intrinsics c ++ [i];
            pending_host_producer := pending_host_producer c |}).

Definition finish_expression (o : ExprOutcome) : checking unit :=
  if out_host_result_access o then mret tt else set_pending (out_producer o).

(** ** Expressions *)

Definition access_valid (p : option HostProducer) (access : HostResultAccess) : bool :=
  match p, access with
  | Some Hp.ObjectCreate, (Hr.CreatedCapability | Hr.CreatedRevision) => true
  | Some Hp.ObjectQuery, Hr.QueriedCapability => true
  | Some Hp.ObjectInspect, Hr.InspectedRevision => true
  | _, _ => false
  end.

Definition validate_host_result_access (access : HostResultAccess) (span : Span) : checking unit :=
  p ← reads (fun c => Ok (pending_host_producer c));
  if access_valid p access then mret tt else error "T0010" "stale host result access" span.

(** [expected.filter(is_integer_like_type).unwrap_or(U64)] *)
Definition integer_type (expected : option PythType) : PythType :=
  match expected with
  | Some ty => if is_integer_like_type ty then ty else Ty.U64
  | None => Ty.U64
  end.

Definition check_literal (l : Literal) (expected : option PythType) : checking ExprOutcome :=
  match l with
  | LBool _ _ => mret (outcome_plain Ty.Bool)
  | LString _ _ => mret (outcome_plain Ty.Utf8)
  | LInteger text span =>
      match from_str_radix 10 text with
      | None => error "T0013" "integer literal overflow" span
      | Some _ => mret (outcome_plain (integer_type expected))
      end
  end.

Definition binary_type (op : BinaryOp) (left right : PythType) (span : Span) : checking PythType :=
  match op with
  | Bin.Equal =>
      if negb (bool_decide (left = right)) then error "T0003" "type mismatch" span else mret Ty.Bool
  | Bin.Less | Bin.Add | Bin.Subtract =>
      if negb (bool_decide (left = Ty.U64)) || negb (bool_decide (right = Ty.U64))
      then error "T0003" "type mismatch" span
      else mret match op with Bin.Less => Ty.Bool | _ => Ty.U64 end
  | Bin.And | Bin.Or =>
      if negb (bool_decide (left = Ty.Bool)) || negb (bool_decide (right = Ty.Bool))
      then error "T0003" "type mismatch" span else mret Ty.Bool
  end.

(** [capability.resource_kind != ..] and [capability.rights & .. != ..] *)
Definition check_requirement (req : CapabilityRequirement) (cap : option CapabilityInfo) (span : Span) :
    checking unit :=
  match cap with
  | None => error "T0011" "import resource mismatch" span
  | Some c =>
      if negb (cap_resource_kind c =? req_resource_kind req) then
        error "T0011" "import resource mismatch" span
      else if negb (Z.land (cap_rights c) (req_rights req) =? req_rights req) then
        error "T0012" "import rights insufficient" span
      else mret tt
  end.

Section call.
Context (check_expression : Expression -> option PythType -> checking ExprOutcome).

(** The loop over the arguments; the result is [first_capability]. *)
Fixpoint check_args (index : Z) (first : option CapabilityInfo)
    (args : list Expression) (types : list PythType) {struct args} : checking (option CapabilityInfo) :=
  match args, types with
  | arg :: args', expected :: types' =>
      o ← check_expression arg (Some expected);
      if negb (bool_decide (out_ty o = expected)) then
        error "T0003" "type mismatch" (expression_span arg)
      else
        check_args (index + 1)
          (if (index =? 0) && bool_decide (expected = Ty.Capability) then out_capability o else first)
          args' types'
  | _, _ => mret first
  end.

Definition check_call (callee : Ident) (args : list Expression) (span : Span) : checking ExprOutcome :=
  i ← pure (ok_or (from_name (ident_text callee))
              (diagnostic "T0006" "unsupported intrinsic" (ident_span callee)));
  record_intrinsic i;;
  if negb (len args =? len (arg_types i)) then error "T0007" "wrong argument count" span
  else
    first ← check_args 0 None args (arg_types i);
    match requirement i with
    | Some req => check_requirement req first span
    | None => mret tt
    end;;
    match host_result_access i with
    | Some access => validate_host_result_access access span
    | None => mret tt
    end;;
    mret {| out_ty := result_type i; out_capability := capability_for_intrinsic_result i;
            out_producer := producer i;
            out_host_result_access := match host_result_access i with Some _ => true | None => false end |}.
End call.

Fixpoint check_expression (e : Expression) (expected : option PythType) : checking ExprOutcome :=
  match e with
  | ELiteral l => check_literal l expected
  | EName name =>
      symbol ← lookup_symbol (ident_text name);
      match symbol with
      | Some s => mret {| out_ty := sym_ty s; out_capability := sym_capability s;
                          out_producer := None; out_host_result_access := false |}
      | None => error "T0002" "unknown name" (ident_span name)
      end
  | ECall callee args span => check_call check_expression callee args span
  | EUnary _ e' span =>
      operand ← check_expression e' (Some Ty.Bool);
      if bool_decide (out_ty operand = Ty.Capability) then
        error "T0008" "capability operation forbidden" span
      else if negb (bool_decide (out_ty operand = Ty.Bool)) then
        error "T0003" "type mismatch" (expression_span e')
      else mret (outcome_plain Ty.Bool)
  | EBinary op l r span =>
      left ← check_expression l None;
      right ← check_expression r None;
      if bool_decide (out_ty left = Ty.Capability) || bool_decide (out_ty right = Ty.Capability) then
        error "T0008" "capability operation forbidden" span
      else
        ty ← binary_type op (out_ty left) (out_ty right) span;
        mret (outcome_plain ty)
  end.

(** ** Statements *)

Definition check_condition (condition : Expression) : checking unit :=
  o ← check_expression condition (Some Ty.Bool);
  if negb (bool_decide (out_ty o = Ty.Bool)) then
    error "T0004" "non-bool condition" (expression_span condition)
  else set_pending None.

Section block.
Context (check_statement : Statement -> checking unit).

(** [for statement in statements { self.check_statement(statement)?; }] *)
Fixpoint check_statements (statements : list Statement) : checking unit :=
  match statements with
  | [] => mret tt
  | st :: statements' => check_statement st;; check_statements statements'
  end.

Definition check_nested_block (statements : list Statement) : checking unit :=
  symbol_len ← reads (fun c => Ok (length (symbols c)));
  saved_pending ← reads (fun c => Ok (pending_host_producer c));
  set_pending None;;
  check_statements statements;;
  syms ← reads (fun c => Ok (symbols c));
  set_symbols (take symbol_len syms);;
  set_pending saved_pending.
End block.

Fixpoint check_statement (st : Statement) : checking unit :=
  match st with
  | SLet name ty value _ =>
      let expected := ast_type_to_pyth_type ty in
      o ← check_expression value (Some expected);
      if negb (bool_decide (out_ty o = expected)) then
        error "T0003" "type mismatch" (expression_span value)
      else
        define_symbol name
          {| sym_ty := expected;
             sym_capability := if bool_decide (expected = Ty.Capability) then out_capability o else None |};;
        finish_expression o
  | SIf condition then_statements else_statements _ =>
      check_condition condition;;
      check_nested_block check_statement then_statements;;
      check_nested_block check_statement else_statements;;
      set_pending None
  | SWhile budget condition statements span =>
      if MAX_LOOP_BUDGET <? budget then error "T0014" "loop budget exceeds 65536" span
      else
        check_condition condition;;
        check_nested_block check_statement statements;;
        set_pending None
  | SExpr e =>
      o ← check_expression e None;
      finish_expression o
  | SReturn _ => set_pending None
  end.

(** ** Programs *)

Definition check_import (import : ImportDecl) : checking unit :=
  cap ← pure (map_err (fun e => diagnostic e.1 e.2 (import_span import))
                (capability_info_for_import (import_resource import) (import_rights import)));
  define_symbol (import_name import) {| sym_ty := Ty.Capability; sym_capability := Some cap |}.

Fixpoint check_imports (imports : list ImportDecl) : checking unit :=
  match imports with
  | [] => mret tt
  | import :: imports' => check_import import;; check_imports imports'
  end.

Definition check_program (program : Program) : checking TypedProgram :=
  check_imports (program_imports program);;
  check_statements check_statement (fn_statements (main program));;
  intrinsics ← reads (fun c => Ok (required_intrinsics c));
  mret {| typed_program := program; typed_main := Ty.Unit; typed_required_intrinsics := intrinsics |}.

Definition typecheck_program (program : Program) : D TypedProgram :=
  outcome_of (check_program program) checker_new.

Definition typecheck_source (source : list byte) : D TypedProgram :=
  program ← parse_source source;
  typecheck_program program.
