(* ===== verification/PythcTyping.v ===== *)
(** * The type system of the language

    Typing rules as relations, and that [tools/pythc/src/typecheck.rs] decides
    them. A call is typed only when its first argument is a capability whose
    resource and rights cover what the intrinsic requires, and a result
    accessor only directly after the host call it reads. *)

From stdpp Require Import base numbers list.
From Stdlib Require Import Strings.Byte.
From S2P Require Import Prelude Utf8 TigTypes Kernel PythcSyntax PythcLexer PythcParser PythcTypecheck.

(** ** Typing rules *)

Abbreviation env := (list (list byte * SymbolInfo)).

(** The capability has the resource kind and at least the rights required. *)
Definition satisfies (req : CapabilityRequirement) (cap : option CapabilityInfo) : Prop :=
  exists c, cap = Some c /\ cap_resource_kind c = req_resource_kind req /\
    Z.land (cap_rights c) (req_rights req) = req_rights req.

(** The capability a call is made with: its first argument. *)
Definition call_capability (types : list PythType) (outs : list ExprOutcome) : option CapabilityInfo :=
  match types, outs with
  | Ty.Capability :: _, o :: _ => out_capability o
  | _, _ => None
  end.

Definition call_outcome (i : Intrinsic) : ExprOutcome :=
  {| out_ty := result_type i; out_capability := capability_for_intrinsic_result i;
     out_producer := producer i;
     out_host_result_access := match host_result_access i with Some _ => true | None => false end |}.

(** Operand and result types of the binary operators. *)
Inductive operator_typed : BinaryOp -> PythType -> PythType -> PythType -> Prop :=
| typed_equal t : operator_typed Bin.Equal t t Ty.Bool
| typed_less : operator_typed Bin.Less Ty.U64 Ty.U64 Ty.Bool
| typed_add : operator_typed Bin.Add Ty.U64 Ty.U64 Ty.U64
| typed_subtract : operator_typed Bin.Subtract Ty.U64 Ty.U64 Ty.U64
| typed_and : operator_typed Bin.And Ty.Bool Ty.Bool Ty.Bool
| typed_or : operator_typed Bin.Or Ty.Bool Ty.Bool Ty.Bool.

Section rules.
Context (Γ : env) (pending : option HostProducer).

Inductive has_type : option PythType -> Expression -> ExprOutcome -> Prop :=
| typed_bool ex v s : has_type ex (ELiteral (LBool v s)) (outcome_plain Ty.Bool)
| typed_string ex v s : has_type ex (ELiteral (LString v s)) (outcome_plain Ty.Utf8)
| typed_integer ex text s v :
    from_str_radix 10 text = Some v ->
    has_type ex (ELiteral (LInteger text s)) (outcome_plain (integer_type ex))
| typed_name ex n info :
    lookup_last (ident_text n) Γ = Some info ->
    has_type ex (EName n) {| out_ty := sym_ty info; out_capability := sym_capability info;
                             out_producer := None; out_host_result_access := false |}
| typed_call ex callee args s i outs :
    from_name (ident_text callee) = Some i -> args_typed args (arg_types i) outs ->
    (forall req, requirement i = Some req -> satisfies req (call_capability (arg_types i) outs)) ->
    (forall access, host_result_access i = Some access -> access_valid pending access = true) ->
    has_type ex (ECall callee args s) (call_outcome i)
| typed_not ex e s o :
    has_type (Some Ty.Bool) e o -> out_ty o = Ty.Bool ->
    has_type ex (EUnary Not e s) (outcome_plain Ty.Bool)
| typed_binary ex op l r s ol oright t :
    has_type None l ol -> has_type None r oright ->
    out_ty ol <> Ty.Capability -> out_ty oright <> Ty.Capability ->
    operator_typed op (out_ty ol) (out_ty oright) t ->
    has_type ex (EBinary op l r s) (outcome_plain t)
with args_typed : list Expression -> list PythType -> list ExprOutcome -> Prop :=
| typed_no_args : args_typed [] [] []
| typed_arg e args t types o outs :
    has_type (Some t) e o -> out_ty o = t -> args_typed args types outs ->
    args_typed (e :: args) (t :: types) (o :: outs).
End rules.

(** After an expression the next one may read the result of its host call. *)
Definition pending_after (o : ExprOutcome) (pending : option HostProducer) : option HostProducer :=
  if out_host_result_access o then pending else out_producer o.

Definition let_info (t : PythType) (o : ExprOutcome) : SymbolInfo :=
  {| sym_ty := t;
     sym_capability := if bool_decide (t = Ty.Capability) then out_capability o else None |}.

(** A statement in a scope, and the scope after it. Blocks do not leak names. *)
Inductive statement_typed : env -> option HostProducer -> Statement -> env -> option HostProducer -> Prop :=
| typed_let Γ p n t e s o :
    has_type Γ p (Some (ast_type_to_pyth_type t)) e o -> out_ty o = ast_type_to_pyth_type t ->
    ident_text n ∉ fst <$> Γ ->
    statement_typed Γ p (SLet n t e s)
      (Γ ++ [(ident_text n, let_info (ast_type_to_pyth_type t) o)]) (pending_after o p)
| typed_if Γ p c a b s o Γa pa Γb pb :
    has_type Γ p (Some Ty.Bool) c o -> out_ty o = Ty.Bool ->
    block_typed Γ None a Γa pa -> block_typed Γ None b Γb pb ->
    statement_typed Γ p (SIf c a b s) Γ None
| typed_while Γ p n c a s o Γa pa :
    n <= MAX_LOOP_BUDGET -> has_type Γ p (Some Ty.Bool) c o -> out_ty o = Ty.Bool ->
    block_typed Γ None a Γa pa -> statement_typed Γ p (SWhile n c a s) Γ None
| typed_expr Γ p e o :
    has_type Γ p None e o -> statement_typed Γ p (SExpr e) Γ (pending_after o p)
| typed_return Γ p s : statement_typed Γ p (SReturn s) Γ None
with block_typed : env -> option HostProducer -> list Statement -> env -> option HostProducer -> Prop :=
| typed_end Γ p : block_typed Γ p [] Γ p
| typed_next Γ p st ss Γ1 p1 Γ2 p2 :
    statement_typed Γ p st Γ1 p1 -> block_typed Γ1 p1 ss Γ2 p2 -> block_typed Γ p (st :: ss) Γ2 p2.

(** Imports are capabilities with the resource and rights they spell. *)
Inductive imports_typed : env -> list ImportDecl -> env -> Prop :=
| typed_no_imports Γ : imports_typed Γ [] Γ
| typed_import Γ d ds Γ' kind bits :
    resource_kind (import_resource d) = Some kind -> rights_bits (import_rights d) = Some bits ->
    ident_text (import_name d) ∉ fst <$> Γ ->
    imports_typed (Γ ++ [(ident_text (import_name d),
       {| sym_ty := Ty.Capability;
          sym_capability := Some {| cap_resource_kind := kind; cap_rights := bits |} |})]) ds Γ' ->
    imports_typed Γ (d :: ds) Γ'.

Definition program_typed (p : Program) : Prop :=
  exists Γ Γ' pending, imports_typed [] (program_imports p) Γ /\
    block_typed Γ None (fn_statements (main p)) Γ' pending.

(** ** The intrinsics of a program, in the order of their first calls *)

Fixpoint expression_calls (e : Expression) : list Intrinsic :=
  match e with
  | ELiteral _ | EName _ => []
  | ECall callee args _ =>
      match from_name (ident_text callee) with Some i => [i] | None => [] end ++
      concat (List.map expression_calls args)
  | EUnary _ e' _ => expression_calls e'
  | EBinary _ l r _ => expression_calls l ++ expression_calls r
  end.

Fixpoint statement_calls (st : Statement) : list Intrinsic :=
  match st with
  | SLet _ _ e _ | SExpr e => expression_calls e
  | SIf c a b _ => expression_calls c ++ concat (List.map statement_calls a) ++
                   concat (List.map statement_calls b)
  | SWhile _ c a _ => expression_calls c ++ concat (List.map statement_calls a)
  | SReturn _ => []
  end.

Definition add_new (l : list Intrinsic) (i : Intrinsic) : list Intrinsic :=
  if bool_decide (i ∈ l) then l else l ++ [i].

Definition program_calls (p : Program) : list Intrinsic :=
  foldl add_new [] (concat (List.map statement_calls (fn_statements (main p)))).

(** ** Actions that decide a relation *)

Definition decides {S E A} (m : action S E A) (s : S) (P : A -> S -> Prop) : Prop :=
  (forall a s', m s = (Ok a, s') <-> P a s') /\
  match (m s).1 with Ok _ | Err _ => True | _ => False end.

Section decides_rules.
Context {S E A B : Type}.
Implicit Types (s : S).

Lemma decides_iff (m : action S E A) s (P P' : A -> S -> Prop) :
  decides m s P -> (forall a s', P a s' <-> P' a s') -> decides m s P'.
Proof. intros [H1 H2] HP. split; [|done]. intros. by rewrite H1. Qed.

Lemma decides_ret (a : A) s : decides (E := E) (mret a) s (fun a' s' => a' = a /\ s' = s).
Proof. split; [|done]. intros a' s'. split; [by intros [= <- <-]|by intros [-> ->]]. Qed.

Lemma decides_fail (e : E) s (P : A -> S -> Prop) :
  (forall a s', ~ P a s') -> decides (pure (Err e)) s P.
Proof. intros HP. split; [|done]. intros a s'. split; [done|]. intros H. by destruct (HP a s'). Qed.

Lemma decides_update (f : S -> S) s : decides (E := E) (update f) s (fun _ s' => s' = f s).
Proof. split; [|done]. intros [] s'. split; [by intros [= <-]|by intros ->]. Qed.

Lemma decides_reads (f : S -> outcome E A) s a :
  f s = Ok a -> decides (reads f) s (fun a' s' => a' = a /\ s' = s).
Proof.
  intros Hf. unfold decides, reads. rewrite Hf. split; [|done].
  intros a' s'. split; [by intros [= <- <-]|by intros [-> ->]].
Qed.

Lemma decides_bind (m : action S E A) (k : A -> action S E B) s P P' :
  decides m s P -> (forall a s', P a s' -> decides (k a) s' (P' a s')) ->
  decides (m ≫= k) s (fun b s'' => exists a s', P a s' /\ P' a s' b s'').
Proof.
  intros [H1 H2] Hk. unfold mbind, action_bind, decides in *.
  destruct (m s) as [[a|e| |] s1] eqn:Hm; simpl in *; try done.
  - assert (P a s1) as HP by (by apply H1). destruct (Hk a s1 HP) as [H3 H4]. split; [|done].
    intros b s''. rewrite H3. split; [eauto|]. intros (a' & s' & Ha & Hb).
    apply H1 in Ha. by injection Ha as <- <-.
  - split; [|done]. intros b s''. split; [done|]. intros (a' & s' & Ha & Hb). by apply H1 in Ha.
Qed.

(** Steps that have one outcome. *)
Lemma decides_reads_then (f : S -> outcome E A) (k : A -> action S E B) s a P :
  f s = Ok a -> decides (k a) s P -> decides (reads f ≫= k) s P.
Proof. unfold decides, mbind, action_bind, reads. by intros ->. Qed.

Lemma decides_pure_then (o : outcome E A) (k : A -> action S E B) s a P :
  o = Ok a -> decides (k a) s P -> decides (pure o ≫= k) s P.
Proof. unfold decides, mbind, action_bind, pure. by intros ->. Qed.

Lemma decides_update_then (f : S -> S) (k : unit -> action S E B) s P :
  decides (k tt) (f s) P -> decides (update f ≫= k) s P.
Proof. done. Qed.

Lemma decides_ret_then (a : A) (k : A -> action S E B) s P :
  decides (k a) s P -> decides (mret a ≫= k) s P.
Proof. done. Qed.

(** An error does not depend on what follows. *)
Lemma decides_fail_then (e : E) (k : A -> action S E B) s P :
  (forall b s', ~ P b s') -> decides (pure (Err e) ≫= k) s P.
Proof. intros HP. split; [|done]. intros b s'. split; [done|]. intros H. by destruct (HP b s'). Qed.
End decides_rules.

(** ** Expressions *)

Definition recorded (l : list Intrinsic) (c : Checker) : Checker :=
  {| symbols := symbols c; required_intrinsics := foldl add_new (required_intrinsics c) l;
     pending_host_producer := pending_host_producer c |}.

Lemma recorded_nil c : recorded [] c = c.
Proof. by destruct c. Qed.

Lemma recorded_app l l' c : recorded l' (recorded l c) = recorded (l ++ l') c.
Proof. unfold recorded. simpl. by rewrite foldl_app. Qed.

(** The checker accepts exactly the outcomes of the rules. *)
Definition decides_type (e : Expression) : Prop := forall ex c,
  decides (check_expression e ex) c (fun o c' =>
    has_type (symbols c) (pending_host_producer c) ex e o /\ c' = recorded (expression_calls e) c).

Lemma decides_error {A} code msg span c (P : A -> Checker -> Prop) :
  (forall a c', ~ P a c') -> decides (error code msg span) c P.
Proof. apply decides_fail. Qed.

(** The continuation ends with a value and the current state. *)
Lemma decides_ret_iff {A} (a : A) c (P : A -> Checker -> Prop) :
  (forall a' c', P a' c' <-> a' = a /\ c' = c) -> decides (E := Diagnostic) (mret a) c P.
Proof. intros HP. eapply decides_iff; [apply decides_ret|]. intros. by rewrite HP. Qed.

Lemma decides_literal l : decides_type (ELiteral l).
Proof.
  intros ex c. simpl. rewrite recorded_nil. destruct l as [v s|text s|v s]; simpl.
  - apply decides_ret_iff. intros a' c'. split; [|by intros [-> ->]; split; [constructor|]].
    intros [H ->]. by inv H.
  - destruct (from_str_radix 10 text) as [v|] eqn:Hv.
    + apply decides_ret_iff. intros a' c'. split; [|by intros [-> ->]; split; [by econstructor|]].
      intros [H ->]. by inv H.
    + apply decides_error. intros a' c' [H _]. by inv H.
  - apply decides_ret_iff. intros a' c'. split; [|by intros [-> ->]; split; [constructor|]].
    intros [H ->]. by inv H.
Qed.

Lemma decides_name n : decides_type (EName n).
Proof.
  intros ex c. simpl. rewrite recorded_nil. eapply decides_reads_then; [done|].
  destruct (lookup_last (ident_text n) (symbols c)) as [s|] eqn:Hs.
  - apply decides_ret_iff. intros o c'. split.
    + intros [H ->]. inv H. by simplify_eq.
    + intros [-> ->]. split; [by constructor|done].
  - apply decides_error. intros o c' [H _]. by inv H.
Qed.

(** Checking an expression and going on with its outcome. *)
Lemma decides_then {B} e ex c (k : ExprOutcome -> checking B) P :
  decides_type e ->
  (forall o, has_type (symbols c) (pending_host_producer c) ex e o ->
     decides (k o) (recorded (expression_calls e) c) (P o)) ->
  decides (check_expression e ex ≫= k) c (fun b c' =>
    exists o, has_type (symbols c) (pending_host_producer c) ex e o /\ P o b c').
Proof.
  intros He Hk. eapply decides_iff.
  - eapply (decides_bind _ _ _ _ (fun o _ => P o)); [apply He|]. intros o c' [Ho ->]. by apply Hk.
  - intros b c'. naive_solver.
Qed.

(** The kinds of operands an operator takes. *)
Lemma decides_operator op tl tr span c :
  decides (binary_type op tl tr span) c (fun t c' => operator_typed op tl tr t /\ c' = c).
Proof.
  destruct op; simpl; repeat (case_bool_decide; simpl);
    first [ apply decides_ret_iff; intros t c'; subst; split;
              [by intros [H' ->]; inv H'|intros [-> ->]; split; constructor]
          | apply decides_error; intros t c' [H' _]; inv H'; done ].
Qed.

Lemma decides_binary op l r s : decides_type l -> decides_type r -> decides_type (EBinary op l r s).
Proof.
  intros Hl Hr ex c. simpl. eapply decides_iff.
  - apply decides_then; [done|]. intros ol Hol. apply decides_then; [done|]. intros or Hor.
    instantiate (1 := fun or o c' => out_ty ol <> Ty.Capability /\ out_ty or <> Ty.Capability /\
      exists t, operator_typed op (out_ty ol) (out_ty or) t /\ o = outcome_plain t /\
        c' = recorded (expression_calls l ++ expression_calls r) c). simpl.
    case_bool_decide as H1; simpl; [apply decides_error; naive_solver|].
    case_bool_decide as H2; simpl; [apply decides_error; naive_solver|].
    rewrite recorded_app. eapply decides_iff.
    + eapply decides_bind; [apply decides_operator|]. intros t c3 [Ht Hc]. apply decides_ret.
    + naive_solver.
  - intros o c'. split.
    + intros (ol & Hol & or & Hor & H1 & H2 & t & Ht & -> & ->). split; [by econstructor|done].
    + intros [H ->]. inv H. eexists. split; [done|]. eexists. split; [done|]. eauto 10.
Qed.

Lemma decides_not op e s : decides_type e -> decides_type (EUnary op e s).
Proof.
  intros He ex c. destruct op. simpl. eapply decides_iff.
  - apply decides_then; [done|]. intros o Ho.
    instantiate (1 := fun o o' c' => out_ty o = Ty.Bool /\ o' = outcome_plain Ty.Bool /\
      c' = recorded (expression_calls e) c). simpl.
    case_bool_decide as H1; [apply decides_error; intros ? ? [? _]; congruence|].
    case_bool_decide as H2; simpl; [apply decides_ret_iff; naive_solver|apply decides_error; naive_solver].
  - intros o c'. split.
    + intros (o1 & Ho & Ht & -> & ->). split; [by econstructor|done].
    + intros [H ->]. inv H. eauto 10.
Qed.

(** *** Calls *)

Definition first_after (index : Z) (first : option CapabilityInfo) (types : list PythType)
    (outs : list ExprOutcome) : option CapabilityInfo :=
  if index =? 0 then match types, outs with
                     | Ty.Capability :: _, o :: _ => out_capability o
                     | _, _ => first
                     end
  else first.

Lemma args_typed_length Γ p args types outs :
  args_typed Γ p args types outs -> length args = length types /\ length outs = length types.
Proof.
  revert types outs. induction args as [|e args IH]; intros types outs H; inv H; [done|].
  match goal with H : args_typed _ _ _ _ _ |- _ => destruct (IH _ _ H) end. simpl. lia.
Qed.

Lemma decides_args args : Forall decides_type args ->
  forall index first types c, length args = length types -> 0 <= index ->
  decides (check_args check_expression index first args types) c (fun r c' =>
    exists outs, args_typed (symbols c) (pending_host_producer c) args types outs /\
      r = first_after index first types outs /\
      c' = recorded (concat (List.map expression_calls args)) c).
Proof.
  induction 1 as [|e args He _ IH]; intros index first types c Hlen Hidx; simpl.
  - destruct types; [|done]. rewrite recorded_nil. apply decides_ret_iff. intros r c'. split.
    + intros (outs & H & -> & ->). inv H. split; [|done]. unfold first_after. by case_match.
    + intros [-> ->]. exists []. split_and!; [constructor| |done]. unfold first_after. by case_match.
  - destruct types as [|t types]; [done|]. simpl in Hlen. eapply decides_iff.
    + apply decides_then; [done|]. intros o Ho.
      instantiate (1 := fun o r c' => out_ty o = t /\ exists outs,
        args_typed (symbols c) (pending_host_producer c) args types outs /\
        r = first_after index first (t :: types) (o :: outs) /\
        c' = recorded (expression_calls e ++ concat (List.map expression_calls args)) c). simpl.
      case_bool_decide as Ht; simpl; [|apply decides_error; naive_solver].
      eapply decides_iff; [apply IH; [lia|lia]|]. intros r c'. rewrite recorded_app. simpl.
      replace (first_after (index + 1)) with
        (fun (f : option CapabilityInfo) (_ : list PythType) (_ : list ExprOutcome) => f).
      2:{ unfold first_after. by replace (index + 1 =? 0) with false by lia. }
      split; [intros (outs & Ha & -> & ->); split; [done|]; exists outs
             |intros (_ & outs & Ha & -> & ->); exists outs]; (split_and!; [done| |done]);
        unfold first_after; destruct (index =? 0); try done; case_bool_decide; subst; try done;
        simpl; repeat case_match; done.
    + intros r c'. split.
      * intros (o & Ho & Ht & outs & Ha & -> & ->). exists (o :: outs). split_and!; [by constructor|done|done].
      * intros (outs & H & -> & ->). inv H. eexists. split; [done|]. split; [done|]. eauto.
Qed.

Lemma decides_requirement req cap span c :
  decides (check_requirement req cap span) c (fun _ c' => satisfies req cap /\ c' = c).
Proof.
  unfold check_requirement, satisfies. destruct cap as [k|]; [|apply decides_error; naive_solver].
  destruct (Z.eqb_spec (cap_resource_kind k) (req_resource_kind req)); simpl;
    [|apply decides_error; naive_solver].
  destruct (Z.eqb_spec (Z.land (cap_rights k) (req_rights req)) (req_rights req)); simpl;
    [|apply decides_error; naive_solver].
  apply decides_ret_iff. intros [] c'. naive_solver.
Qed.

Lemma decides_access access span c :
  decides (validate_host_result_access access span) c (fun _ c' =>
    access_valid (pending_host_producer c) access = true /\ c' = c).
Proof.
  unfold validate_host_result_access. eapply decides_reads_then; [done|].
  destruct (access_valid _ _); [apply decides_ret_iff; intros []; naive_solver|apply decides_error; naive_solver].
Qed.

Lemma record_intrinsic_recorded i c :
  (if bool_decide (i ∈ required_intrinsics c) then c
   else {| symbols := symbols c; required_intrinsics := required_intrinsics c ++ [i];
           pending_host_producer := pending_host_producer c |}) = recorded [i] c.
Proof. unfold recorded, add_new; simpl. case_bool_decide; [by destruct c|done]. Qed.

(** An optional check. *)
Lemma decides_optional {A} (o : option A) (f : A -> checking unit) (P : A -> Prop) c :
  (forall a, decides (f a) c (fun _ c' => P a /\ c' = c)) ->
  decides (match o with Some a => f a | None => mret tt end) c
    (fun _ c' => (forall a, o = Some a -> P a) /\ c' = c).
Proof.
  intros Hf. destruct o as [a|].
  - eapply decides_iff; [apply Hf|]. intros [] c'. naive_solver.
  - apply decides_ret_iff. intros [] c'. naive_solver.
Qed.

Lemma decides_call callee args s : Forall decides_type args -> decides_type (ECall callee args s).
Proof.
  intros Hargs ex c. simpl. unfold check_call.
  destruct (from_name (ident_text callee)) as [i|] eqn:Hi; simpl.
  2:{ apply decides_fail_then. intros o c' [H _]. by inv H. }
  eapply decides_pure_then; [done|]. apply decides_update_then. rewrite record_intrinsic_recorded.
  destruct (Z.eqb_spec (len args) (len (arg_types i))) as [Hl|Hl]; simpl.
  2:{ apply decides_error. intros o c' [H _]. inv H. simplify_eq.
    match goal with H : args_typed _ _ _ _ _ |- _ => apply args_typed_length in H end. unfold len in *. lia. }
  eapply decides_iff.
  - eapply (decides_bind _ _ _ _ (fun first c1 o c' =>
      (forall req, requirement i = Some req -> satisfies req first) /\
      (forall access, host_result_access i = Some access ->
         access_valid (pending_host_producer c1) access = true) /\ o = call_outcome i /\ c' = c1)).
    { apply decides_args; [done|unfold len in *; lia|lia]. }
    intros first c1 _. eapply decides_iff.
    + eapply (decides_bind _ _ _ _ (fun _ _ o c' =>
        (forall access, host_result_access i = Some access ->
         access_valid (pending_host_producer c1) access = true) /\ o = call_outcome i /\ c' = c1)).
      { apply (decides_optional _ (fun req => check_requirement req first s)). intros req. apply decides_requirement. }
      intros _ c2 [_ ->]. eapply decides_iff.
      * eapply (decides_bind _ _ _ _ (fun _ _ o c' => o = call_outcome i /\ c' = c1)).
        { apply (decides_optional _ (fun access => validate_host_result_access access s)).
          intros access. apply decides_access. }
        intros _ c3 [_ ->]. by apply decides_ret.
      * intros o c'. split; [naive_solver|]. intros (? & ? & ?). by exists tt, c1.
    + intros o c'. split; [naive_solver|]. intros (? & ? & ? & ?). by exists tt, c1.
  - intros o c'. split.
    + intros (first & c1 & (outs & Ha & -> & ->) & H1 & H2 & -> & ->). split; [|by rewrite recorded_app].
      econstructor; [done|done| |done]. intros req Hreq. by apply H1.
    + intros [H ->]. inv H. simplify_eq. eexists _, _. split; [eexists; split_and!; done|].
      split_and!; [done|done|done|]. by rewrite recorded_app.
Qed.

Lemma decides_expression e : decides_type e.
Proof.
  induction e using expression_rect_nested;
    auto using decides_literal, decides_name, decides_call, decides_not, decides_binary.
Qed.

(** ** Statements *)

Scheme statement_typed_mind := Minimality for statement_typed Sort Prop
  with block_typed_mind := Minimality for block_typed Sort Prop.
Combined Scheme statements_typed_ind from statement_typed_mind, block_typed_mind.

(** Scopes only grow within a block. *)
Lemma typed_scope_grows :
  (forall Γ p st Γ' p', statement_typed Γ p st Γ' p' -> exists ext, Γ' = Γ ++ ext) /\
  (forall Γ p ss Γ' p', block_typed Γ p ss Γ' p' -> exists ext, Γ' = Γ ++ ext).
Proof.
  apply statements_typed_ind; intros; try (exists []; by rewrite app_nil_r); [eauto|].
  destruct H0 as [e1 ->], H2 as [e2 ->]. exists (e1 ++ e2). by rewrite app_assoc.
Qed.

Definition moved (Γ : env) (p : option HostProducer) (l : list Intrinsic) (c : Checker) : Checker :=
  {| symbols := Γ; required_intrinsics := foldl add_new (required_intrinsics c) l;
     pending_host_producer := p |}.

Definition decides_statement (st : Statement) : Prop := forall c,
  decides (check_statement st) c (fun _ c' => exists Γ' p',
    statement_typed (symbols c) (pending_host_producer c) st Γ' p' /\
    c' = moved Γ' p' (statement_calls st) c).

Lemma decides_block ss : Forall decides_statement ss -> forall c,
  decides (check_statements check_statement ss) c (fun _ c' => exists Γ' p',
    block_typed (symbols c) (pending_host_producer c) ss Γ' p' /\
    c' = moved Γ' p' (concat (List.map statement_calls ss)) c).
Proof.
  induction 1 as [|st ss Hst _ IH]; intros c; simpl.
  - apply decides_ret_iff. intros [] c'. split.
    + intros (Γ' & p' & H & ->). inv H. split; [done|]. by destruct c.
    + intros [_ ->]. exists (symbols c), (pending_host_producer c). split; [constructor|]. by destruct c.
  - eapply decides_iff; [eapply decides_bind; [apply Hst|intros ? c1 _; apply IH]|].
    intros [] c'. split.
    + intros ([] & c1 & (Γ1 & p1 & H1 & ->) & Γ2 & p2 & H2 & ->). exists Γ2, p2. split; [by econstructor|].
      unfold moved; simpl. by rewrite foldl_app.
    + intros (Γ' & p' & H & ->). inv H. eexists tt, _. split; [eexists _, _; by split|].
      simpl. eexists _, _. split; [done|]. unfold moved; simpl. by rewrite foldl_app.
Qed.

Lemma decides_nested ss : Forall decides_statement ss -> forall c,
  decides (check_nested_block check_statement ss) c (fun _ c' => exists Γ' p',
    block_typed (symbols c) None ss Γ' p' /\
    c' = recorded (concat (List.map statement_calls ss)) c).
Proof.
  intros Hss c. unfold check_nested_block.
  eapply decides_reads_then; [done|]. eapply decides_reads_then; [done|]. apply decides_update_then.
  eapply decides_iff.
  - eapply (decides_bind _ _ _ _ (fun _ c1 _ c' => c' = {| symbols := take (length (symbols c)) (symbols c1);
      required_intrinsics := required_intrinsics c1;
      pending_host_producer := pending_host_producer c |})); [by apply decides_block|].
    intros _ c1 _. eapply decides_reads_then; [done|]. apply decides_update_then.
    eapply decides_iff; [apply decides_update|]. done.
  - intros [] c'. split.
    + intros ([] & c1 & (Γ' & p' & H & ->) & ->). exists Γ', p'. split; [done|].
      apply typed_scope_grows in H as [ext ->]. unfold recorded, moved; simpl. by rewrite take_app_length.
    + intros (Γ' & p' & H & ->). eexists tt, _. split; [by eexists _, _|]. simpl.
      apply typed_scope_grows in H as [ext ->]. unfold recorded, moved; simpl. by rewrite take_app_length.
Qed.

Lemma decides_condition e c :
  decides (check_condition e) c (fun _ c' =>
    (exists o, has_type (symbols c) (pending_host_producer c) (Some Ty.Bool) e o /\ out_ty o = Ty.Bool) /\
    c' = moved (symbols c) None (expression_calls e) c).
Proof.
  unfold check_condition. eapply decides_iff.
  - apply decides_then; [apply decides_expression|]. intros o Ho.
    instantiate (1 := fun o _ c' => out_ty o = Ty.Bool /\ c' = moved (symbols c) None (expression_calls e) c).
    case_bool_decide as Ht; simpl; [|apply decides_error; naive_solver].
    eapply decides_iff; [apply decides_update|]. naive_solver.
  - naive_solver.
Qed.

Lemma moved_moved Γ p l Γ' p' l' c : moved Γ' p' l' (moved Γ p l c) = moved Γ' p' (l ++ l') c.
Proof. unfold moved; simpl. by rewrite foldl_app. Qed.

Lemma recorded_moved Γ p l l' c : recorded l' (moved Γ p l c) = moved Γ p (l ++ l') c.
Proof. unfold recorded, moved; simpl. by rewrite foldl_app. Qed.

Lemma decides_if cond a b s :
  Forall decides_statement a -> Forall decides_statement b -> decides_statement (SIf cond a b s).
Proof.
  intros Ha Hb c. simpl. eapply decides_iff.
  - eapply (decides_bind _ _ _ _ (fun _ c1 _ c' =>
      (exists Γa pa, block_typed (symbols c1) None a Γa pa) /\
      (exists Γb pb, block_typed (symbols c1) None b Γb pb) /\
      c' = moved (symbols c1) None (concat (List.map statement_calls a) ++ concat (List.map statement_calls b)) c1));
      [apply decides_condition|].
    intros _ c1 _. eapply decides_iff.
    + eapply decides_bind; [by apply decides_nested|]. intros ? c2 ?.
      eapply decides_bind; [by apply decides_nested|]. intros ? c3 ?. apply decides_update.
    + intros [] c'. split.
      * intros ([] & c2 & (Γa & pa & H1 & ->) & [] & c3 & (Γb & pb & H2 & ->) & ->).
        split_and!; [eauto|eauto|]. rewrite recorded_app. done.
      * intros ((Γa & pa & H1) & (Γb & pb & H2) & ->). eexists tt, _. split; [eauto|].
        eexists tt, _. split; [simpl; eauto|]. rewrite recorded_app. done.
  - intros [] c'. split.
    + intros ([] & c1 & [(o & Ho & Ht) ->] & (Γa & pa & H1) & (Γb & pb & H2) & ->).
      eexists _, _. split; [by econstructor|]. by rewrite moved_moved.
    + intros (Γ' & p' & H & ->). inv H. eexists tt, _. split; [split; [eauto|done]|]. simpl.
      split_and!; [eauto|eauto|]. by rewrite moved_moved.
Qed.

Lemma decides_while n cond a s : Forall decides_statement a -> decides_statement (SWhile n cond a s).
Proof.
  intros Ha c. simpl. destruct (Z.ltb_spec MAX_LOOP_BUDGET n) as [Hn|Hn].
  { apply decides_error. intros [] c' (Γ' & p' & H & _). inv H. lia. }
  eapply decides_iff.
  - eapply (decides_bind _ _ _ _ (fun _ c1 _ c' =>
      (exists Γa pa, block_typed (symbols c1) None a Γa pa) /\
      c' = moved (symbols c1) None (concat (List.map statement_calls a)) c1)); [apply decides_condition|].
    intros _ c1 _. eapply decides_iff.
    + eapply decides_bind; [by apply decides_nested|]. intros ? c2 ?. apply decides_update.
    + intros [] c'. split.
      * intros ([] & c2 & (Γa & pa & H1 & ->) & ->). split; [eauto|done].
      * intros ((Γa & pa & H1) & ->). eexists tt, _. split; [eauto|]. done.
  - intros [] c'. split.
    + intros ([] & c1 & [(o & Ho & Ht) ->] & (Γa & pa & H1) & ->).
      eexists _, _. split; [by econstructor|]. by rewrite moved_moved.
    + intros (Γ' & p' & H & ->). inv H. eexists tt, _. split; [split; [eauto|done]|]. simpl.
      split; [eauto|]. by rewrite moved_moved.
Qed.

Lemma decides_define n info c :
  decides (define_symbol n info) c (fun _ c' => (ident_text n ∉ fst <$> symbols c) /\
    c' = moved (symbols c ++ [(ident_text n, info)]) (pending_host_producer c) [] c).
Proof.
  unfold define_symbol. eapply decides_reads_then; [done|].
  case_bool_decide; [apply decides_error; naive_solver|].
  eapply decides_iff; [apply decides_update|]. naive_solver.
Qed.

Lemma decides_finish o c :
  decides (finish_expression o) c (fun _ c' =>
    c' = moved (symbols c) (pending_after o (pending_host_producer c)) [] c).
Proof.
  unfold finish_expression, pending_after. destruct (out_host_result_access o).
  - apply decides_ret_iff. intros [] c'. destruct c. unfold moved; simpl. naive_solver.
  - eapply decides_iff; [apply decides_update|]. done.
Qed.

Lemma decides_let n t e s : decides_statement (SLet n t e s).
Proof.
  intros c. simpl. eapply decides_iff.
  - apply decides_then; [apply decides_expression|]. intros o Ho.
    instantiate (1 := fun o _ c' => out_ty o = ast_type_to_pyth_type t /\ (ident_text n ∉ fst <$> symbols c) /\
      c' = moved (symbols c ++ [(ident_text n, let_info (ast_type_to_pyth_type t) o)])
             (pending_after o (pending_host_producer c)) (expression_calls e) c). simpl.
    case_bool_decide as Ht; simpl; [|apply decides_error; naive_solver].
    eapply decides_iff.
    + eapply decides_bind; [apply decides_define|]. intros ? c1 ?. apply decides_finish.
    + intros [] c'. split.
      * intros ([] & c1 & [Hn ->] & ->). simpl in *. split_and!; [done|done|].
        unfold moved; simpl. done.
      * intros (_ & Hn & ->). by eexists tt, _.
  - intros [] c'. split.
    + intros (o & Ho & Ht & Hn & ->). eexists _, _. split; [by econstructor|done].
    + intros (Γ' & p' & H & ->). inv H. eauto 10.
Qed.

Lemma decides_expr_statement e : decides_statement (SExpr e).
Proof.
  intros c. simpl. eapply decides_iff.
  - apply decides_then; [apply decides_expression|]. intros o Ho. apply decides_finish.
  - intros [] c'. split.
    + intros (o & Ho & ->). eexists _, _. split; [by econstructor|done].
    + intros (Γ' & p' & H & ->). inv H. eauto.
Qed.

Lemma decides_return s : decides_statement (SReturn s).
Proof.
  intros c. simpl. eapply decides_iff; [apply decides_update|]. intros [] c'. split.
  - intros ->. eexists _, _. split; [constructor|done].
  - intros (Γ' & p' & H & ->). by inv H.
Qed.

Lemma decides_any_statement st : decides_statement st.
Proof.
  induction st using statement_rect_nested;
    auto using decides_let, decides_if, decides_while, decides_expr_statement, decides_return.
Qed.

(** ** Programs *)

Lemma decides_import d c :
  decides (check_import d) c (fun _ c' => exists kind bits,
    resource_kind (import_resource d) = Some kind /\ rights_bits (import_rights d) = Some bits /\
    (ident_text (import_name d) ∉ fst <$> symbols c) /\
    c' = moved (symbols c ++ [(ident_text (import_name d),
                {| sym_ty := Ty.Capability;
                   sym_capability := Some {| cap_resource_kind := kind; cap_rights := bits |} |})])
           (pending_host_producer c) [] c).
Proof.
  unfold check_import, capability_info_for_import.
  destruct (resource_kind (import_resource d)) as [kind|]; simpl;
    [|apply decides_fail_then; naive_solver].
  destruct (rights_bits (import_rights d)) as [bits|]; simpl; [|apply decides_fail_then; naive_solver].
  eapply decides_pure_then; [done|]. eapply decides_iff; [apply decides_define|]. naive_solver.
Qed.

Lemma decides_imports ds c :
  decides (check_imports ds) c (fun _ c' => exists Γ', imports_typed (symbols c) ds Γ' /\
    c' = moved Γ' (pending_host_producer c) [] c).
Proof.
  revert c. induction ds as [|d ds IH]; intros c; simpl.
  - apply decides_ret_iff. intros [] c'. split.
    + intros (Γ' & H & ->). inv H. split; [done|]. by destruct c.
    + intros [_ ->]. exists (symbols c). split; [constructor|]. by destruct c.
  - eapply decides_iff; [eapply decides_bind; [apply decides_import|intros ? c1 _; apply IH]|].
    intros [] c'. split.
    + intros ([] & c1 & (kind & bits & Hk & Hb & Hn & ->) & Γ' & H & ->). exists Γ'.
      split; [by econstructor|done].
    + intros (Γ' & H & ->). inv H. eexists tt, _. split; [eexists _, _; split_and!; done|].
      eexists. by split.
Qed.

(** C6: the type checker decides the typing rules. It stops without a panic on
    every program; it accepts a program exactly when the program is typed:
    every name is in scope and no name is bound twice, conditions are boolean,
    loop budgets are at most 65536, operators do not touch capabilities, every
    call passes a capability of the resource kind and with the rights that its
    intrinsic requires, and result accessors directly follow the host call
    they read. The accepted program is returned with the intrinsics that it
    calls, each once, in the order of their first calls. *)
Theorem typecheck_program_exact p :
  (forall t, typecheck_program p = Ok t <->
     program_typed p /\ t = {| typed_program := p; typed_main := Ty.Unit;
                               typed_required_intrinsics := program_calls p |}) /\
  match typecheck_program p with Ok _ | Err _ => True | _ => False end.
Proof.
  assert (decides (check_program p) checker_new (fun t c' => program_typed p /\
    t = {| typed_program := p; typed_main := Ty.Unit; typed_required_intrinsics := program_calls p |} /\
    required_intrinsics c' = program_calls p /\ exists Γ Γ' p', imports_typed [] (program_imports p) Γ /\
      block_typed Γ None (fn_statements (main p)) Γ' p' /\ c' = moved Γ' p'
        (concat (List.map statement_calls (fn_statements (main p)))) checker_new)) as [Hd Ht].
  { unfold check_program. eapply decides_iff.
    - eapply decides_bind; [apply decides_imports|]. intros u1 c1 _.
      eapply decides_bind; [apply decides_block, Forall_true, decides_any_statement|]. intros u2 c2 _.
      eapply decides_reads_then; [done|]. apply decides_ret.
    - intros t c'. split.
      + intros ([] & c1 & (Γ & H1 & ->) & [] & c2 & (Γ' & p' & H2 & ->) & -> & ->).
        split_and!; [by exists Γ, Γ', p'|done|done|]. by exists Γ, Γ', p'.
      + intros (_ & -> & _ & Γ & Γ' & p' & H1 & H2 & ->). eexists tt, _. split; [eauto|].
        eexists tt, _. split; [eauto|done]. }
  unfold typecheck_program, outcome_of. split; [|done]. intros t.
  destruct (check_program p checker_new) as [r c'] eqn:Hc; simpl. split.
  - intros ->. destruct (proj1 (Hd t c') eq_refl) as (? & ? & _). done.
  - intros [(Γ & Γ' & p' & H1 & H2) ->].
    assert ((r, c') = (Ok {| typed_program := p; typed_main := Ty.Unit;
      typed_required_intrinsics := program_calls p |}, moved Γ' p'
        (concat (List.map statement_calls (fn_statements (main p)))) checker_new)) as [= -> _]; [|done].
    apply Hd. split_and!; [by exists Γ, Γ', p'|done|done|]. by exists Γ, Γ', p'.
Qed.
