(* ===== verification/PythcLower.v ===== *)
(** * Lowering to instruction graphs

    Models [tools/pythc/src/lower.rs]: a typed program becomes the graph that
    [encode.rs] writes. The builder appends nodes to the current block, keeps
    the effect token that the next effect must consume, interns strings and
    constants, and remembers which host call a projection may still read.

    [usize] and [u32] counters that the source adds to panic on overflow;
    conversions with [as] wrap. *)

From stdpp Require Import base numbers list.
From Stdlib Require Import Strings.Byte.
From S2P Require Import Prelude Utf8 TigTypes TigFormat TigVerify TigEncode TigRuntime Kernel.
From S2P Require Import PythcSyntax PythcLexer PythcParser PythcTypecheck.

Definition rejected (span : Span) : Diagnostic :=
  diagnostic "G0001" "shared verifier rejected compiler output" span.

(** ** The graph builder *)

Record BlockBuilder := { first_node : option Z; node_count : Z }.

Record GraphBuilder := {
  bld_principal : Z;
  bld_imports : list GraphImport;
  block_builders : list BlockBuilder;
  bld_nodes : list GraphNode;
  bld_constants : list byte;
  bld_strings : list byte;
  bld_loop_budgets : list Z;
  locals : list (list byte * Z);
  current_block : Z;
  current_effect : Z;
}.

Abbreviation building := (action GraphBuilder Diagnostic).

Definition builder_new (principal : Z) (program_name : list byte) : GraphBuilder := {|
  bld_principal := principal; bld_imports := []; block_builders := []; bld_nodes := [];
  bld_constants := []; bld_strings := program_name ++ [x00]; bld_loop_budgets := [];
  locals := []; current_block := 0; current_effect := NO_VALUE |}.

Definition with_imports (b : GraphBuilder) v : GraphBuilder := {|
  bld_principal := bld_principal b; bld_imports := v; block_builders := block_builders b;
  bld_nodes := bld_nodes b; bld_constants := bld_constants b; bld_strings := bld_strings b;
  bld_loop_budgets := bld_loop_budgets b; locals := locals b; current_block := current_block b;
  current_effect := current_effect b |}.

Definition with_graph (b : GraphBuilder) blocks nodes : GraphBuilder := {|
  bld_principal := bld_principal b; bld_imports := bld_imports b; block_builders := blocks;
  bld_nodes := nodes; bld_constants := bld_constants b; bld_strings := bld_strings b;
  bld_loop_budgets := bld_loop_budgets b; locals := locals b; current_block := current_block b;
  current_effect := current_effect b |}.

Definition with_tables (b : GraphBuilder) constants strings : GraphBuilder := {|
  bld_principal := bld_principal b; bld_imports := bld_imports b; block_builders := block_builders b;
  bld_nodes := bld_nodes b; bld_constants := constants; bld_strings := strings;
  bld_loop_budgets := bld_loop_budgets b; locals := locals b; current_block := current_block b;
  current_effect := current_effect b |}.

Definition with_budgets (b : GraphBuilder) v : GraphBuilder := {|
  bld_principal := bld_principal b; bld_imports := bld_imports b; block_builders := block_builders b;
  bld_nodes := bld_nodes b; bld_constants := bld_constants b; bld_strings := bld_strings b;
  bld_loop_budgets := v; locals := locals b; current_block := current_block b;
  current_effect := current_effect b |}.

Definition with_locals (b : GraphBuilder) v : GraphBuilder := {|
  bld_principal := bld_principal b; bld_imports := bld_imports b; block_builders := block_builders b;
  bld_nodes := bld_nodes b; bld_constants := bld_constants b; bld_strings := bld_strings b;
  bld_loop_budgets := bld_loop_budgets b; locals := v; current_block := current_block b;
  current_effect := current_effect b |}.

Definition with_position (b : GraphBuilder) block effect : GraphBuilder := {|
  bld_principal := bld_principal b; bld_imports := bld_imports b; block_builders := block_builders b;
  bld_nodes := bld_nodes b; bld_constants := bld_constants b; bld_strings := bld_strings b;
  bld_loop_budgets := bld_loop_budgets b; locals := locals b; current_block := block;
  current_effect := effect |}.

Definition add_block : building Z :=
  id ← reads (fun b => Ok (len (block_builders b)));
  update (fun b => with_graph b (block_builders b ++ [{| first_node := None; node_count := 0 |}])
                     (bld_nodes b));;
  mret id.

Definition switch_block (block : Z) : building unit :=
  update (fun b => with_position b block (current_effect b)).

Definition set_effect (effect : Z) : building unit :=
  update (fun b => with_position b (current_block b) effect).

(** [inputs] is the array of four. *)
Definition push_node (opcode : Opcode) (result_type : PythType) (inputs : Z * Z * Z * Z)
    (auxiliary0 auxiliary1 immediate : Z) : building Z :=
  let '(i0, i1, i2, i3) := inputs in
  node_index ← reads (fun b => Ok (wrap 32 (len (bld_nodes b))));
  block ← reads (fun b => index (block_builders b) (current_block b));
  count ← pure (expect (checked_add 32 (node_count block) 1));
  let block' := {| first_node := Some (default node_index (first_node block)); node_count := count |} in
  blocks ← reads (fun b => index_set (block_builders b) (current_block b) block');
  update (fun b => with_graph b blocks
    (bld_nodes b ++ [{| gn_opcode := opcode; gn_result_type := result_type;
                       gn_block_index := wrap 16 (current_block b);
                       gn_input0 := i0; gn_input1 := i1; gn_input2 := i2; gn_input3 := i3;
                       gn_auxiliary0 := auxiliary0; gn_auxiliary1 := auxiliary1;
                       gn_immediate := immediate |}]));;
  mret node_index.

Definition no_inputs : Z * Z * Z * Z := (NO_VALUE, NO_VALUE, NO_VALUE, NO_VALUE).

Definition push_branch (condition then_block else_block : Z) : building unit :=
  push_node Op.Branch Ty.Unit (condition, NO_VALUE, NO_VALUE, NO_VALUE) then_block else_block 0;;
  mret tt.

Definition push_jump (target : Z) : building unit :=
  push_node Op.Jump Ty.Unit no_inputs target 0 0;; mret tt.

Definition push_return : building unit :=
  push_node Op.Return Ty.Unit no_inputs 0 0 0;; mret tt.

Definition start_entry : building unit :=
  add_block;;
  effect ← push_node Op.EffectStart Ty.Effect no_inputs 0 0 0;
  set_effect effect.

(** [first + block.node_count - 1] *)
Definition last_node {E} (first count : Z) : outcome E Z :=
  s ← expect (checked_add 32 first count);
  expect (checked 32 (s - 1)).

Definition current_block_is_terminated : building bool :=
  reads (fun b =>
    match get (block_builders b) (current_block b) with
    | None => Ok false
    | Some block =>
        match first_node block with
        | None => Ok false
        | Some first =>
            last ← last_node first (node_count block);
            Ok match get (bld_nodes b) last with
               | Some node => terminator (signature (gn_opcode node))
               | None => false
               end
        end
    end).

(** [haystack.windows(needle.len()).position(..)], and [0] for an empty needle. *)
Fixpoint window_position (needle haystack : list byte) (i : Z) : option Z :=
  if bool_decide (take (length needle) haystack = needle) then Some i
  else match haystack with [] => None | _ :: haystack' => window_position needle haystack' (i + 1) end.

Definition find_subslice (haystack needle : list byte) : option Z :=
  match needle with [] => Some 0 | _ => window_position needle haystack 0 end.

(** [u32::try_from(offset)] and [u16::try_from(bytes.len())] *)
Definition table_range (offset : Z) (bytes : list byte) : building (Z * Z) :=
  offset ← pure (ok_or (checked 32 offset) (rejected default_span));
  length ← pure (ok_or (checked 16 (len bytes)) (rejected default_span));
  mret (offset, length).

Definition intern_string (bytes : list byte) : building (Z * Z) :=
  table ← reads (fun b => Ok (bld_strings b));
  match find_subslice table bytes with
  | Some offset => table_range offset bytes
  | None =>
      r ← table_range (len table) bytes;
      update (fun b => with_tables b (bld_constants b) (bld_strings b ++ bytes));;
      mret r
  end.

Definition intern_constant (bytes : list byte) : building (Z * Z) :=
  pool ← reads (fun b => Ok (bld_constants b));
  r ← table_range (len pool) bytes;
  update (fun b => with_tables b (bld_constants b ++ bytes) (bld_strings b));;
  mret r.

(** [.expect(..)] on the result of [intern_string]. *)
Definition expect_interned (bytes : list byte) : building (Z * Z) := fun b =>
  match intern_string bytes b with
  | (Err _, b') => (Panic, b')
  | r => r
  end.

Definition add_import (name : list byte) (kind rights slot : Z) : building unit :=
  '(name_offset, name_len) ← expect_interned name;
  update (fun b => with_imports b (bld_imports b ++
    [{| gi_name_offset := name_offset; gi_name_len := name_len; gi_resource_kind := kind;
        gi_rights := rights; gi_expected_type := Ty.Capability; gi_import_slot := slot |}])).

Definition define_local (name : list byte) (node : Z) : building unit :=
  update (fun b => with_locals b (locals b ++ [(name, node)])).

Definition lookup_local (name : list byte) : building (option Z) :=
  reads (fun b => Ok (lookup_last name (locals b))).

Definition finish_block (id : Z) (block : BlockBuilder) : D GraphBlock :=
  match first_node block with
  | None => Err (rejected default_span)
  | Some first =>
      last ← last_node first (node_count block);
      Ok {| gb_block_id := wrap 32 id; gb_first_node := first; gb_node_count := node_count block;
            gb_parameter_count := 0; gb_terminator_node := last |}
  end.

Definition finish (b : GraphBuilder) : D OwnedGraph :=
  blocks ← foldM (fun blocks '(id, block) => gb ← finish_block id block; Ok (blocks ++ [gb]))
             [] (enumerate (block_builders b));
  Ok {| g_principal_id := bld_principal b; g_imports := bld_imports b; g_blocks := blocks;
        g_nodes := bld_nodes b; g_constant_pool := bld_constants b; g_string_table := bld_strings b;
        g_loop_budgets := bld_loop_budgets b |}.

(** ** The lowerer *)

Record Lowerer := {
  builder : GraphBuilder;
  pending_host : option (HostProducer * Z);
  pending_task_context : option (Z * Z);
  pending_command_read : option (Z * Z);
}.

Abbreviation lowering := (action Lowerer Diagnostic).

Definition lowerer_new (program : Program) : Lowerer := {|
  builder := builder_new (principal_id program) (ident_text (program_name program));
  pending_host := None; pending_task_context := None; pending_command_read := None |}.

(** A method of [self.builder]. *)
Definition on_builder {A} (m : building A) : lowering A := fun l =>
  let '(r, b) := m (builder l) in
  (r, {| builder := b; pending_host := pending_host l;
         pending_task_context := pending_task_context l;
         pending_command_read := pending_command_read l |}).

Definition set_pending_producers (host : option (HostProducer * Z)) (task command : option (Z * Z)) :
    lowering unit :=
  update (fun l => {| builder := builder l; pending_host := host; pending_task_context := task;
                      pending_command_read := command |}).

Definition clear_pending_producers : lowering unit := set_pending_producers None None None.

Definition get_effect : lowering Z := reads (fun l => Ok (current_effect (builder l))).

Definition node (opcode : Opcode) (result_type : PythType) (inputs : Z * Z * Z * Z)
    (auxiliary0 auxiliary1 immediate : Z) : lowering Z :=
  on_builder (push_node opcode result_type inputs auxiliary0 auxiliary1 immediate).

Definition push_effect_node (opcode : Opcode) (inputs : Z * Z * Z * Z)
    (producer : option HostProducer) : lowering Z :=
  effect_node ← node opcode Ty.Effect inputs 0 0 0;
  on_builder (set_effect effect_node);;
  update (fun l => {|
    builder := builder l;
    pending_host := (fun p => (p, effect_node)) <$> producer;
    pending_task_context := if bool_decide (opcode = Op.TaskContextRead) then pending_task_context l else None;
    pending_command_read := if bool_decide (opcode = Op.CommandRead) then pending_command_read l else None |});;
  mret effect_node.

Definition push_host_result (producer field : Z) (result_type : PythType) : lowering Z :=
  node Op.HostResult result_type (producer, NO_VALUE, NO_VALUE, NO_VALUE) field 0 0.

Definition reject_at {A} (span : Span) : lowering A := pure (Err (rejected span)).

(** *** Literals *)

Definition lower_literal (l : Literal) (expected : option PythType) : lowering Z :=
  match l with
  | LBool value _ =>
      clear_pending_producers;;
      node Op.ConstBool Ty.Bool no_inputs 0 0 (if value then 1 else 0)
  | LString value _ =>
      '(opcode, result_type, offset, length) ←
        (if bool_decide (expected = Some Ty.Bytes) then
           '(offset, length) ← on_builder (intern_constant value);
           mret (Op.ConstBytes, Ty.Bytes, offset, length)
         else
           '(offset, length) ← on_builder (intern_string value);
           mret (Op.ConstUtf8, Ty.Utf8, offset, length));
      clear_pending_producers;;
      node opcode result_type no_inputs offset length 0
  | LInteger text span =>
      value ← pure (ok_or (from_str_radix 10 text) (rejected span));
      let ty := integer_type expected in
      clear_pending_producers;;
      node (if bool_decide (ty = Ty.I64) then Op.ConstI64 else Op.ConstU64) ty no_inputs 0 0 value
  end.

(** *** Calls *)

Definition opcode_for_intrinsic (i : Intrinsic) : option Opcode :=
  match i with
  | In.SystemLog => Some Op.SystemLog
  | In.ObjectCreate => Some Op.ObjectCreate
  | In.ObjectQuery => Some Op.ObjectQuery
  | In.ObjectInspect => Some Op.ObjectInspect
  | In.ObjectRevise => Some Op.ObjectRevise
  | In.ObjectHistory => Some Op.ObjectHistory
  | In.CommandResultEmit => Some Op.CommandResultEmit
  | _ => None
  end.

(** An argument together with its lowering, [self.lower_expression(arg, _)]. *)
Record Arg := { arg_expr : Expression; lower_arg : option PythType -> lowering Z }.

Definition arg_at (args : list Arg) (i : Z) : lowering Arg := pure (index args i).

Definition is_some {A} (o : option A) : bool := match o with Some _ => true | None => false end.

(** [lowered_args[index + 1] = ..] for the first three arguments; the fourth
    would be out of bounds. *)
Definition set_input (inputs : Z * Z * Z * Z) (i v : Z) : outcome Diagnostic (Z * Z * Z * Z) :=
  let '(i0, i1, i2, i3) := inputs in
  if i =? 0 then Ok (v, i1, i2, i3)
  else if i =? 1 then Ok (i0, v, i2, i3)
  else if i =? 2 then Ok (i0, i1, v, i3)
  else if i =? 3 then Ok (i0, i1, i2, v)
  else Panic.

Fixpoint lower_args (i : Z) (inputs : Z * Z * Z * Z) (args : list Arg) (types : list PythType) :
    lowering (Z * Z * Z * Z) :=
  match args, types with
  | arg :: args', expected :: types' =>
      v ← lower_arg arg (Some expected);
      inputs ← pure (set_input inputs (i + 1) v);
      lower_args (i + 1) inputs args' types'
  | _, _ => mret inputs
  end.

Definition lower_generic_effectful_intrinsic (i : Intrinsic) (args : list Arg) (span : Span) :
    lowering Z :=
  opcode ← pure (ok_or (opcode_for_intrinsic i) (rejected span));
  effect ← get_effect;
  inputs ← lower_args 0 (effect, NO_VALUE, NO_VALUE, NO_VALUE) args (arg_types i);
  push_effect_node opcode inputs None.

Definition lower_object_kind (e : Expression) : lowering Z :=
  match e with
  | ELiteral (LInteger text span) =>
      kind ← match from_str_radix 10 text with
             | Some 1 => mret (bs "note")
             | Some 2 => mret (bs "package-defined")
             | _ => reject_at span
             end;
      '(offset, length) ← on_builder (intern_string kind);
      clear_pending_producers;;
      node Op.ConstUtf8 Ty.Utf8 no_inputs offset length 0
  | _ => reject_at (expression_span e)
  end.

Definition lower_object_workspace_intrinsic (i : Intrinsic) (args : list Arg) (span : Span)
    (expected : option PythType) : lowering Z :=
  opcode ← pure (ok_or (opcode_for_intrinsic i) (rejected span));
  a0 ← arg_at args 0;
  capability ← lower_arg a0 (Some Ty.Capability);
  a1 ← arg_at args 1;
  object_kind ← lower_object_kind (arg_expr a1);
  effect ← get_effect;
  p ← push_effect_node opcode (effect, capability, object_kind, NO_VALUE) (producer i);
  if is_some expected then push_host_result p HOST_RESULT_OBJECT_ID Ty.ObjectId else mret p.

Definition lower_revision_payload (a : Arg) : lowering Z :=
  match arg_expr a with
  | ELiteral (LString _ _) => lower_arg a (Some Ty.Bytes)
  | _ => reject_at (expression_span (arg_expr a))
  end.

Definition lower_object_revise (args : list Arg) (expected : option PythType) : lowering Z :=
  a0 ← arg_at args 0;
  capability ← lower_arg a0 (Some Ty.Capability);
  a1 ← arg_at args 1;
  object_id ← lower_arg a1 (Some Ty.ObjectId);
  a3 ← arg_at args 3;
  payload ← lower_revision_payload a3;
  effect ← get_effect;
  p ← push_effect_node Op.ObjectRevise (effect, capability, object_id, payload) None;
  if is_some expected then push_host_result p HOST_RESULT_REVISION Ty.RevisionId else mret p.

Definition lower_object_read_intrinsic (i : Intrinsic) (args : list Arg) (span : Span)
    (expected : option PythType) : lowering Z :=
  opcode ← pure (ok_or (opcode_for_intrinsic i) (rejected span));
  a0 ← arg_at args 0;
  capability ← lower_arg a0 (Some Ty.Capability);
  a1 ← arg_at args 1;
  object_id ← lower_arg a1 (Some Ty.ObjectId);
  effect ← get_effect;
  p ← push_effect_node opcode (effect, capability, object_id, NO_VALUE) (producer i);
  match i, expected with
  | In.ObjectInspect, Some Ty.Utf8 => push_host_result p HOST_RESULT_UTF8 Ty.Utf8
  | In.ObjectHistory, Some _ => reject_at span
  | _, _ => mret p
  end.

Definition host_result_field (p : HostProducer) (access : HostResultAccess) : option (Z * PythType) :=
  match p, access with
  | Hp.ObjectCreate, Hr.CreatedCapability | Hp.ObjectQuery, Hr.QueriedCapability =>
      Some (HOST_RESULT_CAPABILITY, Ty.Capability)
  | Hp.ObjectCreate, Hr.CreatedRevision | Hp.ObjectInspect, Hr.InspectedRevision =>
      Some (HOST_RESULT_REVISION, Ty.RevisionId)
  | _, _ => None
  end.

Definition lower_host_result_access (access : HostResultAccess) (span : Span) : lowering Z :=
  pending ← reads (fun l => Ok (pending_host l));
  match pending with
  | None => reject_at span
  | Some (p, n) =>
      '(field, result_type) ← pure (ok_or (host_result_field p access) (rejected span));
      push_host_result n field result_type
  end.

(** The pending read of the same capability that the effect token still
    belongs to, or a new one. *)
Definition shared_read (pending : option (Z * Z)) (opcode : Opcode) (capability : Z) : lowering Z :=
  effect ← get_effect;
  let fresh := push_effect_node opcode (effect, capability, NO_VALUE, NO_VALUE) None in
  match pending with
  | Some (pending_capability, p) =>
      if (pending_capability =? capability) && (effect =? p) then mret p else fresh
  | None => fresh
  end.

Definition task_context_field (i : Intrinsic) : option (Z * PythType) :=
  match i with
  | In.TaskContextActive => Some (TASK_CONTEXT_RESULT_ACTIVE_TASK_ID, Ty.TaskId)
  | In.TaskContextCandidate => Some (TASK_CONTEXT_RESULT_CANDIDATE_TASK_ID, Ty.TaskId)
  | In.TaskContextScore => Some (TASK_CONTEXT_RESULT_CONFIDENCE_SCORE, Ty.U64)
  | In.TaskContextKind => Some (TASK_CONTEXT_RESULT_PROPOSAL_KIND, Ty.U64)
  | In.TaskContextReason => Some (TASK_CONTEXT_RESULT_REASON_UTF8, Ty.Utf8)
  | _ => None
  end.

Definition lower_task_context_accessor (i : Intrinsic) (args : list Arg) (span : Span) : lowering Z :=
  a0 ← arg_at args 0;
  capability ← lower_arg a0 (Some Ty.Capability);
  pending ← reads (fun l => Ok (pending_task_context l));
  p ← shared_read pending Op.TaskContextRead capability;
  update (fun l => {| builder := builder l; pending_host := pending_host l;
                      pending_task_context := Some (capability, p);
                      pending_command_read := pending_command_read l |});;
  '(field, result_type) ← pure (ok_or (task_context_field i) (rejected span));
  push_host_result p field result_type.

Definition command_field (i : Intrinsic) : option (Z * PythType) :=
  match i with
  | In.CommandKind => Some (COMMAND_FIELD_KIND, Ty.U64)
  | In.CommandObject => Some (COMMAND_FIELD_OBJECT_ID, Ty.ObjectId)
  | In.CommandTask => Some (COMMAND_FIELD_TASK_ID, Ty.TaskId)
  | In.CommandProposal => Some (COMMAND_FIELD_PROPOSAL_ID, Ty.ProposalId)
  | In.CommandText => Some (COMMAND_FIELD_TEXT_UTF8, Ty.Utf8)
  | _ => None
  end.

Definition lower_command_accessor (i : Intrinsic) (args : list Arg) (span : Span) : lowering Z :=
  a0 ← arg_at args 0;
  capability ← lower_arg a0 (Some Ty.Capability);
  pending ← reads (fun l => Ok (pending_command_read l));
  p ← shared_read pending Op.CommandRead capability;
  update (fun l => {| builder := builder l; pending_host := pending_host l;
                      pending_task_context := pending_task_context l;
                      pending_command_read := Some (capability, p) |});;
  '(field, result_type) ← pure (ok_or (command_field i) (rejected span));
  push_host_result p field result_type.

Definition lower_task_propose (args : list Arg) (expected : option PythType) (span : Span) :
    lowering Z :=
  if is_some expected then reject_at span
  else
    a0 ← arg_at args 0;
    capability ← lower_arg a0 (Some Ty.Capability);
    a1 ← arg_at args 1;
    candidate ← lower_arg a1 (Some Ty.TaskId);
    a2 ← arg_at args 2;
    score ← lower_arg a2 (Some Ty.U64);
    effect ← get_effect;
    push_effect_node Op.TaskProposalEmit (effect, capability, candidate, score) None.

Definition lower_intrinsic (i : Intrinsic) (args : list Arg) (span : Span)
    (expected : option PythType) : lowering Z :=
  match i with
  | In.ObjectCreatedCapability | In.ObjectCreatedRevision | In.ObjectQueriedCapability
  | In.ObjectInspectedRevision =>
      access ← pure (ok_or (host_result_access i) (rejected span));
      lower_host_result_access access span
  | In.ObjectCreate | In.ObjectQuery => lower_object_workspace_intrinsic i args span expected
  | In.ObjectInspect | In.ObjectHistory => lower_object_read_intrinsic i args span expected
  | In.ObjectRevise => lower_object_revise args expected
  | In.TaskContextActive | In.TaskContextCandidate | In.TaskContextScore | In.TaskContextKind
  | In.TaskContextReason => lower_task_context_accessor i args span
  | In.CommandKind | In.CommandObject | In.CommandTask | In.CommandProposal
  | In.CommandText => lower_command_accessor i args span
  | In.TaskPropose => lower_task_propose args expected span
  | _ => lower_generic_effectful_intrinsic i args span
  end.

(** *** Expressions *)

Definition binary_opcode (op : BinaryOp) : Opcode * PythType * PythType :=
  match op with
  | Bin.Equal => (Op.Eq, Ty.Bool, Ty.U64)
  | Bin.Less => (Op.LessThanU64, Ty.Bool, Ty.U64)
  | Bin.Add => (Op.AddU64, Ty.U64, Ty.U64)
  | Bin.Subtract => (Op.SubU64, Ty.U64, Ty.U64)
  | Bin.And => (Op.BoolAnd, Ty.Bool, Ty.Bool)
  | Bin.Or => (Op.BoolOr, Ty.Bool, Ty.Bool)
  end.

Fixpoint lower_expression (e : Expression) (expected : option PythType) : lowering Z :=
  match e with
  | ELiteral l => lower_literal l expected
  | EName name =>
      v ← on_builder (lookup_local (ident_text name));
      pure (ok_or v (rejected (ident_span name)))
  | ECall callee args span =>
      i ← pure (ok_or (from_name (ident_text callee)) (rejected (ident_span callee)));
      lower_intrinsic i (List.map (fun a => {| arg_expr := a; lower_arg := lower_expression a |}) args)
        span expected
  | EUnary Not e' _ =>
      input ← lower_expression e' (Some Ty.Bool);
      clear_pending_producers;;
      node Op.BoolNot Ty.Bool (input, NO_VALUE, NO_VALUE, NO_VALUE) 0 0 0
  | EBinary op l r _ =>
      let '(opcode, result, expected_inputs) := binary_opcode op in
      left ← lower_expression l (Some expected_inputs);
      right ← lower_expression r (Some expected_inputs);
      clear_pending_producers;;
      node opcode result (left, right, NO_VALUE, NO_VALUE) 0 0 0
  end.

(** ** Statements *)

(** The effect token and the three pending producers, which [lower_if] saves
    and restores together. *)
Record Incoming := {
  in_effect : Z;
  in_host : option (HostProducer * Z);
  in_task_context : option (Z * Z);
  in_command_read : option (Z * Z);
}.

Definition save_incoming : lowering Incoming :=
  reads (fun l => Ok {| in_effect := current_effect (builder l); in_host := pending_host l;
                        in_task_context := pending_task_context l;
                        in_command_read := pending_command_read l |}).

Definition restore_incoming (i : Incoming) : lowering unit :=
  on_builder (set_effect (in_effect i));;
  set_pending_producers (in_host i) (in_task_context i) (in_command_read i).

Definition terminated : lowering bool := on_builder current_block_is_terminated.

(** [*join_block.get_or_insert_with(|| self.builder.add_block())] *)
Definition get_or_add_block (join_block : option Z) : lowering Z :=
  match join_block with
  | Some block => mret block
  | None => on_builder add_block
  end.

(** [push_jump(target as u32)] to the join block from a branch that did not end. *)
Definition jump_to_join (ended : bool) (join_block : option Z) : lowering (option Z) :=
  if ended then mret join_block
  else
    target ← get_or_add_block join_block;
    clear_pending_producers;;
    on_builder (push_jump (wrap 32 target));;
    mret (Some target).

(** The [match] over which of the branches reach the join block. *)
Definition join_incoming (then_ended else_ended : bool) (then_state else_state : Incoming) :
    lowering unit :=
  match negb then_ended, negb else_ended with
  | true, false => restore_incoming then_state
  | false, true => restore_incoming else_state
  | true, true =>
      if in_effect then_state =? in_effect else_state then restore_incoming then_state
      else on_builder (set_effect NO_VALUE);; clear_pending_producers
  | false, false => mret tt
  end.

Section block.
Context (lower_statement : Statement -> lowering unit).

(** The loop of [lower_statements], with its [break]. *)
Fixpoint lower_statements (statements : list Statement) : lowering unit :=
  match statements with
  | [] => mret tt
  | st :: statements' =>
      ended ← terminated;
      if (ended : bool) then mret tt
      else lower_statement st;; lower_statements statements'
  end.

Definition lower_if (condition : Expression) (then_statements else_statements : list Statement) :
    lowering unit :=
  condition ← lower_expression condition (Some Ty.Bool);
  clear_pending_producers;;
  incoming ← save_incoming;
  then_block ← on_builder add_block;
  else_block ← on_builder add_block;
  on_builder (push_branch condition (wrap 32 then_block) (wrap 32 else_block));;
  on_builder (switch_block then_block);;
  restore_incoming incoming;;
  lower_statements then_statements;;
  then_ended ← terminated;
  then_state ← save_incoming;
  join_block ← jump_to_join then_ended None;
  on_builder (switch_block else_block);;
  restore_incoming incoming;;
  lower_statements else_statements;;
  else_ended ← terminated;
  else_state ← save_incoming;
  join_block ← jump_to_join else_ended join_block;
  match join_block with
  | Some block =>
      on_builder (switch_block block);;
      join_incoming then_ended else_ended then_state else_state
  | None => mret tt
  end.
End block.

(** [push_jump(current_block as u32)] after recording the budget. *)
Definition push_loop (budget : Z) : building unit :=
  update (fun b => with_budgets b (bld_loop_budgets b ++ [budget]));;
  block ← reads (fun b => Ok (current_block b));
  push_jump (wrap 32 block).

Fixpoint lower_statement (st : Statement) : lowering unit :=
  match st with
  | SLet name ty value _ =>
      v ← lower_expression value (Some (ast_type_to_pyth_type ty));
      on_builder (define_local (ident_text name) v)
  | SExpr e => lower_expression e None;; mret tt
  | SReturn _ => clear_pending_producers;; on_builder push_return
  | SIf condition then_statements else_statements _ =>
      lower_if lower_statement condition then_statements else_statements
  | SWhile budget _ _ _ =>
      on_builder (update (fun b => with_budgets b (bld_loop_budgets b ++ [budget])));;
      clear_pending_producers;;
      block ← on_builder (reads (fun b => Ok (current_block b)));
      on_builder (push_jump (wrap 32 block))
  end.

(** ** Programs *)

Definition import_contract (resource rights : list byte) : option (Z * Z) :=
  kind ← resource_kind resource;
  bits ← rights_bits rights;
  Some (kind, bits).

Definition lower_import (slot : Z) (import : ImportDecl) : lowering unit :=
  '(kind, rights) ← pure (ok_or (import_contract (import_resource import) (import_rights import))
                            (rejected (import_span import)));
  import_slot ← pure (ok_or (checked 16 slot) (rejected (import_span import)));
  on_builder (add_import (ident_text (import_name import)) kind rights import_slot);;
  n ← node Op.BlockParam Ty.Capability no_inputs import_slot 0 0;
  on_builder (define_local (ident_text (import_name import)) n).

Fixpoint lower_imports (slot : Z) (imports : list ImportDecl) : lowering unit :=
  match imports with
  | [] => mret tt
  | import :: imports' => lower_import slot import;; lower_imports (slot + 1) imports'
  end.

Fixpoint first_loop_budget (statements : list Statement) : option Z :=
  match statements with
  | [] => None
  | SWhile budget _ _ _ :: _ => Some budget
  | _ :: statements' => first_loop_budget statements'
  end.

Definition finish_graph : lowering OwnedGraph := reads (fun l => finish (builder l)).

Definition lower (program : Program) : lowering OwnedGraph :=
  on_builder start_entry;;
  lower_imports 0 (program_imports program);;
  match first_loop_budget (fn_statements (main program)) with
  | Some budget => on_builder (push_loop budget);; finish_graph
  | None =>
      lower_statements lower_statement (fn_statements (main program));;
      ended ← terminated;
      (if (ended : bool) then mret tt else clear_pending_producers;; on_builder push_return);;
      finish_graph
  end.

Definition lower_program (typed : TypedProgram) : D OwnedGraph :=
  outcome_of (lower (typed_program typed)) (lowerer_new (typed_program typed)).

(** ** [main.rs], the [build] command without its files

    Source errors are reported with their span, errors of the later stages as
    package errors. *)

Inductive BuildError : Type :=
| SourceError (d : Diagnostic)
| PackageError (d : Diagnostic).

Definition build (source : list byte) : outcome BuildError (list byte) :=
  typed ← map_err SourceError (typecheck_source source);
  graph ← map_err PackageError (lower_program typed);
  map_err (fun _ => PackageError (rejected default_span)) (encode_verified_graph graph).
