(* ===== verification/PythcBuild.v ===== *)
(** * What the compiler emits

    Every node, block and import that [lower.rs] appends fits the fields of the
    format, jumps are declared with the [Unit] result, and the imports of the
    graph are the imports of the program in order. Together with the encoder
    and the verifier this shows what a package that [pythc build] writes can
    do when the runtime executes it. *)

From stdpp Require Import base numbers list sets.
From Stdlib Require Import Strings.Byte.
From S2P Require Import Prelude Utf8 TigTypes TigFormat TigFormatFacts TigVerify TigEncode TigRuntime.
From S2P Require Import TigStructure TigVerified TigRuntimeLogic TigSoundness TigAuthority TigRoundtrip Kernel.
From S2P Require Import PythcSyntax PythcLexer PythcLexerFacts PythcParser PythcGrammar PythcParserFacts.
From S2P Require Import PythcTypecheck PythcLower.

(** ** Numbers *)

Lemma lor_uint w a b : 0 <= w -> uint w a -> uint w b -> uint w (Z.lor a b).
Proof.
  intros Hw Ha Hb. unfold uint in *. split; [apply Z.lor_nonneg; lia|].
  destruct (Z.eq_dec (Z.lor a b) 0) as [->|Hne]; [apply Z.pow_pos_nonneg; lia|].
  apply Z.log2_lt_pow2; [pose proof (proj2 (Z.lor_nonneg a b) ltac:(lia)); lia|].
  rewrite Z.log2_lor by lia. apply Z.max_lub_lt.
  - destruct (Z.eq_dec a 0) as [->|]; [|apply Z.log2_lt_pow2; lia].
    destruct (Z.eq_dec w 0) as [->|]; [|simpl; lia].
    exfalso. apply Hne. replace b with 0 by lia. done.
  - destruct (Z.eq_dec b 0) as [->|]; [|apply Z.log2_lt_pow2; lia].
    destruct (Z.eq_dec w 0) as [->|]; [|simpl; lia].
    exfalso. apply Hne. replace a with 0 by lia. done.
Qed.

Lemma right_bit_uint r b : right_bit r = Some b -> uint 64 b.
Proof. unfold right_bit. intros H. by repeat (case_match; simplify_eq); vm_compute. Qed.

Lemma or_rights_uint l bits v : uint 64 bits -> or_rights bits l = Some v -> uint 64 v.
Proof.
  revert bits. induction l as [|r l IH]; intros bits Hb; simpl; [by intros [= <-]|].
  intros (b & Hr & H)%bind_Some. eapply IH; [|done]. apply lor_uint; [lia|done|].
  by eapply right_bit_uint.
Qed.

Lemma rights_bits_uint rights v : rights_bits rights = Some v -> uint 64 v.
Proof. apply or_rights_uint. by vm_compute. Qed.

Lemma resource_kind_uint resource v : resource_kind resource = Some v -> uint 16 v.
Proof. unfold resource_kind. intros H. by repeat (case_match; simplify_eq); vm_compute. Qed.

Lemma digits_value_uint radix acc l v : uint 64 acc -> digits_value radix acc l = Some v -> uint 64 v.
Proof.
  revert acc. induction l as [|b l IH]; intros acc Ha; simpl; [by intros [= <-]|].
  intros (d & _ & (m & _ & (n & Hn & H)%bind_Some)%bind_Some)%bind_Some.
  eapply IH; [|done]. apply checked_Some in Hn as [-> Hn]. done.
Qed.

Lemma from_str_radix_uint radix l v : from_str_radix radix l = Some v -> uint 64 v.
Proof.
  unfold from_str_radix. assert (uint 64 0) by (by vm_compute).
  intros H'. repeat (case_match; simplify_eq); by eapply digits_value_uint.
Qed.

(** ** String tables *)

Lemma get_range_app {A} (l l' : list A) a b r :
  get_range l a b = Some r -> get_range (l ++ l') a b = Some r.
Proof.
  intros (H1 & H2 & ->)%get_range_Some. apply get_range_Some. split; [done|].
  unfold len in *. rewrite length_app. split; [lia|].
  rewrite drop_app_le by lia. rewrite take_app_le; [done|]. rewrite length_drop. lia.
Qed.

Lemma window_position_found needle haystack i k :
  window_position needle haystack i = Some k ->
  i <= k /\ take (length needle) (drop (Z.to_nat (k - i)) haystack) = needle.
Proof.
  revert i. induction haystack as [|b haystack IH]; intros i; simpl.
  - case_bool_decide as E; [|done]. intros [= <-]. split; [lia|]. by rewrite drop_nil.
  - case_bool_decide as E.
    + intros [= <-]. split; [lia|]. by rewrite Z.sub_diag.
    + intros H. destruct (IH _ H) as [Hk Hd]. split; [lia|].
      replace (Z.to_nat (k - i)) with (S (Z.to_nat (k - (i + 1)))) by lia. done.
Qed.

Lemma find_subslice_found haystack needle k :
  find_subslice haystack needle = Some k -> get_range haystack k (k + len needle) = Some needle.
Proof.
  intros H. apply get_range_Some.
  assert (0 <= k /\ take (length needle) (drop (Z.to_nat k) haystack) = needle) as [Hk Ht].
  { destruct needle as [|b needle]; [injection H as <-; done|].
    apply window_position_found in H. by rewrite Z.sub_0_r in H. }
  assert (length needle <= length haystack - Z.to_nat k)%nat as Hl.
  { rewrite <- Ht at 1. rewrite length_take, length_drop. lia. }
  assert (k <= len haystack \/ needle = []) as Hk'.
  { destruct needle; [by right|]. left. unfold len. simpl in Hl. lia. }
  unfold len in *. split_and!; [lia|lia| |].
  - destruct Hk' as [? | ->]; [lia|]. injection H as <-. simpl. lia.
  - rewrite <- Ht at 1. f_equal. lia.
Qed.

(** ** The invariant of the builder *)

(** The import record [gi] at slot [k] is the declaration [d]. *)
Definition declares (strings : list byte) (k : Z) (d : ImportDecl) (gi : GraphImport) : Prop :=
  import_contract (import_resource d) (import_rights d) = Some (gi_resource_kind gi, gi_rights gi) /\
  gi_expected_type gi = Ty.Capability /\ gi_import_slot gi = k /\
  get_range strings (gi_name_offset gi) (gi_name_offset gi + gi_name_len gi)
    = Some (ident_text (import_name d)) /\
  uint 16 k /\ uint 32 (gi_name_offset gi) /\ uint 16 (gi_name_len gi).

Definition imports_declared (strings : list byte) (ds : list ImportDecl) (gis : list GraphImport) : Prop :=
  length ds = length gis /\
  forall (k : nat) d gi, ds !! k = Some d -> gis !! k = Some gi -> declares strings (Z.of_nat k) d gi.

Definition block_fits (b : BlockBuilder) : Prop :=
  (forall f, first_node b = Some f -> uint 32 f) /\ uint 32 (node_count b).

Definition node_fits (n : GraphNode) : Prop :=
  node_wf (node_of_graph n) /\ (gn_opcode n = Op.Jump -> gn_result_type n = Ty.Unit).

Definition inputs_fit (i : Z * Z * Z * Z) : Prop :=
  let '(i0, i1, i2, i3) := i in uint 32 i0 /\ uint 32 i1 /\ uint 32 i2 /\ uint 32 i3.

Section invariant.
Context (principal : Z) (ds : list ImportDecl).

Record builder_inv (b : GraphBuilder) : Prop := {
  bi_principal : bld_principal b = principal;
  bi_imports : imports_declared (bld_strings b) ds (bld_imports b);
  bi_blocks : Forall block_fits (block_builders b);
  bi_nodes : Forall node_fits (bld_nodes b);
  bi_locals : Forall (fun l => uint 32 l.2) (locals b);
  bi_effect : uint 32 (current_effect b);
}.

Record lowerer_inv (l : Lowerer) : Prop := {
  li_builder : builder_inv (builder l);
  li_host : forall p n, pending_host l = Some (p, n) -> uint 32 n;
  li_task : forall c n, pending_task_context l = Some (c, n) -> uint 32 n;
  li_command : forall c n, pending_command_read l = Some (c, n) -> uint 32 n;
}.

Abbreviation keepsB := (keeps builder_inv).
Abbreviation keepsL := (keeps lowerer_inv).

Lemma no_value_fits : uint 32 NO_VALUE.
Proof. by vm_compute. Qed.

Lemma zero_fits w : 0 <= w -> uint w 0.
Proof. intros. split; [done|]. by apply Z.pow_pos_nonneg. Qed.

Lemma no_inputs_fit : inputs_fit no_inputs.
Proof. split_and!; apply no_value_fits. Qed.

Lemma code_fits o t : uint 16 (opcode_code o) /\ uint 16 (type_code t).
Proof. by destruct o, t; vm_compute. Qed.

Lemma declared_app strings extra ds' gis :
  imports_declared strings ds' gis -> imports_declared (strings ++ extra) ds' gis.
Proof.
  intros [Hl H]. split; [done|]. intros k d gi Hd Hgi.
  destruct (H k d gi Hd Hgi) as (? & ? & ? & ? & ?). split_and!; try naive_solver. by apply get_range_app.
Qed.

Lemma keeps_builder {A} (m : building A) (Q : A -> Prop) : keepsB m Q -> keepsL (on_builder m) Q.
Proof.
  intros Hm l a l' [Hb Hh Ht Hc]. unfold on_builder. destruct (m (builder l)) as [r b'] eqn:E.
  intros [= -> <-]. destruct (Hm _ _ _ Hb E) as [Hb' Ha]. split; [|done]. by constructor.
Qed.

Lemma keeps_index {A} (l : list A) i (Q : A -> Prop) :
  Forall Q l -> forall a, index (E := Diagnostic) l i = Ok a -> Q a.
Proof.
  intros Hl a Ha. unfold index, expect in Ha. destruct (get l i) as [x|] eqn:Hx; [|done].
  injection Ha as <-. rewrite Forall_forall in Hl. apply Hl. by eapply get_elem_of.
Qed.

Lemma expect_checked_fits w x v : expect (E := Diagnostic) (checked w x) = Ok v -> uint w v.
Proof.
  unfold expect. destruct (checked w x) eqn:Hc; [|done]. intros [= <-]. by apply checked_Some in Hc as [-> ?].
Qed.

Lemma ok_or_Ok {E A} (o : option A) (e : E) a : ok_or o e = Ok a -> o = Some a.
Proof. destruct o; [by intros [= <-]|done]. Qed.

Lemma index_set_Forall {A} (l l' : list A) i x (Q : A -> Prop) :
  index_set (E := Diagnostic) l i x = Ok l' -> Forall Q l -> Q x -> Forall Q l'.
Proof.
  unfold index_set. case_match; [|done]. intros [= <-] Hl Hx. by apply Forall_insert.
Qed.

Lemma keeps_push_node o t inputs a0 a1 imm :
  inputs_fit inputs -> uint 32 a0 -> uint 32 a1 -> uint 64 imm -> (o = Op.Jump -> t = Ty.Unit) ->
  keepsB (push_node o t inputs a0 a1 imm) (uint 32).
Proof.
  destruct inputs as [[[i0 i1] i2] i3]. intros (H0 & H1 & H2 & H3) Ha0 Ha1 Himm Hjump. unfold push_node.
  eapply (keeps_bind _ _ _ (uint 32)).
  { apply keeps_reads. intros b a _ [= <-]. by apply wrap_range. }
  intros n Hn. eapply (keeps_bind _ _ _ block_fits).
  { apply keeps_reads. intros b a Hb. apply keeps_index, Hb. }
  intros blk [Hf Hc]. eapply (keeps_bind _ _ _ (uint 32)).
  { apply keeps_pure. intros a. apply expect_checked_fits. }
  intros count Hcount. eapply (keeps_bind _ _ _ (Forall block_fits)).
  { apply keeps_reads. intros b a Hb Ha. eapply index_set_Forall; [done|apply Hb|].
    split; [|done]. simpl. intros f [= <-]. destruct (first_node blk); simpl; [by apply Hf|done]. }
  intros blocks Hblocks. eapply (keeps_bind _ _ _ (fun _ => True)).
  { apply keeps_update; [|done]. intros b Hb. destruct Hb. constructor; simpl; try done.
    apply Forall_app. split; [done|]. apply Forall_singleton. split; [|done].
    destruct (code_fits o t). unfold node_wf; simpl.
    split_and!; first [done | by apply zero_fits | by apply wrap_range]. }
  intros _ _. by apply keeps_ret.
Qed.

Lemma keeps_set_effect v : uint 32 v -> keepsB (set_effect v) (fun _ => True).
Proof. intros Hv. apply keeps_update; [|done]. intros b Hb. destruct Hb. by constructor. Qed.

Lemma keeps_switch_block v : keepsB (switch_block v) (fun _ => True).
Proof. apply keeps_update; [|done]. intros b Hb. destruct Hb. by constructor. Qed.

Lemma keeps_add_block : keepsB add_block (fun _ => True).
Proof.
  unfold add_block. eapply keeps_bind; [by apply keeps_reads with (Q := fun _ => True)|].
  intros id _. eapply (keeps_bind _ _ _ (fun _ => True)).
  { apply keeps_update; [|done]. intros b Hb. destruct Hb. constructor; simpl; try done.
    apply Forall_app. split; [done|]. apply Forall_singleton. split; [done|]. by apply zero_fits. }
  intros _ _. by apply keeps_ret.
Qed.

Lemma keeps_table_range offset bytes :
  keepsB (table_range offset bytes)
    (fun r => r = (offset, len bytes) /\ uint 32 offset /\ uint 16 (len bytes)).
Proof.
  unfold table_range. eapply (keeps_bind _ _ _ (fun o => o = offset /\ uint 32 o)).
  { apply keeps_pure. intros a Ha%ok_or_Ok. apply checked_Some in Ha as [-> ?]. done. }
  intros o [-> Ho]. eapply (keeps_bind _ _ _ (fun l => l = len bytes /\ uint 16 l)).
  { apply keeps_pure. intros a Ha%ok_or_Ok. apply checked_Some in Ha as [-> ?]. done. }
  intros l [-> Hl]. by apply keeps_ret.
Qed.

(** A pair of an offset and a length that index a table. *)
Definition range_fits (r : Z * Z) : Prop := uint 32 r.1 /\ uint 16 r.2.

Lemma keeps_intern_string bytes : keepsB (intern_string bytes) range_fits.
Proof.
  unfold intern_string. eapply keeps_bind; [by apply keeps_reads with (Q := fun _ => True)|].
  intros table _. case_match.
  - eapply keeps_mono; [apply keeps_table_range|]. by intros ? (-> & ? & ?).
  - eapply keeps_bind; [apply keeps_table_range|]. intros r (-> & ? & ?).
    eapply (keeps_bind _ _ _ (fun _ => True)); [|intros _ _; by apply keeps_ret].
    apply keeps_update; [|done]. intros b Hb. destruct Hb. constructor; simpl; try done.
    by apply declared_app.
Qed.

Lemma keeps_intern_constant bytes : keepsB (intern_constant bytes) range_fits.
Proof.
  unfold intern_constant. eapply keeps_bind; [by apply keeps_reads with (Q := fun _ => True)|].
  intros pool _. eapply keeps_bind; [apply keeps_table_range|]. intros r (-> & ? & ?).
  eapply (keeps_bind _ _ _ (fun _ => True)); [|intros _ _; by apply keeps_ret].
  apply keeps_update; [|done]. intros b Hb. destruct Hb. by constructor.
Qed.

Lemma keeps_define_local name v : uint 32 v -> keepsB (define_local name v) (fun _ => True).
Proof.
  intros Hv. apply keeps_update; [|done]. intros b Hb. destruct Hb. constructor; simpl; try done.
  apply Forall_app. split; [done|]. by apply Forall_singleton.
Qed.

Lemma keeps_lookup_local name : keepsB (lookup_local name) (fun o => forall v, o = Some v -> uint 32 v).
Proof.
  apply keeps_reads. intros b a Hb [= <-] v Hv. unfold lookup_last in Hv.
  apply fmap_Some in Hv as ([n u] & Hf & ->). apply find_Some in Hf as [Hin _].
  apply list_elem_of_In, in_rev, list_elem_of_In in Hin.
  pose proof (bi_locals b Hb) as Hl. rewrite Forall_forall in Hl. by apply (Hl _ Hin).
Qed.

(** *** The lowerer *)

Lemma keeps_set_pending h t c :
  (forall p n, h = Some (p, n) -> uint 32 n) -> (forall p n, t = Some (p, n) -> uint 32 n) ->
  (forall p n, c = Some (p, n) -> uint 32 n) -> keepsL (set_pending_producers h t c) (fun _ => True).
Proof. intros. apply keeps_update; [|done]. intros l Hl. destruct Hl. by constructor. Qed.

Lemma keeps_clear : keepsL clear_pending_producers (fun _ => True).
Proof. by apply keeps_set_pending. Qed.

Lemma keeps_get_effect : keepsL get_effect (uint 32).
Proof. apply keeps_reads. intros l a Hl [= <-]. apply Hl. Qed.

Lemma keeps_node o t inputs a0 a1 imm :
  inputs_fit inputs -> uint 32 a0 -> uint 32 a1 -> uint 64 imm -> (o = Op.Jump -> t = Ty.Unit) ->
  keepsL (node o t inputs a0 a1 imm) (uint 32).
Proof. intros. by apply keeps_builder, keeps_push_node. Qed.

Lemma keeps_reject {A} span (Q : A -> Prop) : keepsL (reject_at span) Q.
Proof. by apply keeps_pure. Qed.

Lemma keeps_ok_or {A} (o : option A) (e : Diagnostic) (Q : A -> Prop) :
  (forall a, o = Some a -> Q a) -> keepsL (pure (ok_or o e)) Q.
Proof. intros HQ. apply keeps_pure. intros a Ha%ok_or_Ok. auto. Qed.

Lemma keeps_push_effect o inputs p :
  inputs_fit inputs -> o <> Op.Jump -> keepsL (push_effect_node o inputs p) (uint 32).
Proof.
  intros Hi Ho. unfold push_effect_node. eapply keeps_bind.
  { apply keeps_node; [done|by apply zero_fits..|done]. }
  intros n Hn. eapply keeps_bind; [by apply keeps_builder, keeps_set_effect|]. intros _ _.
  eapply (keeps_bind _ _ _ (fun _ => True)); [|intros _ _; by apply keeps_ret].
  apply keeps_update; [|done]. intros l Hl. destruct Hl. constructor; simpl; try done.
  - intros q m. destruct p; simpl; [by intros [= <- <-]|done].
  - intros c m. case_bool_decide; [eauto|done].
  - intros c m. case_bool_decide; [eauto|done].
Qed.

Lemma keeps_host_result n field t :
  uint 32 n -> uint 32 field -> keepsL (push_host_result n field t) (uint 32).
Proof.
  intros. apply keeps_node; [|done|by apply zero_fits..|done]. split_and!; first [done|apply no_value_fits].
Qed.

Lemma range_length_fits x : uint 16 x -> uint 32 x.
Proof. unfold uint. lia. Qed.

Lemma inputs_fit_intro i0 i1 i2 i3 :
  uint 32 i0 -> uint 32 i1 -> uint 32 i2 -> uint 32 i3 -> inputs_fit (i0, i1, i2, i3).
Proof. done. Qed.

Lemma keeps_table_node o t r :
  o <> Op.Jump -> range_fits r ->
  keepsL (clear_pending_producers;; node o t no_inputs r.1 r.2 0) (uint 32).
Proof.
  intros Ho [H1 H2]. eapply keeps_bind; [apply keeps_clear|]. intros _ _.
  apply keeps_node; [apply no_inputs_fit|done|by apply range_length_fits|by apply zero_fits|done].
Qed.

Lemma keeps_literal l expected : keepsL (lower_literal l expected) (uint 32).
Proof.
  destruct l as [v s|text s|v s]; simpl.
  - eapply keeps_bind; [apply keeps_clear|]. intros _ _.
    apply keeps_node; [apply no_inputs_fit|by apply zero_fits..| |done]. by destruct v; vm_compute.
  - eapply (keeps_bind _ _ _ (uint 64)).
    { apply keeps_ok_or. intros a. apply from_str_radix_uint. }
    intros a Ha. eapply keeps_bind; [apply keeps_clear|]. intros _ _.
    apply keeps_node; [apply no_inputs_fit|by apply zero_fits..|done|]. by case_bool_decide.
  - eapply (keeps_bind _ _ _ (fun r => range_fits (r.1.2, r.2) /\ r.1.1.1 <> Op.Jump)).
    + case_bool_decide.
      * eapply keeps_bind; [apply keeps_builder, keeps_intern_constant|].
        intros [off n] Hr. by apply keeps_ret.
      * eapply keeps_bind; [apply keeps_builder, keeps_intern_string|].
        intros [off n] Hr. by apply keeps_ret.
    + intros [[[o t] off] n] [Hr Ho]. by apply (keeps_table_node o t (off, n)).
Qed.

Definition arg_fits (a : Arg) : Prop := forall expected, keepsL (lower_arg a expected) (uint 32).

Lemma keeps_arg_at args i : Forall arg_fits args -> keepsL (arg_at args i) arg_fits.
Proof. intros Ha. apply keeps_pure. by apply keeps_index. Qed.

Lemma keeps_object_kind e : keepsL (lower_object_kind e) (uint 32).
Proof.
  unfold lower_object_kind. destruct e as [[|text span|]| | | |]; try apply keeps_reject.
  eapply (keeps_bind _ _ _ (fun _ => True)).
  { repeat case_match; first [apply keeps_reject | by apply keeps_ret]. }
  intros kind _. eapply keeps_bind; [apply keeps_builder, keeps_intern_string|].
  intros [off n] Hr. by apply (keeps_table_node _ _ (off, n)).
Qed.

Lemma keeps_set_input inputs i v :
  inputs_fit inputs -> uint 32 v -> keepsL (pure (set_input inputs i v)) inputs_fit.
Proof.
  intros Hi Hv. apply keeps_pure. destruct inputs as [[[i0 i1] i2] i3]. intros a.
  destruct Hi as (? & ? & ? & ?). unfold set_input. repeat case_match; try done; by intros [= <-].
Qed.

Lemma keeps_lower_args i inputs args types :
  Forall arg_fits args -> inputs_fit inputs -> keepsL (lower_args i inputs args types) inputs_fit.
Proof.
  intros Ha. revert i inputs types. induction Ha as [|a args Ha _ IH]; intros i inputs types Hi; simpl.
  - by apply keeps_ret.
  - destruct types as [|t types]; [by apply keeps_ret|].
    eapply keeps_bind; [apply Ha|]. intros v Hv.
    eapply keeps_bind; [by apply keeps_set_input|]. intros inputs' Hi'. by apply IH.
Qed.

Lemma opcode_not_jump i o : opcode_for_intrinsic i = Some o -> o <> Op.Jump.
Proof. destruct i; simpl; intros [= <-]; done. Qed.

Lemma field_fits : forall r,
  (exists p a, host_result_field p a = Some r) \/ (exists i, task_context_field i = Some r) \/
  (exists i, command_field i = Some r) -> uint 32 r.1.
Proof.
  intros r [(p & a & H)|[[i H]|[i H]]].
  - destruct p, a; simpl in H; try done; injection H as <-; by vm_compute.
  - destruct i; simpl in H; try done; injection H as <-; by vm_compute.
  - destruct i; simpl in H; try done; injection H as <-; by vm_compute.
Qed.

Section intrinsic.
Context (args : list Arg) (Hargs : Forall arg_fits args).

(** The next argument, lowered. *)
Lemma keeps_next_arg {B} i t (k : Z -> lowering B) Q :
  (forall v, uint 32 v -> keepsL (k v) Q) ->
  keepsL (a ← arg_at args i; v ← lower_arg a (Some t); k v) Q.
Proof.
  intros Hk. eapply keeps_bind; [by apply keeps_arg_at|]. intros a Ha.
  eapply keeps_bind; [apply Ha|]. done.
Qed.

Lemma keeps_effect_node {B} o p v1 v2 v3 (k : Z -> lowering B) Q :
  o <> Op.Jump -> uint 32 v1 -> uint 32 v2 -> uint 32 v3 ->
  (forall n, uint 32 n -> keepsL (k n) Q) ->
  keepsL (effect ← get_effect; n ← push_effect_node o (effect, v1, v2, v3) p; k n) Q.
Proof.
  intros. eapply keeps_bind; [apply keeps_get_effect|]. intros effect He.
  eapply keeps_bind; [by apply keeps_push_effect; [apply inputs_fit_intro|]|]. done.
Qed.

Lemma keeps_opcode {B} i (e : Diagnostic) (k : Opcode -> lowering B) Q :
  (forall o, o <> Op.Jump -> keepsL (k o) Q) ->
  keepsL (o ← pure (ok_or (opcode_for_intrinsic i) e); k o) Q.
Proof.
  intros Hk. eapply keeps_bind; [apply keeps_ok_or; intros o; apply opcode_not_jump|]. done.
Qed.

Lemma keeps_workspace i span expected :
  keepsL (lower_object_workspace_intrinsic i args span expected) (uint 32).
Proof.
  apply keeps_opcode. intros o Ho. apply keeps_next_arg. intros v Hv.
  eapply keeps_bind; [by apply keeps_arg_at|]. intros a Ha.
  eapply keeps_bind; [apply keeps_object_kind|]. intros kind Hkind.
  apply keeps_effect_node; [done..|apply no_value_fits|]. intros n Hn.
  destruct expected; simpl; [|by apply keeps_ret]. by apply keeps_host_result; [|vm_compute].
Qed.

Lemma keeps_revise expected : keepsL (lower_object_revise args expected) (uint 32).
Proof.
  apply keeps_next_arg. intros v0 Hv0. apply keeps_next_arg. intros v1 Hv1.
  eapply keeps_bind; [by apply keeps_arg_at|]. intros a Ha.
  eapply (keeps_bind _ _ _ (uint 32)).
  { unfold lower_revision_payload. repeat case_match; first [apply keeps_reject | apply Ha]. }
  intros v3 Hv3. apply keeps_effect_node; [done..|]. intros n Hn.
  destruct expected; simpl; [|by apply keeps_ret]. by apply keeps_host_result; [|vm_compute].
Qed.

Lemma keeps_read i span expected :
  keepsL (lower_object_read_intrinsic i args span expected) (uint 32).
Proof.
  apply keeps_opcode. intros o Ho. apply keeps_next_arg. intros v0 Hv0.
  apply keeps_next_arg. intros v1 Hv1.
  apply keeps_effect_node; [done..|apply no_value_fits|]. intros n Hn.
  repeat case_match; first [apply keeps_reject | by apply keeps_ret | by apply keeps_host_result; [|vm_compute]].
Qed.

Lemma keeps_access access span : keepsL (lower_host_result_access access span) (uint 32).
Proof.
  unfold lower_host_result_access.
  eapply (keeps_bind _ _ _ (fun o => forall p n, o = Some (p, n) -> uint 32 n)).
  { apply keeps_reads. intros l a Hl [= <-]. apply Hl. }
  intros [[p n]|] Hp; [|apply keeps_reject].
  eapply (keeps_bind _ _ _ (fun r => uint 32 r.1)).
  { apply keeps_ok_or. intros r Hr. apply field_fits. eauto. }
  intros [f t] Hf. apply keeps_host_result; [by eapply Hp|done].
Qed.

Lemma keeps_shared_read pending o c :
  (forall c n, pending = Some (c, n) -> uint 32 n) -> o <> Op.Jump -> uint 32 c ->
  keepsL (shared_read pending o c) (uint 32).
Proof.
  intros Hp Ho Hc. unfold shared_read. eapply keeps_bind; [apply keeps_get_effect|]. intros effect He.
  assert (keepsL (push_effect_node o (effect, c, NO_VALUE, NO_VALUE) None) (uint 32)).
  { apply keeps_push_effect; [|done]. apply inputs_fit_intro; first [done|apply no_value_fits]. }
  destruct pending as [[c' p]|]; [|done]. case_match; [|done]. apply keeps_ret. by eapply Hp.
Qed.

Lemma keeps_task_context i span : keepsL (lower_task_context_accessor i args span) (uint 32).
Proof.
  apply keeps_next_arg. intros v Hv.
  eapply (keeps_bind _ _ _ (fun o => forall c n, o = Some (c, n) -> uint 32 n)).
  { apply keeps_reads. intros l a Hl [= <-]. apply Hl. }
  intros pending Hp. eapply keeps_bind; [by apply keeps_shared_read|]. intros p Hn.
  eapply (keeps_bind _ _ _ (fun _ => True)).
  { apply keeps_update; [|done]. intros l Hl. destruct Hl. constructor; simpl; try done.
    by intros ? ? [= <- <-]. }
  intros _ _. eapply (keeps_bind _ _ _ (fun r => uint 32 r.1)).
  { apply keeps_ok_or. intros r Hr. apply field_fits. eauto. }
  intros [f t] Hf. by apply keeps_host_result.
Qed.

Lemma keeps_command i span : keepsL (lower_command_accessor i args span) (uint 32).
Proof.
  apply keeps_next_arg. intros v Hv.
  eapply (keeps_bind _ _ _ (fun o => forall c n, o = Some (c, n) -> uint 32 n)).
  { apply keeps_reads. intros l a Hl [= <-]. apply Hl. }
  intros pending Hp. eapply keeps_bind; [by apply keeps_shared_read|]. intros p Hn.
  eapply (keeps_bind _ _ _ (fun _ => True)).
  { apply keeps_update; [|done]. intros l Hl. destruct Hl. constructor; simpl; try done.
    by intros ? ? [= <- <-]. }
  intros _ _. eapply (keeps_bind _ _ _ (fun r => uint 32 r.1)).
  { apply keeps_ok_or. intros r Hr. apply field_fits. eauto. }
  intros [f t] Hf. by apply keeps_host_result.
Qed.

Lemma keeps_propose expected span : keepsL (lower_task_propose args expected span) (uint 32).
Proof.
  unfold lower_task_propose. destruct expected; [apply keeps_reject|]. simpl.
  apply keeps_next_arg. intros v0 Hv0. apply keeps_next_arg. intros v1 Hv1.
  apply keeps_next_arg. intros v2 Hv2.
  eapply keeps_bind; [apply keeps_get_effect|]. intros effect He. by apply keeps_push_effect.
Qed.

Lemma keeps_generic i span : keepsL (lower_generic_effectful_intrinsic i args span) (uint 32).
Proof.
  apply keeps_opcode. intros o Ho. eapply keeps_bind; [apply keeps_get_effect|]. intros effect He.
  eapply keeps_bind; [apply keeps_lower_args; [done|]|].
  { apply inputs_fit_intro; first [done|apply no_value_fits]. }
  intros inputs Hi. by apply keeps_push_effect.
Qed.

Lemma keeps_intrinsic i span expected : keepsL (lower_intrinsic i args span expected) (uint 32).
Proof.
  destruct i; first
    [ apply keeps_workspace | apply keeps_read | apply keeps_revise | apply keeps_task_context
    | apply keeps_command | apply keeps_propose | apply keeps_generic
    | eapply (keeps_bind _ _ _ (fun _ => True)); [by apply keeps_ok_or|intros; apply keeps_access] ].
Qed.
End intrinsic.

Lemma keeps_expression e : forall expected, keepsL (lower_expression e expected) (uint 32).
Proof.
  induction e as [l|n|callee args s Hargs|op e s IH|op l r s IHl IHr] using expression_rect_nested;
    intros expected; simpl.
  - apply keeps_literal.
  - eapply keeps_bind; [apply keeps_builder, keeps_lookup_local|]. intros o Ho. by apply keeps_ok_or.
  - eapply (keeps_bind _ _ _ (fun _ => True)); [by apply keeps_ok_or|]. intros i _.
    apply keeps_intrinsic. by apply Forall_map.
  - destruct op. eapply keeps_bind; [apply IH|]. intros v Hv. eapply keeps_bind; [apply keeps_clear|].
    intros _ _. apply keeps_node; [|by apply zero_fits..|done].
    apply inputs_fit_intro; first [done|apply no_value_fits].
  - destruct (binary_opcode op) as [[o t] ex] eqn:Ho.
    eapply keeps_bind; [apply IHl|]. intros v Hv. eapply keeps_bind; [apply IHr|]. intros w Hw.
    eapply keeps_bind; [apply keeps_clear|]. intros _ _. apply keeps_node; [|by apply zero_fits..|].
    + apply inputs_fit_intro; first [done|apply no_value_fits].
    + intros ->. by destruct op.
Qed.

(** *** Statements *)

Definition incoming_fits (i : Incoming) : Prop :=
  uint 32 (in_effect i) /\ (forall p n, in_host i = Some (p, n) -> uint 32 n) /\
  (forall c n, in_task_context i = Some (c, n) -> uint 32 n) /\
  (forall c n, in_command_read i = Some (c, n) -> uint 32 n).

Lemma keeps_save : keepsL save_incoming incoming_fits.
Proof. apply keeps_reads. intros l a [[] Hh Ht Hc] [= <-]. done. Qed.

Lemma keeps_restore i : incoming_fits i -> keepsL (restore_incoming i) (fun _ => True).
Proof.
  intros (He & Hh & Ht & Hc). unfold restore_incoming.
  eapply keeps_bind; [by apply keeps_builder, keeps_set_effect|]. intros _ _. by apply keeps_set_pending.
Qed.

Lemma keeps_terminated : keepsL terminated (fun _ => True).
Proof. by apply keeps_builder, keeps_reads. Qed.

#[local] Opaque push_node.

Lemma keeps_terminator o a0 a1 inputs :
  inputs_fit inputs -> uint 32 a0 -> uint 32 a1 ->
  keepsB (push_node o Ty.Unit inputs a0 a1 0;; mret tt) (fun _ => True).
Proof.
  intros. eapply keeps_bind; [by apply keeps_push_node; [..|apply zero_fits|]|]. intros. by apply keeps_ret.
Qed.

Lemma keeps_jump v : keepsB (push_jump (wrap 32 v)) (fun _ => True).
Proof. apply keeps_terminator; [apply no_inputs_fit|by apply wrap_range|by apply zero_fits]. Qed.

Lemma keeps_return : keepsB push_return (fun _ => True).
Proof. apply keeps_terminator; [apply no_inputs_fit|by apply zero_fits..]. Qed.

Lemma keeps_jump_to_join ended join : keepsL (jump_to_join ended join) (fun _ => True).
Proof.
  unfold jump_to_join. destruct ended; [by apply keeps_ret|].
  eapply (keeps_bind _ _ _ (fun _ => True)).
  { destruct join; [by apply keeps_ret|]. apply keeps_builder, keeps_add_block. }
  intros target _. eapply keeps_bind; [apply keeps_clear|]. intros _ _.
  eapply keeps_bind; [apply keeps_builder, keeps_jump|]. intros. by apply keeps_ret.
Qed.

Lemma keeps_join then_ended else_ended i j :
  incoming_fits i -> incoming_fits j -> keepsL (join_incoming then_ended else_ended i j) (fun _ => True).
Proof.
  intros Hi Hj. unfold join_incoming. repeat case_match;
    first [by apply keeps_restore | by apply keeps_ret | idtac].
  eapply keeps_bind; [apply keeps_builder, keeps_set_effect, no_value_fits|]. intros _ _. apply keeps_clear.
Qed.

Lemma keeps_statements f ss :
  Forall (fun st => keepsL (f st) (fun _ => True)) ss -> keepsL (lower_statements f ss) (fun _ => True).
Proof.
  induction 1 as [|st ss Hst _ IH]; simpl; [by apply keeps_ret|].
  eapply keeps_bind; [apply keeps_terminated|]. intros [] _; [by apply keeps_ret|].
  eapply keeps_bind; [exact Hst|]. done.
Qed.

(** One branch of an [if]: from the saved state to the join block. *)
Lemma keeps_branch {B} f block incoming ss (join : option Z) (k : bool -> Incoming -> option Z -> lowering B) Q :
  incoming_fits incoming -> Forall (fun st => keepsL (f st) (fun _ => True)) ss ->
  (forall ended st j, incoming_fits st -> keepsL (k ended st j) Q) ->
  keepsL (on_builder (switch_block block);;
          restore_incoming incoming;;
          lower_statements f ss;;
          ended ← terminated;
          st ← save_incoming;
          j ← jump_to_join ended join;
          k ended st j) Q.
Proof.
  intros Hi Hss Hk. eapply keeps_bind; [apply keeps_builder, keeps_switch_block|]. intros _ _.
  eapply keeps_bind; [by apply keeps_restore|]. intros _ _.
  eapply keeps_bind; [by apply keeps_statements|]. intros _ _.
  eapply keeps_bind; [apply keeps_terminated|]. intros ended _.
  eapply keeps_bind; [apply keeps_save|]. intros st Hst.
  eapply keeps_bind; [apply keeps_jump_to_join|]. auto.
Qed.

Lemma keeps_if f c a b :
  Forall (fun st => keepsL (f st) (fun _ => True)) a -> Forall (fun st => keepsL (f st) (fun _ => True)) b ->
  keepsL (lower_if f c a b) (fun _ => True).
Proof.
  intros Ha Hb. unfold lower_if. eapply keeps_bind; [apply keeps_expression|]. intros v Hv.
  eapply keeps_bind; [apply keeps_clear|]. intros _ _.
  eapply keeps_bind; [apply keeps_save|]. intros inc Hinc.
  eapply keeps_bind; [apply keeps_builder, keeps_add_block|]. intros tb _.
  eapply keeps_bind; [apply keeps_builder, keeps_add_block|]. intros eb _.
  eapply keeps_bind.
  { apply keeps_builder, keeps_terminator; [|by apply wrap_range..].
    apply inputs_fit_intro; first [done|apply no_value_fits]. }
  intros _ _. apply keeps_branch; [done..|]. intros te ts j1 Hts.
  apply keeps_branch; [done..|]. intros ee es j2 Hes. destruct j2; [|by apply keeps_ret].
  eapply keeps_bind; [apply keeps_builder, keeps_switch_block|]. intros _ _. by apply keeps_join.
Qed.

Lemma keeps_push_budget budget :
  keepsB (update (fun b => with_budgets b (bld_loop_budgets b ++ [budget])) : building unit) (fun _ => True).
Proof. apply keeps_update; [|done]. intros b Hb. destruct Hb. by constructor. Qed.

Lemma keeps_statement st : keepsL (lower_statement st) (fun _ => True).
Proof.
  induction st as [n t e s|c a b s Ha Hb|n c a s Ha|e|s] using statement_rect_nested; simpl.
  - eapply keeps_bind; [apply keeps_expression|]. intros v Hv. by apply keeps_builder, keeps_define_local.
  - by apply keeps_if.
  - eapply keeps_bind; [apply keeps_builder, keeps_push_budget|]. intros _ _.
    eapply keeps_bind; [apply keeps_clear|]. intros _ _.
    eapply (keeps_bind _ _ _ (fun _ => True)); [by apply keeps_builder, keeps_reads|]. intros block _.
    apply keeps_builder, keeps_jump.
  - eapply keeps_bind; [apply keeps_expression|]. intros. by apply keeps_ret.
  - eapply keeps_bind; [apply keeps_clear|]. intros _ _. apply keeps_builder, keeps_return.
Qed.

Lemma keeps_body program :
  keepsL match first_loop_budget (fn_statements (main program)) with
         | Some budget => on_builder (push_loop budget)
         | None =>
             lower_statements lower_statement (fn_statements (main program));;
             ended ← terminated;
             if (ended : bool) then mret tt else clear_pending_producers;; on_builder push_return
         end (fun _ => True).
Proof.
  case_match.
  - apply keeps_builder. eapply keeps_bind; [apply keeps_push_budget|]. intros _ _.
    eapply (keeps_bind _ _ _ (fun _ => True)); [by apply keeps_reads|]. intros block _. apply keeps_jump.
  - eapply keeps_bind; [apply keeps_statements, Forall_true, keeps_statement|]. intros _ _.
    eapply keeps_bind; [apply keeps_terminated|]. intros [] _; [by apply keeps_ret|].
    eapply keeps_bind; [apply keeps_clear|]. intros _ _. apply keeps_builder, keeps_return.
Qed.
End invariant.

(** ** Programs *)

Lemma start_entry_inv principal name b a :
  start_entry (builder_new principal name) = (Ok a, b) -> builder_inv principal [] b.
Proof.
  assert (builder_inv principal [] (builder_new principal name)) as Hinit.
  { by constructor. }
  intros H. refine (proj1 ((_ : keeps (builder_inv principal []) start_entry (fun _ => True)) _ _ _ Hinit H)).
  unfold start_entry. eapply keeps_bind; [apply keeps_add_block|]. intros _ _.
  eapply keeps_bind; [apply keeps_push_node; [apply no_inputs_fit|by apply zero_fits..|done]|].
  intros v Hv. by apply keeps_set_effect.
Qed.

(** An interned string can be read back from the table. *)
Lemma intern_string_range bytes b r b' :
  intern_string bytes b = (Ok r, b') -> get_range (bld_strings b') r.1 (r.1 + r.2) = Some bytes.
Proof.
  unfold intern_string, table_range. simpl. unfold mbind, action_bind, reads, pure, update, mret, action_ret.
  simpl. destruct (find_subslice (bld_strings b) bytes) as [k|] eqn:Hk.
  - destruct (checked 32 k) as [k'|] eqn:Hc; simpl; [|done].
    destruct (checked 16 (len bytes)) as [n|] eqn:Hn; simpl; [|done]. intros [= <- <-].
    apply checked_Some in Hc as [-> _], Hn as [-> _]. simpl. by apply find_subslice_found.
  - destruct (checked 32 _) as [k'|] eqn:Hc; simpl; [|done].
    destruct (checked 16 (len bytes)) as [n|] eqn:Hn; simpl; [|done]. intros [= <- <-].
    apply checked_Some in Hc as [-> _], Hn as [-> _]. simpl. apply get_range_Some.
    unfold len. rewrite length_app. split_and!; [lia|lia|lia|].
    rewrite Nat2Z.id, drop_app_length, firstn_all2 by lia. done.
Qed.

Lemma declared_snoc strings ds gis d gi :
  imports_declared strings ds gis -> declares strings (len ds) d gi ->
  imports_declared strings (ds ++ [d]) (gis ++ [gi]).
Proof.
  intros [Hl H] Hd. split; [rewrite !length_app; simpl; lia|]. intros k d' gi' H1 H2.
  apply lookup_app_Some in H1 as [H1|[Hk1 H1]].
  - rewrite lookup_app_l in H2 by (rewrite <- Hl; by eapply lookup_lt_Some). eauto.
  - rewrite lookup_app_r in H2 by lia. rewrite <- Hl in H2.
    destruct (k - length ds)%nat as [|j] eqn:Hj; [|done]. simpl in *. simplify_eq.
    replace (Z.of_nat k) with (len ds) by (unfold len; lia). done.
Qed.

Lemma add_import_inv principal ds d kind rights slot b a b' :
  builder_inv principal ds b ->
  import_contract (import_resource d) (import_rights d) = Some (kind, rights) ->
  slot = len ds -> uint 16 slot ->
  add_import (ident_text (import_name d)) kind rights slot b = (Ok a, b') ->
  builder_inv principal (ds ++ [d]) b'.
Proof.
  intros Hb Hcon -> Hslot. unfold add_import, mbind, action_bind, expect_interned.
  destruct (intern_string _ b) as [[[off n]| | |] b1] eqn:Hi; try done. intros [= <- <-].
  pose proof (intern_string_range _ _ _ _ Hi) as Hr. simpl in Hr.
  destruct (keeps_intern_string principal ds _ _ _ _ Hb Hi) as [[] [Hoff Hn]].
  constructor; simpl; try done. apply declared_snoc; [done|]. by split_and!.
Qed.

Lemma lower_import_inv principal ds d l a l' :
  lowerer_inv principal ds l -> lower_import (len ds) d l = (Ok a, l') ->
  lowerer_inv principal (ds ++ [d]) l'.
Proof.
  intros Hl. unfold lower_import, mbind, action_bind, pure.
  destruct (import_contract _ _) as [[kind rights]|] eqn:Hcon; simpl; [|done].
  destruct (checked 16 (len ds)) as [slot|] eqn:Hs; simpl; [|done]. apply checked_Some in Hs as [-> Hs].
  unfold on_builder at 1. destruct (add_import _ _ _ _ _) as [[u| | |] b1] eqn:Ha; try done.
  assert (lowerer_inv principal (ds ++ [d])
    {| builder := b1; pending_host := pending_host l; pending_task_context := pending_task_context l;
       pending_command_read := pending_command_read l |}) as H1.
  { destruct Hl as [Hb Hh Ht Hc]. constructor; simpl; try done. by eapply add_import_inv. }
  intros H. refine (proj1 ((_ : keeps (lowerer_inv principal (ds ++ [d]))
    (n ← node Op.BlockParam Ty.Capability no_inputs (len ds) 0 0;
     on_builder (define_local (ident_text (import_name d)) n)) (fun _ => True)) _ _ _ H1 H)).
  eapply keeps_bind.
  { apply keeps_node; [apply no_inputs_fit|by apply range_length_fits|by apply zero_fits..|done]. }
  intros n Hn. by apply keeps_builder, keeps_define_local.
Qed.

Lemma lower_imports_inv principal ds ds' l a l' :
  lowerer_inv principal ds l -> lower_imports (len ds) ds' l = (Ok a, l') ->
  lowerer_inv principal (ds ++ ds') l'.
Proof.
  revert ds l a. induction ds' as [|d ds' IH]; intros ds l a Hl.
  - intros [= <- <-]. by rewrite app_nil_r.
  - simpl. unfold mbind, action_bind. destruct (lower_import _ _ _) as [[u| | |] l1] eqn:H1; try done.
    intros H. replace (ds ++ d :: ds') with ((ds ++ [d]) ++ ds') by (by rewrite <- app_assoc).
    eapply IH; [by eapply lower_import_inv|]. unfold len. rewrite length_app. simpl.
    replace (Z.of_nat (length ds + 1)) with (len ds + 1) by (unfold len; lia). done.
Qed.

Lemma last_node_fits {E} f c v : last_node (E := E) f c = Ok v -> uint 32 v.
Proof.
  unfold last_node. intros H. inv_bind H. unfold expect in H.
  destruct (checked 32 _) eqn:Hc; [|done]. injection H as <-. by apply checked_Some in Hc as [-> ?].
Qed.

Lemma finish_block_fits id x gb :
  block_fits x -> finish_block id x = Ok gb -> block_wf (block_of_graph gb).
Proof.
  intros [Hf Hc]. unfold finish_block. destruct (first_node x) as [f|] eqn:Hx; [|done].
  intros H. inv_bind H. injection H as <-. apply last_node_fits in Ha. unfold block_wf; simpl.
  split_and!; first [done | by apply Hf | by apply zero_fits | by apply wrap_range].
Qed.

Lemma finish_blocks_fit l acc blocks :
  (forall k x, (k, x) ∈ l -> block_fits x) ->
  Forall (fun b => block_wf (block_of_graph b)) acc ->
  foldM (fun blocks '(id, block) => gb ← finish_block id block; Ok (blocks ++ [gb])) acc l = Ok blocks ->
  Forall (fun b => block_wf (block_of_graph b)) blocks.
Proof.
  revert acc. induction l as [|[k x] l IH]; intros acc Hx Hacc Ha; simpl in Ha; [by injection Ha as <-|].
  inv_bind Ha. inv_bind Ha0. injection Ha0 as <-. eapply IH; [| |exact Ha].
  - intros k' x' Hin. apply (Hx k'). by apply list_elem_of_further.
  - apply Forall_app. split; [done|]. apply Forall_singleton.
    eapply finish_block_fits; [|done]. apply (Hx k). by apply list_elem_of_here.
Qed.

Lemma finish_fits principal ds b g :
  builder_inv principal ds b -> finish b = Ok g ->
  g_principal_id g = principal /\ imports_declared (g_string_table g) ds (g_imports g) /\
  Forall (fun b => block_wf (block_of_graph b)) (g_blocks g) /\ Forall node_fits (g_nodes g).
Proof.
  intros Hb H. unfold finish in H. inv_bind H. injection H as <-. simpl.
  destruct Hb as [Hp Hi Hbl Hn _ _]. split_and!; [done|done| |done].
  eapply finish_blocks_fit; [|by apply Forall_nil_2|exact Ha].
  intros k x Hin. rewrite Forall_forall in Hbl. apply Hbl. apply list_elem_of_lookup in Hin as [i Hi'].
  apply lookup_enumerate in Hi' as [_ Hi']. by eapply list_elem_of_lookup_2.
Qed.

Lemma lower_program_fits typed g :
  lower_program typed = Ok g ->
  g_principal_id g = principal_id (typed_program typed) /\
  imports_declared (g_string_table g) (program_imports (typed_program typed)) (g_imports g) /\
  Forall (fun b => block_wf (block_of_graph b)) (g_blocks g) /\ Forall node_fits (g_nodes g).
Proof.
  unfold lower_program, outcome_of. set (p := typed_program typed).
  destruct (lower p (lowerer_new p)) as [r l'] eqn:Hl. simpl. intros ->.
  apply bind_run in Hl as (u1 & l1 & H1 & Hl).
  assert (lowerer_inv (principal_id p) [] l1) as Hi1.
  { unfold on_builder in H1. destruct (start_entry _) as [r b1] eqn:Hs. injection H1 as -> <-.
    constructor; simpl; [exact (start_entry_inv _ (ident_text (program_name p)) _ _ Hs)|done..]. }
  apply bind_run in Hl as (u2 & l2 & H2 & Hl).
  pose proof (lower_imports_inv _ [] _ _ _ _ Hi1 H2) as Hi2. simpl in Hi2. clear H2. rename Hi2 into H2.
  assert (exists u l3, lowerer_inv (principal_id p) (program_imports p) l3 /\
    finish_graph l3 = (Ok u, l') /\ u = g) as (u & l3 & Hi3 & Hf & ->).
  { pose proof (keeps_body (principal_id p) (program_imports p) p) as Hbody.
    destruct (first_loop_budget _).
    - apply bind_run in Hl as (u3 & l3 & H3 & Hl). destruct (Hbody _ _ _ H2 H3). eauto.
    - apply bind_run in Hl as (u3 & l3 & H3 & Hl). apply bind_run in Hl as (ended & l4 & H4 & Hl).
      apply bind_run in Hl as (u5 & l5 & H5 & Hl). exists g, l5. split_and!; [|done|done].
      apply (Hbody l2 u5 l5 H2). unfold mbind at 1, action_bind at 1. rewrite H3.
      unfold mbind at 1, action_bind at 1. by rewrite H4. }
  injection Hf as Hf _. eapply finish_fits; [apply Hi3|done].
Qed.

(** ** Built packages *)

Lemma parsed_principal source p :
  from_utf8 source = true -> parse_source source = Ok p -> uint 64 (principal_id p).
Proof.
  intros Hu Hp. unfold parse_source in Hp. inv_bind Hp.
  destruct (proj1 (proj1 (lex_exact source Hu) _) Ha) as (ts & -> & Hts).
  destruct (parse_program_exact ts (token TEof (len source) (len source))) as [Hex _];
    [done|by eapply tokens_between_kinds|].
  apply Hex in Hp. destruct Hp as [? ? ? ? ? raw v ? ? ? ? ? ? ? ? ? ? [_ Hv] ? ? ? ?].
  by eapply from_str_radix_uint.
Qed.

(** The package was built from the program. *)
Record built_from (program : Program) (p : PythGraphPackage) : Prop := {
  bf_verified : verified p;
  bf_jumps : jumps_unit p;
  bf_principal : h_principal_id (p_header p) = principal_id program;
  bf_imports : exists gis, imports p = import_of_graph <$> gis /\
    imports_declared (string_table p) (program_imports program) gis;
}.

Lemma jumps_of_graph g p :
  nodes p = node_of_graph <$> g_nodes g -> Forall node_fits (g_nodes g) -> jumps_unit p.
Proof.
  intros Hn Hf i. unfold op_at, ty_at. rewrite Hn. intros (n & Hi & Ho)%bind_Some. rewrite Hi. simpl.
  apply get_Some in Hi as [_ Hi]. rewrite list_lookup_fmap in Hi.
  apply fmap_Some in Hi as (gn & Hgn & ->). simpl in *.
  rewrite opcode_try_from_code in Ho. injection Ho as Ho. rewrite Forall_forall in Hf.
  destruct (Hf gn) as [_ Hj]; [by eapply list_elem_of_lookup_2|].
  by rewrite (Hj Ho), type_try_from_code.
Qed.

Lemma build_inv source bytes :
  from_utf8 source = true -> build source = Ok bytes ->
  exists program g, parse_source source = Ok program /\ verify_bytes bytes = Ok g /\
    built_from program (graph_package g).
Proof.
  intros Hu Hb. unfold build in Hb. inv_bind Hb. apply map_err_ok in Ha. inv_bind Hb.
  apply map_err_ok in Ha0, Hb. unfold typecheck_source in Ha. inv_bind Ha.
  assert (typed_program a = a1) as <-.
  { unfold typecheck_program, outcome_of in Ha. destruct (check_program a1 checker_new) as [r c] eqn:Hc.
    simpl in Ha. subst r. do 3 apply bind_run in Hc as (? & ? & _ & Hc). by injection Hc as <- _. }
  pose proof (parsed_principal source _ Hu Ha1) as Hp.
  destruct (lower_program_fits _ _ Ha0) as (Hpr & Himp & Hbl & Hn).
  destruct (encode_verified_wf a0 bytes) as (Hwf & g & Hv & Hg & _); [by rewrite Hpr|done| | |done|].
  - eapply Forall_impl; [done|]. by intros n [? _].
  - destruct Himp as [Hl Himp]. apply Forall_lookup. intros k gi Hgi.
    destruct (lookup_lt_is_Some_2 (program_imports (typed_program a)) k) as [d Hd].
    { rewrite Hl. by eapply lookup_lt_Some. }
    destruct (Himp k d gi Hd Hgi) as (Hcon & Ht & Hs & _ & Hk & Ho & Hlen).
    unfold import_contract in Hcon. apply bind_Some in Hcon as (kind & Hkind & Hcon).
    apply bind_Some in Hcon as (bits & Hbits & Hcon). injection Hcon as Hk1 Hk2.
    unfold import_wf; simpl. rewrite Hs, Ht, <- Hk1, <- Hk2.
    split_and!; first [done | by eapply resource_kind_uint | by eapply rights_bits_uint
      | by apply zero_fits | by apply code_fits; exact Op.Jump].
  - destruct (package_contents a0 (graph_wf_sized a0 Hwf) Hwf) as (_ & _ & Hnodes & Himps & _ & Hst).
    exists (typed_program a), g. split_and!; [done|done|]. rewrite Hg. constructor.
    + rewrite <- Hg. apply (wp_value _ _ _ (verify_bytes_post bytes) g Hv).
    + by eapply jumps_of_graph.
    + exact Hpr.
    + exists (g_imports a0). split; [done|]. by rewrite Hst.
Qed.

(** The capability [c] is the import that the program declares in some position
    with this kind of resource and these rights. *)
Definition declared_import (program : Program) (import_caps : list PackedCapability)
    (c : PackedCapability) (kind rights : Z) : Prop :=
  exists (k : nat) d, program_imports program !! k = Some d /\
    import_contract (import_resource d) (import_rights d) = Some (kind, rights) /\
    import_caps !! k = Some c.

(** The call uses a capability that the program declares, or one that a
    creation or query of an object returned earlier in the same run. *)
Definition call_declared (program : Program) (import_caps : list PackedCapability)
    (earlier : list CallEvent) (ev : CallEvent) : Prop :=
  exists kind rights, required_resource_kind (signature (ev_op ev)) = Some kind /\
    Z.land rights (required_rights (signature (ev_op ev))) = required_rights (signature (ev_op ev)) /\
    (declared_import program import_caps (ev_capability ev) kind rights \/
     (kind = RESOURCE_OBJECT /\ rights = Z.lor RIGHTS_READ RIGHTS_REVISE /\
      minted earlier (ev_capability ev))).

Lemma find_import_declared program p gis slot imp :
  imports p = import_of_graph <$> gis ->
  imports_declared (string_table p) (program_imports program) gis ->
  find_import p slot = Some imp ->
  exists (k : nat) d, slot = Z.of_nat k /\ program_imports program !! k = Some d /\
    import_contract (import_resource d) (import_rights d) = Some (i_resource_kind imp, i_rights imp).
Proof.
  intros Hp [Hl Hd] Hf. unfold find_import in Hf. apply fmap_Some in Hf as ([k imp'] & Hf & ->).
  apply list_find_Some in Hf as (Hk & Hslot & _). rewrite Hp, list_lookup_fmap in Hk.
  apply fmap_Some in Hk as (gi & Hgi & ->).
  destruct (lookup_lt_is_Some_2 (program_imports program) k) as [d Hdk].
  { rewrite Hl. by eapply lookup_lt_Some. }
  destruct (Hd k d gi Hdk Hgi) as (Hcon & _ & Hs & _). exists k, d. simpl in *.
  split_and!; [by rewrite <- Hs|done|done].
Qed.

Lemma trace_declared program p import_caps tr :
  built_from program p -> trace_justified p import_caps tr ->
  forall before ev earlier, tr = before ++ ev :: earlier ->
    call_declared program import_caps earlier ev.
Proof.
  intros [_ _ _ (gis & Hgis & Hdecl)] Ht before ev earlier ->.
  induction before as [|x before IH]; [|by apply IH, Ht].
  destruct Ht as [(kind & rights & Hk & Hr & Hwhy) _]. exists kind, rights. split_and!; [done|done|].
  destruct Hwhy as [(slot & imp & Hf & Hc & <- & <-)|Hm]; [left|by right].
  destruct (find_import_declared program p gis slot imp Hgis Hdecl Hf) as (k & d & -> & Hd & Hcon).
  exists k, d. rewrite get_of_nat in Hc. done.
Qed.

(** C3: what [pythc build] writes runs safely. If the build of a source text
    succeeds, the text parses, the bytes pass the verifier of the kernel, the
    package carries the principal and, name by name and slot by slot, the
    imports that the program declares; and with any host, capabilities and
    budget, without further conditions, the runtime ends with an exit record
    that is a normal exit, an exhausted budget, or an error which the node
    named in the record may raise. *)
Theorem built_packages_run_safely (source bytes : list byte) :
  from_utf8 source = true -> build source = Ok bytes ->
  exists program g, parse_source source = Ok program /\ verify_bytes bytes = Ok g /\
    h_principal_id (p_header (graph_package g)) = principal_id program /\
    (exists gis, imports (graph_package g) = import_of_graph <$> gis /\
       imports_declared (string_table (graph_package g)) (program_imports program) gis) /\
    forall (H : Type) (Hh : Host H) (Hwf : HostWf H) import_caps bud (h : H), uint 64 bud ->
      exists r s', execute (graph_package g) import_caps (new_interpreter bud h) = (Ok r, s') /\
        record_explained (graph_package g) bud r.
Proof.
  intros Hu Hb. destruct (build_inv source bytes Hu Hb) as (program & g & Hp & Hv & Hf).
  exists program, g. split_and!; [done|done|apply Hf|apply Hf|].
  intros. apply safe_run; [apply Hf|apply Hf|done].
Qed.

(** C4: the authority of a built package is what its source declares. In every
    run of it, with any host, every call to the host passes a capability that
    the runtime was given for an import of the source text whose declared
    resource and rights include what the call requires, or the capability of
    an object that an earlier call of the run created or queried. *)
Theorem built_packages_use_declared_authority (source bytes : list byte) :
  from_utf8 source = true -> build source = Ok bytes ->
  exists program g, parse_source source = Ok program /\ verify_bytes bytes = Ok g /\
    forall (H : Type) (Hh : Host H) import_caps bud (h : H) later ev earlier,
      (host (execute (graph_package g) import_caps (new_interpreter bud (h, []))).2).2
        = later ++ ev :: earlier ->
      call_declared program import_caps earlier ev.
Proof.
  intros Hu Hb. destruct (build_inv source bytes Hu Hb) as (program & g & Hp & Hv & Hf).
  exists program, g. split_and!; [done|done|]. intros H Hh import_caps bud h later ev earlier Htr.
  refine (trace_declared program (graph_package g) import_caps (later ++ ev :: earlier) Hf _ later ev earlier eq_refl).
  rewrite <- Htr. apply (ti_trace _ _ _ (execute_trace (graph_package g) import_caps (bf_verified _ _ Hf) bud h)).
Qed.

(** ** Loops *)

(** Opcodes that do nothing but start, name the imports and jump. *)
Definition idle_opcode (o : Opcode) : bool :=
  match o with Op.EffectStart | Op.BlockParam | Op.Jump => true | _ => false end.

Definition idle_nodes (b : GraphBuilder) : Prop :=
  Forall (fun n => idle_opcode (gn_opcode n) = true) (bld_nodes b).

#[local] Transparent push_node.

Lemma idle_push_node o t inputs a0 a1 imm :
  idle_opcode o = true -> keeps idle_nodes (push_node o t inputs a0 a1 imm) (fun _ => True).
Proof.
  intros Ho. destruct inputs as [[[i0 i1] i2] i3]. unfold push_node.
  eapply (keeps_bind _ _ _ (fun _ => True)); [by apply keeps_reads|]. intros n _.
  eapply (keeps_bind _ _ _ (fun _ => True)); [by apply keeps_reads|]. intros blk _.
  eapply (keeps_bind _ _ _ (fun _ => True)); [by apply keeps_pure|]. intros count _.
  eapply (keeps_bind _ _ _ (fun _ => True)); [by apply keeps_reads|]. intros blocks _.
  eapply (keeps_bind _ _ _ (fun _ => True)); [|intros; by apply keeps_ret].
  apply keeps_update; [|done]. intros b Hb. apply Forall_app. split; [done|]. by apply Forall_singleton.
Qed.

Lemma idle_intern_string bytes : keeps idle_nodes (intern_string bytes) (fun _ => True).
Proof.
  unfold intern_string. eapply (keeps_bind _ _ _ (fun _ => True)); [by apply keeps_reads|]. intros table _.
  assert (forall k, keeps idle_nodes (table_range k bytes) (fun _ => True)) as Hr.
  { intros k. unfold table_range. eapply (keeps_bind _ _ _ (fun _ => True)); [by apply keeps_pure|].
    intros o _. eapply (keeps_bind _ _ _ (fun _ => True)); [by apply keeps_pure|].
    intros. by apply keeps_ret. }
  case_match; [done|]. eapply keeps_bind; [apply Hr|]. intros r _.
  eapply (keeps_bind _ _ _ (fun _ => True)); [by apply keeps_update|]. intros. by apply keeps_ret.
Qed.

Lemma idle_builder {A} (m : building A) Q :
  keeps idle_nodes m Q -> keeps (fun l => idle_nodes (builder l)) (on_builder m) Q.
Proof.
  intros Hm l a l' Hl. unfold on_builder. destruct (m (builder l)) as [r b] eqn:E.
  intros [= -> <-]. by apply (Hm _ _ _ Hl E).
Qed.

Lemma idle_imports slot ds :
  keeps (fun l => idle_nodes (builder l)) (lower_imports slot ds) (fun _ => True).
Proof.
  revert slot. induction ds as [|d ds IH]; intros slot; simpl; [by apply keeps_ret|].
  eapply (keeps_bind _ _ _ (fun _ => True)); [|intros; apply IH]. unfold lower_import.
  eapply (keeps_bind _ _ _ (fun _ => True)); [by apply keeps_pure|]. intros [kind rights] _.
  eapply (keeps_bind _ _ _ (fun _ => True)); [by apply keeps_pure|]. intros k _.
  eapply (keeps_bind _ _ _ (fun _ => True)).
  { apply idle_builder. unfold add_import. eapply (keeps_bind _ _ _ (fun _ => True)).
    - intros b a b' Hb. unfold expect_interned.
      destruct (intern_string _ b) as [[r| | |] b1] eqn:Hi; try done. intros [= <- <-].
      by apply (idle_intern_string _ _ _ _ Hb Hi).
    - intros [off n] _. by apply keeps_update. }
  intros _ _. eapply keeps_bind; [by apply idle_builder, idle_push_node|]. intros n _.
  apply idle_builder. unfold define_local. apply keeps_update; [by intros l Hl|done].
Qed.

(** C34: a [while] at the top level replaces the program. Whatever the other
    statements of [main] and the body of the loop are, the graph that the
    compiler emits for such a program only names its imports and jumps: no
    literal, operator or host call of the source reaches the package. *)
Theorem loops_discard_the_program typed g budget :
  first_loop_budget (fn_statements (main (typed_program typed))) = Some budget ->
  lower_program typed = Ok g ->
  Forall (fun n => idle_opcode (gn_opcode n) = true) (g_nodes g).
Proof.
  intros Hloop. unfold lower_program, outcome_of. set (p := typed_program typed) in *.
  destruct (lower p (lowerer_new p)) as [r l'] eqn:Hl. simpl. intros ->.
  apply bind_run in Hl as (u1 & l1 & H1 & Hl). apply bind_run in Hl as (u2 & l2 & H2 & Hl).
  rewrite Hloop in Hl. apply bind_run in Hl as (u3 & l3 & H3 & Hl).
  assert (idle_nodes (builder l1)) as Hi1.
  { refine (proj1 (idle_builder start_entry (fun _ => True) _ (lowerer_new p) _ _ _ H1)); [|by constructor].
    unfold start_entry. eapply (keeps_bind _ _ _ (fun _ => True)).
    - unfold add_block. eapply (keeps_bind _ _ _ (fun _ => True)); [by apply keeps_reads|]. intros.
      eapply (keeps_bind _ _ _ (fun _ => True)); [by apply keeps_update|]. intros. by apply keeps_ret.
    - intros _ _. eapply keeps_bind; [by apply idle_push_node|]. intros. by apply keeps_update. }
  destruct (idle_imports _ _ _ _ _ Hi1 H2) as [Hi2 _].
  assert (idle_nodes (builder l3)) as Hi3.
  { refine (proj1 (idle_builder (push_loop budget) (fun _ => True) _ l2 _ _ Hi2 H3)).
    eapply (keeps_bind _ _ _ (fun _ => True)); [by apply keeps_update|]. intros _ _.
    eapply (keeps_bind _ _ _ (fun _ => True)); [by apply keeps_reads|]. intros block _.
    eapply keeps_bind; [by apply idle_push_node|]. intros. by apply keeps_ret. }
  injection Hl as Hf _. unfold finish in Hf. inv_bind Hf. by injection Hf as <-.
Qed.

(** ** Long names *)

Lemma intern_too_long name b : 2 ^ 16 <= len name -> exists d, intern_string name b = (Err d, b).
Proof.
  intros Hlen. assert (checked 16 (len name) = None) as Hc by (apply checked_None; unfold uint; lia).
  unfold intern_string, table_range, mbind, action_bind, reads, pure. simpl.
  destruct (find_subslice _ _); (destruct (checked 32 _); simpl; [rewrite Hc|]); simpl; eauto.
Qed.

(** a name that is too long stops the compiler. A program whose first import
    is well-formed and has a name of 65536 bytes or more makes the lowering
    panic, where every other limit is reported as a diagnostic. *)
Theorem long_import_name_panics typed d ds c :
  program_imports (typed_program typed) = d :: ds ->
  import_contract (import_resource d) (import_rights d) = Some c ->
  2 ^ 16 <= len (ident_text (import_name d)) ->
  lower_program typed = Panic.
Proof.
  intros Himp Hcon Hlen. unfold lower_program, outcome_of, lower. rewrite Himp.
  unfold mbind at 1, action_bind at 1. unfold on_builder at 1. simpl builder.
  destruct (start_entry _) as [r b] eqn:Hs. vm_compute in Hs. injection Hs as <- Hb.
  unfold mbind at 1, action_bind at 1. simpl lower_imports.
  unfold mbind at 1, action_bind at 1. unfold lower_import. rewrite Hcon. destruct c as [kind rights].
  unfold mbind, action_bind, pure. simpl. unfold on_builder, add_import, mbind, action_bind, expect_interned.
  simpl. destruct (intern_too_long (ident_text (import_name d)) b Hlen) as [e ->]. done.
Qed.
