(* ===== verification/PythcExamples.v ===== *)
(** * Concrete runs of the compiler

    A program that uses most of the language, and the instances of the
    theorems at it. *)

From stdpp Require Import base numbers list sets.
From Stdlib Require Import Strings.Byte.
From S2P Require Import Prelude Utf8 TigTypes TigFormat TigVerify TigEncode TigRuntime.
From S2P Require Import TigRuntimeLogic TigSoundness TigAuthority Kernel.
From S2P Require Import PythcSyntax PythcLexer PythcLexerFacts PythcParser PythcGrammar PythcParserFacts.
From S2P Require Import PythcTypecheck PythcTyping PythcLower PythcBuild.

(** [text] in double quotes. *)
Definition quoted (text : String.string) : list byte := x22 :: bs text ++ [x22].
Arguments quoted text%_string_scope.

Definition demo_source : list byte :=
  bs "program demo principal 0x1234 { import log: capability<system.log, read>; " ++
  bs "import space: capability<object.workspace, create|query>; fn main() -> unit { " ++
  bs "let limit: u64 = 1 + 2; let note: object_id = object.create(space, 1); " ++
  bs "let handle: capability = object.created_capability(); " ++
  bs "if limit < 4 && !false { system.log(log, " ++ quoted "hello" ++ bs "); } else { return; } " ++
  bs "object.history(handle, note); } }".

Local Opaque demo_source.

Definition built (r : outcome BuildError (list byte)) : list byte :=
  match r with Ok bytes => bytes | _ => [] end.

Definition demo_package : list byte := built (build demo_source).
Local Opaque demo_package.

Lemma demo_source_builds : build demo_source = Ok demo_package /\ demo_package <> [].
Proof. by vm_compute. Qed.

(** Type errors, duplicate names, operators on capabilities, stale results,
    budgets, unknown names, large literals and unknown calls are reported. *)
Definition in_main (body : list byte) : list byte :=
  bs "program p principal 0x1 { import log: capability<system.log, read>; fn main() -> unit { "
  ++ body ++ bs " } }".

Definition error_code (source : list byte) : option String.string :=
  match build source with
  | Err (SourceError d) | Err (PackageError d) => Some (diag_code d)
  | _ => None
  end.

Lemma rejected_programs :
  Forall (fun body => error_code (in_main body) <> None)
    [bs "let x: u64 = true;"; bs "let log: u64 = 1;"; bs "let b: bool = log == log;";
     bs "object.created_capability();"; bs "while budget 65537 true { }"; bs "system.log(log, 5);";
     bs "x;"; bs "let y: u64 = 18446744073709551616;"; bs "f();"].
Proof. repeat constructor; by vm_compute. Qed.

(** ** Witnesses *)

Lemma parse_source_exact_witness :
  from_utf8 demo_source = true /\
  (forall p, parse_source demo_source = Ok p <->
     exists ts, tokens_between demo_source 0 ts (len demo_source) /\ program_at ts p) /\
  match parse_source demo_source with Ok _ => True | _ => False end.
Proof.
  assert (from_utf8 demo_source = true) as Hu by (by vm_compute).
  destruct (parse_source_exact demo_source Hu) as [H _]. split; [exact Hu|]. split.
  - exact H.
  - by vm_compute.
Defined.

Lemma string_literal_faithful_iff_ascii_witness :
  exists v, kinds <$> lex (x22 :: [xc3; xa9] ++ [x22]) = Ok [TString v; TEof] /\
    (v = [xc3; xa9] <-> Forall ascii [xc3; xa9]) /\ length v = 4%nat.
Proof.
  destruct (string_literal_faithful_iff_ascii [xc3; xa9]) as (v & H1 & H2 & H3);
    [by vm_compute|repeat constructor; done|].
  exists v. split; [exact H1|]. split; [exact H2|]. rewrite H3. by vm_compute.
Defined.

Lemma built_packages_run_safely_witness :
  exists program g, parse_source demo_source = Ok program /\ verify_bytes demo_package = Ok g /\
    h_principal_id (p_header (graph_package g)) = principal_id program.
Proof.
  destruct (built_packages_run_safely demo_source demo_package) as (program & g & H1 & H2 & H3 & _);
    [by vm_compute|by vm_compute|].
  exists program, g. exact (conj H1 (conj H2 H3)).
Defined.

Lemma built_packages_use_declared_authority_witness :
  exists program g, parse_source demo_source = Ok program /\ verify_bytes demo_package = Ok g.
Proof.
  destruct (built_packages_use_declared_authority demo_source demo_package) as (program & g & H1 & H2 & _);
    [by vm_compute|by vm_compute|].
  exists program, g. exact (conj H1 H2).
Defined.

(** A program whose loop hides a log call. *)
Definition loop_source : list byte :=
  in_main (bs "system.log(log, " ++ quoted "start" ++ bs "); while budget 8 true { }").

Definition typed_of (source : list byte) : option TypedProgram :=
  match typecheck_source source with Ok t => Some t | _ => None end.

Lemma loops_discard_the_program_witness :
  exists t g, typed_of loop_source = Some t /\ lower_program t = Ok g /\
    Forall (fun n => idle_opcode (gn_opcode n) = true) (g_nodes g).
Proof.
  destruct (typed_of loop_source) as [t|] eqn:Ht; [|by vm_compute in Ht].
  destruct (lower_program t) as [g| | |] eqn:Hg;
    [|vm_compute in Ht; injection Ht as <-; by vm_compute in Hg..].
  exists t, g. split; [done|]. split; [done|].
  apply (loops_discard_the_program t g 8); [|done]. vm_compute in Ht. by injection Ht as <-.
Defined.

(** A program with an import name of 65536 bytes. *)
Definition long_named : TypedProgram :=
  let name := {| ident_text := replicate (Z.to_nat 65536) "a"%byte; ident_span := default_span |} in
  {| typed_program :=
       {| program_name := name; principal_id := 1;
          program_imports := [{| import_name := name; import_resource := bs "graph";
                                 import_rights := bs "query"; import_span := default_span |}];
          main := {| fn_statements := []; fn_span := default_span |}; program_span := default_span |};
     typed_main := Ty.Unit; typed_required_intrinsics := [] |}.

Lemma long_import_name_panics_witness : lower_program long_named = Panic.
Proof.
  eapply (long_import_name_panics long_named); [reflexivity|reflexivity|].
  change (2 ^ 16 <= len (replicate (Z.to_nat 65536) "a"%byte)). rewrite len_replicate. lia.
Defined.
