(* ===== verification/ServiceIdentity.v ===== *)
(** * Service identities

    [core/src/service_identity.rs]: the table that gives a task its service
    identity. Identities come from a counter that is never reset, so the table
    implements a handle store: an identity is never issued twice, and an
    unregistered one never resolves again. *)

From stdpp Require Import base numbers list gmap relations.
From S2P Require Import Prelude Kernel.

(** ** Data *)

Definition MAX_TASKS : Z := 8.
Definition MAX_SERVICES : Z := MAX_TASKS.
Definition FIRST_SERVICE_ID : Z := 1.
Definition INVALID_SERVICE_ID : Z := 0.

(** [ServiceId] and [TaskId] wrap a [u64]. *)
Definition ServiceId : Type := Z.
Definition TaskId : Type := Z.

Inductive ServiceIdentityError : Type :=
| IdentityTableFull
| UnknownService
| ExhaustedIds
| StaleIdentityStillActive
| ReusedIdentity.

Record ServiceRecord := {
  service_id : ServiceId;
  task_id : TaskId;
  active : bool;
}.

Definition empty_service_record : ServiceRecord :=
  {| service_id := INVALID_SERVICE_ID; task_id := 0; active := false |}.

Record ServiceIdentityTable := {
  records : list ServiceRecord;
  next_id : Z;
}.

(** ** Operations *)

Definition new_identity_table : ServiceIdentityTable :=
  {| records := replicate (Z.to_nat MAX_SERVICES) empty_service_record;
     next_id := FIRST_SERVICE_ID |}.

Definition set_records (rs : list ServiceRecord) (t : ServiceIdentityTable) :=
  {| records := rs; next_id := next_id t |}.
Definition set_next_id (n : Z) (t : ServiceIdentityTable) :=
  {| records := records t; next_id := n |}.

Definition register_task (task : TaskId) :
    action ServiceIdentityTable ServiceIdentityError ServiceId :=
  slot ← reads (fun t => ok_or (position (fun r => negb (active r)) (records t)) IdentityTableFull);
  id ← reads (fun t => Ok (next_id t));
  next ← reads (fun t => ok_or (checked_add 64 (next_id t) 1) ExhaustedIds);
  update (set_next_id next);;
  rs ← reads (fun t => index_set (records t) slot
                         {| service_id := id; task_id := task; active := true |});
  update (set_records rs);;
  mret id.

(** The predicate of [find] in [unregister] and [task_for]. *)
Definition serves (id : ServiceId) (r : ServiceRecord) : bool :=
  active r && (service_id r =? id).

Definition deactivate (r : ServiceRecord) : ServiceRecord :=
  {| service_id := service_id r; task_id := task_id r; active := false |}.

Definition unregister (id : ServiceId) : action ServiceIdentityTable ServiceIdentityError unit :=
  slot ← reads (fun t => ok_or (position (serves id) (records t)) UnknownService);
  r ← reads (fun t => index (records t) slot);
  rs ← reads (fun t => index_set (records t) slot (deactivate r));
  update (set_records rs).

Definition task_for (t : ServiceIdentityTable) (id : ServiceId) : option TaskId :=
  task_id <$> find (serves id) (records t).

Definition identity_self_test : outcome ServiceIdentityError unit :=
  '(old_service, t) ← run (register_task 10) new_identity_table;
  '(_, t) ← run (unregister old_service) t;
  '(new_service, t) ← run (register_task 11) t;
  reject (old_service =? new_service) ReusedIdentity;;
  reject (bool_decide (is_Some (task_for t old_service))) StaleIdentityStillActive;;
  reject (negb (bool_decide (task_for t new_service = Some 11))) UnknownService.

(** ** The handle store of identities *)

(** [r] is an active record of the table that gives [task] the identity [id]. *)
Definition registered (t : ServiceIdentityTable) (id : ServiceId) (task : TaskId) : Prop :=
  exists i r, get (records t) i = Some r /\ active r = true /\ service_id r = id /\ task_id r = task.

Record identity_wf (t : ServiceIdentityTable) : Prop := {
  iw_len : len (records t) = MAX_SERVICES;
  iw_next : 1 <= next_id t < 2 ^ 64;
  iw_used i r : get (records t) i = Some r -> active r = true -> 1 <= service_id r < next_id t;
  iw_unique i j r r' : get (records t) i = Some r -> get (records t) j = Some r' ->
    active r = true -> active r' = true -> service_id r = service_id r' -> i = j;
}.

Definition identity_represents (t : ServiceIdentityTable) (s : store ServiceId TaskId) : Prop :=
  identity_wf t /\
  (forall id task, live s !! id = Some task <-> registered t id task) /\
  (forall id, id ∈ issued s <-> 1 <= id < next_id t).

(** Any call, successful or not, with any argument. *)
Inductive identity_step : ServiceIdentityTable -> ServiceIdentityTable -> Prop :=
| identity_register task r t t' : register_task task t = (r, t') -> identity_step t t'
| identity_unregister id r t t' : unregister id t = (r, t') -> identity_step t t'.

Lemma new_identity_represents : identity_represents new_identity_table empty_store.
Proof.
  assert (forall i r, get (records new_identity_table) i = Some r -> active r = false) as Hf.
  { intros i r [-> _]%get_replicate. done. }
  split_and!.
  - split; [done|done| |].
    + intros i r Hr. rewrite (Hf i r Hr). done.
    + intros i j r r' Hr _ Ha. rewrite (Hf i r Hr) in Ha. done.
  - intros id task. split; [done|]. intros (i & r & Hr & Ha & _).
    rewrite (Hf i r Hr) in Ha. done.
  - intros id. simpl. unfold FIRST_SERVICE_ID. set_solver by lia.
Qed.

Section updates.
Context (t : ServiceIdentityTable) (slot : Z).
Hypothesis Hslot : 0 <= slot < len (records t).

Lemma get_set_records r j x :
  get (records (set_records (<[Z.to_nat slot := r]> (records t)) t)) j = Some x <->
  (j = slot /\ x = r) \/ (j <> slot /\ get (records t) j = Some x).
Proof.
  simpl. destruct (decide (j = slot)) as [->|Hj].
  - rewrite get_insert_eq by done. naive_solver.
  - rewrite get_insert_ne by lia. naive_solver.
Qed.
End updates.

(** A registration takes the first inactive slot and the next identity. *)
Lemma register_task_spec task t s :
  identity_represents t s ->
  wpA (register_task task) t
    (fun id t' => id = next_id t /\ next_id t' = next_id t + 1 /\ (id ∉ issued s) /\
       identity_represents t' (Build_store (<[id := task]> (live s)) ({[id]} ∪ issued s)))
    (fun e t' => t' = t /\
       (e = IdentityTableFull /\ (forall r, r ∈ records t -> active r = true) \/
        e = ExhaustedIds /\ next_id t = 2 ^ 64 - 1)).
Proof.
  intros (Hwf & Hlive & Hiss). destruct Hwf as [Hlen Hnext Hused Huniq].
  unfold register_task. do 2 act_step. act_step.
  2:{ intros Hp. split; [done|left; split; [done|]]. intros r Hr.
      by apply negb_false_iff, (position_None _ _ Hp). }
  intros slot (Hslot & (r0 & Hr0 & Ha0) & _)%position_Some. apply negb_true_iff in Ha0.
  repeat (act_step; try done).
  2:{ intros Hn%checked_None. split; [done|right; split; [done|]]. unfold uint in Hn. lia. }
  intros n [-> Hn]%checked_Some. act_step. act_step. act_step. act_step.
  apply wp_index_set; [done|]. do 3 act_step. set (rec := Build_ServiceRecord _ _ _).
  split_and!; [done|done| |].
  { rewrite Hiss. lia. }
  assert (forall j x, get (records (set_records (<[Z.to_nat slot := rec]> (records t)) t)) j = Some x
    <-> (j = slot /\ x = rec) \/ (j <> slot /\ get (records t) j = Some x)) as Hget
    by (intros; by apply get_set_records).
  split_and!; simpl in *.
  - split; simpl.
    + by rewrite len_insert.
    + unfold uint in Hn. lia.
    + intros j x [[-> ->]|[_ Hx]]%Hget Ha; simpl; [lia|]. specialize (Hused j x Hx Ha). lia.
    + intros i j x y [[-> ->]|[_ Hx]]%Hget [[-> ->]|[_ Hy]]%Hget Hax Hay; simpl; [done| | |].
      * specialize (Hused _ _ Hy Hay). lia.
      * specialize (Hused _ _ Hx Hax). lia.
      * eauto.
  - intros id tk. rewrite lookup_insert_Some, Hlive. split.
    + intros [[<- <-]|[Hne (i & x & Hx & Ha & <- & <-)]].
      * exists slot, rec. split; [apply Hget; auto|done].
      * exists i, x. split; [|done]. apply Hget. right. split; [|done]. intros ->.
        simplify_eq. congruence.
    + intros (i & x & [[-> ->]|[Hi Hx]]%Hget & Ha & <- & <-); simpl; [by left|right].
      split; [|by exists i, x]. specialize (Hused _ _ Hx Ha). lia.
  - intros id. rewrite elem_of_union, elem_of_singleton, Hiss. lia.
Qed.

(** Unregistering deactivates the record of the identity and nothing else. *)
Lemma unregister_spec id t s :
  identity_represents t s ->
  wpA (unregister id) t
    (fun _ t' => next_id t' = next_id t /\ is_Some (live s !! id) /\
       identity_represents t' (Build_store (delete id (live s)) (issued s)))
    (fun e t' => t' = t /\ e = UnknownService /\ live s !! id = None).
Proof.
  intros (Hwf & Hlive & Hiss). destruct Hwf as [Hlen Hnext Hused Huniq].
  assert (forall r, serves id r = true <-> active r = true /\ service_id r = id) as Hs.
  { intros r. unfold serves. rewrite andb_true_iff, Z.eqb_eq. done. }
  unfold unregister. do 2 act_step. act_step.
  2:{ intros Hp. split_and!; [done..|]. apply eq_None_not_Some. intros [tk (i & r & Hr & Har)%Hlive].
      assert (serves id r = false) as Hf by (eapply position_None; [done|by eapply get_elem_of]).
      apply not_true_iff_false in Hf. apply Hf, Hs. naive_solver. }
  intros slot (Hslot & (r & Hr & [Ha Hid]%Hs) & _)%position_Some.
  do 2 act_step. apply wp_index; [done|]. intros r' Hr'. rewrite Hr in Hr'. simplify_eq.
  do 2 act_step. apply wp_index_set; [done|]. act_step. split_and!; [done| |].
  { exists (task_id r'). apply Hlive. exists slot, r'. done. }
  pose proof (get_set_records t slot Hslot (deactivate r')) as Hget.
  split_and!; simpl in *.
  - split; simpl; [by rewrite len_insert|done| |].
    + intros j x [[-> ->]|[_ Hx]]%Hget; [done|]. eauto.
    + intros i j x y [[-> ->]|[_ Hx]]%Hget [[-> ->]|[_ Hy]]%Hget; try done. eauto.
  - intros k tk. rewrite lookup_delete_Some, Hlive. split.
    + intros [Hne (i & x & Hx & Hax & <- & <-)]. exists i, x. split; [|done].
      apply Hget. right. split; [|done]. intros ->. simplify_eq.
    + intros (i & x & [[-> ->]|[Hi Hx]]%Hget & Hax & <- & <-); [done|].
      split; [|by exists i, x]. intros Heq. apply Hi. by eapply Huniq.
  - intros k. by rewrite Hiss.
Qed.

Lemma task_for_spec t s id :
  identity_represents t s -> task_for t id = live s !! id.
Proof.
  intros (Hwf & Hlive & _). unfold task_for. destruct (find (serves id) (records t)) as [r|] eqn:Hf; simpl.
  - apply find_Some in Hf as [[i Hi]%elem_of_get [Ha Hid%Z.eqb_eq]%andb_true_iff].
    symmetry. apply Hlive. by exists i, r.
  - symmetry. apply eq_None_not_Some. intros [tk (i & r & Hr & Ha & Hid & _)%Hlive].
    pose proof (find_None _ _ Hf r (get_elem_of _ _ _ Hr)) as Hs. unfold serves in Hs.
    rewrite Ha, Hid, Z.eqb_refl in Hs. done.
Qed.

Lemma identity_step_simulates t t' s :
  identity_represents t s -> identity_step t t' ->
  exists s', store_step s s' /\ identity_represents t' s'.
Proof.
  intros Hr Hs. revert Hr. destruct Hs as [task r t1 t1' Hc|id r t1 t1' Hc]; intros Hr.
  - destruct (wpA_run _ _ _ _ (register_task_spec task t1 s Hr))
      as [(id & t2 & Hm & -> & _ & Hi & Hr')|(e & t2 & Hm & -> & _)];
      rewrite Hc in Hm; simplify_eq; [|by eexists; split; [apply step_stay|]].
    eexists. split; [by apply step_issue|done].
  - destruct (wpA_run _ _ _ _ (unregister_spec id t1 s Hr))
      as [(? & t2 & Hm & _ & _ & Hr')|(e & t2 & Hm & -> & _)];
      rewrite Hc in Hm; simplify_eq; [|by eexists; split; [apply step_stay|]].
    eexists. split; [by apply step_retire|done].
Qed.

Lemma identity_represents_wf t s : identity_represents t s -> store_wf s.
Proof.
  intros (Hwf & Hlive & Hiss) id [tk (i & r & Hr & Ha & <- & _)%Hlive]%elem_of_dom.
  apply Hiss. by eapply iw_used.
Qed.

#[export] Instance identity_handle_table : HandleTable ServiceIdentityTable ServiceId TaskId := {|
  table_step := identity_step;
  represents := identity_represents;
  represents_wf := identity_represents_wf;
  table_step_simulates := identity_step_simulates;
|}.

(** ** What callers rely on *)

(** The tables the kernel can hold: any calls from an empty table. *)
Definition identity_reachable (t : ServiceIdentityTable) : Prop :=
  rtc identity_step new_identity_table t.

Lemma identity_reachable_represents t :
  identity_reachable t -> exists s, identity_represents t s.
Proof.
  intros Hr.
  destruct (table_steps_simulate (HT := identity_handle_table) _ _ _ new_identity_represents Hr) as (s & _ & Hs). eauto.
Qed.

(** Registering a task always returns. It fails only when all eight
    records are active or the counter is exhausted, and then changes nothing;
    otherwise the new identity resolves to the task, every other identity
    resolves as before, and every identity issued later is larger. *)
Theorem register_task_fresh t task :
  identity_reachable t ->
  match register_task task t with
  | (Ok id, t') =>
      task_for t id = None /\ task_for t' id = Some task /\
      (forall other, other <> id -> task_for t' other = task_for t other) /\
      (forall t2 task2 id2 t3, rtc identity_step t' t2 ->
         register_task task2 t2 = (Ok id2, t3) -> id < id2)
  | (Err e, t') => t' = t /\
      (e = IdentityTableFull /\ (forall r, r ∈ records t -> active r = true) \/
       e = ExhaustedIds /\ next_id t = u64_max)
  | _ => False
  end.
Proof.
  intros (s & Hr)%identity_reachable_represents.
  destruct (wpA_run _ _ _ _ (register_task_spec task t s Hr))
    as [(id & t' & -> & Hid & Hnext & Hi & Hr')|(e & t' & -> & H)]; [|done].
  split_and!.
  - rewrite (task_for_spec _ _ _ Hr). apply not_elem_of_dom. intros Hd.
    by apply Hi, (identity_represents_wf _ _ Hr).
  - rewrite (task_for_spec _ _ _ Hr'). apply lookup_insert_eq.
  - intros other Hne. rewrite (task_for_spec _ _ _ Hr), (task_for_spec _ _ _ Hr').
    by apply lookup_insert_ne.
  - intros t2 task2 id2 t3 Hs Hreg.
    destruct (handle_history (HT := identity_handle_table) _ _ _ id Hr' Hs) as (s2 & Hr2 & Hin & _); [set_solver|].
    destruct (wpA_ok _ _ _ _ _ _ (register_task_spec task2 t2 s2 Hr2) Hreg) as (-> & _).
    by apply Hr2 in Hin as [_ Hlt].
Qed.

(** Unregistering an identity always returns; it fails exactly on an
    identity that does not resolve. Afterwards the identity does not resolve,
    whatever is registered or unregistered later, and the other identities
    are untouched. *)
Theorem unregistered_stays_unknown t id :
  identity_reachable t ->
  match unregister id t with
  | (Ok _, t') =>
      is_Some (task_for t id) /\
      (forall t2, rtc identity_step t' t2 -> task_for t2 id = None) /\
      (forall other, other <> id -> task_for t' other = task_for t other)
  | (Err e, t') => t' = t /\ e = UnknownService /\ task_for t id = None
  | _ => False
  end.
Proof.
  intros (s & Hr)%identity_reachable_represents.
  rewrite (task_for_spec _ _ _ Hr).
  destruct (wpA_run _ _ _ _ (unregister_spec id t s Hr))
    as [(? & t' & -> & _ & Hl & Hr')|(e & t' & -> & H)]; [|done].
  split_and!; [done| |].
  - intros t2 Hs.
    destruct (handle_history (HT := identity_handle_table) _ _ _ id Hr' Hs) as (s2 & Hr2 & _ & Hh).
    { apply (identity_represents_wf _ _ Hr). by apply elem_of_dom. }
    rewrite (task_for_spec _ _ _ Hr2). apply eq_None_not_Some. intros [v Hv%Hh].
    simpl in Hv. by rewrite lookup_delete_eq in Hv.
  - intros other Hne. rewrite (task_for_spec _ _ _ Hr), (task_for_spec _ _ _ Hr').
    by apply lookup_delete_ne.
Qed.
