(* ===== verification/Capabilities.v ===== *)
(** * The capability table

    [core/src/capabilities.rs]: the kernel-owned table behind every capability
    handle. A handle is a slot and a generation; validation compares both, the
    caller, the resource and the rights. The table implements a handle store
    whose authorities are (holder, resource, rights) triples. *)

From stdpp Require Import base numbers list gmap countable relations.
From S2P Require Import Prelude Kernel ServiceIdentity.

(** ** Data *)

Definition CAPABILITY_TABLE_SLOTS : Z := 32.

Inductive CapabilityError : Type :=
| TableFull
| InvalidHandle
| Revoked
| WrongHolder
| WrongResource
| MissingRights.

Record CapabilityHandle := Handle {
  slot : Z;
  generation : Z;
}.

Inductive CapabilityGrant : Type :=
| Created (h : CapabilityHandle)
| Existing (h : CapabilityHandle).

Definition grant_handle (g : CapabilityGrant) : CapabilityHandle :=
  match g with Created h | Existing h => h end.

(** [ResourceId] wraps a [u64], [RightsMask] a [u32]. *)
Definition ResourceId : Type := Z.
Definition RightsMask : Type := Z.

Definition RIGHT_READ : RightsMask := Z.shiftl 1 0.
Definition RIGHT_WRITE : RightsMask := Z.shiftl 1 1.
Definition RIGHT_SEND : RightsMask := Z.shiftl 1 2.
Definition RIGHT_LOG : RightsMask := Z.shiftl 1 3.
Definition RIGHT_INPUT : RightsMask := Z.shiftl 1 4.
Definition RIGHT_APPEND : RightsMask := Z.shiftl 1 5.

Definition contains (rights required : RightsMask) : bool := Z.land rights required =? required.

Definition PROOF_RESOURCE_ID : ResourceId := 0xC0DA0001.
Definition PROOF_RIGHTS : RightsMask := Z.lor RIGHT_READ RIGHT_WRITE.

Inductive CapabilityState : Type := StateActive | StateRevoked.

Record CapabilityEntry := {
  holder : ServiceId;
  resource : ResourceId;
  rights : RightsMask;
  entry_generation : Z;
  state : CapabilityState;
}.

Record CapabilityTable := { entries : list (option CapabilityEntry) }.

#[export] Instance capability_error_eq_decision : EqDecision CapabilityError.
Proof. solve_decision. Defined.
#[export] Instance capability_handle_eq_decision : EqDecision CapabilityHandle.
Proof. solve_decision. Defined.
#[export] Instance capability_state_eq_decision : EqDecision CapabilityState.
Proof. solve_decision. Defined.
#[export] Program Instance capability_handle_countable : Countable CapabilityHandle :=
  inj_countable' (fun h => (slot h, generation h)) (fun p => Handle p.1 p.2) _.
Next Obligation. by intros []. Qed.

(** ** Operations *)

Definition new_capability_table : CapabilityTable :=
  {| entries := replicate (Z.to_nat CAPABILITY_TABLE_SLOTS) None |}.

Definition clear : action CapabilityTable CapabilityError unit :=
  update (fun _ => new_capability_table).

(** The closure of [find_map] in [grant_with_provenance]. *)
Definition grants (h : ServiceId) (r : ResourceId) (m : RightsMask)
    (e : option CapabilityEntry) : bool :=
  match e with
  | Some e => bool_decide (state e = StateActive) && (holder e =? h) &&
              (resource e =? r) && (rights e =? m)
  | None => false
  end.

Definition is_none {A} (o : option A) : bool := match o with None => true | Some _ => false end.

Definition set_entry (i : Z) (e : CapabilityEntry) :
    action CapabilityTable CapabilityError unit :=
  es ← reads (fun t => index_set (entries t) i (Some e));
  update (fun _ => {| entries := es |}).

Definition grant_with_provenance (h : ServiceId) (r : ResourceId) (m : RightsMask) :
    action CapabilityTable CapabilityError CapabilityGrant :=
  found ← reads (fun t => Ok (list_find (fun e => grants h r m e = true) (entries t)));
  match found with
  | Some (i, Some e) => mret (Existing (Handle (wrap 32 (Z.of_nat i)) (entry_generation e)))
  | _ =>
      i ← reads (fun t => ok_or (position is_none (entries t)) TableFull);
      let handle := Handle (wrap 32 i) 1 in
      set_entry i {| holder := h; resource := r; rights := m;
                     entry_generation := generation handle; state := StateActive |};;
      mret (Created handle)
  end.

Definition grant (h : ServiceId) (r : ResourceId) (m : RightsMask) :
    action CapabilityTable CapabilityError CapabilityHandle :=
  g ← grant_with_provenance h r m;
  mret (grant_handle g).

(** [self.entries.get(handle.slot as usize).and_then(Option::as_ref)] *)
Definition entry_of (t : CapabilityTable) (h : CapabilityHandle) : option CapabilityEntry :=
  get (entries t) (slot h) ≫= id.

Definition validate (t : CapabilityTable) (caller : ServiceId) (h : CapabilityHandle)
    (r : ResourceId) (required : RightsMask) : outcome CapabilityError unit :=
  e ← ok_or (entry_of t h) InvalidHandle;
  reject (negb (entry_generation e =? generation h)) InvalidHandle;;
  reject (negb (bool_decide (state e = StateActive))) Revoked;;
  reject (negb (holder e =? caller)) WrongHolder;;
  reject (negb (resource e =? r)) WrongResource;;
  reject (negb (contains (rights e) required)) MissingRights.

Definition revoked_entry (e : CapabilityEntry) : CapabilityEntry :=
  {| holder := holder e; resource := resource e; rights := rights e;
     entry_generation := wrap 32 (entry_generation e + 1); state := StateRevoked |}.

Definition revoke (h : CapabilityHandle) : action CapabilityTable CapabilityError unit :=
  e ← reads (fun t => ok_or (entry_of t h) InvalidHandle);
  pure (reject (negb (entry_generation e =? generation h)) InvalidHandle);;
  set_entry (slot h) (revoked_entry e).

Definition run_capability_handle_self_test : outcome CapabilityError unit :=
  '(h, _) ← map_err (fun _ => InvalidHandle) (run (register_task 30) new_identity_table);
  '(handle, t) ← run (grant h PROOF_RESOURCE_ID PROOF_RIGHTS) new_capability_table;
  validate t h handle PROOF_RESOURCE_ID RIGHT_READ.

Definition run_revocation_self_test : outcome CapabilityError unit :=
  '(h, _) ← map_err (fun _ => InvalidHandle) (run (register_task 32) new_identity_table);
  '(revoked, t) ← run (grant h PROOF_RESOURCE_ID PROOF_RIGHTS) new_capability_table;
  '(unaffected, t) ← run (grant h 0xC0DA0002 PROOF_RIGHTS) t;
  '(_, t) ← run (revoke revoked) t;
  match validate t h revoked PROOF_RESOURCE_ID RIGHT_READ with
  | Err InvalidHandle => validate t h unaffected 0xC0DA0002 RIGHT_READ
  | Panic => Panic
  | Diverge => Diverge
  | _ => Err InvalidHandle
  end.

Definition run_negative_authorization_self_test : outcome CapabilityError unit :=
  '(intruder, _) ← map_err (fun _ => InvalidHandle) (run (register_task 33) new_identity_table);
  match validate new_capability_table intruder (Handle 0 1) PROOF_RESOURCE_ID RIGHT_READ with
  | Err InvalidHandle => Ok tt
  | Panic => Panic
  | Diverge => Diverge
  | _ => Err InvalidHandle
  end.

(** The three boot self-tests pass. *)
Lemma capability_self_tests_pass :
  run_capability_handle_self_test = Ok tt /\
  run_revocation_self_test = Ok tt /\
  run_negative_authorization_self_test = Ok tt.
Proof. by vm_compute. Qed.

(** ** The handle store of capabilities *)

Record authority := Authority {
  auth_holder : ServiceId;
  auth_resource : ResourceId;
  auth_rights : RightsMask;
}.

#[export] Instance authority_eq_decision : EqDecision authority.
Proof. solve_decision. Defined.

Definition entry_authority (e : CapabilityEntry) : authority :=
  Authority (holder e) (resource e) (rights e).

(** [h] names an active entry with the authority [a]. *)
Definition holds (t : CapabilityTable) (h : CapabilityHandle) (a : authority) : Prop :=
  exists e, get (entries t) (slot h) = Some (Some e) /\ state e = StateActive /\
    entry_generation e = generation h /\ entry_authority e = a.

Record capability_wf (t : CapabilityTable) : Prop := {
  cw_len : len (entries t) = CAPABILITY_TABLE_SLOTS;
  cw_active i e : get (entries t) i = Some (Some e) -> state e = StateActive ->
    entry_generation e = 1;
}.

Definition capability_represents (t : CapabilityTable) (s : store CapabilityHandle authority) :
    Prop :=
  capability_wf t /\
  (forall h a, live s !! h = Some a <-> holds t h a) /\
  (forall h, h ∈ issued s <->
     generation h = 1 /\ exists e, get (entries t) (slot h) = Some (Some e)).

Inductive capability_op : Type :=
| OpGrant (h : ServiceId) (r : ResourceId) (m : RightsMask)
| OpRevoke (h : CapabilityHandle).

(** A call with any arguments, successful or not. [clear] is not a step: it
    starts a new history. *)
Inductive capability_step : capability_op -> CapabilityTable -> CapabilityTable -> Prop :=
| capability_grant h r m res t t' :
    grant_with_provenance h r m t = (res, t') -> capability_step (OpGrant h r m) t t'
| capability_revoke h res t t' :
    revoke h t = (res, t') -> capability_step (OpRevoke h) t t'.

Definition capability_steps : CapabilityTable -> CapabilityTable -> Prop :=
  rtc (fun t t' => exists op, capability_step op t t').

Lemma new_capability_represents : capability_represents new_capability_table empty_store.
Proof.
  assert (forall i e, get (entries new_capability_table) i <> Some (Some e)) as Hn.
  { intros i e [[=] _]%get_replicate. }
  split_and!.
  - split; [done|]. intros i e He. by apply Hn in He.
  - intros h a. split; [done|]. intros (e & He & _). by apply Hn in He.
  - intros h. split; [set_solver|]. intros [_ [e He]]. by apply Hn in He.
Qed.

Lemma grants_true h r m e :
  grants h r m (Some e) = true <-> state e = StateActive /\ entry_authority e = Authority h r m.
Proof.
  unfold grants, entry_authority. rewrite !andb_true_iff, bool_decide_eq_true, !Z.eqb_eq.
  split; [intros [[[? ?] ?] ?]; by subst|intros [? [= -> -> ->]]; done].
Qed.

Lemma slot_fits i : 0 <= i < CAPABILITY_TABLE_SLOTS -> wrap 32 i = i.
Proof. unfold CAPABILITY_TABLE_SLOTS. intros. apply wrap_small. unfold uint. lia. Qed.

Lemma wpA_set_entry t i e (Q : unit -> CapabilityTable -> Prop) R :
  0 <= i < len (entries t) ->
  (forall t', (forall j x, get (entries t') j = Some x <->
                 (j = i /\ x = Some e) \/ (j <> i /\ get (entries t) j = Some x)) ->
     len (entries t') = len (entries t) -> Q tt t') ->
  wpA (set_entry i e) t Q R.
Proof.
  intros Hi HQ. unfold set_entry. do 2 act_step. apply wp_index_set; [done|]. act_step.
  apply HQ; simpl; [|by rewrite len_insert]. intros j x.
  destruct (decide (j = i)) as [->|Hj].
  - rewrite get_insert_eq by done. naive_solver.
  - rewrite get_insert_ne by lia. naive_solver.
Qed.

Lemma grant_spec h r m t s :
  capability_represents t s ->
  wpA (grant_with_provenance h r m) t
    (fun g t' => match g with
       | Existing k => live s !! k = Some (Authority h r m) /\ t' = t
       | Created k => (forall k', live s !! k' <> Some (Authority h r m)) /\ (k ∉ issued s) /\
           capability_represents t'
             (Build_store (<[k := Authority h r m]> (live s)) ({[k]} ∪ issued s))
       end)
    (fun e t' => e = TableFull /\ t' = t /\ (forall k, live s !! k <> Some (Authority h r m)) /\
       (forall x, x ∈ entries t -> is_Some x)).
Proof.
  intros (Hwf & Hlive & Hiss). unfold grant_with_provenance. do 3 act_step. cbv beta.
  destruct (list_find _ _) as [[i [e|]]|] eqn:Hf.
  - apply list_find_Some in Hf as (Hi & [Ha Hau]%grants_true & _). act_step.
    split; [|done]. apply Hlive. exists e. simpl.
    pose proof (lookup_lt_Some _ _ _ Hi) as Hlt. pose proof (cw_len _ Hwf) as Hl. unfold len in Hl.
    rewrite slot_fits by lia. by rewrite get_of_nat.
  - apply list_find_Some in Hf as (_ & [=] & _).
  - apply list_find_None in Hf. rewrite Forall_forall in Hf.
    assert (forall k, live s !! k <> Some (Authority h r m)) as Hno.
    { intros k (e & He & Ha & _ & Hau)%Hlive. apply get_elem_of in He. apply (Hf _ He).
      by apply grants_true. }
    do 2 act_step. act_step.
    2:{ intros Hp. split_and!; [done..|]. intros [x|] Hx; [done|].
        by pose proof (position_None _ _ Hp _ Hx). }
    intros i (Hi & (x & Hx & Hxn) & _)%position_Some. destruct x; [done|].
    pose proof (cw_len _ Hwf) as Hlen.
    act_step. apply wpA_set_entry; [done|]. intros t' Hget Hl. act_step.
    rewrite slot_fits by lia. split_and!; [done| |].
    { rewrite Hiss. intros [_ [e He]]. simpl in He. by simplify_eq. }
    split_and!; simpl.
    + split; [lia|]. intros j e [[-> [= ->]]|[_ He]]%Hget; [done|]. by eapply cw_active.
    + intros k a. rewrite lookup_insert_Some, Hlive. split.
      * intros [[<- <-]|[Hne (e & He & Hea)]].
        -- eexists. split; [by apply Hget; left|done].
        -- exists e. split; [|done]. apply Hget. right. split; [|done]. intros Heq.
           rewrite Heq, Hx in He. done.
      * intros (e & [[Hk [= ->]]|[Hk He]]%Hget & Hea & Hg & <-).
        -- left. split; [|done]. destruct k; simpl in *. by subst.
        -- right. split; [by intros <-|]. by exists e.
    + intros k. rewrite elem_of_union, elem_of_singleton, Hiss. split.
      * intros [->|[Hg [e He]]]; simpl.
        -- split; [done|]. eexists. by apply Hget; left.
        -- split; [done|]. exists e. apply Hget. right. split; [|done]. intros Heq.
           by rewrite Heq, Hx in He.
      * intros [Hg [e [[Hk _]|[Hk He]]%Hget]]; [left|right; eauto].
        destruct k; simpl in *. by subst.
Qed.

Lemma revoke_spec h t s :
  capability_represents t s ->
  wpA (revoke h) t
    (fun _ t' => capability_represents t' (Build_store (delete h (live s)) (issued s)) /\
       is_Some (entry_of t' h))
    (fun e t' => e = InvalidHandle /\ t' = t /\ live s !! h = None).
Proof.
  intros (Hwf & Hlive & Hiss). unfold revoke, entry_of. do 2 act_step. act_step.
  2:{ intros Hn. split_and!; [done..|]. apply eq_None_not_Some. intros [a (e & He & _)%Hlive].
      by rewrite He in Hn. }
  intros e ([e'|] & He & [= ->])%bind_Some. do 2 act_step. act_step.
  2:{ intros Hg%negb_true_iff%Z.eqb_neq. split_and!; [done..|]. apply eq_None_not_Some.
      intros [a (e' & He' & _ & Hg' & _)%Hlive]. by simplify_eq. }
  intros Hg%negb_false_iff%Z.eqb_eq. apply wpA_set_entry.
  { by apply get_is_Some. }
  intros t' Hget Hl. pose proof (cw_len _ Hwf) as Hlen. split.
  2:{ unfold entry_of. rewrite (proj2 (Hget _ _)) by by left. by eexists. }
  split_and!; simpl.
  - split; [lia|]. intros j x [[-> [= ->]]|[_ Hx]]%Hget; [done|]. by eapply cw_active.
  - intros k a. rewrite lookup_delete_Some, Hlive. split.
    + intros [Hne (x & Hx & Hax & Hgx & Hau)]. exists x. split; [|done]. apply Hget. right.
      split; [|done]. intros Heq. apply Hne. rewrite Heq in Hx. simplify_eq.
      destruct k, h; simpl in *. congruence.
    + intros (x & [[Hk [= ->]]|[Hk Hx]]%Hget & Hax & Hgx & Hau); [done|].
      split; [by intros <-|]. by exists x.
  - intros k. rewrite Hiss. split; intros [Hgk [x Hx]]; split; try done.
    + destruct (decide (slot k = slot h)) as [Heq|Hne].
      * eexists. rewrite Hget. by left.
      * exists x. rewrite Hget. by right.
    + apply Hget in Hx as [[Hk [= ->]]|[_ Hx]]; [|by exists x]. exists e. by rewrite Hk.
Qed.

Lemma capability_represents_wf t s : capability_represents t s -> store_wf s.
Proof.
  intros (Hwf & Hlive & Hiss) h [a (e & He & Ha & Hg & _)%Hlive]%elem_of_dom.
  apply Hiss. split; [|by exists e]. rewrite <- Hg. by eapply cw_active.
Qed.

Lemma capability_op_simulates op t t' s :
  capability_represents t s -> capability_step op t t' ->
  exists s', store_step s s' /\ capability_represents t' s' /\
    forall h a, op <> OpRevoke h -> live s !! h = Some a -> live s' !! h = Some a.
Proof.
  intros Hr Hs. pose proof (capability_represents_wf _ _ Hr) as Hswf. revert Hr.
  destruct Hs as [h r m res t t' Hc|h res t t' Hc]; intros Hr.
  - destruct (wpA_run _ _ _ _ (grant_spec h r m t s Hr))
      as [([k|k] & t2 & Hm & HQ)|(e & t2 & Hm & HQ)]; rewrite Hc in Hm; simplify_eq.
    + destruct HQ as (_ & Hk & Hr'). eexists. split; [by apply step_issue|split; [done|]].
      intros h' a _ Hl. simpl. rewrite lookup_insert_ne; [done|]. intros ->.
      apply Hk, Hswf, elem_of_dom. eauto.
    + destruct HQ as [_ ->]. exists s. split; [apply step_stay|done].
    + destruct HQ as (_ & -> & _). exists s. split; [apply step_stay|done].
  - destruct (wpA_run _ _ _ _ (revoke_spec h t s Hr))
      as [(? & t2 & Hm & HQ & _)|(e & t2 & Hm & HQ)]; rewrite Hc in Hm; simplify_eq.
    + eexists. split; [by apply step_retire|split; [done|]].
      intros h' a Hne Hl. simpl. rewrite lookup_delete_ne; [done|congruence].
    + destruct HQ as (_ & -> & _). exists s. split; [apply step_stay|done].
Qed.

Lemma capability_step_simulates t t' s :
  capability_represents t s -> (exists op, capability_step op t t') ->
  exists s', store_step s s' /\ capability_represents t' s'.
Proof.
  intros Hr [op Hs]. destruct (capability_op_simulates op t t' s Hr Hs) as (s' & H1 & H2 & _). eauto.
Qed.

#[export] Instance capability_handle_table :
    HandleTable CapabilityTable CapabilityHandle authority := {|
  table_step t t' := exists op, capability_step op t t';
  represents := capability_represents;
  represents_wf := capability_represents_wf;
  table_step_simulates := capability_step_simulates;
|}.

(** ** Validation against the store *)

(** Why a validation fails, in terms of the store. *)
Definition refusal (s : store CapabilityHandle authority) (caller : ServiceId)
    (h : CapabilityHandle) (r : ResourceId) (required : RightsMask) (e : CapabilityError) : Prop :=
  match e with
  | TableFull => False
  | InvalidHandle | Revoked => live s !! h = None
  | WrongHolder => exists a, live s !! h = Some a /\ auth_holder a <> caller
  | WrongResource => exists a, live s !! h = Some a /\ auth_resource a <> r
  | MissingRights => exists a, live s !! h = Some a /\ contains (auth_rights a) required = false
  end.

Lemma validate_spec t s caller h r required :
  capability_represents t s ->
  wp (validate t caller h r required)
    (fun _ => exists m, live s !! h = Some (Authority caller r m) /\ contains m required = true)
    (refusal s caller h r required).
Proof.
  intros (Hwf & Hlive & Hiss). unfold validate, entry_of, refusal. act_step. act_step.
  2:{ intros Hn. apply eq_None_not_Some. intros [a (e & He & _)%Hlive]. by rewrite He in Hn. }
  intros e ([e'|] & He & [= ->])%bind_Some. act_step. act_step.
  2:{ intros Hg%negb_true_iff%Z.eqb_neq. apply eq_None_not_Some.
      intros [a (x & Hx & _ & Hgx & _)%Hlive]. by simplify_eq. }
  intros Hg%negb_false_iff%Z.eqb_eq. act_step. act_step.
  2:{ intros Ha%negb_true_iff%bool_decide_eq_false. apply eq_None_not_Some.
      intros [a (x & Hx & Hax & _)%Hlive]. by simplify_eq. }
  intros Ha%negb_false_iff%bool_decide_eq_true.
  assert (live s !! h = Some (entry_authority e)) as Hl by (apply Hlive; by exists e).
  act_step. act_step. 2:{ intros Hh%negb_true_iff%Z.eqb_neq. eauto. }
  intros Hh%negb_false_iff%Z.eqb_eq. act_step. act_step.
  2:{ intros Hr%negb_true_iff%Z.eqb_neq. eauto. }
  intros Hr%negb_false_iff%Z.eqb_eq. act_step.
  2:{ intros Hm%negb_true_iff. eauto. }
  intros Hm%negb_false_iff. exists (rights e). split; [|done]. by subst.
Qed.

Lemma validate_exact t s caller h r required :
  capability_represents t s ->
  validate t caller h r required = Ok tt <->
  exists m, live s !! h = Some (Authority caller r m) /\ contains m required = true.
Proof.
  intros Hr. pose proof (validate_spec t s caller h r required Hr) as Hv. unfold wp in Hv.
  destruct (validate _ _ _ _ _) as [[]|e| |]; [done| |done|done].
  split; [done|]. intros (m & Hl & Hm). exfalso. unfold refusal in Hv.
  destruct e; [done|congruence|congruence|..]; destruct Hv as (a & Ha & Hn);
    rewrite Hl in Ha; injection Ha as <-; simpl in Hn; congruence.
Qed.

(** ** What callers rely on *)

(** Tables that calls from an empty table can produce. *)
Definition capability_reachable : CapabilityTable -> Prop :=
  capability_steps new_capability_table.

Lemma capability_reachable_represents t :
  capability_reachable t -> exists s, capability_represents t s.
Proof.
  intros Hr.
  destruct (table_steps_simulate (HT := capability_handle_table) _ _ _ new_capability_represents Hr)
    as (s & _ & Hs). eauto.
Qed.

(** Any calls but the revocation of [h]. *)
Definition steps_keeping (h : CapabilityHandle) : CapabilityTable -> CapabilityTable -> Prop :=
  rtc (fun t t' => exists op, op <> OpRevoke h /\ capability_step op t t').

Lemma steps_keeping_live h a t t' s :
  steps_keeping h t t' -> capability_represents t s -> live s !! h = Some a ->
  exists s', capability_represents t' s' /\ live s' !! h = Some a.
Proof.
  intros Hs. revert s. induction Hs as [|t t1 t2 (op & Hop & Hs) _ IH]; intros s Hr Hl; [eauto|].
  destruct (capability_op_simulates op t t1 s Hr Hs) as (s1 & _ & Hr1 & Hk). eauto.
Qed.

(** Granting returns on every reachable table. It fails only when no slot
    is empty, and changes nothing then. Otherwise the returned handle validates
    for exactly the granted holder, resource and rights: until it is revoked
    every request within the rights is accepted, and whatever happens later no
    other request is. A second identical grant returns the same handle and
    leaves the table alone. *)
Theorem granted_handle_authority t h r m :
  capability_reachable t ->
  match grant_with_provenance h r m t with
  | (Ok g, t') =>
      (forall t2 required, steps_keeping (grant_handle g) t' t2 ->
         contains m required = true -> validate t2 h (grant_handle g) r required = Ok tt) /\
      (forall t2 caller r2 required, capability_steps t' t2 ->
         validate t2 caller (grant_handle g) r2 required = Ok tt ->
         caller = h /\ r2 = r /\ contains m required = true) /\
      grant_with_provenance h r m t' = (Ok (Existing (grant_handle g)), t')
  | (Err e, t') => e = TableFull /\ t' = t /\ (forall x, x ∈ entries t -> is_Some x)
  | _ => False
  end.
Proof.
  intros (s & Hr)%capability_reachable_represents.
  destruct (wpA_run _ _ _ _ (grant_spec h r m t s Hr))
    as [(g & t' & Hrun & HQ)|(e & t' & -> & -> & -> & _ & Hall)]; [|done]. rewrite Hrun.
  assert (exists s', capability_represents t' s' /\
            live s' !! grant_handle g = Some (Authority h r m) /\
            ((forall k, live s' !! k = Some (Authority h r m) -> grant_handle g = k) \/
             g = Existing (grant_handle g) /\ t' = t))
    as (s' & Hr' & Hl & Honly).
  { destruct g as [k|k]; simpl.
    - destruct HQ as (Hno & Hk & Hr'). eexists. split; [done|]. simpl.
      rewrite lookup_insert_eq. split; [done|]. left. intros k' Hk'.
      rewrite lookup_insert_Some in Hk'. destruct Hk' as [[<- _]|[_ Hk']]; [done|by apply Hno in Hk'].
    - destruct HQ as (Hk & ->). exists s. eauto. }
  assert (grant_handle g ∈ issued s') as Hin.
  { apply (capability_represents_wf _ _ Hr'), elem_of_dom. eauto. }
  split_and!.
  - intros t2 required Hs Hm.
    destruct (steps_keeping_live _ _ _ _ _ Hs Hr' Hl) as (s2 & Hr2 & Hl2).
    apply (validate_exact _ _ _ _ _ _ Hr2). eauto.
  - intros t2 caller r2 required Hs Hv.
    pose proof (handle_history (HT := capability_handle_table) t' t2 s' (grant_handle g) Hr' Hs Hin)
      as (s2 & Hr2 & _ & Hh).
    destruct (proj1 (validate_exact _ _ _ _ _ _ Hr2) Hv) as (m2 & Hl2 & Hm2).
    apply Hh in Hl2. rewrite Hl in Hl2. by injection Hl2 as <- <- <-.
  - destruct (wpA_run _ _ _ _ (grant_spec h r m t' s' Hr'))
      as [([k|k] & t2 & Hg & HQ2)|(e & t2 & Hg & _ & _ & Hno & _)].
    + destruct HQ2 as [Hno _]. by apply Hno in Hl.
    + destruct HQ2 as [Hk ->]. destruct Honly as [Honly|[Hex ->]]; [|by rewrite <- Hex].
      by rewrite (Honly k Hk).
    + by apply Hno in Hl.
Qed.

(** A handle of a present entry that is not live never becomes live: handles of
    generation 1 were issued before, and only generation 1 is ever active. *)
Lemma retired_never_live t t2 s h :
  capability_represents t s -> capability_steps t t2 ->
  live s !! h = None -> is_Some (entry_of t h) ->
  exists s2, capability_represents t2 s2 /\ live s2 !! h = None.
Proof.
  intros Hr Hs Hn [e ([e'|] & He & [= ->])%bind_Some].
  destruct (decide (generation h = 1)) as [Hg|Hg].
  - assert (h ∈ issued s) as Hin by (apply Hr; eauto).
    destruct (handle_history (HT := capability_handle_table) t t2 s h Hr Hs Hin)
      as (s2 & Hr2 & _ & Hh).
    exists s2. split; [done|]. apply eq_None_not_Some. intros [a Ha]. apply Hh in Ha. congruence.
  - destruct (table_steps_simulate (HT := capability_handle_table) t t2 s Hr Hs) as (s2 & _ & Hr2).
    exists s2. split; [done|]. apply not_elem_of_dom. intros Hd.
    apply (capability_represents_wf _ _ Hr2) in Hd. apply Hg. by apply Hr2 in Hd as [? _].
Qed.

(** The handle of a successful revocation is never accepted again. *)
Lemma revoked_never_validates t t' t2 h :
  capability_reachable t -> revoke h t = (Ok tt, t') -> capability_steps t' t2 ->
  forall caller r required, validate t2 caller h r required <> Ok tt.
Proof.
  intros (s & Hr)%capability_reachable_represents Hrun Hs caller r required Hv.
  destruct (wpA_ok _ _ _ _ _ _ (revoke_spec h t s Hr) Hrun) as [Hr' Hent].
  destruct (retired_never_live t' t2 _ h Hr' Hs (lookup_delete_eq _ _) Hent) as (s2 & Hr2 & Hn).
  destruct (proj1 (validate_exact _ _ _ _ _ _ Hr2) Hv) as (m & Hl & _). congruence.
Qed.

(** C32: Revoking returns on every reachable table and fails, without effect,
    only on a handle that validates for nobody. After a successful revocation
    the handle never validates again, whatever is granted or revoked later,
    while every other handle keeps its authority. *)
Theorem revocation_is_permanent t h :
  capability_reachable t ->
  match revoke h t with
  | (Ok _, t') =>
      (forall t2 caller r required, capability_steps t' t2 ->
         validate t2 caller h r required <> Ok tt) /\
      (forall k caller r required, k <> h ->
         validate t' caller k r required = Ok tt <-> validate t caller k r required = Ok tt)
  | (Err e, t') => e = InvalidHandle /\ t' = t /\
      (forall caller r required, validate t caller h r required <> Ok tt)
  | _ => False
  end.
Proof.
  intros Ht. destruct (capability_reachable_represents t Ht) as (s & Hr).
  destruct (wpA_run _ _ _ _ (revoke_spec h t s Hr))
    as [([] & t' & Hrun & Hr' & Hent)|(e & t' & -> & -> & -> & Hn)].
  - rewrite Hrun. split.
    + intros t2 caller r required Hs. by eapply revoked_never_validates.
    + intros k caller r required Hne.
      rewrite (validate_exact _ _ _ _ _ _ Hr), (validate_exact _ _ _ _ _ _ Hr'). simpl.
      by setoid_rewrite lookup_delete_ne.
  - split_and!; [done..|]. intros caller r required (m & Hl & _)%(validate_exact _ _ _ _ _ _ Hr).
    congruence.
Qed.

(** Every slot holds an entry, active or revoked. *)
Definition table_full (t : CapabilityTable) : Prop := forall x, x ∈ entries t -> is_Some x.

Lemma table_full_issued t s :
  capability_represents t s ->
  table_full t <-> forall i, 0 <= i < CAPABILITY_TABLE_SLOTS -> Handle i 1 ∈ issued s.
Proof.
  intros (Hwf & _ & Hiss). pose proof (cw_len _ Hwf) as Hlen. split.
  - intros Hf i Hi. apply Hiss. split; [done|]. simpl.
    destruct (proj2 (get_is_Some (entries t) i)) as [x Hx]; [lia|].
    destruct (Hf x (get_elem_of _ _ _ Hx)) as [e ->]. eauto.
  - intros Hall x [i Hx]%elem_of_get.
    destruct (proj1 (Hiss _) (Hall i ltac:(rewrite <- Hlen; apply get_is_Some; eauto))) as [_ [e He]].
    simpl in He. simplify_eq. done.
Qed.

(** Slots are never reclaimed. Once the table is full it stays full, and
    from then on a grant either returns a handle that is already live or fails
    with [TableFull], no matter how many handles are revoked in between. *)
Theorem full_table_stays_full t t2 h r m :
  capability_reachable t -> table_full t -> capability_steps t t2 ->
  table_full t2 /\
  match grant_with_provenance h r m t2 with
  | (Ok (Existing k), t3) => t3 = t2 /\ validate t2 h k r m = Ok tt
  | (Err e, t3) => e = TableFull /\ t3 = t2
  | _ => False
  end.
Proof.
  intros (s & Hr)%capability_reachable_represents Hf Hs.
  destruct (table_steps_simulate (HT := capability_handle_table) t t2 s Hr Hs) as (s2 & Hss & Hr2).
  assert (table_full t2) as Hf2.
  { apply (table_full_issued _ _ Hr2). intros i Hi.
    apply (store_steps_issued _ _ Hss). by apply (table_full_issued _ _ Hr). }
  split; [done|].
  destruct (wpA_run _ _ _ _ (grant_spec h r m t2 s2 Hr2))
    as [([k|k] & t3 & -> & HQ)|(e & t3 & -> & -> & -> & _)]; [| |done].
  - destruct HQ as (_ & Hk & Hwf3 & _ & Hiss3). apply Hk.
    destruct (proj1 (Hiss3 k)) as [Hg [e He]]; [set_solver|]. destruct k as [i g]. simpl in *. subst g.
    apply (table_full_issued _ _ Hr2); [done|]. rewrite <- (cw_len _ Hwf3).
    apply get_is_Some. eauto.
  - destruct HQ as [Hl ->]. split; [done|]. apply (validate_exact _ _ _ _ _ _ Hr2).
    exists m. split; [done|]. unfold contains. by rewrite Z.land_diag, Z.eqb_refl.
Qed.
