(* ===== verification/IpcChannels.v ===== *)
(** * IPC channels

    Models [core/src/ipc_channels.rs]: checksummed messages of at most 16 bytes
    and channels with a ring of two messages between two services. A channel is
    a queue: what it accepts is delivered once, in order, to the addressee. *)

From stdpp Require Import base numbers list.
From Stdlib Require Import Strings.Byte.
From S2P Require Import Prelude Kernel ByteRegions ServiceIdentity.

Module Ipc.

Definition MAX_MESSAGE_SIZE : Z := 16.
Definition CHANNEL_QUEUE_DEPTH : Z := 2.
Definition IPC_MESSAGE_TYPE_BOOT_PROOF : Z := 1.
Definition IPC_MESSAGE_TYPE_QUEUE_PROOF : Z := 2.
Definition IPC_MESSAGE_TYPE_REQUEST_PROOF : Z := 3.
Definition IPC_MESSAGE_TYPE_REPLY_PROOF : Z := 4.
Definition IPC_PROOF_PAYLOAD : list byte := [x50; x59; x54; x48; x49; x50; x43; x31].
Definition QUEUE_PROOF_A : list byte := [x51; x41; x30; x31].
Definition QUEUE_PROOF_B : list byte := [x51; x42; x30; x32].
Definition QUEUE_PROOF_C : list byte := [x51; x43; x30; x33].
Definition REQUEST_PROOF_PAYLOAD : list byte := [x52; x45; x51; x31].
Definition REPLY_PROOF_PAYLOAD : list byte := [x52; x45; x50; x31].

Inductive IpcError : Type :=
| InvalidEndpoint | MessageTooLarge | QueueFull | QueueEmpty | ReplyTimeout | PayloadCorrupt.

#[export] Instance ipc_error_eq_decision : EqDecision IpcError.
Proof. solve_decision. Defined.

Record IpcMessage := { type_id : Z; message_length : Z; message_payload : list byte; message_checksum : Z }.

#[export] Instance ipc_message_eq_decision : EqDecision IpcMessage.
Proof. solve_decision. Defined.

Record QueuedMessage := Queued { sent_from : ServiceId; sent_to : ServiceId; message : IpcMessage }.

Record IpcChannel := {
  owner : ServiceId;
  peer : ServiceId;
  queue : list (option QueuedMessage);
  head : Z;
  queue_length : Z;
}.

Abbreviation channel_action := (action IpcChannel IpcError).

Definition checksum (bytes : list byte) : Z := foldl (fun sum b => wrap 32 (sum + byte_val b)) 0 bytes.

Definition new_message (type_id : Z) (bytes : list byte) : outcome IpcError IpcMessage :=
  reject (MAX_MESSAGE_SIZE <? len bytes) MessageTooLarge;;
  payload ← copy_into (zeros MAX_MESSAGE_SIZE) 0 bytes;
  Ok {| type_id := type_id; message_length := len bytes; message_payload := payload; message_checksum := checksum bytes |}.

Definition verify (m : IpcMessage) : outcome IpcError unit :=
  reject (MAX_MESSAGE_SIZE <? message_length m) PayloadCorrupt;;
  bytes ← expect (get_range (message_payload m) 0 (message_length m));
  reject (negb (checksum bytes =? message_checksum m)) PayloadCorrupt.

Definition new_channel (owner peer : ServiceId) : IpcChannel :=
  {| owner := owner; peer := peer; queue := replicate (Z.to_nat CHANNEL_QUEUE_DEPTH) None; head := 0; queue_length := 0 |}.

Definition has_endpoint_pair (ch : IpcChannel) (from to : ServiceId) : bool :=
  (from =? owner ch) && (to =? peer ch) || (from =? peer ch) && (to =? owner ch).

Definition set_queue (q : list (option QueuedMessage)) (h n : Z) (ch : IpcChannel) : IpcChannel :=
  {| owner := owner ch; peer := peer ch; queue := q; head := h; queue_length := n |}.

Definition send (from to : ServiceId) (m : IpcMessage) : channel_action unit :=
  reads (fun ch => reject (negb (has_endpoint_pair ch from to)) InvalidEndpoint);;
  pure (verify m);;
  reads (fun ch => reject (queue_length ch =? CHANNEL_QUEUE_DEPTH) QueueFull);;
  q ← reads (fun ch => index_set (queue ch) ((head ch + queue_length ch) mod CHANNEL_QUEUE_DEPTH) (Some (Queued from to m)));
  update (fun ch => set_queue q (head ch) (queue_length ch + 1) ch).

(** [length -= 1] panics when the length is zero. *)
Definition receive (receiver : ServiceId) : channel_action IpcMessage :=
  reads (fun ch => reject (negb (receiver =? owner ch) && negb (receiver =? peer ch)) InvalidEndpoint);;
  o ← reads (fun ch => index (queue ch) (head ch));
  queued ← pure (ok_or o QueueEmpty);
  pure (reject (negb (sent_to queued =? receiver)) QueueEmpty);;
  q ← reads (fun ch => index_set (queue ch) (head ch) None);
  update (fun ch => set_queue q ((head ch + 1) mod CHANNEL_QUEUE_DEPTH) (queue_length ch) ch);;
  n ← reads (fun ch => if queue_length ch =? 0 then Panic else Ok (queue_length ch - 1));
  update (fun ch => set_queue (queue ch) (head ch) n ch);;
  pure (verify (message queued));;
  mret (message queued).

(** The loop over the ticks. *)
Fixpoint poll (receiver : ServiceId) (ticks : nat) : channel_action IpcMessage := fun ch =>
  match ticks with
  | O => (Err ReplyTimeout, ch)
  | S ticks =>
      match receive receiver ch with
      | (Err QueueEmpty, ch') => poll receiver ticks ch'
      | r => r
      end
  end.

Definition receive_reply_or_timeout (receiver : ServiceId) (timeout_ticks : Z) : channel_action IpcMessage :=
  poll receiver (Z.to_nat timeout_ticks).

(** ** Self tests *)

Definition proof_service (task : TaskId) : action ServiceIdentityTable IpcError ServiceId :=
  zoom id (fun t _ => t) (fun _ => InvalidEndpoint) (register_task task).

Definition run_self_test : outcome IpcError unit :=
  '(sender, t) ← run (proof_service 20) new_identity_table;
  '(receiver, t) ← run (proof_service 21) t;
  m ← new_message IPC_MESSAGE_TYPE_BOOT_PROOF IPC_PROOF_PAYLOAD;
  '(_, ch) ← run (send sender receiver m) (new_channel sender receiver);
  '(received, ch) ← run (receive receiver) ch;
  bytes ← expect (get_range (message_payload received) 0 (message_length received));
  reject (negb (type_id received =? IPC_MESSAGE_TYPE_BOOT_PROOF) || negb (message_length received =? len IPC_PROOF_PAYLOAD) ||
          negb (bool_decide (bytes = IPC_PROOF_PAYLOAD)) || negb (message_checksum received =? checksum IPC_PROOF_PAYLOAD))
    PayloadCorrupt.

(** A call whose result is compared with an error. *)
Definition fails_with {A} (r : outcome IpcError A * IpcChannel) (e : IpcError) : outcome IpcError IpcChannel :=
  match fst r with
  | Err e' => reject (negb (bool_decide (e' = e))) PayloadCorrupt;; Ok (snd r)
  | Ok _ => Err PayloadCorrupt
  | Panic => Panic
  | Diverge => Diverge
  end.

Definition run_bounded_queue_self_test : outcome IpcError unit :=
  '(sender, t) ← run (proof_service 22) new_identity_table;
  '(receiver, t) ← run (proof_service 23) t;
  first ← new_message IPC_MESSAGE_TYPE_QUEUE_PROOF QUEUE_PROOF_A;
  second ← new_message IPC_MESSAGE_TYPE_QUEUE_PROOF QUEUE_PROOF_B;
  overflow ← new_message IPC_MESSAGE_TYPE_QUEUE_PROOF QUEUE_PROOF_C;
  '(_, ch) ← run (send sender receiver first) (new_channel sender receiver);
  '(_, ch) ← run (send sender receiver second) ch;
  ch ← fails_with (send sender receiver overflow ch) QueueFull;
  '(m, ch) ← run (receive receiver) ch;
  reject (negb (bool_decide (m = first))) PayloadCorrupt;;
  '(m, ch) ← run (receive receiver) ch;
  reject (negb (bool_decide (m = second))) PayloadCorrupt;;
  ch ← fails_with (receive receiver ch) QueueEmpty;
  Ok tt.

Definition run_request_reply_self_test : outcome IpcError unit :=
  '(requester, t) ← run (proof_service 24) new_identity_table;
  '(responder, t) ← run (proof_service 25) t;
  request ← new_message IPC_MESSAGE_TYPE_REQUEST_PROOF REQUEST_PROOF_PAYLOAD;
  reply ← new_message IPC_MESSAGE_TYPE_REPLY_PROOF REPLY_PROOF_PAYLOAD;
  '(_, ch) ← run (send requester responder request) (new_channel requester responder);
  '(m, ch) ← run (receive responder) ch;
  reject (negb (bool_decide (m = request))) PayloadCorrupt;;
  '(_, ch) ← run (send responder requester reply) ch;
  '(m, ch) ← run (receive_reply_or_timeout requester 1) ch;
  reject (negb (bool_decide (m = reply))) PayloadCorrupt;;
  ch ← fails_with (receive_reply_or_timeout requester 1 ch) ReplyTimeout;
  Ok tt.
End Ipc.
Import Ipc.

Lemma ipc_self_tests_pass :
  run_self_test = Ok tt /\ run_bounded_queue_self_test = Ok tt /\ run_request_reply_self_test = Ok tt.
Proof. by vm_compute. Qed.

(** ** The channel as a queue *)

Inductive ipc_call : Type :=
| Send (from to : ServiceId) (m : IpcMessage)
| Receive (receiver : ServiceId)
| AwaitReply (receiver : ServiceId) (timeout_ticks : Z).

Definition ipc_result : Type := outcome IpcError (option IpcMessage).

Definition ipc_run (c : ipc_call) : channel_action (option IpcMessage) :=
  match c with
  | Send from to m => send from to m;; mret None
  | Receive receiver => m ← receive receiver; mret (Some m)
  | AwaitReply receiver ticks => m ← receive_reply_or_timeout receiver ticks; mret (Some m)
  end.

(** A message is intact when its bytes have its checksum. *)
Definition intact (m : IpcMessage) : bool :=
  (message_length m <=? 16) && (checksum (take (Z.to_nat (message_length m)) (message_payload m)) =? message_checksum m).

(** The queue between two services, written on a list. *)
Definition queue_receive (owner peer receiver : ServiceId) (l : list QueuedMessage) : ipc_result * list QueuedMessage :=
  if negb (receiver =? owner) && negb (receiver =? peer) then (Err InvalidEndpoint, l)
  else
    match l with
    | q :: rest => if sent_to q =? receiver then (Ok (Some (message q)), rest) else (Err QueueEmpty, l)
    | [] => (Err QueueEmpty, l)
    end.

Definition queue_run (owner peer : ServiceId) (c : ipc_call) (l : list QueuedMessage) : ipc_result * list QueuedMessage :=
  match c with
  | Send from to m =>
      if negb ((from =? owner) && (to =? peer) || (from =? peer) && (to =? owner)) then (Err InvalidEndpoint, l)
      else if negb (intact m) then (Err PayloadCorrupt, l)
      else if 2 <=? len l then (Err QueueFull, l)
      else (Ok None, l ++ [Queued from to m])
  | Receive receiver => queue_receive owner peer receiver l
  | AwaitReply receiver ticks =>
      if ticks <=? 0 then (Err ReplyTimeout, l)
      else
        match queue_receive owner peer receiver l with
        | (Err QueueEmpty, l') => (Err ReplyTimeout, l')
        | r => r
        end
  end.

(** Messages are represented with an array of 16 bytes and an unsigned length. *)
Definition message_rep (m : IpcMessage) : Prop := len (message_payload m) = 16 /\ 0 <= message_length m.

Definition call_rep (c : ipc_call) : Prop := match c with Send _ _ m => message_rep m | _ => True end.

Definition good_message (q : QueuedMessage) : Prop := message_rep (message q) /\ intact (message q) = true.

(** The ring holds the list from its head on. *)
Record ring (o p : ServiceId) (ch : IpcChannel) (l : list QueuedMessage) : Prop := {
  rg_ends : owner ch = o /\ peer ch = p;
  rg_len : len (queue ch) = 2;
  rg_head : 0 <= head ch < 2;
  rg_length : queue_length ch = len l /\ len l <= 2;
  rg_slots : forall i, 0 <= i < 2 -> get (queue ch) ((head ch + i) mod 2) = Some (get l i);
  rg_good : Forall good_message l;
}.

Lemma verify_spec m :
  message_rep m -> wp (verify m) (fun _ => intact m = true) (fun e => e = PayloadCorrupt /\ intact m = false).
Proof.
  intros [Hl Hn]. unfold verify, intact. change MAX_MESSAGE_SIZE with 16. act_step.
  act_step; [intros Hm%Z.ltb_ge|intros Hm%Z.ltb_lt; replace (message_length m <=? 16) with false by lia; done].
  act_step. rewrite (proj2 (get_range_Some _ 0 _ _)) by (split_and!; [lia..|reflexivity]). apply wp_ok.
  rewrite Z.sub_0_r, drop_0. replace (message_length m <=? 16) with true by lia.
  act_step; [by intros Hc%negb_false_iff|intros Hc%negb_true_iff; by split].
Qed.

Lemma new_ring o p : ring o p (new_channel o p) [].
Proof.
  split; [done..| |constructor]. intros i Hi. assert (i = 0 \/ i = 1) as [-> | ->] by lia; done.
Qed.

(** Sums of two positions in the ring. *)
Lemma ring_positions h i j : 0 <= h < 2 -> 0 <= i < 2 -> 0 <= j < 2 -> (h + i) mod 2 = (h + j) mod 2 -> i = j.
Proof.
  intros. assert (h = 0 \/ h = 1) as [-> | ->] by lia; assert (i = 0 \/ i = 1) as [-> | ->] by lia;
    assert (j = 0 \/ j = 1) as [-> | ->] by lia; done.
Qed.

Lemma get_snoc {A} (l : list A) x i : get (l ++ [x]) i = if decide (i = len l) then Some x else get l i.
Proof.
  assert (len (l ++ [x]) = len l + 1) as Hl by (rewrite len_app; done). pose proof (len_nonneg l). case_decide as Hi.
  - subst i. apply get_Some. split; [lia|]. unfold len. by rewrite Nat2Z.id, list_lookup_middle.
  - destruct (get l i) as [y|] eqn:Hy.
    + apply get_Some in Hy as [? Hy]. apply get_Some. split; [lia|]. by apply lookup_app_l_Some.
    + apply get_None. rewrite get_None in Hy. lia.
Qed.

Lemma send_spec o p ch l from to m :
  ring o p ch l -> message_rep m ->
  wpA (send from to m) ch
    (fun _ ch' => ring o p ch' (l ++ [Queued from to m]) /\ queue_run o p (Send from to m) l = (Ok None, l ++ [Queued from to m]))
    (fun e ch' => ch' = ch /\ queue_run o p (Send from to m) l = (Err e, l)).
Proof.
  intros [[Ho Hp] Hl Hh [Hn Hn2] Hs Hg] Hm. unfold send. cbn [queue_run]. act_step. act_step. unfold has_endpoint_pair. rewrite Ho, Hp.
  act_step; [intros He|intros He; by rewrite He]. rewrite He. act_step. act_step.
  eapply wp_mono; [by apply verify_spec| |].
  2:{ intros e [-> Hi]. by rewrite Hi. }
  intros u Hi. rewrite Hi. cbn [negb]. act_step. act_step. change CHANNEL_QUEUE_DEPTH with 2.
  act_step; [intros Hf%Z.eqb_neq|intros Hf%Z.eqb_eq; by replace (2 <=? len l) with true by lia].
  replace (2 <=? len l) with false by lia. pose proof (Z.mod_pos_bound (head ch + queue_length ch) 2). act_step. act_step. apply wp_index_set; [lia|].
  act_step. split; [|done]. split; cbn [owner peer queue head queue_length set_queue].
  - done.
  - by rewrite len_insert.
  - done.
  - rewrite len_app. change (len [Queued from to m]) with 1. lia.
  - intros i Hi'. rewrite get_snoc. pose proof (len_nonneg l). case_decide as Hd.
    + subst i. rewrite Hn, get_insert_eq by (rewrite Hl; apply Z.mod_pos_bound; lia). done.
    + rewrite get_insert_ne; [by apply Hs|lia|]. intros Heq. apply Hd. apply (ring_positions (head ch)); [done|done|lia|]. by rewrite <- Heq, Hn.
  - apply Forall_app. split; [done|]. constructor; [by split|constructor].
Qed.

Lemma receive_spec o p ch l receiver :
  ring o p ch l ->
  wpA (receive receiver) ch
    (fun m ch' => exists l', ring o p ch' l' /\ queue_receive o p receiver l = (Ok (Some m), l'))
    (fun e ch' => ch' = ch /\ queue_receive o p receiver l = (Err e, l)).
Proof.
  intros [[Ho Hp] Hl Hh [Hn Hn2] Hs Hg]. unfold receive, queue_receive. act_step. act_step. rewrite Ho, Hp.
  act_step; [intros He|intros He; by rewrite He]. rewrite He. act_step. act_step. apply wp_index; [lia|]. intros x Hx.
  pose proof (Hs 0 ltac:(lia)) as H0. rewrite Z.add_0_r, Z.mod_small in H0 by lia. rewrite H0 in Hx. injection Hx as <-.
  destruct l as [|q rest]; [act_step; act_step; done|]. change (get (q :: rest) 0) with (Some q).
  act_step. act_step. act_step; [intros ? [= <-]|done]. act_step. act_step.
  act_step; [intros Ht%negb_false_iff|intros Ht%negb_true_iff; by rewrite Ht]. rewrite Ht. act_step. act_step. apply wp_index_set; [lia|].
  act_step. act_step. act_step. act_step. cbn [queue head queue_length set_queue]. change CHANNEL_QUEUE_DEPTH with 2.
  assert (len (q :: rest) = 1 + len rest) as Hlen by (unfold len; simpl; lia). pose proof (len_nonneg rest).
  replace (queue_length ch =? 0) with false by lia. act_step. act_step. act_step. act_step. act_step.
  apply Forall_cons in Hg as [[Hrep Hint] Hg]. eapply wp_mono; [by apply verify_spec| |intros e [_ ?]; congruence].
  intros u _. act_step. exists rest. split; [|done]. split; cbn [owner peer queue head queue_length set_queue].
  - done.
  - by rewrite len_insert.
  - apply Z.mod_pos_bound. lia.
  - lia.
  - intros i Hi. rewrite Zplus_mod_idemp_l. destruct (decide (i = 0)) as [->|].
    + rewrite Z.add_0_r, get_insert_ne; [|lia|].
      * rewrite (Hs 1) by lia. f_equal. apply option_eq. intros y. rewrite !get_Some, Hlen. change (Z.to_nat 1) with 1%nat.
        change (Z.to_nat 0) with 0%nat. simpl. split; intros [? ?]; (split; [lia|done]).
      * assert (head ch = 0 \/ head ch = 1) as [-> | ->] by lia; done.
    + assert (i = 1) as -> by lia. replace (head ch + 1 + 1) with (head ch + 1 * 2) by lia. rewrite Z_mod_plus_full, Z.mod_small by lia.
      rewrite get_insert_eq by lia. symmetry. f_equal. apply get_None. lia.
  - done.
Qed.

Lemma poll_spec o p ch l receiver ticks :
  ring o p ch l ->
  wpA (poll receiver ticks) ch
    (fun m ch' => exists l', ring o p ch' l' /\ queue_run o p (AwaitReply receiver (Z.of_nat ticks)) l = (Ok (Some m), l'))
    (fun e ch' => ch' = ch /\ queue_run o p (AwaitReply receiver (Z.of_nat ticks)) l = (Err e, l)).
Proof.
  intros Hr. induction ticks as [|ticks IH]; [done|]. unfold wpA in *. cbn [poll]. pose proof (receive_spec o p ch l receiver Hr) as Hw.
  unfold wpA in Hw. cbn [queue_run] in *. rewrite (proj2 (Z.leb_gt (Z.of_nat (S ticks)) 0)) by lia.
  destruct (receive receiver ch) as [[m|e| |] ch']; [|destruct Hw as [-> Hq]|done|done].
  - destruct Hw as (l' & Hr' & ->). by exists l'.
  - rewrite Hq in *. destruct e; try done. destruct (Z.leb_spec (Z.of_nat ticks) 0); [|exact IH].
    assert (ticks = 0%nat) as -> by lia. done.
Qed.

(** Every call on the ring is the call on the list. *)
Lemma ipc_run_spec o p ch l c :
  ring o p ch l -> call_rep c ->
  wpA (ipc_run c) ch
    (fun r ch' => exists l', ring o p ch' l' /\ queue_run o p c l = (Ok r, l'))
    (fun e ch' => ch' = ch /\ queue_run o p c l = (Err e, l)).
Proof.
  intros Hr Hc. destruct c as [from to m|receiver|receiver ticks]; cbn [ipc_run]; act_step.
  - eapply wpA_mono; [by apply send_spec| |done]. intros u ch' [Hr' Hq]. act_step. eauto.
  - eapply wpA_mono; [by apply receive_spec| |done]. intros m ch' (l' & Hr' & Hq). act_step. eauto.
  - assert (queue_run o p (AwaitReply receiver (Z.of_nat (Z.to_nat ticks))) l = queue_run o p (AwaitReply receiver ticks) l) as Ht.
    { cbn [queue_run]. destruct (Z.leb_spec (Z.of_nat (Z.to_nat ticks)) 0), (Z.leb_spec ticks 0); done || lia. }
    eapply wpA_mono; [by apply poll_spec| |]; rewrite Ht; [|done]. intros m ch' (l' & Hr' & Hq). act_step. eauto.
Qed.

(** ** Histories *)

(** The results of a sequence of calls and the state behind them. *)
Fixpoint run_calls {S : Type} (step : ipc_call -> S -> ipc_result * S) (cs : list ipc_call) (s : S) : list ipc_result * S :=
  match cs with
  | [] => ([], s)
  | c :: cs => let '(r, s1) := step c s in let '(rs, s2) := run_calls step cs s1 in (r :: rs, s2)
  end.

Lemma history_refines o p cs ch l :
  ring o p ch l -> Forall call_rep cs ->
  (run_calls ipc_run cs ch).1 = (run_calls (queue_run o p) cs l).1 /\
  ring o p (run_calls ipc_run cs ch).2 (run_calls (queue_run o p) cs l).2.
Proof.
  revert ch l. induction cs as [|c cs IH]; intros ch l Hr Hcs; [done|]. apply Forall_cons in Hcs as [Hc Hcs].
  pose proof (ipc_run_spec o p ch l c Hr Hc) as Hw. unfold wpA in Hw. cbn [run_calls].
  destruct (ipc_run c ch) as [[r|e| |] ch'].
  - destruct Hw as (l' & Hr' & ->). destruct (IH ch' l' Hr' Hcs) as [H1 H2].
    destruct (run_calls ipc_run cs ch'), (run_calls (queue_run o p) cs l'). cbn [fst snd] in *. by rewrite H1.
  - destruct Hw as (-> & ->). destruct (IH ch l Hr Hcs) as [H1 H2].
    destruct (run_calls ipc_run cs ch), (run_calls (queue_run o p) cs l). cbn [fst snd] in *. by rewrite H1.
  - destruct Hw.
  - destruct Hw.
Qed.

(** C28: an IPC channel is a queue of at most two messages between its two
    services. Every sequence of sends, receives and waits on a new channel
    returns, without panic and call by call, exactly the results of the list
    that [queue_run] describes, errors included; the ring holds that list. *)
Theorem ipc_channel_refines_queue o p cs :
  Forall call_rep cs ->
  (run_calls ipc_run cs (new_channel o p)).1 = (run_calls (queue_run o p) cs []).1 /\
  ring o p (run_calls ipc_run cs (new_channel o p)).2 (run_calls (queue_run o p) cs []).2.
Proof. apply history_refines, new_ring. Qed.

(** What a call with its result put into the queue, and what it took out. *)
Definition accepted (cr : ipc_call * ipc_result) : option (ServiceId * IpcMessage) :=
  match cr with (Send _ to m, Ok _) => Some (to, m) | _ => None end.

Definition delivered (cr : ipc_call * ipc_result) : option (ServiceId * IpcMessage) :=
  match cr with
  | ((Receive receiver | AwaitReply receiver _), Ok (Some m)) => Some (receiver, m)
  | _ => None
  end.

Definition addressed (q : QueuedMessage) : ServiceId * IpcMessage := (sent_to q, message q).

Lemma queue_receive_conserves o p receiver l :
  match queue_receive o p receiver l with
  | (Ok (Some m), l') => addressed <$> l = (receiver, m) :: (addressed <$> l')
  | (Ok None, _) => False
  | (_, l') => l' = l
  end.
Proof.
  unfold queue_receive. destruct (_ && _); [done|]. destruct l as [|q l]; [done|].
  destruct (Z.eqb_spec (sent_to q) receiver) as [<-|]; done.
Qed.

Lemma queue_run_conserves o p c l :
  let r := queue_run o p c l in
  (addressed <$> l) ++ option_list (accepted (c, r.1)) = option_list (delivered (c, r.1)) ++ (addressed <$> r.2).
Proof.
  destruct c as [from to m|receiver|receiver ticks]; cbn [queue_run].
  - repeat case_match; cbn; rewrite ?app_nil_r; try done. by rewrite fmap_app.
  - pose proof (queue_receive_conserves o p receiver l) as Hc. destruct (queue_receive o p receiver l) as [[[m|]|e| |] l']; cbn;
      rewrite ?app_nil_r; [exact Hc|destruct Hc|by subst..].
  - destruct (ticks <=? 0); cbn; rewrite ?app_nil_r; [done|].
    pose proof (queue_receive_conserves o p receiver l) as Hc.
    destruct (queue_receive o p receiver l) as [[[m|]|[]| |] l']; cbn; rewrite ?app_nil_r; [exact Hc|destruct Hc|by subst..].
Qed.

Lemma queue_history_conserves o p cs l :
  let r := run_calls (queue_run o p) cs l in
  (addressed <$> l) ++ omap accepted (zip cs r.1) = omap delivered (zip cs r.1) ++ (addressed <$> r.2).
Proof.
  revert l. induction cs as [|c cs IH]; intros l; [exact (app_nil_r _)|]. cbn [run_calls].
  pose proof (queue_run_conserves o p c l) as Hc. destruct (queue_run o p c l) as [r l']. specialize (IH l').
  destruct (run_calls (queue_run o p) cs l') as [rs l2]. cbn [fst snd zip zip_with omap list_omap] in *.
  change (zip_with pair cs rs) with (zip cs rs). 
  transitivity (((addressed <$> l) ++ option_list (accepted (c, r))) ++ omap accepted (zip cs rs)).
  { rewrite <- app_assoc. by destruct (accepted (c, r)). }
  rewrite Hc, <- app_assoc, IH, app_assoc. by destruct (delivered (c, r)).
Qed.

(** Messages are delivered exactly once, in order and to their addressee. In
    every history of a channel the messages it accepted are, in order, those it
    delivered followed by at most two that still wait, and every message was
    received by the service it was sent to. *)
Theorem ipc_exactly_once o p cs :
  Forall call_rep cs ->
  let h := run_calls ipc_run cs (new_channel o p) in
  exists waiting, ring o p h.2 waiting /\ len waiting <= 2 /\
    omap accepted (zip cs h.1) = omap delivered (zip cs h.1) ++ (addressed <$> waiting).
Proof.
  intros Hcs. destruct (history_refines o p cs _ _ (new_ring o p) Hcs) as [H1 H2]. cbv zeta. rewrite H1.
  exists (run_calls (queue_run o p) cs []).2. split; [exact H2|]. split; [apply H2|].
  exact (queue_history_conserves o p cs []).
Qed.

(** ** Concrete histories *)

Definition proof_message : IpcMessage :=
  {| type_id := 1; message_length := 4; message_payload := QUEUE_PROOF_A ++ zeros 12; message_checksum := checksum QUEUE_PROOF_A |}.

Definition proof_calls : list ipc_call := [Send 1 2 proof_message; Receive 1; AwaitReply 2 3; Receive 2].

Lemma proof_calls_rep : Forall call_rep proof_calls.
Proof. repeat constructor; done. Qed.

Lemma ipc_channel_refines_queue_witness :
  (run_calls ipc_run proof_calls (new_channel 1 2)).1 = [Ok None; Err QueueEmpty; Ok (Some proof_message); Err QueueEmpty].
Proof. rewrite (proj1 (ipc_channel_refines_queue 1 2 proof_calls proof_calls_rep)). reflexivity. Defined.

Lemma ipc_exactly_once_witness :
  exists waiting, omap accepted (zip proof_calls (run_calls ipc_run proof_calls (new_channel 1 2)).1) =
    omap delivered (zip proof_calls (run_calls ipc_run proof_calls (new_channel 1 2)).1) ++ (addressed <$> waiting).
Proof.
  destruct (ipc_exactly_once 1 2 proof_calls proof_calls_rep) as (w & _ & _ & Hw). exists w. exact Hw.
Defined.
