(* ===== verification/DynamicCapabilities.v ===== *)
(** * Processes with granted capabilities

    Models [core/src/dynamic_capabilities.rs]: a process is spawned with the
    capabilities its creator's policy grants and with no other authority. The
    state of [spawn] is the process table with the identity and capability
    tables it changes. *)

From stdpp Require Import base numbers list gmap.
From S2P Require Import Prelude Kernel ByteRegions ServiceIdentity Capabilities.

Module Dynamic.

Definition MAX_DYNAMIC_PROCESSES : Z := 4.
Definition MAX_PROCESS_CAPABILITIES : Z := 4.
Definition DYNAMIC_PROOF_RESOURCE_ID : ResourceId := 0x44594E4341500001.
Definition DYNAMIC_PROOF_RIGHTS : RightsMask := Z.lor RIGHT_READ RIGHT_SEND.

Inductive DynamicCapabilityError : Type :=
| ProcessTableFull
| DuplicateTask
| ProcessIdExhausted
| CapabilityInventoryFull
| DynamicIdentity (e : ServiceIdentityError)
| DynamicCapability (e : CapabilityError)
| NoGrant
| ProofFailed.

Record InitialGrant := Grant { grant_resource : ResourceId; grant_rights : RightsMask }.

Record CreatorGrantPolicy := { policy_grants : list (option InitialGrant); grant_count : Z }.

Definition empty_policy : CreatorGrantPolicy :=
  {| policy_grants := replicate (Z.to_nat MAX_PROCESS_CAPABILITIES) None; grant_count := 0 |}.

Definition single_policy (g : InitialGrant) : CreatorGrantPolicy :=
  {| policy_grants := <[0%nat := Some g]> (policy_grants empty_policy); grant_count := 1 |}.

Record ProcessCapability := {
  process_handle : CapabilityHandle;
  process_resource : ResourceId;
  process_rights : RightsMask;
}.

Record DynamicProcess := {
  process_id : Z;
  process_task : TaskId;
  process_service : ServiceId;
  process_capabilities : list (option ProcessCapability);
  capability_count : Z;
}.

Definition new_process (id : Z) (task : TaskId) (service : ServiceId) : DynamicProcess :=
  {| process_id := id; process_task := task; process_service := service;
     process_capabilities := replicate (Z.to_nat MAX_PROCESS_CAPABILITIES) None; capability_count := 0 |}.

Record DynamicProcessTable := { processes : list (option DynamicProcess); next_process_id : Z }.

Definition new_process_table : DynamicProcessTable :=
  {| processes := replicate (Z.to_nat MAX_DYNAMIC_PROCESSES) None; next_process_id := 1 |}.

Abbreviation R := (outcome DynamicCapabilityError).

(** The loop of [use_capability] over the given indices. *)
Fixpoint use_loop (p : DynamicProcess) (t : CapabilityTable) (r : ResourceId) (required : RightsMask)
    (saw_resource : bool) (indices : list Z) : R CapabilityHandle :=
  match indices with
  | [] => Err (if saw_resource then DynamicCapability MissingRights else NoGrant)
  | i :: rest =>
      o ← index (process_capabilities p) i;
      match o with
      | Some c =>
          if process_resource c =? r then
            match validate t (process_service p) (process_handle c) r required with
            | Ok _ => Ok (process_handle c)
            | Err MissingRights => use_loop p t r required true rest
            | Err e => Err (DynamicCapability e)
            | Panic => Panic
            | Diverge => Diverge
            end
          else use_loop p t r required saw_resource rest
      | None => use_loop p t r required saw_resource rest
      end
  end.

Definition use_capability (p : DynamicProcess) (t : CapabilityTable) (r : ResourceId) (required : RightsMask) :
    R CapabilityHandle :=
  use_loop p t r required false (range 0 (capability_count p)).

Definition add_initial_grant (p : DynamicProcess) (g : InitialGrant) :
    action CapabilityTable DynamicCapabilityError DynamicProcess :=
  pure (reject (MAX_PROCESS_CAPABILITIES <=? capability_count p) CapabilityInventoryFull);;
  handle ← zoom id (fun t _ => t) DynamicCapability (grant (process_service p) (grant_resource g) (grant_rights g));
  caps ← pure (index_set (process_capabilities p) (capability_count p)
    (Some {| process_handle := handle; process_resource := grant_resource g; process_rights := grant_rights g |}));
  mret {| process_id := process_id p; process_task := process_task p; process_service := process_service p;
          process_capabilities := caps; capability_count := capability_count p + 1 |}.

Definition spawn_state : Type := DynamicProcessTable * (ServiceIdentityTable * CapabilityTable).

Definition spawn (task : TaskId) (policy : CreatorGrantPolicy) : action spawn_state DynamicCapabilityError DynamicProcess :=
  reads (fun st => reject (existsb (fun p => process_task p =? task) (omap id (processes (fst st)))) DuplicateTask);;
  slot ← reads (fun st => ok_or (position is_none (processes (fst st))) ProcessTableFull);
  service ← on_snd (on_fst (zoom id (fun t _ => t) DynamicIdentity (register_task task)));
  id ← reads (fun st => Ok (next_process_id (fst st)));
  next ← reads (fun st => ok_or (checked_add 64 (next_process_id (fst st)) 1) ProcessIdExhausted);
  on_fst (update (fun t => {| processes := processes t; next_process_id := next |}));;
  p ← on_snd (on_snd (foldA (fun p i =>
        o ← pure (index (policy_grants policy) i);
        g ← pure (ok_or o NoGrant);
        add_initial_grant p g) (new_process id task service) (range 0 (grant_count policy))));
  ps ← reads (fun st => index_set (processes (fst st)) slot (Some p));
  on_fst (update (fun t => {| processes := ps; next_process_id := next_process_id t |}));;
  mret p.

(** [run_self_test]; the fields of the proof it returns are all true. *)
Definition dynamic_self_test : R unit :=
  '(empty_process, st) ← run (spawn 120 empty_policy) (new_process_table, (new_identity_table, new_capability_table));
  let process_created := bool_decide (task_for (fst (snd st)) (process_service empty_process) = Some 120) && (process_task empty_process =? 120) in
  let zero_default := capability_count empty_process =? 0 in
  no_grant_denied ←
    match use_capability empty_process (snd (snd st)) DYNAMIC_PROOF_RESOURCE_ID RIGHT_READ with
    | Err NoGrant => Ok true
    | Panic => Panic
    | Diverge => Diverge
    | _ => Ok false
    end;
  '(granted_process, st) ← run (spawn 121 (single_policy (Grant DYNAMIC_PROOF_RESOURCE_ID DYNAMIC_PROOF_RIGHTS))) st;
  let grant_issued := capability_count granted_process =? 1 in
  granted_use ←
    match use_capability granted_process (snd (snd st)) DYNAMIC_PROOF_RESOURCE_ID RIGHT_READ with
    | Ok _ => Ok true
    | Err _ => Ok false
    | Panic => Panic
    | Diverge => Diverge
    end;
  reject (negb process_created || negb zero_default || negb no_grant_denied || negb grant_issued || negb granted_use) ProofFailed.
End Dynamic.
Import Dynamic.

Lemma dynamic_self_test_passes : dynamic_self_test = Ok tt.
Proof. by vm_compute. Qed.

(** ** Inventories *)

(** The policy holds the given grants. *)
Record policy_ok (policy : CreatorGrantPolicy) (gs : list InitialGrant) : Prop := {
  po_count : grant_count policy = len gs /\ len gs <= MAX_PROCESS_CAPABILITIES;
  po_grants : forall i g, gs !! i = Some g -> policy_grants policy !! i = Some (Some g);
}.

Lemma empty_policy_ok : policy_ok empty_policy [].
Proof. by split. Qed.

Lemma single_policy_ok g : policy_ok (single_policy g) [g].
Proof. split; [done|]. intros [|i] g' Hg; [|done]. by injection Hg as ->. Qed.

Definition grant_authority (service : ServiceId) (g : InitialGrant) : authority :=
  Authority service (grant_resource g) (grant_rights g).

Definition live_grant (s : store CapabilityHandle authority) (service : ServiceId) (c : ProcessCapability) (g : InitialGrant) : Prop :=
  process_resource c = grant_resource g /\ process_rights c = grant_rights g /\ live s !! process_handle c = Some (grant_authority service g).

(** The process holds exactly the given grants, all of them live. *)
Record inventory (p : DynamicProcess) (cs : list ProcessCapability) : Prop := {
  iv_len : len (process_capabilities p) = MAX_PROCESS_CAPABILITIES;
  iv_count : capability_count p = len cs;
  iv_slots : forall i c, cs !! i = Some c -> process_capabilities p !! i = Some (Some c);
}.

Definition holds_grants (s : store CapabilityHandle authority) (p : DynamicProcess) (gs : list InitialGrant) : Prop :=
  exists cs, inventory p cs /\ Forall2 (live_grant s (process_service p)) cs gs.

(** Every capability that was live still is. *)
Definition grows (s s' : store CapabilityHandle authority) : Prop := live s ⊆ live s'.

Lemma grant_grows h r m t s :
  capability_represents t s ->
  wpA (grant h r m) t
    (fun k t' => exists s', capability_represents t' s' /\ grows s s' /\ live s' !! k = Some (Authority h r m))
    (fun e t' => e = TableFull /\ t' = t).
Proof.
  intros Hr. unfold grant. act_step. eapply wpA_mono; [by apply grant_spec| |].
  - intros [k|k] t' Hk; act_step; cbn [grant_handle].
    + destruct Hk as (Hnew & Hfresh & Hr'). eexists. split; [exact Hr'|]. cbn [live]. split; [|by rewrite lookup_insert_eq].
      apply insert_subseteq. apply not_elem_of_dom. intros Hd. by apply Hfresh, (capability_represents_wf _ _ Hr).
    + destruct Hk as [Hl ->]. exists s. split; [done|]. split; [unfold grows; done|done].
  - by intros e t' (-> & -> & _).
Qed.

Lemma holds_grants_grows s s' p gs : grows s s' -> holds_grants s p gs -> holds_grants s' p gs.
Proof.
  intros Hg (cs & Hi & Hall). exists cs. split; [done|]. eapply Forall2_impl; [exact Hall|].
  intros c g (? & ? & Hl). split_and!; [done|done|]. by eapply lookup_weaken.
Qed.

Lemma add_initial_grant_spec p gs g t s :
  capability_represents t s -> holds_grants s p gs -> len gs < MAX_PROCESS_CAPABILITIES ->
  wpA (add_initial_grant p g) t
    (fun p' t' => exists s', capability_represents t' s' /\ grows s s' /\ holds_grants s' p' (gs ++ [g]) /\
       process_service p' = process_service p /\ process_task p' = process_task p)
    (fun e t' => e = DynamicCapability TableFull /\ t' = t).
Proof.
  intros Hr Hh Hroom. pose proof Hh as (cs & [Hlen Hcount Hslots] & Hall). pose proof (Forall2_length _ _ _ Hall) as Hcg.
  change MAX_PROCESS_CAPABILITIES with 4 in *. unfold add_initial_grant. change MAX_PROCESS_CAPABILITIES with 4.
  act_step. act_step. act_step; [intros Hfull%Z.leb_gt|intros Hfull%Z.leb_le; unfold len in *; lia]. act_step. apply wpA_zoom. unfold id.
  eapply wpA_mono; [by apply grant_grows| |by intros e t' [-> ->]]. intros k t' (s' & Hr' & Hg & Hk). act_step. act_step.
  apply wp_index_set; [unfold len in *; lia|]. act_step. exists s'. split; [done|]. split; [done|]. split; [|done].
  destruct (holds_grants_grows s s' p gs Hg Hh) as (cs' & [Hlen' Hcount' Hslots'] & Hall').
  assert (length cs' = length cs) as Hcc by (unfold len in *; lia).
  set (c := {| process_handle := k; process_resource := grant_resource g; process_rights := grant_rights g |}).
  exists (cs' ++ [c]). split.
  - split; cbn [process_capabilities capability_count].
    + by rewrite len_insert.
    + rewrite len_app. change (len [c]) with 1. lia.
    + intros i x Hi. rewrite Hcount'. unfold len. rewrite Nat2Z.id. destruct (decide (i = length cs')) as [->|Hne].
      * rewrite list_lookup_middle in Hi by done. injection Hi as <-. apply list_lookup_insert_eq. unfold len in *. lia.
      * rewrite list_lookup_insert_ne by done. apply Hslots'. rewrite lookup_app in Hi. destruct (cs' !! i) as [y|] eqn:Hy; [done|].
        apply lookup_ge_None in Hy. destruct (i - length cs')%nat eqn:Hd; [lia|done].
  - apply Forall2_app; [done|]. constructor; [|constructor]. split_and!; done.
Qed.

(** The grants of the policy, one after the other. *)
Lemma grant_loop_spec policy gs p t s :
  policy_ok policy gs -> capability_represents t s -> holds_grants s p [] ->
  wpA (foldA (fun p i => o ← pure (index (policy_grants policy) i); g ← pure (ok_or o NoGrant); add_initial_grant p g)
         p (range 0 (grant_count policy))) t
    (fun p' t' => exists s', capability_represents t' s' /\ grows s s' /\ holds_grants s' p' gs /\
       process_service p' = process_service p /\ process_task p' = process_task p)
    (fun e t' => e = DynamicCapability TableFull /\ exists s', capability_represents t' s' /\ grows s s').
Proof.
  intros [[Hc Hmax] Hgs] Hr Hp. rewrite Hc.
  pose proof (wpA_foldA (fun p i => o ← pure (index (policy_grants policy) i); g ← pure (ok_or o NoGrant); add_initial_grant p g)
    (fun i p' t' => exists s', capability_represents t' s' /\ grows s s' /\ holds_grants s' p' (take i gs) /\
       process_service p' = process_service p /\ process_task p' = process_task p)
    (fun e t' => e = DynamicCapability TableFull /\ exists s', capability_represents t' s' /\ grows s s') (range 0 (len gs)) p t) as Hw. cbn beta in Hw.
  rewrite length_range, Z.sub_0_r in Hw. replace (Z.to_nat (len gs)) with (length gs) in Hw by (unfold len; lia). rewrite firstn_all in Hw. apply Hw; clear Hw.
  - exists s. split; [done|]. split; [unfold grows; reflexivity|done].
  - intros i x p' t' [-> Hi]%lookup_range (s' & Hr' & Hg & Hh & Hsv & Htk).
    destruct (lookup_lt_is_Some_2 gs i) as [g Hgi]; [unfold len in Hi; lia|]. rewrite (take_S_r gs i g Hgi).
    act_step. act_step. rewrite Z.add_0_l. unfold index. rewrite get_of_nat, (Hgs i g Hgi). apply wp_ok. act_step. act_step.
    act_step; [intros ? [= <-]|done]. eapply wpA_mono; [apply (add_initial_grant_spec p' (take i gs) g t' s'); [done|done|]| |].
    + change MAX_PROCESS_CAPABILITIES with 4 in *. unfold len in *. rewrite length_take. lia.
    + intros p2 t2 (s2 & Hr2 & Hg2 & Hh2 & Hsv2 & Htk2). exists s2. split_and!; [done|unfold grows in *; by etrans|done|congruence|congruence].
    + intros e t2 [-> ->]. split; [done|]. by exists s'.
Qed.

(** ** Using a capability *)

(** What the policy lets the process do. *)
Definition granted (gs : list InitialGrant) (r : ResourceId) (required : RightsMask) (g : InitialGrant) : Prop :=
  g ∈ gs /\ grant_resource g = r /\ contains (grant_rights g) required = true.

Lemma use_loop_spec p t s r required saw (pre rest : list ProcessCapability) gs :
  capability_represents t s -> inventory p (pre ++ rest) -> Forall2 (live_grant s (process_service p)) rest gs ->
  wp (use_loop p t r required saw (range (len pre) (len (pre ++ rest))))
    (fun h => exists c g, c ∈ rest /\ process_handle c = h /\ granted gs r required g)
    (fun e => (forall g, ~ granted gs r required g) /\
       e = if saw || existsb (fun g => grant_resource g =? r) gs then DynamicCapability MissingRights else NoGrant).
Proof.
  intros Hr Hinv Hall. revert pre saw Hinv. induction Hall as [|c g rest gs (Hcr & Hcm & Hl) _ IH]; intros pre saw Hinv.
  - rewrite app_nil_r, range_nil by lia. cbn. split; [intros g [Hg _]; by apply not_elem_of_nil in Hg|]. by rewrite orb_false_r.
  - assert (len (pre ++ c :: rest) = len pre + 1 + len rest) as Hlen by (rewrite len_app; unfold len; simpl; lia).
    pose proof (len_nonneg rest). rewrite range_cons by lia. cbn [use_loop]. specialize (IH (pre ++ [c])).
    rewrite <- app_assoc in IH. cbn [app] in IH. replace (len (pre ++ [c])) with (len pre + 1) in IH by (rewrite len_app; done).
    assert (get (process_capabilities p) (len pre) = Some (Some c)) as Hget
      by (unfold len; rewrite get_of_nat; apply (iv_slots _ _ Hinv), list_lookup_middle; done).
    unfold index. rewrite Hget. cbn [expect]. rewrite ok_bind.
    cbn [existsb]. rewrite Hcr. destruct (Z.eqb_spec (grant_resource g) r) as [Hres|Hres]; cbn [orb].
    + pose proof (validate_spec t s (process_service p) (process_handle c) r required Hr) as Hv. unfold wp in Hv.
      destruct (validate t (process_service p) (process_handle c) r required) as [[]|e| |] eqn:Hval; [| |done|done].
      * apply wp_ok. destruct Hv as (m & Hm & Hcon). rewrite Hl in Hm. injection Hm as _ Hm. exists c, g. split; [by left|].
        split; [done|]. split; [by left|]. split; [done|]. by rewrite Hm.
      * unfold refusal in Hv. destruct e; try done; try (by rewrite Hl in Hv).
        -- destruct Hv as (a & Ha & Hne). rewrite Hl in Ha. by injection Ha as <-.
        -- destruct Hv as (a & Ha & Hne). rewrite Hl in Ha. injection Ha as <-. by destruct Hne.
        -- destruct Hv as (a & Ha & Hcon). rewrite Hl in Ha. injection Ha as <-. cbn [auth_rights grant_authority] in Hcon.
           rewrite orb_true_r. eapply wp_mono; [by apply IH| |].
           ++ intros h (c' & g' & Hc' & Hh & Hin & Hg'). exists c', g'. split; [by right|]. split; [done|]. split; [by right|done].
           ++ intros e [Hno ->]. split; [|done]. intros g' [[->|Hin]%elem_of_cons Hg']; [destruct Hg'; congruence|]. by apply (Hno g').
    + eapply wp_mono; [by apply IH| |].
      * intros h (c' & g' & Hc' & Hh & Hin & Hg'). exists c', g'. split; [by right|]. split; [done|]. split; [by right|done].
      * intros e [Hno ->]. split; [|done]. intros g' [[->|Hin]%elem_of_cons Hg']; [by destruct Hg'|]. by apply (Hno g').
Qed.

(** A process with live grants can do what they allow and nothing else. *)
Lemma use_capability_spec p t s gs r required :
  capability_represents t s -> holds_grants s p gs ->
  wp (use_capability p t r required)
    (fun _ => exists g, granted gs r required g)
    (fun e => (forall g, ~ granted gs r required g) /\
       e = if existsb (fun g => grant_resource g =? r) gs then DynamicCapability MissingRights else NoGrant).
Proof.
  intros Hr (cs & Hinv & Hall). unfold use_capability. rewrite (iv_count _ _ Hinv).
  eapply wp_mono; [exact (use_loop_spec p t s r required false [] cs gs Hr Hinv Hall)| |done].
  intros h (c & g & _ & _ & Hg). by exists g.
Qed.

(** ** Spawning *)

(** Histories of the capability table that revoke none of the given handles. *)
Definition steps_sparing (hs : list CapabilityHandle) : CapabilityTable -> CapabilityTable -> Prop :=
  rtc (fun t t' => exists op, (forall h, h ∈ hs -> op <> OpRevoke h) /\ capability_step op t t').

Definition handles (p : DynamicProcess) : list CapabilityHandle := process_handle <$> omap id (process_capabilities p).

Lemma sparing_holds hs t t2 s cs gs service :
  steps_sparing hs t t2 -> capability_represents t s -> (forall c, c ∈ cs -> process_handle c ∈ hs) ->
  Forall2 (live_grant s service) cs gs ->
  exists s2, capability_represents t2 s2 /\ Forall2 (live_grant s2 service) cs gs.
Proof.
  intros Hs. revert s. induction Hs as [t|t t1 t2 (op & Hop & Hstep) _ IH]; intros s Hr Hcs Hall; [by exists s|].
  destruct (capability_op_simulates op t t1 s Hr Hstep) as (s1 & _ & Hr1 & Hk). apply (IH s1); [done|done|].
  apply Forall2_same_length_lookup_2; [by eapply Forall2_length|]. intros i c g Hc Hg.
  destruct (Forall2_lookup_lr _ _ _ _ _ _ Hall Hc Hg) as (? & ? & Hl). split_and!; [done|done|]. apply Hk; [|done].
  apply Hop, Hcs. by eapply list_elem_of_lookup_2.
Qed.

(** The task of a new identity. *)
Definition registers (t t' : ServiceIdentityTable) (service : ServiceId) (task : TaskId) : Prop :=
  task_for t service = None /\ task_for t' service = Some task.

Lemma register_task_registers task t :
  identity_reachable t ->
  wpA (register_task task) t (fun service t' => registers t t' service task) (fun _ t' => t' = t).
Proof.
  intros (s & Hs)%identity_reachable_represents. eapply wpA_mono; [by apply register_task_spec| |].
  - intros service t' (_ & _ & Hnew & Hr). split.
    + rewrite (task_for_spec _ _ _ Hs). apply not_elem_of_dom. intros Hd. by apply Hnew, (identity_represents_wf _ _ Hs).
    + rewrite (task_for_spec _ _ _ Hr). apply lookup_insert_eq.
  - by intros e t' [-> _].
Qed.

(** The errors after which the identity of the task stays registered. *)
Definition spawn_leaks (e : DynamicCapabilityError) : bool :=
  match e with ProcessIdExhausted | DynamicCapability _ => true | _ => false end.

Lemma new_holds_grants s id task service : holds_grants s (new_process id task service) [].
Proof. exists []. split; [|constructor]. by split. Qed.

Lemma spawn_spec policy gs task pt it ct s :
  policy_ok policy gs -> len (processes pt) = MAX_DYNAMIC_PROCESSES -> identity_reachable it -> capability_represents ct s ->
  wpA (spawn task policy) (pt, (it, ct))
    (fun p st' => registers it st'.2.1 (process_service p) task /\ process_task p = task /\ Some p ∈ processes st'.1 /\
       exists s', capability_represents st'.2.2 s' /\ grows s s' /\ holds_grants s' p gs)
    (fun e st' => processes st'.1 = processes pt /\ (exists s', capability_represents st'.2.2 s' /\ grows s s') /\
       if spawn_leaks e then exists service, registers it st'.2.1 service task else st' = (pt, (it, ct))).
Proof.
  intros Hpol Hlen Hid Hcap. unfold spawn.
  assert (exists s', capability_represents ct s' /\ grows s s') as Hsame by (exists s; split; [done|unfold grows; reflexivity]).
  act_step. act_step. act_step; [intros _|done]. act_step. act_step. cbn [fst snd].
  act_step; [intros slot Hslot|by intros _]. apply position_Some in Hslot as (Hslot & _ & _).
  act_step. apply wpA_on_snd, wpA_on_fst, wpA_zoom. unfold id.
  eapply wpA_mono; [by apply register_task_registers| |by intros e it' ->]. intros service it' Hreg.
  act_step. act_step. act_step. act_step. act_step. cbn [fst snd]. act_step; [intros next _|intros _; split; [done|]; split; [done|]; by exists service].
  act_step. apply wpA_on_fst. act_step. act_step. apply wpA_on_snd, wpA_on_snd.
  eapply wpA_mono; [by eapply grant_loop_spec, new_holds_grants| |].
  - intros p ct' (s' & Hr' & Hg & Hh & Hsv & Htk). act_step. act_step. cbn [fst snd processes]. apply wp_index_set; [lia|].
    act_step. apply wpA_on_fst. act_step. act_step. cbn [fst snd processes]. rewrite Hsv, Htk. split; [exact Hreg|]. split; [done|]. split.
    + eapply list_elem_of_lookup_2, list_lookup_insert_eq. unfold len in Hslot. lia.
    + by exists s'.
  - intros e ct' [-> Hs']. split; [done|]. split; [exact Hs'|]. cbn. by exists service.
Qed.

(** C27: a spawned process has exactly the authority its creator's policy grants.
    Its service identity is new and belongs to the task, and as long as none of
    its handles is revoked, whatever else the capability table goes through, it
    can use a resource with given rights exactly when one of the grants names
    that resource with those rights; otherwise the call fails with
    [MissingRights] when a grant names the resource and with [NoGrant] when none
    does. *)
Theorem spawned_process_authority policy gs task st p st' :
  policy_ok policy gs -> len (processes st.1) = MAX_DYNAMIC_PROCESSES -> identity_reachable st.2.1 -> capability_reachable st.2.2 ->
  spawn task policy st = (Ok p, st') ->
  registers st.2.1 st'.2.1 (process_service p) task /\
  forall t2 r required, steps_sparing (handles p) st'.2.2 t2 ->
    wp (use_capability p t2 r required)
      (fun _ => exists g, granted gs r required g)
      (fun e => (forall g, ~ granted gs r required g) /\
         e = if existsb (fun g => grant_resource g =? r) gs then DynamicCapability MissingRights else NoGrant).
Proof.
  destruct st as [pt [it ct]]. cbn [fst snd]. intros Hpol Hlen Hid (s & Hcap)%capability_reachable_represents Hrun.
  destruct (wpA_ok _ _ _ _ _ _ (spawn_spec policy gs task pt it ct s Hpol Hlen Hid Hcap) Hrun) as (Hreg & _ & _ & s' & Hr' & _ & cs & Hinv & Hall).
  split; [exact Hreg|]. intros t2 r required Hsteps.
  destruct (sparing_holds _ _ _ _ cs gs (process_service p) Hsteps Hr') as (s2 & Hr2 & Hall2); [| exact Hall |].
  - intros c [i Hi]%list_elem_of_lookup. apply list_elem_of_fmap. exists c. split; [done|]. apply list_elem_of_omap.
    exists (Some c). split; [|done]. eapply list_elem_of_lookup_2, (iv_slots _ _ Hinv), Hi.
  - apply (use_capability_spec p t2 s2); [done|]. by exists cs.
Qed.

(** C39: a spawn that fails stores no process, but it is not undone:
    when the process identifiers or the capability table are exhausted,
    the service identity it registered for the task stays registered although
    no process has it. Every other failure changes nothing. *)
Theorem failed_spawn_leaks_identity policy gs task st e st' :
  policy_ok policy gs -> len (processes st.1) = MAX_DYNAMIC_PROCESSES -> identity_reachable st.2.1 -> capability_reachable st.2.2 ->
  spawn task policy st = (Err e, st') ->
  processes st'.1 = processes st.1 /\
  if spawn_leaks e then exists service, registers st.2.1 st'.2.1 service task else st' = st.
Proof.
  destruct st as [pt [it ct]]. cbn [fst snd]. intros Hpol Hlen Hid (s & Hcap)%capability_reachable_represents Hrun.
  destruct (wpA_err _ _ _ _ _ _ (spawn_spec policy gs task pt it ct s Hpol Hlen Hid Hcap) Hrun) as (Hp & _ & Hl). by split.
Qed.

(** ** Concrete processes *)

Definition reader_grant : InitialGrant := Grant 7 RIGHT_READ.

Definition first_state : spawn_state := (new_process_table, (new_identity_table, new_capability_table)).

Definition reader_spawn : outcome DynamicCapabilityError DynamicProcess * spawn_state := spawn 5 (single_policy reader_grant) first_state.

Definition reader : DynamicProcess :=
  {| process_id := 1; process_task := 5; process_service := 1;
     process_capabilities := [Some {| process_handle := Handle 0 1; process_resource := 7; process_rights := RIGHT_READ |}; None; None; None];
     capability_count := 1 |}.

Lemma spawned_process_authority_witness :
  reader_spawn = (Ok reader, snd reader_spawn) /\
  wp (use_capability reader (snd reader_spawn).2.2 7 RIGHT_WRITE) (fun _ => False) (fun e => e = DynamicCapability MissingRights).
Proof.
  assert (reader_spawn = (Ok reader, snd reader_spawn)) as Hrun by reflexivity. split; [exact Hrun|].
  destruct (spawned_process_authority (single_policy reader_grant) [reader_grant] 5 first_state reader (snd reader_spawn)
    (single_policy_ok reader_grant) eq_refl (rtc_refl _ _) (rtc_refl _ _) Hrun) as [_ Huse].
  eapply wp_mono; [apply Huse, rtc_refl| |].
  - intros h (g & [->|Hg]%elem_of_cons & _ & Hc); [discriminate Hc|]. by apply not_elem_of_nil in Hg.
  - by intros e [_ ->].
Defined.

(** The capability table after 32 grants. *)
Definition fill_grants (t : CapabilityTable) (rs : list ResourceId) : CapabilityTable :=
  foldl (fun t r => snd (grant_with_provenance 9 r RIGHT_READ t)) t rs.

Lemma fill_grants_reachable rs t : capability_reachable t -> capability_reachable (fill_grants t rs).
Proof.
  revert t. induction rs as [|r rs IH]; intros t Ht; [done|]. apply IH. eapply rtc_r; [exact Ht|].
  exists (OpGrant 9 r RIGHT_READ). eapply capability_grant, surjective_pairing.
Qed.

Definition full_state : spawn_state :=
  (new_process_table, (new_identity_table, fill_grants new_capability_table (range 1 33))).

Lemma failed_spawn_leaks_identity_witness :
  spawn 5 (single_policy reader_grant) full_state = (Err (DynamicCapability TableFull), snd (spawn 5 (single_policy reader_grant) full_state)) /\
  exists service, registers full_state.2.1 (snd (spawn 5 (single_policy reader_grant) full_state)).2.1 service 5.
Proof.
  assert (spawn 5 (single_policy reader_grant) full_state =
    (Err (DynamicCapability TableFull), snd (spawn 5 (single_policy reader_grant) full_state))) as Hrun by (vm_compute; reflexivity).
  split; [exact Hrun|].
  exact (proj2 (failed_spawn_leaks_identity (single_policy reader_grant) [reader_grant] 5 full_state _ _
    (single_policy_ok reader_grant) eq_refl (rtc_refl _ _) (fill_grants_reachable (range 1 33) _ (rtc_refl _ _)) Hrun)).
Defined.
