(* ===== verification/UserElf.v ===== *)
(** * Executable files of user programs

    Models [core/src/user_elf.rs]: the validation of the ELF image of a user
    program before any of its segments is mapped. The loader accepts exactly
    the files [elf_ok] describes. *)

From stdpp Require Import base numbers list.
From Stdlib Require Import Strings.Byte.
From S2P Require Import Prelude Kernel ByteRegions Bitset.

Module Elf.

Definition PAGE_SIZE : Z := 4096.
Definition EI_CLASS_64 : Z := 2.
Definition EI_DATA_LITTLE_ENDIAN : Z := 1.
Definition ELF_VERSION_CURRENT : Z := 1.
Definition ET_EXEC : Z := 2.
Definition EM_X86_64 : Z := 0x3E.
Definition PT_LOAD : Z := 1.
Definition PF_X : Z := 1.
Definition PF_W : Z := 2.
Definition PF_R : Z := 4.
Definition ELF64_EHDR_SIZE : Z := 64.
Definition ELF64_PHDR_SIZE : Z := 56.
Definition MAX_LOAD_SEGMENTS : Z := 8.
Definition USER_VIRT_MIN : Z := 0x00200000.
Definition USER_VIRT_MAX : Z := 0x800000000000.
Definition KERNEL_VIRT_MIN : Z := 0xFFFFFFFF80000000.

(** [b"\x7fELF"] *)
Definition ELF_MAGIC : list byte := [x7f; x45; x4c; x46].

Inductive UserElfError : Type :=
| TooShort | BadMagic | UnsupportedClass | UnsupportedEndian | UnsupportedVersion | UnsupportedType
| UnsupportedMachine | BadProgramHeaderSize | BadProgramHeaderTable | UnsupportedSegment | EmptySegment
| BufferRange | RangeOverflow | KernelRange | BadAlignment | WxSegment | TooManySegments
| OverlappingSegments | EntryOutsideExecutable.

#[export] Instance elf_error_eq_decision : EqDecision UserElfError.
Proof. solve_decision. Defined.

Record LoadSegment := {
  file_offset : Z;
  virtual_start : Z;
  file_size : Z;
  mem_size : Z;
  flags : Z;
  page_start : Z;
  page_end : Z;
}.

Definition page_len (s : LoadSegment) : Z := page_end s - page_start s.
Definition writable (s : LoadSegment) : bool := negb (Z.land (flags s) PF_W =? 0).
Definition executable (s : LoadSegment) : bool := negb (Z.land (flags s) PF_X =? 0).

Record UserElfImage := { entry : Z; segments : list (option LoadSegment); segment_count : Z }.

Definition segment (image : UserElfImage) (i : Z) : option LoadSegment :=
  if segment_count image <=? i then None else get (segments image) i ≫= id.

Abbreviation R := (outcome UserElfError).

(** [read_u16], [read_u32] and [read_u64] read [n] bytes. *)
Definition read_field (n : Z) (bytes : list byte) (offset : Z) : R Z :=
  last ← ok_or (checked_add 64 offset n) RangeOverflow;
  raw ← ok_or (get_range bytes offset last) TooShort;
  Ok (le_val raw).

Definition read_u16 := read_field 2.
Definition read_u32 := read_field 4.
Definition read_u64 := read_field 8.

Definition align_down (value : Z) : Z := Z.ldiff value (PAGE_SIZE - 1).

Definition align_up (value : Z) : R Z := ok_or (align_down <$> checked_add 64 value (PAGE_SIZE - 1)) RangeOverflow.

(** [u64::is_power_of_two] *)
Definition is_power_of_two (a : Z) : bool := negb (a =? 0) && (Z.land a (a - 1) =? 0).

Definition check_overlap (image : UserElfImage) (first last i : Z) : R unit :=
  o ← index (segments image) i;
  s ← ok_or o BadProgramHeaderTable;
  reject ((first <? page_end s) && (page_start s <? last)) OverlappingSegments.

Definition parse_program_header (bytes : list byte) (phdr : Z) (image : UserElfImage) : R UserElfImage :=
  p_type ← read_u32 bytes phdr;
  reject (negb (p_type =? PT_LOAD)) UnsupportedSegment;;
  reject (MAX_LOAD_SEGMENTS <=? segment_count image) TooManySegments;;
  flags ← read_u32 bytes (phdr + 4);
  offset ← read_u64 bytes (phdr + 8);
  vaddr ← read_u64 bytes (phdr + 16);
  filesz ← read_u64 bytes (phdr + 32);
  memsz ← read_u64 bytes (phdr + 40);
  align ← read_u64 bytes (phdr + 48);
  reject ((memsz =? 0) || (memsz <? filesz)) EmptySegment;;
  file_end ← ok_or (checked_add 64 offset filesz) BufferRange;
  reject (len bytes <? file_end) BufferRange;;
  virtual_end ← ok_or (checked_add 64 vaddr memsz) RangeOverflow;
  reject ((vaddr <? USER_VIRT_MIN) || (USER_VIRT_MAX <? virtual_end) || (KERNEL_VIRT_MIN <=? vaddr) || (KERNEL_VIRT_MIN <=? virtual_end))
    KernelRange;;
  reject ((align =? 0) || negb (is_power_of_two align) || negb (vaddr mod align =? offset mod align)) BadAlignment;;
  reject (negb (Z.land flags PF_W =? 0) && negb (Z.land flags PF_X =? 0)) WxSegment;;
  let page_start := align_down vaddr in
  page_end ← align_up virtual_end;
  forM (range 0 (segment_count image)) (check_overlap image page_start page_end);;
  slots ← index_set (segments image) (segment_count image)
    (Some {| file_offset := offset; virtual_start := vaddr; file_size := filesz; mem_size := memsz; flags := flags;
             page_start := page_start; page_end := page_end |});
  Ok {| entry := entry image; segments := slots; segment_count := segment_count image + 1 |}.

(** The loop of [entry_inside_executable_segment] over the given indices. *)
Fixpoint entry_inside (entry : Z) (image : UserElfImage) (indices : list Z) : R bool :=
  match indices with
  | [] => Ok false
  | i :: rest =>
      o ← index (segments image) i;
      match o with
      | Some s =>
          if executable s && (virtual_start s <=? entry) && (entry <? Z.min (virtual_start s + mem_size s) (2 ^ 64 - 1))
          then Ok true else entry_inside entry image rest
      | None => entry_inside entry image rest
      end
  end.

Definition entry_inside_executable_segment (entry : Z) (image : UserElfImage) : R bool :=
  entry_inside entry image (range 0 (segment_count image)).

(** The checks of the header that [validate] does first. *)
Definition check_identification (bytes : list byte) : R unit :=
  reject (len bytes <? ELF64_EHDR_SIZE) TooShort;;
  magic ← expect (get_range bytes 0 4);
  reject (negb (bool_decide (magic = ELF_MAGIC))) BadMagic;;
  class ← index bytes 4;
  reject (negb (byte_val class =? EI_CLASS_64)) UnsupportedClass;;
  endian ← index bytes 5;
  reject (negb (byte_val endian =? EI_DATA_LITTLE_ENDIAN)) UnsupportedEndian;;
  version ← index bytes 6;
  reject (negb (byte_val version =? ELF_VERSION_CURRENT)) UnsupportedVersion;;
  version ← read_u32 bytes 20;
  reject (negb (version =? ELF_VERSION_CURRENT)) UnsupportedVersion;;
  kind ← read_u16 bytes 16;
  reject (negb (kind =? ET_EXEC)) UnsupportedType;;
  machine ← read_u16 bytes 18;
  reject (negb (machine =? EM_X86_64)) UnsupportedMachine.

(** One round of the loop over the program headers. *)
Definition header_round (bytes : list byte) (phoff : Z) (image : UserElfImage) (i : Z) : R UserElfImage :=
  off ← ok_or (checked_mul 64 i ELF64_PHDR_SIZE) RangeOverflow;
  phdr ← ok_or (checked_add 64 phoff off) RangeOverflow;
  parse_program_header bytes phdr image.

Definition validate (bytes : list byte) : R UserElfImage :=
  check_identification bytes;;
  entry ← read_u64 bytes 24;
  phoff ← read_u64 bytes 32;
  phentsize ← read_u16 bytes 54;
  phnum ← read_u16 bytes 56;
  reject (negb (phentsize =? ELF64_PHDR_SIZE)) BadProgramHeaderSize;;
  reject (phnum =? 0) BadProgramHeaderTable;;
  ph_table_len ← ok_or (checked_mul 64 phnum ELF64_PHDR_SIZE) RangeOverflow;
  ph_end ← ok_or (checked_add 64 phoff ph_table_len) RangeOverflow;
  reject (len bytes <? ph_end) BadProgramHeaderTable;;
  image ← foldM (header_round bytes phoff)
    {| entry := entry; segments := replicate (Z.to_nat MAX_LOAD_SEGMENTS) None; segment_count := 0 |} (range 0 phnum);
  reject (segment_count image =? 0) BadProgramHeaderTable;;
  inside ← entry_inside_executable_segment entry image;
  reject (negb inside) EntryOutsideExecutable;;
  Ok image.

(** ** Self tests *)

Record PhdrSpec := { spec_type : Z; spec_flags : Z; spec_offset : Z; spec_vaddr : Z; spec_filesz : Z; spec_memsz : Z }.

Definition put (offset n value : Z) (elf : list byte) : R (list byte) := copy_into elf offset (le_bytes (Z.to_nat n) value).

Definition write_elf_header (phnum entry : Z) (elf : list byte) : R (list byte) :=
  elf ← copy_into elf 0 ELF_MAGIC;
  elf ← put 4 1 EI_CLASS_64 elf;
  elf ← put 5 1 EI_DATA_LITTLE_ENDIAN elf;
  elf ← put 6 1 ELF_VERSION_CURRENT elf;
  elf ← put 16 2 ET_EXEC elf;
  elf ← put 18 2 EM_X86_64 elf;
  elf ← put 20 4 ELF_VERSION_CURRENT elf;
  elf ← put 24 8 entry elf;
  elf ← put 32 8 ELF64_EHDR_SIZE elf;
  elf ← put 52 2 ELF64_EHDR_SIZE elf;
  elf ← put 54 2 ELF64_PHDR_SIZE elf;
  put 56 2 phnum elf.

Definition write_phdr (i : Z) (spec : PhdrSpec) (elf : list byte) : R (list byte) :=
  let at_ := ELF64_EHDR_SIZE + i * ELF64_PHDR_SIZE in
  elf ← put at_ 4 (spec_type spec) elf;
  elf ← put (at_ + 4) 4 (spec_flags spec) elf;
  elf ← put (at_ + 8) 8 (spec_offset spec) elf;
  elf ← put (at_ + 16) 8 (spec_vaddr spec) elf;
  elf ← put (at_ + 24) 8 (spec_vaddr spec) elf;
  elf ← put (at_ + 32) 8 (spec_filesz spec) elf;
  elf ← put (at_ + 40) 8 (spec_memsz spec) elf;
  put (at_ + 48) 8 PAGE_SIZE elf.

Inductive RejectCase : Type := RejectBufferRange | RejectWxSegment | RejectKernelRange.

Definition reject_spec (c : RejectCase) : PhdrSpec :=
  match c with
  | RejectBufferRange =>
      {| spec_type := PT_LOAD; spec_flags := PF_R; spec_offset := 120; spec_vaddr := 0x400000; spec_filesz := 16; spec_memsz := 16 |}
  | RejectWxSegment =>
      {| spec_type := PT_LOAD; spec_flags := Z.lor (Z.lor PF_R PF_W) PF_X; spec_offset := 0; spec_vaddr := 0x400000; spec_filesz := 0; spec_memsz := 16 |}
  | RejectKernelRange =>
      {| spec_type := PT_LOAD; spec_flags := PF_R; spec_offset := 0; spec_vaddr := KERNEL_VIRT_MIN; spec_filesz := 0; spec_memsz := 16 |}
  end.

Definition rejection_elf (c : RejectCase) : R (list byte) :=
  elf ← write_elf_header 1 0x400000 (zeros 128);
  write_phdr 0 (reject_spec c) elf.

(** The file of a case is rejected with the given error. *)
Definition denied (c : RejectCase) (e : UserElfError) : R unit :=
  elf ← rejection_elf c;
  match validate elf with
  | Err e' => reject (negb (bool_decide (e' = e))) e
  | Ok _ => Err e
  | Panic => Panic
  | Diverge => Diverge
  end.

Definition run_rejection_self_tests : R unit :=
  denied RejectBufferRange BufferRange;;
  denied RejectWxSegment WxSegment;;
  denied RejectKernelRange KernelRange.
End Elf.
Import Elf.

Lemma elf_self_tests_pass : run_rejection_self_tests = Ok tt.
Proof. by vm_compute. Qed.

(** ** What a file says *)

(** The unsigned field of [n] bytes at an offset. *)
Definition field (n : nat) (bytes : list byte) (offset : Z) : Z := le_val (take n (drop (Z.to_nat offset) bytes)).

Definition round_down (v : Z) : Z := v / 4096 * 4096.
Definition round_up (v : Z) : Z := round_down (v + 4095).

(** The segment that the program header at [h] describes. *)
Definition seg_at (bytes : list byte) (h : Z) : LoadSegment :=
  let vaddr := field 8 bytes (h + 16) in
  let memsz := field 8 bytes (h + 40) in
  {| file_offset := field 8 bytes (h + 8); virtual_start := vaddr; file_size := field 8 bytes (h + 32); mem_size := memsz;
     flags := field 4 bytes (h + 4); page_start := round_down vaddr; page_end := round_up (vaddr + memsz) |}.

Record load_ok (bytes : list byte) (h : Z) : Prop := {
  lo_type : field 4 bytes h = PT_LOAD;
  lo_mem : 0 < mem_size (seg_at bytes h) /\ file_size (seg_at bytes h) <= mem_size (seg_at bytes h);
  lo_file : file_offset (seg_at bytes h) + file_size (seg_at bytes h) <= len bytes;
  lo_user : USER_VIRT_MIN <= virtual_start (seg_at bytes h) /\
    virtual_start (seg_at bytes h) + mem_size (seg_at bytes h) <= USER_VIRT_MAX;
  lo_align : is_power_of_two (field 8 bytes (h + 48)) = true /\
    virtual_start (seg_at bytes h) mod field 8 bytes (h + 48) = file_offset (seg_at bytes h) mod field 8 bytes (h + 48);
  lo_wx : writable (seg_at bytes h) && executable (seg_at bytes h) = false;
}.

Definition page_disjoint (s s' : LoadSegment) : Prop := page_end s <= page_start s' \/ page_end s' <= page_start s.

Definition elf_entry (bytes : list byte) : Z := field 8 bytes 24.

(** The offsets of the program headers. *)
Definition headers (bytes : list byte) : list Z :=
  (fun i => field 8 bytes 32 + 56 * i) <$> range 0 (field 2 bytes 56).

Definition elf_segments (bytes : list byte) : list LoadSegment := seg_at bytes <$> headers bytes.

Definition entry_in (bytes : list byte) (s : LoadSegment) : Prop :=
  executable s = true /\ virtual_start s <= elf_entry bytes < virtual_start s + mem_size s.

Record header_ok (bytes : list byte) : Prop := {
  ho_len : 64 <= len bytes;
  ho_magic : take 4 bytes = ELF_MAGIC;
  ho_class : field 1 bytes 4 = EI_CLASS_64;
  ho_endian : field 1 bytes 5 = EI_DATA_LITTLE_ENDIAN;
  ho_version : field 1 bytes 6 = ELF_VERSION_CURRENT /\ field 4 bytes 20 = ELF_VERSION_CURRENT;
  ho_type : field 2 bytes 16 = ET_EXEC;
  ho_machine : field 2 bytes 18 = EM_X86_64;
}.

Record elf_ok (bytes : list byte) : Prop := {
  eo_header : header_ok bytes;
  eo_table : field 2 bytes 54 = ELF64_PHDR_SIZE /\ 0 < field 2 bytes 56 <= MAX_LOAD_SEGMENTS /\
    field 8 bytes 32 + 56 * field 2 bytes 56 <= len bytes;
  eo_load : Forall (load_ok bytes) (headers bytes);
  eo_disjoint : ForallOrdPairs page_disjoint (elf_segments bytes);
  eo_entry : Exists (entry_in bytes) (elf_segments bytes);
}.

Definition image_of (entry : Z) (segs : list LoadSegment) : UserElfImage :=
  {| entry := entry; segments := (Some <$> segs) ++ replicate (8 - length segs) None; segment_count := len segs |}.

Definition elf_image (bytes : list byte) : UserElfImage := image_of (elf_entry bytes) (elf_segments bytes).

(** ** Reading *)

Lemma field_nonneg n bytes off : 0 <= field n bytes off.
Proof. apply le_val_range. Qed.

Lemma field_u16 bytes off : field 2 bytes off < 65536.
Proof.
  unfold field. pose proof (le_val_range (take 2 (drop (Z.to_nat off) bytes))) as [_ Hr].
  assert (len (take 2 (drop (Z.to_nat off) bytes)) <= 2) as Hl by (unfold len; rewrite length_take; lia).
  eapply Z.lt_le_trans; [exact Hr|]. change 65536 with (256 ^ 2). apply Z.pow_le_mono_r; lia.
Qed.

Lemma field_byte bytes off b : get bytes off = Some b -> byte_val b = field 1 bytes off.
Proof.
  intros [_ Hb]%get_Some. unfold field. rewrite (drop_S bytes b) by done. simpl. unfold le_val. simpl. lia.
Qed.

Section reading.
Context (bytes : list byte).
Hypothesis (Hlen : len bytes < 2 ^ 64).

Lemma read_field_ok (n : nat) off :
  0 <= off -> off + Z.of_nat n <= len bytes -> read_field (Z.of_nat n) bytes off = Ok (field n bytes off).
Proof.
  intros H0 Hn. unfold read_field, checked_add. rewrite checked_id by (unfold uint; lia). cbn [ok_or]. rewrite ok_bind.
  rewrite (proj2 (get_range_Some _ _ _ _)) by (split_and!; [lia..|reflexivity]). cbn [ok_or]. rewrite ok_bind.
  unfold field. by replace (Z.to_nat (off + Z.of_nat n - off)) with n by lia.
Qed.

Lemma elf_read_u16_ok off : 0 <= off -> off + 2 <= len bytes -> read_u16 bytes off = Ok (field 2 bytes off).
Proof. apply (read_field_ok 2). Qed.
Lemma elf_read_u32_ok off : 0 <= off -> off + 4 <= len bytes -> read_u32 bytes off = Ok (field 4 bytes off).
Proof. apply (read_field_ok 4). Qed.
Lemma elf_read_u64_ok off : 0 <= off -> off + 8 <= len bytes -> read_u64 bytes off = Ok (field 8 bytes off).
Proof. apply (read_field_ok 8). Qed.

Lemma align_down_round v : align_down v = round_down v.
Proof.
  unfold align_down, round_down. change (PAGE_SIZE - 1) with (Z.ones 12). rewrite Z.ldiff_ones_r by lia.
  by rewrite Z.shiftl_mul_pow2, Z.shiftr_div_pow2 by lia.
Qed.

Lemma check_identification_spec : wp (check_identification bytes) (fun _ => header_ok bytes) (fun _ => ~ header_ok bytes).
Proof.
  unfold check_identification. change ELF64_EHDR_SIZE with 64. act_step.
  act_step; [intros Hl%Z.ltb_ge|intros Hl%Z.ltb_lt []; lia]. act_step.
  rewrite (proj2 (get_range_Some _ 0 4 _)) by (split_and!; [lia..|reflexivity]). apply wp_ok. change (Z.to_nat (4 - 0)) with 4%nat. rewrite drop_0.
  act_step. act_step; [intros Hm%negb_false_iff%bool_decide_eq_true|intros Hm%negb_true_iff%bool_decide_eq_false; by intros []].
  act_step. apply wp_index; [lia|]. intros b4 Hb4%field_byte. act_step. rewrite Hb4.
  act_step; [intros H4%negb_false_iff%Z.eqb_eq|intros H4%negb_true_iff%Z.eqb_neq; by intros []].
  act_step. apply wp_index; [lia|]. intros b5 Hb5%field_byte. act_step. rewrite Hb5.
  act_step; [intros H5%negb_false_iff%Z.eqb_eq|intros H5%negb_true_iff%Z.eqb_neq; by intros []].
  act_step. apply wp_index; [lia|]. intros b6 Hb6%field_byte. act_step. rewrite Hb6.
  act_step; [intros H6%negb_false_iff%Z.eqb_eq|intros H6%negb_true_iff%Z.eqb_neq; intros [_ _ _ _ [? _] _ _]; done].
  rewrite elf_read_u32_ok by lia. act_step. act_step. act_step.
  act_step; [intros H7%negb_false_iff%Z.eqb_eq|intros H7%negb_true_iff%Z.eqb_neq; intros [_ _ _ _ [_ ?] _ _]; done].
  rewrite !elf_read_u16_ok by lia. act_step. act_step. act_step.
  act_step; [intros H8%negb_false_iff%Z.eqb_eq|intros H8%negb_true_iff%Z.eqb_neq; by intros []].
  act_step. act_step. act_step; [intros H9%negb_false_iff%Z.eqb_eq|intros H9%negb_true_iff%Z.eqb_neq; by intros []].
  by split.
Qed.
End reading.

(** ** Segments *)

Lemma image_slot e segs i s : segs !! i = Some s -> get (segments (image_of e segs)) (Z.of_nat i) = Some (Some s).
Proof.
  intros Hs. rewrite get_of_nat. cbn [segments image_of]. rewrite lookup_app_l by (rewrite length_fmap; by eapply lookup_lt_Some).
  by rewrite list_lookup_fmap, Hs.
Qed.

Lemma image_len e segs : (length segs <= 8)%nat -> len (segments (image_of e segs)) = 8.
Proof. intros Hl. unfold len. cbn [segments image_of]. rewrite length_app, length_fmap, length_replicate. lia. Qed.

Lemma image_push e segs s :
  (length segs < 8)%nat ->
  {| entry := e; segments := <[length segs := Some s]> (segments (image_of e segs)); segment_count := len segs + 1 |} = image_of e (segs ++ [s]).
Proof.
  intros Hl. unfold image_of. cbn [segments]. rewrite len_app, length_app, fmap_app, <- app_assoc. f_equal.
  rewrite insert_app_r_alt by (rewrite length_fmap; lia). f_equal. rewrite length_fmap, Nat.sub_diag.
  replace (8 - length segs)%nat with (S (8 - (length segs + 1))) by lia. done.
Qed.

Lemma overlap_spec e pre first last :
  wp (forM (range 0 (len pre)) (check_overlap (image_of e pre) first last))
    (fun _ => Forall (fun s => page_end s <= first \/ last <= page_start s) pre)
    (fun _ => ~ Forall (fun s => page_end s <= first \/ last <= page_start s) pre).
Proof.
  eapply wp_mono; [apply (wp_forM _ _ (fun i => forall s, pre !! Z.to_nat i = Some s -> page_end s <= first \/ last <= page_start s)
    (fun _ => ~ Forall (fun s => page_end s <= first \/ last <= page_start s) pre))| |done].
  - intros x Hx%elem_of_range. destruct (lookup_lt_is_Some_2 pre (Z.to_nat x)) as [s Hs]; [unfold len in Hx; lia|].
    pose proof (image_slot e pre _ _ Hs) as Hslot. rewrite Z2Nat.id in Hslot by lia. unfold check_overlap, index. rewrite Hslot. cbn [expect].
    rewrite ok_bind. act_step. act_step; [intros ? [= <-]|done]. act_step.
    + intros [Ho%Z.ltb_ge|Ho%Z.ltb_ge]%andb_false_iff s' Hs'; rewrite Hs in Hs'; injection Hs' as <-; [left|right]; lia.
    + intros [H1%Z.ltb_lt H2%Z.ltb_lt]%andb_true_iff Hall. rewrite Forall_lookup in Hall. destruct (Hall _ _ Hs); lia.
  - intros u Hall. apply Forall_lookup. intros i s Hs. apply (Hall (Z.of_nat i)); [|by rewrite Nat2Z.id].
    apply elem_of_range. pose proof (lookup_lt_Some _ _ _ Hs). unfold len. lia.
Qed.

Section parsing.
Context (bytes : list byte).
Hypothesis (Hlen : len bytes < 2 ^ 64).

(** The header at [h] may follow the segments [pre]. *)
Definition may_follow (pre : list LoadSegment) (h : Z) : Prop :=
  len pre < 8 /\ load_ok bytes h /\ Forall (fun s => page_disjoint s (seg_at bytes h)) pre.

Lemma parse_program_header_spec e pre h :
  0 <= h -> h + 56 <= len bytes -> (length pre <= 8)%nat ->
  wp (parse_program_header bytes h (image_of e pre))
    (fun image => image = image_of e (pre ++ [seg_at bytes h]) /\ may_follow pre h) (fun _ => ~ may_follow pre h).
Proof.
  intros H0 Hh Hpre. unfold parse_program_header. rewrite !(elf_read_u32_ok bytes Hlen) by lia. rewrite !(elf_read_u64_ok bytes Hlen) by lia.
  act_step. act_step. act_step. act_step; [intros Ht%negb_false_iff%Z.eqb_eq|intros Ht%negb_true_iff%Z.eqb_neq (_ & [] & _); done].
  act_step. change MAX_LOAD_SEGMENTS with 8. cbn [segment_count image_of].
  act_step; [intros Hc%Z.leb_gt|intros Hc%Z.leb_le (? & _ & _); lia].
  rewrite !ok_bind. pose proof (field_nonneg 8 bytes (h + 8)). pose proof (field_nonneg 8 bytes (h + 16)).
  pose proof (field_nonneg 8 bytes (h + 32)). pose proof (field_nonneg 8 bytes (h + 40)).
  act_step. act_step; [intros [Hm1%Z.eqb_neq Hm2%Z.ltb_ge]%orb_false_iff|].
  2:{ intros [Hm%Z.eqb_eq|Hm%Z.ltb_lt]%orb_true_iff (_ & [_ [? ?] _ _ _ _] & _); cbn in *; lia. }
  act_step. unfold checked_add at 1. act_step; [intros fe [-> _]%checked_Some|].
  2:{ intros Hn%checked_None (_ & [_ _ Hf _ _ _] & _). cbn in Hf. apply Hn. unfold uint. lia. }
  act_step. act_step; [intros Hf%Z.ltb_ge|intros Hf%Z.ltb_lt (_ & [_ _ Hf2 _ _ _] & _); cbn in Hf2; lia].
  act_step. unfold checked_add at 1. act_step; [intros ve [-> _]%checked_Some|].
  2:{ intros Hn%checked_None (_ & [_ _ _ [_ Hu] _ _] & _). cbn in Hu. change USER_VIRT_MAX with 0x800000000000 in Hu. apply Hn. unfold uint. lia. }
  change USER_VIRT_MIN with 0x200000. change USER_VIRT_MAX with 0x800000000000. change KERNEL_VIRT_MIN with 0xFFFFFFFF80000000.
  act_step. act_step.
  2:{ intros Hk (_ & [_ _ _ [Hu1 Hu2] _ _] & _). cbn in Hu1, Hu2. change USER_VIRT_MIN with 0x200000 in Hu1. change USER_VIRT_MAX with 0x800000000000 in Hu2.
      rewrite !orb_true_iff, !Z.ltb_lt, !Z.leb_le in Hk. lia. }
  intros [[[Hu1%Z.ltb_ge Hu2%Z.ltb_ge]%orb_false_iff _]%orb_false_iff _]%orb_false_iff.
  act_step. act_step.
  2:{ intros Ha (_ & [_ _ _ _ [Hp Hmod] _] & _). cbn in Hmod. rewrite Hp, Hmod, Z.eqb_refl in Ha. unfold is_power_of_two in Hp.
      apply andb_true_iff in Hp as [Hp%negb_true_iff _]. by rewrite Hp in Ha. }
  intros [[_ Hp%negb_false_iff]%orb_false_iff Hmod%negb_false_iff%Z.eqb_eq]%orb_false_iff.
  act_step. act_step; [intros Hwx|intros Hwx (_ & [_ _ _ _ _ Hwx2] & _); unfold writable, executable in Hwx2; cbn in Hwx2; congruence].
  unfold align_up, checked_add. change (PAGE_SIZE - 1) with 4095. rewrite checked_id by (unfold uint; lia). cbn [fmap option_fmap option_map ok_or].
  rewrite !align_down_round. act_step. act_step. act_step. cbn [segment_count]. fold (round_up (field 8 bytes (h + 16) + field 8 bytes (h + 40))).
  assert (load_ok bytes h) as Hload by (split; cbn; auto; lia).
  eapply wp_mono; [apply overlap_spec| |].
  2:{ intros er Hno (_ & _ & Hall). apply Hno. eapply Forall_impl; [exact Hall|]. intros s [Hd|Hd]; cbn in Hd; auto. }
  intros u Hall. act_step. apply wp_index_set; [rewrite image_len by done; unfold len in *; lia|]. act_step.
  split; [|split_and!; [lia|done|]].
  - rewrite <- (image_push e pre (seg_at bytes h)) by (unfold len in Hc; lia). unfold len at 1. by rewrite Nat2Z.id.
  - eapply Forall_impl; [exact Hall|]. intros s [Hd|Hd]; [left|right]; exact Hd.
Qed.
End parsing.

(** ** Validation *)

Lemma entry_inside_spec bytes segs pre rest :
  segs = pre ++ rest -> Forall (fun s => virtual_start s + mem_size s <= USER_VIRT_MAX) segs ->
  wp (entry_inside (elf_entry bytes) (image_of (elf_entry bytes) segs) (range (len pre) (len segs)))
    (fun b => b = true <-> Exists (entry_in bytes) rest) (fun _ => False).
Proof.
  intros Hsegs Hmax. revert pre Hsegs. induction rest as [|s rest IH]; intros pre Hsegs.
  - rewrite Hsegs, app_nil_r, range_nil by lia. apply wp_ok. split; [done|]. by intros H%Exists_nil.
  - assert (segs !! length pre = Some s) as Hs by (by rewrite Hsegs, list_lookup_middle).
    pose proof (lookup_lt_Some _ _ _ Hs). rewrite range_cons by (unfold len; lia). cbn [entry_inside].
    pose proof (image_slot (elf_entry bytes) segs _ _ Hs) as Hslot. fold (len pre) in Hslot. unfold index. rewrite Hslot. cbn [expect]. rewrite ok_bind.
    rewrite Forall_lookup in Hmax. pose proof (Hmax _ _ Hs) as Hm. change USER_VIRT_MAX with 0x800000000000 in Hm.
    replace (Z.min (virtual_start s + mem_size s) (2 ^ 64 - 1)) with (virtual_start s + mem_size s) by lia.
    destruct (executable s && (virtual_start s <=? elf_entry bytes) && (elf_entry bytes <? virtual_start s + mem_size s)) eqn:Hin.
    + apply wp_ok. split; [|done]. intros _. apply Exists_cons. left. apply andb_true_iff in Hin as [[He H1%Z.leb_le]%andb_true_iff H2%Z.ltb_lt]. by split.
    + replace (len pre + 1) with (len (pre ++ [s])) by (rewrite len_app; done).
      eapply wp_mono; [apply IH; by rewrite <- app_assoc| |done]. intros b ->. rewrite Exists_cons. split; [by right|]. intros [[He [H1 H2]]|?]; [|done].
      exfalso. rewrite He, (proj2 (Z.leb_le _ _) H1), (proj2 (Z.ltb_lt _ _) H2) in Hin. done.
Qed.

Section validation.
Context (bytes : list byte).
Hypothesis (Hlen : len bytes < 2 ^ 64).

Abbreviation phoff := (field 8 bytes 32).
Abbreviation phnum := (field 2 bytes 56).

Lemma headers_lookup i : (i < Z.to_nat phnum)%nat -> headers bytes !! i = Some (phoff + 56 * Z.of_nat i).
Proof. intros Hi. unfold headers. rewrite list_lookup_fmap, (proj2 (lookup_range 0 phnum i (Z.of_nat i))) by lia. done. Qed.

Lemma segments_lookup i : (i < Z.to_nat phnum)%nat -> elf_segments bytes !! i = Some (seg_at bytes (phoff + 56 * Z.of_nat i)).
Proof. intros Hi. unfold elf_segments. by rewrite list_lookup_fmap, headers_lookup. Qed.

Lemma length_segments : length (elf_segments bytes) = Z.to_nat phnum.
Proof. unfold elf_segments, headers. rewrite !length_fmap, length_range. f_equal. lia. Qed.

Definition parsed (i : nat) (image : UserElfImage) : Prop :=
  image = image_of (elf_entry bytes) (take i (elf_segments bytes)) /\ (i <= 8)%nat /\
  Forall (load_ok bytes) (take i (headers bytes)) /\ ForallOrdPairs page_disjoint (take i (elf_segments bytes)).

Lemma header_round_spec i image :
  phoff + 56 * phnum <= len bytes -> (i < Z.to_nat phnum)%nat -> parsed i image ->
  wp (header_round bytes phoff image (Z.of_nat i)) (parsed (S i)) (fun _ => ~ elf_ok bytes).
Proof.
  intros Htab Hi (-> & H8 & Hok & Hdis). pose proof (field_nonneg 8 bytes 32). pose proof (field_u16 bytes 56).
  set (h := phoff + 56 * Z.of_nat i) in *. unfold header_round, checked_mul, checked_add. change ELF64_PHDR_SIZE with 56.
  rewrite checked_id by (unfold uint; lia). cbn [ok_or]. rewrite ok_bind, checked_id by (unfold uint; lia). cbn [ok_or]. rewrite ok_bind.
  replace (phoff + Z.of_nat i * 56) with h by (subst h; lia).
  assert (length (take i (elf_segments bytes)) = i) as Hl by (rewrite length_take, length_segments; lia).
  eapply wp_mono; [apply (parse_program_header_spec bytes Hlen); subst h; lia| |].
  - intros image (-> & Hroom & Hload & Hall). rewrite <- (take_S_r (elf_segments bytes) i) by (by apply segments_lookup).
    split; [done|]. unfold len in Hroom. split; [lia|]. split.
    + rewrite (take_S_r (headers bytes) i h) by (by apply headers_lookup). apply Forall_app. by split; [|constructor].
    + rewrite (take_S_r _ i (seg_at bytes h)) by (by apply segments_lookup). apply ordpairs_app. split; [done|].
      split; [repeat constructor|]. intros x y Hx ->%list_elem_of_singleton. rewrite Forall_forall in Hall. by apply Hall.
  - intros er Hno [_ (_ & [_ Hmax] & _) Hload Hdj _]. apply Hno. change MAX_LOAD_SEGMENTS with 8 in Hmax. split_and!.
    + unfold len. lia.
    + rewrite Forall_lookup in Hload. apply (Hload i). by apply headers_lookup.
    + rewrite <- (take_drop_middle _ i (seg_at bytes h)) in Hdj by (by apply segments_lookup).
      apply ordpairs_app in Hdj as (_ & _ & Hdj). apply Forall_forall. intros s Hs. apply Hdj; [done|by left].
Qed.

(** Validation accepts exactly the files that are in order. *)
Lemma validate_elf_spec :
  wp (Elf.validate bytes) (fun image => elf_ok bytes /\ image = elf_image bytes) (fun _ => ~ elf_ok bytes).
Proof.
  unfold Elf.validate. act_step. eapply wp_mono; [by apply check_identification_spec| |by intros e Hno []]. intros u Hhdr. pose proof (ho_len _ Hhdr).
  rewrite !(elf_read_u64_ok bytes Hlen) by lia. rewrite !(elf_read_u16_ok bytes Hlen) by lia. rewrite !ok_bind.
  pose proof (field_nonneg 8 bytes 32). pose proof (field_nonneg 2 bytes 56). pose proof (field_u16 bytes 56).
  act_step. act_step; [intros Hsz%negb_false_iff%Z.eqb_eq|intros Hsz%negb_true_iff%Z.eqb_neq; by intros [_ [? _] _ _ _]].
  act_step. act_step; [intros Hn%Z.eqb_neq|intros Hn%Z.eqb_eq; intros [_ (_ & ? & _) _ _ _]; lia].
  unfold checked_mul, checked_add. change ELF64_PHDR_SIZE with 56. rewrite checked_id by (unfold uint; lia). cbn [ok_or]. rewrite ok_bind.
  act_step. act_step; [intros pe [-> _]%checked_Some|intros Hov%checked_None [_ (_ & _ & Ht) _ _ _]; apply Hov; unfold uint; lia].
  act_step. act_step; [intros Htab%Z.ltb_ge|intros Htab%Z.ltb_lt [_ (_ & _ & Ht) _ _ _]; lia].
  act_step. eapply wp_mono; [apply (wp_foldM_prefix _ (fun _ => ~ elf_ok bytes) parsed)| |done].
  - split; [done|]. split; [lia|]. split; constructor.
  - intros i x image [-> Hi]%lookup_range Hp. apply header_round_spec; [lia|lia|done].
  - rewrite length_range, Z.sub_0_r. intros image (-> & H8 & Hok & Hdis).
    rewrite take_ge in Hok by (unfold headers; rewrite length_fmap, length_range; lia). rewrite (take_ge (elf_segments bytes)) in * by (rewrite length_segments; lia).
    pose proof length_segments as Hls. cbn [segment_count image_of]. act_step. act_step; [intros _|intros Hz%Z.eqb_eq; unfold len in Hz; lia].
    act_step. unfold entry_inside_executable_segment. cbn [segment_count image_of].
    eapply wp_mono; [apply (entry_inside_spec bytes (elf_segments bytes) []); [done|]| |done].
    + apply Forall_fmap. eapply Forall_impl; [exact Hok|]. intros h Hload. apply Hload.
    + intros inside Hin. act_step. act_step; [intros Hi%negb_false_iff|intros Hi%negb_true_iff [_ _ _ _ He]; apply Hin in He; congruence].
      act_step. split; [|done]. split; [done| |done|done|by apply Hin].
      split; [done|]. change MAX_LOAD_SEGMENTS with 8. lia.
Qed.
End validation.

(** C25: the loader returns on every file without panic and accepts exactly the
    files in order ([elf_ok]): a 64-bit little-endian x86-64 executable whose
    one to eight program headers lie in the file and describe loadable segments
    that are well placed, with an entry point in an executable segment. The
    image it returns lists the segments the headers describe. *)
Theorem user_elf_exact bytes :
  len bytes < 2 ^ 64 ->
  post (Elf.validate bytes) (fun _ => True) /\
  forall image, Elf.validate bytes = Ok image <-> elf_ok bytes /\ image = elf_image bytes.
Proof.
  intros Hlen. pose proof (validate_elf_spec bytes Hlen) as Hw. split; [by eapply wp_mono|]. intros image. split.
  - intros Hv. by rewrite Hv in Hw.
  - intros [Hok ->]. destruct (Elf.validate bytes) as [im|e| |]; cbn in Hw; [by destruct Hw as [_ ->]|by destruct (Hw Hok)|done|done].
Qed.

Lemma round_down_spec v : round_down v mod 4096 = 0 /\ round_down v <= v < round_down v + 4096.
Proof. unfold round_down. rewrite Z_mod_mult. pose proof (Z.div_mod v 4096). pose proof (Z.mod_pos_bound v 4096). lia. Qed.

Lemma ordpairs_lookup {A} (P : A -> A -> Prop) (l : list A) i j x y :
  (forall x y, P x y -> P y x) -> ForallOrdPairs P l -> l !! i = Some x -> l !! j = Some y -> i <> j -> P x y.
Proof.
  intros Hsym Hl. revert i j x y.
  assert (forall i j x y, l !! i = Some x -> l !! j = Some y -> (i < j)%nat -> P x y) as Hlt.
  { intros i j x y Hx Hy Hij. rewrite <- (take_drop_middle l i x Hx) in Hl. apply ordpairs_app in Hl as (_ & Hl & _).
    inversion Hl as [|? ? Hall _]; subst. rewrite Forall_forall in Hall. apply Hall. apply list_elem_of_lookup. exists (j - S i)%nat.
    rewrite lookup_drop. by replace (S i + (j - S i))%nat with j by lia. }
  intros i j x y Hx Hy Hne. destruct (decide (i < j)%nat); [by eapply Hlt|]. apply Hsym, (Hlt j i); [done|done|lia].
Qed.

Lemma segment_image bytes i s :
  segment (elf_image bytes) i = Some s -> exists h, headers bytes !! Z.to_nat i = Some h /\ s = seg_at bytes h /\ 0 <= i.
Proof.
  unfold segment, elf_image. cbn [segment_count image_of]. destruct (Z.leb_spec (len (elf_segments bytes)) i); [done|].
  intros (o & [Hi Ho]%get_Some & Hid)%bind_Some. unfold id in Hid. subst o. cbn [segments image_of] in Ho.
  rewrite lookup_app_l in Ho by (rewrite length_fmap; unfold len in *; lia). rewrite list_lookup_fmap in Ho.
  destruct (elf_segments bytes !! Z.to_nat i) as [s'|] eqn:Hs; [|done]. injection Ho as ->. unfold elf_segments in Hs.
  rewrite list_lookup_fmap in Hs. destruct (headers bytes !! Z.to_nat i) as [h|]; [|done]. injection Hs as <-. exists h. split_and!; [done|done|lia].
Qed.

(** The segments of an accepted image can be mapped. Each lies, with whole
    pages, in user space, takes its bytes from the file, has room for them and
    is not both writable and executable; no two share a page; and the entry
    point is in an executable one. *)
Theorem user_elf_segments_safe bytes image :
  len bytes < 2 ^ 64 -> Elf.validate bytes = Ok image ->
  (forall i s, segment image i = Some s ->
     page_start s mod 4096 = 0 /\ page_end s mod 4096 = 0 /\
     USER_VIRT_MIN <= page_start s <= virtual_start s /\ virtual_start s + mem_size s <= page_end s <= USER_VIRT_MAX /\
     0 <= file_offset s /\ file_offset s + file_size s <= len bytes /\ 0 <= file_size s <= mem_size s /\
     (writable s = true -> executable s = false)) /\
  (forall i j s s', segment image i = Some s -> segment image j = Some s' -> i <> j -> page_disjoint s s') /\
  exists s, s ∈ elf_segments bytes /\ executable s = true /\ virtual_start s <= entry image < virtual_start s + mem_size s.
Proof.
  intros Hlen Hv. pose proof (wp_value _ _ _ (validate_elf_spec bytes Hlen) _ Hv) as [[_ _ Hload Hdis He] ->]. split_and!.
  - intros i s (h & Hh & -> & _)%segment_image. rewrite Forall_lookup in Hload. destruct (Hload _ _ Hh) as [_ Hm Hf Hu _ Hwx].
    change USER_VIRT_MIN with 0x200000 in *. change USER_VIRT_MAX with 0x800000000000 in *.
    pose proof (round_down_spec (virtual_start (seg_at bytes h))) as [Hp1 Hp2].
    pose proof (round_down_spec (virtual_start (seg_at bytes h) + mem_size (seg_at bytes h) + 4095)) as [Hq1 Hq2].
    change (page_start (seg_at bytes h)) with (round_down (virtual_start (seg_at bytes h))).
    change (page_end (seg_at bytes h)) with (round_down (virtual_start (seg_at bytes h) + mem_size (seg_at bytes h) + 4095)).
    pose proof (field_nonneg 8 bytes (h + 8)) as Hf1. pose proof (field_nonneg 8 bytes (h + 32)) as Hf2.
    change (0 <= file_offset (seg_at bytes h)) in Hf1. change (0 <= file_size (seg_at bytes h)) in Hf2.
    assert (forall a b, a mod 4096 = 0 -> b mod 4096 = 0 -> a < b + 4096 -> a <= b) as Hal.
    { intros a b Ha Hb Hab. pose proof (Z.div_mod a 4096). pose proof (Z.div_mod b 4096). lia. }
    split_and!; try done; try lia.
    + apply Hal; [done|done|lia].
    + apply Hal; [done|done|lia].
    + intros Hw. by rewrite Hw in Hwx.
  - intros i j s s' (h & Hh & -> & Hi)%segment_image (h' & Hh' & -> & Hj)%segment_image Hij.
    apply (ordpairs_lookup page_disjoint (elf_segments bytes) (Z.to_nat i) (Z.to_nat j)); [|done| | |lia].
    + intros x y [?|?]; [by right|by left].
    + unfold elf_segments. by rewrite list_lookup_fmap, Hh.
    + unfold elf_segments. by rewrite list_lookup_fmap, Hh'.
  - apply Exists_exists in He as (s & Hs & Hex & Hin). exists s. exact (conj Hs (conj Hex Hin)).
Qed.

(** ** A concrete file *)

Definition demo_spec : PhdrSpec :=
  {| spec_type := PT_LOAD; spec_flags := Z.lor PF_R PF_X; spec_offset := 0; spec_vaddr := 0x400000; spec_filesz := 120; spec_memsz := 200 |}.

Definition demo_file : list byte :=
  match (elf ← write_elf_header 1 0x400078 (zeros 128); write_phdr 0 demo_spec elf) with Ok l => l | _ => [] end.

Definition demo_segment : LoadSegment :=
  {| file_offset := 0; virtual_start := 0x400000; file_size := 120; mem_size := 200; flags := 5; page_start := 0x400000; page_end := 0x401000 |}.

Lemma demo_file_accepted : Elf.validate demo_file = Ok (image_of 0x400078 [demo_segment]).
Proof. by vm_compute. Qed.

Lemma user_elf_exact_witness : len demo_file < 2 ^ 64 /\ elf_ok demo_file.
Proof.
  assert (len demo_file < 2 ^ 64) as Hl by (apply Z.ltb_lt; vm_compute; reflexivity). split; [exact Hl|].
  exact (proj1 (proj1 (proj2 (user_elf_exact demo_file Hl) _) demo_file_accepted)).
Defined.

Lemma user_elf_segments_safe_witness :
  Elf.validate demo_file = Ok (image_of 0x400078 [demo_segment]) /\
  exists s, s ∈ elf_segments demo_file /\ executable s = true /\ virtual_start s <= 0x400078 < virtual_start s + mem_size s.
Proof.
  split; [exact demo_file_accepted|]. assert (len demo_file < 2 ^ 64) as Hl by (apply Z.ltb_lt; vm_compute; reflexivity).
  exact (proj2 (proj2 (user_elf_segments_safe demo_file _ Hl demo_file_accepted))).
Defined.
