(* ===== verification/PhysicalMemory.v ===== *)
(** * Physical pages

    Models [core/src/memory/physical.rs]: the bitmap of physical pages is filled
    from the memory map of the firmware, and pages are allocated and released
    one by one. The descriptors of the map lie in raw memory, so the read of a
    descriptor is a parameter. *)

From stdpp Require Import base numbers list relations.
From S2P Require Import Prelude Kernel Bitset BitWords.

Module Physical.

Definition PAGE_SIZE : Z := 4096.
Definition MAX_MANAGED_PAGES : Z := 1048576.
Definition BITMAP_WORDS : Z := 16384.
Definition MIN_ALLOCATABLE_PHYSICAL : Z := 2097152.
Definition EFI_CONVENTIONAL_MEMORY : Z := 7.

(** The fields that are read, and the size of the structure. *)
Record RawMemoryDescriptor := { memory_type : Z; physical_start : Z; number_of_pages : Z }.
Definition RAW_DESCRIPTOR_SIZE : Z := 40.

Inductive PageOwner : Type := PageFree | PageReserved.

Inductive MemoryError : Type :=
| BadDescriptorSize | BadMemoryMap | RangeOverflow | OutOfManagedRange | NotAllocated | OutOfMemory.

Record PageRange := { start_page : Z; end_page : Z }.

Record PhysicalMemory := { total_pages : Z; free_pages : Z; reserved_pages : Z }.

(** The fields of [PythBootInfo] that this module reads. *)
Record BootInfo := {
  memory_map_ptr : Z;
  memory_map_len : Z;
  memory_descriptor_size : Z;
  kernel_phys_start : Z;
  kernel_phys_end : Z;
  init_bundle_phys : Z;
  init_bundle_len : Z;
  font_phys : Z;
  font_len : Z;
  framebuffer_base : Z;
  framebuffer_length : Z;
}.

Abbreviation R := (outcome MemoryError).

Definition new_range (first last : Z) : R PageRange :=
  reject (last <=? first) BadMemoryMap;;
  sum ← ok_or (checked_add 64 last (PAGE_SIZE - 1)) RangeOverflow;
  reject (MAX_MANAGED_PAGES <? sum / PAGE_SIZE) OutOfManagedRange;;
  Ok {| start_page := first / PAGE_SIZE; end_page := sum / PAGE_SIZE |}.

Definition contains_page (r : PageRange) (page : Z) : bool := (start_page r <=? page) && (page <? end_page r).

(** A range given by its start and its length. *)
Definition sized_range (first length : Z) : R PageRange :=
  last ← ok_or (checked_add 64 first length) RangeOverflow;
  new_range first last.

Definition required_reserved_ranges (b : BootInfo) : R (list PageRange) :=
  kernel ← new_range (kernel_phys_start b) (kernel_phys_end b);
  bundle ← sized_range (init_bundle_phys b) (init_bundle_len b);
  font ← sized_range (font_phys b) (font_len b);
  framebuffer ← sized_range (framebuffer_base b) (framebuffer_length b);
  Ok [kernel; bundle; font; framebuffer].

Definition page_owner (d : RawMemoryDescriptor) (reserved : list PageRange) (page : Z) : PageOwner :=
  if negb (memory_type d =? EFI_CONVENTIONAL_MEMORY) then PageReserved
  else if existsb (fun r => contains_page r page) reserved then PageReserved
  else PageFree.

Definition descriptor_end_page (d : RawMemoryDescriptor) : R Z :=
  reject (negb (physical_start d mod PAGE_SIZE =? 0) || (number_of_pages d =? 0)) BadMemoryMap;;
  byte_len ← ok_or (checked_mul 64 (number_of_pages d) PAGE_SIZE) RangeOverflow;
  last ← ok_or (checked_add 64 (physical_start d) byte_len) RangeOverflow;
  Ok (last / PAGE_SIZE).

Definition is_allocated (bitmap : list Z) (page : Z) : R bool :=
  word ← index bitmap (page / 64);
  Ok (negb (Z.land word (Z.shiftl 1 (page mod 64)) =? 0)).

Definition set_allocated (bitmap : list Z) (page : Z) : R (list Z) :=
  word ← index bitmap (page / 64);
  index_set bitmap (page / 64) (Z.lor word (Z.shiftl 1 (page mod 64))).

Definition clear_allocated (bitmap : list Z) (page : Z) : R (list Z) :=
  word ← index bitmap (page / 64);
  index_set bitmap (page / 64) (Z.ldiff word (Z.shiftl 1 (page mod 64))).

(** ** Initialization *)

Abbreviation bitmap_action := (action (list Z) MemoryError).

Definition on_bitmap (f : list Z -> R (list Z)) : bitmap_action unit :=
  bitmap ← reads f;
  update (fun _ => bitmap).

(** [count.checked_add(1).ok_or(RangeOverflow)?] *)
Definition count_up (n : Z) : R Z := ok_or (checked_add 64 n 1) RangeOverflow.

(** One page of a descriptor: the counters of all, free and reserved pages. *)
Definition page_round (d : RawMemoryDescriptor) (reserved : list PageRange) (s : Z * Z * Z) (page : Z) : bitmap_action (Z * Z * Z) :=
  let '(total, free, taken) := s in
  total ← pure (count_up total);
  match page_owner d reserved page with
  | PageFree =>
      on_bitmap (fun bitmap => clear_allocated bitmap page);;
      free ← pure (count_up free);
      mret (total, free, taken)
  | PageReserved =>
      on_bitmap (fun bitmap => set_allocated bitmap page);;
      taken ← pure (count_up taken);
      mret (total, free, taken)
  end.

Section initialize.
Variable raw_read : Z -> RawMemoryDescriptor.

Definition read_descriptor (b : BootInfo) (i : Z) : R RawMemoryDescriptor :=
  offset ← ok_or (checked_mul 64 i (memory_descriptor_size b)) RangeOverflow;
  reject (memory_map_len b <=? offset) BadMemoryMap;;
  address ← ok_or (checked_add 64 (memory_map_ptr b) offset) RangeOverflow;
  Ok (raw_read address).

Definition descriptor_round (b : BootInfo) (reserved : list PageRange) (s : Z * Z * Z) (i : Z) : bitmap_action (Z * Z * Z) :=
  d ← pure (read_descriptor b i);
  last ← pure (descriptor_end_page d);
  if MAX_MANAGED_PAGES <? last then mret s
  else foldA (page_round d reserved) s (range (physical_start d / PAGE_SIZE) last).

Definition initialize (b : BootInfo) : bitmap_action PhysicalMemory :=
  pure (reject ((memory_descriptor_size b <? RAW_DESCRIPTOR_SIZE) || (memory_map_len b =? 0) ||
                negb (memory_map_len b mod memory_descriptor_size b =? 0)) BadDescriptorSize);;
  reserved ← pure (required_reserved_ranges b);
  update (fun _ => replicate (Z.to_nat BITMAP_WORDS) (2 ^ 64 - 1));;
  s ← foldA (descriptor_round b reserved) (0, 0, 0) (range 0 (memory_map_len b / memory_descriptor_size b));
  let '(total, free, taken) := s in
  pure (reject ((total =? 0) || (free =? 0)) BadMemoryMap);;
  mret {| total_pages := total; free_pages := free; reserved_pages := taken |}.
End initialize.

(** ** Allocation *)

Abbreviation page_action := (action (list Z * PhysicalMemory) MemoryError).

Definition set_counts (free taken : Z) (m : PhysicalMemory) : PhysicalMemory :=
  {| total_pages := total_pages m; free_pages := free; reserved_pages := taken |}.

(** [checked_sub] *)
Definition count_down (n : Z) : R Z := ok_or (if n =? 0 then None else Some (n - 1)) BadMemoryMap.

(** The loop over the given pages up to the first free one. *)
Fixpoint first_page (bitmap : list Z) (pages : list Z) : R (option Z) :=
  match pages with
  | [] => Ok None
  | page :: rest =>
      used ← is_allocated bitmap page;
      if used : bool then first_page bitmap rest else Ok (Some page)
  end.

Definition allocate_unzeroed_page : page_action Z :=
  found ← reads (fun st => first_page (fst st) (range (MIN_ALLOCATABLE_PHYSICAL / PAGE_SIZE) MAX_MANAGED_PAGES));
  page ← pure (ok_or found OutOfMemory);
  on_fst (on_bitmap (fun bitmap => set_allocated bitmap page));;
  free ← reads (fun st => count_down (free_pages (snd st)));
  on_snd (update (fun m => set_counts free (reserved_pages m) m));;
  taken ← reads (fun st => count_up (reserved_pages (snd st)));
  on_snd (update (fun m => set_counts (free_pages m) taken m));;
  pure (ok_or (checked_mul 64 page PAGE_SIZE) RangeOverflow).

Definition release_allocated_page (physical : Z) : page_action unit :=
  pure (reject (negb (physical mod PAGE_SIZE =? 0)) BadMemoryMap);;
  let page := physical / PAGE_SIZE in
  pure (reject ((MAX_MANAGED_PAGES <=? page) || (physical <? MIN_ALLOCATABLE_PHYSICAL)) OutOfManagedRange);;
  used ← reads (fun st => is_allocated (fst st) page);
  pure (reject (negb used) NotAllocated);;
  on_fst (on_bitmap (fun bitmap => clear_allocated bitmap page));;
  free ← reads (fun st => count_up (free_pages (snd st)));
  on_snd (update (fun m => set_counts free (reserved_pages m) m));;
  taken ← reads (fun st => count_down (reserved_pages (snd st)));
  on_snd (update (fun m => set_counts (free_pages m) taken m)).
End Physical.
Import Physical.

(** ** Bitmaps *)

Definition pages_ok (bm : list Z) : Prop := len bm = BITMAP_WORDS.
Definition managed (p : Z) : Prop := 0 <= p < MAX_MANAGED_PAGES.

Lemma page_word bm p : pages_ok bm -> managed p -> 0 <= p / 64 < len bm.
Proof.
  unfold pages_ok, managed. intros ->. change MAX_MANAGED_PAGES with 1048576. change BITMAP_WORDS with 16384. intros Hp.
  split; [apply Z.div_pos|apply Z.div_lt_upper_bound]; lia.
Qed.

Lemma is_allocated_spec bm p R : pages_ok bm -> managed p -> wp (is_allocated bm p) (fun u => u = true <-> marked bm p) R.
Proof.
  intros Hb Hp. unfold is_allocated. apply wp_bind, wp_index; [by apply page_word|]. intros w Hw. apply wp_ok.
  by rewrite negb_true_iff, marked_test.
Qed.

Lemma set_allocated_spec bm p :
  pages_ok bm -> managed p ->
  wp (set_allocated bm p) (fun bm' => pages_ok bm' /\ forall q, marked bm' q <-> marked bm q \/ q = p) (fun _ => False).
Proof.
  intros Hb Hp. unfold set_allocated. apply wp_bind, wp_index; [by apply page_word|]. intros w Hw. apply wp_index_set; [by apply page_word|].
  split; [unfold pages_ok; by rewrite len_insert|]. intros q. exact (marked_put true bm p w q Hw).
Qed.

Lemma clear_allocated_spec bm p :
  pages_ok bm -> managed p ->
  wp (clear_allocated bm p) (fun bm' => pages_ok bm' /\ forall q, marked bm' q <-> marked bm q /\ q <> p) (fun _ => False).
Proof.
  intros Hb Hp. unfold clear_allocated. apply wp_bind, wp_index; [by apply page_word|]. intros w Hw. apply wp_index_set; [by apply page_word|].
  split; [unfold pages_ok; by rewrite len_insert|]. intros q. exact (marked_put false bm p w q Hw).
Qed.

Lemma full_bitmap_marked p : managed p -> marked (replicate (Z.to_nat BITMAP_WORDS) (2 ^ 64 - 1)) p.
Proof.
  intros Hp. set (bm := replicate _ _). assert (pages_ok bm) as Hb by (unfold pages_ok, bm, len; rewrite length_replicate; done).
  destruct (proj2 (get_is_Some bm (p / 64)) (page_word bm p Hb Hp)) as [w Hw]. exists w. split; [done|].
  apply get_replicate in Hw as [-> _]. change (2 ^ 64 - 1) with (Z.ones 64). apply Z.ones_spec_low, Z.mod_pos_bound. lia.
Qed.

(** ** The bitmap after initialization *)

(** A descriptor as it lies in memory, with unsigned fields. *)
Definition descriptor_rep (d : RawMemoryDescriptor) : Prop := 0 <= physical_start d /\ 0 <= number_of_pages d.

Definition first_of (d : RawMemoryDescriptor) : Z := physical_start d / 4096.
Definition last_of (d : RawMemoryDescriptor) : Z := (physical_start d + number_of_pages d * 4096) / 4096.

(** The descriptor lies in the managed range and covers the page. *)
Definition covers (d : RawMemoryDescriptor) (p : Z) : bool :=
  (last_of d <=? MAX_MANAGED_PAGES) && (first_of d <=? p) && (p <? last_of d).

(** The owner that the last descriptor covering the page gives it. *)
Definition last_owner (reserved : list PageRange) (ds : list RawMemoryDescriptor) (p : Z) : option PageOwner :=
  foldl (fun o d => if covers d p then Some (page_owner d reserved p) else o) None ds.

Lemma last_owner_snoc reserved ds d p :
  last_owner reserved (ds ++ [d]) p = if covers d p then Some (page_owner d reserved p) else last_owner reserved ds p.
Proof. unfold last_owner. by rewrite foldl_app. Qed.

Definition bitmap_of (reserved : list PageRange) (ds : list RawMemoryDescriptor) (bm : list Z) : Prop :=
  pages_ok bm /\ forall p, managed p -> (~ marked bm p) <-> last_owner reserved ds p = Some PageFree.

Definition counted (s : Z * Z * Z) : Prop := s.1.1 = s.1.2 + s.2 /\ uint 64 s.1.2 /\ uint 64 s.2.

Lemma descriptor_end_page_spec d :
  wp (descriptor_end_page d) (fun last => last = last_of d) (fun _ => True).
Proof.
  unfold descriptor_end_page. act_step. act_step; [intros _|done]. act_step. act_step; [intros bl [-> _]%checked_Some|done].
  act_step. act_step; [intros la [-> _]%checked_Some|done]. act_step. done.
Qed.

Lemma wpA_on_bitmap (f : list Z -> outcome MemoryError (list Z)) bm (Q : unit -> list Z -> Prop) R :
  wp (f bm) (fun bm' => Q tt bm') (fun e => R e bm) -> wpA (on_bitmap f) bm Q R.
Proof. intros Hf. unfold on_bitmap. act_step. act_step. eapply wp_mono; [exact Hf| |done]. intros bm' HQ. act_step. exact HQ. Qed.

Lemma count_up_spec n : wp (count_up n) (fun m => m = n + 1 /\ uint 64 m) (fun _ => True).
Proof. unfold count_up. act_step; [by intros m [-> ?]%checked_Some|done]. Qed.

(** One page gets its owner. *)
Lemma page_round_spec d reserved s p bm :
  pages_ok bm -> managed p -> counted s ->
  wpA (page_round d reserved s p) bm
    (fun s' bm' => counted s' /\ pages_ok bm' /\
       forall q, (~ marked bm' q) <-> if decide (q = p) then page_owner d reserved p = PageFree else ~ marked bm q)
    (fun _ _ => True).
Proof.
  intros Hb Hp Hc. destruct s as [[total free] taken]. destruct Hc as (Ht & Hf & Hk). cbn [fst snd] in *. unfold page_round.
  act_step. act_step. eapply wp_mono; [apply count_up_spec| |done]. intros total' [-> _].
  destruct (page_owner d reserved p) eqn:Ho.
  - act_step. apply wpA_on_bitmap. eapply wp_mono; [by apply clear_allocated_spec| |done]. intros bm' [Hb' Hm].
    act_step. act_step. eapply wp_mono; [apply count_up_spec| |done]. intros free' [-> Hf']. act_step.
    split; [split_and!; cbn; done || lia|]. split; [done|]. intros q. rewrite Hm. case_decide; naive_solver.
  - act_step. apply wpA_on_bitmap. eapply wp_mono; [by apply set_allocated_spec| |done]. intros bm' [Hb' Hm].
    act_step. act_step. eapply wp_mono; [apply count_up_spec| |done]. intros taken' [-> Hk']. act_step.
    split; [split_and!; cbn; done || lia|]. split; [done|]. intros q. rewrite Hm. case_decide; [subst|]; naive_solver.
Qed.

Section init_facts.
Variables (raw_read : Z -> RawMemoryDescriptor) (b : BootInfo) (reserved : list PageRange).
Hypothesis (Hraw : forall a, descriptor_rep (raw_read a)).

Definition descriptor (i : Z) : RawMemoryDescriptor := raw_read (memory_map_ptr b + i * memory_descriptor_size b).

Definition descriptors : list RawMemoryDescriptor :=
  descriptor <$> range 0 (memory_map_len b / memory_descriptor_size b).

Lemma read_descriptor_spec i : wp (read_descriptor raw_read b i) (fun d => d = descriptor i) (fun _ => True).
Proof.
  unfold read_descriptor. act_step. act_step; [intros off [-> _]%checked_Some|done]. act_step. act_step; [intros _|done].
  act_step. act_step; [intros a [-> _]%checked_Some|done]. act_step. done.
Qed.

(** The pages of one descriptor get their owners, and no other page does. *)
Lemma descriptor_round_spec ds s i bm :
  bitmap_of reserved ds bm -> counted s ->
  wpA (descriptor_round raw_read b reserved s i) bm
    (fun s' bm' => counted s' /\ bitmap_of reserved (ds ++ [descriptor i]) bm') (fun _ _ => True).
Proof.
  intros [Hb Hm] Hc. unfold descriptor_round. act_step. act_step. eapply wp_mono; [apply read_descriptor_spec| |done]. intros d ->.
  set (d := descriptor i). destruct (Hraw (memory_map_ptr b + i * memory_descriptor_size b)) as [Hps Hpn].
  fold (descriptor i) in Hps, Hpn. fold d in Hps, Hpn.
  act_step. act_step. eapply wp_mono; [apply descriptor_end_page_spec| |done]. intros last ->.
  assert (0 <= first_of d <= last_of d) as Hfl.
  { unfold first_of, last_of. split; [apply Z.div_pos; lia|]. apply Z.div_le_mono; lia. }
  destruct (Z.ltb_spec MAX_MANAGED_PAGES (last_of d)) as [Hout|Hin].
  - act_step. split; [done|]. split; [done|]. intros p Hp. rewrite last_owner_snoc, (Hm p Hp). unfold covers. by replace (last_of d <=? MAX_MANAGED_PAGES) with false by lia.
  - pose proof (wpA_foldA (page_round d reserved) (fun j s' bm' => counted s' /\ pages_ok bm' /\
      forall q, managed q -> (~ marked bm' q) <-> if decide (first_of d <= q < first_of d + Z.of_nat j)
        then page_owner d reserved q = PageFree else ~ marked bm q) (fun _ _ => True) (range (first_of d) (last_of d)) s bm) as Hw.
    change (physical_start d / PAGE_SIZE) with (first_of d). eapply wpA_mono; [apply Hw; clear Hw| |done].
    + split; [done|]. split; [done|]. intros q _. case_decide; [lia|done].
    + intros j p s' bm' [-> Hj]%lookup_range (Hc' & Hb' & Hq).
      eapply wpA_mono; [apply page_round_spec; [done|unfold managed; lia|done]| |done].
      intros s2 bm2 (Hc2 & Hb2 & Hq2). split; [done|]. split; [done|]. intros q Hqm. rewrite Hq2. case_decide as Hqp.
      * subst q. rewrite decide_True by lia. done.
      * rewrite (Hq q Hqm). do 2 case_decide; done || lia.
    + intros s' bm'. rewrite length_range. intros (Hc' & Hb' & Hq). split; [done|]. split; [done|]. intros p Hp. rewrite last_owner_snoc, (Hq p Hp).
      replace (first_of d + Z.of_nat (Z.to_nat (last_of d - first_of d))) with (last_of d) by lia. unfold covers.
      rewrite (proj2 (Z.leb_le _ _) Hin). cbn [andb].
      destruct (decide (first_of d <= p < last_of d)) as [Hcov|Hcov].
      * replace ((first_of d <=? p) && (p <? last_of d)) with true by lia. split; [by intros ->|by intros [= ->]].
      * replace ((first_of d <=? p) && (p <? last_of d)) with false by lia. by apply Hm.
Qed.
End init_facts.

(** A successful initialization: the reserved ranges, the exact bitmap and the
    counters. *)
Definition initialized (raw_read : Z -> RawMemoryDescriptor) (b : BootInfo) (reserved : list PageRange) (m : PhysicalMemory) (bm : list Z) : Prop :=
  required_reserved_ranges b = Ok reserved /\ bitmap_of reserved (descriptors raw_read b) bm /\
  total_pages m = free_pages m + reserved_pages m /\ 0 < free_pages m /\ uint 64 (free_pages m) /\ uint 64 (reserved_pages m).

Lemma range_total first last (R : MemoryError -> Prop) : (forall e, R e) -> wp (new_range first last) (fun _ => True) R.
Proof.
  intros HR. unfold new_range. act_step. act_step; [intros _|intros _; apply HR]. act_step. act_step; [intros s _|intros _; apply HR].
  act_step. act_step; [intros _|intros _; apply HR]. by act_step.
Qed.

Lemma sized_range_total first n (R : MemoryError -> Prop) : (forall e, R e) -> wp (sized_range first n) (fun _ => True) R.
Proof. intros HR. unfold sized_range. act_step. act_step; [intros l _|intros _; apply HR]. by apply range_total. Qed.

Lemma reserved_total b : wp (required_reserved_ranges b) (fun rs => required_reserved_ranges b = Ok rs) (fun _ => True).
Proof.
  assert (wp (required_reserved_ranges b) (fun _ => True) (fun _ => True)) as Hw.
  { unfold required_reserved_ranges. act_step. eapply wp_mono; [by apply (range_total _ _ (fun _ => True))| |done]. intros r1 _.
    act_step. eapply wp_mono; [by apply (sized_range_total _ _ (fun _ => True))| |done]. intros r2 _.
    act_step. eapply wp_mono; [by apply (sized_range_total _ _ (fun _ => True))| |done]. intros r3 _.
    act_step. eapply wp_mono; [by apply (sized_range_total _ _ (fun _ => True))| |done]. intros r4 _. by act_step. }
  unfold wp in *. by destruct (required_reserved_ranges b).
Qed.

Lemma bitmap_initialize_spec raw_read b bm0 :
  (forall a, descriptor_rep (raw_read a)) ->
  wpA (initialize raw_read b) bm0 (fun m bm => exists reserved, initialized raw_read b reserved m bm) (fun _ _ => True).
Proof.
  intros Hraw. unfold initialize. act_step. act_step. act_step; [intros _|done]. act_step. act_step.
  eapply wp_mono; [apply reserved_total| |done]. intros reserved Hres. act_step. act_step. act_step.
  set (n := memory_map_len b / memory_descriptor_size b).
  pose proof (wpA_foldA (descriptor_round raw_read b reserved) (fun i s bm => counted s /\ bitmap_of reserved (take i (descriptors raw_read b)) bm)
    (fun _ _ => True) (range 0 n) (0, 0, 0) (replicate (Z.to_nat BITMAP_WORDS) (2 ^ 64 - 1))) as Hw. cbv beta in Hw.
  rewrite length_range, Z.sub_0_r in Hw. eapply wpA_mono; [apply Hw; clear Hw| |done].
  - split; [done|]. split; [unfold pages_ok, len; rewrite length_replicate; done|]. intros p Hp. split; [|done].
    intros Hn. by destruct (Hn (full_bitmap_marked p Hp)).
  - intros i x s bm [-> Hi]%lookup_range [Hc Hb].
    assert (descriptors raw_read b !! i = Some (descriptor raw_read b (0 + Z.of_nat i))) as Hd.
    { unfold descriptors. rewrite list_lookup_fmap. fold n. by rewrite (proj2 (lookup_range 0 n i (0 + Z.of_nat i))) by lia. }
    rewrite (take_S_r _ i _ Hd). by apply descriptor_round_spec.
  - intros [[total free] taken] bm [(Ht & Hf & Hk) Hb]. cbn [fst snd] in *.
    rewrite take_ge in Hb by (unfold descriptors; rewrite length_fmap, length_range; fold n; lia).
    act_step. act_step. act_step; [intros [_ Hz%Z.eqb_neq]%orb_false_iff|done]. act_step. exists reserved. split; [done|]. split; [done|]. cbn. unfold uint in *. lia.
Qed.

(** ** Single pages *)

Definition lowest : Z := 512.

Lemma first_page_spec bm k R :
  pages_ok bm -> 0 <= k ->
  wp (first_page bm (range k MAX_MANAGED_PAGES))
    (fun o => match o with
       | Some p => k <= p < MAX_MANAGED_PAGES /\ ~ marked bm p /\ forall q, k <= q < p -> marked bm q
       | None => forall q, k <= q < MAX_MANAGED_PAGES -> marked bm q
       end) R.
Proof.
  intros Hb. remember (Z.to_nat (MAX_MANAGED_PAGES - k)) as n eqn:Hn. revert k Hn. induction n as [|n IH]; intros k Hn Hk.
  - rewrite range_nil by lia. apply wp_ok. intros q Hq. lia.
  - rewrite range_cons by lia. cbn [first_page]. apply wp_bind. eapply wp_mono; [apply (is_allocated_spec _ _ R); [done|unfold managed; lia]| |done].
    intros [] Hu.
    + eapply wp_mono; [apply IH; lia| |done]. assert (marked bm k) as Hmk by by apply Hu. intros [p|].
      * intros (Hp & Hfree & Hall). split; [lia|]. split; [done|]. intros q Hq. destruct (decide (q = k)) as [->|]; [done|]. apply Hall. lia.
      * intros Hall q Hq. destruct (decide (q = k)) as [->|]; [done|]. apply Hall. lia.
    + apply wp_ok. split; [lia|]. split; [intros Hm; by apply Hu in Hm|]. intros q Hq. lia.
Qed.

(** The counters of free and reserved pages are [u64]. *)
Definition counts_ok (m : PhysicalMemory) : Prop := uint 64 (free_pages m) /\ uint 64 (reserved_pages m).

(** The lowest free page is taken. *)
Record page_taken (bm : list Z) (m : PhysicalMemory) (a : Z) (st : list Z * PhysicalMemory) : Prop := {
  tk_address : a = a / 4096 * 4096 /\ lowest <= a / 4096 < MAX_MANAGED_PAGES;
  tk_free : ~ marked bm (a / 4096);
  tk_lowest : forall q, lowest <= q < a / 4096 -> marked bm q;
  tk_ok : pages_ok st.1;
  tk_marked : forall q, marked st.1 q <-> marked bm q \/ q = a / 4096;
  tk_counts : free_pages st.2 = free_pages m - 1 /\ reserved_pages st.2 = reserved_pages m + 1 /\ total_pages st.2 = total_pages m;
  tk_uint : counts_ok st.2;
}.

Lemma allocate_page_spec bm m :
  pages_ok bm -> counts_ok m ->
  wpA allocate_unzeroed_page (bm, m) (page_taken bm m)
    (fun e st => pages_ok st.1 /\ counts_ok st.2 /\ (forall q, marked bm q -> marked st.1 q) /\
       (e = OutOfMemory /\ st = (bm, m) /\ (forall q, lowest <= q < MAX_MANAGED_PAGES -> marked bm q) \/
        e = BadMemoryMap /\ free_pages m = 0 \/ e = RangeOverflow /\ reserved_pages m = 2 ^ 64 - 1)).
Proof.
  intros Hb Hcounts. pose proof Hcounts as [Hfr Hres]. unfold allocate_unzeroed_page. change (MIN_ALLOCATABLE_PHYSICAL / PAGE_SIZE) with 512. act_step. act_step. cbn [fst snd].
  eapply wp_mono; [by apply (first_page_spec bm 512 (fun _ => False))| |done]. intros [p|] Hp; act_step; act_step; cbn [ok_or].
  2:{ split; [done|]. split; [done|]. split; [done|]. by left. }
  destruct Hp as (Hp & Hfree & Hlow). act_step. act_step. apply wpA_on_fst, wpA_on_bitmap.
  eapply wp_mono; [apply set_allocated_spec; [done|unfold managed; lia]| |done]. intros bm' [Hb' Hm].
  assert (forall q, marked bm q -> marked bm' q) as Hmono by (intros q Hq; apply Hm; by left).
  act_step. act_step. cbn [fst snd]. unfold count_down. destruct (Z.eqb_spec (free_pages m) 0) as [Hz|Hz]; cbn [ok_or].
  { split; [done|]. split; [done|]. split; [done|]. right. by left. }
  act_step. act_step. apply wpA_on_snd. act_step. act_step. act_step. cbn [fst snd set_counts reserved_pages]. unfold count_up.
  act_step; [intros taken [-> Htaken]%checked_Some|].
  2:{ intros Hn%checked_None. split; [done|]. split; [split; [unfold uint in *; cbn; lia|done]|]. split; [done|]. right. right. split; [done|]. unfold uint in *. lia. }
  act_step. apply wpA_on_snd. act_step. act_step. unfold checked_mul. change MAX_MANAGED_PAGES with 1048576 in *. change PAGE_SIZE with 4096.
  rewrite checked_id by (unfold uint; lia). cbn [ok_or]. apply wp_ok. split; cbn [fst snd set_counts free_pages reserved_pages total_pages];
    rewrite ?Z_div_mult by lia; try done. split; [unfold uint in *; cbn; lia|done].
Qed.

Lemma release_page_spec bm m a :
  pages_ok bm -> counts_ok m -> 0 <= a ->
  wpA (release_allocated_page a) (bm, m)
    (fun _ st => pages_ok st.1 /\ counts_ok st.2 /\ a mod 4096 = 0 /\ (forall q, marked st.1 q <-> marked bm q /\ q <> a / 4096) /\
       free_pages st.2 = free_pages m + 1 /\ reserved_pages st.2 = reserved_pages m - 1 /\ total_pages st.2 = total_pages m)
    (fun e st => pages_ok st.1 /\ counts_ok st.2 /\
       (st = (bm, m) /\ (e = BadMemoryMap /\ a mod 4096 <> 0 \/ e = OutOfManagedRange /\ ~ (lowest <= a / 4096 < MAX_MANAGED_PAGES) \/
          e = NotAllocated /\ ~ marked bm (a / 4096)) \/
        a mod 4096 = 0 /\ (forall q, marked st.1 q <-> marked bm q /\ q <> a / 4096) /\
        (e = RangeOverflow /\ free_pages m = 2 ^ 64 - 1 \/ e = BadMemoryMap /\ reserved_pages m = 0))).
Proof.
  intros Hb Hcounts Ha. pose proof Hcounts as [Hfr Hres]. unfold release_allocated_page. change PAGE_SIZE with 4096. change MIN_ALLOCATABLE_PHYSICAL with 2097152.
  act_step. act_step. act_step; [intros Hmod%negb_false_iff%Z.eqb_eq|intros Hmod%negb_true_iff%Z.eqb_neq; split; [done|]; split; [done|]; left; by auto].
  act_step. act_step. pose proof (Z.div_mod a 4096) as Hdiv. rewrite Hmod in Hdiv. act_step.
  2:{ intros Hr. split; [done|]. split; [done|]. left. split; [done|]. right. left. split; [done|]. unfold lowest.
      rewrite orb_true_iff, Z.leb_le, Z.ltb_lt in Hr. lia. }
  intros [Hmax%Z.leb_gt Hlow%Z.ltb_ge]%orb_false_iff. assert (managed (a / 4096)) as Hman by (unfold managed; lia).
  act_step. act_step. cbn [fst snd]. eapply wp_mono; [by apply (is_allocated_spec bm (a / 4096) (fun _ => False))| |done]. intros used Hu.
  act_step. act_step. act_step; [intros Hused%negb_false_iff|intros Hused%negb_true_iff].
  2:{ split; [done|]. split; [done|]. left. split; [done|]. right. right. split; [done|]. intros Hm. apply Hu in Hm. congruence. }
  act_step. apply wpA_on_fst, wpA_on_bitmap. eapply wp_mono; [by apply clear_allocated_spec| |done]. intros bm' [Hb' Hm].
  act_step. act_step. cbn [fst snd]. unfold count_up. act_step; [intros free [-> Hfree]%checked_Some|].
  2:{ intros Hn%checked_None. split; [done|]. split; [done|]. right. split; [done|]. split; [done|]. left. split; [done|]. unfold uint in *. lia. }
  act_step. apply wpA_on_snd. act_step. act_step. act_step. cbn [fst snd set_counts reserved_pages]. unfold count_down.
  destruct (Z.eqb_spec (reserved_pages m) 0) as [Hz|Hz]; cbn [ok_or].
  { split; [done|]. split; [by split|]. right. split; [done|]. split; [done|]. by right. }
  act_step. apply wpA_on_snd. act_step. cbn [fst snd]. split; [done|]. split; [split; [done|unfold uint in *; cbn; lia]|]. split; [done|]. by split.
Qed.

(** A reserved page at or above 2 MiB is released like one that was handed out:
    the bitmap does not tell them apart. *)
Lemma release_accepts_reserved_page bm m p :
  pages_ok bm -> counts_ok m -> lowest <= p < MAX_MANAGED_PAGES -> marked bm p ->
  free_pages m < 2 ^ 64 - 1 -> 0 < reserved_pages m ->
  exists st, release_allocated_page (p * 4096) (bm, m) = (Ok tt, st) /\ ~ marked st.1 p.
Proof.
  intros Hb Hc Hp Hm Hf Hr. assert (0 <= p * 4096) as H0 by (unfold lowest in Hp; lia).
  pose proof (release_page_spec bm m (p * 4096) Hb Hc H0) as Hw. unfold wpA in Hw. rewrite Z_div_mult, Z_mod_mult in Hw by lia.
  destruct (release_allocated_page (p * 4096) (bm, m)) as [[[]|e| |] st]; [| |done|done].
  - exists st. split; [done|]. destruct Hw as (_ & _ & _ & Hq & _). rewrite Hq. tauto.
  - destruct Hw as (_ & _ & [(_ & [[_ []]|[[_ []]|[_ []]]])|(_ & _ & [[_ ?]|[_ ?]])]); done || lia.
Qed.

(** ** Histories of pages *)

(** The pages in use, the addresses that were released while no page in use
    had them, and the bitmap with the counters. *)
Definition page_history : Type := list Z * list Z * (list Z * PhysicalMemory).

(** Any page is allocated and any address released. A page in use that is
    released is no longer in use, whatever the call returns. *)
Inductive page_step : page_history -> page_history -> Prop :=
| step_allocated used stray st a st' :
    allocate_unzeroed_page st = (Ok a, st') -> page_step (used, stray, st) (a :: used, stray, st')
| step_refused used stray st e st' :
    allocate_unzeroed_page st = (Err e, st') -> page_step (used, stray, st) (used, stray, st')
| step_released used stray st a r st' :
    a ∈ used -> release_allocated_page a st = (r, st') ->
    page_step (used, stray, st) (filter (fun x => x <> a) used, stray, st')
| step_stray used stray st a r st' :
    0 <= a -> a ∉ used -> release_allocated_page a st = (r, st') -> page_step (used, stray, st) (used, a :: stray, st').

(** The page [p] was free in [bm0], or was released without being in use. *)
Definition page_available (bm0 : list Z) (stray : list Z) (p : Z) : Prop := ~ marked bm0 p \/ p * 4096 ∈ stray.

(** Pages in use are distinct, allocated and were available. *)
Record pages_inv (bm0 : list Z) (used stray : list Z) (st : list Z * PhysicalMemory) : Prop := {
  pi_ok : pages_ok st.1 /\ counts_ok st.2;
  pi_used : NoDup used;
  pi_pages : forall a, a ∈ used ->
    a = a / 4096 * 4096 /\ lowest <= a / 4096 < MAX_MANAGED_PAGES /\ marked st.1 (a / 4096) /\ page_available bm0 stray (a / 4096);
  pi_free : forall p, managed p -> ~ marked st.1 p -> page_available bm0 stray p;
}.

Lemma allocated_inv bm0 used stray bm m a st :
  pages_inv bm0 used stray (bm, m) -> allocate_unzeroed_page (bm, m) = (Ok a, st) -> pages_inv bm0 (a :: used) stray st.
Proof.
  intros [[Hb Hc] Hnd Hpages Hfree] Hrun.
  pose proof (wpA_ok _ _ _ _ _ _ (allocate_page_spec bm m Hb Hc) Hrun) as [[Had Hlo] Hfr _ Hb' Hm _ Hc']. destruct st as [bm' m']. cbn [fst snd] in *.
  assert (managed (a / 4096)) as Hman by (unfold managed, lowest in *; lia). split; cbn [fst snd].
  - done.
  - constructor; [|done]. intros Hin. destruct (Hpages a Hin) as (_ & _ & Hmk & _). done.
  - intros x [->|Hx]%elem_of_cons; [split_and!; [done|lia|lia|apply Hm; by right|by apply Hfree]|].
    destruct (Hpages x Hx) as (? & ? & ? & ?). split_and!; [done|lia|lia|apply Hm; by left|done].
  - intros p Hp Hn. apply Hfree; [done|]. contradict Hn. apply Hm. by left.
Qed.

Lemma refused_inv bm0 used stray bm m e st :
  pages_inv bm0 used stray (bm, m) -> allocate_unzeroed_page (bm, m) = (Err e, st) -> pages_inv bm0 used stray st.
Proof.
  intros [[Hb Hc] Hnd Hpages Hfree] Hrun.
  pose proof (wpA_err _ _ _ _ _ _ (allocate_page_spec bm m Hb Hc) Hrun) as (Hb' & Hc' & Hmono & _). cbn [fst snd] in *. split; cbn [fst snd]; [done|done| |].
  - intros x Hx. destruct (Hpages x Hx) as (? & ? & ? & ?). split_and!; [done|lia|lia|by apply Hmono|done].
  - intros p Hp Hn. apply Hfree; [done|]. contradict Hn. by apply Hmono.
Qed.

(** A release clears one page or nothing. *)
Lemma release_clears bm m a r bm' m' :
  pages_ok bm -> counts_ok m -> 0 <= a -> release_allocated_page a (bm, m) = (r, (bm', m')) ->
  pages_ok bm' /\ counts_ok m' /\
  (bm' = bm \/ a mod 4096 = 0 /\ forall q, marked bm' q <-> marked bm q /\ q <> a / 4096).
Proof.
  intros Hb Hc Ha Hrun. pose proof (release_page_spec bm m a Hb Hc Ha) as Hw. unfold wpA in Hw. rewrite Hrun in Hw.
  destruct r as [u|e| |]; [|cbn [fst snd] in Hw|done|done].
  - destruct Hw as (? & ? & ? & ? & _). split_and!; [done|done..|]. by right.
  - destruct Hw as (? & ? & [([= -> ->] & _)|(? & ? & _)]); (split_and!; [done|done..|]); [by left|by right].
Qed.

(** The pages in use but the released one stay allocated. *)
Lemma released_inv bm0 used stray bm m a r st used' stray' :
  pages_inv bm0 used stray (bm, m) -> 0 <= a -> release_allocated_page a (bm, m) = (r, st) ->
  NoDup used' -> (forall x, x ∈ used' -> x ∈ used /\ x <> a) -> stray ⊆ stray' ->
  (a ∈ used \/ a ∈ stray') -> pages_inv bm0 used' stray' st.
Proof.
  intros [[Hb Hc] Hnd Hpages Hfree] Ha Hrun Hnd' Hused Hsub Hwhich. destruct st as [bm' m']. cbn [fst snd] in *.
  destruct (release_clears bm m a r bm' m' Hb Hc Ha Hrun) as (Hb' & Hc' & Hclear).
  assert (forall p, page_available bm0 stray p -> page_available bm0 stray' p) as Hmono by (intros p [?|?]; [by left|right; by apply Hsub]).
  split; cbn [fst snd]; [done|done| |].
  - intros x Hx. destruct (Hused x Hx) as [Hin Hne]. destruct (Hpages x Hin) as (Hxa & ? & ? & ?). split_and!; [done|lia|lia| |by apply Hmono].
    destruct Hclear as [->|[Hmod Hm]]; [done|]. apply Hm. split; [done|]. intros Heq. apply Hne. rewrite Hxa, Heq.
    pose proof (Z.div_mod a 4096). lia.
  - intros p Hp Hn. destruct Hclear as [->|[Hmod Hm]]; [by apply Hmono, Hfree|].
    destruct (decide (p = a / 4096)) as [->|Hne].
    + destruct Hwhich as [Hin|Hin]; [apply Hmono; by apply (Hpages a Hin)|]. right.
      assert (a / 4096 * 4096 = a) as -> by (pose proof (Z.div_mod a 4096); lia). done.
    + apply Hmono, Hfree; [done|]. contradict Hn. apply Hm. by split.
Qed.

Lemma page_step_inv bm0 used stray st used' stray' st' :
  page_step (used, stray, st) (used', stray', st') -> pages_inv bm0 used stray st -> pages_inv bm0 used' stray' st'.
Proof.
  intros Hs Hi. destruct st as [bm m]. inversion Hs as [? ? ? a ? Hrun|? ? ? e ? Hrun|? ? ? a r ? Ha Hrun|? ? ? a r ? H0 Ha Hrun]; subst.
  - by eapply allocated_inv.
  - by eapply refused_inv.
  - destruct (pi_pages _ _ _ _ Hi a Ha) as (Had & Hlo & _). eapply (released_inv bm0 used stray' bm m a r); [done| |done| | |done|by left].
    + unfold lowest in Hlo. lia.
    + apply NoDup_filter, Hi.
    + by intros x [Hne Hx]%list_elem_of_filter.
  - eapply (released_inv bm0 used' stray bm m a r); [done|done|done|apply Hi| | |right; by left].
    + intros x Hx. split; [done|]. by intros ->.
    + intros x Hx. by right.
Qed.

Lemma pages_history_inv bm0 h h' :
  rtc page_step h h' -> pages_inv bm0 h.1.1 h.1.2 h.2 -> pages_inv bm0 h'.1.1 h'.1.2 h'.2.
Proof.
  intros Hsteps. induction Hsteps as [|[[u s] t] [[u1 s1] t1] z Hs _ IH]; [done|]. intros Hi. apply IH. by eapply page_step_inv.
Qed.

(** ** Owners *)

(** The page at [a] and the bytes from [first] to [last] have none in common. *)
Definition page_apart (a first last : Z) : Prop := a + 4096 <= first \/ last <= a.

Lemma new_range_apart first last r p :
  new_range first last = Ok r -> contains_page r p = false -> page_apart (p * 4096) first last.
Proof.
  intros Hr Hc. assert (wp (new_range first last) (fun r => start_page r = first / 4096 /\ end_page r = (last + 4095) / 4096) (fun _ => True)) as Hw.
  { unfold new_range. act_step. act_step; [intros _|done]. act_step. act_step; [intros s [-> _]%checked_Some|done]. act_step.
    act_step; [intros _|done]. by act_step. }
  rewrite Hr in Hw. destruct Hw as [Hs He]. unfold contains_page in Hc. rewrite Hs, He in Hc. unfold page_apart.
  pose proof (Z.div_mod first 4096). pose proof (Z.mod_pos_bound first 4096). pose proof (Z.div_mod (last + 4095) 4096). pose proof (Z.mod_pos_bound (last + 4095) 4096).
  apply andb_false_iff in Hc as [Hc%Z.leb_gt|Hc%Z.ltb_ge]; lia.
Qed.

Lemma last_owner_free reserved ds p :
  last_owner reserved ds p = Some PageFree ->
  (exists d, d ∈ ds /\ memory_type d = EFI_CONVENTIONAL_MEMORY /\ first_of d <= p < last_of d) /\
  Forall (fun r => contains_page r p = false) reserved.
Proof.
  induction ds as [|d ds IH] using rev_ind; [done|]. rewrite last_owner_snoc. destruct (covers d p) eqn:Hcov.
  - intros [= Ho]. unfold page_owner in Ho. destruct (negb _) eqn:Ht; [done|]. destruct (existsb _ _) eqn:He; [done|]. split.
    + exists d. split; [apply elem_of_app; right; by left|]. apply negb_false_iff, Z.eqb_eq in Ht. unfold covers in Hcov.
      rewrite !andb_true_iff, !Z.leb_le, Z.ltb_lt in Hcov. split; [done|]. lia.
    + apply Forall_forall. intros r Hr. destruct (contains_page r p) eqn:Hc; [|done]. rewrite (proj2 (existsb_exists _ _)) in He; [done|].
      exists r. split; [by apply list_elem_of_In|done].
  - intros Hl. destruct (IH Hl) as [(d' & Hd & Hrest) Hres]. split; [|done]. exists d'. split; [apply elem_of_app; by left|done].
Qed.

(** Initialization returns without panic on every memory map, and when it
    succeeds a managed page is free exactly when the last descriptor that covers
    it is conventional memory and the page is in none of the four reserved
    ranges; the counters of free and reserved pages add up to the total. *)
Theorem memory_map_bitmap_exact raw_read b bm0 :
  (forall a, descriptor_rep (raw_read a)) ->
  wpA (initialize raw_read b) bm0
    (fun m bm => exists reserved, required_reserved_ranges b = Ok reserved /\
       (forall p, managed p -> (~ marked bm p) <-> last_owner reserved (descriptors raw_read b) p = Some PageFree) /\
       total_pages m = free_pages m + reserved_pages m /\ 0 < free_pages m)
    (fun _ _ => True).
Proof.
  intros Hraw. eapply wpA_mono; [by apply bitmap_initialize_spec| |done].
  intros m bm (reserved & Hres & [_ Hbm] & Hsum & Hfree & _). by exists reserved.
Qed.

Lemma initial_inv raw_read b reserved m bm : initialized raw_read b reserved m bm -> pages_inv bm [] [] (bm, m).
Proof.
  intros (_ & [Hb _] & _ & _ & Hf & Hr). split; cbn [fst snd].
  - done.
  - constructor.
  - intros a Ha. by apply not_elem_of_nil in Ha.
  - intros p _ Hp. by left.
Qed.

(** The page at [a] is conventional memory outside the reserved ranges. *)
Record allocatable (raw_read : Z -> RawMemoryDescriptor) (b : BootInfo) (a : Z) : Prop := {
  al_aligned : a mod 4096 = 0;
  al_range : MIN_ALLOCATABLE_PHYSICAL <= a < MAX_MANAGED_PAGES * 4096;
  al_conventional : exists d, d ∈ descriptors raw_read b /\ memory_type d = EFI_CONVENTIONAL_MEMORY /\ first_of d <= a / 4096 < last_of d;
  al_kernel : page_apart a (kernel_phys_start b) (kernel_phys_end b);
  al_bundle : page_apart a (init_bundle_phys b) (init_bundle_phys b + init_bundle_len b);
  al_font : page_apart a (font_phys b) (font_phys b + font_len b);
  al_framebuffer : page_apart a (framebuffer_base b) (framebuffer_base b + framebuffer_length b);
}.

Lemma reserved_apart b rs p :
  required_reserved_ranges b = Ok rs -> Forall (fun r => contains_page r p = false) rs ->
  page_apart (p * 4096) (kernel_phys_start b) (kernel_phys_end b) /\
  page_apart (p * 4096) (init_bundle_phys b) (init_bundle_phys b + init_bundle_len b) /\
  page_apart (p * 4096) (font_phys b) (font_phys b + font_len b) /\
  page_apart (p * 4096) (framebuffer_base b) (framebuffer_base b + framebuffer_length b).
Proof.
  assert (forall first n r, sized_range first n = Ok r -> contains_page r p = false -> page_apart (p * 4096) first (first + n)) as Hsized.
  { intros first n r Hr. unfold sized_range in Hr. inv_bind Hr. destruct (checked_add 64 first n) as [z|] eqn:Hz; [|done]. apply checked_Some in Hz as [-> _].
    injection Ha as <-. by apply new_range_apart. }
  intros Hr Hall. unfold required_reserved_ranges in Hr. do 4 inv_bind Hr. injection Hr as <-. rewrite !Forall_cons in Hall.
  destruct Hall as (H1 & H2 & H3 & H4 & _). split_and!; [by eapply new_range_apart|by eapply Hsized..].
Qed.

(** C26: physical pages have one owner. After a successful initialization, through
    any allocations and releases of any addresses, failed calls included, the
    pages in use are distinct. Each of them is aligned, lies between 2 MiB and
    4 GiB in conventional memory of the map and shares no byte with the kernel
    image, the init bundle, the font or the framebuffer, unless its address was
    released before while it was not in use: a release does not check that the
    page was handed out, and makes a reserved page available. *)
Theorem pages_owned_once raw_read b bm0 m bm used stray st :
  (forall a, descriptor_rep (raw_read a)) -> initialize raw_read b bm0 = (Ok m, bm) ->
  rtc page_step ([], [], (bm, m)) (used, stray, st) ->
  NoDup used /\ forall a, a ∈ used -> allocatable raw_read b a \/ a ∈ stray.
Proof.
  intros Hraw Hinit Hsteps. destruct (wpA_ok _ _ _ _ _ _ (bitmap_initialize_spec raw_read b bm0 Hraw) Hinit) as (reserved & Hi).
  pose proof (pages_history_inv bm _ _ Hsteps (initial_inv _ _ _ _ _ Hi)) as [_ Hnd Hpages _]. split; [exact Hnd|].
  intros a Ha. destruct (Hpages a Ha) as (Had & Hlo & _ & [Hfree|Hin]); [left|right; by rewrite Had].
  destruct Hi as (Hres & [_ Hbm] & _). apply Hbm in Hfree; [|unfold managed, lowest in *; lia].
  destruct (last_owner_free _ _ _ Hfree) as [Hconv Hall]. destruct (reserved_apart b reserved _ Hres Hall) as (H1 & H2 & H3 & H4).
  rewrite <- Had in H1, H2, H3, H4. unfold lowest in Hlo.
  split; [rewrite Had; apply Z_mod_mult|change MIN_ALLOCATABLE_PHYSICAL with 2097152; change MAX_MANAGED_PAGES with 1048576 in *; lia|done..].
Qed.

(** ** A concrete memory map *)

(** One conventional page at 2 MiB, the fixed ranges above it. *)
Definition demo_descriptor : RawMemoryDescriptor :=
  {| memory_type := EFI_CONVENTIONAL_MEMORY; physical_start := 0x200000; number_of_pages := 1 |}.

Definition demo_boot : BootInfo :=
  {| memory_map_ptr := 0x1000; memory_map_len := 40; memory_descriptor_size := 40;
     kernel_phys_start := 0x400000; kernel_phys_end := 0x500000;
     init_bundle_phys := 0x600000; init_bundle_len := 0x1000;
     font_phys := 0x700000; font_len := 0x1000;
     framebuffer_base := 0x80000000; framebuffer_length := 0x300000 |}.

Definition demo_memory : PhysicalMemory := {| total_pages := 1; free_pages := 1; reserved_pages := 0 |}.

Lemma demo_descriptor_rep (a : Z) : descriptor_rep demo_descriptor.
Proof. by split. Qed.

Lemma demo_initialized : exists bm, initialize (fun _ => demo_descriptor) demo_boot [] = (Ok demo_memory, bm).
Proof.
  assert (fst (initialize (fun _ => demo_descriptor) demo_boot []) = Ok demo_memory) as H by (vm_compute; reflexivity).
  destruct (initialize _ _ _) as [r bm]. exists bm. cbn [fst] in H. by rewrite H.
Qed.

Lemma demo_page_free bm : initialize (fun _ => demo_descriptor) demo_boot [] = (Ok demo_memory, bm) -> pages_ok bm /\ ~ marked bm 512.
Proof.
  intros H. destruct (wpA_ok _ _ _ _ _ _ (bitmap_initialize_spec _ demo_boot [] demo_descriptor_rep) H) as (reserved & Hres & [Hb Hbm] & _).
  split; [exact Hb|]. apply Hbm; [by unfold managed|]. vm_compute in Hres. injection Hres as <-. by vm_compute.
Qed.

Lemma demo_allocates bm :
  pages_ok bm -> ~ marked bm 512 -> exists a st, allocate_unzeroed_page (bm, demo_memory) = (Ok a, st) /\ a = 0x200000.
Proof.
  intros Hb Hfree. assert (counts_ok demo_memory) as Hc by (split; by unfold uint). pose proof (allocate_page_spec bm demo_memory Hb Hc) as Hw.
  unfold wpA in Hw. destruct (allocate_unzeroed_page _) as [[a|e| |] st]; cbn [fst snd] in Hw; [| |done|done].
  - exists a, st. split; [done|]. destruct Hw as [[Had Hlo] _ Hlow _ _ _ _]. unfold lowest in *.
    assert (a / 4096 = 512) as Hp; [|rewrite Had, Hp; done].
    destruct (decide (a / 4096 = 512)) as [|Hne]; [done|]. destruct Hfree. apply Hlow. lia.
  - destruct Hw as (_ & _ & _ & [(_ & _ & Hall)|[[_ Hz]|[_ Hz]]]); [|done..]. destruct Hfree. by apply Hall.
Qed.

Lemma memory_map_bitmap_exact_witness :
  exists bm, initialize (fun _ => demo_descriptor) demo_boot [] = (Ok demo_memory, bm) /\ 0 < free_pages demo_memory.
Proof.
  destruct demo_initialized as [bm H]. exists bm. split; [exact H|].
  destruct (wpA_ok _ _ _ _ _ _ (memory_map_bitmap_exact (fun _ => demo_descriptor) demo_boot [] demo_descriptor_rep) H) as (_ & _ & _ & _ & Hf).
  exact Hf.
Defined.

(** The page is allocated, and an address of the kernel is released. *)
Lemma pages_owned_once_witness :
  exists bm a st st', initialize (fun _ => demo_descriptor) demo_boot [] = (Ok demo_memory, bm) /\
    allocate_unzeroed_page (bm, demo_memory) = (Ok a, st) /\ st' = snd (release_allocated_page 0x400000 st) /\
    (allocatable (fun _ => demo_descriptor) demo_boot a \/ a ∈ [0x400000]).
Proof.
  destruct demo_initialized as [bm H]. destruct (demo_page_free bm H) as [Hb Hfree]. destruct (demo_allocates bm Hb Hfree) as (a & st & Ha & Heq).
  exists bm, a, st, (snd (release_allocated_page 0x400000 st)). split; [exact H|]. split; [exact Ha|]. split; [reflexivity|].
  assert (rtc page_step ([], [], (bm, demo_memory)) ([a], [0x400000], snd (release_allocated_page 0x400000 st))) as Hs.
  { eapply rtc_l; [apply step_allocated; exact Ha|]. eapply rtc_l; [|apply rtc_refl].
    eapply step_stray; [done| |apply surjective_pairing]. intros Hin%list_elem_of_singleton. subst a. discriminate Hin. }
  destruct (pages_owned_once (fun _ => demo_descriptor) demo_boot [] demo_memory bm [a] [0x400000] _ demo_descriptor_rep H Hs) as [_ Hall].
  apply Hall. by left.
Defined.
