(* ===== verification/StorageService.v ===== *)
(** * The storage service

    [core/src/storage_service.rs]: the capability-gated door to the block
    device. A request carries a handle; it becomes an access only when the
    capability table accepts the handle for the storage resource with the
    right of the operation, and the sectors lie on the device. *)

From stdpp Require Import base numbers list gmap relations.
From S2P Require Import Prelude Kernel ServiceIdentity Capabilities.

(** ** Data *)

Definition STORAGE_RESOURCE_ID : ResourceId := 0x570A0001.

Inductive StorageServiceError : Type :=
| Capability (e : CapabilityError)
| Identity (e : ServiceIdentityError)
| InvalidRange.

Inductive StorageOperation : Type := Read | Write.

Record StorageRequest := {
  request_operation : StorageOperation;
  request_start_sector : Z;
  request_sector_count : Z;
}.

Definition read_request (start count : Z) : StorageRequest :=
  {| request_operation := Read; request_start_sector := start; request_sector_count := count |}.
Definition write_request (start count : Z) : StorageRequest :=
  {| request_operation := Write; request_start_sector := start; request_sector_count := count |}.

Record StorageAccess := {
  operation : StorageOperation;
  start_sector : Z;
  sector_count : Z;
}.

(** [core/src/block_device.rs], built without the optional eMMC backend. *)
Record VirtioBlockDevice := {
  virtio_bus : Z;
  virtio_device : Z;
  virtio_function : Z;
  virtio_io_base : Z;
  virtio_capacity_sectors : Z;
  virtio_queue_size : Z;
}.

Record AhciBlockDevice := {
  ahci_bus : Z;
  ahci_device : Z;
  ahci_function : Z;
  ahci_mmio_base : Z;
  ahci_port_index : Z;
  ahci_capacity_sectors : Z;
}.

Inductive BlockDeviceInfo : Type :=
| Virtio (d : VirtioBlockDevice)
| Ahci (d : AhciBlockDevice).

Definition capacity_sectors (d : BlockDeviceInfo) : Z :=
  match d with
  | Virtio d => virtio_capacity_sectors d
  | Ahci d => ahci_capacity_sectors d
  end.

Definition queue_size (d : BlockDeviceInfo) : Z :=
  match d with
  | Virtio d => virtio_queue_size d
  | Ahci _ => 1
  end.

Record StorageService := {
  device : BlockDeviceInfo;
  service_resource : ResourceId;
}.

#[export] Instance storage_operation_eq_decision : EqDecision StorageOperation.
Proof. solve_decision. Defined.

(** ** Operations *)

Definition new_storage_service (d : BlockDeviceInfo) : StorageService :=
  {| device := d; service_resource := STORAGE_RESOURCE_ID |}.

Definition required_rights (request : StorageRequest) : RightsMask :=
  match request_operation request with
  | Read => RIGHT_READ
  | Write => RIGHT_WRITE
  end.

Definition validate_range (sv : StorageService) (request : StorageRequest) :
    outcome StorageServiceError unit :=
  reject (request_sector_count request =? 0) InvalidRange;;
  fin ← ok_or (checked_add 64 (request_start_sector request) (request_sector_count request))
          InvalidRange;
  reject (capacity_sectors (device sv) <? fin) InvalidRange.

Definition authorize_request (sv : StorageService) (t : CapabilityTable) (caller : ServiceId)
    (handle : CapabilityHandle) (request : StorageRequest) :
    outcome StorageServiceError StorageAccess :=
  map_err Capability (validate t caller handle (service_resource sv) (required_rights request));;
  validate_range sv request;;
  Ok {| operation := request_operation request;
        start_sector := request_start_sector request;
        sector_count := request_sector_count request |}.

(** [if authorize(..) != Err(Capability(expected)) { return Err(..) }] *)
Definition expect_refusal (m : outcome StorageServiceError StorageAccess)
    (expected : CapabilityError) : outcome StorageServiceError unit :=
  match m with
  | Err (Capability e) => reject (negb (bool_decide (e = expected))) (Capability expected)
  | Panic => Panic
  | Diverge => Diverge
  | _ => Err (Capability expected)
  end.

Definition storage_self_test (d : BlockDeviceInfo) : outcome StorageServiceError unit :=
  let sv := new_storage_service d in
  '(writer, ids) ← map_err Identity (run (register_task 70) new_identity_table);
  '(intruder, _) ← map_err Identity (run (register_task 71) ids);
  '(write_handle, t) ← map_err Capability
     (run (grant writer STORAGE_RESOURCE_ID (Z.lor RIGHT_READ RIGHT_WRITE)) new_capability_table);
  '(read_only, t) ← map_err Capability (run (grant writer STORAGE_RESOURCE_ID RIGHT_READ) t);
  reject (queue_size (device sv) =? 0) InvalidRange;;
  authorize_request sv t writer read_only (read_request 0 1);;
  authorize_request sv t writer write_handle (write_request 0 1);;
  expect_refusal (authorize_request sv t intruder write_handle (write_request 0 1)) WrongHolder;;
  expect_refusal (authorize_request sv t writer read_only (write_request 0 1)) MissingRights.

(** ** Properties *)

(** The request's fields have their Rust widths. *)
Definition request_wf (request : StorageRequest) : Prop :=
  uint 64 (request_start_sector request) /\ uint 16 (request_sector_count request).

Definition on_device (sv : StorageService) (first count : Z) : Prop :=
  1 <= count /\ first + count <= capacity_sectors (device sv) /\ first + count <= u64_max.

Lemma validate_range_spec sv request :
  request_wf request ->
  wp (validate_range sv request)
    (fun _ => on_device sv (request_start_sector request) (request_sector_count request))
    (fun e => e = InvalidRange /\
       ~ on_device sv (request_start_sector request) (request_sector_count request)).
Proof.
  intros [Hs Hc]. unfold validate_range, on_device, u64_max, uint in *.
  act_step. act_step.
  2:{ intros H%Z.eqb_eq. split; [done|lia]. }
  intros H0%Z.eqb_neq. act_step. act_step.
  2:{ intros H%checked_None. unfold uint in H. split; [done|lia]. }
  intros fin [-> Hf]%checked_Some. unfold uint in Hf. act_step.
  - intros H%Z.ltb_ge. lia.
  - intros H%Z.ltb_lt. split; [done|lia].
Qed.

(** The authorization decision, with its error, on every branch. *)
Lemma authorize_request_spec sv t s caller handle request :
  capability_represents t s -> request_wf request ->
  wp (authorize_request sv t caller handle request)
    (fun a => (exists m, live s !! handle = Some (Authority caller (service_resource sv) m) /\
                 contains m (required_rights request) = true) /\
       on_device sv (start_sector a) (sector_count a) /\
       operation a = request_operation request /\
       start_sector a = request_start_sector request /\
       sector_count a = request_sector_count request)
    (fun e => match e with
       | Capability e => refusal s caller handle (service_resource sv) (required_rights request) e
       | Identity _ => False
       | InvalidRange =>
           ~ on_device sv (request_start_sector request) (request_sector_count request)
       end).
Proof.
  intros Hr Hw. unfold authorize_request. act_step. apply wp_map_err.
  eapply wp_mono; [by apply validate_spec| |done]. intros [] Hv. act_step.
  eapply wp_mono; [by apply validate_range_spec| |by intros e [-> ?]]. intros [] Hd. by apply wp_ok.
Qed.

(** A storage request is authorized exactly when its handle is currently
    valid for the caller on the storage resource with the right of the
    operation, the sector range is not empty, does not wrap around 64 bits and
    ends within the device; the access is the request unchanged, and an
    unauthorized caller learns nothing about the range. *)
Theorem storage_access_exact d t caller handle request :
  capability_reachable t -> request_wf request ->
  match authorize_request (new_storage_service d) t caller handle request with
  | Ok a =>
      validate t caller handle STORAGE_RESOURCE_ID (required_rights request) = Ok tt /\
      on_device (new_storage_service d) (start_sector a) (sector_count a) /\
      a = {| operation := request_operation request;
             start_sector := request_start_sector request;
             sector_count := request_sector_count request |}
  | Err (Capability e) =>
      validate t caller handle STORAGE_RESOURCE_ID (required_rights request) = Err e
  | Err InvalidRange =>
      validate t caller handle STORAGE_RESOURCE_ID (required_rights request) = Ok tt /\
      ~ on_device (new_storage_service d) (request_start_sector request)
          (request_sector_count request)
  | _ => False
  end.
Proof.
  intros (s & Hr)%capability_reachable_represents Hw.
  pose proof (authorize_request_spec (new_storage_service d) t s caller handle request Hr Hw) as H.
  revert H. unfold wp, authorize_request.
  change (service_resource (new_storage_service d)) with STORAGE_RESOURCE_ID.
  destruct (validate t caller handle STORAGE_RESOURCE_ID _) as [[]|e| |] eqn:Hv; simpl; try done.
  pose proof (validate_range_spec (new_storage_service d) request Hw) as Hd. revert Hd.
  destruct (validate_range _ request) as [[]|e| |]; simpl; [|intros [-> ?]|..]; try done.
Qed.

(** A write access never survives the revocation of its handle: after a
    successful revocation the storage service refuses the handle to every
    caller, for every request, for the rest of the table's life. *)
Theorem revoked_handle_has_no_storage sv t t' t2 handle caller request :
  capability_reachable t -> revoke handle t = (Ok tt, t') -> capability_steps t' t2 ->
  is_ok (authorize_request sv t2 caller handle request) = false.
Proof.
  intros Ht Hrev Hs. pose proof (revoked_never_validates t t' t2 handle Ht Hrev Hs) as Hno.
  unfold authorize_request.
  destruct (validate _ _ _ _ _) as [[]| | |] eqn:Hv; [|done..]. by apply Hno in Hv.
Qed.

(** The boot self-test of the storage service passes on every device with
    a queue and at least one sector, and on no other. *)
Lemma storage_self_test_exact d :
  uint 64 (capacity_sectors d) -> uint 16 (queue_size d) ->
  storage_self_test d =
    if (queue_size d =? 0) || (capacity_sectors d =? 0) then Err InvalidRange else Ok tt.
Proof.
  intros Hc Hq. unfold uint in *.
  replace (capacity_sectors d =? 0) with (capacity_sectors d <? 1) by lia.
  unfold storage_self_test, authorize_request.
  change (validate_range (new_storage_service d) (read_request 0 1))
    with (@reject StorageServiceError (capacity_sectors d <? 1) InvalidRange).
  change (validate_range (new_storage_service d) (write_request 0 1))
    with (@reject StorageServiceError (capacity_sectors d <? 1) InvalidRange).
  change (device (new_storage_service d)) with d.
  change (service_resource (new_storage_service d)) with STORAGE_RESOURCE_ID.
  generalize (queue_size d =? 0) (capacity_sectors d <? 1). intros [] []; by vm_compute.
Qed.
