(* ===== verification/StorageJournal.v ===== *)
(** * The storage journal

    [core/src/storage_journal.rs]: an append-only journal of write intents. A
    record is appended uncommitted, and committed in place with a checksum and
    a marker; recovery after a crash replays the longest prefix of valid
    committed records and rolls back the rest. *)

From stdpp Require Import base numbers list gmap relations.
From S2P Require Import Prelude Fnv Kernel ServiceIdentity Capabilities StorageService.

(** ** Data *)

Definition JOURNAL_CAPACITY : Z := 8.
Definition COMMIT_MARKER : Z := 0x5059434D.

Inductive JournalError : Type :=
| Full
| ReadIsNotJournaled
| MissingCommitMarker
| ChecksumMismatch
| JournalStorage (e : StorageServiceError)
| JournalIdentity (e : ServiceIdentityError).

Record JournalRecord := {
  sequence : Z;
  record_operation : StorageOperation;
  record_start_sector : Z;
  record_sector_count : Z;
  checksum : Z;
  commit_marker : Z;
}.

Definition EMPTY_RECORD : JournalRecord :=
  {| sequence := 0; record_operation := Read; record_start_sector := 0;
     record_sector_count := 0; checksum := 0; commit_marker := 0 |}.

Record RecoveryReport := {
  replayed_records : Z;
  rolled_back_records : Z;
  last_sequence : Z;
}.

Record AppendOnlyJournal := {
  journal_records : list JournalRecord;
  journal_len : Z;
  next_sequence : Z;
}.

(** ** Checksums *)

(** One round of the 32-bit FNV-1a loop in [checksum_mix]. *)
Definition mix_byte (c b : Z) : Z := wrap 32 (Z.lxor c (wrap 8 b) * 0x01000193).

Fixpoint mix_bytes (n : nat) (c remaining : Z) : Z :=
  match n with
  | O => c
  | S n' => mix_bytes n' (mix_byte c remaining) (Z.shiftr remaining 8)
  end.

Definition checksum_mix (c value : Z) : Z := mix_bytes 8 c value.
Arguments checksum_mix : simpl never.

Definition operation_code (o : StorageOperation) : Z :=
  match o with Read => 1 | Write => 2 end.

Definition checksum_for (r : JournalRecord) : Z :=
  let c := 0x811C9DC5 in
  let c := checksum_mix c (sequence r) in
  let c := checksum_mix c (operation_code (record_operation r)) in
  let c := checksum_mix c (record_start_sector r) in
  checksum_mix c (record_sector_count r).

Definition validate_committed (r : JournalRecord) : outcome JournalError unit :=
  reject (negb (commit_marker r =? COMMIT_MARKER)) MissingCommitMarker;;
  reject (negb (checksum r =? checksum_for r)) ChecksumMismatch.

(** ** Operations *)

Definition new_journal : AppendOnlyJournal :=
  {| journal_records := replicate (Z.to_nat JOURNAL_CAPACITY) EMPTY_RECORD;
     journal_len := 0; next_sequence := 1 |}.

(** [self.records[i] = r] *)
Definition set_record (i : Z) (r : JournalRecord) : action AppendOnlyJournal JournalError unit :=
  rs ← reads (fun j => index_set (journal_records j) i r);
  update (fun j => {| journal_records := rs; journal_len := journal_len j;
                      next_sequence := next_sequence j |}).

(** [self.len += 1; self.next_sequence = self.next_sequence.wrapping_add(1)];
    the addition on [usize] panics on overflow. *)
Definition advance : action AppendOnlyJournal JournalError unit :=
  n ← reads (fun j => expect (checked_add 64 (journal_len j) 1));
  update (fun j => {| journal_records := journal_records j; journal_len := n;
                      next_sequence := wrap 64 (next_sequence j + 1) |}).

Definition append_write (a : StorageAccess) : action AppendOnlyJournal JournalError JournalRecord :=
  pure (reject (negb (bool_decide (operation a = Write))) ReadIsNotJournaled);;
  n ← reads (fun j => Ok (journal_len j));
  pure (reject (n =? JOURNAL_CAPACITY) Full);;
  seq ← reads (fun j => Ok (next_sequence j));
  let r := {| sequence := seq; record_operation := operation a;
              record_start_sector := start_sector a; record_sector_count := sector_count a;
              checksum := 0; commit_marker := 0 |} in
  set_record n r;;
  advance;;
  mret r.

Definition committed (r : JournalRecord) : JournalRecord :=
  {| sequence := sequence r; record_operation := record_operation r;
     record_start_sector := record_start_sector r; record_sector_count := record_sector_count r;
     checksum := checksum_for r; commit_marker := COMMIT_MARKER |}.

Definition commit_last : action AppendOnlyJournal JournalError JournalRecord :=
  n ← reads (fun j => Ok (journal_len j));
  pure (reject (n =? 0) MissingCommitMarker);;
  r ← reads (fun j => index (journal_records j) (n - 1));
  set_record (n - 1) (committed r);;
  pure (validate_committed (committed r));;
  mret (committed r).

Definition journal_last (j : AppendOnlyJournal) : outcome JournalError (option JournalRecord) :=
  if journal_len j =? 0 then Ok None
  else r ← index (journal_records j) (journal_len j - 1); Ok (Some r).

Definition journal_first_write (sv : StorageService) (t : CapabilityTable) (caller : ServiceId)
    (handle : CapabilityHandle) (request : StorageRequest) :
    action AppendOnlyJournal JournalError JournalRecord :=
  a ← pure (map_err JournalStorage (authorize_request sv t caller handle request));
  append_write a.

(** One round of the loop in [recover_committed_prefix]. *)
Definition recover_round (j : AppendOnlyJournal) (st : Z * Z) :
    outcome JournalError ((Z * Z) + RecoveryReport) :=
  let '(replayed, last) := st in
  if replayed <? journal_len j then
    r ← index (journal_records j) replayed;
    if is_ok (validate_committed r)
    then Ok (inl (replayed + 1, sequence r))
    else Ok (inr {| replayed_records := replayed;
                    rolled_back_records := journal_len j - replayed; last_sequence := last |})
  else Ok (inr {| replayed_records := replayed; rolled_back_records := 0; last_sequence := last |}).

(** The journal holds at most eight records, so nine rounds end the loop. *)
Definition recover_committed_prefix (j : AppendOnlyJournal) : outcome JournalError RecoveryReport :=
  loop (S (Z.to_nat JOURNAL_CAPACITY)) (recover_round j) (0, 0).

(** ** Boot self-tests *)

(** The common prologue: a registered task with a storage capability. *)
Definition journal_writer (task : TaskId) :
    outcome JournalError (ServiceId * CapabilityTable * CapabilityHandle) :=
  '(writer, _) ← map_err JournalIdentity (run (register_task task) new_identity_table);
  '(handle, t) ← map_err (fun e => JournalStorage (Capability e))
     (run (grant writer STORAGE_RESOURCE_ID (Z.lor RIGHT_READ RIGHT_WRITE)) new_capability_table);
  Ok (writer, t, handle).

#[export] Instance journal_record_eq_decision : EqDecision JournalRecord.
Proof. solve_decision. Defined.

Definition journal_self_test (d : BlockDeviceInfo) : outcome JournalError unit :=
  let sv := new_storage_service d in
  '(writer, t, handle) ← journal_writer 72;
  '(r, j) ← run (journal_first_write sv t writer handle (write_request 1 1)) new_journal;
  last ← journal_last j;
  reject (negb (journal_len j =? 1) || negb (bool_decide (last = Some r)) ||
          negb (sequence r =? 1) || negb (record_start_sector r =? 1) ||
          negb (record_sector_count r =? 1)) Full.

(** [if validate_committed(r) != Err(expected) { return Err(expected) }] *)
Definition expect_invalid (r : JournalRecord) (marker_missing : bool) : outcome JournalError unit :=
  match validate_committed r with
  | Err MissingCommitMarker => reject (negb marker_missing) ChecksumMismatch
  | Err ChecksumMismatch => reject marker_missing MissingCommitMarker
  | Panic => Panic
  | Diverge => Diverge
  | _ => Err (if marker_missing then MissingCommitMarker else ChecksumMismatch)
  end.

(** [JournalRecord { checksum, commit_marker, ..r }] *)
Definition with_seal (c m : Z) (r : JournalRecord) : JournalRecord :=
  {| sequence := sequence r; record_operation := record_operation r;
     record_start_sector := record_start_sector r; record_sector_count := record_sector_count r;
     checksum := c; commit_marker := m |}.

Definition commit_marker_self_test (d : BlockDeviceInfo) : outcome JournalError unit :=
  let sv := new_storage_service d in
  '(writer, t, handle) ← journal_writer 73;
  '(_, j) ← run (journal_first_write sv t writer handle (write_request 2 1)) new_journal;
  '(c, _) ← run commit_last j;
  reject (negb (commit_marker c =? COMMIT_MARKER) || (checksum c =? 0) ||
          negb (sequence c =? 1) || negb (record_start_sector c =? 2) ||
          negb (record_sector_count c =? 1)) ChecksumMismatch;;
  expect_invalid (with_seal (checksum c) 0 c) true;;
  expect_invalid (with_seal (wrap 32 (checksum c + 1)) (commit_marker c) c) false.

Definition crash_recovery_self_test (d : BlockDeviceInfo) : outcome JournalError unit :=
  let sv := new_storage_service d in
  '(writer, t, handle) ← journal_writer 74;
  let first_write n := journal_first_write sv t writer handle (write_request n 1) in
  '(_, j) ← run (first_write 3) new_journal;
  '(_, j) ← run commit_last j;
  '(_, j) ← run (first_write 4) j;
  report ← recover_committed_prefix j;
  reject (negb (replayed_records report =? 1) || negb (rolled_back_records report =? 1) ||
          negb (last_sequence report =? 1)) MissingCommitMarker;;
  '(_, c) ← run (first_write 5) new_journal;
  '(_, c) ← run commit_last c;
  '(_, c) ← run (first_write 6) c;
  '(_, c) ← run commit_last c;
  r ← index (journal_records c) 1;
  '(_, c) ← run (set_record 1 (with_seal (wrap 32 (checksum r + 1)) (commit_marker r) r)) c;
  report ← recover_committed_prefix c;
  reject (negb (replayed_records report =? 1) || negb (rolled_back_records report =? 1))
    ChecksumMismatch.

(** ** Checksum facts *)

(** The bytes [checksum_mix] consumes of a value, lowest first. *)
Fixpoint low_bytes (n : nat) (v : Z) : list Z :=
  match n with
  | O => []
  | S n' => wrap 8 v :: low_bytes n' (Z.shiftr v 8)
  end.

Definition FNV32_PRIME : Z := 0x01000193.

Lemma checksum_mix_foldl c v :
  checksum_mix c v = foldl (fnv_round 32 FNV32_PRIME) c (low_bytes 8 v).
Proof.
  unfold checksum_mix. generalize 8%nat as n. intros n. revert c v.
  induction n as [|n IH]; intros c v; simpl; [done|]. by rewrite IH.
Qed.

Lemma low_bytes_uint n v : Forall (uint 32) (low_bytes n v).
Proof.
  revert v. induction n as [|n IH]; intros v; simpl; constructor; [|done].
  pose proof (wrap_range 8 v). unfold uint in *. lia.
Qed.

(** Hashing other fields afterwards keeps two different states apart. *)
Lemma fnv32_insert_ne l (i : nat) x y h :
  uint 32 h -> Forall (uint 32) l -> l !! i = Some x -> uint 32 y -> x <> y ->
  foldl (fnv_round 32 FNV32_PRIME) h (<[i := y]> l) <> foldl (fnv_round 32 FNV32_PRIME) h l.
Proof. by apply fnv_insert_ne. Qed.

(** Everything the checksum of a record covers. *)
Definition record_bytes (r : JournalRecord) : list Z :=
  low_bytes 8 (sequence r) ++ low_bytes 8 (operation_code (record_operation r)) ++
  low_bytes 8 (record_start_sector r) ++ low_bytes 8 (record_sector_count r).

Lemma checksum_for_foldl r :
  checksum_for r = foldl (fnv_round 32 FNV32_PRIME) 0x811C9DC5 (record_bytes r).
Proof. unfold checksum_for, record_bytes. by rewrite !foldl_app, !checksum_mix_foldl. Qed.

Lemma record_bytes_uint r : Forall (uint 32) (record_bytes r).
Proof. unfold record_bytes. rewrite !Forall_app. split_and!; apply low_bytes_uint. Qed.

Lemma validate_committed_ok r :
  validate_committed r = Ok tt <-> commit_marker r = COMMIT_MARKER /\ checksum r = checksum_for r.
Proof.
  unfold validate_committed, reject.
  destruct (Z.eqb_spec (commit_marker r) COMMIT_MARKER), (Z.eqb_spec (checksum r) (checksum_for r));
    simpl; naive_solver.
Qed.

Lemma committed_valid r : validate_committed (committed r) = Ok tt.
Proof.
  apply validate_committed_ok. split; [done|]. unfold checksum_for.
  cbn [committed checksum sequence record_operation record_start_sector record_sector_count].
  reflexivity.
Qed.

(** A committed record damaged in one byte of its sequence number,
    operation, sector or count, in its checksum or in its commit marker is no
    longer valid, and the error says which check failed. *)
Theorem damaged_record_rejected r r' :
  validate_committed r = Ok tt ->
  (commit_marker r' <> COMMIT_MARKER -> validate_committed r' = Err MissingCommitMarker) /\
  (commit_marker r' = COMMIT_MARKER -> record_bytes r' = record_bytes r ->
     checksum r' <> checksum r -> validate_committed r' = Err ChecksumMismatch) /\
  (commit_marker r' = COMMIT_MARKER -> checksum r' = checksum r ->
     (exists i x y, record_bytes r !! i = Some x /\ x <> y /\ uint 8 y /\
        record_bytes r' = <[i := y]> (record_bytes r)) ->
     validate_committed r' = Err ChecksumMismatch).
Proof.
  intros [_ Hc]%validate_committed_ok.
  assert (commit_marker r' = COMMIT_MARKER -> checksum r' <> checksum_for r' ->
          validate_committed r' = Err ChecksumMismatch) as Hmis.
  { unfold validate_committed, reject. intros -> Hne%Z.eqb_neq. by rewrite Hne. }
  split_and!.
  - unfold validate_committed, reject. intros Hne%Z.eqb_neq. by rewrite Hne.
  - intros Hm Hb Hne. apply Hmis; [done|]. rewrite checksum_for_foldl, Hb, <- checksum_for_foldl.
    congruence.
  - intros Hm Hs (i & x & y & Hi & Hxy & Hy & Hb). apply Hmis; [done|].
    rewrite Hs, Hc, !checksum_for_foldl, Hb. intros Heq. symmetry in Heq. revert Heq.
    eapply fnv32_insert_ne; [done|apply record_bytes_uint|done| |done].
    unfold uint in *. lia.
Qed.

(** ** Recovery *)

(** The first [n] records are valid and the next one, if any, is not. *)
Definition valid_prefix (j : AppendOnlyJournal) (n : Z) : Prop :=
  0 <= n <= journal_len j /\
  (forall i r, 0 <= i < n -> get (journal_records j) i = Some r -> validate_committed r = Ok tt) /\
  (n < journal_len j -> exists r, get (journal_records j) n = Some r /\
     validate_committed r <> Ok tt).

Definition journal_bounds (j : AppendOnlyJournal) : Prop :=
  len (journal_records j) = JOURNAL_CAPACITY /\ 0 <= journal_len j <= JOURNAL_CAPACITY.

Lemma valid_prefix_unique j n n' :
  journal_bounds j -> valid_prefix j n -> valid_prefix j n' -> n = n'.
Proof.
  assert (forall n n', valid_prefix j n -> valid_prefix j n' -> ~ n < n') as Hlt.
  { clear. intros n n' (Hn & _ & Hstop) (Hn' & Hall & _) Hlt.
    destruct Hstop as (r & Hr & Hbad); [lia|]. by eapply Hbad, (Hall n); [lia|]. }
  intros _ H H'. pose proof (Hlt n n' H H'). pose proof (Hlt n' n H' H). lia.
Qed.

Lemma is_ok_validate r : is_ok (validate_committed r) = true <-> validate_committed r = Ok tt.
Proof. destruct (validate_committed r) as [[]| | |]; simpl; naive_solver. Qed.

(** The sequence number of the last replayed record. *)
Definition sequence_before (j : AppendOnlyJournal) (n : Z) : option Z :=
  if n =? 0 then Some 0 else sequence <$> get (journal_records j) (n - 1).

Lemma recover_spec j :
  journal_bounds j ->
  wp (recover_committed_prefix j)
    (fun rep => valid_prefix j (replayed_records rep) /\
       rolled_back_records rep = journal_len j - replayed_records rep /\
       sequence_before j (replayed_records rep) = Some (last_sequence rep))
    (fun _ => False).
Proof.
  intros [Hl Hn]. unfold JOURNAL_CAPACITY in Hn.
  apply (wp_loop _ (fun '(k, last) => 0 <= k <= journal_len j /\
      (forall i r, 0 <= i < k -> get (journal_records j) i = Some r -> validate_committed r = Ok tt) /\
      sequence_before j k = Some last)
    (fun st => Z.to_nat (journal_len j - fst st))).
  - intros [k last] (Hk & Hall & Hlast). unfold recover_round.
    destruct (Z.ltb_spec k (journal_len j)) as [Hlt|Hge].
    + apply wp_bind, wp_index; [rewrite Hl; unfold JOURNAL_CAPACITY; lia|]. intros r Hr.
      destruct (is_ok (validate_committed r)) eqn:Hv; apply wp_ok.
      * apply is_ok_validate in Hv. split; [|simpl; lia]. split_and!; [lia|lia| |].
        -- intros i x Hi Hx. destruct (decide (i = k)) as [->|]; [by simplify_eq|].
           apply (Hall i); [lia|done].
        -- unfold sequence_before. destruct (Z.eqb_spec (k + 1) 0); [lia|].
           replace (k + 1 - 1) with k by lia. by rewrite Hr.
      * simpl. split_and!; [|done|done]. split; [lia|split; [done|]]. intros _. exists r.
        split; [done|]. rewrite <- is_ok_validate. by rewrite Hv.
    + apply wp_ok. simpl. split_and!; [|lia|done]. split; [lia|split; [done|lia]].
  - split_and!; [lia|lia|lia|done].
  - unfold JOURNAL_CAPACITY. simpl. lia.
Qed.

(** ** Histories *)

(** Any call, successful or not. *)
Inductive journal_step : AppendOnlyJournal -> AppendOnlyJournal -> Prop :=
| journal_append a res j j' : append_write a j = (res, j') -> journal_step j j'
| journal_commit res j j' : commit_last j = (res, j') -> journal_step j j'.

Definition journal_reachable (j : AppendOnlyJournal) : Prop := rtc journal_step new_journal j.

(** Records are numbered from one, hold writes, and are committed or not. *)
Record journal_inv (j : AppendOnlyJournal) : Prop := {
  ji_bounds : journal_bounds j;
  ji_next : next_sequence j = journal_len j + 1;
  ji_record i r : 0 <= i < journal_len j -> get (journal_records j) i = Some r ->
    sequence r = i + 1 /\ record_operation r = Write /\
    (validate_committed r = Ok tt \/ commit_marker r = 0);
}.

Lemma new_journal_inv : journal_inv new_journal.
Proof. split; [by split|done|]. simpl. lia. Qed.

Lemma wpA_set_record j i r (Q : unit -> AppendOnlyJournal -> Prop) R :
  0 <= i < len (journal_records j) ->
  (forall j', journal_len j' = journal_len j -> next_sequence j' = next_sequence j ->
     len (journal_records j') = len (journal_records j) ->
     (forall k x, get (journal_records j') k = Some x <->
        (k = i /\ x = r) \/ (k <> i /\ get (journal_records j) k = Some x)) -> Q tt j') ->
  wpA (set_record i r) j Q R.
Proof.
  intros Hi HQ. unfold set_record. do 2 act_step. apply wp_index_set; [done|]. act_step.
  apply HQ; simpl; [done|done|by rewrite len_insert|]. intros k x.
  destruct (decide (k = i)) as [->|Hk].
  - rewrite get_insert_eq by done. naive_solver.
  - rewrite get_insert_ne by lia. naive_solver.
Qed.

(** The record an append leaves at the end of the journal. *)
Definition pending (n : Z) (a : StorageAccess) : JournalRecord :=
  {| sequence := n + 1; record_operation := operation a; record_start_sector := start_sector a;
     record_sector_count := sector_count a; checksum := 0; commit_marker := 0 |}.

Lemma append_write_spec a j :
  journal_inv j ->
  wpA (append_write a) j
    (fun r j' => r = pending (journal_len j) a /\ journal_inv j' /\
       operation a = Write /\ journal_len j' = journal_len j + 1 /\
       (forall k x, get (journal_records j') k = Some x <->
          (k = journal_len j /\ x = r) \/
          (k <> journal_len j /\ get (journal_records j) k = Some x)))
    (fun e j' => j' = j /\
       (e = ReadIsNotJournaled /\ operation a = Read \/
        e = Full /\ journal_len j = JOURNAL_CAPACITY)).
Proof.
  intros [[Hl Hn] Hnext Hrec]. unfold append_write. do 2 act_step. act_step.
  2:{ intros H%negb_true_iff%bool_decide_eq_false. split; [done|left].
      split; [done|]. by destruct (operation a). }
  intros Hop%negb_false_iff%bool_decide_eq_true.
  repeat (act_step; try done).
  2:{ intros H%Z.eqb_eq. split; [done|by right]. }
  intros Hfull%Z.eqb_neq. repeat (act_step; try done). unfold JOURNAL_CAPACITY in *.
  rewrite Hnext. apply wpA_set_record; [lia|]. intros j' Hlen' Hseq' Hcap' Hget.
  act_step. unfold advance. do 2 act_step. unfold checked_add.
  rewrite checked_id by (unfold uint; lia). repeat act_step. cbn [expect].
  repeat act_step. split_and!; [done| |done|simpl; lia|done].
  split; simpl; unfold journal_bounds, JOURNAL_CAPACITY; simpl; [lia| |].
  - rewrite Hseq', Hnext, wrap_small by (unfold uint; lia). lia.
  - intros i x Hi [[-> ->]|[Hne Hx]]%Hget; [simpl; split_and!; auto; lia|].
    apply (Hrec i); [lia|done].
Qed.

Lemma commit_last_spec j :
  journal_inv j ->
  wpA commit_last j
    (fun r j' => journal_inv j' /\ journal_len j' = journal_len j /\ 0 < journal_len j /\
       (exists r0, get (journal_records j) (journal_len j - 1) = Some r0 /\ r = committed r0) /\
       validate_committed r = Ok tt /\
       (forall k x, get (journal_records j') k = Some x <->
          (k = journal_len j - 1 /\ x = r) \/
          (k <> journal_len j - 1 /\ get (journal_records j) k = Some x)))
    (fun e j' => j' = j /\ e = MissingCommitMarker /\ journal_len j = 0).
Proof.
  intros [[Hl Hn] Hnext Hrec]. unfold commit_last. do 3 act_step. cbv beta. do 2 act_step. act_step.
  2:{ by intros H%Z.eqb_eq. }
  intros H0%Z.eqb_neq. unfold JOURNAL_CAPACITY in *. do 2 act_step.
  apply wp_index; [lia|]. intros r Hr. act_step.
  apply wpA_set_record; [lia|]. intros j' Hlen' Hseq' Hcap' Hget. do 2 act_step.
  rewrite committed_valid. apply wp_ok. act_step.
  destruct (Hrec (journal_len j - 1) r ltac:(lia) Hr) as (Hs & Hop & _).
  split_and!; [|done|lia|eauto|apply committed_valid|done].
  split; simpl; unfold journal_bounds, JOURNAL_CAPACITY; simpl; [lia|lia|].
  intros i x Hi [[-> ->]|[Hne Hx]]%Hget; [|apply Hrec; [lia|done]].
  split_and!; [done|done|]. left. apply committed_valid.
Qed.

Lemma journal_step_inv j j' : journal_step j j' -> journal_inv j -> journal_inv j'.
Proof.
  intros [a res j1 j1' Hc|res j1 j1' Hc] Hi.
  - destruct (wpA_run _ _ _ _ (append_write_spec a j1 Hi))
      as [(r & j2 & Hm & H)|(e & j2 & Hm & H)]; rewrite Hc in Hm; simplify_eq; [apply H|].
    by destruct H as [-> _].
  - destruct (wpA_run _ _ _ _ (commit_last_spec j1 Hi))
      as [(r & j2 & Hm & H)|(e & j2 & Hm & H)]; rewrite Hc in Hm; simplify_eq; [apply H|].
    by destruct H as [-> _].
Qed.

Lemma journal_reachable_inv j : journal_reachable j -> journal_inv j.
Proof.
  intros H. pose proof new_journal_inv as H0. induction H; eauto using journal_step_inv.
Qed.

(** Recovery of any journal a history of appends and commits can leave
    ends and replays exactly the longest prefix of committed, undamaged
    records; the rest is counted as rolled back, and the reported last sequence
    number is the number of replayed records. *)
Theorem recovery_replays_committed_prefix j :
  journal_reachable j ->
  exists rep, recover_committed_prefix j = Ok rep /\
    valid_prefix j (replayed_records rep) /\
    replayed_records rep + rolled_back_records rep = journal_len j /\
    last_sequence rep = replayed_records rep.
Proof.
  intros Hj%journal_reachable_inv. pose proof (recover_spec j (ji_bounds j Hj)) as H.
  destruct (recover_committed_prefix j) as [rep| | |]; simpl in H; try done.
  destruct H as (Hp & Hrb & Hs). exists rep. split_and!; [done|done|lia|].
  unfold sequence_before in Hs. destruct (Z.eqb_spec (replayed_records rep) 0) as [->|Hne].
  { by injection Hs as <-. }
  apply fmap_Some in Hs as (r & Hr & ->). destruct Hp as [Hb _].
  destruct (ji_record j Hj (replayed_records rep - 1) r ltac:(lia) Hr) as [-> _]. lia.
Qed.

Lemma recover_unique j n :
  journal_inv j -> valid_prefix j n ->
  exists rep, recover_committed_prefix j = Ok rep /\
    replayed_records rep = n /\ rolled_back_records rep = journal_len j - n.
Proof.
  intros Hj Hn. pose proof (recover_spec j (ji_bounds j Hj)) as H.
  destruct (recover_committed_prefix j) as [rep| | |]; simpl in H; try done.
  destruct H as (Hp & Hrb & _). exists rep. split; [done|].
  assert (replayed_records rep = n) as Heq by (eapply valid_prefix_unique; [apply Hj|done|done]).
  split; [done|lia].
Qed.

(** A write is durable exactly from its commit on. On a journal whose
    records are all committed, a crash after the append rolls back the new
    record and nothing else; a crash after the commit replays it too. *)
Theorem append_commit_crash_safe j a r j1 r' j2 :
  journal_reachable j -> valid_prefix j (journal_len j) ->
  append_write a j = (Ok r, j1) -> commit_last j1 = (Ok r', j2) ->
  (exists rep, recover_committed_prefix j1 = Ok rep /\
     replayed_records rep = journal_len j /\ rolled_back_records rep = 1) /\
  (exists rep, recover_committed_prefix j2 = Ok rep /\
     replayed_records rep = journal_len j + 1 /\ rolled_back_records rep = 0) /\
  r' = committed r.
Proof.
  intros Hj%journal_reachable_inv (_ & Hall & _) Ha Hc.
  destruct (wpA_ok _ _ _ _ _ _ (append_write_spec a j Hj) Ha) as (-> & Hj1 & _ & Hlen1 & Hget1).
  destruct (wpA_ok _ _ _ _ _ _ (commit_last_spec j1 Hj1) Hc)
    as (Hj2 & Hlen2 & _ & (r0 & Hr0 & ->) & _ & Hget2).
  destruct (ji_bounds j Hj) as [_ Hb].
  rewrite Hlen1 in *. replace (journal_len j + 1 - 1) with (journal_len j) in * by lia.
  assert (r0 = pending (journal_len j) a) as -> by (apply Hget1 in Hr0; naive_solver).
  split_and!; [| |done].
  - destruct (recover_unique j1 (journal_len j) Hj1) as (rep & Hrep & Hn & Hrb).
    { split; [lia|split].
      - intros i x Hi [[-> _]|[_ Hx]]%Hget1; [lia|by apply (Hall i)].
      - intros _. eexists. split; [apply Hr0|]. unfold validate_committed. simpl. done. }
    exists rep. split_and!; [done|done|lia].
  - destruct (recover_unique j2 (journal_len j + 1) Hj2) as (rep & Hrep & Hn & Hrb).
    { split; [lia|split; [|lia]].
      intros i x Hi [[-> ->]|[Hne Hx]]%Hget2; [apply committed_valid|].
      apply Hget1 in Hx as [[-> _]|[_ Hx]]; [done|]. apply (Hall i); [lia|done]. }
    exists rep. split_and!; [done|done|lia].
Qed.

(** ** The self-tests pass *)

(** On a device of at least [n + 1] sectors, the range check of a one-sector
    write at [n] passes, whatever else the device is. *)
Lemma one_sector_in_range d n :
  uint 32 n -> n < capacity_sectors d ->
  validate_range (new_storage_service d) (write_request n 1) = Ok tt.
Proof.
  intros Hn Hc. unfold uint in Hn. unfold validate_range, checked_add. simpl.
  rewrite checked_id by (unfold uint; lia). simpl.
  by rewrite (proj2 (Z.ltb_ge _ _)) by lia.
Qed.

(** The three boot self-tests of the journal succeed on every device of at
    least seven sectors: append, commit with damaged copies refused, and
    recovery after a torn and after a corrupted record. *)
Lemma journal_self_tests_pass d :
  7 <= capacity_sectors d ->
  journal_self_test d = Ok tt /\ commit_marker_self_test d = Ok tt /\
  crash_recovery_self_test d = Ok tt.
Proof.
  intros Hd. unfold journal_self_test, commit_marker_self_test, crash_recovery_self_test,
    journal_first_write, authorize_request.
  rewrite !one_sector_in_range by (unfold uint; lia).
  change (service_resource (new_storage_service d)) with STORAGE_RESOURCE_ID.
  clear Hd. split_and!; by vm_compute.
Qed.
