(* ===== verification/BlockAllocator.v ===== *)
(** * The block allocator

    [core/src/storage_allocator.rs]: a first-fit allocator of block extents
    over a 64-bit bitmap, with a journal of bitmap changes that recovery
    replays after a crash. *)

From stdpp Require Import base numbers list relations.
From S2P Require Import Prelude Fnv Bitset Kernel StorageService StorageJournal.

(** ** Data *)

Definition MAX_ALLOCATOR_BLOCKS : Z := 64.
Definition ALLOCATOR_JOURNAL_CAPACITY : Z := 8.
Definition ALLOCATOR_COMMIT_MARKER : Z := 0x5059414C.

Inductive AllocatorError : Type :=
| InvalidLayout
| OutOfSpace
| InvalidExtent
| JournalFull
| AllocatorMissingCommitMarker
| AllocatorChecksumMismatch.

Record BlockExtent := Extent {
  start_block : Z;
  extent_blocks : Z;
}.

Record AllocatorJournalRecord := {
  record_generation : Z;
  previous_bitmap : Z;
  next_bitmap : Z;
  record_checksum : Z;
  record_marker : Z;
}.

Definition empty_allocator_record : AllocatorJournalRecord :=
  {| record_generation := 0; previous_bitmap := 0; next_bitmap := 0;
     record_checksum := 0; record_marker := 0 |}.

Record AllocatorRecoveryReport := {
  report_replayed : Z;
  report_rolled_back : Z;
  report_bitmap : Z;
}.

Record AllocatorJournal := {
  allocator_records : list AllocatorJournalRecord;
  allocator_journal_len : Z;
  next_generation : Z;
}.

Record BlockAllocator := {
  base_sector : Z;
  block_count : Z;
  bitmap : Z;
  committed_bitmap : Z;
}.

(** ** Journal *)

Definition new_allocator_journal : AllocatorJournal :=
  {| allocator_records := replicate (Z.to_nat ALLOCATOR_JOURNAL_CAPACITY) empty_allocator_record;
     allocator_journal_len := 0; next_generation := 1 |}.

Definition checksum_record (r : AllocatorJournalRecord) : Z :=
  let c := 0x811C9DC5 in
  let c := checksum_mix c (record_generation r) in
  let c := checksum_mix c (previous_bitmap r) in
  checksum_mix c (next_bitmap r).

Definition validate_record (r : AllocatorJournalRecord) : outcome AllocatorError unit :=
  reject (negb (record_marker r =? ALLOCATOR_COMMIT_MARKER)) AllocatorMissingCommitMarker;;
  reject (negb (record_checksum r =? checksum_record r)) AllocatorChecksumMismatch.

(** [self.records[i] = r] *)
Definition put_record (i : Z) (r : AllocatorJournalRecord) :
    action AllocatorJournal AllocatorError unit :=
  rs ← reads (fun j => index_set (allocator_records j) i r);
  update (fun j => {| allocator_records := rs; allocator_journal_len := allocator_journal_len j;
                      next_generation := next_generation j |}).

Definition append_bitmaps (previous next : Z) :
    action AllocatorJournal AllocatorError AllocatorJournalRecord :=
  n ← reads (fun j => Ok (allocator_journal_len j));
  pure (reject (n =? ALLOCATOR_JOURNAL_CAPACITY) JournalFull);;
  g ← reads (fun j => Ok (next_generation j));
  let r := {| record_generation := g; previous_bitmap := previous; next_bitmap := next;
              record_checksum := 0; record_marker := 0 |} in
  put_record n r;;
  n' ← reads (fun j => expect (checked_add 64 (allocator_journal_len j) 1));
  update (fun j => {| allocator_records := allocator_records j; allocator_journal_len := n';
                      next_generation := wrap 64 (next_generation j + 1) |});;
  mret r.

Definition committed_record (r : AllocatorJournalRecord) : AllocatorJournalRecord :=
  {| record_generation := record_generation r; previous_bitmap := previous_bitmap r;
     next_bitmap := next_bitmap r; record_checksum := checksum_record r;
     record_marker := ALLOCATOR_COMMIT_MARKER |}.

Definition commit_last_record : action AllocatorJournal AllocatorError AllocatorJournalRecord :=
  n ← reads (fun j => Ok (allocator_journal_len j));
  pure (reject (n =? 0) AllocatorMissingCommitMarker);;
  r ← reads (fun j => index (allocator_records j) (n - 1));
  pure (validate_record (committed_record r));;
  put_record (n - 1) (committed_record r);;
  mret (committed_record r).

(** One round of the loop in [recover_allocator_journal]. *)
Definition recover_allocator_round (j : AllocatorJournal) (st : Z * Z) :
    outcome AllocatorError ((Z * Z) + AllocatorRecoveryReport) :=
  let '(replayed, b) := st in
  if replayed <? allocator_journal_len j then
    r ← index (allocator_records j) replayed;
    if negb (is_ok (validate_record r)) || negb (previous_bitmap r =? b)
    then Ok (inr {| report_replayed := replayed;
                    report_rolled_back := allocator_journal_len j - replayed;
                    report_bitmap := b |})
    else Ok (inl (replayed + 1, next_bitmap r))
  else Ok (inr {| report_replayed := replayed; report_rolled_back := 0; report_bitmap := b |}).

(** The journal holds at most eight records, so nine rounds end the loop. *)
Definition recover_allocator_journal (j : AllocatorJournal) :
    outcome AllocatorError AllocatorRecoveryReport :=
  loop (S (Z.to_nat ALLOCATOR_JOURNAL_CAPACITY)) (recover_allocator_round j) (0, 0).

(** ** Bitmaps *)

(** [1u64 << bit]: shifting by 64 or more panics. *)
Definition shl_u64 (b : Z) : outcome AllocatorError Z :=
  if (0 <=? b) && (b <? 64) then Ok (bit b) else Panic.

(** One round of the loop in [bitmap_with_extent]; [!x & y] clears bits. *)
Definition mark_bit (extent : BlockExtent) (used : bool) (b offset : Z) : outcome AllocatorError Z :=
  i ← expect (checked_add 16 (start_block extent) offset);
  m ← shl_u64 i;
  Ok (if used then Z.lor b m else Z.ldiff b m).

Definition bitmap_with_extent (b : Z) (extent : BlockExtent) (used : bool) :
    outcome AllocatorError Z :=
  fin ← ok_or (checked_add 16 (start_block extent) (extent_blocks extent)) InvalidExtent;
  reject (MAX_ALLOCATOR_BLOCKS <? fin) InvalidExtent;;
  foldM (mark_bit extent used) b (range 0 (extent_blocks extent)).

Definition bitmap_outside_block_count (b count : Z) : outcome AllocatorError bool :=
  if count =? MAX_ALLOCATOR_BLOCKS then Ok false
  else
    m ← shl_u64 count;
    allowed ← expect (checked 64 (m - 1));
    Ok (negb (Z.ldiff b allowed =? 0)).

(** ** Allocator *)

Definition new_allocator (base count : Z) : outcome AllocatorError BlockAllocator :=
  reject ((count =? 0) || (MAX_ALLOCATOR_BLOCKS <? count)) InvalidLayout;;
  ok_or (checked_add 64 base count) InvalidLayout;;
  Ok {| base_sector := base; block_count := count; bitmap := 0; committed_bitmap := 0 |}.

Definition new_for_device (d : BlockDeviceInfo) (base count : Z) :
    outcome AllocatorError BlockAllocator :=
  a ← new_allocator base count;
  fin ← ok_or (checked_add 64 base count) InvalidLayout;
  reject (capacity_sectors d <? fin) InvalidLayout;;
  Ok a.

Definition restore_from_bitmap (base count b : Z) : outcome AllocatorError BlockAllocator :=
  a ← new_allocator base count;
  outside ← bitmap_outside_block_count b count;
  reject outside InvalidExtent;;
  Ok {| base_sector := base_sector a; block_count := block_count a;
        bitmap := b; committed_bitmap := b |}.

Definition validate_extent (a : BlockAllocator) (extent : BlockExtent) :
    outcome AllocatorError unit :=
  reject (extent_blocks extent =? 0) InvalidExtent;;
  fin ← ok_or (checked_add 16 (start_block extent) (extent_blocks extent)) InvalidExtent;
  reject (block_count a <? fin) InvalidExtent.

(** The loop of [extent_is_free], over the offsets left. *)
Fixpoint blocks_free (a : BlockAllocator) (extent : BlockExtent) (offsets : list Z) :
    outcome AllocatorError bool :=
  match offsets with
  | [] => Ok true
  | offset :: rest =>
      i ← expect (checked_add 16 (start_block extent) offset);
      m ← shl_u64 i;
      if negb (Z.land (bitmap a) m =? 0) then Ok false else blocks_free a extent rest
  end.

Definition extent_is_free (a : BlockAllocator) (extent : BlockExtent) :
    outcome AllocatorError bool :=
  validate_extent a extent;;
  blocks_free a extent (range 0 (extent_blocks extent)).

(** The loop of [find_free_extent], over the candidate starts left. *)
Fixpoint first_free (a : BlockAllocator) (requested : Z) (starts : list Z) :
    outcome AllocatorError BlockExtent :=
  match starts with
  | [] => Err OutOfSpace
  | s :: rest =>
      free ← extent_is_free a (Extent s requested);
      if (free : bool) then Ok (Extent s requested) else first_free a requested rest
  end.

Definition find_free_extent (a : BlockAllocator) (requested : Z) :
    outcome AllocatorError BlockExtent :=
  reject ((requested =? 0) || (block_count a <? requested)) InvalidExtent;;
  first_free a requested (range 0 (block_count a - requested + 1)).

Definition set_bitmap (b : Z) (a : BlockAllocator) : BlockAllocator :=
  {| base_sector := base_sector a; block_count := block_count a; bitmap := b;
     committed_bitmap := committed_bitmap a |}.
Definition set_committed_bitmap (b : Z) (a : BlockAllocator) : BlockAllocator :=
  {| base_sector := base_sector a; block_count := block_count a; bitmap := bitmap a;
     committed_bitmap := b |}.

Definition mark_extent (extent : BlockExtent) (used : bool) :
    action BlockAllocator AllocatorError unit :=
  b ← reads (fun a => bitmap_with_extent (bitmap a) extent used);
  update (set_bitmap b).

Definition allocate (requested : Z) : action BlockAllocator AllocatorError BlockExtent :=
  extent ← reads (fun a => find_free_extent a requested);
  mark_extent extent true;;
  update (fun a => set_committed_bitmap (bitmap a) a);;
  mret extent.

Definition free_extent (extent : BlockExtent) : action BlockAllocator AllocatorError unit :=
  reads (fun a => validate_extent a extent);;
  mark_extent extent false;;
  update (fun a => set_committed_bitmap (bitmap a) a).

Definition allocate_journaled (requested : Z) :
    action (BlockAllocator * AllocatorJournal) AllocatorError BlockExtent :=
  extent ← on_fst (reads (fun a => find_free_extent a requested));
  previous ← on_fst (reads (fun a => Ok (committed_bitmap a)));
  next ← on_fst (reads (fun a => bitmap_with_extent (bitmap a) extent true));
  on_snd (append_bitmaps previous next);;
  on_fst (update (set_bitmap next));;
  mret extent.

Definition commit_last_allocation :
    action (BlockAllocator * AllocatorJournal) AllocatorError AllocatorJournalRecord :=
  r ← on_snd commit_last_record;
  on_fst (update (set_committed_bitmap (next_bitmap r)));;
  on_fst (update (set_bitmap (next_bitmap r)));;
  mret r.

(** [count_ones() as u16] *)
Definition used_blocks (a : BlockAllocator) : Z :=
  wrap 16 (len (filter (fun i => Z.testbit (bitmap a) i = true) (range 0 64))).

(** The boot self-test, on the tables the device allows. *)
Definition allocator_self_test (d : BlockDeviceInfo) : outcome AllocatorError unit :=
  a ← new_for_device d 64 16;
  '(first, (a, j)) ← run (allocate_journaled 2) (a, new_allocator_journal);
  pending ← (if allocator_journal_len j =? 0 then Err AllocatorMissingCommitMarker
             else index (allocator_records j) (allocator_journal_len j - 1));
  reject (negb (start_block first =? 0) || negb (extent_blocks first =? 2) ||
          negb (next_bitmap pending =? 3) || (record_marker pending =? ALLOCATOR_COMMIT_MARKER) ||
          negb (committed_bitmap a =? 0) || negb (base_sector a =? 64)) InvalidExtent;;
  '(_, (a, j)) ← run commit_last_allocation (a, j);
  reject (negb (committed_bitmap a =? 3)) AllocatorChecksumMismatch;;
  '(_, (a, j)) ← run (allocate_journaled 1) (a, j);
  report ← recover_allocator_journal j;
  reject (negb (report_replayed report =? 1) || negb (report_rolled_back report =? 1) ||
          negb (report_bitmap report =? 3)) AllocatorMissingCommitMarker;;
  s ← new_for_device d 80 8;
  '(left_extent, s) ← run (allocate 2) s;
  '(hole, s) ← run (allocate 2) s;
  '(right_extent, s) ← run (allocate 2) s;
  '(_, s) ← run (free_extent hole) s;
  '(reused, s) ← run (allocate 1) s;
  reject (negb (start_block left_extent =? 0) || negb (start_block right_extent =? 4) ||
          negb (start_block reused =? start_block hole) || negb (used_blocks s =? 5)) InvalidExtent.

(** ** Sets of blocks *)

(** Block [i] is marked in the bitmap [b]. *)
Definition marked (b i : Z) : Prop := Z.testbit b i = true.

Definition in_extent (x : BlockExtent) (i : Z) : Prop :=
  start_block x <= i < start_block x + extent_blocks x.

(** A bitmap over [count] blocks. *)
Definition bitmap_wf (count b : Z) : Prop := 0 <= b /\ forall i, marked b i -> 0 <= i < count.

Record allocator_wf (a : BlockAllocator) : Prop := {
  aw_count : 1 <= block_count a <= MAX_ALLOCATOR_BLOCKS;
  aw_base : 0 <= base_sector a /\ base_sector a + block_count a <= u64_max;
  aw_bitmap : bitmap_wf (block_count a) (bitmap a);
  aw_committed : bitmap_wf (block_count a) (committed_bitmap a);
}.

Lemma aw_nonneg a : allocator_wf a -> 0 <= bitmap a.
Proof. intros Hw. by destruct (aw_bitmap a Hw). Qed.

Lemma aw_inside a i : allocator_wf a -> marked (bitmap a) i -> 0 <= i < block_count a.
Proof. intros Hw. destruct (aw_bitmap a Hw) as [_ H]. apply H. Qed.

(** An extent the allocator accepts. *)
Definition extent_wf (a : BlockAllocator) (x : BlockExtent) : Prop :=
  0 <= start_block x /\ 1 <= extent_blocks x /\
  start_block x + extent_blocks x <= block_count a.

Lemma wp_shl_u64 i (Q : Z -> Prop) R : 0 <= i < 64 -> Q (bit i) -> wp (shl_u64 i) Q R.
Proof.
  intros Hi HQ. unfold shl_u64. replace ((0 <=? i) && (i <? 64)) with true by lia. done.
Qed.

Lemma wp_add_u16 x y (Q : Z -> Prop) (R : AllocatorError -> Prop) :
  uint 16 (x + y) -> Q (x + y) -> wp (expect (checked_add 16 x y)) Q R.
Proof. intros H HQ. unfold checked_add. by rewrite checked_id. Qed.

Lemma bitmap_with_extent_spec b x used :
  0 <= b -> 0 <= start_block x -> 0 <= extent_blocks x ->
  start_block x + extent_blocks x <= MAX_ALLOCATOR_BLOCKS ->
  wp (bitmap_with_extent b x used)
    (fun b' => 0 <= b' /\ forall i, marked b' i <->
       if used then marked b i \/ in_extent x i else marked b i /\ ~ in_extent x i)
    (fun _ => False).
Proof.
  unfold MAX_ALLOCATOR_BLOCKS. intros Hb Hs Hn Hfit. unfold bitmap_with_extent.
  act_step. act_step. 2:{ intros H%checked_None. unfold uint in H. lia. }
  intros fin [-> _]%checked_Some. act_step. act_step.
  2:{ unfold MAX_ALLOCATOR_BLOCKS. intros H%Z.ltb_lt. lia. }
  intros _.
  apply (wp_foldM_range _ _ (fun k b' => 0 <= b' /\ forall i, marked b' i <->
    if used then marked b i \/ in_extent (Extent (start_block x) k) i
    else marked b i /\ ~ in_extent (Extent (start_block x) k) i)); [lia| |].
  { split; [done|]. unfold in_extent. simpl. intros i. destruct used; intuition lia. }
  intros k b' Hk [Hb' Hm]. unfold mark_bit.
  apply wp_bind, wp_add_u16; [unfold uint; lia|]. apply wp_bind, wp_shl_u64; [lia|]. apply wp_ok.
  unfold marked, in_extent in *. simpl in *. destruct used.
  - split; [apply Z.lor_nonneg; split; [done|apply bit_nonneg]|]. intros i.
    rewrite lor_bit_spec by lia. rewrite Hm. intuition lia.
  - split; [apply Z.ldiff_nonneg; by left|]. intros i.
    rewrite ldiff_bit_spec by lia. rewrite Hm. intuition lia.
Qed.

Lemma validate_extent_spec a x :
  allocator_wf a -> uint 16 (start_block x) -> uint 16 (extent_blocks x) ->
  wp (validate_extent a x) (fun _ => extent_wf a x)
    (fun e => e = InvalidExtent /\ ~ extent_wf a x).
Proof.
  intros Hw Hs Hn. destruct (aw_count a Hw) as [_ Hmax]. unfold MAX_ALLOCATOR_BLOCKS, uint in *.
  unfold validate_extent, extent_wf. act_step. act_step.
  2:{ intros H%Z.eqb_eq. split; [done|lia]. }
  intros H0%Z.eqb_neq. act_step. act_step.
  2:{ intros H%checked_None. unfold uint in H. split; [done|lia]. }
  intros fin [-> _]%checked_Some. act_step.
  - intros H%Z.ltb_ge. lia.
  - intros H%Z.ltb_lt. split; [done|lia].
Qed.

Lemma blocks_free_spec a x k :
  0 <= start_block x -> 0 <= k <= extent_blocks x ->
  start_block x + extent_blocks x <= MAX_ALLOCATOR_BLOCKS ->
  wp (blocks_free a x (range k (extent_blocks x)))
    (fun f => f = true <->
       forall i, start_block x + k <= i < start_block x + extent_blocks x -> ~ marked (bitmap a) i)
    (fun _ => False).
Proof.
  unfold MAX_ALLOCATOR_BLOCKS. intros Hs Hk Hfit.
  remember (Z.to_nat (extent_blocks x - k)) as n eqn:Hn. revert k Hk Hn.
  induction n as [|n IH]; intros k Hk Hn.
  - rewrite range_nil by lia.
    simpl. split; [|done]. intros _ i Hi. lia.
  - rewrite range_cons by lia.
    cbn [blocks_free]. apply wp_bind, wp_add_u16; [unfold uint; lia|].
    apply wp_bind, wp_shl_u64; [lia|]. rewrite land_bit_zero, negb_involutive by lia.
    destruct (Z.testbit (bitmap a) (start_block x + k)) eqn:Hbit.
    + apply wp_ok. split; [done|]. intros H. exfalso. apply (H (start_block x + k)); [lia|done].
    + eapply wp_mono; [apply IH; lia| |done]. intros f ->. split.
      * intros H i Hi. destruct (decide (i = start_block x + k)) as [->|]; [|apply H; lia].
        unfold marked. congruence.
      * intros H i Hi. apply H. lia.
Qed.

(** No block of [n] blocks from [s] is marked. *)
Definition free_at (a : BlockAllocator) (n s : Z) : Prop :=
  forall i, s <= i < s + n -> ~ marked (bitmap a) i.

Lemma extent_is_free_spec a x :
  allocator_wf a -> extent_wf a x ->
  wp (extent_is_free a x) (fun f => f = true <-> free_at a (extent_blocks x) (start_block x))
    (fun _ => False).
Proof.
  intros Hw Hx. pose proof (aw_count a Hw) as Hc. unfold extent_is_free, extent_wf in *.
  unfold MAX_ALLOCATOR_BLOCKS in *. apply wp_bind.
  eapply wp_mono; [apply validate_extent_spec; [done|unfold uint; lia..]| |].
  - intros _ _. eapply wp_mono; [apply blocks_free_spec; unfold MAX_ALLOCATOR_BLOCKS; lia| |done].
    intros f ->. unfold free_at. by rewrite Z.add_0_r.
  - intros e [_ H]. unfold extent_wf in H. lia.
Qed.

Lemma first_free_spec a n s :
  allocator_wf a -> 1 <= n <= block_count a -> 0 <= s <= block_count a - n + 1 ->
  wp (first_free a n (range s (block_count a - n + 1)))
    (fun x => extent_blocks x = n /\ s <= start_block x <= block_count a - n /\
       free_at a n (start_block x) /\ forall s', s <= s' < start_block x -> ~ free_at a n s')
    (fun e => e = OutOfSpace /\ forall s', s <= s' <= block_count a - n -> ~ free_at a n s').
Proof.
  intros Hw Hn Hs. remember (Z.to_nat (block_count a - n + 1 - s)) as k eqn:Hk. revert s Hs Hk.
  induction k as [|k IH]; intros s Hs Hk.
  - rewrite range_nil by lia.
    simpl. split; [done|]. intros s' Hs'. lia.
  - rewrite range_cons by lia.
    cbn [first_free]. apply wp_bind.
    eapply wp_mono; [apply extent_is_free_spec; [done|unfold extent_wf; simpl; lia]| |done].
    simpl. intros f Hf. destruct f.
    + apply wp_ok. simpl. split_and!; [done|lia|lia|by apply Hf|]. intros s' Hs'. lia.
    + assert (~ free_at a n s) as Hnf by (intros H; by apply Hf in H).
      eapply wp_mono; [apply IH; lia| |].
      * intros x (Hx & Hr & Hfree & Hmin). split_and!; [done|lia|lia|done|]. intros s' Hs'.
        destruct (decide (s' = s)) as [->|]; [done|]. apply Hmin. lia.
      * intros e [-> Hall]. split; [done|]. intros s' Hs'.
        destruct (decide (s' = s)) as [->|]; [done|]. apply Hall. lia.
Qed.

Lemma find_free_extent_spec a n :
  allocator_wf a -> uint 16 n ->
  wp (find_free_extent a n)
    (fun x => extent_blocks x = n /\ extent_wf a x /\ free_at a n (start_block x) /\
       forall s, 0 <= s < start_block x -> ~ free_at a n s)
    (fun e => e = InvalidExtent /\ (n = 0 \/ block_count a < n) \/
       e = OutOfSpace /\ 1 <= n <= block_count a /\
         forall s, 0 <= s <= block_count a - n -> ~ free_at a n s).
Proof.
  unfold uint. intros Hw Hn. unfold find_free_extent. act_step. act_step.
  2:{ intros [H%Z.eqb_eq|H%Z.ltb_lt]%orb_true_iff; left; split; auto. }
  intros [H0%Z.eqb_neq H1%Z.ltb_ge]%orb_false_iff.
  eapply wp_mono; [apply first_free_spec; [done|lia|lia]| |].
  - intros x (Hx & Hr & Hfree & Hmin). split_and!; [done| |done|done]. unfold extent_wf. lia.
  - intros e [-> Hall]. right. split_and!; [done|lia|lia|done].
Qed.

(** ** Allocation and release *)

Definition layout (base count : Z) : Prop :=
  1 <= count <= MAX_ALLOCATOR_BLOCKS /\ base + count <= u64_max.

Lemma new_allocator_spec base count :
  uint 64 base -> uint 16 count ->
  wp (new_allocator base count)
    (fun a => layout base count /\ base_sector a = base /\ block_count a = count /\
       bitmap a = 0 /\ committed_bitmap a = 0)
    (fun e => e = InvalidLayout /\ ~ layout base count).
Proof.
  intros Hb Hc. unfold new_allocator, layout, uint, u64_max, MAX_ALLOCATOR_BLOCKS in *.
  act_step. act_step.
  2:{ intros [H%Z.eqb_eq|H%Z.ltb_lt]%orb_true_iff; (split; [done|lia]). }
  intros [H0%Z.eqb_neq H1%Z.ltb_ge]%orb_false_iff. act_step. act_step.
  2:{ intros H%checked_None. unfold uint in H. split; [done|lia]. }
  intros fin [-> Hf]%checked_Some. unfold uint in Hf. apply wp_ok. split; [lia|done].
Qed.

Lemma layout_wf a base count b :
  uint 64 base -> layout base count -> bitmap_wf count b ->
  base_sector a = base -> block_count a = count -> bitmap a = b -> committed_bitmap a = b ->
  allocator_wf a.
Proof.
  unfold layout, uint. intros Hb [Hc Hf] Hbw <- <- <- Hcb. split; [done|lia|done|]. by rewrite Hcb.
Qed.

Lemma empty_bitmap_wf count : bitmap_wf count 0.
Proof. split; [done|]. unfold marked. intros i. by rewrite Z.bits_0. Qed.

(** The test of [bitmap_outside_block_count] decides [bitmap_wf]. *)
Lemma bitmap_outside_spec b count :
  uint 64 b -> 1 <= count <= MAX_ALLOCATOR_BLOCKS ->
  wp (bitmap_outside_block_count b count)
    (fun o => o = false <-> bitmap_wf count b) (fun _ => False).
Proof.
  unfold uint, MAX_ALLOCATOR_BLOCKS. intros Hb Hc. unfold bitmap_outside_block_count.
  assert (bitmap_wf count b <-> forall i, count <= i -> Z.testbit b i = false) as Hiff.
  { unfold bitmap_wf, marked. split.
    - intros [_ H] i Hi. apply not_true_iff_false. intros Ht%H. lia.
    - intros H. split; [lia|]. intros i Hi. destruct (decide (i < 0)).
      { by rewrite Z.testbit_neg_r in Hi by lia. }
      destruct (decide (i < count)); [lia|]. rewrite H in Hi by lia. done. }
  apply (wp_mono _ (fun o => o = false <-> forall i, count <= i -> Z.testbit b i = false) _
           (fun _ => False)); [|intros o ->; by rewrite Hiff|done].
  destruct (Z.eqb_spec count MAX_ALLOCATOR_BLOCKS) as [->|Hne].
  - apply wp_ok. split; [|done]. intros _ i Hi. unfold MAX_ALLOCATOR_BLOCKS in Hi.
    destruct (decide (b = 0)) as [->|]; [apply Z.bits_0|].
    apply Z.bits_above_log2; [lia|]. enough (Z.log2 b < 64) by lia. apply Z.log2_lt_pow2; lia.
  - unfold MAX_ALLOCATOR_BLOCKS in Hne. apply wp_bind, wp_shl_u64; [lia|].
    unfold bit. rewrite Z.shiftl_1_l.
    assert (2 ^ count < 2 ^ 64) as Hpow by (apply Z.pow_lt_mono_r; lia).
    apply wp_bind. rewrite checked_id by (unfold uint; lia). cbn [expect wp].
    rewrite negb_false_iff, Z.eqb_eq. change (2 ^ count - 1) with (Z.pred (2 ^ count)).
    rewrite <- Z.ones_equiv. split.
    + intros H i Hi. assert (Z.testbit (Z.ldiff b (Z.ones count)) i = false) as Hbit.
      { rewrite H. apply Z.bits_0. }
      rewrite Z.ldiff_spec, Z.ones_spec_high, andb_true_r in Hbit by lia. done.
    + intros H. apply Z.bits_inj_0. intros i. rewrite Z.ldiff_spec.
      destruct (decide (0 <= i)); [|by rewrite Z.testbit_neg_r by lia].
      destruct (decide (i < count)).
      * rewrite Z.ones_spec_low by lia. apply andb_false_r.
      * rewrite H by lia. done.
Qed.

(** A bitmap over at most 64 blocks is a [u64]. *)
Lemma bitmap_uint count b : bitmap_wf count b -> count <= MAX_ALLOCATOR_BLOCKS -> uint 64 b.
Proof.
  unfold MAX_ALLOCATOR_BLOCKS. intros [Hb Hm] Hc. split; [done|].
  destruct (decide (b < 2 ^ 64)) as [?|Hge]; [done|]. exfalso.
  assert (0 < b) as Hpos by lia. pose proof (Z.bit_log2 b Hpos) as Hbit. apply Hm in Hbit.
  assert (64 <= Z.log2 b) by (apply Z.log2_le_pow2; lia). lia.
Qed.

Lemma restore_from_bitmap_spec base count b :
  uint 64 base -> uint 16 count -> uint 64 b ->
  wp (restore_from_bitmap base count b)
    (fun a => layout base count /\ bitmap_wf count b /\ base_sector a = base /\
       block_count a = count /\ bitmap a = b /\ committed_bitmap a = b)
    (fun e => e = InvalidLayout /\ ~ layout base count \/ e = InvalidExtent /\ ~ bitmap_wf count b).
Proof.
  intros Hb Hc Hbm. unfold restore_from_bitmap. act_step.
  eapply wp_mono; [by apply new_allocator_spec| |by left].
  intros a (Hl & Hbase & Hcount & _). act_step.
  eapply wp_mono; [apply bitmap_outside_spec; [done|apply Hl]| |done].
  intros o Ho. act_step. act_step.
  2:{ intros ->. right. split; [done|]. intros H. by apply Ho in H. }
  intros ->. apply wp_ok. assert (bitmap_wf count b) as Hw by by apply Ho. done.
Qed.

(** The constructors produce well-formed allocators and nothing else: a
    layout is accepted exactly when it has 1 to 64 blocks, ends below [2 ^ 64]
    and, for a device, within its capacity; a saved bitmap is accepted exactly
    when it marks no block outside the layout. *)
Theorem allocator_constructors d base count b :
  uint 64 base -> uint 16 count -> uint 64 b ->
  match new_for_device d base count with
  | Ok a => layout base count /\ base + count <= capacity_sectors d /\
      allocator_wf a /\ bitmap a = 0
  | Err e => e = InvalidLayout /\ ~ (layout base count /\ base + count <= capacity_sectors d)
  | _ => False
  end /\
  match restore_from_bitmap base count b with
  | Ok a => layout base count /\ bitmap_wf count b /\ allocator_wf a /\
      bitmap a = b /\ committed_bitmap a = b
  | Err e => e = InvalidLayout /\ ~ layout base count \/ e = InvalidExtent /\ ~ bitmap_wf count b
  | _ => False
  end.
Proof.
  intros Hb Hc Hbm. split.
  - apply (wp_elim (new_for_device d base count)). unfold new_for_device. act_step.
    eapply wp_mono; [by apply new_allocator_spec| |].
    + intros a (Hl & Hbase & Hcount & Hbit & Hcom). act_step. act_step.
      2:{ intros H%checked_None. unfold uint, layout, u64_max in *. lia. }
      intros fin [-> Hf]%checked_Some. act_step. act_step.
      2:{ intros H%Z.ltb_lt. split; [done|lia]. }
      intros H%Z.ltb_ge. apply wp_ok. split_and!; [done|done| |done].
      apply (layout_wf a base count 0); try done. apply empty_bitmap_wf.
    + intros e [-> Hl]. split; [done|]. by intros [? _].
  - apply (wp_elim (restore_from_bitmap base count b)).
    eapply wp_mono; [by apply restore_from_bitmap_spec| |done].
    intros a (Hl & Hw & Hbase & Hcount & Hbit & Hcom). split_and!; try done.
    by apply (layout_wf _ base count b).
Qed.

Lemma allocate_spec a n :
  allocator_wf a -> uint 16 n ->
  wpA (allocate n) a
    (fun x a' => extent_blocks x = n /\ extent_wf a x /\ free_at a n (start_block x) /\
       (forall s, 0 <= s < start_block x -> ~ free_at a n s) /\
       allocator_wf a' /\ base_sector a' = base_sector a /\ block_count a' = block_count a /\
       committed_bitmap a' = bitmap a' /\
       forall i, marked (bitmap a') i <-> marked (bitmap a) i \/ in_extent x i)
    (fun e a' => a' = a /\
       (e = InvalidExtent /\ (n = 0 \/ block_count a < n) \/
        e = OutOfSpace /\ 1 <= n <= block_count a /\
          forall s, 0 <= s <= block_count a - n -> ~ free_at a n s)).
Proof.
  intros Hw Hn. unfold allocate. do 2 act_step.
  eapply wp_mono; [by apply find_free_extent_spec| |by auto].
  intros x (Hx & Hxw & Hfree & Hmin). pose proof (aw_count a Hw) as Hc. pose proof Hxw as Hxw'.
  unfold extent_wf, MAX_ALLOCATOR_BLOCKS in Hxw', Hc.
  unfold mark_extent. repeat act_step.
  eapply wp_mono; [apply bitmap_with_extent_spec; [by apply aw_nonneg|unfold MAX_ALLOCATOR_BLOCKS; lia..]| |done].
  intros b [Hb Hm]. repeat act_step. simpl. split_and!; try done.
  assert (bitmap_wf (block_count a) b) as Hbw.
  { split; [done|]. intros i [H|H]%Hm; [by apply aw_inside|]. unfold in_extent in H. lia. }
  destruct Hw. by split.
Qed.

Lemma free_spec a x :
  allocator_wf a -> uint 16 (start_block x) -> uint 16 (extent_blocks x) ->
  wpA (free_extent x) a
    (fun _ a' => extent_wf a x /\ allocator_wf a' /\ base_sector a' = base_sector a /\
       block_count a' = block_count a /\ committed_bitmap a' = bitmap a' /\
       forall i, marked (bitmap a') i <-> marked (bitmap a) i /\ ~ in_extent x i)
    (fun e a' => a' = a /\ e = InvalidExtent /\ ~ extent_wf a x).
Proof.
  intros Hw Hs Hn. unfold free_extent. do 2 act_step.
  eapply wp_mono; [by apply validate_extent_spec| |by intros e [-> ?]].
  intros [] Hx. pose proof (aw_count a Hw) as Hc. pose proof Hx as Hx'.
  unfold extent_wf, MAX_ALLOCATOR_BLOCKS in Hx', Hc.
  unfold mark_extent. repeat act_step.
  eapply wp_mono; [apply bitmap_with_extent_spec; [by apply aw_nonneg|unfold MAX_ALLOCATOR_BLOCKS; lia..]| |done].
  intros b [Hb Hm]. repeat act_step. simpl. split_and!; try done.
  assert (bitmap_wf (block_count a) b) as Hbw.
  { split; [done|]. intros i [H _]%Hm. by apply aw_inside. }
  destruct Hw. by split.
Qed.

(** Allocation returns the first free run of the requested length: its
    blocks were all free, every earlier start overlaps a used block, exactly
    its blocks become used, and the allocator stays well formed. It fails,
    changing nothing, only for a length that is zero or larger than the layout,
    or when no run of that length is free. *)
Theorem allocate_first_fit a n :
  allocator_wf a -> uint 16 n ->
  match allocate n a with
  | (Ok x, a') =>
      extent_blocks x = n /\ extent_wf a x /\ free_at a n (start_block x) /\
      (forall s, 0 <= s < start_block x -> ~ free_at a n s) /\
      allocator_wf a' /\ block_count a' = block_count a /\ committed_bitmap a' = bitmap a' /\
      (forall i, marked (bitmap a') i <-> marked (bitmap a) i \/ in_extent x i)
  | (Err InvalidExtent, a') => a' = a /\ (n = 0 \/ block_count a < n)
  | (Err OutOfSpace, a') => a' = a /\ forall s, 0 <= s <= block_count a - n -> ~ free_at a n s
  | _ => False
  end.
Proof.
  intros Hw Hn. destruct (wpA_run _ _ _ _ (allocate_spec a n Hw Hn))
    as [(x & a' & -> & ? & ? & ? & ? & ? & _ & ?)|(e & a' & -> & -> & [[-> ?]|(-> & ? & ?)])]; done.
Qed.

(** Releasing an extent that was just allocated restores the bitmap. *)
Theorem allocate_free_roundtrip a n x a1 :
  allocator_wf a -> uint 16 n -> allocate n a = (Ok x, a1) ->
  exists a2, free_extent x a1 = (Ok tt, a2) /\ bitmap a2 = bitmap a /\
    committed_bitmap a2 = bitmap a /\ allocator_wf a2.
Proof.
  intros Hw Hn Ha.
  destruct (wpA_ok _ _ _ _ _ _ (allocate_spec a n Hw Hn) Ha)
    as (Hx & Hxw & Hfree & _ & Hw1 & _ & Hc1 & _ & Hm1).
  pose proof (aw_count a Hw) as Hc. unfold MAX_ALLOCATOR_BLOCKS in Hc. unfold extent_wf in Hxw.
  destruct (wpA_run _ _ _ _ (free_spec a1 x Hw1 ltac:(unfold uint; lia) ltac:(unfold uint; lia)))
    as [([] & a2 & Hr & _ & Hw2 & _ & _ & Hcb & Hm2)|(e & a2 & _ & _ & _ & Hbad)].
  - assert (bitmap a2 = bitmap a) as Heq.
    { apply mask_ext; [by apply aw_nonneg|by apply aw_nonneg|]. intros i Hi. change (marked (bitmap a2) i <-> marked (bitmap a) i).
      rewrite Hm2, Hm1. split; [naive_solver|]. intros Hm. split; [by left|].
      intros He. apply (Hfree i); [|done]. unfold in_extent in He. lia. }
    exists a2. rewrite Hcb, Heq. done.
  - exfalso. apply Hbad. unfold extent_wf. rewrite Hc1. lia.
Qed.

(** ** Journal and recovery *)

(** The records in use. *)
Definition journal_log (j : AllocatorJournal) : list AllocatorJournalRecord :=
  take (Z.to_nat (allocator_journal_len j)) (allocator_records j).

Definition log_bounds (j : AllocatorJournal) : Prop :=
  len (allocator_records j) = ALLOCATOR_JOURNAL_CAPACITY /\
  0 <= allocator_journal_len j <= ALLOCATOR_JOURNAL_CAPACITY.

Lemma len_journal_log j : log_bounds j -> len (journal_log j) = allocator_journal_len j.
Proof. intros [Hl Hn]. unfold journal_log, len in *. rewrite length_take. lia. Qed.

(** Reference semantics of recovery: follow the chain of valid records. *)
Fixpoint replay (rs : list AllocatorJournalRecord) (b : Z) : Z * Z :=
  match rs with
  | [] => (0, b)
  | r :: rs' =>
      if is_ok (validate_record r) && (previous_bitmap r =? b)
      then let '(n, b') := replay rs' (next_bitmap r) in (n + 1, b')
      else (0, b)
  end.

Lemma replay_app rs rs' b b' :
  replay rs b = (len rs, b') ->
  replay (rs ++ rs') b = (len rs + fst (replay rs' b'), snd (replay rs' b')).
Proof.
  revert b. induction rs as [|r rs IH]; intros b; simpl.
  - intros [= <-]. destruct (replay rs' b). done.
  - assert (len (r :: rs) = len rs + 1) as -> by (unfold len; simpl; lia).
    destruct (is_ok _ && _); [|intros [=]; pose proof (len_nonneg rs); lia].
    destruct (replay rs (next_bitmap r)) as [n b1] eqn:Hr. intros [= Hn ->].
    rewrite (IH (next_bitmap r)); [f_equal; lia|]. rewrite Hr. f_equal. lia.
Qed.

Lemma recover_round_lt j k b r :
  log_bounds j -> 0 <= k <= allocator_journal_len j -> k < allocator_journal_len j ->
  journal_log j !! Z.to_nat k = Some r ->
  recover_allocator_round j (k, b) =
    if is_ok (validate_record r) && (previous_bitmap r =? b) then Ok (inl (k + 1, next_bitmap r))
    else Ok (inr {| report_replayed := k; report_rolled_back := allocator_journal_len j - k;
                    report_bitmap := b |}).
Proof.
  intros [Hl Hn] Hk Hlt Hr. unfold recover_allocator_round.
  rewrite (proj2 (Z.ltb_lt _ _) Hlt).
  assert (index (E := AllocatorError) (allocator_records j) k = Ok r) as ->.
  { unfold index. rewrite (proj2 (get_Some _ _ r)); [done|].
    split; [lia|]. unfold journal_log in Hr. rewrite lookup_take_Some in Hr. by destruct Hr. }
  rewrite ok_bind. by destruct (is_ok (validate_record r)), (previous_bitmap r =? b).
Qed.

(** The loop from any position computes the replay of the remaining records. *)
Lemma recover_loop j k b fuel :
  log_bounds j -> 0 <= k <= allocator_journal_len j ->
  (Z.to_nat (allocator_journal_len j - k) < fuel)%nat ->
  loop fuel (recover_allocator_round j) (k, b) =
    let '(n, b') := replay (drop (Z.to_nat k) (journal_log j)) b in
    Ok {| report_replayed := k + n; report_rolled_back := allocator_journal_len j - (k + n);
          report_bitmap := b' |}.
Proof.
  intros Hj. revert k b. induction fuel as [|fuel IH]; intros k b Hk Hf; [lia|].
  pose proof (len_journal_log j Hj) as Hlen. unfold len in Hlen.
  cbn [loop]. destruct (decide (k < allocator_journal_len j)) as [Hlt|Hge].
  - destruct (lookup_lt_is_Some_2 (journal_log j) (Z.to_nat k)) as [r Hr]; [lia|].
    rewrite (recover_round_lt j k b r) by done. rewrite (drop_S _ r) by done. cbn [replay].
    destruct (is_ok (validate_record r) && (previous_bitmap r =? b)); rewrite ok_bind;
      [|by rewrite Z.add_0_r].
    rewrite (IH (k + 1) (next_bitmap r)) by lia.
    replace (Z.to_nat (k + 1)) with (S (Z.to_nat k)) by lia.
    destruct (replay _ _) as [n b']. by replace (k + 1 + n) with (k + (n + 1)) by lia.
  - assert (recover_allocator_round j (k, b) = Ok (inr {| report_replayed := k;
      report_rolled_back := 0; report_bitmap := b |})) as ->.
    { unfold recover_allocator_round. by rewrite (proj2 (Z.ltb_ge _ _)) by lia. }
    rewrite drop_ge by lia. cbn [replay]. rewrite ok_bind. replace (k + 0) with k by lia.
    by replace (allocator_journal_len j - k) with 0 by lia.
Qed.

Lemma recover_replay j :
  log_bounds j ->
  recover_allocator_journal j =
    Ok {| report_replayed := fst (replay (journal_log j) 0);
          report_rolled_back := allocator_journal_len j - fst (replay (journal_log j) 0);
          report_bitmap := snd (replay (journal_log j) 0) |}.
Proof.
  intros Hj. pose proof Hj as [_ Hn]. unfold ALLOCATOR_JOURNAL_CAPACITY in Hn.
  unfold recover_allocator_journal.
  rewrite recover_loop by (unfold ALLOCATOR_JOURNAL_CAPACITY; try lia; done).
  change (drop (Z.to_nat 0) (journal_log j)) with (journal_log j).
  by destruct (replay (journal_log j) 0).
Qed.

Lemma committed_record_valid r : is_ok (validate_record (committed_record r)) = true.
Proof.
  unfold validate_record, committed_record, reject, checksum_record.
  cbn [record_marker record_checksum record_generation previous_bitmap next_bitmap].
  by rewrite !Z.eqb_refl.
Qed.

Lemma wpA_put_record j n r (Q : unit -> AllocatorJournal -> Prop) R :
  0 <= n < len (allocator_records j) ->
  Q tt {| allocator_records := <[Z.to_nat n := r]> (allocator_records j);
          allocator_journal_len := allocator_journal_len j;
          next_generation := next_generation j |} ->
  wpA (put_record n r) j Q R.
Proof.
  intros Hn HQ. unfold put_record. do 2 act_step. apply wp_index_set; [done|]. by act_step.
Qed.

Definition unmarked (r : AllocatorJournalRecord) (previous next : Z) : Prop :=
  previous_bitmap r = previous /\ next_bitmap r = next /\ record_marker r = 0.

Lemma append_bitmaps_spec j previous next :
  log_bounds j ->
  wpA (append_bitmaps previous next) j
    (fun r j' => log_bounds j' /\ journal_log j' = journal_log j ++ [r] /\ unmarked r previous next)
    (fun e j' => j' = j /\ e = JournalFull /\ allocator_journal_len j = ALLOCATOR_JOURNAL_CAPACITY).
Proof.
  intros [Hl Hn]. unfold append_bitmaps. do 3 act_step. cbv beta. do 2 act_step. act_step.
  2:{ by intros H%Z.eqb_eq. }
  intros Hne%Z.eqb_neq. do 3 act_step. cbv beta. act_step. unfold ALLOCATOR_JOURNAL_CAPACITY in *.
  apply wpA_put_record; [lia|]. do 2 act_step. cbn [allocator_journal_len]. unfold checked_add.
  rewrite checked_id by (unfold uint; lia). cbn [expect]. repeat act_step.
  unfold log_bounds, journal_log, ALLOCATOR_JOURNAL_CAPACITY. simpl.
  split_and!; [by rewrite len_insert|lia|lia| |done]. unfold len in Hl.
  replace (Z.to_nat (allocator_journal_len j + 1)) with (S (Z.to_nat (allocator_journal_len j))) by lia.
  erewrite take_S_r by (apply list_lookup_insert_eq; lia). by rewrite take_insert_ge by lia.
Qed.

Lemma commit_last_record_spec j l r :
  log_bounds j -> journal_log j = l ++ [r] ->
  wpA commit_last_record j
    (fun r' j' => r' = committed_record r /\ log_bounds j' /\
       journal_log j' = l ++ [committed_record r])
    (fun _ _ => False).
Proof.
  intros Hj Hlog. pose proof (len_journal_log j Hj) as Hlen. destruct Hj as [Hl Hn].
  rewrite Hlog in Hlen. unfold len in Hlen, Hl. rewrite length_app in Hlen. simpl in Hlen.
  unfold ALLOCATOR_JOURNAL_CAPACITY in *.
  assert (allocator_records j !! length l = Some r) as Hr.
  { assert (journal_log j !! length l = Some r) as H by (rewrite Hlog; by apply list_lookup_middle).
    unfold journal_log in H. by rewrite lookup_take_Some in H; destruct H. }
  unfold commit_last_record. do 3 act_step. cbv beta. do 2 act_step. act_step.
  2:{ intros H%Z.eqb_eq. lia. }
  intros _. do 2 act_step. replace (allocator_journal_len j - 1) with (Z.of_nat (length l)) by lia.
  unfold index. rewrite get_of_nat, Hr. cbn [expect]. act_step. do 2 act_step.
  pose proof (committed_record_valid r) as Hv.
  destruct (validate_record (committed_record r)) as [[]| | |]; [|done..]. act_step. act_step.
  apply wpA_put_record; [unfold len; lia|]. act_step. split; [done|].
  unfold log_bounds, journal_log, ALLOCATOR_JOURNAL_CAPACITY. simpl.
  split; [by rewrite len_insert|]. rewrite Nat2Z.id.
  replace (Z.to_nat (allocator_journal_len j)) with (S (length l)) by lia.
  erewrite take_S_r by (apply list_lookup_insert_eq; lia). rewrite take_insert_ge by lia.
  f_equal. unfold journal_log in Hlog.
  replace (Z.to_nat (allocator_journal_len j)) with (S (length l)) in Hlog by lia.
  erewrite take_S_r in Hlog by done. by apply app_inj_tail in Hlog as [].
Qed.

Lemma allocate_journaled_spec a j n :
  allocator_wf a -> log_bounds j -> uint 16 n ->
  wpA (allocate_journaled n) (a, j)
    (fun x '(a', j') => extent_wf a x /\ extent_blocks x = n /\ free_at a n (start_block x) /\
       allocator_wf a' /\ block_count a' = block_count a /\ log_bounds j' /\ committed_bitmap a' = committed_bitmap a /\
       (forall i, marked (bitmap a') i <-> marked (bitmap a) i \/ in_extent x i) /\
       exists r, journal_log j' = journal_log j ++ [r] /\
         unmarked r (committed_bitmap a) (bitmap a'))
    (fun e '(a', j') => a' = a /\ j' = j).
Proof.
  intros Hw Hj Hn. unfold allocate_journaled. act_step. apply wpA_on_fst. act_step.
  eapply wp_mono; [by apply find_free_extent_spec| |by auto].
  intros x (Hx & Hxw & Hfree & _). act_step. apply wpA_on_fst. do 2 act_step. cbv beta.
  act_step. apply wpA_on_fst. act_step.
  pose proof (aw_count a Hw) as Hc. pose proof Hxw as Hxw'.
  unfold extent_wf, MAX_ALLOCATOR_BLOCKS in Hxw', Hc.
  eapply wp_mono; [apply bitmap_with_extent_spec; [by apply aw_nonneg|unfold MAX_ALLOCATOR_BLOCKS; lia..]| |done].
  intros b [Hb Hm]. act_step. apply wpA_on_snd.
  eapply wpA_mono; [by apply append_bitmaps_spec| |by intros e j' (-> & _)].
  intros r j' (Hj' & Hlog & Hr). act_step. apply wpA_on_fst. do 2 act_step.
  split_and!; try done; [|by exists r].
  assert (bitmap_wf (block_count a) b) as Hbw.
  { split; [done|]. intros i [H|H]%Hm; [by apply aw_inside|]. unfold in_extent in H. lia. }
  destruct Hw. by split.
Qed.

Lemma commit_last_allocation_spec a j l r :
  log_bounds j -> journal_log j = l ++ [r] ->
  wpA commit_last_allocation (a, j)
    (fun r' '(a', j') => log_bounds j' /\ journal_log j' = l ++ [committed_record r] /\
       a' = {| base_sector := base_sector a; block_count := block_count a;
               bitmap := next_bitmap r; committed_bitmap := next_bitmap r |})
    (fun _ _ => False).
Proof.
  intros Hj Hlog. unfold commit_last_allocation. act_step. apply wpA_on_snd.
  eapply wpA_mono; [by eapply commit_last_record_spec| |done].
  intros r' j' (-> & Hj' & Hlog'). act_step. apply wpA_on_fst. act_step.
  act_step. apply wpA_on_fst. act_step. by act_step.
Qed.

Lemma len_snoc {A} (l : list A) x : len (l ++ [x]) = len l + 1.
Proof. unfold len. rewrite length_app. simpl. lia. Qed.

Lemma commit_nothing a j : log_bounds j -> allocator_journal_len j = 0 -> commit_last_allocation (a, j) = (Err AllocatorMissingCommitMarker, (a, j)).
Proof.
  intros _ H0. unfold commit_last_allocation, commit_last_record, on_snd, mbind, action_bind, reads, pure. cbn. rewrite H0. reflexivity.
Qed.

(** How the journal stands to the allocator: it has every committed change; one
    journaled allocation waits for its commit on top of that; or a change went
    past it, because [allocate] and [free] do not write to the journal, because
    a second allocation was journaled before the first was committed, or
    because the allocator was restored from a bitmap. *)
Inductive journal_use : Type := Settled | Waiting | Diverged.

Definition after_allocation (ok : bool) (u : journal_use) : journal_use :=
  if ok then match u with Settled => Waiting | _ => Diverged end else u.

Definition after_commit (u : journal_use) : journal_use :=
  match u with Waiting => Settled | _ => u end.

Definition after_change (ok : bool) (u : journal_use) : journal_use := if ok then Diverged else u.

(** The operations of the allocator and its journal, in any order. *)
Inductive journaled_history : journal_use -> BlockAllocator * AllocatorJournal -> Prop :=
| history_start base count a :
    uint 64 base -> uint 16 count -> new_allocator base count = Ok a ->
    journaled_history Settled (a, new_allocator_journal)
| history_restore base count b a :
    uint 64 base -> uint 16 count -> uint 64 b -> restore_from_bitmap base count b = Ok a ->
    journaled_history (if b =? 0 then Settled else Diverged) (a, new_allocator_journal)
| history_journaled u n r st st' :
    journaled_history u st -> uint 16 n -> allocate_journaled n st = (r, st') ->
    journaled_history (after_allocation (is_ok r) u) st'
| history_commit u r st st' :
    journaled_history u st -> commit_last_allocation st = (r, st') ->
    journaled_history (after_commit u) st'
| history_allocate u n r a a' j :
    journaled_history u (a, j) -> uint 16 n -> allocate n a = (r, a') ->
    journaled_history (after_change (is_ok r) u) (a', j)
| history_free u x r a a' j :
    journaled_history u (a, j) -> uint 16 (start_block x) -> uint 16 (extent_blocks x) -> free_extent x a = (r, a') ->
    journaled_history (after_change (is_ok r) u) (a', j).

(** The chain of records leads to the committed bitmap; a waiting record
    extends it to the current bitmap. *)
Definition journal_agrees (u : journal_use) (a : BlockAllocator) (log : list AllocatorJournalRecord) : Prop :=
  match u with
  | Settled => replay log 0 = (len log, committed_bitmap a) /\ bitmap a = committed_bitmap a
  | Waiting => exists l r, log = l ++ [r] /\ replay l 0 = (len l, committed_bitmap a) /\ unmarked r (committed_bitmap a) (bitmap a)
  | Diverged => True
  end.

(** The bitmaps of the records have no bit outside the layout. *)
Definition record_wf (a : BlockAllocator) (r : AllocatorJournalRecord) : Prop := bitmap_wf (block_count a) (next_bitmap r).

Record journaled_inv (u : journal_use) (a : BlockAllocator) (j : AllocatorJournal) : Prop := {
  ji_allocator : allocator_wf a;
  ji_bounds : log_bounds j;
  ji_records : Forall (record_wf a) (journal_log j);
  ji_agrees : journal_agrees u a (journal_log j);
}.

Lemma replay_snoc_inv l r b b' :
  replay (l ++ [r]) b = (len l + 1, b') ->
  replay l b = (len l, previous_bitmap r) /\ next_bitmap r = b'.
Proof.
  revert b. induction l as [|r0 l IH]; intros b; simpl.
  - destruct (is_ok _ && _) eqn:Hv; [|intros [=]; unfold len in *; simpl in *; lia].
    apply andb_true_iff in Hv as [_ ->%Z.eqb_eq]. intros [= ->]. done.
  - assert (len (r0 :: l) = len l + 1) as -> by (unfold len; simpl; lia).
    destruct (is_ok _ && _); [|intros [=]; pose proof (len_nonneg l); lia].
    destruct (replay (l ++ [r]) (next_bitmap r0)) as [n b1] eqn:Hr. intros [= Hn ->].
    destruct (IH (next_bitmap r0)) as [-> ->]; [rewrite Hr; f_equal; lia|done].
Qed.

(** Marking the record [r] as committed extends the chain by it. *)
Lemma replay_committed l r b : replay l 0 = (len l, previous_bitmap r) -> next_bitmap r = b ->
  replay (l ++ [committed_record r]) 0 = (len (l ++ [committed_record r]), b).
Proof.
  intros Hrep Hn. rewrite (replay_app _ _ _ _ Hrep). cbn [replay].
  rewrite committed_record_valid. cbn [previous_bitmap committed_record next_bitmap].
  rewrite Z.eqb_refl. cbn [andb fst snd]. rewrite Hn, len_snoc. done.
Qed.

Lemma start_inv base count a :
  uint 64 base -> uint 16 count -> new_allocator base count = Ok a -> journaled_inv Settled a new_allocator_journal.
Proof.
  intros Hb Hc Hnew. pose proof (new_allocator_spec base count Hb Hc) as H. rewrite Hnew in H. simpl in H.
  destruct H as (Hl & Hbase & Hcount & Hbit & Hcom). split.
  - apply (layout_wf a base count 0); try done. apply empty_bitmap_wf.
  - by vm_compute.
  - constructor.
  - split; [by rewrite Hcom|by rewrite Hcom, Hbit].
Qed.

Lemma restore_inv base count b a :
  uint 64 base -> uint 16 count -> uint 64 b -> restore_from_bitmap base count b = Ok a ->
  journaled_inv (if b =? 0 then Settled else Diverged) a new_allocator_journal.
Proof.
  intros Hb Hc Hm Hres. pose proof (restore_from_bitmap_spec base count b Hb Hc Hm) as H. rewrite Hres in H. simpl in H.
  destruct H as (Hl & Hwf & Hbase & Hcount & Hbit & Hcom). split.
  - by apply (layout_wf a base count b).
  - by vm_compute.
  - constructor.
  - destruct (Z.eqb_spec b 0) as [->|]; [|done]. split; [by rewrite Hcom|by rewrite Hcom, Hbit].
Qed.

Lemma journaled_step_inv u a j n r a' j' :
  journaled_inv u a j -> uint 16 n -> allocate_journaled n (a, j) = (r, (a', j')) ->
  journaled_inv (after_allocation (is_ok r) u) a' j'.
Proof.
  intros Hi Hn Hrun. pose proof Hi as [Hw Hj Hrs Hag].
  destruct (wpA_run _ _ _ _ (allocate_journaled_spec a j n Hw Hj Hn))
    as [(x & [a1 j1] & Hm & HQ)|(e & [a1 j1] & Hm & HQ)]; rewrite Hrun in Hm; simplify_eq; simpl; [|by destruct HQ as [-> ->]].
  destruct HQ as (_ & _ & _ & Hw' & Hcount & Hj' & Hcom & _ & r & Hlog & Hr). split; [done|done| |].
  - rewrite Hlog. unfold record_wf. rewrite Hcount. apply Forall_app. split; [done|]. constructor; [|constructor].
    destruct Hr as (_ & -> & _). rewrite <- Hcount. apply Hw'.
  - destruct u; [|done..]. destruct Hag as [Hrep _]. exists (journal_log j), r. rewrite Hcom. done.
Qed.

Lemma commit_step_inv u a j r a' j' :
  journaled_inv u a j -> commit_last_allocation (a, j) = (r, (a', j')) -> journaled_inv (after_commit u) a' j'.
Proof.
  intros Hi Hrun. pose proof Hi as [Hw Hj Hrs Hag]. pose proof (len_journal_log j Hj) as Hlen.
  destruct (decide (allocator_journal_len j = 0)) as [H0|H0].
  { rewrite (commit_nothing a j Hj H0) in Hrun. injection Hrun as <- <- <-. destruct u; [done| |done].
    destruct Hag as (l & r0 & Hlog & _). rewrite Hlog, len_snoc, H0 in Hlen. pose proof (len_nonneg l). lia. }
  destruct (exists_last (l := journal_log j)) as (l & r0 & Hlog); [intros Hnil; by rewrite Hnil in Hlen|].
  destruct (wpA_run _ _ _ _ (commit_last_allocation_spec a j l r0 Hj Hlog)) as [(r' & [a1 j1] & Hm & Hj' & Hlog' & ->)|(e & st & _ & [])].
  rewrite Hrun in Hm. injection Hm as -> -> ->. rewrite Hlog in Hrs. apply Forall_app in Hrs as [Hrs Hr0]. pose proof (Forall_inv Hr0) as Hwf.
  assert (forall b, replay l 0 = (len l, previous_bitmap r0) -> next_bitmap r0 = b ->
    journal_agrees Settled {| base_sector := base_sector a; block_count := block_count a; bitmap := b; committed_bitmap := b |} (journal_log j1)) as Hset.
  { intros b Hrep Hb. rewrite Hlog'. split; [|done]. by apply replay_committed. }
  split; [destruct Hw; by split|done| |].
  - rewrite Hlog'. apply Forall_app. split; [exact Hrs|]. constructor; [exact Hwf|constructor].
  - destruct u; [| |done].
    + destruct Hag as [Hrep _]. rewrite Hlog, len_snoc in Hrep.
      destruct (replay_snoc_inv _ _ _ _ Hrep) as [Hl Hn]. by apply Hset.
    + destruct Hag as (l' & r1 & Heq & Hrep & Hp & _ & _). rewrite Hlog in Heq. apply app_inj_tail in Heq as [<- <-].
      apply Hset; [by rewrite Hp|done].
Qed.

(** A change that is not journaled keeps the layout. *)
Lemma change_step_inv {A} u a j (r : outcome AllocatorError A) a' :
  journaled_inv u a j -> allocator_wf a' -> block_count a' = block_count a -> (is_ok r = false -> a' = a) ->
  journaled_inv (after_change (is_ok r) u) a' j.
Proof.
  intros [Hw Hj Hrs Hag] Hw' Hc Herr. destruct (is_ok r); simpl; [|by rewrite Herr].
  split; [done|done| |done]. unfold record_wf. by rewrite Hc.
Qed.

Lemma journaled_history_inv u st : journaled_history u st -> journaled_inv u st.1 st.2.
Proof.
  induction 1 as [base count a Hb Hc Hnew|base count b a Hb Hc Hm Hres|u n r [a j] [a' j'] _ IH Hn Hrun|u r [a j] [a' j'] _ IH Hrun|
    u n r a a' j _ IH Hn Hrun|u x r a a' j _ IH Hs Hn Hrun].
  - by apply (start_inv base count).
  - by apply (restore_inv base count).
  - by apply (journaled_step_inv u a j n).
  - by apply (commit_step_inv u a j r).
  - cbn [fst snd] in *. destruct (wpA_run _ _ _ _ (allocate_spec a n (ji_allocator _ _ _ IH) Hn)) as [(y & a1 & Hm & HQ)|(e & a1 & Hm & HQ)];
      rewrite Hrun in Hm; injection Hm as -> ->; apply (change_step_inv u a); try done.
    + by destruct HQ as (_ & _ & _ & _ & ? & _).
    + by destruct HQ as (_ & _ & _ & _ & _ & _ & ? & _).
    + destruct HQ as [-> _]. apply IH.
    + by destruct HQ as [-> _].
    + by destruct HQ as [-> _].
  - cbn [fst snd] in *. destruct (wpA_run _ _ _ _ (free_spec a x (ji_allocator _ _ _ IH) Hs Hn)) as [(y & a1 & Hm & HQ)|(e & a1 & Hm & HQ)];
      rewrite Hrun in Hm; injection Hm as -> ->; apply (change_step_inv u a); try done.
    + by destruct HQ as (_ & ? & _).
    + by destruct HQ as (_ & _ & _ & ? & _).
    + destruct HQ as [-> _]. apply IH.
    + by destruct HQ as [-> _].
    + by destruct HQ as [-> _].
Qed.

(** C33: Recovery agrees with the allocator. Through any sequence of journaled
    allocations, commits, plain allocations and frees, failed calls included,
    from a new or a restored allocator, the allocator stays well formed and
    recovery of the journal returns. As long as every change of the allocator
    is a journaled allocation that is committed before the next one, recovery
    yields exactly the committed bitmap of the allocator, and only an
    allocation that waits for its commit is rolled back. Plain [allocate] and
    [free] are not journaled: after one that succeeds, or after two journaled
    allocations in a row, recovery returns but need not agree. *)
Theorem recovery_agrees_with_allocator u a j :
  journaled_history u (a, j) ->
  allocator_wf a /\
  match u with
  | Settled => recover_allocator_journal j =
      Ok {| report_replayed := allocator_journal_len j; report_rolled_back := 0; report_bitmap := committed_bitmap a |}
  | Waiting => recover_allocator_journal j =
      Ok {| report_replayed := allocator_journal_len j - 1; report_rolled_back := 1; report_bitmap := committed_bitmap a |}
  | Diverged => exists report, recover_allocator_journal j = Ok report /\
      report_replayed report + report_rolled_back report = allocator_journal_len j
  end.
Proof.
  intros [Hw Hj _ Hag]%journaled_history_inv. cbn [fst snd] in *. split; [done|].
  rewrite (recover_replay j Hj). pose proof (len_journal_log j Hj) as Hlen. destruct u.
  - destruct Hag as [Hrep _]. rewrite Hrep. simpl. do 2 f_equal; lia.
  - destruct Hag as (l & r & Hlog & Hrep & _ & _ & Hmark). rewrite Hlog in *.
    rewrite (replay_app _ _ _ _ Hrep). cbn [replay].
    unfold validate_record, reject. rewrite Hmark.
    change (negb (0 =? ALLOCATOR_COMMIT_MARKER)) with true. simpl.
    unfold len in *. rewrite length_app in Hlen. simpl in Hlen. do 2 f_equal; lia.
  - eexists. split; [reflexivity|]. simpl. lia.
Qed.

(** The order matters: after two journaled allocations in a row the commit
    of the second succeeds and makes both authoritative in the allocator, but
    recovery stops at the first, never committed record and yields the empty
    bitmap. *)
Theorem commit_after_two_allocations_is_lost :
  match run (allocate_journaled 1;; allocate_journaled 2;; commit_last_allocation)
          ({| base_sector := 64; block_count := 8; bitmap := 0; committed_bitmap := 0 |},
           new_allocator_journal) with
  | Ok (r, (a, j)) =>
      next_bitmap r = 7 /\ bitmap a = 7 /\ committed_bitmap a = 7 /\
      recover_allocator_journal j =
        Ok {| report_replayed := 0; report_rolled_back := 2; report_bitmap := 0 |}
  | _ => False
  end.
Proof. vm_compute. done. Qed.

(** The two layouts of the boot self-test, by the device's capacity. *)
Lemma new_for_device_self_test d :
  new_for_device d 64 16 =
    (if capacity_sectors d <? 80 then Err InvalidLayout
     else Ok {| base_sector := 64; block_count := 16; bitmap := 0; committed_bitmap := 0 |}) /\
  new_for_device d 80 8 =
    (if capacity_sectors d <? 88 then Err InvalidLayout
     else Ok {| base_sector := 80; block_count := 8; bitmap := 0; committed_bitmap := 0 |}).
Proof.
  unfold new_for_device. change (new_allocator 64 16) with
    (@Ok AllocatorError _ {| base_sector := 64; block_count := 16; bitmap := 0; committed_bitmap := 0 |}).
  change (new_allocator 80 8) with
    (@Ok AllocatorError _ {| base_sector := 80; block_count := 8; bitmap := 0; committed_bitmap := 0 |}).
  rewrite !ok_bind. change (checked_add 64 64 16) with (Some 80).
  change (checked_add 64 80 8) with (Some 88). cbn [ok_or]. rewrite !ok_bind. unfold reject.
  split; [by destruct (capacity_sectors d <? 80)|by destruct (capacity_sectors d <? 88)].
Qed.

(** The boot self-test of the allocator succeeds on every device with at
    least 88 sectors and reports an invalid layout on every smaller one. *)
Lemma allocator_self_test_exact d :
  allocator_self_test d = if capacity_sectors d <? 88 then Err InvalidLayout else Ok tt.
Proof.
  destruct (new_for_device_self_test d) as [H1 H2]. unfold allocator_self_test. rewrite H1, H2.
  clear H1 H2. assert ((capacity_sectors d <? 80) = true -> (capacity_sectors d <? 88) = true) as Hlt by lia.
  destruct (capacity_sectors d <? 80); [by rewrite Hlt|].
  destruct (capacity_sectors d <? 88); by vm_compute.
Qed.
