(* ===== verification/SlotTable.v ===== *)
(** * Tables of optional slots

    The stores of the kernel are arrays [[Option<T>; N]] searched by a key and
    filled at the first empty slot. Such a table is seen as the finite map of
    its entries; the lemmas say what each access means on the map. *)

From stdpp Require Import base numbers list gmap.
From S2P Require Import Prelude Kernel.

(** [o.is_none()] *)
Definition empty_slot {A} (o : option A) : bool := match o with None => true | Some _ => false end.

(** The entries, in slot order. *)
Definition entries_of {A} (l : list (option A)) : list A := omap id l.

Section table.
Context {A : Type} (key : A -> Z).
Implicit Types (l : list (option A)) (x y : A) (i k : Z).

(** [if let Some(x) = slot && x.key() == k] *)
Definition has_key (k : Z) (o : option A) : bool :=
  match o with Some x => key x =? k | None => false end.

(** No two entries have the same key. *)
Definition unique_keys l : Prop := NoDup (key <$> entries_of l).

Definition contents l : gmap Z A := list_to_map ((fun x => (key x, x)) <$> entries_of l).

Lemma contents_keys l : ((fun x => (key x, x)) <$> entries_of l).*1 = key <$> entries_of l.
Proof. rewrite <- list_fmap_compose. done. Qed.

Lemma elem_of_entries l x : x ∈ entries_of l <-> Some x ∈ l.
Proof.
  unfold entries_of. rewrite list_elem_of_omap. split; [by intros (? & ? & <-)|by exists (Some x)].
Qed.

Lemma contents_Some l k x : unique_keys l -> contents l !! k = Some x <-> Some x ∈ l /\ key x = k.
Proof.
  intros Hu. unfold contents. rewrite <- elem_of_list_to_map by by rewrite contents_keys.
  rewrite list_elem_of_fmap. setoid_rewrite elem_of_entries. naive_solver.
Qed.

Lemma contents_dom l k : k ∈ dom (contents l) <-> exists x, Some x ∈ l /\ key x = k.
Proof.
  unfold contents. rewrite dom_list_to_map_L, elem_of_list_to_set, contents_keys, list_elem_of_fmap.
  setoid_rewrite elem_of_entries. naive_solver.
Qed.

Lemma contents_size l : unique_keys l -> size (contents l) = length (entries_of l).
Proof.
  intros Hu. unfold contents. rewrite map_size_list_to_map by by rewrite contents_keys.
  by rewrite length_fmap.
Qed.

Lemma contents_empty (n : nat) : contents (replicate n None) = ∅.
Proof. unfold contents, entries_of. induction n; simpl; done. Qed.

Lemma unique_empty (n : nat) : unique_keys (replicate n None).
Proof. unfold unique_keys, entries_of. induction n; simpl; [constructor|done]. Qed.

Lemma entries_split l i o :
  get l i = Some o ->
  exists l1 l2, l = l1 ++ o :: l2 /\ len l1 = i /\ forall p, <[Z.to_nat i := p]> l = l1 ++ p :: l2.
Proof.
  intros [Hi Ho]%get_Some. pose proof (lookup_lt_Some _ _ _ Ho) as Hlt.
  exists (take (Z.to_nat i) l), (drop (S (Z.to_nat i)) l). split_and!.
  - by rewrite take_drop_middle.
  - unfold len. rewrite length_take. lia.
  - intros p. by apply insert_take_drop.
Qed.

Lemma entries_app l1 o l2 :
  entries_of (l1 ++ o :: l2) = entries_of l1 ++ option_list o ++ entries_of l2.
Proof. unfold entries_of. rewrite omap_app. simpl. by destruct o. Qed.

(** Filling an empty slot. *)
Lemma contents_fill l i x :
  get l i = Some None -> unique_keys l -> contents l !! key x = None ->
  unique_keys (<[Z.to_nat i := Some x]> l) /\
  contents (<[Z.to_nat i := Some x]> l) = <[key x := x]> (contents l) /\
  length (entries_of (<[Z.to_nat i := Some x]> l)) = S (length (entries_of l)).
Proof.
  intros (l1 & l2 & -> & _ & Hins)%entries_split Hu Hn. rewrite Hins.
  assert (entries_of (l1 ++ Some x :: l2) ≡ₚ x :: entries_of (l1 ++ None :: l2)) as Hp.
  { rewrite !entries_app. simpl. by rewrite Permutation_middle. }
  assert (NoDup (key <$> x :: entries_of (l1 ++ None :: l2))) as Hnd.
  { simpl. constructor; [|done]. intros Hin. apply not_elem_of_dom in Hn. apply Hn.
    unfold contents. by rewrite dom_list_to_map_L, elem_of_list_to_set, contents_keys. }
  split_and!.
  - unfold unique_keys. by rewrite Hp.
  - unfold contents. rewrite (list_to_map_proper _ ((fun x => (key x, x)) <$> x :: entries_of (l1 ++ None :: l2))).
    + done.
    + rewrite contents_keys, Hp. done.
    + by rewrite Hp.
  - by rewrite Hp.
Qed.

(** Replacing an entry by one with the same key. *)
Lemma contents_replace l i x y :
  get l i = Some (Some y) -> unique_keys l -> key x = key y ->
  unique_keys (<[Z.to_nat i := Some x]> l) /\
  contents (<[Z.to_nat i := Some x]> l) = <[key x := x]> (contents l) /\
  length (entries_of (<[Z.to_nat i := Some x]> l)) = length (entries_of l).
Proof.
  intros (l1 & l2 & -> & _ & Hins)%entries_split Hu Hk. rewrite Hins.
  assert (forall z, entries_of (l1 ++ Some z :: l2) ≡ₚ z :: entries_of (l1 ++ l2)) as Hp.
  { intros z. rewrite entries_app. unfold entries_of. rewrite omap_app. simpl.
    by rewrite Permutation_middle. }
  assert (NoDup (key <$> x :: entries_of (l1 ++ l2))) as Hnd.
  { unfold unique_keys in Hu. rewrite Hp in Hu. simpl in *. by rewrite Hk. }
  assert (unique_keys (l1 ++ Some x :: l2)) as Hu' by (unfold unique_keys; by rewrite Hp).
  split_and!; [done| |by rewrite !Hp].
  unfold contents.
  rewrite (list_to_map_proper _ ((fun x => (key x, x)) <$> x :: entries_of (l1 ++ l2)));
    [|rewrite contents_keys; by rewrite Hp|by rewrite Hp].
  rewrite (list_to_map_proper (_ <$> entries_of (l1 ++ Some y :: l2))
             ((fun x => (key x, x)) <$> y :: entries_of (l1 ++ l2)));
    [|by rewrite contents_keys|by rewrite Hp].
  simpl. by rewrite Hk, insert_insert_eq.
Qed.

(** Emptying a slot. *)
Lemma contents_clear l i y :
  get l i = Some (Some y) -> unique_keys l ->
  unique_keys (<[Z.to_nat i := None]> l) /\
  contents (<[Z.to_nat i := None]> l) = delete (key y) (contents l).
Proof.
  intros (l1 & l2 & -> & _ & Hins)%entries_split Hu. rewrite Hins.
  assert (entries_of (l1 ++ Some y :: l2) ≡ₚ y :: entries_of (l1 ++ None :: l2)) as Hp.
  { rewrite !entries_app. simpl. by rewrite Permutation_middle. }
  assert (NoDup (key <$> y :: entries_of (l1 ++ None :: l2))) as Hnd.
  { unfold unique_keys in Hu. by rewrite Hp in Hu. }
  split; [simpl in Hnd; by apply NoDup_cons in Hnd as [_ Hnd]|].
  unfold contents at 2.
  rewrite (list_to_map_proper _ ((fun x => (key x, x)) <$> y :: entries_of (l1 ++ None :: l2)));
    [|by rewrite contents_keys|by rewrite Hp].
  simpl. rewrite delete_insert_id; [done|]. apply not_elem_of_list_to_map_1.
  rewrite contents_keys. simpl in Hnd. by apply NoDup_cons in Hnd as [Hnd _].
Qed.

(** Different slots have different keys. *)
Lemma unique_slots l i j x y :
  unique_keys l -> get l i = Some (Some x) -> get l j = Some (Some y) -> key x = key y -> i = j.
Proof.
  intros Hu Hi Hj Hk. destruct (decide (i = j)) as [|Hne]; [done|exfalso].
  pose proof (entries_split l i (Some x) Hi) as (l1 & l2 & Hl & _ & Hins).
  assert (get (<[Z.to_nat i := None]> l) j = Some (Some y)) as Hj'.
  { pose proof (proj1 (get_Some _ _ _) Hi) as [? _]. by rewrite get_insert_ne by lia. }
  destruct (contents_clear l i x Hi Hu) as [_ Hc].
  assert (key x ∈ dom (contents (<[Z.to_nat i := None]> l))) as Hd.
  { apply contents_dom. exists y. split; [by eapply get_elem_of|done]. }
  rewrite Hc, dom_delete in Hd. set_solver.
Qed.

(** Searching. *)
Lemma has_key_found l k i :
  unique_keys l -> position (has_key k) l = Some i ->
  exists x, get l i = Some (Some x) /\ key x = k /\ contents l !! k = Some x.
Proof.
  intros Hu (Hi & ([x|] & Hx & Hk) & _)%position_Some; [|done]. simpl in Hk.
  apply Z.eqb_eq in Hk. exists x. split_and!; [done..|]. apply contents_Some; [done|].
  split; [by eapply get_elem_of|done].
Qed.

Lemma has_key_missing l k : position (has_key k) l = None -> contents l !! k = None.
Proof.
  intros Hp. apply not_elem_of_dom. intros (x & Hx & Hk)%contents_dom.
  pose proof (position_None _ _ Hp _ Hx) as H. simpl in H. lia.
Qed.

Lemma position_has_key l k :
  unique_keys l ->
  match position (has_key k) l with
  | Some i => exists x, get l i = Some (Some x) /\ key x = k /\ contents l !! k = Some x
  | None => contents l !! k = None
  end.
Proof.
  intros Hu. destruct (position _ _) as [i|] eqn:Hp; [by apply has_key_found|by apply has_key_missing].
Qed.

(** An entry found by its key is the entry of the map. *)
Lemma find_has_key l k :
  unique_keys l -> find (has_key k) l ≫= id = contents l !! k.
Proof.
  intros Hu. destruct (find _ _) as [o|] eqn:Hf; simpl.
  - apply find_Some in Hf as [Hin Hk]. destruct o as [x|]; [|done]. simpl in Hk.
    apply Z.eqb_eq in Hk. symmetry. by apply contents_Some.
  - symmetry. apply not_elem_of_dom. intros (x & Hx & Hk)%contents_dom.
    pose proof (find_None _ _ Hf _ Hx) as H. simpl in H. lia.
Qed.

Lemma free_slot_found l i :
  position empty_slot l = Some i -> get l i = Some None /\ 0 <= i < len l.
Proof. intros (Hi & ([x|] & Hx & Hk) & _)%position_Some; done. Qed.

Lemma length_entries_le l : (length (entries_of l) <= length l)%nat.
Proof. induction l as [|[x|] l IH]; simpl; unfold entries_of in *; simpl; lia. Qed.

Lemma length_entries_lt l : (length (entries_of l) < length l)%nat <-> None ∈ l.
Proof.
  induction l as [|[x|] l IH].
  - split; [simpl; lia|]. intros H. by apply elem_of_nil in H.
  - rewrite elem_of_cons, <- IH. change (entries_of (Some x :: l)) with (x :: entries_of l).
    simpl. split; [intros; right; lia|intros [?|?]; [done|lia]].
  - split; [by left|]. intros _. change (entries_of (None :: l)) with (entries_of l).
    pose proof (length_entries_le l). simpl. lia.
Qed.

Lemma free_slot_missing l :
  position empty_slot l = None -> length (entries_of l) = length l.
Proof.
  intros Hp. pose proof (length_entries_lt l) as H.
  assert (~ None ∈ l) as Hn. { intros Hin. by pose proof (position_None _ _ Hp _ Hin). }
  pose proof (length_entries_le l) as Hle.
  destruct (decide (length (entries_of l) < length l)%nat); [|lia]. exfalso. by apply Hn, H.
Qed.

End table.

(** ** Rebuilding a table

    The restore loops start from an empty array and copy slot after slot. *)

Section rebuild.
Context {A : Type}.
Implicit Types (l : list (option A)) (n : Z).

(** The first [n] slots of [l], the others still empty. *)
Definition filled l n : list (option A) :=
  take (Z.to_nat n) l ++ replicate (Z.to_nat (len l - n)) None.

Lemma filled_none l : filled l 0 = replicate (length l) None.
Proof. unfold filled, len. simpl. f_equal. lia. Qed.

Lemma filled_all l : filled l (len l) = l.
Proof. unfold filled, len. rewrite Z.sub_diag, app_nil_r. apply take_ge. lia. Qed.

Lemma len_filled l n : 0 <= n <= len l -> len (filled l n) = len l.
Proof. unfold filled, len. rewrite length_app, length_take, length_replicate. lia. Qed.

(** Copying the next slot. *)
Lemma filled_set l n o :
  0 <= n < len l -> get l n = Some o -> <[Z.to_nat n := o]> (filled l n) = filled l (n + 1).
Proof.
  intros Hn [_ Ho]%get_Some. unfold filled, len in *.
  rewrite insert_app_r_alt by (rewrite length_take; lia).
  rewrite length_take, Nat.min_l, Nat.sub_diag by lia.
  replace (Z.to_nat (n + 1)) with (S (Z.to_nat n)) by lia. rewrite (take_S_r _ _ o Ho), <- app_assoc.
  f_equal. by replace (Z.to_nat (Z.of_nat (length l) - n)) with
    (S (Z.to_nat (Z.of_nat (length l) - (n + 1)))) by lia.
Qed.

(** An empty slot needs no copy. *)
Lemma filled_skip l n : 0 <= n < len l -> get l n = Some None -> filled l n = filled l (n + 1).
Proof.
  intros Hn Ho. rewrite <- (filled_set l n None Hn Ho). symmetry. apply list_insert_id.
  unfold filled, len in *. rewrite lookup_app_r by (rewrite length_take; lia).
  rewrite lookup_replicate, length_take. split; [done|lia].
Qed.

Lemma get_filled l n i x :
  0 <= n <= len l -> get (filled l n) i = Some (Some x) <-> get l i = Some (Some x) /\ i < n.
Proof.
  intros Hn. rewrite !get_Some, len_filled by done. unfold filled.
  rewrite lookup_app_Some, lookup_take_Some, lookup_replicate, length_take. unfold len in *.
  split; intros; destruct_and?.
  - destruct_or?; destruct_and?; [|done]. split_and!; try done; lia.
  - split_and!; try done; try lia. left. split; [done|lia].
Qed.
End rebuild.
