(* ===== verification/ObjectFormat.v ===== *)
(** * Typed object records

    [core/src/typed_object_format.rs] and the object identities and kinds of
    [core/src/shell_objects.rs]: a record of at most four fields with values of
    at most sixteen bytes, and its fixed encoding in 120 bytes. *)

From stdpp Require Import base numbers list.
From Stdlib Require Import Strings.Byte.
From S2P Require Import Prelude ByteRegions.

(** ** Data *)

(** [ObjectId] wraps a [u64]. *)
Abbreviation ObjectId := Z.

Module Kind.
Inductive t : Type :=
| ApplicationLauncherWindow
| BootIdentitySurface
| ServiceMonitorWindow
| PythonConsoleWindow
| SettingsPanelWindow
| WorkspaceSession
| ObjectBrowserWindow
| ButtonWidget
| TextFieldWidget
| Note
| NameBinding
| Task
| TaskProposal
| TaskEvent
| TaskRelation
| RelevanceAssertion
| CapabilityRequest
| Package
| SchemaDefinition
| PackageDefinedObject.

#[export] Instance kind_eq_dec : EqDecision t.
Proof. solve_decision. Defined.
End Kind.
Definition ObjectKind : Type := Kind.t.
#[export] Instance object_kind_eq_dec : EqDecision ObjectKind := Kind.kind_eq_dec.

Definition OBJECT_KIND_TASK : Z := 20.
Definition OBJECT_KIND_TASK_PROPOSAL : Z := 21.
Definition OBJECT_KIND_TASK_EVENT : Z := 22.
Definition OBJECT_KIND_TASK_RELATION : Z := 23.
Definition OBJECT_KIND_RELEVANCE_ASSERTION : Z := 24.
Definition OBJECT_KIND_CAPABILITY_REQUEST : Z := 25.
Definition OBJECT_KIND_PACKAGE : Z := 30.
Definition OBJECT_KIND_SCHEMA_DEFINITION : Z := 31.
Definition OBJECT_KIND_PACKAGE_DEFINED_OBJECT : Z := 32.

Definition FORMAT_VERSION : Z := 1.
Definition MAX_FIELDS : Z := 4.
Definition FIELD_VALUE_CAPACITY : Z := 16.
Definition FIELD_SLOT_SIZE : Z := 24.
Definition HEADER_SIZE : Z := 24.
Definition RECORD_SIZE : Z := HEADER_SIZE + MAX_FIELDS * FIELD_SLOT_SIZE.

(** [b"PYOB"] *)
Definition OBJECT_MAGIC : list byte := [x50; x59; x4f; x42].

Inductive ObjectFormatError : Type :=
| BadMagic
| UnsupportedVersion
| InvalidRecordLength
| InvalidKind
| FieldTableFull
| FieldValueTooLarge
| FieldReservedNonZero.

Record TypedObjectField := {
  field_id : Z;
  field_version : Z;
  value_len : Z;
  field_value : list byte;
}.

Definition EMPTY_FIELD : TypedObjectField :=
  {| field_id := 0; field_version := 0; value_len := 0;
     field_value := zeros FIELD_VALUE_CAPACITY |}.

Record TypedObjectRecord := {
  object_id : ObjectId;
  object_kind : ObjectKind;
  schema_version : Z;
  field_count : Z;
  fields : list TypedObjectField;
}.

#[export] Instance field_eq_dec : EqDecision TypedObjectField.
Proof. solve_decision. Defined.
#[export] Instance object_eq_dec : EqDecision TypedObjectRecord.
Proof. solve_decision. Defined.

Abbreviation F := (outcome ObjectFormatError).

(** ** Byte access *)

Definition object_write_u16 (bytes : list byte) (offset value : Z) : F (list byte) :=
  bytes ← index_set bytes offset (byte_of value);
  index_set bytes (offset + 1) (byte_of (Z.shiftr value 8)).

(** The loop of [write_u64], with [n] rounds to go. *)
Fixpoint write_remaining (n : nat) (bytes : list byte) (offset remaining : Z) : F (list byte) :=
  match n with
  | O => Ok bytes
  | S n' =>
      bytes ← index_set bytes offset (byte_of remaining);
      write_remaining n' bytes (offset + 1) (Z.shiftr remaining 8)
  end.

Definition object_write_u64 (bytes : list byte) (offset value : Z) : F (list byte) :=
  write_remaining 8 bytes offset value.

Definition object_read_u16 (bytes : list byte) (offset : Z) : F Z :=
  a ← index bytes offset;
  b ← index bytes (offset + 1);
  Ok (Z.lor (byte_val a) (Z.shiftl (byte_val b) 8)).

Definition object_read_u64 (bytes : list byte) (offset : Z) : F Z :=
  foldM (fun value i =>
    b ← index bytes (offset + i);
    Ok (Z.lor value (Z.shiftl (byte_val b) (i * 8)))) 0 (range 0 8).

(** ** Kinds *)

Definition kind_code (kind : ObjectKind) : Z :=
  match kind with
  | Kind.ApplicationLauncherWindow => 1
  | Kind.BootIdentitySurface => 2
  | Kind.ServiceMonitorWindow => 3
  | Kind.PythonConsoleWindow => 4
  | Kind.SettingsPanelWindow => 5
  | Kind.ButtonWidget => 6
  | Kind.TextFieldWidget => 7
  | Kind.WorkspaceSession => 8
  | Kind.ObjectBrowserWindow => 9
  | Kind.Note => 10
  | Kind.NameBinding => 11
  | Kind.Task => OBJECT_KIND_TASK
  | Kind.TaskProposal => OBJECT_KIND_TASK_PROPOSAL
  | Kind.TaskEvent => OBJECT_KIND_TASK_EVENT
  | Kind.TaskRelation => OBJECT_KIND_TASK_RELATION
  | Kind.RelevanceAssertion => OBJECT_KIND_RELEVANCE_ASSERTION
  | Kind.CapabilityRequest => OBJECT_KIND_CAPABILITY_REQUEST
  | Kind.Package => OBJECT_KIND_PACKAGE
  | Kind.SchemaDefinition => OBJECT_KIND_SCHEMA_DEFINITION
  | Kind.PackageDefinedObject => OBJECT_KIND_PACKAGE_DEFINED_OBJECT
  end.

Definition kind_from_code (code : Z) : F ObjectKind :=
  match code with
  | 1 => Ok Kind.ApplicationLauncherWindow
  | 2 => Ok Kind.BootIdentitySurface
  | 3 => Ok Kind.ServiceMonitorWindow
  | 4 => Ok Kind.PythonConsoleWindow
  | 5 => Ok Kind.SettingsPanelWindow
  | 6 => Ok Kind.ButtonWidget
  | 7 => Ok Kind.TextFieldWidget
  | 8 => Ok Kind.WorkspaceSession
  | 9 => Ok Kind.ObjectBrowserWindow
  | 10 => Ok Kind.Note
  | 11 => Ok Kind.NameBinding
  | 20 => Ok Kind.Task
  | 21 => Ok Kind.TaskProposal
  | 22 => Ok Kind.TaskEvent
  | 23 => Ok Kind.TaskRelation
  | 24 => Ok Kind.RelevanceAssertion
  | 25 => Ok Kind.CapabilityRequest
  | 30 => Ok Kind.Package
  | 31 => Ok Kind.SchemaDefinition
  | 32 => Ok Kind.PackageDefinedObject
  | _ => Err InvalidKind
  end.

(** ** Records *)

Definition new_field (id version : Z) (value : list byte) : F TypedObjectField :=
  reject (FIELD_VALUE_CAPACITY <? len value) FieldValueTooLarge;;
  v ← copy_into (zeros FIELD_VALUE_CAPACITY) 0 value;
  Ok {| field_id := id; field_version := version; value_len := wrap 16 (len value);
        field_value := v |}.

Definition new_object (id : ObjectId) (kind : ObjectKind) (version : Z) : TypedObjectRecord :=
  {| object_id := id; object_kind := kind; schema_version := version; field_count := 0;
     fields := replicate (Z.to_nat MAX_FIELDS) EMPTY_FIELD |}.

Definition push_field (r : TypedObjectRecord) (f : TypedObjectField) : F TypedObjectRecord :=
  reject (field_count r =? MAX_FIELDS) FieldTableFull;;
  fs ← index_set (fields r) (field_count r) f;
  n ← expect (checked_add 64 (field_count r) 1);
  Ok {| object_id := object_id r; object_kind := object_kind r;
        schema_version := schema_version r; field_count := n; fields := fs |}.

(** [field(index)] *)
Definition field_at (r : TypedObjectRecord) (i : Z) : F (option TypedObjectField) :=
  if field_count r <=? i then Ok None
  else f ← index (fields r) i; Ok (Some f).

(** One round of the loop in [encode]. *)
Definition encode_field (r : TypedObjectRecord) (bytes : list byte) (i : Z) : F (list byte) :=
  f ← index (fields r) i;
  let offset := HEADER_SIZE + i * FIELD_SLOT_SIZE in
  bytes ← object_write_u16 bytes offset (field_id f);
  bytes ← object_write_u16 bytes (offset + 2) (field_version f);
  bytes ← object_write_u16 bytes (offset + 4) (value_len f);
  bytes ← object_write_u16 bytes (offset + 6) 0;
  copy_into bytes (offset + 8) (field_value f).

Definition encode_object (r : TypedObjectRecord) : F (list byte) :=
  bytes ← copy_into (zeros RECORD_SIZE) 0 OBJECT_MAGIC;
  bytes ← object_write_u16 bytes 4 FORMAT_VERSION;
  bytes ← object_write_u16 bytes 6 (wrap 16 RECORD_SIZE);
  bytes ← object_write_u64 bytes 8 (object_id r);
  bytes ← object_write_u16 bytes 16 (kind_code (object_kind r));
  bytes ← object_write_u16 bytes 18 (schema_version r);
  bytes ← object_write_u16 bytes 20 (wrap 16 (field_count r));
  bytes ← object_write_u16 bytes 22 0;
  foldM (encode_field r) bytes (range 0 (field_count r)).

(** One round of the loop in [decode]. *)
Definition decode_field (bytes : list byte) (r : TypedObjectRecord) (i : Z) : F TypedObjectRecord :=
  let offset := HEADER_SIZE + i * FIELD_SLOT_SIZE in
  reserved ← object_read_u16 bytes (offset + 6);
  reject (negb (reserved =? 0)) FieldReservedNonZero;;
  n ← object_read_u16 bytes (offset + 4);
  reject (FIELD_VALUE_CAPACITY <? n) FieldValueTooLarge;;
  v ← expect (get_range bytes (offset + 8) (offset + 8 + FIELD_VALUE_CAPACITY));
  id ← object_read_u16 bytes offset;
  version ← object_read_u16 bytes (offset + 2);
  push_field r {| field_id := id; field_version := version; value_len := n; field_value := v |}.

Definition decode_object (bytes : list byte) : F TypedObjectRecord :=
  reject (len bytes <? RECORD_SIZE) InvalidRecordLength;;
  m0 ← index bytes 0; m1 ← index bytes 1; m2 ← index bytes 2; m3 ← index bytes 3;
  reject (negb (bool_decide ([m0; m1; m2; m3] = OBJECT_MAGIC))) BadMagic;;
  version ← object_read_u16 bytes 4;
  reject (negb (version =? FORMAT_VERSION)) UnsupportedVersion;;
  size ← object_read_u16 bytes 6;
  reserved ← object_read_u16 bytes 22;
  reject (negb (size =? wrap 16 RECORD_SIZE) || negb (reserved =? 0)) InvalidRecordLength;;
  count ← object_read_u16 bytes 20;
  reject (MAX_FIELDS <? count) InvalidRecordLength;;
  id ← object_read_u64 bytes 8;
  code ← object_read_u16 bytes 16;
  kind ← kind_from_code code;
  schema ← object_read_u16 bytes 18;
  foldM (decode_field bytes) (new_object id kind schema) (range 0 count).

Definition package_schema_ref_value (schema_id : ObjectId) (schema_revision : Z) : F (list byte) :=
  bytes ← object_write_u64 (zeros FIELD_VALUE_CAPACITY) 0 schema_id;
  object_write_u64 bytes 8 schema_revision.

(** [b"service"], [b"ready"] *)
Definition self_test_values : list byte * list byte :=
  ([x73; x65; x72; x76; x69; x63; x65], [x72; x65; x61; x64; x79]).

Definition object_format_self_test : F unit :=
  let '(service, ready) := self_test_values in
  f1 ← new_field 1 1 service;
  r ← push_field (new_object 0x7202 Kind.ServiceMonitorWindow 1) f1;
  f2 ← new_field 2 2 ready;
  r ← push_field r f2;
  bytes ← encode_object r;
  d ← decode_object bytes;
  reject (negb (object_id d =? 0x7202) || negb (bool_decide (object_kind d = Kind.ServiceMonitorWindow))
          || negb (schema_version d =? 1)) InvalidKind;;
  first ← field_at d 0;
  first ← ok_or first InvalidRecordLength;
  second ← field_at d 1;
  second ← ok_or second InvalidRecordLength;
  reject (negb (field_count d =? 2) || negb (field_id first =? 1) || negb (field_version first =? 1)
          || negb (value_len first =? 7) || negb (bool_decide (take 7 (field_value first) = service))
          || negb (field_id second =? 2) || negb (field_version second =? 2)
          || negb (value_len second =? 5) || negb (bool_decide (take 5 (field_value second) = ready)))
    InvalidRecordLength.

(** The boot self-test passes. *)
Lemma object_format_self_test_passes : object_format_self_test = Ok tt.
Proof. by vm_compute. Qed.
