(* ===== verification/ObjectFormatFacts.v ===== *)
(** * Typed object records: facts

    Records of the kernel are well formed, every record is encoded without a
    panic, and decoding its bytes returns it. *)

From stdpp Require Import base numbers list.
From Stdlib Require Import Strings.Byte.
From S2P Require Import Prelude ByteRegions Kernel ObjectFormat.

(** ** Writes and reads *)

Section access.
Context {R : ObjectFormatError -> Prop}.

Lemma wp_index_write (b : list byte) o x (Q : list byte -> Prop) :
  0 <= o < len b ->
  (forall b', len b' = len b -> overwrites o [x] (get b) (get b') -> Q b') ->
  wp (index_set b o x) Q R.
Proof.
  intros Ho HQ. apply wp_index_set; [done|]. apply HQ; [by rewrite len_insert|]. split.
  - intros i Hi. change (len [x]) with 1 in Hi. by rewrite get_insert_ne by lia.
  - apply holds_at_cons. split; [by rewrite get_insert_eq|apply holds_at_nil].
Qed.

Lemma wp_write_remaining n b o v (Q : list byte -> Prop) :
  0 <= o -> o + Z.of_nat n <= len b ->
  (forall b', len b' = len b -> overwrites o (le_bytes n v) (get b) (get b') -> Q b') ->
  wp (write_remaining n b o v) Q R.
Proof.
  revert b o v. induction n as [|n IH]; intros b o v Ho Hn HQ; simpl.
  - apply HQ; [done|]. split; [done|apply holds_at_nil].
  - apply wp_bind, wp_index_write; [lia|]. intros b1 Hl1 Hw1. apply IH; [lia..|].
    intros b2 Hl2 Hw2. apply HQ; [lia|].
    change (le_bytes (S n) v) with ([byte_of v] ++ le_bytes n (v / 256)).
    eapply overwrites_app; [done|]. by rewrite Z.shiftr_div_pow2 in Hw2 by lia.
Qed.

Lemma wp_write_u16 b o v (Q : list byte -> Prop) :
  0 <= o -> o + 2 <= len b ->
  (forall b', len b' = len b -> overwrites o (le_bytes 2 v) (get b) (get b') -> Q b') ->
  wp (object_write_u16 b o v) Q R.
Proof.
  intros Ho Hb HQ. pose proof (wp_write_remaining 2 b o v Q Ho ltac:(lia) HQ) as H.
  unfold object_write_u16. simpl in H. destruct (index_set b o _); simpl in *; try done.
  destruct (index_set a _ _); done.
Qed.

Lemma wp_write_u64 b o v (Q : list byte -> Prop) :
  0 <= o -> o + 8 <= len b ->
  (forall b', len b' = len b -> overwrites o (le_bytes 8 v) (get b) (get b') -> Q b') ->
  wp (object_write_u64 b o v) Q R.
Proof. intros. by apply wp_write_remaining. Qed.

End access.

Lemma index_holds_at {E} (b : list byte) k x :
  holds_at (get b) k [x] -> index (E := E) b k = Ok x.
Proof. intros [H _]%holds_at_cons. unfold index. by rewrite H. Qed.

(** [value |= byte << (8 * i)] appends a byte. *)
Lemma lor_shiftl_add x b n : 0 <= n -> 0 <= x < 2 ^ n -> 0 <= b -> Z.lor x (Z.shiftl b n) = x + b * 2 ^ n.
Proof.
  intros Hn Hx Hb. rewrite Z.shiftl_mul_pow2 by lia.
  rewrite Z.add_nocarry_lxor, Z.lxor_lor; [done|..]; apply Z.bits_inj'; intros i Hi;
    rewrite Z.land_spec, Z.bits_0; apply andb_false_iff;
    (destruct (decide (i < n)); [right; apply Z.mul_pow2_bits_low; lia|left]);
    (destruct (decide (x = 0)) as [->|]; [apply Z.bits_0|apply Z.bits_above_log2; [lia|]]);
    apply Z.log2_lt_pow2; try lia; (apply Z.lt_le_trans with (2 ^ n); [lia|]); apply Z.pow_le_mono_r; lia.
Qed.

Lemma read_u16_at b o v :
  holds_at (get b) o (le_bytes 2 v) -> uint 16 v -> object_read_u16 b o = Ok v.
Proof.
  intros [H0 [H1 _]%holds_at_cons]%holds_at_cons Hv. unfold object_read_u16, index.
  rewrite H0, H1. simpl. f_equal. rewrite (lor_shiftl_add _ _ 8); [|lia| |apply byte_val_range].
  2:{ apply byte_val_range. }
  transitivity (le_val (le_bytes 2 v)); [simpl le_val; lia|by apply (le_val_field 2 16)].
Qed.

(** The loop of [read_u64] after [n] bytes has read the value of the first [n] bytes. *)
Lemma read_rounds b o bs n :
  holds_at (get b) o bs -> 0 <= n <= len bs ->
  foldM (fun value i => x ← index b (o + i); Ok (Z.lor value (Z.shiftl (byte_val x) (i * 8))))
    0 (range 0 n) = (Ok (le_val (take (Z.to_nat n) bs)) : F Z).
Proof.
  intros Hb [H0 Hn]. revert Hn. pattern n. apply natlike_ind; [|clear n H0|done].
  - done.
  - intros n Hn IH Hl. unfold range in *. rewrite Z.sub_0_r in *.
    rewrite <- Z.add_1_r, seqZ_app by lia. simpl.
    rewrite foldM_app, IH by lia. simpl.
    destruct (lookup_lt_is_Some_2 bs (Z.to_nat n)) as [x Hx]; [unfold len in Hl; lia|].
    assert (get b (o + n) = Some x) as Hg by (apply Hb, get_Some; split; [lia|done]).
    unfold index. rewrite ?Z.add_0_l, Hg. simpl. f_equal.
    replace (Z.to_nat (n + 1)) with (S (Z.to_nat n)) by lia.
    rewrite (take_S_r _ _ x Hx).
    assert (length (take (Z.to_nat n) bs) = Z.to_nat n) as Hlt
      by (rewrite length_take; unfold len in Hl; lia).
    rewrite le_val_snoc, Hlt, Z2Nat.id by lia. apply lor_shiftl_add; [lia| |apply byte_val_range].
    pose proof (le_val_range (take (Z.to_nat n) bs)) as Hr. unfold len in Hr. rewrite Hlt, Z2Nat.id in Hr by lia.
    by rewrite Z.mul_comm, Z.pow_mul_r by lia.
Qed.

Lemma read_u64_at b o v :
  holds_at (get b) o (le_bytes 8 v) -> uint 64 v -> object_read_u64 b o = Ok v.
Proof.
  intros Hb Hv. unfold object_read_u64. rewrite (read_rounds b o (le_bytes 8 v)); [|done|by rewrite len_le_bytes].
  rewrite take_ge by (rewrite length_le_bytes; done). by rewrite (le_val_field 8 64).
Qed.

(** ** Well-formed records *)

Record field_wf (f : TypedObjectField) : Prop := {
  fw_id : uint 16 (field_id f);
  fw_version : uint 16 (field_version f);
  fw_len : 0 <= value_len f <= FIELD_VALUE_CAPACITY;
  fw_value : len (field_value f) = FIELD_VALUE_CAPACITY;
}.

Record object_wf (r : TypedObjectRecord) : Prop := {
  ow_id : uint 64 (object_id r);
  ow_schema : uint 16 (schema_version r);
  ow_count : 0 <= field_count r <= MAX_FIELDS;
  ow_fields : len (fields r) = MAX_FIELDS;
  ow_used i f : get (fields r) i = Some f -> i < field_count r -> field_wf f;
  ow_unused i f : get (fields r) i = Some f -> field_count r <= i -> f = EMPTY_FIELD;
}.

Lemma kind_code_uint k : uint 16 (kind_code k).
Proof. by destruct k. Qed.

Lemma kind_code_roundtrip k : kind_from_code (kind_code k) = Ok k.
Proof. by destruct k. Qed.

Lemma new_object_wf id kind version :
  uint 64 id -> uint 16 version -> object_wf (new_object id kind version).
Proof.
  intros Hid Hv. split; try done.
  - intros i f [Hi _]%get_Some Hlt. simpl in Hlt. lia.
  - by intros i f [-> _]%get_replicate.
Qed.

Lemma new_field_wf id version value :
  uint 16 id -> uint 16 version ->
  wp (new_field id version value)
    (fun f => field_wf f /\ field_id f = id /\ field_version f = version /\
       value_len f = len value /\ take (length value) (field_value f) = value)
    (fun e => e = FieldValueTooLarge /\ FIELD_VALUE_CAPACITY < len value).
Proof.
  intros Hid Hv. unfold new_field, FIELD_VALUE_CAPACITY. act_step. act_step; [|split; [done|lia]].
  intros Hle%Z.ltb_ge. apply wp_bind. pose proof (len_nonneg value).
  apply wp_copy_into; [done|rewrite len_zeros by done; lia|]. intros b Hl [_ Hb].
  rewrite len_zeros in Hl by done.
  assert (wrap 16 (len value) = len value) as Hw by (apply wrap_small; unfold uint; lia).
  simpl. rewrite Hw. split_and!; try done.
  pose proof (get_range_holds_at b 0 (len value) value Hb ltac:(lia) eq_refl ltac:(lia)) as Hr.
  apply get_range_Some in Hr as (_ & _ & Hr). unfold len in Hr.
  rewrite Z.add_0_l, Z.sub_0_r, Nat2Z.id, drop_0 in Hr. done.
Qed.

Lemma push_field_wf r f :
  object_wf r -> field_wf f ->
  wp (push_field r f)
    (fun r' => object_wf r' /\ object_id r' = object_id r /\ object_kind r' = object_kind r /\
       field_count r < MAX_FIELDS /\
       r' = {| object_id := object_id r; object_kind := object_kind r;
               schema_version := schema_version r; field_count := field_count r + 1;
               fields := <[Z.to_nat (field_count r) := f]> (fields r) |})
    (fun e => e = FieldTableFull /\ field_count r = MAX_FIELDS).
Proof.
  intros Hr Hf. pose proof (ow_count r Hr) as Hc. pose proof (ow_fields r Hr) as Hl.
  unfold push_field, MAX_FIELDS in *. act_step. act_step; [|split; [done|lia]].
  intros Hne%Z.eqb_neq. apply wp_bind, wp_index_set; [lia|]. unfold checked_add.
  rewrite checked_id by (unfold uint; lia). simpl. split_and!; try done; [|lia].
  split; simpl; try apply Hr; unfold MAX_FIELDS; [lia|by rewrite len_insert|..].
  - intros i g Hg Hi. destruct (decide (i = field_count r)) as [->|Hd].
    + rewrite get_insert_eq in Hg by lia. by simplify_eq.
    + rewrite get_insert_ne in Hg by lia. eapply ow_used; [done|done|lia].
  - intros i g Hg Hi. rewrite get_insert_ne in Hg by lia. eapply ow_unused; [done|done|lia].
Qed.

(** ** Encoding *)

(** The bytes of a field slot. *)
Definition field_bytes (f : TypedObjectField) : list byte :=
  le_bytes 2 (field_id f) ++ le_bytes 2 (field_version f) ++ le_bytes 2 (value_len f) ++
  le_bytes 2 0 ++ field_value f.

(** The bytes before the field slots. *)
Definition header_fields (r : TypedObjectRecord) : list byte :=
  OBJECT_MAGIC ++ le_bytes 2 FORMAT_VERSION ++ le_bytes 2 RECORD_SIZE ++ le_bytes 8 (object_id r) ++
  le_bytes 2 (kind_code (object_kind r)) ++ le_bytes 2 (schema_version r) ++
  le_bytes 2 (field_count r) ++ le_bytes 2 0.

Lemma len_object_magic : len OBJECT_MAGIC = 4.
Proof. done. Qed.

#[local] Hint Rewrite len_object_magic : lens.

Lemma encode_field_spec r b i f :
  object_wf r -> 0 <= i < field_count r -> get (fields r) i = Some f -> len b = RECORD_SIZE ->
  wp (encode_field r b i)
    (fun b' => len b' = RECORD_SIZE /\
       overwrites (HEADER_SIZE + i * FIELD_SLOT_SIZE) (field_bytes f) (get b) (get b'))
    (fun _ => False).
Proof.
  intros Hr Hi Hf Hl. pose proof (ow_count r Hr) as Hc.
  pose proof (fw_value f (ow_used r Hr i f Hf ltac:(lia))) as Hv.
  unfold encode_field, RECORD_SIZE, HEADER_SIZE, FIELD_SLOT_SIZE, MAX_FIELDS, FIELD_VALUE_CAPACITY in *.
  unfold index. rewrite Hf. simpl.
  do 4 (apply wp_bind, wp_write_u16; [lia..|]; let b := fresh "b" in let H := fresh "H" in
        intros b ?H ?H).
  apply wp_copy_into; [lia..|]. intros b5 ? ?. split; [lia|].
  unfold field_bytes. collect_writes.
Qed.

Lemma encode_object_spec r :
  object_wf r ->
  wp (encode_object r)
    (fun b => len b = RECORD_SIZE /\ holds_at (get b) 0 (header_fields r) /\
       forall i f, 0 <= i < field_count r -> get (fields r) i = Some f ->
         holds_at (get b) (HEADER_SIZE + i * FIELD_SLOT_SIZE) (field_bytes f))
    (fun _ => False).
Proof.
  intros Hr. pose proof (ow_count r Hr) as Hc. pose proof (ow_fields r Hr) as Hfl.
  unfold encode_object. assert (len (zeros RECORD_SIZE) = 120) as Hz by by apply len_zeros.
  unfold RECORD_SIZE, HEADER_SIZE, FIELD_SLOT_SIZE, MAX_FIELDS in *.
  apply wp_bind, wp_copy_into; [done|rewrite Hz; done|]. intros b0 Hl0 Hw0. rewrite Hz in Hl0.
  apply wp_bind, wp_write_u16; [lia..|]; intros b1 ? ?.
  apply wp_bind, wp_write_u16; [lia..|]; intros b2 ? ?.
  apply wp_bind, wp_write_u64; [lia..|]; intros b3 ? ?.
  apply wp_bind, wp_write_u16; [lia..|]; intros b4 ? ?.
  apply wp_bind, wp_write_u16; [lia..|]; intros b5 ? ?.
  apply wp_bind, wp_write_u16; [lia..|]; intros b6 ? ?.
  apply wp_bind, wp_write_u16; [lia..|]; intros b7 ? ?.
  rewrite (wrap_small 16 (field_count r)) in * by (unfold uint; lia).
  assert (overwrites 0 (header_fields r) (get (zeros (24 + 4 * 24))) (get b7)) as [_ Hh].
  { unfold header_fields. change (wrap 16 (24 + 4 * 24)) with RECORD_SIZE in *. collect_writes. }
  apply (wp_foldM_range _ _ (fun n b => len b = 120 /\ holds_at (get b) 0 (header_fields r) /\
     forall i f, 0 <= i < n -> get (fields r) i = Some f ->
       holds_at (get b) (24 + i * 24) (field_bytes f))); [lia| |].
  { split_and!; [lia|done|]. intros; lia. }
  intros n b Hn (Hlb & Hhb & Hfb).
  destruct (proj2 (get_is_Some (fields r) n)) as [f Hf]; [lia|].
  pose proof (fw_value f (ow_used r Hr n f Hf ltac:(lia))) as Hv. unfold FIELD_VALUE_CAPACITY in Hv.
  eapply wp_mono; [by apply (encode_field_spec r b n f)| |done].
  unfold RECORD_SIZE, HEADER_SIZE, FIELD_SLOT_SIZE, MAX_FIELDS.
  assert (forall f, len (field_value f) = 16 -> len (field_bytes f) = 24) as Hlf.
  { intros g Hg. unfold field_bytes. rewrite !len_app, !len_le_bytes. lia. }
  intros b' (Hlb' & Hs & Hnew). rewrite (Hlf f) in Hs by done. split_and!; [done|..].
  - eapply holds_at_same; [exact Hs| |done]. left.
    unfold header_fields. rewrite !len_app, !len_le_bytes, len_object_magic. lia.
  - intros i g Hi Hg. destruct (decide (i = n)) as [->|Hne]; [by simplify_eq|].
    pose proof (fw_value g (ow_used r Hr i g Hg ltac:(lia))) as Hvg. unfold FIELD_VALUE_CAPACITY in Hvg.
    eapply holds_at_same; [exact Hs| |apply Hfb; [lia|done]]. rewrite (Hlf g) by done. lia.
Qed.

(** ** Decoding *)

(** Splits a region into the fields it is made of. *)
Ltac split_region :=
  repeat match goal with
  | H : holds_at _ _ (_ ++ _) |- _ => apply holds_at_app in H as [? ?]
  end;
  rewrite ?len_le_bytes, ?len_object_magic in *.

(** A region at the same offset, written differently. *)
Ltac at_offset :=
  match goal with
  | H : holds_at ?g ?k ?bs |- holds_at ?g ?k' ?bs => replace k' with k by lia; exact H
  end.

Lemma decode_field_spec b r i f :
  object_wf r -> field_count r = i -> i < MAX_FIELDS -> field_wf f -> len b = RECORD_SIZE ->
  holds_at (get b) (HEADER_SIZE + i * FIELD_SLOT_SIZE) (field_bytes f) ->
  decode_field b r i = push_field r f.
Proof.
  intros Hr Hi Hlt Hf Hl Hh. pose proof (ow_count r Hr) as Hc.
  destruct Hf as [H1 H2 H3 H4].
  unfold decode_field, field_bytes, RECORD_SIZE, HEADER_SIZE, FIELD_SLOT_SIZE, MAX_FIELDS,
    FIELD_VALUE_CAPACITY in *.
  set (o := 24 + i * 24) in *. split_region.
  rewrite (read_u16_at b (o + 6) 0), (read_u16_at b (o + 4) (value_len f)),
    (get_range_holds_at b (o + 8) 16 (field_value f)), (read_u16_at b o (field_id f)),
    (read_u16_at b (o + 2) (field_version f)); try done; try (unfold uint; lia); try at_offset.
  simpl. replace (16 <? value_len f) with false by lia. simpl. by destruct f.
Qed.

(** The record that the loop of [decode] has built after [n] rounds. *)
Definition partial_object (r : TypedObjectRecord) (n : Z) : TypedObjectRecord :=
  {| object_id := object_id r; object_kind := object_kind r; schema_version := schema_version r;
     field_count := n;
     fields := take (Z.to_nat n) (fields r) ++
               replicate (Z.to_nat (MAX_FIELDS - n)) EMPTY_FIELD |}.

Lemma len_partial r n :
  len (fields r) = MAX_FIELDS -> 0 <= n <= MAX_FIELDS -> len (fields (partial_object r n)) = MAX_FIELDS.
Proof. intros Hl Hn. simpl. rewrite len_app, len_replicate. unfold len in *. rewrite length_take. lia. Qed.
Lemma push_partial r n f :
  object_wf r -> 0 <= n < MAX_FIELDS -> get (fields r) n = Some f ->
  push_field (partial_object r n) f = Ok (partial_object r (n + 1)).
Proof.
  intros Hr Hn [_ Hf]%get_Some. pose proof (ow_fields r Hr) as Hl.
  unfold push_field. simpl field_count. replace (n =? MAX_FIELDS) with false by lia. simpl.
  unfold index_set. pose proof (len_partial r n Hl ltac:(lia)) as Hp. simpl in Hp. simpl fields. rewrite Hp.
  replace ((0 <=? n) && (n <? MAX_FIELDS)) with true by lia. simpl.
  unfold checked_add. unfold MAX_FIELDS in *. rewrite checked_id by (unfold uint; lia). simpl.
  f_equal. unfold partial_object. f_equal. unfold len in Hl.
  rewrite insert_app_r_alt by (rewrite length_take; lia).
  replace (Z.to_nat (n + 1)) with (S (Z.to_nat n)) by lia. rewrite (take_S_r _ _ f Hf), <- app_assoc.
  f_equal. rewrite length_take, Nat.min_l, Nat.sub_diag by lia.
  unfold MAX_FIELDS. replace (Z.to_nat (4 - n)) with (S (Z.to_nat (4 - (n + 1)))) by lia. done.
Qed.

Lemma partial_wf r n : object_wf r -> 0 <= n <= field_count r -> object_wf (partial_object r n).
Proof.
  intros Hr Hn. pose proof (ow_fields r Hr) as Hl. pose proof (ow_count r Hr) as Hc.
  split; [apply Hr|apply Hr|simpl; lia|by apply len_partial; [|lia]|idtac|idtac];
    intros i f [Hi Hf]%get_Some Hlt; simpl in Hf, Hlt; apply lookup_app_Some in Hf as [Hf|[Hge Hf]].
  - apply lookup_take_Some in Hf as [Hf _]. eapply (ow_used r Hr i); [|lia].
    apply get_Some. split; [|done]. apply lookup_lt_Some in Hf. unfold len in *. lia.
  - rewrite length_take in Hge. unfold len in *. unfold MAX_FIELDS in *. lia.
  - apply lookup_take_Some in Hf as [_ Hf]. lia.
  - by apply lookup_replicate in Hf as [-> _].
Qed.

Lemma partial_all r : object_wf r -> partial_object r (field_count r) = r.
Proof.
  intros Hr. pose proof (ow_fields r Hr) as Hl. pose proof (ow_count r Hr) as Hc.
  unfold partial_object. destruct r as [id k v n fs]; simpl in *. f_equal.
  rewrite <- (take_drop (Z.to_nat n) fs) at 2. f_equal. apply list_eq. intros i.
  unfold len in Hl. destruct (decide (i < Z.to_nat (MAX_FIELDS - n))%nat) as [Hi|Hi].
  - rewrite (proj2 (lookup_replicate _ _ _ _)) by done. rewrite lookup_drop.
    destruct (lookup_lt_is_Some_2 fs (Z.to_nat n + i)) as [f Hf]; [lia|]. rewrite Hf. f_equal. symmetry.
    eapply (ow_unused _ Hr (n + Z.of_nat i)); simpl; [|lia]. apply get_Some. split; [unfold len; lia|].
    rewrite <- Hf. f_equal. lia.
  - rewrite !(proj2 (lookup_ge_None _ _)); [done|rewrite length_drop; lia|rewrite length_replicate; lia].
Qed.

Lemma decode_bytes r b :
  object_wf r -> len b = RECORD_SIZE -> holds_at (get b) 0 (header_fields r) ->
  (forall i f, 0 <= i < field_count r -> get (fields r) i = Some f ->
     holds_at (get b) (HEADER_SIZE + i * FIELD_SLOT_SIZE) (field_bytes f)) ->
  decode_object b = Ok r.
Proof.
  intros Hr Hl Hh Hf. pose proof (ow_count r Hr) as Hc. pose proof (ow_fields r Hr) as Hfl.
  unfold header_fields in Hh. split_region.
  assert (forall (i : Z) x, get OBJECT_MAGIC i = Some x -> index (E := ObjectFormatError) b i = Ok x) as Hm.
  { intros i x Hx. unfold index. apply H in Hx. rewrite Z.add_0_l in Hx. by rewrite Hx. }
  unfold decode_object. rewrite Hl. simpl reject.
  rewrite (Hm 0 x50), (Hm 1 x59), (Hm 2 x4f), (Hm 3 x42) by done.
  rewrite !ok_bind. rewrite bool_decide_eq_true_2 by done. simpl negb.
  rewrite (read_u16_at b 4 FORMAT_VERSION), (read_u16_at b 6 RECORD_SIZE), (read_u16_at b 22 0),
    (read_u16_at b 20 (field_count r)), (read_u64_at b 8 (object_id r)),
    (read_u16_at b 16 (kind_code (object_kind r))), (read_u16_at b 18 (schema_version r));
    try done; try at_offset; try apply Hr; try apply kind_code_uint;
    try (unfold uint, MAX_FIELDS in *; lia).
  rewrite !ok_bind. simpl reject. rewrite !ok_bind.
  replace (MAX_FIELDS <? field_count r) with false by lia.
  rewrite kind_code_roundtrip, !ok_bind. simpl reject. rewrite ok_bind.
  assert (wp (foldM (decode_field b) (new_object (object_id r) (object_kind r) (schema_version r))
    (range 0 (field_count r))) (fun s => s = r) (fun _ => False)) as Hloop.
  2:{ destruct (foldM _ _ _); simpl in Hloop; by subst. }
  eapply (wp_mono _ (fun s => s = partial_object r (field_count r)));
    [|intros s ->; by apply partial_all|intros e He; exact He].
  apply (wp_foldM_range _ _ (fun n s => s = partial_object r n)); [lia|done|].
  intros n s Hn ->. destruct (proj2 (get_is_Some (fields r) n)) as [f Hg]; [lia|].
  rewrite (decode_field_spec b _ n f), push_partial; try done; [lia|by apply partial_wf; [|lia]|lia| |by apply Hf].
  eapply ow_used; [done..|lia].
Qed.

(** Encoding never panics, and decoding returns the record. *)
Lemma encode_decode_object r :
  object_wf r -> exists b, encode_object r = Ok b /\ len b = RECORD_SIZE /\ decode_object b = Ok r.
Proof.
  intros Hr. pose proof (encode_object_spec r Hr) as He.
  destruct (encode_object r) as [b|e| |]; simpl in He; try done.
  destruct He as (Hl & Hh & Hf). exists b. split_and!; [done..|]. by apply decode_bytes.
Qed.

(** ** Arbitrary bytes *)

Lemma wp_read_u16 b o : 0 <= o -> o + 2 <= len b -> wp (object_read_u16 b o) (uint 16) (fun _ => False).
Proof.
  intros Ho Hb. unfold object_read_u16.
  destruct (proj2 (get_is_Some b o)) as [x Hx]; [lia|]. destruct (proj2 (get_is_Some b (o + 1))) as [y Hy]; [lia|].
  unfold index. rewrite Hx, Hy. simpl. pose proof (byte_val_range x). pose proof (byte_val_range y).
  rewrite (lor_shiftl_add _ _ 8) by lia. unfold uint. lia.
Qed.

Lemma wp_read_u64 b o : 0 <= o -> o + 8 <= len b -> wp (object_read_u64 b o) (uint 64) (fun _ => False).
Proof.
  intros Ho Hb. unfold object_read_u64. set (bs := take 8 (drop (Z.to_nat o) b)).
  assert (len bs = 8) as Hl by (unfold bs, len in *; rewrite length_take, length_drop; lia).
  rewrite (read_rounds b o bs); [|intros j x [Hj Hx]%get_Some|lia].
  - pose proof (le_val_range bs) as Hr. rewrite take_ge by (unfold len in Hl; lia). rewrite Hl in Hr. done.
  - apply get_Some. split; [lia|]. unfold bs in Hx. rewrite lookup_take_lt, lookup_drop in Hx by lia.
    rewrite <- Hx. f_equal. lia.
Qed.
Lemma decode_field_wf b r i :
  len b = RECORD_SIZE -> object_wf r -> 0 <= i < MAX_FIELDS -> field_count r = i ->
  wp (decode_field b r i) (fun r' => object_wf r' /\ field_count r' = i + 1) (fun _ => True).
Proof.
  intros Hl Hr Hi Hc. unfold decode_field, RECORD_SIZE, HEADER_SIZE, FIELD_SLOT_SIZE, MAX_FIELDS, FIELD_VALUE_CAPACITY in *.
  apply wp_bind. eapply wp_mono; [apply wp_read_u16; lia| |done]. intros reserved _.
  do 2 act_step; [|done]. intros _. apply wp_bind. eapply wp_mono; [apply wp_read_u16; lia| |done]. intros n Hn.
  do 2 act_step; [|done]. intros Hcap%Z.ltb_ge. apply wp_bind, wp_expect.
  set (o := 24 + i * 24) in *. exists (take (Z.to_nat 16) (drop (Z.to_nat (o + 8)) b)).
  split; [apply get_range_Some; split_and!; [lia..|]; do 2 f_equal; lia|].
  apply wp_bind. eapply wp_mono; [apply wp_read_u16; lia| |done]. intros id Hid.
  apply wp_bind. eapply wp_mono; [apply wp_read_u16; lia| |done]. intros version Hv.
  eapply wp_mono; [apply push_field_wf; [done|]|intros r' (Hr' & _ & _ & _ & ->)|done].
  - split; try done; [unfold uint in Hn; simpl; unfold FIELD_VALUE_CAPACITY; lia|].
    unfold FIELD_VALUE_CAPACITY, len in *. simpl. rewrite length_take, length_drop. lia.
  - split; [done|]. simpl. lia.
Qed.

(** Whatever the bytes are, decoding them does not panic, and a record that it
    returns is well formed. *)
Lemma decode_object_wf b : len b = RECORD_SIZE -> wp (decode_object b) object_wf (fun _ => True).
Proof.
  intros Hl. unfold decode_object. do 2 act_step; [|done]. intros _.
  unfold RECORD_SIZE, HEADER_SIZE, FIELD_SLOT_SIZE, MAX_FIELDS in *.
  do 4 (act_step; apply wp_index; [lia|]; intros ? _).
  do 2 act_step; [|done]. intros _. apply wp_bind. eapply wp_mono; [apply wp_read_u16; lia| |done]. intros version _.
  do 2 act_step; [|done]. intros _. apply wp_bind. eapply wp_mono; [apply wp_read_u16; lia| |done]. intros size _.
  apply wp_bind. eapply wp_mono; [apply wp_read_u16; lia| |done]. intros reserved _.
  do 2 act_step; [|done]. intros _. apply wp_bind. eapply wp_mono; [apply wp_read_u16; lia| |done]. intros count Hcount.
  do 2 act_step; [|done]. intros Hmax%Z.ltb_ge. apply wp_bind. eapply wp_mono; [apply wp_read_u64; lia| |done]. intros id Hid.
  apply wp_bind. eapply wp_mono; [apply wp_read_u16; lia| |done]. intros code _.
  apply wp_bind. destruct (kind_from_code code) as [kind| | |] eqn:Hk; [|done|by (unfold kind_from_code in Hk; repeat case_match)..].
  apply wp_ok. apply wp_bind. eapply wp_mono; [apply wp_read_u16; lia| |done]. intros schema Hschema.
  eapply (wp_mono _ (fun r => object_wf r /\ field_count r = count) _ (fun _ => True)); [|by intros ? [? _]|done].
  apply (wp_foldM_range _ _ (fun n r => object_wf r /\ field_count r = n)); [apply Hcount| |].
  { split; [by apply new_object_wf|done]. }
  intros n r Hn [Hr Hc]. apply decode_field_wf; [done|done|unfold MAX_FIELDS; lia|done].
Qed.
