(* ===== verification/ObjectStore.v ===== *)
(** * The dynamic object store

    [core/src/dynamic_object_store.rs]: at most 24 objects, each with an extent
    of one block that the block allocator hands out. The store is seen as the
    finite map from object identities to slots; its bitmap marks exactly the
    blocks of the extents, and no two extents overlap. *)

From stdpp Require Import base numbers list gmap.
From S2P Require Import Prelude ByteRegions Bitset Kernel SlotTable ObjectFormat ObjectFormatFacts BlockAllocator.

(** ** Model *)

Definition MAX_DYNAMIC_OBJECTS : Z := 24.

Inductive DynamicObjectError : Type :=
| DynamicAllocator (e : AllocatorError)
| DynamicTableFull
| DuplicateDynamicObject
| UnknownDynamicObject.

(** [DynamicObjectSlot] and [DynamicObjectRecord] have the same fields. *)
Record DynamicObjectSlot := {
  slot_object : TypedObjectRecord;
  slot_extent : BlockExtent;
}.

Record DynamicObjectStore := {
  allocator : BlockAllocator;
  objects : list (option DynamicObjectSlot);
}.

Definition slot_key (s : DynamicObjectSlot) : Z := object_id (slot_object s).

Definition new_object_store (base count : Z) : outcome DynamicObjectError DynamicObjectStore :=
  a ← map_err DynamicAllocator (new_allocator base count);
  Ok {| allocator := a; objects := replicate (Z.to_nat MAX_DYNAMIC_OBJECTS) None |}.

Definition find_index (st : DynamicObjectStore) (id : ObjectId) : option Z :=
  position (has_key slot_key id) (objects st).

Definition free_slot (st : DynamicObjectStore) : option Z := position empty_slot (objects st).

Abbreviation store_action := (action DynamicObjectStore DynamicObjectError).

Definition set_objects (os : list (option DynamicObjectSlot)) (st : DynamicObjectStore) :=
  {| allocator := allocator st; objects := os |}.
Definition set_allocator (a : BlockAllocator) (st : DynamicObjectStore) :=
  {| allocator := a; objects := objects st |}.

Definition on_allocator {A} (m : action BlockAllocator AllocatorError A) : store_action A :=
  zoom allocator set_allocator DynamicAllocator m.

(** [self.objects[i] = o] *)
Definition set_slot (i : Z) (o : option DynamicObjectSlot) : store_action unit :=
  os ← reads (fun st => index_set (objects st) i o);
  update (set_objects os).

Definition store_create (object : TypedObjectRecord) : store_action BlockExtent :=
  reads (fun st => reject (bool_decide (is_Some (find_index st (object_id object))))
                     DuplicateDynamicObject);;
  i ← reads (fun st => ok_or (free_slot st) DynamicTableFull);
  extent ← on_allocator (allocate 1);
  set_slot i (Some {| slot_object := object; slot_extent := extent |});;
  mret extent.

(** [self.objects[index]] for an index that [find_index] returned. *)
Definition slot_at (st : DynamicObjectStore) (i : Z) : outcome DynamicObjectError DynamicObjectSlot :=
  o ← index (objects st) i;
  ok_or o UnknownDynamicObject.

(** The index that [find_index] returns is in range, so the array access of
    [object] and [extent_for] does not panic. *)
Definition store_slot (st : DynamicObjectStore) (id : ObjectId) : option DynamicObjectSlot :=
  i ← find_index st id;
  get (objects st) i ≫= Datatypes.id.

Definition store_object (st : DynamicObjectStore) (id : ObjectId) : option TypedObjectRecord :=
  slot_object <$> store_slot st id.

Definition store_replace (object : TypedObjectRecord) : store_action unit :=
  i ← reads (fun st => ok_or (find_index st (object_id object)) UnknownDynamicObject);
  s ← reads (fun st => slot_at st i);
  set_slot i (Some {| slot_object := object; slot_extent := slot_extent s |}).

Definition store_delete (id : ObjectId) : store_action unit :=
  i ← reads (fun st => ok_or (find_index st id) UnknownDynamicObject);
  s ← reads (fun st => slot_at st i);
  on_allocator (free_extent (slot_extent s));;
  set_slot i None.

Definition object_count (st : DynamicObjectStore) : Z := len (entries_of (objects st)).

Definition extent_for (st : DynamicObjectStore) (id : ObjectId) : option BlockExtent :=
  slot_extent <$> store_slot st id.

Definition object_records (st : DynamicObjectStore) : list (option DynamicObjectSlot) := objects st.

Definition object_record_at (st : DynamicObjectStore) (i : Z) :
    outcome DynamicObjectError (option DynamicObjectSlot) :=
  if MAX_DYNAMIC_OBJECTS <=? i then Ok None else index (objects st) i.

Definition allocator_bitmap (st : DynamicObjectStore) : Z := committed_bitmap (allocator st).

(** One round of the loop in [extent_bitmap]. *)
Definition extent_bit (extent : BlockExtent) (b offset : Z) : outcome DynamicObjectError Z :=
  i ← expect (checked_add 16 (start_block extent) offset);
  m ← map_err DynamicAllocator (shl_u64 i);
  Ok (Z.lor b m).

Definition extent_bitmap (extent : BlockExtent) (count : Z) : outcome DynamicObjectError Z :=
  reject ((extent_blocks extent =? 0) || (64 <? count)) (DynamicAllocator InvalidExtent);;
  fin ← ok_or (checked_add 16 (start_block extent) (extent_blocks extent))
          (DynamicAllocator InvalidExtent);
  reject (count <? fin) (DynamicAllocator InvalidExtent);;
  foldM (extent_bit extent) 0 (range 0 (extent_blocks extent)).

Definition object_id_seen (rs : list (option DynamicObjectSlot)) (before : Z) (id : ObjectId) : bool :=
  bool_decide (is_Some (position (has_key slot_key id) (take (Z.to_nat before) rs))).

(** One round of the loop in [restore_from_records]: the state is the array
    being filled and the bitmap seen so far. *)
Definition restore_round (rs : list (option DynamicObjectSlot)) (count b : Z)
    (st : list (option DynamicObjectSlot) * Z) (i : Z) :
    outcome DynamicObjectError (list (option DynamicObjectSlot) * Z) :=
  let '(os, seen) := st in
  o ← index rs i;
  match o with
  | None => Ok (os, seen)
  | Some r =>
      x ← extent_bitmap (slot_extent r) count;
      reject (negb (Z.land seen x =? 0) || negb (Z.land b x =? x)) (DynamicAllocator InvalidExtent);;
      reject (object_id_seen rs i (slot_key r)) DuplicateDynamicObject;;
      os ← index_set os i (Some r);
      Ok (os, Z.lor seen x)
  end.

Definition restore_from_records (base count b : Z) (rs : list (option DynamicObjectSlot)) :
    outcome DynamicObjectError DynamicObjectStore :=
  a ← map_err DynamicAllocator (restore_from_bitmap base count b);
  '(os, seen) ← foldM (restore_round rs count b) (replicate (Z.to_nat MAX_DYNAMIC_OBJECTS) None, 0)
                  (range 0 MAX_DYNAMIC_OBJECTS);
  reject (negb (seen =? b)) (DynamicAllocator InvalidExtent);;
  Ok {| allocator := a; objects := os |}.

(** ** The store as a map *)

Definition stored (st : DynamicObjectStore) : gmap Z DynamicObjectSlot := contents slot_key (objects st).

Definition disjoint_extents (x y : BlockExtent) : Prop := forall i, in_extent x i -> ~ in_extent y i.

(** The extents of [m] lie in the layout and do not overlap, and the bitmap
    marks exactly their blocks. *)
Record extents_ok (a : BlockAllocator) (m : gmap Z DynamicObjectSlot) : Prop := {
  eo_inside k s : m !! k = Some s -> extent_wf a (slot_extent s);
  eo_disjoint k k' s s' : m !! k = Some s -> m !! k' = Some s' -> k <> k' ->
    disjoint_extents (slot_extent s) (slot_extent s');
  eo_marked i : marked (bitmap a) i <-> exists k s, m !! k = Some s /\ in_extent (slot_extent s) i;
}.

Record store_ok (st : DynamicObjectStore) : Prop := {
  so_allocator : allocator_wf (allocator st);
  so_committed : committed_bitmap (allocator st) = bitmap (allocator st);
  so_len : len (objects st) = MAX_DYNAMIC_OBJECTS;
  so_keys : unique_keys slot_key (objects st);
  so_extents : extents_ok (allocator st) (stored st);
}.

Lemma set_allocator_id st : set_allocator (allocator st) st = st.
Proof. by destruct st. Qed.

Lemma find_index_spec st id :
  store_ok st ->
  match find_index st id with
  | Some i => exists s, get (objects st) i = Some (Some s) /\ slot_key s = id /\ stored st !! id = Some s
  | None => stored st !! id = None
  end.
Proof. intros Hst. apply position_has_key, Hst. Qed.

Lemma store_slot_spec st id : store_ok st -> store_slot st id = stored st !! id.
Proof.
  intros Hst. pose proof (find_index_spec st id Hst) as Hf. unfold store_slot.
  destruct (find_index st id) as [i|]; simpl; [|done]. by destruct Hf as (s & -> & _ & ->).
Qed.

(** [set_slot] at an index in range. *)
Lemma wpA_set_slot st i o (Q : unit -> DynamicObjectStore -> Prop) R :
  0 <= i < len (objects st) -> Q tt (set_objects (<[Z.to_nat i := o]> (objects st)) st) ->
  wpA (set_slot i o) st Q R.
Proof. intros Hi HQ. unfold set_slot. do 2 act_step. apply wp_index_set; [done|]. by act_step. Qed.

Lemma size_stored st : store_ok st -> (size (stored st) <= 24)%nat.
Proof.
  intros Hst. unfold stored. rewrite contents_size by apply Hst.
  pose proof (length_entries_le (objects st)) as H. pose proof (so_len st Hst) as Hl.
  unfold len, MAX_DYNAMIC_OBJECTS in Hl. lia.
Qed.

Lemma extents_ok_add a a' m k s :
  extents_ok a m -> m !! k = None -> extent_wf a (slot_extent s) ->
  free_at a (extent_blocks (slot_extent s)) (start_block (slot_extent s)) ->
  block_count a' = block_count a ->
  (forall i, marked (bitmap a') i <-> marked (bitmap a) i \/ in_extent (slot_extent s) i) ->
  extents_ok a' (<[k := s]> m).
Proof.
  intros Hm Hk Hx Hfree Hc Hb.
  assert (forall k' s', m !! k' = Some s' -> disjoint_extents (slot_extent s) (slot_extent s')) as Hd.
  { intros k' s' Hs' i Hi Hi'. apply (Hfree i); [exact Hi|]. apply (eo_marked a m Hm). eauto. }
  split.
  - intros k' s' [[<- <-]|[_ Hs']]%lookup_insert_Some.
    + unfold extent_wf in *. by rewrite Hc.
    + pose proof (eo_inside a m Hm k' s' Hs') as H. unfold extent_wf in *. by rewrite Hc.
  - intros k1 k2 s1 s2 [[<- <-]|[? H1]]%lookup_insert_Some [[<- <-]|[? H2]]%lookup_insert_Some Hne.
    + done.
    + by eapply Hd.
    + intros i Hi Hi'. by apply (Hd k1 s1 H1 i).
    + by eapply (eo_disjoint a m Hm).
  - intros i. rewrite Hb, (eo_marked a m Hm). split.
    + intros [(k' & s' & Hs' & Hi)|Hi].
      * exists k', s'. split; [|done]. rewrite lookup_insert_ne by (intros ->; congruence). done.
      * exists k, s. by rewrite lookup_insert_eq.
    + intros (k' & s' & [[<- <-]|[_ Hs']]%lookup_insert_Some & Hi); eauto.
Qed.

Lemma extents_ok_remove a a' m k s :
  extents_ok a m -> m !! k = Some s -> block_count a' = block_count a ->
  (forall i, marked (bitmap a') i <-> marked (bitmap a) i /\ ~ in_extent (slot_extent s) i) ->
  extents_ok a' (delete k m).
Proof.
  intros Hm Hk Hc Hb. split.
  - intros k' s' [_ Hs']%lookup_delete_Some. pose proof (eo_inside a m Hm k' s' Hs') as H.
    unfold extent_wf in *. by rewrite Hc.
  - intros k1 k2 s1 s2 [_ H1]%lookup_delete_Some [_ H2]%lookup_delete_Some. by eapply (eo_disjoint a m Hm).
  - intros i. rewrite Hb, (eo_marked a m Hm). split.
    + intros [(k' & s' & Hs' & Hi) Hn]. exists k', s'. split; [|done].
      rewrite lookup_delete_Some. split; [|done]. intros ->. congruence.
    + intros (k' & s' & [Hne Hs']%lookup_delete_Some & Hi). split; [eauto|]. intros Hi'.
      by eapply (eo_disjoint a m Hm k k').
Qed.

Lemma extents_ok_rename a m k s s' :
  extents_ok a m -> m !! k = Some s -> slot_extent s' = slot_extent s -> extents_ok a (<[k := s']> m).
Proof.
  intros Hm Hk Hx.
  assert (forall k1 s1, <[k := s']> m !! k1 = Some s1 ->
            exists s2, m !! k1 = Some s2 /\ slot_extent s1 = slot_extent s2) as Hold.
  { intros k1 s1 [[<- <-]|[_ H]]%lookup_insert_Some; eauto. }
  split.
  - intros k1 s1 (s2 & H2 & ->)%Hold. by eapply eo_inside.
  - intros k1 k2 s1 s2 (s3 & H3 & ->)%Hold (s4 & H4 & ->)%Hold. by eapply (eo_disjoint a m Hm).
  - intros i. rewrite (eo_marked a m Hm). split.
    + intros (k1 & s1 & H1 & Hi). destruct (decide (k1 = k)) as [->|Hne].
      * exists k, s'. rewrite lookup_insert_eq. simplify_eq. by rewrite Hx.
      * exists k1, s1. by rewrite lookup_insert_ne.
    + intros (k1 & s1 & (s2 & H2 & Heq)%Hold & Hi). exists k1, s2. by rewrite <- Heq.
Qed.

(** ** Operations on the map *)

Definition new_slot (object : TypedObjectRecord) (x : BlockExtent) : DynamicObjectSlot :=
  {| slot_object := object; slot_extent := x |}.

Lemma store_create_spec object st :
  store_ok st ->
  wpA (store_create object) st
    (fun x st' => stored st !! object_id object = None /\ (size (stored st) < 24)%nat /\ store_ok st' /\
       stored st' = <[object_id object := new_slot object x]> (stored st) /\
       base_sector (allocator st') = base_sector (allocator st) /\
       block_count (allocator st') = block_count (allocator st))
    (fun e st' => st' = st /\
       (e = DuplicateDynamicObject /\ is_Some (stored st !! object_id object) \/
        e <> DuplicateDynamicObject /\ stored st !! object_id object = None)).
Proof.
  intros Hst. pose proof (find_index_spec st (object_id object) Hst) as Hf. unfold store_create.
  act_step. act_step. act_step.
  2:{ intros H%bool_decide_eq_true. split; [done|]. left. split; [done|].
      destruct H as [i Hi]. rewrite Hi in Hf. destruct Hf as (s & _ & _ & ->). eauto. }
  intros Hn%bool_decide_eq_false. destruct (find_index st _); [by destruct Hn; eauto|].
  do 2 act_step. act_step.
  2:{ intros _. split; [done|]. by right. }
  intros i Hfree. act_step. apply wpA_zoom.
  eapply wpA_mono; [apply (allocate_spec _ 1); [apply Hst|done]| |].
  2:{ intros e a' [-> _]. rewrite set_allocator_id. split; [done|]. by right. }
  intros x a' (Hx & Hxw & Hfr & _ & Hw' & Hb' & Hc' & Hcm' & Hm').
  apply free_slot_found in Hfree as Hi. destruct Hi as [Hi Hir].
  act_step. apply wpA_set_slot; [done|]. act_step.
  destruct (contents_fill slot_key (objects st) i (new_slot object x) Hi (so_keys st Hst) Hf)
    as (Hu & Hcont & Hlen).
  split_and!; try done.
  - unfold stored. rewrite contents_size by apply Hst. pose proof (so_len st Hst) as Hl.
    pose proof (length_entries_le (<[Z.to_nat i := Some (new_slot object x)]> (objects st))) as Hle.
    rewrite length_insert in Hle. unfold len, MAX_DYNAMIC_OBJECTS in Hl. lia.
  - split; try done.
    + simpl. rewrite len_insert. apply Hst.
    + assert (extents_ok a' (<[slot_key (new_slot object x) := new_slot object x]> (stored st))) as Hex.
      { eapply extents_ok_add; [apply Hst|done|done| |done|done]. simpl. by rewrite Hx. }
      exact (eq_ind_r (extents_ok a') Hex Hcont).
Qed.

Lemma store_replace_spec object st :
  store_ok st ->
  wpA (store_replace object) st
    (fun _ st' => exists s, stored st !! object_id object = Some s /\ store_ok st' /\
       stored st' = <[object_id object := new_slot object (slot_extent s)]> (stored st) /\
       allocator st' = allocator st)
    (fun e st' => st' = st /\ e = UnknownDynamicObject /\ stored st !! object_id object = None).
Proof.
  intros Hst. pose proof (find_index_spec st (object_id object) Hst) as Hf. unfold store_replace.
  do 2 act_step. destruct (find_index st _) as [i|]; [|done]. act_step; [|done]. intros ? [= <-].
  destruct Hf as (s & Hg & Hk & Hs). do 2 act_step. unfold slot_at, index. rewrite Hg. simpl.
  apply wpA_set_slot; [apply get_is_Some; eauto|]. exists s.
  destruct (contents_replace slot_key (objects st) i (new_slot object (slot_extent s)) s Hg (so_keys st Hst))
    as (Hu & Hcont & _); [by rewrite Hk|].
  split_and!; try done. split; try apply Hst; try done.
  - simpl. rewrite len_insert. apply Hst.
  - assert (extents_ok (allocator st) (<[object_id object := new_slot object (slot_extent s)]> (stored st))) as Hex.
    { eapply extents_ok_rename; [apply Hst|done|done]. }
    exact (eq_ind_r (extents_ok (allocator st)) Hex Hcont).
Qed.

Lemma store_delete_spec id st :
  store_ok st ->
  wpA (store_delete id) st
    (fun _ st' => is_Some (stored st !! id) /\ store_ok st' /\ stored st' = delete id (stored st) /\
       base_sector (allocator st') = base_sector (allocator st) /\
       block_count (allocator st') = block_count (allocator st))
    (fun e st' => st' = st /\ e = UnknownDynamicObject /\ stored st !! id = None).
Proof.
  intros Hst. pose proof (find_index_spec st id Hst) as Hf. unfold store_delete.
  do 2 act_step. destruct (find_index st _) as [i|]; [|done]. act_step; [|done]. intros ? [= <-].
  destruct Hf as (s & Hg & Hk & Hs). do 2 act_step. unfold slot_at, index. rewrite Hg. simpl.
  pose proof (so_extents st Hst) as Hex. pose proof (eo_inside _ _ Hex _ _ Hs) as Hin.
  pose proof (aw_count _ (so_allocator st Hst)) as Hc. unfold extent_wf, MAX_ALLOCATOR_BLOCKS in Hin, Hc.
  act_step. apply wpA_zoom.
  eapply wpA_mono; [apply free_spec; [apply Hst|unfold uint; lia..]| |].
  2:{ intros e a' (-> & _ & Hn). by destruct Hn. }
  intros [] a' (_ & Hw' & Hb' & Hc' & Hcm' & Hm'). apply wpA_set_slot; [apply get_is_Some; eauto|].
  destruct (contents_clear slot_key (objects st) i s Hg (so_keys st Hst)) as [Hu Hcont].
  split_and!; try done.
  - rewrite <- Hk in *. split; try done.
    + simpl. rewrite len_insert. apply Hst.
    + unfold stored. simpl. rewrite Hcont. by eapply extents_ok_remove.
  - unfold stored. simpl. by rewrite Hcont, Hk.
Qed.

(** ** Saving and restoring *)

Lemma extent_bitmap_spec a x :
  allocator_wf a -> extent_wf a x ->
  wp (extent_bitmap x (block_count a)) (fun m => 0 <= m /\ forall i, marked m i <-> in_extent x i)
    (fun _ => False).
Proof.
  intros Hw Hx. pose proof (aw_count a Hw) as Hc. unfold extent_wf, MAX_ALLOCATOR_BLOCKS in *.
  unfold extent_bitmap, checked_add.
  replace ((extent_blocks x =? 0) || (64 <? block_count a)) with false by lia.
  rewrite checked_id by (unfold uint; lia). simpl.
  replace (block_count a <? start_block x + extent_blocks x) with false by lia. simpl.
  apply (wp_foldM_range _ _ (fun n m => 0 <= m /\
    forall i, marked m i <-> start_block x <= i < start_block x + n)); [lia| |].
  - split; [done|]. intros i. unfold marked. rewrite Z.bits_0. split; [done|lia].
  - intros n m Hn [Hm Hi]. unfold extent_bit, checked_add. rewrite checked_id by (unfold uint; lia).
    simpl. apply wp_bind. apply wp_map_err. apply wp_shl_u64; [lia|]. apply wp_ok. split.
    + apply Z.lor_nonneg. split; [done|apply bit_nonneg].
    + intros i. unfold marked in *. rewrite lor_bit_spec, Hi by lia. lia.
Qed.

(** The blocks of the first [n] slots. *)
Definition marks_prefix (l : list (option DynamicObjectSlot)) (n i : Z) : Prop :=
  exists j s, j < n /\ get l j = Some (Some s) /\ in_extent (slot_extent s) i.

Lemma restore_round_spec st n seen :
  store_ok st -> 0 <= n < MAX_DYNAMIC_OBJECTS ->
  0 <= seen -> (forall i, marked seen i <-> marks_prefix (objects st) n i) ->
  wp (restore_round (objects st) (block_count (allocator st)) (bitmap (allocator st))
        (filled (objects st) n, seen) n)
    (fun r => r.1 = filled (objects st) (n + 1) /\
       0 <= r.2 /\ forall i, marked r.2 i <-> marks_prefix (objects st) (n + 1) i)
    (fun _ => False).
Proof.
  intros Hst Hn Hseen Hmarks. pose proof (so_len st Hst) as Hl.
  pose proof (so_extents st Hst) as Hex. pose proof (so_allocator st Hst) as Hw.
  destruct (proj2 (get_is_Some (objects st) n)) as [o Ho]; [lia|].
  unfold restore_round, index. rewrite Ho. simpl.
  destruct o as [s|].
  2:{ simpl. split_and!; [apply filled_skip; [lia|done]|done|].
      intros i. rewrite Hmarks. split; intros (j & s & Hj & Hg & Hi); exists j, s; split_and!; try done; [lia|].
      destruct (decide (j = n)) as [->|]; [congruence|lia]. }
  assert (stored st !! slot_key s = Some s) as Hs.
  { apply contents_Some; [apply Hst|]. split; [by eapply get_elem_of|done]. }
  assert (forall j s', j <> n -> get (objects st) j = Some (Some s') ->
            stored st !! slot_key s' = Some s' /\ slot_key s' <> slot_key s) as Hother.
  { intros j s' Hj Hg. split.
    - apply contents_Some; [apply Hst|]. split; [by eapply get_elem_of|done].
    - intros Hk. apply Hj. by eapply (unique_slots slot_key (objects st) j n s' s); [apply Hst|..]. }
  apply wp_bind. eapply wp_mono; [by apply extent_bitmap_spec; [|by eapply eo_inside]| |done].
  intros x [Hx Hxm].
  assert (Z.land seen x = 0) as Hdis.
  { apply Z.bits_inj'. intros i _. rewrite Z.land_spec, Z.bits_0. apply andb_false_iff.
    destruct (Z.testbit seen i) eqn:Hsi; [|by left]. right. apply not_true_iff_false. intros Hxi.
    apply Hmarks in Hsi as (j & s' & Hj & Hg & Hi). destruct (Hother j s' ltac:(lia) Hg) as [Hs' Hne].
    apply Hxm in Hxi. by apply (eo_disjoint _ _ Hex _ _ _ _ Hs' Hs Hne i). }
  assert (Z.land (bitmap (allocator st)) x = x) as Hsub.
  { apply mask_ext; [by apply Z.land_nonneg; right|done|]. intros i _. rewrite Z.land_spec, andb_true_iff.
    split; [by intros [_ ?]|]. intros Hi. split; [|done]. apply (eo_marked _ _ Hex). apply Hxm in Hi. eauto. }
  rewrite Hdis, Hsub, !Z.eqb_refl. simpl.
  replace (object_id_seen (objects st) n (slot_key s)) with false.
  2:{ symmetry. apply bool_decide_eq_false. intros [j (Hj & ([s'|] & Hg & Hk) & _)%position_Some]; [|done].
      simpl in Hk. apply Z.eqb_eq in Hk.
      apply get_Some in Hg as [Hjl Hg]. apply lookup_take_Some in Hg as [Hg Hjn].
      destruct (Hother j s') as [_ Hne]; [lia| |done]. apply get_Some. split; [|done].
      apply lookup_lt_Some in Hg. unfold len in *. lia. }
  simpl. apply wp_bind, wp_index_set; [rewrite len_filled; lia|].
  rewrite filled_set by (done || lia). apply wp_ok. simpl. split_and!; [done|by apply Z.lor_nonneg|].
  intros i. unfold marked in *. rewrite Z.lor_spec, orb_true_iff, Hmarks, Hxm. split.
  - intros [(j & s' & Hj & Hg & Hi)|Hi]; [exists j, s'|exists n, s]; split_and!; try done; lia.
  - intros (j & s' & Hj & Hg & Hi). destruct (decide (j = n)) as [->|Hne].
    + right. rewrite Ho in Hg. by simplify_eq.
    + left. exists j, s'. split_and!; [lia|done..].
Qed.

(** Restoring from the saved records and bitmap returns the store. *)
Lemma restore_from_records_id st :
  store_ok st ->
  restore_from_records (base_sector (allocator st)) (block_count (allocator st))
    (allocator_bitmap st) (object_records st) = Ok st.
Proof.
  intros Hst. pose proof (so_allocator st Hst) as Hw. pose proof (so_len st Hst) as Hl.
  pose proof (aw_count _ Hw) as Hc. pose proof (aw_base _ Hw) as Hb.
  unfold restore_from_records, allocator_bitmap, object_records. rewrite (so_committed st Hst).
  pose proof (restore_from_bitmap_spec (base_sector (allocator st)) (block_count (allocator st))
    (bitmap (allocator st))) as Hr. unfold MAX_ALLOCATOR_BLOCKS, u64_max, uint in *.
  specialize (Hr ltac:(lia) ltac:(lia)
    ltac:(apply (bitmap_uint (block_count (allocator st))); [apply Hw|unfold MAX_ALLOCATOR_BLOCKS; lia])).
  destruct (restore_from_bitmap _ _ _) as [a|e| |]; simpl in Hr; try done.
  2:{ exfalso. destruct Hr as [[_ Hn]|[_ Hn]]; apply Hn; [|apply Hw].
      unfold layout, MAX_ALLOCATOR_BLOCKS, u64_max. lia. }
  destruct Hr as (_ & _ & Ha1 & Ha2 & Ha3 & Ha4).
  assert (a = allocator st) as ->.
  { pose proof (so_committed st Hst). destruct a, (allocator st); simpl in *. congruence. }
  cbn [map_err]. rewrite ok_bind.
  assert (wp (foldM (restore_round (objects st) (block_count (allocator st)) (bitmap (allocator st)))
    (replicate (Z.to_nat MAX_DYNAMIC_OBJECTS) None, 0) (range 0 MAX_DYNAMIC_OBJECTS))
    (fun r => r = (objects st, bitmap (allocator st))) (fun _ => False)) as Hloop.
  2:{ destruct (foldM _ _ _); simpl in Hloop; try done. subst. simpl. rewrite Z.eqb_refl. simpl. by destruct st. }
  rewrite <- Hl.
  eapply (wp_mono _ (fun r => r.1 = filled (objects st) (len (objects st)) /\
       0 <= r.2 /\ forall i, marked r.2 i <-> marks_prefix (objects st) (len (objects st)) i) _ (fun _ => False));
    [|clear -Hst Hl|done].
  - apply (wp_foldM_range _ _ (fun n r => r.1 = filled (objects st) n /\
      0 <= r.2 /\ forall i, marked r.2 i <-> marks_prefix (objects st) n i)); [apply len_nonneg|..].
    + split_and!; [|done|].
      * rewrite filled_none. simpl. f_equal. unfold len. lia.
      * intros i. unfold marked. simpl. rewrite Z.bits_0. split; [done|].
        intros (j & s & Hj & [Hjr _]%get_Some & _). lia.
    + intros n [os seen] Hn (Hos & Hseen & Hm). simpl in Hos. subst os. apply restore_round_spec; try done. lia.
  - intros [os seen] (Hos & Hseen & Hm). simpl in *. f_equal.
    + rewrite Hos. apply filled_all.
    + apply mask_ext; [done|by apply aw_nonneg, Hst|]. intros i _. rewrite (Hm i : Z.testbit seen i = true <-> _).
      rewrite (eo_marked _ _ (so_extents st Hst) i : Z.testbit _ i = true <-> _). split.
      * intros (j & s & Hj & Hg & Hi). exists (slot_key s), s. split; [|done].
        apply contents_Some; [apply Hst|]. split; [by eapply get_elem_of|done].
      * intros (k & s & [Hin Hk]%contents_Some & Hi); [|apply Hst].
        apply elem_of_get in Hin as [j Hg]. exists j, s. split_and!; try done.
        by apply get_Some in Hg as [[_ ?] _].
Qed.
