(* ===== verification/Relationships.v ===== *)
(** * Object relationships

    [core/src/object_relationships.rs]: a bounded table of known objects and a
    bounded table of typed relationships between them. The object service uses
    it to say which workspace an object belongs to. *)

From stdpp Require Import base numbers list gmap.
From S2P Require Import Prelude Kernel SlotTable ObjectFormat ObjectStore.

(** ** Model *)

Definition SHELL_WORKSPACE_OBJECT_ID : Z := 0x5059575348454C01.
Definition EXTERNAL_WORKSPACE_OBJECT_ID : Z := 0x5059575345585401.
Definition OBJECT_SERVICE_RELATIONSHIP_OBJECTS : Z := MAX_DYNAMIC_OBJECTS + 2.
Definition OBJECT_SERVICE_RELATIONSHIPS : Z := MAX_DYNAMIC_OBJECTS.

Inductive RelationshipError : Type :=
| RelationshipObjectTableFull
| RelationshipTableFull
| DuplicateRelationshipObject
| DuplicateRelationship
| UnknownSource
| UnknownTarget.

Inductive RelationshipKind : Type :=
| Blocks
| CreatedBy
| DependsOn
| BelongsTo
| NameBinding
| BindingTarget.

#[export] Instance relationship_kind_eq_dec : EqDecision RelationshipKind.
Proof. solve_decision. Defined.

Record ObjectRelationship := Relationship {
  rel_source : ObjectId;
  rel_kind : RelationshipKind;
  rel_target : ObjectId;
}.

#[export] Instance relationship_eq_dec : EqDecision ObjectRelationship.
Proof. solve_decision. Defined.

(** The const parameters of the type are the lengths of the arrays. *)
Record RelationshipStore := {
  rel_objects : list (option TypedObjectRecord);
  relationships : list (option ObjectRelationship);
}.

Definition new_relationships (object_capacity relationship_capacity : Z) : RelationshipStore :=
  {| rel_objects := replicate (Z.to_nat object_capacity) None;
     relationships := replicate (Z.to_nat relationship_capacity) None |}.

Abbreviation rel_action := (action RelationshipStore RelationshipError).

Definition clear_relationships : rel_action unit :=
  update (fun r => new_relationships (len (rel_objects r)) (len (relationships r))).

Definition contains_object (r : RelationshipStore) (id : ObjectId) : bool :=
  bool_decide (is_Some (position (has_key object_id id) (rel_objects r))).

Definition has_object (r : RelationshipStore) (id : ObjectId) : bool := contains_object r id.

Definition contains_relationship (r : RelationshipStore) (x : ObjectRelationship) : bool :=
  bool_decide (is_Some (position (fun o => bool_decide (o = Some x)) (relationships r))).

Definition set_rel_objects (os : list (option TypedObjectRecord)) (r : RelationshipStore) :=
  {| rel_objects := os; relationships := relationships r |}.
Definition set_relationships (rs : list (option ObjectRelationship)) (r : RelationshipStore) :=
  {| rel_objects := rel_objects r; relationships := rs |}.

(** The loop that fills the first empty slot, or falls through. *)
Definition insert_object (object : TypedObjectRecord) : rel_action unit :=
  reads (fun r => reject (contains_object r (object_id object)) DuplicateRelationshipObject);;
  i ← reads (fun r => ok_or (position empty_slot (rel_objects r)) RelationshipObjectTableFull);
  os ← reads (fun r => index_set (rel_objects r) i (Some object));
  update (set_rel_objects os).

Definition add_relationship (x : ObjectRelationship) : rel_action unit :=
  reads (fun r => reject (negb (contains_object r (rel_source x))) UnknownSource);;
  reads (fun r => reject (negb (contains_object r (rel_target x))) UnknownTarget);;
  reads (fun r => reject (contains_relationship r x) DuplicateRelationship);;
  i ← reads (fun r => ok_or (position empty_slot (relationships r)) RelationshipTableFull);
  rs ← reads (fun r => index_set (relationships r) i (Some x));
  update (set_relationships rs).

(** The test of the loop in [query_first]. *)
Definition matches (source : ObjectId) (kind : RelationshipKind) (o : option ObjectRelationship) : bool :=
  match o with
  | Some x => (rel_source x =? source) && bool_decide (rel_kind x = kind)
  | None => false
  end.

Definition query_first (r : RelationshipStore) (source : ObjectId) (kind : RelationshipKind) :
    option ObjectRelationship :=
  find (matches source kind) (relationships r) ≫= id.

Definition relationship_count (r : RelationshipStore) : Z := len (entries_of (relationships r)).

Definition relationship_records (r : RelationshipStore) : list (option ObjectRelationship) :=
  relationships r.

(** The boot self-test. *)
Definition relationships_self_test : outcome RelationshipError unit :=
  let service_monitor := new_object 0x7202 Kind.ServiceMonitorWindow 1 in
  let python_console := new_object 0x7203 Kind.PythonConsoleWindow 1 in
  let settings_panel := new_object 0x7204 Kind.SettingsPanelWindow 1 in
  '(_, r) ← run (insert_object service_monitor) (new_relationships 4 8);
  '(_, r) ← run (insert_object python_console) r;
  '(_, r) ← run (insert_object settings_panel) r;
  '(_, r) ← run (add_relationship (Relationship 0x7202 Blocks 0x7204)) r;
  '(_, r) ← run (add_relationship (Relationship 0x7203 DependsOn 0x7202)) r;
  '(_, r) ← run (add_relationship (Relationship 0x7204 CreatedBy 0x7203)) r;
  queried ← ok_or (query_first r 0x7202 Blocks) UnknownTarget;
  reject (negb (rel_target queried =? 0x7204) || negb (relationship_count r =? 3)) UnknownTarget.

Lemma relationships_self_test_passes : relationships_self_test = Ok tt.
Proof. by vm_compute. Qed.

(** ** Workspace membership

    The object service only adds one [BelongsTo] relationship per object. Such
    a store is seen as the set of known objects and the map from an object to
    its relationship. *)

Definition known (r : RelationshipStore) : gmap Z TypedObjectRecord := contents object_id (rel_objects r).
Definition members (r : RelationshipStore) : gmap Z ObjectRelationship :=
  contents rel_source (relationships r).

Record relationships_ok (r : RelationshipStore) : Prop := {
  ro_known : unique_keys object_id (rel_objects r);
  ro_members : unique_keys rel_source (relationships r);
  ro_belongs x : Some x ∈ relationships r -> rel_kind x = BelongsTo;
  ro_sources x : Some x ∈ relationships r -> rel_source x ∈ dom (known r);
}.

Lemma contains_object_spec r id :
  relationships_ok r -> contains_object r id = true <-> is_Some (known r !! id).
Proof.
  intros Hr. unfold contains_object. rewrite bool_decide_eq_true.
  pose proof (position_has_key object_id (rel_objects r) id (ro_known r Hr)) as Hp.
  change (contents object_id (rel_objects r)) with (known r) in Hp.
  destruct (position _ _) as [i|].
  - destruct Hp as (x & _ & _ & Hx). rewrite Hx. split; eauto.
  - rewrite Hp. split; by intros [].
Qed.

Lemma query_first_spec r id :
  relationships_ok r -> query_first r id BelongsTo = members r !! id.
Proof.
  intros Hr. unfold query_first. destruct (find _ _) as [o|] eqn:Hf; simpl; symmetry.
  - apply find_Some in Hf as [Hin Hm]. destruct o as [x|]; [|done]. simpl in Hm.
    apply andb_true_iff in Hm as [Hs%Z.eqb_eq _]. by apply contents_Some; [apply Hr|].
  - apply not_elem_of_dom. intros (x & Hx & Hk)%contents_dom. pose proof (find_None _ _ Hf _ Hx) as H.
    simpl in H. rewrite bool_decide_eq_true_2, andb_true_r in H by by apply Hr. lia.
Qed.

Lemma contains_relationship_spec r x : contains_relationship r x = true <-> Some x ∈ relationships r.
Proof.
  unfold contains_relationship. rewrite bool_decide_eq_true. split.
  - intros [i (_ & (o & Ho & Hb%bool_decide_eq_true) & _)%position_Some]. subst. by eapply get_elem_of.
  - intros Hin. destruct (position _ _) eqn:Hp; [eauto|]. exfalso.
    pose proof (position_None _ _ Hp _ Hin) as H. cbv beta in H. by rewrite bool_decide_eq_true_2 in H.
Qed.

Lemma insert_object_spec object r :
  relationships_ok r ->
  wpA (insert_object object) r
    (fun _ r' => known r !! object_id object = None /\ relationships_ok r' /\
       known r' = <[object_id object := object]> (known r) /\ members r' = members r /\
       len (rel_objects r') = len (rel_objects r) /\ relationships r' = relationships r)
    (fun e r' => r' = r /\
       (e = DuplicateRelationshipObject /\ is_Some (known r !! object_id object) \/
        e = RelationshipObjectTableFull /\ Z.of_nat (size (known r)) = len (rel_objects r))).
Proof.
  intros Hr. unfold insert_object. act_step. act_step. act_step.
  2:{ intros H%contains_object_spec; [|done]. split; [done|by left]. }
  intros Hn. assert (known r !! object_id object = None) as Hk.
  { apply eq_None_not_Some. rewrite <- contains_object_spec by done. by rewrite Hn. }
  do 2 act_step. act_step.
  2:{ intros Hf%free_slot_missing. split; [done|]. right. split; [done|]. unfold known, len.
      rewrite contents_size by apply Hr. lia. }
  intros i [Hi Hir]%free_slot_found. do 2 act_step. apply wp_index_set; [done|]. act_step.
  destruct (contents_fill object_id (rel_objects r) i object Hi (ro_known r Hr) Hk) as (Hu & Hc & _).
  split_and!; [done| |done|done|simpl; by rewrite len_insert|done].
  split; [done|apply Hr|apply Hr|]. simpl. intros x Hx.
  unfold known. simpl. rewrite Hc, dom_insert. pose proof (ro_sources r Hr x Hx). set_solver.
Qed.

Lemma add_belongs_spec id workspace r :
  relationships_ok r ->
  wpA (add_relationship (Relationship id BelongsTo workspace)) r
    (fun _ r' => is_Some (known r !! id) /\ is_Some (known r !! workspace) /\
       rel_objects r' = rel_objects r /\ len (relationships r') = len (relationships r) /\
       (members r !! id = None -> relationships_ok r' /\
          members r' = <[id := Relationship id BelongsTo workspace]> (members r)))
    (fun e r' => r' = r /\
       (e = UnknownSource /\ known r !! id = None \/ e = UnknownTarget /\ known r !! workspace = None \/
        e = DuplicateRelationship /\ is_Some (members r !! id) \/
        e = RelationshipTableFull /\ Z.of_nat (size (members r)) = len (relationships r))).
Proof.
  intros Hr. unfold add_relationship. act_step. act_step. act_step; simpl.
  2:{ intros H%negb_true_iff. split; [done|]. left. split; [done|]. apply eq_None_not_Some.
      rewrite <- contains_object_spec by done. by rewrite H. }
  intros H1%negb_false_iff%contains_object_spec; [|done]. act_step. act_step. act_step; simpl.
  2:{ intros H%negb_true_iff. split; [done|]. right. left. split; [done|]. apply eq_None_not_Some.
      rewrite <- contains_object_spec by done. by rewrite H. }
  intros H2%negb_false_iff%contains_object_spec; [|done]. act_step. act_step. act_step; simpl.
  2:{ intros H%contains_relationship_spec. split; [done|]. do 2 right. left. split; [done|].
      exists (Relationship id BelongsTo workspace). by apply contents_Some; [apply Hr|]. }
  intros _. do 2 act_step. act_step.
  2:{ intros Hf%free_slot_missing. split; [done|]. do 3 right. split; [done|]. unfold members, len.
      rewrite contents_size by apply Hr. lia. }
  intros i [Hi Hir]%free_slot_found. do 2 act_step. apply wp_index_set; [done|]. act_step.
  split_and!; [done|done|done|simpl; by rewrite len_insert|]. intros Hm.
  destruct (contents_fill rel_source (relationships r) i (Relationship id BelongsTo workspace) Hi
    (ro_members r Hr) Hm) as (Hu & Hc & _).
  split; [|done]. split; [apply Hr|done|..]; simpl; intros x [j Hj]%elem_of_get;
    (destruct (decide (j = i)) as [->|Hne];
      [rewrite get_insert_eq in Hj by done; simplify_eq|rewrite get_insert_ne in Hj by lia]);
    try (eapply get_elem_of in Hj).
  - done.
  - by apply Hr.
  - simpl. by apply elem_of_dom.
  - by apply (ro_sources r Hr).
Qed.
