(* ===== verification/RevisionHistory.v ===== *)
(** * Revision history

    [core/src/revision_history.rs]: the current record of every object with
    its revision number, timestamp and writer, and a bounded table of the
    records it replaced. *)

From stdpp Require Import base numbers list gmap.
From S2P Require Import Prelude Kernel SlotTable ServiceIdentity ObjectFormat ObjectStore.

(** ** Model *)

Definition MAX_QUERY_RESULTS : Z := 8.
Definition MAX_REVISIONS : Z := MAX_QUERY_RESULTS.
Definition OBJECT_SERVICE_CURRENT_OBJECTS : Z := MAX_DYNAMIC_OBJECTS.

Inductive RevisionHistoryError : Type :=
| RevisionObjectTableFull
| RevisionTableFull
| DuplicateRevisionObject
| UnknownRevisionObject
| NonMonotonicTimestamp
| RevisionObjectFormat (e : ObjectFormatError)
| RevisionIdentity (e : ServiceIdentityError).

Record RevisionRecord := {
  rev_object_id : ObjectId;
  rev_revision : Z;
  rev_timestamp : Z;
  rev_writer : ServiceId;
  rev_object : TypedObjectRecord;
}.

Record CurrentObject := {
  cur_revision : Z;
  cur_timestamp : Z;
  cur_writer : ServiceId;
  cur_object : TypedObjectRecord;
}.

Definition as_revision (c : CurrentObject) : RevisionRecord :=
  {| rev_object_id := object_id (cur_object c); rev_revision := cur_revision c;
     rev_timestamp := cur_timestamp c; rev_writer := cur_writer c; rev_object := cur_object c |}.

(** The const parameters of the type are the lengths of the arrays. *)
Record RevisionHistory := {
  current : list (option CurrentObject);
  revisions : list (option RevisionRecord);
}.

Definition current_key (c : CurrentObject) : Z := object_id (cur_object c).

Definition new_history (current_capacity revision_capacity : Z) : RevisionHistory :=
  {| current := replicate (Z.to_nat current_capacity) None;
     revisions := replicate (Z.to_nat revision_capacity) None |}.

Abbreviation history_action := (action RevisionHistory RevisionHistoryError).

Definition current_index (h : RevisionHistory) (id : ObjectId) : option Z :=
  position (has_key current_key id) (current h).

Definition set_current (cs : list (option CurrentObject)) (h : RevisionHistory) :=
  {| current := cs; revisions := revisions h |}.
Definition set_revisions (rs : list (option RevisionRecord)) (h : RevisionHistory) :=
  {| current := current h; revisions := rs |}.

(** [self.current[i] = Some(c)] *)
Definition put_current (i : Z) (c : CurrentObject) : history_action unit :=
  cs ← reads (fun h => index_set (current h) i (Some c));
  update (set_current cs).

Definition history_create (object : TypedObjectRecord) (timestamp : Z) (writer : ServiceId) :
    history_action unit :=
  reads (fun h => reject (bool_decide (is_Some (current_index h (object_id object))))
                    DuplicateRevisionObject);;
  i ← reads (fun h => ok_or (position empty_slot (current h)) RevisionObjectTableFull);
  put_current i {| cur_revision := 1; cur_timestamp := timestamp; cur_writer := writer;
                   cur_object := object |}.

Definition push_revision (r : RevisionRecord) : history_action unit :=
  i ← reads (fun h => ok_or (position empty_slot (revisions h)) RevisionTableFull);
  rs ← reads (fun h => index_set (revisions h) i (Some r));
  update (set_revisions rs).

Definition update_object (object : TypedObjectRecord) (timestamp : Z) (writer : ServiceId) :
    history_action Z :=
  i ← reads (fun h => ok_or (current_index h (object_id object)) UnknownRevisionObject);
  o ← reads (fun h => index (current h) i);
  c ← pure (ok_or o UnknownRevisionObject);
  pure (reject (timestamp <=? cur_timestamp c) NonMonotonicTimestamp);;
  push_revision (as_revision c);;
  next ← pure (expect (checked_add 64 (cur_revision c) 1));
  put_current i {| cur_revision := next; cur_timestamp := timestamp; cur_writer := writer;
                   cur_object := object |};;
  mret next.

(** The index that [current_index] returns is in range. *)
Definition current_revision (h : RevisionHistory) (id : ObjectId) : option RevisionRecord :=
  i ← current_index h id;
  o ← get (current h) i;
  as_revision <$> o.

(** The test of the loop in [prior_revision]. *)
Definition is_revision (id : ObjectId) (revision : Z) (o : option RevisionRecord) : bool :=
  match o with
  | Some r => (rev_object_id r =? id) && (rev_revision r =? revision)
  | None => false
  end.

Definition prior_revision (h : RevisionHistory) (id : ObjectId) (revision : Z) : option RevisionRecord :=
  find (is_revision id revision) (revisions h) ≫= Datatypes.id.

Definition revision_count (h : RevisionHistory) (id : ObjectId) : Z :=
  len (filter (fun r => rev_object_id r = id) (entries_of (revisions h))).

Definition current_records (h : RevisionHistory) : list (option RevisionRecord) :=
  option_map as_revision <$> current h.

Definition prior_records (h : RevisionHistory) : list (option RevisionRecord) := revisions h.

Definition current_record_at (h : RevisionHistory) (i : Z) :
    outcome RevisionHistoryError (option RevisionRecord) :=
  if len (current h) <=? i then Ok None
  else o ← index (current h) i; Ok (option_map as_revision o).

Definition prior_record_at (h : RevisionHistory) (i : Z) :
    outcome RevisionHistoryError (option RevisionRecord) :=
  if len (revisions h) <=? i then Ok None else index (revisions h) i.

Definition from_revision (r : RevisionRecord) : CurrentObject :=
  {| cur_revision := rev_revision r; cur_timestamp := rev_timestamp r;
     cur_writer := rev_writer r; cur_object := rev_object r |}.

(** One round of the first loop in [restore_from_records]. *)
Definition restore_current (rs : list (option RevisionRecord)) (h : RevisionHistory) (i : Z) :
    outcome RevisionHistoryError RevisionHistory :=
  o ← index rs i;
  match o with
  | None => Ok h
  | Some r =>
      reject (negb (rev_object_id r =? object_id (rev_object r))) UnknownRevisionObject;;
      reject (bool_decide (is_Some (current_index h (rev_object_id r)))) DuplicateRevisionObject;;
      cs ← index_set (current h) i (Some (from_revision r));
      Ok (set_current cs h)
  end.

(** One round of the second loop. *)
Definition check_prior (h : RevisionHistory) (rs : list (option RevisionRecord)) (i : Z) :
    outcome RevisionHistoryError unit :=
  o ← index rs i;
  match o with
  | None => Ok tt
  | Some r => reject (negb (bool_decide (is_Some (current_index h (rev_object_id r)))))
                UnknownRevisionObject
  end.

Definition restore_history (cs rs : list (option RevisionRecord)) :
    outcome RevisionHistoryError RevisionHistory :=
  h ← foldM (restore_current cs) (new_history (len cs) (len rs)) (range 0 (len cs));
  forM (range 0 (len rs)) (check_prior h rs);;
  Ok (set_revisions rs h).

(** ** The history as a map *)

Definition currents (h : RevisionHistory) : gmap Z CurrentObject := contents current_key (current h).

Record history_ok (h : RevisionHistory) : Prop := {
  ho_keys : unique_keys current_key (current h);
  ho_prior r : Some r ∈ revisions h ->
    exists c, currents h !! rev_object_id r = Some c /\ rev_revision r < cur_revision c;
  ho_revision id c : currents h !! id = Some c -> 1 <= cur_revision c;
}.

Lemma current_index_spec h id :
  history_ok h ->
  match current_index h id with
  | Some i => exists c, get (current h) i = Some (Some c) /\ current_key c = id /\ currents h !! id = Some c
  | None => currents h !! id = None
  end.
Proof. intros Hh. apply position_has_key, Hh. Qed.

Lemma current_revision_spec h id :
  history_ok h -> current_revision h id = as_revision <$> currents h !! id.
Proof.
  intros Hh. pose proof (current_index_spec h id Hh) as Hi. unfold current_revision.
  destruct (current_index h id) as [i|]; simpl; [|by rewrite Hi].
  destruct Hi as (c & Hg & _ & Hc). by rewrite Hg, Hc.
Qed.

Lemma history_create_spec object timestamp writer h :
  history_ok h ->
  wpA (history_create object timestamp writer) h
    (fun _ h' => currents h !! object_id object = None /\ history_ok h' /\
       currents h' = <[object_id object := {| cur_revision := 1; cur_timestamp := timestamp;
                         cur_writer := writer; cur_object := object |}]> (currents h) /\
       revisions h' = revisions h /\ len (current h') = len (current h))
    (fun e h' => h' = h /\
       (e = DuplicateRevisionObject /\ is_Some (currents h !! object_id object) \/
        e = RevisionObjectTableFull /\ Z.of_nat (size (currents h)) = len (current h))).
Proof.
  intros Hh. pose proof (current_index_spec h (object_id object) Hh) as Hi. unfold history_create.
  act_step. act_step. act_step.
  2:{ intros [i Hs]%bool_decide_eq_true. rewrite Hs in Hi. destruct Hi as (c & _ & _ & ->). split; [done|].
      left. eauto. }
  intros Hn%bool_decide_eq_false. destruct (current_index _ _); [by destruct Hn; eauto|].
  do 2 act_step. act_step.
  2:{ intros Hf%free_slot_missing. split; [done|]. right. split; [done|]. unfold currents, len.
      rewrite contents_size by apply Hh. lia. }
  intros i [Hg Hir]%free_slot_found. unfold put_current. do 2 act_step. apply wp_index_set; [done|]. act_step.
  match goal with |- context [Some ?c] =>
    destruct (contents_fill current_key (current h) i c Hg (ho_keys h Hh) Hi) as (Hu & Hc & _) end.
  split_and!; [done| |done|done|simpl; by rewrite len_insert]. split; [done|..].
  - intros r (c & Hcr & Hlt)%(ho_prior h Hh). exists c. split; [|done]. unfold currents. simpl. rewrite Hc.
    rewrite lookup_insert_ne; [done|]. intros Heq. unfold current_key in Heq. simpl in Heq. congruence.
  - intros id c. unfold currents. simpl. rewrite Hc. intros [[_ <-]|[_ Hcr]]%lookup_insert_Some; [done|].
    by eapply ho_revision.
Qed.

Lemma update_object_spec object timestamp writer h :
  history_ok h ->
  (forall c, currents h !! object_id object = Some c -> cur_revision c + 1 < 2 ^ 64) ->
  wpA (update_object object timestamp writer) h
    (fun n h' => exists c i, currents h !! object_id object = Some c /\ cur_timestamp c < timestamp /\
       n = cur_revision c + 1 /\ history_ok h' /\
       currents h' = <[object_id object := {| cur_revision := n; cur_timestamp := timestamp;
                         cur_writer := writer; cur_object := object |}]> (currents h) /\
       get (revisions h) i = Some None /\
       revisions h' = <[Z.to_nat i := Some (as_revision c)]> (revisions h) /\
       len (current h') = len (current h))
    (fun e _ =>
       e = UnknownRevisionObject /\ currents h !! object_id object = None \/
       (exists c, currents h !! object_id object = Some c /\
          (e = NonMonotonicTimestamp /\ timestamp <= cur_timestamp c \/
           e = RevisionTableFull /\ forall o, o ∈ revisions h -> is_Some o))).
Proof.
  intros Hh Hbound. pose proof (current_index_spec h (object_id object) Hh) as Hi. unfold update_object.
  do 2 act_step. destruct (current_index _ _) as [i|]; [|by left]. act_step; [|done]. intros ? [= <-].
  destruct Hi as (c & Hg & Hk & Hc). do 2 act_step. unfold index. rewrite Hg. simpl.
  do 2 act_step. simpl. do 2 act_step. act_step.
  2:{ intros H%Z.leb_le. right. eauto. }
  intros Ht%Z.leb_gt. unfold push_revision. do 3 act_step. act_step.
  2:{ intros Hf. right. exists c. split; [done|]. right. split; [done|]. intros [r|] Ho; [done|].
      by pose proof (position_None _ _ Hf _ Ho). }
  intros j [Hj Hjr]%free_slot_found. do 2 act_step. apply wp_index_set; [done|]. act_step.
  specialize (Hbound c Hc). pose proof (ho_revision h Hh _ _ Hc) as H1.
  do 2 act_step. unfold checked_add. rewrite checked_id by (unfold uint; lia). simpl.
  unfold put_current. do 3 act_step. simpl. apply wp_index_set; [apply get_is_Some; eauto|]. do 2 act_step.
  match goal with |- context [<[Z.to_nat i := Some ?x]> (current h)] =>
    destruct (contents_replace current_key (current h) i x c Hg (ho_keys h Hh)) as (Hu & Hcc & _); [by rewrite Hk|] end.
  exists c, j. split_and!; try done; [|simpl; by rewrite len_insert]. split; [done|..]; simpl.
  - intros r [k Hr]%elem_of_get. unfold currents. simpl. rewrite Hcc.
    destruct (decide (k = j)) as [->|Hne].
    + rewrite get_insert_eq in Hr by done. simplify_eq. simpl. unfold current_key in *. simpl in *. rewrite Hk.
      rewrite lookup_insert_eq. eexists. split; [done|]. simpl. lia.
    + rewrite get_insert_ne in Hr by lia. apply get_elem_of, (ho_prior h Hh) in Hr as (c' & Hc' & Hlt).
      unfold current_key. simpl. destruct (decide (rev_object_id r = object_id object)) as [Heq|Hd].
      * rewrite Heq, lookup_insert_eq. eexists. split; [done|]. simpl. rewrite Heq in Hc'. simplify_eq. lia.
      * rewrite lookup_insert_ne by done. eauto.
  - intros id c'. unfold currents. simpl. rewrite Hcc. intros [[_ <-]|[_ Hcr]]%lookup_insert_Some; [simpl; lia|].
    by eapply ho_revision.
Qed.

(** ** Saving and restoring *)

Lemma from_as_revision c : from_revision (as_revision c) = c.
Proof. by destruct c. Qed.

Lemma get_current_records h i o :
  get (current_records h) i = Some o <-> exists c, get (current h) i = Some c /\ o = option_map as_revision c.
Proof.
  unfold current_records. rewrite !get_Some. unfold len. rewrite length_fmap, list_lookup_fmap, fmap_Some. split.
  - intros [Hi (c & Hc & ->)]. exists c. by rewrite get_Some.
  - intros (c & [Hi Hc]%get_Some & ->). split; [done|]. eauto.
Qed.

Lemma restore_current_spec h n :
  history_ok h -> 0 <= n < len (current h) ->
  wp (restore_current (current_records h)
        {| current := filled (current h) n; revisions := replicate (length (revisions h)) None |} n)
    (fun h' => h' = {| current := filled (current h) (n + 1);
                       revisions := replicate (length (revisions h)) None |})
    (fun _ => False).
Proof.
  intros Hh Hn. destruct (proj2 (get_is_Some (current h) n) Hn) as [o Ho].
  unfold restore_current, index. rewrite (proj2 (get_current_records h n (option_map as_revision o))) by eauto.
  simpl. destruct o as [c|]; simpl.
  2:{ f_equal. by apply filled_skip. }
  rewrite Z.eqb_refl. simpl.
  replace (bool_decide _) with false.
  2:{ symmetry. apply bool_decide_eq_false. intros [j (Hj & ([c'|] & Hc' & Hk) & _)%position_Some]; [|done].
      simpl in Hc', Hk. apply Z.eqb_eq in Hk. apply get_filled in Hc' as [Hc' Hlt]; [|lia].
      assert (j = n); [|lia]. by eapply (unique_slots current_key (current h)); [apply Hh|..]. }
  simpl. apply wp_bind, wp_index_set; [simpl; rewrite len_filled; lia|]. simpl.
  rewrite from_as_revision, filled_set by done. done.
Qed.

(** Restoring from the saved records returns the history. *)
Lemma restore_history_id h :
  history_ok h -> restore_history (current_records h) (prior_records h) = Ok h.
Proof.
  intros Hh. unfold restore_history.
  assert (len (current_records h) = len (current h)) as Hlen.
  { unfold current_records, len. by rewrite length_fmap. }
  rewrite Hlen.
  assert (wp (foldM (restore_current (current_records h)) (new_history (len (current h)) (len (prior_records h)))
     (range 0 (len (current h))))
    (fun h' => h' = {| current := current h; revisions := replicate (length (revisions h)) None |})
    (fun _ => False)) as Hloop.
  { eapply (wp_mono _ (fun h' => h' = {| current := filled (current h) (len (current h));
        revisions := replicate (length (revisions h)) None |}) _ (fun _ => False));
      [|by rewrite filled_all|done].
    apply (wp_foldM_range _ _ (fun n h' => h' = {| current := filled (current h) n;
                       revisions := replicate (length (revisions h)) None |})); [apply len_nonneg|..].
    - unfold new_history, prior_records, len. rewrite filled_none, !Nat2Z.id. done.
    - intros n h' Hn ->. by apply restore_current_spec. }
  destruct (foldM _ _ _) as [h'|e| |]; simpl in Hloop; try done. subst h'. simpl.
  set (h' := {| current := _; revisions := _ |}).
  rewrite (proj2 (forM_ok (range 0 (len (prior_records h))) (check_prior h' (prior_records h)))).
  { simpl. by destruct h. }
  intros i [Hi0 Hi]%elem_of_range. unfold check_prior, index.
  destruct (proj2 (get_is_Some (prior_records h) i)) as [o Ho]; [lia|]. rewrite Ho. simpl.
  destruct o as [r|]; [|done]. apply get_elem_of, (ho_prior h Hh) in Ho as (c & Hc & _).
  rewrite bool_decide_eq_true_2; [done|].
  change (current_index h' (rev_object_id r)) with (current_index h (rev_object_id r)).
  pose proof (current_index_spec h (rev_object_id r) Hh) as Hi'.
  destruct (current_index _ _); [eauto|congruence].
Qed.
