(* ===== verification/StorageQuotas.v ===== *)
(** * Storage quotas

    [core/src/storage_quotas.rs]: a table of at most four services with the
    number of blocks each may hold and holds. *)

From stdpp Require Import base numbers list gmap.
From S2P Require Import Prelude Kernel ServiceIdentity.

(** ** Model *)

Definition MAX_STORAGE_QUOTAS : Z := 4.

Inductive StorageQuotaError : Type :=
| QuotaTableFull
| DuplicateQuotaService
| UnknownQuotaService
| StorageQuotaExceeded
| CounterOverflow
| QuotaIdentity (e : ServiceIdentityError).

Record StorageQuotaRecord := {
  quota_service : ServiceId;
  max_blocks : Z;
  quota_used : Z;
  quota_active : bool;
}.

Definition empty_quota : StorageQuotaRecord :=
  {| quota_service := INVALID_SERVICE_ID; max_blocks := 0; quota_used := 0; quota_active := false |}.

Record StorageQuotaTable := { quotas : list StorageQuotaRecord }.

Definition new_quota_table : StorageQuotaTable :=
  {| quotas := replicate (Z.to_nat MAX_STORAGE_QUOTAS) empty_quota |}.

Abbreviation quota_action := (action StorageQuotaTable StorageQuotaError).

(** The predicate of [find] in every method. *)
Definition quota_of (id : ServiceId) (r : StorageQuotaRecord) : bool :=
  quota_active r && (quota_service r =? id).

(** [self.records.iter_mut().find(p)]: the index through which the record is
    then read and written. *)
Definition quota_index (t : StorageQuotaTable) (id : ServiceId) : outcome StorageQuotaError Z :=
  ok_or (position (quota_of id) (quotas t)) UnknownQuotaService.

Definition set_quota (i : Z) (r : StorageQuotaRecord) : quota_action unit :=
  rs ← reads (fun t => index_set (quotas t) i r);
  update (fun _ => {| quotas := rs |}).

Definition register_quota (id : ServiceId) (blocks : Z) : quota_action unit :=
  reads (fun t => reject (existsb (quota_of id) (quotas t)) DuplicateQuotaService);;
  i ← reads (fun t => ok_or (position (fun r => negb (quota_active r)) (quotas t)) QuotaTableFull);
  set_quota i {| quota_service := id; max_blocks := blocks; quota_used := 0; quota_active := true |}.

Definition with_used (r : StorageQuotaRecord) (n : Z) : StorageQuotaRecord :=
  {| quota_service := quota_service r; max_blocks := max_blocks r; quota_used := n;
     quota_active := quota_active r |}.
Definition with_limit (r : StorageQuotaRecord) (n : Z) : StorageQuotaRecord :=
  {| quota_service := quota_service r; max_blocks := n; quota_used := quota_used r;
     quota_active := quota_active r |}.

Definition charge_blocks (id : ServiceId) (blocks : Z) : quota_action unit :=
  i ← reads (fun t => quota_index t id);
  r ← reads (fun t => index (quotas t) i);
  next ← pure (ok_or (checked_add 64 (quota_used r) blocks) CounterOverflow);
  pure (reject (max_blocks r <? next) StorageQuotaExceeded);;
  set_quota i (with_used r next).

Definition ensure_minimum_limit (id : ServiceId) (min_blocks : Z) : quota_action unit :=
  i ← reads (fun t => quota_index t id);
  r ← reads (fun t => index (quotas t) i);
  if max_blocks r <? min_blocks then set_quota i (with_limit r min_blocks) else mret tt.

(** [checked_sub] *)
Definition release_blocks (id : ServiceId) (blocks : Z) : quota_action unit :=
  i ← reads (fun t => quota_index t id);
  r ← reads (fun t => index (quotas t) i);
  next ← pure (ok_or (checked 64 (quota_used r - blocks)) CounterOverflow);
  set_quota i (with_used r next).

Definition quota_used_blocks (t : StorageQuotaTable) (id : ServiceId) : outcome StorageQuotaError Z :=
  ok_or (quota_used <$> find (quota_of id) (quotas t)) UnknownQuotaService.

Definition quota_self_test : outcome StorageQuotaError unit :=
  '(id, _) ← map_err QuotaIdentity (run (register_task 91) new_identity_table);
  '(_, t) ← run (register_quota id 2) new_quota_table;
  '(_, t) ← run (charge_blocks id 1) t;
  used ← quota_used_blocks t id;
  reject (negb (used =? 1)) UnknownQuotaService;;
  let '(denied, t) := charge_blocks id 2 t in
  now ← quota_used_blocks t id;
  reject (negb match denied with Err StorageQuotaExceeded => true | _ => false end ||
          negb (now =? used)) StorageQuotaExceeded;;
  '(_, t) ← run (release_blocks id 1) t;
  left ← quota_used_blocks t id;
  reject (negb (left =? 0)) CounterOverflow.

Lemma quota_self_test_passes : quota_self_test = Ok tt.
Proof. by vm_compute. Qed.

(** ** Invariant

    Every active record keeps its use within its limit, and no call panics. *)

Record quotas_ok (t : StorageQuotaTable) : Prop := {
  qo_len : len (quotas t) = MAX_STORAGE_QUOTAS;
  qo_used r : r ∈ quotas t -> 0 <= quota_used r <= max_blocks r /\ max_blocks r < 2 ^ 64;
}.

Lemma new_quotas_ok : quotas_ok new_quota_table.
Proof. split; [done|]. intros r Hr. apply elem_of_replicate in Hr as [-> _]. done. Qed.

Lemma wpA_set_quota t i r (Q : unit -> StorageQuotaTable -> Prop) R :
  quotas_ok t -> 0 <= i < MAX_STORAGE_QUOTAS -> 0 <= quota_used r <= max_blocks r -> max_blocks r < 2 ^ 64 ->
  (forall t', quotas_ok t' -> Q tt t') -> wpA (set_quota i r) t Q R.
Proof.
  intros Ht Hi Hr Hm HQ. pose proof (qo_len t Ht) as Hl. unfold set_quota. do 2 act_step.
  apply wp_index_set; [lia|]. act_step. apply HQ. split; simpl; [by rewrite len_insert|].
  intros r' [j Hj]%elem_of_get. destruct (decide (j = i)) as [->|Hne].
  - rewrite get_insert_eq in Hj by lia. by simplify_eq.
  - rewrite get_insert_ne in Hj by lia. apply (qo_used t Ht). by eapply get_elem_of.
Qed.

(** A search for a record of [t], then a call on it. *)
Lemma wpA_quota_index {A} t id (k : Z -> StorageQuotaRecord -> quota_action A) Q R :
  quotas_ok t ->
  (forall i r, 0 <= i < MAX_STORAGE_QUOTAS -> r ∈ quotas t -> wpA (k i r) t Q R) ->
  R UnknownQuotaService t ->
  wpA (i ← reads (fun t => quota_index t id); r ← reads (fun t => index (quotas t) i); k i r) t Q R.
Proof.
  intros Ht Hk HR. do 2 act_step. unfold quota_index. act_step; [|done].
  intros i (Hi & (r & Hr & _) & _)%position_Some. do 2 act_step. unfold index. rewrite Hr. simpl.
  apply Hk; [by rewrite <- (qo_len t Ht)|by eapply get_elem_of].
Qed.

(** What every method guarantees: the table stays well formed, an error of
    [charge_blocks], [register_quota] or [release_blocks] changes nothing. *)
Lemma charge_blocks_ok t id n :
  quotas_ok t -> 0 <= n -> wpA (charge_blocks id n) t (fun _ t' => quotas_ok t') (fun _ t' => t' = t).
Proof.
  intros Ht Hn. apply wpA_quota_index; [done| |done]. intros i r Hi Hr.
  destruct (qo_used t Ht r Hr) as [Hu Hm]. do 2 act_step. act_step; [|done].
  intros next [-> Hnx]%checked_Some. do 2 act_step. act_step; [|done]. intros Hle%Z.ltb_ge.
  apply wpA_set_quota; simpl; try done. unfold uint in *. lia.
Qed.

Lemma release_blocks_ok t id n :
  quotas_ok t -> 0 <= n -> wpA (release_blocks id n) t (fun _ t' => quotas_ok t') (fun _ t' => t' = t).
Proof.
  intros Ht Hn. apply wpA_quota_index; [done| |done]. intros i r Hi Hr.
  destruct (qo_used t Ht r Hr) as [Hu Hm]. do 2 act_step. act_step; [|done].
  intros next [-> Hnx]%checked_Some. apply wpA_set_quota; simpl; try done. unfold uint in *. lia.
Qed.

Lemma ensure_minimum_limit_ok t id n :
  quotas_ok t -> 0 <= n < 2 ^ 64 ->
  wpA (ensure_minimum_limit id n) t (fun _ t' => quotas_ok t') (fun _ t' => t' = t).
Proof.
  intros Ht Hn. apply wpA_quota_index; [done| |done]. intros i r Hi Hr.
  destruct (qo_used t Ht r Hr) as [Hu Hm]. destruct (max_blocks r <? n) eqn:Hlt; [|by act_step].
  apply wpA_set_quota; simpl; try done; lia.
Qed.

Lemma register_quota_ok t id n :
  quotas_ok t -> 0 <= n < 2 ^ 64 ->
  wpA (register_quota id n) t (fun _ t' => quotas_ok t') (fun _ t' => t' = t).
Proof.
  intros Ht Hn. unfold register_quota. act_step. act_step. act_step; [|done]. intros _.
  do 2 act_step. act_step; [|done]. intros i (Hi & _)%position_Some.
  apply wpA_set_quota; simpl; try done; [|lia..]. by rewrite <- (qo_len t Ht).
Qed.

Lemma quota_used_blocks_total t id :
  quota_used_blocks t id = Err UnknownQuotaService \/ exists n, quota_used_blocks t id = Ok n.
Proof. unfold quota_used_blocks. destruct (find _ _); simpl; eauto. Qed.
