(* ===== verification/UserCopy.v ===== *)
(** * User memory ranges

    [core/src/user_copy.rs]: the kernel may touch user memory only inside a
    mapping of the calling process. A map holds at most sixteen mappings that
    do not overlap; a range is accepted when it lies inside one of them and the
    mapping allows the access. *)

From stdpp Require Import base numbers list relations.
From S2P Require Import Prelude Kernel SlotTable.

(** ** Model *)

Definition MAX_USER_COPY_MAPPINGS : Z := 16.

Inductive UserCopyAccess : Type := AccessRead | AccessWrite.

Inductive UserCopyError : Type :=
| NullPointer
| EmptyRange
| LengthOverflow
| OutOfRange
| CrossMapping
| PermissionDenied
| TooManyMappings
| OverlappingMapping.

#[export] Instance user_copy_access_eq_dec : EqDecision UserCopyAccess.
Proof. solve_decision. Defined.
#[export] Instance user_copy_error_eq_dec : EqDecision UserCopyError.
Proof. solve_decision. Defined.

Record UserMapping := {
  mapping_start : Z;
  mapping_end : Z;
  readable : bool;
  writable : bool;
}.

Record ValidatedUserRange := {
  range_start : Z;
  range_end : Z;
  range_access : UserCopyAccess;
}.

Record UserCopyMap := {
  mappings : list (option UserMapping);
  mapping_count : Z;
}.

Definition new_mapping (start length : Z) (r w : bool) : outcome UserCopyError UserMapping :=
  reject (start =? 0) NullPointer;;
  reject (length =? 0) EmptyRange;;
  fin ← ok_or (checked_add 64 start length) LengthOverflow;
  Ok {| mapping_start := start; mapping_end := fin; readable := r; writable := w |}.

Definition contains_start (m : UserMapping) (ptr : Z) : bool :=
  (mapping_start m <=? ptr) && (ptr <? mapping_end m).
Definition contains_range (m : UserMapping) (ptr fin : Z) : bool :=
  (mapping_start m <=? ptr) && (fin <=? mapping_end m).
Definition overlaps_range (m : UserMapping) (ptr fin : Z) : bool :=
  (ptr <? mapping_end m) && (mapping_start m <? fin).
Definition allows (m : UserMapping) (access : UserCopyAccess) : bool :=
  match access with AccessRead => readable m | AccessWrite => writable m end.

Definition new_copy_map : UserCopyMap :=
  {| mappings := replicate (Z.to_nat MAX_USER_COPY_MAPPINGS) None; mapping_count := 0 |}.

Abbreviation copy_action := (action UserCopyMap UserCopyError).

(** One round of the loop in [add_mapping]. *)
Definition check_overlap (map : UserCopyMap) (m : UserMapping) (i : Z) : outcome UserCopyError unit :=
  o ← index (mappings map) i;
  existing ← ok_or o OutOfRange;
  reject (overlaps_range m (mapping_start existing) (mapping_end existing)) OverlappingMapping.

Definition add_mapping (start length : Z) (r w : bool) : copy_action unit :=
  n ← reads (fun map => Ok (mapping_count map));
  pure (reject (MAX_USER_COPY_MAPPINGS <=? n) TooManyMappings);;
  m ← pure (new_mapping start length r w);
  reads (fun map => forM (range 0 n) (check_overlap map m));;
  ms ← reads (fun map => index_set (mappings map) n (Some m));
  n' ← pure (expect (checked_add 64 n 1));
  update (fun _ => {| mappings := ms; mapping_count := n' |}).

(** The loop of [find_mapping_containing_start], over the indices left. *)
Fixpoint find_start (map : UserCopyMap) (ptr : Z) (idxs : list Z) : outcome UserCopyError (option Z) :=
  match idxs with
  | [] => Ok None
  | i :: rest =>
      o ← index (mappings map) i;
      match o with
      | Some m => if contains_start m ptr then Ok (Some i) else find_start map ptr rest
      | None => find_start map ptr rest
      end
  end.

Definition find_mapping_containing_start (map : UserCopyMap) (ptr : Z) : outcome UserCopyError (option Z) :=
  find_start map ptr (range 0 (mapping_count map)).

(** The loop of [crosses_another_mapping], over the indices left. *)
Fixpoint find_crossing (map : UserCopyMap) (current ptr fin : Z) (idxs : list Z) : outcome UserCopyError bool :=
  match idxs with
  | [] => Ok false
  | i :: rest =>
      if i =? current then find_crossing map current ptr fin rest
      else
        o ← index (mappings map) i;
        match o with
        | Some m => if overlaps_range m ptr fin then Ok true else find_crossing map current ptr fin rest
        | None => find_crossing map current ptr fin rest
        end
  end.

Definition crosses_another_mapping (map : UserCopyMap) (current ptr fin : Z) : outcome UserCopyError bool :=
  find_crossing map current ptr fin (range 0 (mapping_count map)).

Definition validate_user_range (map : UserCopyMap) (ptr length : Z) (access : UserCopyAccess) :
    outcome UserCopyError ValidatedUserRange :=
  reject (ptr =? 0) NullPointer;;
  reject (length =? 0) EmptyRange;;
  fin ← ok_or (checked_add 64 ptr length) LengthOverflow;
  found ← find_mapping_containing_start map ptr;
  i ← ok_or found OutOfRange;
  o ← index (mappings map) i;
  m ← ok_or o OutOfRange;
  (if negb (contains_range m ptr fin)
   then crosses ← crosses_another_mapping map i ptr fin;
        if (crosses : bool) then Err CrossMapping else Err OutOfRange
   else Ok tt);;
  reject (negb (allows m access)) PermissionDenied;;
  Ok {| range_start := ptr; range_end := fin; range_access := access |}.

Definition denied_with (e : UserCopyError) (m : outcome UserCopyError ValidatedUserRange) : bool :=
  match m with Err e' => bool_decide (e' = e) | _ => false end.

(** The four flags of [UserCopyProof] and the permission check that
    [run_self_test] requires. *)
Definition user_copy_self_test : outcome UserCopyError (bool * bool * bool * bool * bool) :=
  '(_, map) ← run (add_mapping 0x400000 0x1000 true false) new_copy_map;
  '(_, map) ← run (add_mapping 0x401000 0x1000 true true) map;
  r ← validate_user_range map 0x400020 64 AccessRead;
  Ok ((range_start r =? 0x400020) && (range_end r =? 0x400060) &&
      (range_end r - range_start r =? 64) && bool_decide (range_access r = AccessRead),
      denied_with OutOfRange (validate_user_range map 0x600000 32 AccessRead),
      denied_with LengthOverflow (validate_user_range map (u64_max - 7) 16 AccessRead),
      denied_with CrossMapping (validate_user_range map 0x400FF0 32 AccessRead),
      denied_with PermissionDenied (validate_user_range map 0x400020 16 AccessWrite)).

Lemma user_copy_self_test_passes : user_copy_self_test = Ok (true, true, true, true, true).
Proof. by vm_compute. Qed.

(** ** Maps that calls can build *)

Inductive copy_map_step : UserCopyMap -> UserCopyMap -> Prop :=
| copy_map_add start length r w res map map' :
    uint 64 start -> uint 64 length ->
    add_mapping start length r w map = (res, map') -> copy_map_step map map'.

Definition copy_map_reachable : UserCopyMap -> Prop := rtc copy_map_step new_copy_map.

(** [m] is a mapping of the map. *)
Definition mapped (map : UserCopyMap) (m : UserMapping) : Prop := exists i, get (mappings map) i = Some (Some m).

Record copy_map_ok (map : UserCopyMap) : Prop := {
  um_len : len (mappings map) = MAX_USER_COPY_MAPPINGS;
  um_count : 0 <= mapping_count map <= MAX_USER_COPY_MAPPINGS;
  um_used i : 0 <= i < mapping_count map -> exists m, get (mappings map) i = Some (Some m);
  um_free i m : get (mappings map) i = Some (Some m) -> i < mapping_count map;
  um_range m : mapped map m -> 0 < mapping_start m < mapping_end m /\ mapping_end m < 2 ^ 64;
  um_disjoint i j m m' : get (mappings map) i = Some (Some m) -> get (mappings map) j = Some (Some m') ->
    i <> j -> mapping_end m <= mapping_start m' \/ mapping_end m' <= mapping_start m;
}.

Lemma new_copy_map_ok : copy_map_ok new_copy_map.
Proof.
  assert (forall i m, get (mappings new_copy_map) i <> Some (Some m)) as Hn.
  { intros i m [[=] _]%get_replicate. }
  split; try done.
  - intros i Hi. simpl in Hi. lia.
  - intros i m H. by apply Hn in H.
  - intros m [i H]. by apply Hn in H.
  - intros i j m m' H. by apply Hn in H.
Qed.

Lemma add_mapping_ok start length r w map :
  copy_map_ok map -> uint 64 start -> uint 64 length ->
  wpA (add_mapping start length r w) map (fun _ map' => copy_map_ok map') (fun _ map' => map' = map).
Proof.
  intros Hm Hs Hl. pose proof (um_count map Hm) as Hc. pose proof (um_len map Hm) as Hlen. unfold add_mapping.
  act_step. act_step. act_step. act_step. act_step. act_step; [|done]. intros Hlt%Z.leb_gt.
  do 2 act_step. unfold new_mapping. act_step. act_step; [|done]. intros H0%Z.eqb_neq.
  act_step. act_step; [|done]. intros H1%Z.eqb_neq. act_step. act_step; [|done].
  intros fin [-> Hfin]%checked_Some. apply wp_ok. unfold uint in *.
  set (m := {| mapping_start := start; mapping_end := start + length; readable := r; writable := w |}).
  do 2 act_step.
  eapply wp_mono; [apply (wp_forM _ _ (fun i => forall m', get (mappings map) i = Some (Some m') ->
    mapping_end m <= mapping_start m' \/ mapping_end m' <= mapping_start m) (fun _ => True))| |done].
  { intros i [Hi0 Hi]%elem_of_range. unfold check_overlap.
    destruct (um_used map Hm i ltac:(lia)) as [m' Hg]. unfold index. rewrite Hg. simpl.
    act_step; [|done]. intros Ho m2 [= ->]. unfold overlaps_range in Ho. simpl in Ho. lia. }
  intros [] Hdis. do 2 act_step. apply wp_index_set; [lia|]. do 2 act_step.
  unfold checked_add, MAX_USER_COPY_MAPPINGS in *. rewrite checked_id by (unfold uint; lia). simpl. act_step.
  assert (forall i o, get (<[Z.to_nat (mapping_count map) := Some m]> (mappings map)) i = Some o <->
            (i = mapping_count map /\ o = Some m) \/ (i <> mapping_count map /\ get (mappings map) i = Some o)) as Hget.
  { intros i o. destruct (decide (i = mapping_count map)) as [->|Hne].
    - rewrite get_insert_eq by lia. naive_solver.
    - rewrite get_insert_ne by lia. naive_solver. }
  assert (forall i m', i <> mapping_count map -> get (mappings map) i = Some (Some m') ->
    mapping_end m <= mapping_start m' \/ mapping_end m' <= mapping_start m) as Hnew.
  { intros i m' Hne Hg. apply (Hdis i); [|done]. apply elem_of_range.
    pose proof (um_free map Hm i m' Hg). apply get_Some in Hg as [? _]. lia. }
  split; simpl.
  - rewrite len_insert. done.
  - unfold MAX_USER_COPY_MAPPINGS. lia.
  - intros i Hi. destruct (decide (i = mapping_count map)) as [->|Hne].
    + exists m. apply Hget. by left.
    + destruct (um_used map Hm i ltac:(lia)) as [m' Hg]. exists m'. apply Hget. by right.
  - intros i m' [[-> _]|[_ Hg]]%Hget; [lia|]. pose proof (um_free map Hm i m' Hg). lia.
  - intros m' [i [[_ [= ->]]|[_ Hg]]%Hget]; [simpl; lia|]. apply (um_range map Hm). by exists i.
  - intros i j m1 m2 [[-> [= ->]]|[Hi Hg1]]%Hget [[-> [= ->]]|[Hj Hg2]]%Hget Hne; [done| | |].
    + by eapply Hnew.
    + destruct (Hnew i m1 Hi Hg1); auto.
    + by eapply (um_disjoint map Hm i j).
Qed.

Lemma copy_map_reachable_ok map : copy_map_reachable map -> copy_map_ok map.
Proof.
  intros Hr. unfold copy_map_reachable in Hr. remember new_copy_map as s eqn:Hs.
  assert (copy_map_ok s) as Hok by (subst; apply new_copy_map_ok). clear Hs.
  induction Hr as [|s s1 s2 Hstep _ IH]; [done|]. apply IH.
  destruct Hstep as [start length r w res s s1 H1 H2 Hrun].
  destruct (wpA_run _ _ _ _ (add_mapping_ok start length r w s Hok H1 H2))
    as [(? & s' & Hm & HQ)|(e & s' & Hm & ->)]; rewrite Hrun in Hm; by simplify_eq.
Qed.

Lemma find_start_spec map ptr k :
  copy_map_ok map -> 0 <= k <= mapping_count map ->
  wp (find_start map ptr (range k (mapping_count map)))
    (fun r => match r with
       | Some i => exists m, get (mappings map) i = Some (Some m) /\ contains_start m ptr = true
       | None => forall i m, k <= i -> get (mappings map) i = Some (Some m) -> contains_start m ptr = false
       end) (fun _ => False).
Proof.
  intros Hm. remember (Z.to_nat (mapping_count map - k)) as n eqn:Hn. revert k Hn.
  induction n as [|n IH]; intros k Hn Hk.
  - rewrite range_nil by lia. simpl. intros i m Hi Hg. pose proof (um_free map Hm i m Hg). lia.
  - rewrite range_cons by lia. simpl. destruct (um_used map Hm k ltac:(lia)) as [m Hg].
    unfold index. rewrite Hg. simpl. destruct (contains_start m ptr) eqn:Hc; [simpl; eauto|].
    eapply wp_mono; [apply IH; lia| |done]. intros [i|]; [done|]. intros Hno i m' Hi Hg'.
    destruct (decide (i = k)) as [->|]; [congruence|]. apply (Hno i); [lia|done].
Qed.

Lemma find_crossing_spec map current ptr fin idxs :
  copy_map_ok map -> (forall i, i ∈ idxs -> 0 <= i < mapping_count map) ->
  wp (find_crossing map current ptr fin idxs) (fun _ => True) (fun _ => False).
Proof.
  intros Hm. induction idxs as [|i idxs IH]; intros His; simpl; [done|].
  destruct (i =? current); [apply IH; set_solver|].
  destruct (um_used map Hm i) as [m Hg]; [apply His; set_solver|]. unfold index. rewrite Hg. simpl.
  destruct (overlaps_range m ptr fin); [done|]. apply IH. set_solver.
Qed.

(** C30: On every map built by [add_mapping] the validation of a user range
    returns without panic. It accepts exactly the non-empty ranges that start
    above zero, do not wrap around and lie inside one mapping that allows the
    access, and then it returns that range; that mapping is the only one the
    range touches. *)
Theorem user_range_exact map ptr length access :
  copy_map_reachable map -> uint 64 ptr -> uint 64 length ->
  match validate_user_range map ptr length access with
  | Ok r => r = {| range_start := ptr; range_end := ptr + length; range_access := access |} /\
      0 < ptr < ptr + length /\
      exists m, mapped map m /\ allows m access = true /\
        (forall a, ptr <= a < ptr + length -> mapping_start m <= a < mapping_end m) /\
        forall m', mapped map m' -> (exists a, ptr <= a < ptr + length /\ mapping_start m' <= a < mapping_end m') ->
          mapping_start m' = mapping_start m /\ mapping_end m' = mapping_end m
  | Err _ => ptr = 0 \/ length = 0 \/ 2 ^ 64 <= ptr + length \/
      forall m, mapped map m -> allows m access = true ->
        exists a, ptr <= a < ptr + length /\ ~ mapping_start m <= a < mapping_end m
  | _ => False
  end.
Proof.
  intros Hm%copy_map_reachable_ok Hp Hl. apply (wp_elim (validate_user_range map ptr length access)).
  unfold validate_user_range, uint in *. act_step. act_step; [|intros; left; lia]. intros H0%Z.eqb_neq.
  act_step. act_step; [|intros; right; left; lia]. intros H1%Z.eqb_neq. act_step. act_step.
  2:{ intros H%checked_None. unfold uint in H. do 2 right. left. lia. }
  intros fin [-> Hfin]%checked_Some. act_step.
  eapply wp_mono; [apply find_start_spec; [done|pose proof (um_count map Hm); lia]| |done].
  assert (forall m, mapped map m -> mapping_start m <= ptr < mapping_end m \/
    exists a, ptr <= a < ptr + length /\ ~ mapping_start m <= a < mapping_end m) as Hfirst.
  { intros m _. destruct (decide (mapping_start m <= ptr < mapping_end m)); [by left|]. right. exists ptr. lia. }
  intros [i|] Hi; simpl.
  2:{ do 3 right. intros m Hmm _. destruct (Hfirst m Hmm) as [Hin|]; [|done].
      destruct Hmm as [j Hj]. specialize (Hi j m ltac:(apply get_Some in Hj; lia) Hj).
      unfold contains_start in Hi. lia. }
  destruct Hi as (m & Hg & Hc). unfold contains_start in Hc.
  unfold index. rewrite Hg. simpl.
  pose proof (um_range map Hm m (ex_intro _ i Hg)) as Hmr.
  assert (forall m', mapped map m' -> mapping_start m' <= ptr < mapping_end m' -> m' = m) as Honly.
  { intros m' [j Hj] Hin. destruct (decide (i = j)) as [->|Hne]; [congruence|].
    destruct (um_disjoint map Hm i j m m' Hg Hj Hne); lia. }
  apply wp_bind. destruct (contains_range m ptr (ptr + length)) eqn:Hr; simpl.
  2:{ apply wp_bind. eapply wp_mono; [apply find_crossing_spec; [done|by intros j ?%elem_of_range]| |done].
      assert (forall m0, mapped map m0 -> allows m0 access = true ->
        exists a, ptr <= a < ptr + length /\ ~ mapping_start m0 <= a < mapping_end m0) as Hout.
      { intros m0 Hm0 _. destruct (Hfirst m0 Hm0) as [Hin|]; [|done]. rewrite (Honly m0 Hm0 Hin).
        exists (mapping_end m). unfold contains_range in Hr. lia. }
      intros [] _; simpl; auto. }
  unfold contains_range in Hr. act_step. act_step.
  2:{ intros Ha%negb_true_iff. do 3 right. intros m0 Hm0 Ha0. destruct (Hfirst m0 Hm0) as [Hin|]; [|done].
      rewrite (Honly m0 Hm0 Hin) in Ha0. congruence. }
  intros Ha%negb_false_iff. apply wp_ok. split_and!; [done|lia|lia|].
  exists m. split_and!; [by exists i|done|lia|]. intros m' [j Hj] (a & Ha1 & Ha2).
  destruct (decide (i = j)) as [->|Hne]; [by simplify_eq|].
  destruct (um_disjoint map Hm i j m m' Hg Hj Hne); lia.
Qed.
