(* ===== verification/ObjectService.v ===== *)
(** * The object service

    [core/src/object_service.rs]: the retained objects of the system behind
    capabilities. A caller creates and queries objects with a workspace
    capability, and inspects and revises an object with a capability for it.
    The service keeps the objects, their workspaces and their revisions in
    three stores, charges quotas, and saves everything but its runtime
    authority in snapshots ([ObjectServiceSnapshot] of
    [core/src/object_service_checkpoint.rs]). *)

From stdpp Require Import base numbers list gmap.
From Stdlib Require Import Strings.Byte.
From S2P Require Import Prelude ByteRegions TigTypes TigFormat TigRuntime Kernel SlotTable ServiceIdentity Capabilities BlockAllocator UserCopy ObjectFormat ObjectStore Relationships RevisionHistory StorageQuotas.

(** ** Data *)

Definition OBJECT_SERVICE_BASE_SECTOR : Z := 96.
Definition OBJECT_SERVICE_BLOCK_COUNT : Z := wrap 16 MAX_DYNAMIC_OBJECTS.
Definition TASK_SERVICE_STORAGE_ID : ServiceId := 0x5059545353545201.
Definition FIRST_SHELL_NOTE_ID : Z := 1042.
Definition KNOWN_EXTERNAL_NOTE_ID : Z := 2001.
Definition SHELL_TASK_ID : Z := 180.
Definition INTRUDER_TASK_ID : Z := 181.
Definition SHELL_PROGRAM_DIGEST : Z := 0x00510052.
Definition INTRUDER_PROGRAM_DIGEST : Z := 0xBAD00052.
Definition FIELD_TEXT : Z := 1.
Definition SHELL_PRINCIPAL_ID : Z := 0x50595348454C4C01.
Definition INTRUDER_PRINCIPAL_ID : Z := 0x5059494E54524401.
Definition FIELD_PACKAGE_SCHEMA_REF_V0 : Z := 0x1301.
Definition FIELD_PACKAGE_INLINE_STATE_V0 : Z := 0x1302.
Definition PACKAGE_DEFINED_STATE_FORMAT_EMPTY : Z := 0.
Definition PACKAGE_DEFINED_STATE_FORMAT_INLINE_BYTES_V0 : Z := 1.
Definition PACKAGE_DEFINED_MAX_INITIAL_STATE_BYTES : Z := 16.
Definition MAX_PACKAGE_SCHEMA_REFERENCES : Z := MAX_DYNAMIC_OBJECTS.

Definition WORKSPACE_RIGHTS : RightsMask := Z.lor RIGHT_READ RIGHT_WRITE.
Definition OBJECT_RIGHTS : RightsMask := Z.lor RIGHT_READ RIGHT_WRITE.

Inductive ObjectServiceError : Type :=
| Denied
| NotFound
| UnsupportedKind
| ServiceObjectFormat (e : ObjectFormatError)
| ServiceDynamicObject (e : DynamicObjectError)
| ServiceRelationship (e : RelationshipError)
| ServiceRevision (e : RevisionHistoryError)
| ServiceCapability (e : CapabilityError)
| ServiceQuota (e : StorageQuotaError)
| ServiceIdentityFailed (e : ServiceIdentityError)
| BadSnapshot.

(** [ActiveUserProcess] of [core/src/process_context.rs]. *)
Record ActiveUserProcess := {
  process_service : ServiceId;
  process_principal : Z;
  process_digest : Z;
  process_copy_map : UserCopyMap;
}.

Definition new_process (service principal digest : Z) : ActiveUserProcess :=
  {| process_service := service; process_principal := principal; process_digest := digest;
     process_copy_map := new_copy_map |}.

Record ObjectCreateResult := {
  created_id : ObjectId;
  created_revision : Z;
  created_capability : PackedCapability;
}.

Record PackageDefinedCreateInput := {
  input_schema_id : ObjectId;
  input_schema_revision : Z;
  input_state_format : Z;
  input_initial_state : list byte;
}.

Record PackageSchemaReference := {
  reference_schema_id : ObjectId;
  reference_schema_revision : Z;
}.

Record ObjectInspection := {
  inspected_object : TypedObjectRecord;
  inspected_revision : Z;
}.

Record ObjectListEntry := {
  list_object_id : Z;
  list_capability : PackedCapability;
}.

Record ObjectService := {
  os_objects : DynamicObjectStore;
  os_relationships : RelationshipStore;
  os_revisions : RevisionHistory;
  os_capabilities : CapabilityTable;
  os_quotas : StorageQuotaTable;
  os_shell_workspace : ResourceId;
  os_external_workspace : ResourceId;
  os_shell_caller : ActiveUserProcess;
  os_intruder_caller : ActiveUserProcess;
  os_shell_workspace_capability : PackedCapability;
  os_next_note_id : Z;
  os_generation : Z;
  os_next_timestamp : Z;
}.

Record ObjectExtentRecord := {
  extent_start : Z;
  extent_len : Z;
  extent_object : TypedObjectRecord;
}.

Record WorkspaceRelationshipRecord := {
  workspace_object_id : ObjectId;
  workspace_id : ObjectId;
}.

Record ObjectServiceSnapshot := {
  snap_generation : Z;
  snap_bitmap : Z;
  snap_objects : list (option ObjectExtentRecord);
  snap_workspaces : list (option WorkspaceRelationshipRecord);
  snap_current : list (option RevisionRecord);
  snap_prior : list (option RevisionRecord);
}.

Abbreviation service_action := (action ObjectService ObjectServiceError).
Abbreviation SE := (outcome ObjectServiceError).

(** ** Field updates *)

Definition set_os_objects x s := {| os_objects := x; os_relationships := os_relationships s;
  os_revisions := os_revisions s; os_capabilities := os_capabilities s; os_quotas := os_quotas s;
  os_shell_workspace := os_shell_workspace s; os_external_workspace := os_external_workspace s;
  os_shell_caller := os_shell_caller s; os_intruder_caller := os_intruder_caller s;
  os_shell_workspace_capability := os_shell_workspace_capability s;
  os_next_note_id := os_next_note_id s; os_generation := os_generation s;
  os_next_timestamp := os_next_timestamp s |}.
Definition set_os_relationships x s := {| os_objects := os_objects s; os_relationships := x;
  os_revisions := os_revisions s; os_capabilities := os_capabilities s; os_quotas := os_quotas s;
  os_shell_workspace := os_shell_workspace s; os_external_workspace := os_external_workspace s;
  os_shell_caller := os_shell_caller s; os_intruder_caller := os_intruder_caller s;
  os_shell_workspace_capability := os_shell_workspace_capability s;
  os_next_note_id := os_next_note_id s; os_generation := os_generation s;
  os_next_timestamp := os_next_timestamp s |}.
Definition set_os_revisions x s := {| os_objects := os_objects s; os_relationships := os_relationships s;
  os_revisions := x; os_capabilities := os_capabilities s; os_quotas := os_quotas s;
  os_shell_workspace := os_shell_workspace s; os_external_workspace := os_external_workspace s;
  os_shell_caller := os_shell_caller s; os_intruder_caller := os_intruder_caller s;
  os_shell_workspace_capability := os_shell_workspace_capability s;
  os_next_note_id := os_next_note_id s; os_generation := os_generation s;
  os_next_timestamp := os_next_timestamp s |}.
Definition set_os_capabilities x s := {| os_objects := os_objects s; os_relationships := os_relationships s;
  os_revisions := os_revisions s; os_capabilities := x; os_quotas := os_quotas s;
  os_shell_workspace := os_shell_workspace s; os_external_workspace := os_external_workspace s;
  os_shell_caller := os_shell_caller s; os_intruder_caller := os_intruder_caller s;
  os_shell_workspace_capability := os_shell_workspace_capability s;
  os_next_note_id := os_next_note_id s; os_generation := os_generation s;
  os_next_timestamp := os_next_timestamp s |}.
Definition set_os_quotas x s := {| os_objects := os_objects s; os_relationships := os_relationships s;
  os_revisions := os_revisions s; os_capabilities := os_capabilities s; os_quotas := x;
  os_shell_workspace := os_shell_workspace s; os_external_workspace := os_external_workspace s;
  os_shell_caller := os_shell_caller s; os_intruder_caller := os_intruder_caller s;
  os_shell_workspace_capability := os_shell_workspace_capability s;
  os_next_note_id := os_next_note_id s; os_generation := os_generation s;
  os_next_timestamp := os_next_timestamp s |}.
(** The workspaces, callers and the workspace capability that
    [initialize_runtime_authority] sets. *)
Definition set_os_authority shell_ws external_ws shell intruder cap s := {| os_objects := os_objects s;
  os_relationships := os_relationships s; os_revisions := os_revisions s;
  os_capabilities := os_capabilities s; os_quotas := os_quotas s;
  os_shell_workspace := shell_ws; os_external_workspace := external_ws;
  os_shell_caller := shell; os_intruder_caller := intruder;
  os_shell_workspace_capability := cap;
  os_next_note_id := os_next_note_id s; os_generation := os_generation s;
  os_next_timestamp := os_next_timestamp s |}.
(** The three counters. *)
Definition set_os_counters note generation ticks s := {| os_objects := os_objects s;
  os_relationships := os_relationships s; os_revisions := os_revisions s;
  os_capabilities := os_capabilities s; os_quotas := os_quotas s;
  os_shell_workspace := os_shell_workspace s; os_external_workspace := os_external_workspace s;
  os_shell_caller := os_shell_caller s; os_intruder_caller := os_intruder_caller s;
  os_shell_workspace_capability := os_shell_workspace_capability s;
  os_next_note_id := note; os_generation := generation; os_next_timestamp := ticks |}.

Definition set_next_note_id n s := set_os_counters n (os_generation s) (os_next_timestamp s) s.
Definition set_generation g s := set_os_counters (os_next_note_id s) g (os_next_timestamp s) s.
Definition set_next_timestamp t s := set_os_counters (os_next_note_id s) (os_generation s) t s.
Definition set_shell_caller c s :=
  set_os_authority (os_shell_workspace s) (os_external_workspace s) c (os_intruder_caller s)
    (os_shell_workspace_capability s) s.

Definition on_objects {A} (m : action DynamicObjectStore DynamicObjectError A) : service_action A :=
  zoom os_objects set_os_objects ServiceDynamicObject m.
Definition on_relationships {A} (m : action RelationshipStore RelationshipError A) : service_action A :=
  zoom os_relationships set_os_relationships ServiceRelationship m.
Definition on_revisions {A} (m : action RevisionHistory RevisionHistoryError A) : service_action A :=
  zoom os_revisions set_os_revisions ServiceRevision m.
Definition on_capabilities {A} (m : action CapabilityTable CapabilityError A) : service_action A :=
  zoom os_capabilities set_os_capabilities ServiceCapability m.
Definition on_quotas {A} (m : action StorageQuotaTable StorageQuotaError A) : service_action A :=
  zoom os_quotas set_os_quotas ServiceQuota m.

(** ** Capabilities *)

Definition pack_capability (h : CapabilityHandle) : PackedCapability := from_parts (slot h) (generation h).

Definition unpack_capability (c : PackedCapability) : CapabilityHandle :=
  Handle (cap_slot c) (cap_generation c).

Definition validate_capability_resource (s : ObjectService) (caller : ActiveUserProcess)
    (c : PackedCapability) (r : ResourceId) (m : RightsMask) : SE unit :=
  map_err (fun _ => Denied)
    (validate (os_capabilities s) (process_service caller) (unpack_capability c) r m).

Definition validate_workspace (s : ObjectService) (caller : ActiveUserProcess) (c : PackedCapability)
    (m : RightsMask) : SE unit :=
  validate_capability_resource s caller c (os_shell_workspace s) m.

Definition validate_object (s : ObjectService) (caller : ActiveUserProcess) (c : PackedCapability)
    (id : ObjectId) (m : RightsMask) : SE unit :=
  validate_capability_resource s caller c id m.

Definition validate_package_launch_grant (s : ObjectService) (caller : ActiveUserProcess)
    (c : PackedCapability) (r : ResourceId) (m : RightsMask) : SE unit :=
  validate_capability_resource s caller c r m.

Definition grant_object_capability (caller : ActiveUserProcess) (id : ObjectId) :
    service_action PackedCapability :=
  h ← on_capabilities (grant (process_service caller) id OBJECT_RIGHTS);
  mret (pack_capability h).

Definition take_timestamp : service_action Z :=
  ticks ← reads (fun s => Ok (os_next_timestamp s));
  update (fun s => set_next_timestamp (wrap 64 (os_next_timestamp s + 1)) s);;
  mret ticks.

Definition ensure_storage_quota (id : ServiceId) : service_action unit :=
  used ← reads (fun s => Ok (quota_used_blocks (os_quotas s) id));
  match used with
  | Ok _ => on_quotas (ensure_minimum_limit id MAX_DYNAMIC_OBJECTS)
  | Err UnknownQuotaService => on_quotas (register_quota id MAX_DYNAMIC_OBJECTS)
  | Err e => pure (Err (ServiceQuota e))
  | Panic => pure Panic
  | Diverge => pure Diverge
  end.

Definition object_belongs_to_workspace (s : ObjectService) (id workspace : ObjectId) : bool :=
  match query_first (os_relationships s) id BelongsTo with
  | Some x => rel_target x =? workspace
  | None => false
  end.

Definition is_schema_definition (r : RevisionRecord) : bool :=
  bool_decide (object_kind (rev_object r) = Kind.SchemaDefinition).

Definition schema_definition_revision_exists (s : ObjectService) (id : ObjectId) (revision : Z) : bool :=
  match current_revision (os_revisions s) id with
  | Some r => (rev_revision r =? revision) && is_schema_definition r
  | None => false
  end ||
  match prior_revision (os_revisions s) id revision with
  | Some r => is_schema_definition r
  | None => false
  end.

Definition is_task_service_kind (k : ObjectKind) : bool :=
  match k with
  | Kind.Task | Kind.TaskProposal | Kind.TaskEvent | Kind.TaskRelation | Kind.RelevanceAssertion
  | Kind.CapabilityRequest => true
  | _ => false
  end.

(** ** Creating objects *)

Definition belongs_to_shell (id : ObjectId) : ObjectRelationship :=
  Relationship id BelongsTo SHELL_WORKSPACE_OBJECT_ID.

(** [let id = self.next_shell_note_id; self.next_shell_note_id.wrapping_add(1)] *)
Definition take_note_id : service_action ObjectId :=
  id ← reads (fun s => Ok (os_next_note_id s));
  update (fun s => set_next_note_id (wrap 64 (os_next_note_id s + 1)) s);;
  mret id.

(** The part that [create_object] and [create_task_service_object] share:
    [owner] pays the block, [writer] signs the revision. *)
Definition insert_new_object (owner writer : ServiceId) (object : TypedObjectRecord) : service_action unit :=
  or_undo (on_objects (store_create object);; mret tt) (ignore (on_quotas (release_blocks owner 1)));;
  or_undo (on_relationships (insert_object object))
    (ignore (on_objects (store_delete (object_id object)));; ignore (on_quotas (release_blocks owner 1)));;
  on_relationships (add_relationship (belongs_to_shell (object_id object)));;
  timestamp ← take_timestamp;
  on_revisions (history_create object timestamp writer).

Definition create_object (caller : ActiveUserProcess) (workspace : PackedCapability) (kind : ObjectKind) :
    service_action ObjectCreateResult :=
  pure (reject (negb (bool_decide (kind = Kind.Note))) UnsupportedKind);;
  reads (fun s => validate_workspace s caller workspace RIGHT_WRITE);;
  on_quotas (charge_blocks (process_service caller) 1);;
  id ← take_note_id;
  insert_new_object (process_service caller) (process_service caller) (new_object id kind 1);;
  c ← grant_object_capability caller id;
  mret {| created_id := id; created_revision := 1; created_capability := c |}.

Definition create_task_service_object (caller : ActiveUserProcess) (object : TypedObjectRecord) :
    service_action unit :=
  pure (reject (negb (is_task_service_kind (object_kind object))) UnsupportedKind);;
  ensure_storage_quota TASK_SERVICE_STORAGE_ID;;
  on_quotas (charge_blocks TASK_SERVICE_STORAGE_ID 1);;
  insert_new_object TASK_SERVICE_STORAGE_ID (process_service caller) object.

Definition create_internal_object (caller : ActiveUserProcess) (object : TypedObjectRecord) :
    service_action ObjectCreateResult :=
  staged (
    ensure_storage_quota (process_service caller);;
    on_quotas (charge_blocks (process_service caller) 1);;
    on_objects (store_create object);;
    on_relationships (insert_object object);;
    timestamp ← take_timestamp;
    on_revisions (history_create object timestamp (process_service caller));;
    c ← grant_object_capability caller (object_id object);
    mret {| created_id := object_id object; created_revision := 1; created_capability := c |}).

Definition create_package_object (caller : ActiveUserProcess) (id : ObjectId) :
    service_action ObjectCreateResult :=
  create_internal_object caller (new_object id Kind.Package 1).

Definition create_schema_definition_object (caller : ActiveUserProcess) (id : ObjectId) :
    service_action ObjectCreateResult :=
  create_internal_object caller (new_object id Kind.SchemaDefinition 1).

(** The checks on [state_format] and [initial_state]. *)
Definition check_initial_state (input : PackageDefinedCreateInput) : SE unit :=
  if input_state_format input =? PACKAGE_DEFINED_STATE_FORMAT_EMPTY
  then reject (negb (len (input_initial_state input) =? 0)) UnsupportedKind
  else if input_state_format input =? PACKAGE_DEFINED_STATE_FORMAT_INLINE_BYTES_V0
  then reject ((len (input_initial_state input) =? 0) ||
               (PACKAGE_DEFINED_MAX_INITIAL_STATE_BYTES <? len (input_initial_state input)))
         (ServiceObjectFormat FieldValueTooLarge)
  else Err UnsupportedKind.

(** The record with its schema reference and, for inline state, its state. *)
Definition package_defined_record (id : ObjectId) (input : PackageDefinedCreateInput) :
    outcome ObjectFormatError TypedObjectRecord :=
  schema_ref ← package_schema_ref_value (input_schema_id input) (input_schema_revision input);
  f ← new_field FIELD_PACKAGE_SCHEMA_REF_V0 1 schema_ref;
  object ← push_field (new_object id Kind.PackageDefinedObject 1) f;
  if input_state_format input =? PACKAGE_DEFINED_STATE_FORMAT_INLINE_BYTES_V0
  then f ← new_field FIELD_PACKAGE_INLINE_STATE_V0 1 (input_initial_state input);
       push_field object f
  else Ok object.

Definition create_package_defined_object (caller : ActiveUserProcess) (authority : PackedCapability)
    (input : PackageDefinedCreateInput) : service_action ObjectCreateResult :=
  reads (fun s => validate_workspace s caller authority RIGHT_WRITE);;
  reads (fun s => reject (negb (schema_definition_revision_exists s (input_schema_id input)
                                  (input_schema_revision input))) NotFound);;
  pure (check_initial_state input);;
  staged (
    ensure_storage_quota (process_service caller);;
    on_quotas (charge_blocks (process_service caller) 1);;
    id ← take_note_id;
    object ← pure (map_err ServiceObjectFormat (package_defined_record id input));
    on_objects (store_create object);;
    on_relationships (insert_object object);;
    on_relationships (add_relationship (belongs_to_shell id));;
    timestamp ← take_timestamp;
    on_revisions (history_create object timestamp (process_service caller));;
    c ← grant_object_capability caller id;
    mret {| created_id := id; created_revision := 1; created_capability := c |}).

(** ** Reading and revising *)

Definition no_entry : ObjectListEntry := {| list_object_id := 0; list_capability := from_parts 0 0 |}.

(** The loop of [query_objects], over the records left; [n] is [result_index]. *)
Fixpoint query_loop (caller : ActiveUserProcess) (kind : ObjectKind)
    (rs : list (option DynamicObjectSlot)) (results : list ObjectListEntry) (n : Z) :
    service_action (list ObjectListEntry) :=
  match rs with
  | [] => mret results
  | o :: rest =>
      if n <? MAX_QUERY_RESULTS then
        match o with
        | None => query_loop caller kind rest results n
        | Some r =>
            belongs ← reads (fun s => Ok (object_belongs_to_workspace s (slot_key r) SHELL_WORKSPACE_OBJECT_ID));
            if bool_decide (object_kind (slot_object r) = kind) && belongs then
              c ← grant_object_capability caller (slot_key r);
              results ← pure (index_set results n
                          {| list_object_id := slot_key r; list_capability := c |});
              query_loop caller kind rest results (n + 1)
            else query_loop caller kind rest results n
        end
      else mret results
  end.

Definition query_objects (caller : ActiveUserProcess) (workspace : PackedCapability) (kind : ObjectKind) :
    service_action (list ObjectListEntry) :=
  reads (fun s => validate_workspace s caller workspace RIGHT_READ);;
  rs ← reads (fun s => Ok (object_records (os_objects s)));
  query_loop caller kind rs (replicate (Z.to_nat MAX_QUERY_RESULTS) no_entry) 0.

Definition inspect_object (s : ObjectService) (caller : ActiveUserProcess) (c : PackedCapability)
    (id : ObjectId) : SE ObjectInspection :=
  validate_object s caller c id RIGHT_READ;;
  r ← ok_or (current_revision (os_revisions s) id) NotFound;
  Ok {| inspected_object := rev_object r; inspected_revision := rev_revision r |}.

Definition history (s : ObjectService) (caller : ActiveUserProcess) (c : PackedCapability)
    (id : ObjectId) : SE Z :=
  validate_object s caller c id RIGHT_READ;;
  r ← ok_or (current_revision (os_revisions s) id) NotFound;
  Ok (rev_revision r).

(** The staged copies of the objects and the revisions, and the commit of both. *)
Definition commit_revision (caller : ActiveUserProcess) (object : TypedObjectRecord) : service_action Z :=
  objs ← reads (fun s => map_err ServiceDynamicObject (run (store_replace object) (os_objects s)));
  timestamp ← reads (fun s => Ok (os_next_timestamp s));
  revs ← reads (fun s => map_err ServiceRevision
           (run (update_object object timestamp (process_service caller)) (os_revisions s)));
  update (set_os_objects objs.2);;
  update (set_os_revisions revs.2);;
  update (fun s => set_next_timestamp (wrap 64 (os_next_timestamp s + 1)) s);;
  mret revs.1.

Definition revise_field (caller : ActiveUserProcess) (c : PackedCapability) (id : ObjectId)
    (field : Z) (value : list byte) : service_action Z :=
  reads (fun s => validate_object s caller c id RIGHT_WRITE);;
  r ← reads (fun s => ok_or (current_revision (os_revisions s) id) NotFound);
  next ← pure (expect (checked_add 64 (rev_revision r) 1));
  f ← pure (map_err ServiceObjectFormat (new_field field (wrap 16 next) value));
  revised ← pure (map_err ServiceObjectFormat
              (push_field (new_object id (object_kind (rev_object r)) (wrap 16 next)) f));
  commit_revision caller revised.

Definition revise_task_service_object (caller : ActiveUserProcess) (object : TypedObjectRecord) :
    service_action Z :=
  pure (reject (negb (is_task_service_kind (object_kind object))) UnsupportedKind);;
  r ← reads (fun s => ok_or (current_revision (os_revisions s) (object_id object)) NotFound);
  pure (reject (negb (bool_decide (object_kind (rev_object r) = object_kind object))) UnsupportedKind);;
  commit_revision caller object.

Definition task_service_object (s : ObjectService) (id : ObjectId) : option TypedObjectRecord :=
  store_object (os_objects s) id.

Definition task_service_objects (s : ObjectService) : list (option TypedObjectRecord) :=
  option_map slot_object <$> object_records (os_objects s).

(** ** Authority of callers *)

Definition bind_shell_caller (caller : ActiveUserProcess) : service_action unit :=
  reads (fun s => reject (negb (process_service caller =? process_service (os_shell_caller s)) ||
                          negb (process_principal caller =? SHELL_PRINCIPAL_ID)) Denied);;
  update (set_shell_caller caller).

Definition grant_workspace_capability (caller : ActiveUserProcess) : service_action PackedCapability :=
  used ← reads (fun s => Ok (quota_used_blocks (os_quotas s) (process_service caller)));
  match used with
  | Ok _ => mret tt
  | Err UnknownQuotaService => on_quotas (register_quota (process_service caller) MAX_QUERY_RESULTS)
  | Err e => pure (Err (ServiceQuota e))
  | Panic => pure Panic
  | Diverge => pure Diverge
  end;;
  r ← reads (fun s => Ok (os_shell_workspace s));
  h ← on_capabilities (grant (process_service caller) r WORKSPACE_RIGHTS);
  mret (pack_capability h).

(** ** Schema references *)

Definition read_schema_ref_u64 (value : list byte) (offset : Z) : SE Z :=
  bs ← foldM (fun acc i => b ← index value (offset + i); Ok (acc ++ [b])) [] (range 0 8);
  Ok (le_val bs).

(** One round of the loop in [package_schema_reference_for_object]. *)
Definition schema_reference_round (object : TypedObjectRecord) (found : option PackageSchemaReference)
    (i : Z) : SE (option PackageSchemaReference) :=
  o ← map_err ServiceObjectFormat (field_at object i);
  match o with
  | Some f =>
      if field_id f =? FIELD_PACKAGE_SCHEMA_REF_V0 then
        reject (negb (value_len f =? 16) || negb (is_none found)) BadSnapshot;;
        id ← read_schema_ref_u64 (field_value f) 0;
        revision ← read_schema_ref_u64 (field_value f) 8;
        Ok (Some {| reference_schema_id := id; reference_schema_revision := revision |})
      else Ok found
  | None => Ok found
  end.

Definition package_schema_reference_for_object (object : TypedObjectRecord) :
    SE (option PackageSchemaReference) :=
  if negb (bool_decide (object_kind object = Kind.PackageDefinedObject)) then Ok None
  else
    found ← foldM (schema_reference_round object) None (range 0 (field_count object));
    r ← ok_or found BadSnapshot;
    Ok (Some r).

(** One round of the loop in [package_defined_schema_references]. *)
Definition collect_reference (st : list (option PackageSchemaReference) * Z)
    (o : option DynamicObjectSlot) : SE (list (option PackageSchemaReference) * Z) :=
  let '(refs, n) := st in
  match o with
  | None => Ok (refs, n)
  | Some r =>
      x ← package_schema_reference_for_object (slot_object r);
      match x with
      | None => Ok (refs, n)
      | Some x => refs ← index_set refs n (Some x); Ok (refs, n + 1)
      end
  end.

Definition package_defined_schema_references (s : ObjectService) :
    SE (list (option PackageSchemaReference)) :=
  st ← foldM collect_reference (replicate (Z.to_nat MAX_PACKAGE_SCHEMA_REFERENCES) None, 0)
         (object_records (os_objects s));
  Ok st.1.

(** ** Seeding *)

Definition seed_workspace_roots : service_action unit :=
  on_relationships (insert_object (new_object SHELL_WORKSPACE_OBJECT_ID Kind.WorkspaceSession 1));;
  on_relationships (insert_object (new_object EXTERNAL_WORKSPACE_OBJECT_ID Kind.WorkspaceSession 1)).

(** [b"secret"] *)
Definition secret_text : list byte := [x73; x65; x63; x72; x65; x74].

Definition seed_external_note : service_action unit :=
  f ← pure (map_err ServiceObjectFormat (new_field FIELD_TEXT 1 secret_text));
  external ← pure (map_err ServiceObjectFormat
               (push_field (new_object KNOWN_EXTERNAL_NOTE_ID Kind.Note 1) f));
  id ← reads (fun s => Ok (process_service (os_intruder_caller s)));
  on_quotas (charge_blocks id 1);;
  on_objects (store_create external);;
  on_relationships (insert_object external);;
  on_relationships (add_relationship
    (Relationship (object_id external) BelongsTo EXTERNAL_WORKSPACE_OBJECT_ID));;
  timestamp ← take_timestamp;
  on_revisions (history_create external timestamp id).

Definition initialize_runtime_authority : service_action unit :=
  shell_r ← pure (map_err ServiceIdentityFailed (run (register_task SHELL_TASK_ID) new_identity_table));
  intruder_r ← pure (map_err ServiceIdentityFailed (run (register_task INTRUDER_TASK_ID) shell_r.2));
  let shell := shell_r.1 in
  let intruder := intruder_r.1 in
  update (set_os_capabilities new_capability_table);;
  h ← on_capabilities (grant shell SHELL_WORKSPACE_OBJECT_ID WORKSPACE_RIGHTS);
  update (set_os_authority SHELL_WORKSPACE_OBJECT_ID EXTERNAL_WORKSPACE_OBJECT_ID
    (new_process shell SHELL_PRINCIPAL_ID SHELL_PROGRAM_DIGEST)
    (new_process intruder INTRUDER_PRINCIPAL_ID INTRUDER_PROGRAM_DIGEST) (pack_capability h));;
  update (set_os_quotas new_quota_table);;
  on_quotas (register_quota shell MAX_QUERY_RESULTS);;
  on_quotas (register_quota intruder 1).

Definition empty_service (objects : DynamicObjectStore) : ObjectService :=
  {| os_objects := objects;
     os_relationships := new_relationships OBJECT_SERVICE_RELATIONSHIP_OBJECTS OBJECT_SERVICE_RELATIONSHIPS;
     os_revisions := new_history OBJECT_SERVICE_CURRENT_OBJECTS MAX_REVISIONS;
     os_capabilities := new_capability_table;
     os_quotas := new_quota_table;
     os_shell_workspace := SHELL_WORKSPACE_OBJECT_ID;
     os_external_workspace := EXTERNAL_WORKSPACE_OBJECT_ID;
     os_shell_caller := new_process INVALID_SERVICE_ID 0 0;
     os_intruder_caller := new_process INVALID_SERVICE_ID 0 0;
     os_shell_workspace_capability := from_parts 0 0;
     os_next_note_id := FIRST_SHELL_NOTE_ID;
     os_generation := 0;
     os_next_timestamp := 1 |}.

Definition new_seeded : SE ObjectService :=
  objects ← map_err ServiceDynamicObject
              (new_object_store OBJECT_SERVICE_BASE_SECTOR OBJECT_SERVICE_BLOCK_COUNT);
  r ← run (initialize_runtime_authority;; seed_workspace_roots;; seed_external_note)
        (empty_service objects);
  Ok r.2.

(** ** Snapshots *)

(** One round of the loop over the objects in [encode_snapshot_into]. *)
Definition encode_round (s : ObjectService)
    (st : list (option ObjectExtentRecord) * list (option WorkspaceRelationshipRecord)) (i : Z) :
    SE (list (option ObjectExtentRecord) * list (option WorkspaceRelationshipRecord)) :=
  let '(os, ws) := st in
  o ← map_err ServiceDynamicObject (object_record_at (os_objects s) i);
  match o with
  | None => Ok (os, ws)
  | Some r =>
      os ← index_set os i (Some {| extent_start := start_block (slot_extent r);
                                   extent_len := extent_blocks (slot_extent r);
                                   extent_object := slot_object r |});
      match query_first (os_relationships s) (slot_key r) BelongsTo with
      | None => Ok (os, ws)
      | Some x =>
          ws ← index_set ws i (Some {| workspace_object_id := rel_source x;
                                       workspace_id := rel_target x |});
          Ok (os, ws)
      end
  end.

(** [for i in 0..n { array[i] = f(i) }] *)
Definition fill_array {E A} (f : Z -> outcome E (option A)) (n : Z) : outcome E (list (option A)) :=
  foldM (fun l i => o ← f i; index_set l i o) (replicate (Z.to_nat n) None) (range 0 n).

(** Every slot of the target arrays is overwritten, so the snapshot does not
    depend on the one that is filled. *)
Definition encode_snapshot (s : ObjectService) : SE ObjectServiceSnapshot :=
  st ← foldM (encode_round s) (replicate (Z.to_nat MAX_DYNAMIC_OBJECTS) None,
                               replicate (Z.to_nat MAX_DYNAMIC_OBJECTS) None)
         (range 0 MAX_DYNAMIC_OBJECTS);
  cs ← map_err ServiceRevision (fill_array (current_record_at (os_revisions s)) OBJECT_SERVICE_CURRENT_OBJECTS);
  ps ← map_err ServiceRevision (fill_array (prior_record_at (os_revisions s)) MAX_REVISIONS);
  Ok {| snap_generation := os_generation s; snap_bitmap := allocator_bitmap (os_objects s);
        snap_objects := st.1; snap_workspaces := st.2; snap_current := cs; snap_prior := ps |}.

Definition encode_candidate_snapshot (s : ObjectService) : SE ObjectServiceSnapshot :=
  snap ← encode_snapshot s;
  Ok {| snap_generation := wrap 64 (os_generation s + 1); snap_bitmap := snap_bitmap snap;
        snap_objects := snap_objects snap; snap_workspaces := snap_workspaces snap;
        snap_current := snap_current snap; snap_prior := snap_prior snap |}.

Definition publish_candidate_generation (g : Z) : service_action unit := update (set_generation g).

(** One round of the loop in [restore_dynamic_objects]. *)
Definition restore_object_round (snap : ObjectServiceSnapshot) (i : Z) : SE (option DynamicObjectSlot) :=
  o ← index (snap_objects snap) i;
  match o with
  | None => Ok None
  | Some r =>
      start ← ok_or (checked 16 (extent_start r)) BadSnapshot;
      Ok (Some {| slot_object := extent_object r; slot_extent := Extent start (extent_len r) |})
  end.

Definition restore_dynamic_objects (snap : ObjectServiceSnapshot) : SE DynamicObjectStore :=
  rs ← fill_array (restore_object_round snap) MAX_DYNAMIC_OBJECTS;
  map_err ServiceDynamicObject
    (restore_from_records OBJECT_SERVICE_BASE_SECTOR OBJECT_SERVICE_BLOCK_COUNT (snap_bitmap snap) rs).

Definition call_relationships {A} (m : action RelationshipStore RelationshipError A)
    (r : RelationshipStore) : SE RelationshipStore :=
  x ← map_err ServiceRelationship (run m r);
  Ok x.2.

(** The rounds of the two loops in [restore_relationships]. *)
Definition restore_known (snap : ObjectServiceSnapshot) (r : RelationshipStore) (i : Z) : SE RelationshipStore :=
  o ← index (snap_objects snap) i;
  match o with
  | None => Ok r
  | Some x => call_relationships (insert_object (extent_object x)) r
  end.

Definition restore_member (snap : ObjectServiceSnapshot) (r : RelationshipStore) (i : Z) : SE RelationshipStore :=
  o ← index (snap_workspaces snap) i;
  match o with
  | None => Ok r
  | Some x =>
      reject (negb (has_object r (workspace_object_id x)) || negb (has_object r (workspace_id x))) BadSnapshot;;
      call_relationships (add_relationship
        (Relationship (workspace_object_id x) BelongsTo (workspace_id x))) r
  end.

Definition restore_relationships (snap : ObjectServiceSnapshot) : SE RelationshipStore :=
  r ← call_relationships (insert_object (new_object SHELL_WORKSPACE_OBJECT_ID Kind.WorkspaceSession 1))
        (new_relationships OBJECT_SERVICE_RELATIONSHIP_OBJECTS OBJECT_SERVICE_RELATIONSHIPS);
  r ← call_relationships (insert_object (new_object EXTERNAL_WORKSPACE_OBJECT_ID Kind.WorkspaceSession 1)) r;
  r ← foldM (restore_known snap) r (range 0 MAX_DYNAMIC_OBJECTS);
  foldM (restore_member snap) r (range 0 MAX_DYNAMIC_OBJECTS).

(** One round of the loop in [next_shell_note_id]. *)
Definition next_note_round (snap : ObjectServiceSnapshot) (next i : Z) : SE Z :=
  o ← index (snap_objects snap) i;
  match o with
  | None => Ok next
  | Some r =>
      let id := object_id (extent_object r) in
      Ok (if (FIRST_SHELL_NOTE_ID <=? id) && (id <? KNOWN_EXTERNAL_NOTE_ID) && (next <=? id)
          then wrap 64 (id + 1) else next)
  end.

Definition next_shell_note_id (snap : ObjectServiceSnapshot) : SE Z :=
  foldM (next_note_round snap) FIRST_SHELL_NOTE_ID (range 0 MAX_DYNAMIC_OBJECTS).

Definition apply_snapshot_preserving_runtime_authority (snap : ObjectServiceSnapshot) : service_action unit :=
  objects ← pure (restore_dynamic_objects snap);
  update (set_os_objects objects);;
  rels ← pure (restore_relationships snap);
  update (set_os_relationships rels);;
  revs ← pure (map_err ServiceRevision (restore_history (snap_current snap) (snap_prior snap)));
  update (set_os_revisions revs);;
  update (set_generation (snap_generation snap));;
  next ← pure (next_shell_note_id snap);
  update (set_next_note_id next).

(** [from_snapshot]; [write_decoded_snapshot_into] does the same in place. *)
Definition from_snapshot (snap : ObjectServiceSnapshot) : SE ObjectService :=
  s ← new_seeded;
  r ← run (apply_snapshot_preserving_runtime_authority snap) s;
  Ok r.2.
