(* ===== verification/ObjectVault.v ===== *)
(** * What the object service promises

    The abstract specification of [core/src/object_service.rs]: a vault keeps
    the current revision of every object, the workspace an object belongs to,
    the superseded revisions and the live capabilities. Three kinds of steps
    exist; what holds of every history of a vault is proved here by rule
    induction, and [ObjectServiceFacts] shows that every call of the service
    is a sequence of such steps. *)

From stdpp Require Import base numbers list gmap relations.
From S2P Require Import Prelude Kernel ServiceIdentity Capabilities ObjectFormat ObjectFormatFacts Relationships RevisionHistory ObjectService.

Definition workspace_roots : gset Z := {[SHELL_WORKSPACE_OBJECT_ID; EXTERNAL_WORKSPACE_OBJECT_ID]}.

Record vault := {
  v_current : gmap Z CurrentObject;
  v_home : gmap Z ObjectId;
  v_prior : list RevisionRecord;
  v_handles : store CapabilityHandle authority;
}.

(** ** Steps *)

Definition revision_one (object : TypedObjectRecord) (t : Z) (w : ServiceId) : CurrentObject :=
  {| cur_revision := 1; cur_timestamp := t; cur_writer := w; cur_object := object |}.

Definition vault_create (object : TypedObjectRecord) (home : option ObjectId) (t : Z) (w : ServiceId)
    (v : vault) : vault :=
  {| v_current := <[object_id object := revision_one object t w]> (v_current v);
     v_home := match home with Some x => <[object_id object := x]> (v_home v) | None => v_home v end;
     v_prior := v_prior v; v_handles := v_handles v |}.

Definition vault_revise (c : CurrentObject) (object : TypedObjectRecord) (t : Z) (w : ServiceId)
    (v : vault) : vault :=
  {| v_current := <[object_id object := {| cur_revision := cur_revision c + 1; cur_timestamp := t;
                                           cur_writer := w; cur_object := object |}]> (v_current v);
     v_home := v_home v; v_prior := as_revision c :: v_prior v; v_handles := v_handles v |}.

Definition vault_issue (k : CapabilityHandle) (a : authority) (v : vault) : vault :=
  {| v_current := v_current v; v_home := v_home v; v_prior := v_prior v;
     v_handles := Build_store (<[k := a]> (live (v_handles v))) ({[k]} ∪ issued (v_handles v)) |}.

(** The resources a capability may name: the shell's workspace, and the
    objects outside the external workspace. *)
Definition grantable (v : vault) (r : Z) : Prop :=
  r = SHELL_WORKSPACE_OBJECT_ID \/
  is_Some (v_current v !! r) /\ v_home v !! r <> Some EXTERNAL_WORKSPACE_OBJECT_ID.

(** Some live capability allows writing the object. *)
Definition writable (v : vault) (id : ObjectId) : Prop :=
  exists k a, live (v_handles v) !! k = Some a /\ auth_resource a = id /\
    contains (auth_rights a) RIGHT_WRITE = true.

Inductive vault_step : vault -> vault -> Prop :=
| step_create v object home t w :
    v_current v !! object_id object = None -> object_id object ∉ workspace_roots ->
    home = None \/ home = Some SHELL_WORKSPACE_OBJECT_ID -> object_wf object -> uint 64 t -> uint 64 w ->
    vault_step v (vault_create object home t w v)
| step_revise v c object t w :
    v_current v !! object_id object = Some c -> object_kind object = object_kind (cur_object c) ->
    cur_timestamp c < t ->
    writable v (object_id object) \/ is_task_service_kind (object_kind object) = true ->
    object_wf object -> uint 64 t -> uint 64 w ->
    vault_step v (vault_revise c object t w v)
| step_grant v k a :
    k ∉ issued (v_handles v) -> grantable v (auth_resource a) -> vault_step v (vault_issue k a v).

(** ** Invariant *)

Record vault_ok (v : vault) : Prop := {
  vo_keys id c : v_current v !! id = Some c -> object_id (cur_object c) = id;
  vo_roots id : id ∈ workspace_roots -> v_current v !! id = None;
  vo_home id : is_Some (v_home v !! id) -> is_Some (v_current v !! id);
  vo_targets id x : v_home v !! id = Some x -> x ∈ workspace_roots;
  vo_wf id c : v_current v !! id = Some c ->
    object_wf (cur_object c) /\ uint 64 (cur_timestamp c) /\ uint 64 (cur_writer c);
  vo_prior_wf r : r ∈ v_prior v ->
    object_wf (rev_object r) /\ uint 64 (rev_timestamp r) /\ uint 64 (rev_writer r) /\
    rev_object_id r = object_id (rev_object r) /\ 1 <= rev_revision r;
  vo_revision id c : v_current v !! id = Some c ->
    1 <= cur_revision c <= 1 + len (v_prior v);
  vo_complete id c n : v_current v !! id = Some c -> 1 <= n < cur_revision c ->
    exists r, r ∈ v_prior v /\ rev_object_id r = id /\ rev_revision r = n;
  vo_older r : r ∈ v_prior v -> exists c, v_current v !! rev_object_id r = Some c /\
    rev_revision r < cur_revision c /\ rev_timestamp r < cur_timestamp c;
  vo_order r r' : r ∈ v_prior v -> r' ∈ v_prior v -> rev_object_id r = rev_object_id r' ->
    rev_revision r < rev_revision r' -> rev_timestamp r < rev_timestamp r';
  vo_unique : NoDup ((fun r => (rev_object_id r, rev_revision r)) <$> v_prior v);
  vo_external id : v_home v !! id = Some EXTERNAL_WORKSPACE_OBJECT_ID ->
    forall c, v_current v !! id = Some c -> is_task_service_kind (object_kind (cur_object c)) = false;
  vo_handles k a : live (v_handles v) !! k = Some a -> grantable v (auth_resource a);
  vo_store : store_wf (v_handles v);
}.

Lemma create_ok v object home t w :
  vault_ok v -> v_current v !! object_id object = None -> object_id object ∉ workspace_roots ->
  home = None \/ home = Some SHELL_WORKSPACE_OBJECT_ID -> object_wf object -> uint 64 t -> uint 64 w ->
  vault_ok (vault_create object home t w v).
Proof.
  intros Hv Hn Hr Hh Ho Ht Hw.
  assert (forall id, v_home (vault_create object home t w v) !! id = Some EXTERNAL_WORKSPACE_OBJECT_ID ->
            v_home v !! id = Some EXTERNAL_WORKSPACE_OBJECT_ID) as Hext.
  { intros id. simpl. destruct Hh as [->| ->]; [done|]. rewrite lookup_insert_Some. naive_solver. }
  split; simpl; try apply Hv.
  - intros id c [[<- <-]|[_ Hc]]%lookup_insert_Some; [done|by eapply vo_keys].
  - intros id Hid. rewrite lookup_insert_ne by (intros <-; done). by apply Hv.
  - intros id Hid. destruct (decide (id = object_id object)) as [->|Hne]; [rewrite lookup_insert_eq; eauto|].
    rewrite lookup_insert_ne by done. apply Hv. destruct home; [by rewrite lookup_insert_ne in Hid|done].
  - intros id x. destruct Hh as [->| ->]; [by apply (vo_targets v Hv)|].
    intros [[_ <-]|[_ Hx]]%lookup_insert_Some; [set_solver|by eapply vo_targets].
  - intros id c [[<- <-]|[_ Hc]]%lookup_insert_Some; [done|by eapply vo_wf].
  - intros id c [[<- <-]|[_ Hc]]%lookup_insert_Some; [pose proof (len_nonneg (v_prior v)); simpl; lia|].
    by eapply vo_revision.
  - intros id c n [[<- <-]|[_ Hc]]%lookup_insert_Some; [simpl; lia|]. by eapply vo_complete.
  - intros r (c & Hc & Hrc)%(vo_older v Hv). exists c. rewrite lookup_insert_ne; [done|]. congruence.
  - intros id Hid c [[<- <-]|[_ Hc]]%lookup_insert_Some; [|by eapply vo_external; [|apply Hext|]].
    exfalso. apply Hext in Hid. destruct (vo_home v Hv (object_id object)) as [c Hc]; [eauto|congruence].
  - intros k a [->|[[c Hc] Hne]]%(vo_handles v Hv); [by left|]. right. split.
    + apply lookup_insert_is_Some'. eauto.
    + intros H. by apply Hext in H.
Qed.

Lemma revise_ok v c object t w :
  vault_ok v -> v_current v !! object_id object = Some c ->
  object_kind object = object_kind (cur_object c) -> cur_timestamp c < t ->
  object_wf object -> uint 64 t -> uint 64 w -> vault_ok (vault_revise c object t w v).
Proof.
  intros Hv Hc Hk Hlt Ho Ht Hw. pose proof (vo_revision v Hv _ _ Hc) as Hrev.
  pose proof (vo_keys v Hv _ _ Hc) as Hid.
  assert (len (as_revision c :: v_prior v) = 1 + len (v_prior v)) as Hlen by (unfold len; simpl; lia).
  assert (forall r, r ∈ v_prior v -> rev_object_id r = object_id object ->
            rev_revision r < cur_revision c /\ rev_timestamp r < cur_timestamp c) as Hold.
  { intros r (c' & Hc' & H)%(vo_older v Hv) Heq. rewrite Heq in Hc'. simplify_eq. done. }
  split; simpl; try apply Hv.
  - intros id c' [[<- <-]|[_ Hc']]%lookup_insert_Some; [done|by eapply vo_keys].
  - intros id Hr%(vo_roots v Hv). rewrite lookup_insert_ne; [done|]. congruence.
  - intros id H%(vo_home v Hv). apply lookup_insert_is_Some'. eauto.
  - intros id c' [[<- <-]|[_ Hc']]%lookup_insert_Some; [done|by eapply vo_wf].
  - intros r [->|Hr]%elem_of_cons; [|by apply (vo_prior_wf v Hv)]. simpl.
    destruct (vo_wf v Hv _ _ Hc) as (? & ? & ?). split_and!; try done; lia.
  - intros id c' [[<- <-]|[_ Hc']]%lookup_insert_Some; rewrite Hlen; [simpl; lia|].
    pose proof (vo_revision v Hv _ _ Hc'). lia.
  - intros id c' n [[<- <-]|[_ Hc']]%lookup_insert_Some Hn; simpl in *.
    + destruct (decide (n = cur_revision c)) as [->|Hne].
      * exists (as_revision c). split; [by left|done].
      * destruct (vo_complete v Hv _ c n Hc ltac:(lia)) as (r & Hr & H). exists r. split; [by right|done].
    + destruct (vo_complete v Hv _ c' n Hc' Hn) as (r & Hr & H). exists r. split; [by right|done].
  - intros r [->|Hr]%elem_of_cons; simpl.
    + rewrite Hid, lookup_insert_eq. eexists. split; [done|]. simpl. lia.
    + destruct (decide (rev_object_id r = object_id object)) as [Heq|Hne].
      * rewrite Heq, lookup_insert_eq. eexists. split; [done|]. simpl. destruct (Hold r Hr Heq). lia.
      * rewrite lookup_insert_ne by done. by apply (vo_older v Hv).
  - intros r r' [->|Hr]%elem_of_cons [->|Hr']%elem_of_cons; simpl.
    + lia.
    + rewrite Hid. intros Heq Hl. destruct (Hold r' Hr' (eq_sym Heq)). lia.
    + rewrite Hid. intros Heq _. by destruct (Hold r Hr Heq).
    + by apply (vo_order v Hv).
  - constructor; [|apply Hv]. rewrite list_elem_of_fmap. intros (r & [= Hi Hn] & Hr). rewrite Hid in Hi.
    destruct (Hold r Hr (eq_sym Hi)). lia.
  - intros id He c' [[<- <-]|[_ Hc']]%lookup_insert_Some; [simpl; rewrite Hk|];
      by eapply vo_external.
  - intros k a [->|[[c' Hc'] Hne]]%(vo_handles v Hv); [by left|]. right. split; [|done].
    apply lookup_insert_is_Some'. eauto.
Qed.

Lemma issue_ok v k a :
  vault_ok v -> k ∉ issued (v_handles v) -> grantable v (auth_resource a) -> vault_ok (vault_issue k a v).
Proof.
  intros Hv Hk Ha. split; simpl; try apply Hv.
  - intros k' a' [[<- <-]|[_ H]]%lookup_insert_Some; [done|]. by apply (vo_handles v Hv) in H.
  - unfold store_wf. simpl. rewrite dom_insert. pose proof (vo_store v Hv). unfold store_wf in *. set_solver.
Qed.

Lemma vault_step_ok v v' : vault_step v v' -> vault_ok v -> vault_ok v'.
Proof. destruct 1; eauto using create_ok, revise_ok, issue_ok. Qed.

Lemma vault_steps_ok v v' : rtc vault_step v v' -> vault_ok v -> vault_ok v'.
Proof. induction 1; eauto using vault_step_ok. Qed.

(** ** Histories *)

(** What a later vault [v'] keeps of [v]: objects stay, with their kind and
    workspace, a current revision is still current or retained as a prior one,
    and so is every prior revision. *)
Record retains (v v' : vault) : Prop := {
  rt_current id c : v_current v !! id = Some c -> exists c', v_current v' !! id = Some c' /\
    object_kind (cur_object c') = object_kind (cur_object c) /\ cur_revision c <= cur_revision c' /\
    (c' = c \/ as_revision c ∈ v_prior v' /\ cur_revision c < cur_revision c');
  rt_prior r : r ∈ v_prior v -> r ∈ v_prior v';
  rt_length : len (v_prior v) <= len (v_prior v');
  rt_home id x : v_home v !! id = Some x -> v_home v' !! id = Some x;
}.

#[export] Instance retains_refl : Reflexive retains.
Proof. intros v. split; eauto 6 with lia. Qed.

#[export] Instance retains_trans : Transitive retains.
Proof.
  intros v1 v2 v3 H12 H23. split.
  - intros id c (c2 & Hc2 & Hk2 & Hr2 & H2)%(rt_current v1 v2 H12).
    destruct (rt_current v2 v3 H23 _ _ Hc2) as (c3 & Hc3 & Hk3 & Hr3 & H3).
    exists c3. split_and!; [done|congruence|lia|]. destruct H2 as [->|[Hp Hlt]]; [done|].
    right. split; [by apply (rt_prior v2 v3 H23)|lia].
  - intros r Hr. by apply (rt_prior v2 v3 H23), (rt_prior v1 v2 H12).
  - pose proof (rt_length v1 v2 H12). pose proof (rt_length v2 v3 H23). lia.
  - intros id x Hx. by apply (rt_home v2 v3 H23), (rt_home v1 v2 H12).
Qed.

Lemma vault_step_retains v v' : vault_ok v -> vault_step v v' -> retains v v'.
Proof.
  intros Hv. destruct 1 as [v object home t w Hn _ _ _|v c object t w Hc Hk Ht|v k a Hk Ha];
    split; simpl; auto with lia.
  - intros id c Hc. exists c. rewrite lookup_insert_ne by congruence. split_and!; auto with lia.
  - intros id x Hx. destruct home; [|done]. rewrite lookup_insert_ne; [done|]. intros <-.
    destruct (vo_home v Hv (object_id object)); eauto; congruence.
  - intros id c' Hc'. destruct (decide (id = object_id object)) as [->|Hne].
    + simplify_eq. rewrite lookup_insert_eq. eexists. split; [done|]. simpl. split_and!; [done|lia|].
      right. split; [left|lia].
    + exists c'. rewrite lookup_insert_ne by done. split_and!; auto with lia.
  - intros r Hr. by right.
  - unfold len. simpl. lia.
  - intros id c Hc. exists c. split_and!; auto with lia.
Qed.

Lemma vault_steps_retain v v' : vault_ok v -> rtc vault_step v v' -> retains v v'.
Proof.
  intros Hv Hs. revert Hv. induction Hs as [v|v v1 v2 Hs _ IH]; intros Hv; [reflexivity|].
  etrans; [by apply vault_step_retains|]. by apply IH, (vault_step_ok v).
Qed.

(** Capabilities keep their authority. *)
Lemma vault_step_live v v' k a :
  vault_ok v -> vault_step v v' -> live (v_handles v) !! k = Some a -> live (v_handles v') !! k = Some a.
Proof.
  intros Hv. destruct 1 as [| |v k' a' Hk Ha]; simpl; [done|done|]. intros Hl.
  rewrite lookup_insert_ne; [done|]. intros ->. apply Hk, (vo_store v Hv). by apply elem_of_dom.
Qed.

Lemma vault_steps_live v v' k a :
  vault_ok v -> rtc vault_step v v' -> live (v_handles v) !! k = Some a -> live (v_handles v') !! k = Some a.
Proof. intros Hv Hs. revert Hv. induction Hs; eauto using vault_step_ok, vault_step_live. Qed.

(** No capability ever names an object of the external workspace. *)
Lemma external_unreachable v id k a :
  vault_ok v -> v_home v !! id = Some EXTERNAL_WORKSPACE_OBJECT_ID ->
  live (v_handles v) !! k = Some a -> auth_resource a <> id.
Proof.
  intros Hv He [Hs|[_ Hne]]%(vo_handles v Hv) <-; [|done].
  destruct (vo_home v Hv (auth_resource a)) as [c Hc]; [eauto|].
  rewrite (vo_roots v Hv) in Hc; [done|]. rewrite Hs. set_solver.
Qed.

Lemma external_step v v' id :
  vault_ok v -> v_home v !! id = Some EXTERNAL_WORKSPACE_OBJECT_ID -> vault_step v v' ->
  v_current v' !! id = v_current v !! id.
Proof.
  intros Hv He. destruct (vo_home v Hv id) as [c Hc]; [eauto|].
  destruct 1 as [v object home t w Hn _ _ _|v c' object t w Hc' Hk Ht [(k & a & Ha & Hr & _)|Hty] _|v k a Hk Ha];
    simpl; [rewrite lookup_insert_ne; [done|congruence]|..|done];
    (rewrite lookup_insert_ne; [done|]; intros Heq; rewrite Heq in *; simplify_eq).
  - by eapply external_unreachable.
  - rewrite Hk in Hty. by rewrite (vo_external v Hv _ He _ Hc) in Hty.
Qed.
