(* ===== verification/ObjectServiceFacts.v ===== *)
(** * The object service implements the vault

    Every call of [core/src/object_service.rs], successful or not, returns and
    is a sequence of steps of the vault ([ObjectVault]). The service state is
    tied to a vault by [service_vault]; the lemmas follow the calls on the
    stores through the intermediate states of a creation. *)

From stdpp Require Import base numbers list gmap relations.
From Stdlib Require Import Strings.Byte.
From S2P Require Import Prelude ByteRegions TigRuntime Kernel SlotTable ServiceIdentity Capabilities BlockAllocator UserCopy ObjectFormat ObjectFormatFacts ObjectStore Relationships RevisionHistory StorageQuotas ObjectService ObjectVault.

(** ** The states of the service *)

(** What each component guarantees on its own. *)
Record parts_ok (s : ObjectService) : Prop := {
  po_store : store_ok (os_objects s);
  po_base : base_sector (allocator (os_objects s)) = OBJECT_SERVICE_BASE_SECTOR;
  po_count : block_count (allocator (os_objects s)) = OBJECT_SERVICE_BLOCK_COUNT;
  po_rel : relationships_ok (os_relationships s);
  po_known_len : len (rel_objects (os_relationships s)) = OBJECT_SERVICE_RELATIONSHIP_OBJECTS;
  po_members_len : len (relationships (os_relationships s)) = OBJECT_SERVICE_RELATIONSHIPS;
  po_history : history_ok (os_revisions s);
  po_current_len : len (current (os_revisions s)) = OBJECT_SERVICE_CURRENT_OBJECTS;
  po_prior_len : len (revisions (os_revisions s)) = MAX_REVISIONS;
  po_quotas : quotas_ok (os_quotas s);
  po_shell : os_shell_workspace s = SHELL_WORKSPACE_OBJECT_ID;
  po_ticks : uint 64 (os_next_timestamp s);
  po_note : uint 64 (os_next_note_id s);
}.

(** [s] with the object [object] on its way in: it is in the store, [k] says
    whether the relationships know it, [home] is its workspace so far. *)
Record placing (v : vault) (object : TypedObjectRecord) (k : bool) (home : option ObjectId)
    (s : ObjectService) : Prop := {
  pg_parts : parts_ok s;
  pg_fresh : v_current v !! object_id object = None;
  pg_room : (size (v_current v) < 24)%nat;
  pg_objects : slot_object <$> stored (os_objects s) =
    <[object_id object := object]> (cur_object <$> v_current v);
  pg_known : dom (known (os_relationships s)) =
    workspace_roots ∪ dom (v_current v) ∪ (if k then {[object_id object]} else ∅);
  pg_members : rel_target <$> members (os_relationships s) =
    match home with Some x => <[object_id object := x]> (v_home v) | None => v_home v end;
  pg_current : currents (os_revisions s) = v_current v;
  pg_prior : v_prior v ≡ₚ entries_of (revisions (os_revisions s));
  pg_handles : capability_represents (os_capabilities s) (v_handles v);
}.

Record service_vault (s : ObjectService) (v : vault) : Prop := {
  sv_parts : parts_ok s;
  sv_objects : slot_object <$> stored (os_objects s) = cur_object <$> v_current v;
  sv_known : dom (known (os_relationships s)) = workspace_roots ∪ dom (v_current v);
  sv_members : rel_target <$> members (os_relationships s) = v_home v;
  sv_current : currents (os_revisions s) = v_current v;
  sv_prior : v_prior v ≡ₚ entries_of (revisions (os_revisions s));
  sv_handles : capability_represents (os_capabilities s) (v_handles v);
}.

Section calls.
Context (v : vault) (Hv : vault_ok v).
Implicit Types (s : ObjectService) (object : TypedObjectRecord).

Lemma stored_lookup s id :
  service_vault s v -> is_Some (stored (os_objects s) !! id) <-> is_Some (v_current v !! id).
Proof.
  intros Hs. pose proof (f_equal (lookup id) (sv_objects s v Hs)) as H. rewrite !lookup_fmap in H.
  rewrite <- !(fmap_is_Some slot_object), H, fmap_is_Some. done.
Qed.

Lemma stored_room s : service_vault s v -> size (stored (os_objects s)) = size (v_current v).
Proof.
  intros Hs. pose proof (f_equal size (sv_objects s v Hs)) as H. by rewrite !map_size_fmap in H.
Qed.

Lemma current_revision_vault s id :
  service_vault s v -> current_revision (os_revisions s) id = as_revision <$> v_current v !! id.
Proof. intros Hs. rewrite current_revision_spec by apply Hs. by rewrite (sv_current s v Hs). Qed.

(** *** Calls that do not change the vault *)

Lemma wpA_quotas {A} s (m : action StorageQuotaTable StorageQuotaError A) :
  service_vault s v ->
  wpA m (os_quotas s) (fun _ t => quotas_ok t) (fun _ t => t = os_quotas s) ->
  wpA (on_quotas m) s (fun _ s' => service_vault s' v /\ s' = set_os_quotas (os_quotas s') s)
    (fun e s' => (exists e', e = ServiceQuota e') /\ s' = s).
Proof.
  intros Hs Hm. apply wpA_zoom. eapply wpA_mono; [exact Hm| |].
  - intros a t Ht. split; [|done]. destruct Hs as [Hp ? ? ? ? ? ?]. split; try done. by destruct Hp.
  - intros e t ->. split; [by eexists|]. by destruct s.
Qed.

Lemma wpA_take_note_id s :
  service_vault s v ->
  wpA take_note_id s (fun id s' => id = os_next_note_id s /\ service_vault s' v /\ uint 64 id /\
    s' = set_next_note_id (os_next_note_id s') s) (fun _ _ => False).
Proof.
  intros Hs. unfold take_note_id, take_timestamp. repeat act_step. split; [done|].
  destruct Hs as [Hp ? ? ? ? ? ?]. split_and!; [|by destruct Hp|done]. split; try done.
  destruct Hp. split; try done. simpl. by apply wrap_range.
Qed.

(** *** The steps of a creation *)

Lemma wpA_store_create s object :
  service_vault s v ->
  wpA (on_objects (store_create object)) s
    (fun _ s' => placing v object false None s' /\ s' = set_os_objects (os_objects s') s)
    (fun e s' => (exists e', e = ServiceDynamicObject e') /\ s' = s).
Proof.
  intros Hs. apply wpA_zoom. eapply wpA_mono; [apply store_create_spec, Hs| |].
  - intros x st (Hn & Hr & Hst & Hc & Hb & Hk). split; [|done].
    rewrite (stored_room s Hs) in Hr.
    assert (v_current v !! object_id object = None) as Hfresh.
    { apply eq_None_not_Some. rewrite <- stored_lookup by done. by apply eq_None_not_Some. }
    destruct Hs as [Hp Ho ? ? ? ? ?]. split; simpl; try done.
    + destruct Hp. split; try done; simpl; congruence.
    + rewrite Hc, fmap_insert. by rewrite Ho.
    + set_solver.
  - intros e st [-> _]. split; [by eexists|]. by destruct s.
Qed.

Lemma wpA_store_delete s object :
  placing v object false None s ->
  wpA (on_objects (store_delete (object_id object))) s (fun _ s' => service_vault s' v) (fun _ _ => False).
Proof.
  intros Hs. apply wpA_zoom. eapply wpA_mono; [apply store_delete_spec, Hs| |].
  - intros [] st (_ & Hst & Hc & Hb & Hk). destruct Hs as [Hp Hf _ Ho ? ? ? ? ?]. split; simpl; try done.
    + destruct Hp. split; try done; simpl; congruence.
    + rewrite Hc, fmap_delete, Ho. apply delete_insert_id. by rewrite lookup_fmap, Hf.
    + set_solver.
  - intros e st (_ & _ & Hn). pose proof (f_equal (lookup (object_id object)) (pg_objects _ _ _ _ _ Hs)) as H.
    rewrite lookup_fmap, Hn, lookup_insert_eq in H. done.
Qed.

Lemma wpA_insert_known s object :
  placing v object false None s ->
  wpA (on_relationships (insert_object object)) s
    (fun _ s' => placing v object true None s' /\ (object_id object ∉ workspace_roots) /\
       s' = set_os_relationships (os_relationships s') s)
    (fun e s' => (exists e', e = ServiceRelationship e') /\ s' = s).
Proof.
  intros Hs. apply wpA_zoom. eapply wpA_mono; [apply insert_object_spec, Hs| |].
  - intros [] r (Hn & Hr & Hk & Hm & Hl & Hrl). destruct Hs as [Hp ? ? ? Hd Hmb ? ? ?]. split_and!; try done.
    + split; simpl; try done.
      * destruct Hp. split; try done; simpl; congruence.
      * rewrite Hk, dom_insert_L, Hd. set_solver.
      * by rewrite Hm.
    + intros Hin. apply not_elem_of_dom in Hn. rewrite Hd in Hn. set_solver.
  - intros e r [-> _]. split; [by eexists|]. by destruct s.
Qed.

Lemma members_lookup s object k id :
  placing v object k None s -> members (os_relationships s) !! id = None <-> v_home v !! id = None.
Proof.
  intros Hs. rewrite <- (pg_members _ _ _ _ _ Hs), lookup_fmap, fmap_None. done.
Qed.

Lemma placing_homeless s object k : placing v object k None s -> v_home v !! object_id object = None.
Proof.
  intros Hs. apply eq_None_not_Some. intros H%(vo_home v Hv). rewrite (pg_fresh _ _ _ _ _ Hs) in H.
  by destruct H.
Qed.

Lemma homes_room s object k :
  placing v object k None s -> (size (members (os_relationships s)) < 24)%nat.
Proof.
  intros Hs. apply Nat.le_lt_trans with (size (v_current v)); [|apply Hs].
  rewrite <- !(size_dom (D := gset Z)). apply subseteq_size. intros id [x Hx]%elem_of_dom.
  apply elem_of_dom, (vo_home v Hv). rewrite <- (pg_members _ _ _ _ _ Hs), lookup_fmap, Hx. eauto.
Qed.

Lemma wpA_add_home s object :
  placing v object true None s ->
  wpA (on_relationships (add_relationship (belongs_to_shell (object_id object)))) s
    (fun _ s' => placing v object true (Some SHELL_WORKSPACE_OBJECT_ID) s' /\
       s' = set_os_relationships (os_relationships s') s) (fun _ _ => False).
Proof.
  intros Hs. pose proof (placing_homeless s object true Hs) as Hh.
  pose proof (homes_room s object true Hs) as Hroom.
  assert (members (os_relationships s) !! object_id object = None) as Hm by by eapply members_lookup.
  apply wpA_zoom. eapply wpA_mono; [apply add_belongs_spec, Hs| |].
  - intros [] r (_ & _ & Hro & Hl & Hr). specialize (Hr Hm) as [Hr Hmem]. split; [|done].
    destruct Hs as [Hp ? ? ? Hd Hmb ? ? ?]. split; simpl; try done.
    + destruct Hp. split; try done; simpl; congruence.
    + unfold known in *. by rewrite Hro.
    + rewrite Hmem, fmap_insert, Hmb. done.
  - intros e r (_ & [[_ H]|[[_ H]|[[_ H]|[_ H]]]]).
    + apply not_elem_of_dom in H. rewrite (pg_known _ _ _ _ _ Hs) in H. set_solver.
    + apply not_elem_of_dom in H. rewrite (pg_known _ _ _ _ _ Hs) in H. set_solver.
    + rewrite Hm in H. by destruct H.
    + rewrite (po_members_len s (pg_parts _ _ _ _ _ Hs)) in H. change OBJECT_SERVICE_RELATIONSHIPS with 24 in H. lia.
Qed.

Lemma wpA_take_timestamp s object k home :
  placing v object k home s ->
  wpA take_timestamp s (fun t s' => t = os_next_timestamp s /\ uint 64 t /\ placing v object k home s' /\
    s' = set_next_timestamp (wrap 64 (os_next_timestamp s + 1)) s) (fun _ _ => False).
Proof.
  intros Hs. unfold take_note_id, take_timestamp. repeat act_step. split; [done|].
  destruct Hs as [Hp ? ? ? ? ? ? ? ?]. split_and!; [by destruct Hp| |done]. split; try done.
  destruct Hp. split; try done. simpl. by apply wrap_range.
Qed.

Lemma wpA_history_create s object home t w :
  placing v object true home s ->
  wpA (on_revisions (history_create object t w)) s
    (fun _ s' => service_vault s' (vault_create object home t w v) /\
       s' = set_os_revisions (os_revisions s') s) (fun _ _ => False).
Proof.
  intros Hs. apply wpA_zoom. eapply wpA_mono; [apply history_create_spec, Hs| |].
  - intros [] h (_ & Hh & Hc & Hp' & Hl). split; [|done]. destruct Hs as [Hp ? ? ? Hd ? Hcur ? ?].
    split; simpl; try done.
    + destruct Hp. split; try done; simpl; congruence.
    + by rewrite fmap_insert.
    + rewrite Hd, dom_insert_L. set_solver.
    + by rewrite Hc, Hcur.
    + by rewrite Hp'.
  - intros e h (_ & [[_ H]|[_ H]]); rewrite (pg_current _ _ _ _ _ Hs) in H.
    + rewrite (pg_fresh _ _ _ _ _ Hs) in H. by destruct H.
    + rewrite (po_current_len s (pg_parts _ _ _ _ _ Hs)) in H. pose proof (pg_room _ _ _ _ _ Hs).
      change OBJECT_SERVICE_CURRENT_OBJECTS with 24 in H. lia.
Qed.

(** Creating an object behind the shell's workspace: it is stored in all
    three stores or in none. *)
Lemma wpA_insert_new s owner writer object :
  service_vault s v ->
  wpA (insert_new_object owner writer object) s
    (fun _ s' => v_current v !! object_id object = None /\ (object_id object ∉ workspace_roots) /\
       uint 64 (os_next_timestamp s) /\
       service_vault s' (vault_create object (Some SHELL_WORKSPACE_OBJECT_ID) (os_next_timestamp s) writer v))
    (fun _ s' => service_vault s' v).
Proof.
  intros Hs. unfold insert_new_object.
  assert (forall s1 (e : ObjectServiceError), service_vault s1 v ->
    wpA (ignore (on_quotas (release_blocks owner 1)) : service_action unit) s1
      (fun _ s' => service_vault s' v) (fun _ s' => service_vault s' v)) as Hrelease.
  { intros s1 _ H1. apply wpA_ignore. eapply wpA_mono; [apply wpA_quotas; [done|]| |].
    - apply release_blocks_ok; [apply H1|done].
    - by intros ? ? [? _].
    - by intros ? ? [_ ->]. }
  act_step. apply wpA_or_undo. act_step.
  eapply wpA_mono; [by apply wpA_store_create| |].
  2:{ intros e s1 [_ ->]. by apply Hrelease. }
  intros x s1 [H1 E1]. act_step. act_step. apply wpA_or_undo.
  eapply wpA_mono; [by apply wpA_insert_known| |].
  2:{ intros e s2 [_ ->]. act_step. apply wpA_ignore.
      eapply wpA_mono; [by apply wpA_store_delete| |done]. intros ? s3 H3. by apply Hrelease. }
  intros _ s2 (H2 & Hroots & E2). act_step. eapply wpA_mono; [by apply wpA_add_home| |done].
  intros _ s3 [H3 E3]. act_step. eapply wpA_mono; [by apply wpA_take_timestamp| |done].
  intros t s4 (-> & Ht & H4 & _).
  assert (os_next_timestamp s3 = os_next_timestamp s) as Et.
  { by rewrite E3, E2, E1. }
  rewrite Et in *. eapply wpA_mono; [by apply wpA_history_create| |done].
  intros _ s5 [H5 _]. split_and!; [apply H1|done..].
Qed.

(** *** Capabilities *)

Lemma wpA_grant s h r m :
  service_vault s v -> grantable v r ->
  wpA (on_capabilities (grant h r m)) s
    (fun k s' => exists v', (v' = v \/ (k ∉ issued (v_handles v)) /\ v' = vault_issue k (Authority h r m) v) /\
       live (v_handles v') !! k = Some (Authority h r m) /\ service_vault s' v')
    (fun e s' => e = ServiceCapability TableFull /\ s' = s).
Proof.
  intros Hs Hr. apply wpA_zoom. unfold grant. act_step.
  eapply wpA_mono; [apply grant_spec, Hs| |].
  - intros [k|k] t Hg; act_step; simpl.
    + destruct Hg as (_ & Hk & Ht). exists (vault_issue k (Authority h r m) v). split_and!; [by right| |].
      * simpl. by rewrite lookup_insert_eq.
      * destruct Hs as [[] ? ? ? ? ? ?]. split; done.
    + destruct Hg as (Hk & ->). exists v. split_and!; [by left|done|]. by destruct s.
  - intros e t (-> & -> & _). split; [done|]. by destruct s.
Qed.

Lemma handle_packs s k a :
  service_vault s v -> live (v_handles v) !! k = Some a -> unpack_capability (pack_capability k) = k.
Proof.
  intros Hs Hk. destruct (sv_handles s v Hs) as (Hwf & Hl & _). apply Hl in Hk as (e & He & Ha & Hg & _).
  pose proof (cw_active _ Hwf _ _ He Ha) as H1. apply get_Some in He as [Hr _].
  rewrite (cw_len _ Hwf) in Hr. unfold CAPABILITY_TABLE_SLOTS in Hr. destruct k as [i g]. simpl in *. subst.
  unfold unpack_capability, pack_capability, from_parts, cap_slot, cap_generation. simpl.
  rewrite H1. change (wrap 64 (Z.shiftl 1 32)) with (Z.shiftl 1 32). rewrite (lor_shiftl_add i 1 32) by lia. unfold wrap.
  f_equal; [|rewrite Z.shiftr_div_pow2 by lia]; change (2 ^ 32) with 4294967296; Z.to_euclidean_division_equations; lia.
Qed.

Lemma validate_vault s caller c r m :
  service_vault s v ->
  wp (validate_capability_resource s caller c r m)
    (fun _ => exists rights, live (v_handles v) !! unpack_capability c =
       Some (Authority (process_service caller) r rights) /\ contains rights m = true)
    (fun e => e = Denied).
Proof.
  intros Hs. unfold validate_capability_resource. apply wp_map_err.
  eapply wp_mono; [apply validate_spec, Hs|done|done].
Qed.

(** *** Revisions *)

Lemma prior_length s : service_vault s v -> len (v_prior v) <= MAX_REVISIONS.
Proof.
  intros Hs. rewrite <- (po_prior_len s (sv_parts s v Hs)). unfold len. rewrite (sv_prior s v Hs).
  pose proof (length_entries_le (revisions (os_revisions s))). lia.
Qed.

Lemma wpA_commit s caller object :
  service_vault s v ->
  wpA (commit_revision caller object) s
    (fun n s' => exists c, v_current v !! object_id object = Some c /\
       cur_timestamp c < os_next_timestamp s /\ n = cur_revision c + 1 /\
       len (v_prior v) < MAX_REVISIONS /\
       service_vault s' (vault_revise c object (os_next_timestamp s) (process_service caller) v))
    (fun e s' => s' = s /\
       (v_current v !! object_id object = None \/
        exists c, v_current v !! object_id object = Some c /\
          (e = ServiceRevision NonMonotonicTimestamp /\ os_next_timestamp s <= cur_timestamp c \/
           e = ServiceRevision RevisionTableFull /\ len (v_prior v) = MAX_REVISIONS))).
Proof.
  intros Hs. unfold commit_revision. do 2 act_step. apply wp_map_err, wp_run.
  eapply wpA_mono; [apply store_replace_spec, Hs| |].
  2:{ intros e st (_ & -> & Hn). split; [done|]. left. apply eq_None_not_Some.
      rewrite <- stored_lookup by done. by apply eq_None_not_Some. }
  intros [] st (x & Hx & Hst & Hsto & Hal). do 3 act_step. do 2 act_step. apply wp_map_err, wp_run.
  eapply wpA_mono; [apply update_object_spec; [apply Hs|]| |].
  - intros c. rewrite (sv_current s v Hs). intros Hc. pose proof (vo_revision v Hv _ _ Hc).
    pose proof (prior_length s Hs). change MAX_REVISIONS with 8 in *. lia.
  - intros n h (c & i & Hc & Ht & -> & Hh & Hcur & Hi & Hrev & Hl).
    rewrite (sv_current s v Hs) in Hc, Hcur. repeat act_step.
    exists c. split_and!; try done.
    + pose proof (po_prior_len s (sv_parts s v Hs)) as Hpl. unfold len in *. rewrite (sv_prior s v Hs).
      assert (length (entries_of (revisions (os_revisions s))) < length (revisions (os_revisions s)))%nat; [|lia].
      apply length_entries_lt. by eapply get_elem_of.
    + destruct Hs as [Hp Ho Hkn ? Hcu Hpr ?]. split; simpl; try done.
      * destruct Hp. split; simpl; try done; try congruence; [|by apply wrap_range].
        by rewrite Hrev, len_insert.
      * by rewrite Hsto, !fmap_insert, Ho.
      * rewrite Hkn, dom_insert_lookup_L; [done|]. eauto.
      * rewrite Hrev. pose proof (entries_split _ _ _ Hi) as (l1 & l2 & Hl12 & _ & Hins).
        rewrite Hins, entries_app, Hpr, Hl12, entries_app. simpl. by rewrite Permutation_middle.
  - intros e h He. split; [done|]. rewrite (sv_current s v Hs) in He.
    destruct He as [[_ H]|(c & Hc & [[-> H]|[-> H]])]; [by left|right; exists c..]; split; try done; [by left|right].
    split; [done|]. rewrite <- (po_prior_len s (sv_parts s v Hs)). unfold len. rewrite (sv_prior s v Hs).
    pose proof (length_entries_le (revisions (os_revisions s))).
    destruct (decide (length (entries_of (revisions (os_revisions s))) < length (revisions (os_revisions s)))%nat)
      as [Hlt|]; [|lia]. apply length_entries_lt in Hlt. by destruct (H _ Hlt).
Qed.
End calls.
