(* ===== verification/ObjectServiceRefines.v ===== *)
(** * Every call of the object service

    The calls of [core/src/object_service.rs] that change state, as the
    operations of one step relation. Each returns, and takes the vault through
    a sequence of its steps. *)

From stdpp Require Import base numbers list gmap relations.
From Stdlib Require Import Strings.Byte.
From S2P Require Import Prelude ByteRegions TigRuntime Kernel SlotTable ServiceIdentity Capabilities BlockAllocator UserCopy ObjectFormat ObjectFormatFacts ObjectStore Relationships RevisionHistory StorageQuotas ObjectService ObjectVault ObjectServiceFacts.

(** [s'] stands for a vault that steps lead to from [v]. *)
Definition reaches (v : vault) (s' : ObjectService) : Prop :=
  exists v', rtc vault_step v v' /\ service_vault s' v'.

Lemma reaches_refl v s : service_vault s v -> reaches v s.
Proof. intros Hs. exists v. by split; [apply rtc_refl|]. Qed.

Lemma reaches_step v v' s : vault_step v v' -> reaches v' s -> reaches v s.
Proof. intros Hs (v2 & H2 & Hv2). exists v2. split; [by eapply rtc_l|done]. Qed.

Create HintDb vault.
#[export] Hint Resolve reaches_refl vault_step_ok : vault.

Section calls.
Context (v : vault) (Hv : vault_ok v).
Implicit Types (s : ObjectService) (object : TypedObjectRecord) (caller : ActiveUserProcess).

Lemma wpA_ensure_quota s id :
  service_vault s v ->
  wpA (ensure_storage_quota id) s (fun _ s' => service_vault s' v /\ s' = set_os_quotas (os_quotas s') s)
    (fun _ s' => s' = s).
Proof.
  intros Hs. pose proof (po_quotas s (sv_parts s v Hs)) as Hq. unfold ensure_storage_quota. do 3 act_step.
  destruct (quota_used_blocks_total (os_quotas s) id) as [->|[n ->]];
    (eapply wpA_mono; [apply wpA_quotas; [done|]|done|by intros ? ? [_ ?]]).
  - by apply register_quota_ok.
  - by apply ensure_minimum_limit_ok.
Qed.

Lemma wpA_charge s id :
  service_vault s v ->
  wpA (on_quotas (charge_blocks id 1)) s (fun _ s' => service_vault s' v /\ s' = set_os_quotas (os_quotas s') s)
    (fun _ s' => s' = s).
Proof.
  intros Hs. eapply wpA_mono; [apply wpA_quotas; [done|]|done|by intros ? ? [_ ?]].
  by apply charge_blocks_ok; [apply Hs|].
Qed.

(** A capability for an object that is not in the external workspace. *)
Lemma wpA_grant_object s caller id :
  service_vault s v -> grantable v id ->
  wpA (grant_object_capability caller id) s
    (fun c s' => exists v', rtc vault_step v v' /\ service_vault s' v' /\ vault_ok v' /\
       v_current v' = v_current v /\ v_home v' = v_home v /\
       live (v_handles v') !! unpack_capability c = Some (Authority (process_service caller) id OBJECT_RIGHTS))
    (fun e s' => e = ServiceCapability TableFull /\ s' = s).
Proof.
  intros Hs Hg. unfold grant_object_capability. act_step.
  eapply wpA_mono; [by apply (wpA_grant v)| |done].
  intros k s' (v' & Hv' & Hl & Hs'). act_step. exists v'.
  assert (rtc vault_step v v') as Hsteps.
  { destruct Hv' as [->|[Hk ->]]; [apply rtc_refl|]. by apply rtc_once, step_grant. }
  rewrite (handle_packs v' s' k _ Hs' Hl). split_and!; try done; [by eapply vault_steps_ok|..];
    by destruct Hv' as [->|[_ ->]].
Qed.

End calls.

(** ** Creations *)

Section creations.
Context (v : vault) (Hv : vault_ok v).
Implicit Types (s : ObjectService) (object : TypedObjectRecord) (caller : ActiveUserProcess).

Definition note_created s caller : vault :=
  vault_create (new_object (os_next_note_id s) Kind.Note 1) (Some SHELL_WORKSPACE_OBJECT_ID)
    (os_next_timestamp s) (process_service caller) v.

Lemma create_object_spec s caller c kind :
  service_vault s v -> uint 64 (process_service caller) ->
  wpA (create_object caller c kind) s
    (fun r s' => kind = Kind.Note /\ created_id r = os_next_note_id s /\ created_revision r = 1 /\
       v_current v !! os_next_note_id s = None /\ vault_step v (note_created s caller) /\
       exists v', rtc vault_step (note_created s caller) v' /\ service_vault s' v' /\
         v_current v' = v_current (note_created s caller) /\ v_home v' = v_home (note_created s caller) /\
         live (v_handles v') !! unpack_capability (created_capability r) =
           Some (Authority (process_service caller) (created_id r) OBJECT_RIGHTS))
    (fun e s' => service_vault s' v \/
       e = ServiceCapability TableFull /\ v_current v !! os_next_note_id s = None /\
       vault_step v (note_created s caller) /\
       service_vault s' (note_created s caller)).
Proof.
  intros Hs Hw. unfold create_object. do 2 act_step. act_step; [|by left].
  intros ->%negb_false_iff%bool_decide_eq_true. do 2 act_step.
  eapply wp_mono; [by eapply validate_vault| |by left]. intros _ _.
  act_step. eapply wpA_mono; [by apply wpA_charge| |by intros ? ? ->; left]. intros _ s1 [H1 E1].
  act_step. eapply wpA_mono; [by apply (wpA_take_note_id v)| |done].
  intros id s2 (-> & H2 & Hid & E2).
  assert (os_next_note_id s1 = os_next_note_id s /\ os_next_timestamp s2 = os_next_timestamp s) as [En Et].
  { by rewrite E2, E1. }
  rewrite En in *.
  act_step. eapply wpA_mono; [by apply (wpA_insert_new v Hv)| |by intros; left].
  intros _ s3 (Hf & Hr & Ht & H3). simpl in Hf, Hr. rewrite Et in Ht, H3.
  assert (vault_step v (note_created s caller)) as Hstep.
  { apply step_create; try done; [by right|]. by apply new_object_wf. }
  assert (vault_ok (note_created s caller)) as Hok by eauto with vault.
  act_step. eapply wpA_mono; [apply (wpA_grant_object (note_created s caller)); [done|done|]| |].
  - right. split; [simpl; rewrite lookup_insert_eq; eauto|]. simpl. by rewrite lookup_insert_eq.
  - intros k s4 (v' & Hst & H4 & _ & Hc & Hh & Hl). act_step. simpl. split_and!; try done. by exists v'.
  - intros e s4 [-> ->]. right. done.
Qed.

Lemma create_task_spec s caller object :
  service_vault s v -> uint 64 (process_service caller) -> object_wf object ->
  wpA (create_task_service_object caller object) s (fun _ s' => reaches v s') (fun _ s' => reaches v s').
Proof.
  intros Hs Hw Ho. unfold create_task_service_object. do 2 act_step. act_step; [|by auto with vault].
  intros _. act_step. eapply wpA_mono; [by apply (wpA_ensure_quota v)| |by intros ? ? ->; auto with vault].
  intros _ s1 [H1 _]. act_step. eapply wpA_mono; [by apply (wpA_charge v)| |by intros ? ? ->; auto with vault].
  intros _ s2 [H2 _]. eapply wpA_mono; [by apply (wpA_insert_new v Hv)| |by auto with vault].
  intros _ s3 (Hf & Hr & Ht & H3). eapply reaches_step; [|by apply reaches_refl]. apply step_create; auto.
Qed.

(** The staged creations, up to the relationships and from there on. *)
Lemma place_start {A} s object (k : service_action A) Q :
  service_vault s v ->
  (forall s', placing v object true None s' -> object_id object ∉ workspace_roots ->
     wpA k s' Q (fun _ _ => True)) ->
  wpA (on_objects (store_create object);; on_relationships (insert_object object);; k) s Q (fun _ _ => True).
Proof.
  intros Hs Hk. act_step. eapply wpA_mono; [by apply (wpA_store_create v)| |done]. intros x s1 [H1 _].
  act_step. eapply wpA_mono; [by apply (wpA_insert_known v)| |done]. intros _ s2 (H2 & Hr & _). by apply Hk.
Qed.

Lemma place_finish {A} s caller object home (k : PackedCapability -> service_action A) Q :
  placing v object true home s -> object_id object ∉ workspace_roots ->
  uint 64 (process_service caller) -> object_wf object ->
  home = None \/ home = Some SHELL_WORKSPACE_OBJECT_ID ->
  (forall c s', reaches v s' -> wpA (k c) s' Q (fun _ _ => True)) ->
  wpA (t ← take_timestamp; on_revisions (history_create object t (process_service caller));;
       c ← grant_object_capability caller (object_id object); k c) s Q (fun _ _ => True).
Proof.
  intros Hs Hr Hw Ho Hhome Hk.
  act_step. eapply wpA_mono; [by apply (wpA_take_timestamp v)| |done]. intros t s4 (_ & Ht & H4 & _).
  act_step. eapply wpA_mono; [by apply (wpA_history_create v)| |done]. intros _ s5 [H5 _].
  set (v1 := vault_create object home t (process_service caller) v) in *.
  assert (vault_step v v1) as Hstep.
  { apply step_create; try done. apply Hs. }
  act_step. eapply wpA_mono; [apply (wpA_grant_object v1); [by eauto with vault|done|]| |done].
  - right. unfold v1. simpl. rewrite lookup_insert_eq. split; [eauto|].
    destruct Hhome as [->| ->]; [|by rewrite lookup_insert_eq].
    intros Heq. by pose proof (eq_trans (eq_sym (placing_homeless v Hv s object true Hs)) Heq).
  - intros c s6 (v' & Hst & H6 & _). apply Hk. eapply reaches_step; [done|]. by exists v'.
Qed.

Lemma create_internal_spec s caller object :
  service_vault s v -> uint 64 (process_service caller) -> object_wf object ->
  wpA (create_internal_object caller object) s (fun _ s' => reaches v s') (fun _ s' => s' = s).
Proof.
  intros Hs Hw Ho. apply wpA_staged.
  apply (wpA_mono _ _ (fun _ s' => reaches v s') _ (fun _ _ => True)); [|done|done].
  act_step. eapply wpA_mono; [by apply (wpA_ensure_quota v)| |done]. intros _ s1 [H1 _].
  act_step. eapply wpA_mono; [by apply (wpA_charge v)| |done]. intros _ s2 [H2 _].
  apply place_start; [done|]. intros s3 H3 Hr. apply (place_finish s3 caller object None); [done..|by left|].
  intros c s' H'. by act_step.
Qed.

Lemma schema_ref_len a b :
  wp (package_schema_ref_value a b) (fun bs => len bs = FIELD_VALUE_CAPACITY) (fun _ => True).
Proof.
  unfold package_schema_ref_value. act_step.
  apply wp_write_u64; rewrite ?len_zeros by done; [done..|]. intros b1 Hl1 _.
  apply wp_write_u64; rewrite ?Hl1; [done..|]. intros b2 Hl2 _. by rewrite Hl2.
Qed.

(** A package object is a record of the kernel with the given identity. *)
Lemma package_record_wf id input :
  uint 64 id ->
  wp (package_defined_record id input)
    (fun o => object_wf o /\ object_id o = id /\ object_kind o = Kind.PackageDefinedObject) (fun _ => True).
Proof.
  intros Hid. unfold package_defined_record. act_step.
  eapply wp_mono; [apply schema_ref_len| |done]. intros bs _. act_step.
  eapply wp_mono; [by apply new_field_wf| |done]. intros f [Hf _]. act_step.
  eapply wp_mono; [apply push_field_wf; [by apply new_object_wf|done]| |done].
  intros o (Ho & Hoi & Hok & _). destruct (_ =? _); [|by act_step].
  act_step. eapply wp_mono; [by apply new_field_wf| |done]. intros f' [Hf' _].
  eapply wp_mono; [by apply push_field_wf| |done]. intros o' (Ho' & Hoi' & Hok' & _).
  split_and!; [done|by rewrite Hoi', Hoi|by rewrite Hok', Hok].
Qed.

Lemma check_initial_state_total input : wp (check_initial_state input) (fun _ => True) (fun _ => True).
Proof. unfold check_initial_state. by repeat case_match; try act_step. Qed.

Lemma create_defined_spec s caller c input :
  service_vault s v -> uint 64 (process_service caller) ->
  wpA (create_package_defined_object caller c input) s (fun _ s' => reaches v s') (fun _ s' => s' = s).
Proof.
  intros Hs Hw. unfold create_package_defined_object. do 2 act_step.
  eapply wp_mono; [by apply (validate_vault v)| |done]. intros _ _.
  do 2 act_step. act_step; [|done]. intros _. do 2 act_step.
  eapply wp_mono; [apply check_initial_state_total| |done]. intros _ _. apply wpA_staged.
  apply (wpA_mono _ _ (fun _ s' => reaches v s') _ (fun _ _ => True)); [|done|done].
  act_step. eapply wpA_mono; [by apply (wpA_ensure_quota v)| |done]. intros _ s1 [H1 _].
  act_step. eapply wpA_mono; [by apply (wpA_charge v)| |done]. intros _ s2 [H2 _].
  act_step. eapply wpA_mono; [by apply (wpA_take_note_id v)| |done]. intros id s3 (_ & H3 & Hid & _).
  do 2 act_step. apply wp_map_err. eapply wp_mono; [by apply package_record_wf| |done].
  intros object (Ho & <- & _). apply place_start; [done|]. intros s4 H4 Hr.
  act_step. eapply wpA_mono; [by apply (wpA_add_home v Hv)| |done]. intros _ s5 [H5 _].
  apply (place_finish s5 caller object (Some SHELL_WORKSPACE_OBJECT_ID)); [done..|by right|]. intros c' s' H'. by act_step.
Qed.
End creations.

(** ** Revisions *)

Section revisions.
Context (v : vault) (Hv : vault_ok v).
Implicit Types (s : ObjectService) (object : TypedObjectRecord) (caller : ActiveUserProcess).

Lemma commit_spec s caller object :
  service_vault s v -> object_wf object -> uint 64 (process_service caller) ->
  (forall c, v_current v !! object_id object = Some c -> object_kind object = object_kind (cur_object c)) ->
  writable v (object_id object) \/ is_task_service_kind (object_kind object) = true ->
  wpA (commit_revision caller object) s
    (fun n s' => exists c, v_current v !! object_id object = Some c /\ n = cur_revision c + 1 /\
       cur_timestamp c < os_next_timestamp s /\ len (v_prior v) < MAX_REVISIONS /\
       let v' := vault_revise c object (os_next_timestamp s) (process_service caller) v in
       vault_step v v' /\ service_vault s' v')
    (fun _ s' => s' = s).
Proof.
  intros Hs Ho Hw Hk Ha. eapply wpA_mono; [by apply (wpA_commit v Hv)| |by intros ? ? [? _]].
  intros n s' (c & Hc & Ht & -> & Hp & H'). exists c. cbv zeta. split_and!; try done.
  apply step_revise; auto. apply Hs.
Qed.

(** The only field of a revised object holds the value. *)
Definition revised_object object (id : ObjectId) (kind : ObjectKind) (field : Z) (value : list byte) : Prop :=
  object_id object = id /\ object_kind object = kind /\ field_count object = 1 /\
  exists f, get (fields object) 0 = Some f /\ field_id f = field /\ value_len f = len value /\
    take (length value) (field_value f) = value.

Lemma revised_record_spec id kind n field value :
  uint 64 id -> uint 16 field -> uint 16 n ->
  wp (f ← map_err ServiceObjectFormat (new_field field n value);
      map_err ServiceObjectFormat (push_field (new_object id kind n) f))
    (fun o => object_wf o /\ revised_object o id kind field value)
    (fun e => e = ServiceObjectFormat FieldValueTooLarge /\ FIELD_VALUE_CAPACITY < len value).
Proof.
  intros Hid Hf Hn. act_step. apply wp_map_err. eapply wp_mono; [by apply new_field_wf| |].
  2:{ by intros e [-> H]. }
  intros f (Hwf & Hi & _ & Hvl & Hval). apply wp_map_err.
  eapply wp_mono; [apply push_field_wf; [by apply new_object_wf|done]| |].
  2:{ by intros e [_ [=]]. }
  intros o (Ho & _ & _ & _ & ->). split; [done|]. split_and!; try done. exists f. split_and!; done.
Qed.

Lemma revise_field_spec s caller c id field value :
  service_vault s v -> uint 64 (process_service caller) -> uint 16 field ->
  wpA (revise_field caller c id field value) s
    (fun n s' => exists old object, v_current v !! id = Some old /\ n = cur_revision old + 1 /\
       cur_timestamp old < os_next_timestamp s /\ len (v_prior v) < MAX_REVISIONS /\
       revised_object object id (object_kind (cur_object old)) field value /\
       let v' := vault_revise old object (os_next_timestamp s) (process_service caller) v in
       vault_step v v' /\ service_vault s' v')
    (fun _ s' => s' = s).
Proof.
  intros Hs Hw Hf. unfold revise_field. do 2 act_step.
  eapply wp_mono; [by apply (validate_vault v)| |done]. intros _ (m & Hl & Hm).
  do 2 act_step. rewrite (current_revision_vault v) by done. act_step; [|done].
  intros r (old & Hold & ->)%fmap_Some. cbn [as_revision rev_revision rev_object].
  pose proof (vo_revision v Hv _ _ Hold) as Hr. pose proof (prior_length v s Hs) as Hp.
  pose proof (vo_keys v Hv _ _ Hold) as Hid. destruct (vo_wf v Hv _ _ Hold) as [Hwf _].
  change MAX_REVISIONS with 8 in Hp.
  do 2 act_step. unfold checked_add. rewrite checked_id by (unfold uint; lia). apply wp_ok.
  assert (uint 64 id) as Hu by (rewrite <- Hid; apply Hwf).
  pose proof (revised_record_spec id (object_kind (cur_object old)) (wrap 16 (cur_revision old + 1)) field value
    Hu Hf ltac:(by apply wrap_range)) as Hrec.
  do 2 act_step. destruct (map_err _ (new_field _ _ _)) as [f|e| |]; [rewrite ok_bind in Hrec|done..].
  apply wp_ok. do 2 act_step. destruct (map_err _ (push_field _ _)) as [o|e| |]; [|done|by destruct Hrec..]. apply wp_ok.
  destruct Hrec as [Ho Hro]. pose proof Hro as (Hoi & Hok & _).
  eapply wpA_mono; [apply commit_spec; try done| |done].
  - intros c'. rewrite Hoi, Hold. by intros [= <-].
  - left. exists (unpack_capability c). eexists. by rewrite Hoi.
  - intros n s' (c' & Hc' & -> & Ht & Hlt & Hst & H'). rewrite Hoi, Hold in Hc'. injection Hc' as <-.
    by exists old, o.
Qed.

Lemma revise_task_spec s caller object :
  service_vault s v -> uint 64 (process_service caller) -> object_wf object ->
  wpA (revise_task_service_object caller object) s (fun _ s' => reaches v s') (fun _ s' => s' = s).
Proof.
  intros Hs Hw Ho. unfold revise_task_service_object. do 2 act_step. act_step; [|done].
  intros Ht%negb_false_iff. do 2 act_step. rewrite (current_revision_vault v) by done. act_step; [|done].
  intros r (c & Hc & ->)%fmap_Some. do 2 act_step. act_step; [|done].
  intros Hk%negb_false_iff%bool_decide_eq_true. simpl in Hk.
  eapply wpA_mono; [apply commit_spec; try done| |done].
  - intros c' Hc'. by simplify_eq.
  - by right.
  - intros n s' (c' & _ & _ & _ & _ & Hst & H'). eapply reaches_step; [done|]. by apply reaches_refl.
Qed.
End revisions.

(** ** Queries and authority *)

Lemma object_belongs_vault v s id :
  service_vault s v ->
  object_belongs_to_workspace s id SHELL_WORKSPACE_OBJECT_ID =
    bool_decide (v_home v !! id = Some SHELL_WORKSPACE_OBJECT_ID).
Proof.
  intros Hs. unfold object_belongs_to_workspace. rewrite query_first_spec by apply Hs.
  rewrite <- (sv_members s v Hs), lookup_fmap. destruct (members _ !! id) as [x|]; simpl.
  - destruct (Z.eqb_spec (rel_target x) SHELL_WORKSPACE_OBJECT_ID); case_bool_decide; congruence.
  - done.
Qed.

(** The identities of the records that a query for [kind] selects, in order. *)
Definition selected (v : vault) (kind : ObjectKind) (rs : list (option DynamicObjectSlot)) : list ObjectId :=
  slot_key <$> filter (fun r => object_kind (slot_object r) = kind /\
                                v_home v !! slot_key r = Some SHELL_WORKSPACE_OBJECT_ID) (entries_of rs).

(** The entries from [n] on name the selected objects, with capabilities for them. *)
Definition answered (v : vault) (caller : ActiveUserProcess) (results : list ObjectListEntry) (n : Z)
    (ids : list ObjectId) : Prop :=
  forall j id, get ids j = Some id -> n + j < MAX_QUERY_RESULTS ->
    exists e, get results (n + j) = Some e /\ list_object_id e = id /\
      live (v_handles v) !! unpack_capability (list_capability e) =
        Some (Authority (process_service caller) id OBJECT_RIGHTS).

Lemma query_loop_spec caller kind rs v s results n :
  vault_ok v -> service_vault s v -> 0 <= n -> len results = MAX_QUERY_RESULTS ->
  wpA (query_loop caller kind rs results n) s
    (fun res s' => exists v', rtc vault_step v v' /\ service_vault s' v' /\ v_current v' = v_current v /\
       len res = MAX_QUERY_RESULTS /\ (forall i, i < n -> get res i = get results i) /\ answered v' caller res n (selected v kind rs))
    (fun e s' => e = ServiceCapability TableFull /\ reaches v s').
Proof.
  revert v s results n. induction rs as [|o rs IH]; intros v s results n Hv Hs Hn Hl; simpl.
  { act_step. exists v. split_and!; try done. intros j id Hj. by apply get_Some in Hj as [_ ?]. }
  destruct (n <? MAX_QUERY_RESULTS) eqn:Hlt; [|act_step; exists v; split_and!; try done].
  2:{ intros j id [Hj _]%get_Some Hc. lia. }
  destruct o as [r|]; [|by apply IH].
  do 3 act_step. rewrite (object_belongs_vault v) by done.
  assert (selected v kind (Some r :: rs) = if bool_decide (object_kind (slot_object r) = kind) &&
    bool_decide (v_home v !! slot_key r = Some SHELL_WORKSPACE_OBJECT_ID)
    then slot_key r :: selected v kind rs else selected v kind rs) as ->.
  { unfold selected. change (entries_of (Some r :: rs)) with (r :: entries_of rs). rewrite filter_cons.
    repeat case_bool_decide; simpl; case_decide; naive_solver. }
  destruct (bool_decide (object_kind _ = _) && _) eqn:Hsel; [|by apply IH].
  apply andb_true_iff in Hsel as [_ Hhome%bool_decide_eq_true].
  act_step. eapply wpA_mono; [apply (wpA_grant_object v Hv); [done|]| |].
  { right. split; [by apply (vo_home v Hv); eauto|by rewrite Hhome]. }
  2:{ intros e s' [-> ->]. auto with vault. }
  intros c s1 (v1 & Hst1 & H1 & Hok1 & Hc1 & Hh1 & Hlive). do 2 act_step. apply wp_index_set; [lia|].
  eapply wpA_mono; [apply (IH v1); [done|done|lia|by rewrite len_insert]| |].
  2:{ intros e s' [-> (v2 & H2 & Hs2)]. split; [done|]. exists v2. split; [by etrans|done]. }
  intros res s2 (v2 & Hst2 & H2 & Hc2 & Hl2 & Hkeep & Hans). exists v2.
  split_and!; try done; [by etrans|congruence|..].
  - intros i Hi. rewrite Hkeep by lia. by rewrite get_insert_ne by lia.
  - intros j id Hj Hjn. destruct (decide (j = 0)) as [->|Hj0].
    + apply get_Some in Hj as [_ [= <-]]. rewrite Z.add_0_r, Hkeep, get_insert_eq by lia. eexists.
      split_and!; [done|done|]. simpl. by apply (vault_steps_live v1 v2).
    + replace (n + j) with (n + 1 + (j - 1)) by lia. apply Hans; [|lia].
      replace (selected v1 kind rs) with (selected v kind rs) by (unfold selected; by rewrite Hh1).
      apply get_Some in Hj as [Hj0' Hj]. apply get_Some. unfold len in *. simpl in *. split; [lia|].
      by replace (Z.to_nat j) with (S (Z.to_nat (j - 1))) in Hj by lia.
Qed.

Lemma query_objects_spec v s caller c kind :
  vault_ok v -> service_vault s v ->
  wpA (query_objects caller c kind) s
    (fun res s' => exists v', rtc vault_step v v' /\ service_vault s' v' /\ v_current v' = v_current v /\
       len res = MAX_QUERY_RESULTS /\ answered v' caller res 0 (selected v kind (object_records (os_objects s))))
    (fun _ s' => reaches v s').
Proof.
  intros Hv Hs. unfold query_objects. do 2 act_step.
  eapply wp_mono; [by apply (validate_vault v)| |by auto with vault]. intros _ _. do 3 act_step.
  eapply wpA_mono; [by apply query_loop_spec| |by intros ? ? [_ ?]].
  intros res s' (v' & Hst & H' & Hc & Hl & _ & Hans). by exists v'.
Qed.

Lemma grant_workspace_spec v s caller :
  vault_ok v -> service_vault s v ->
  wpA (grant_workspace_capability caller) s
    (fun c s' => reaches v s' /\ exists v', rtc vault_step v v' /\ service_vault s' v' /\
       v_current v' = v_current v /\ v_home v' = v_home v /\
       live (v_handles v') !! unpack_capability c =
         Some (Authority (process_service caller) SHELL_WORKSPACE_OBJECT_ID WORKSPACE_RIGHTS))
    (fun _ s' => service_vault s' v).
Proof.
  intros Hv Hs. pose proof (po_quotas s (sv_parts s v Hs)) as Hq. unfold grant_workspace_capability.
  do 4 act_step.
  assert (wpA (match quota_used_blocks (os_quotas s) (process_service caller) with
    | Ok _ => mret tt
    | Err UnknownQuotaService => on_quotas (register_quota (process_service caller) MAX_QUERY_RESULTS)
    | Err e => pure (Err (ServiceQuota e)) | Panic => pure Panic | Diverge => pure Diverge end : service_action unit)
    s (fun _ s' => service_vault s' v) (fun _ s' => service_vault s' v)) as Hreg.
  { destruct (quota_used_blocks_total (os_quotas s) (process_service caller)) as [->|[n ->]]; [|by act_step].
    eapply wpA_mono; [apply (wpA_quotas v); [done|by apply register_quota_ok]|by intros ? ? [? _]|].
    by intros ? ? [_ ->]. }
  eapply wpA_mono; [exact Hreg| |done]. intros [] s1 H1. do 4 act_step.
  rewrite (po_shell s1 (sv_parts s1 v H1)).
  eapply wpA_mono; [apply (wpA_grant v); [done|by left]| |by intros ? ? [_ ->]].
  intros k s2 (v' & Hv' & Hl & Hs'). act_step. rewrite (handle_packs v' s2 k _ Hs' Hl).
  assert (rtc vault_step v v') as Hst.
  { destruct Hv' as [->|[Hk ->]]; [apply rtc_refl|]. apply rtc_once, step_grant; [done|by left]. }
  split; [by exists v'|]. exists v'. split_and!; try done; by destruct Hv' as [->|[_ ->]].
Qed.
