(* ===== verification/ObjectSeed.v ===== *)
(** * The seeded object service

    The state that [ObjectService::new_seeded] of [core/src/object_service.rs]
    starts from: two workspace roots, the note of the external workspace, and
    one capability, the shell's for its workspace. *)

From stdpp Require Import base numbers list gmap relations.
From Stdlib Require Import Strings.Byte.
From S2P Require Import Prelude ByteRegions Bitset TigRuntime Kernel SlotTable ServiceIdentity Capabilities BlockAllocator UserCopy ObjectFormat ObjectFormatFacts ObjectStore Relationships RevisionHistory StorageQuotas ObjectService ObjectVault ObjectServiceFacts.

Definition seeded_state : ObjectService :=
  match new_seeded with
  | Ok s => s
  | _ => empty_service {| allocator := {| base_sector := 0; block_count := 0; bitmap := 0; committed_bitmap := 0 |};
                          objects := [] |}
  end.

Lemma new_seeded_ok : new_seeded = Ok seeded_state.
Proof. by vm_compute. Qed.

Definition secret_note : TypedObjectRecord :=
  {| object_id := KNOWN_EXTERNAL_NOTE_ID; object_kind := Kind.Note; schema_version := 1; field_count := 1;
     fields := {| field_id := FIELD_TEXT; field_version := 1; value_len := 6;
                  field_value := secret_text ++ replicate 10 x00 |} :: replicate 3 EMPTY_FIELD |}.

Definition shell_service : ServiceId := process_service (os_shell_caller seeded_state).
Definition intruder_service : ServiceId := process_service (os_intruder_caller seeded_state).

Definition shell_handle : CapabilityHandle := Handle 0 1.
Definition shell_authority : authority := Authority shell_service SHELL_WORKSPACE_OBJECT_ID WORKSPACE_RIGHTS.

(** The only authority after a start. *)
Definition seeded_handles : store CapabilityHandle authority :=
  Build_store {[shell_handle := shell_authority]} {[shell_handle]}.

Definition seeded_vault : vault :=
  {| v_current := {[KNOWN_EXTERNAL_NOTE_ID := revision_one secret_note 1 intruder_service]};
     v_home := {[KNOWN_EXTERNAL_NOTE_ID := EXTERNAL_WORKSPACE_OBJECT_ID]};
     v_prior := []; v_handles := seeded_handles |}.

Lemma seeded_handles_represented : capability_represents (os_capabilities seeded_state) seeded_handles.
Proof.
  pose proof (grant_spec shell_service SHELL_WORKSPACE_OBJECT_ID WORKSPACE_RIGHTS _ _
    new_capability_represents) as Hg.
  assert (grant_with_provenance shell_service SHELL_WORKSPACE_OBJECT_ID WORKSPACE_RIGHTS new_capability_table =
    (Ok (Created shell_handle), os_capabilities seeded_state)) as Hrun by by vm_compute.
  apply (wpA_ok _ _ _ _ _ _ Hg) in Hrun as (_ & _ & Hr). simpl in Hr. by rewrite union_empty_r_L in Hr.
Qed.

Lemma secret_note_wf : object_wf secret_note.
Proof.
  assert (Forall (fun f => f = EMPTY_FIELD) (replicate 3 EMPTY_FIELD)) as Hf by by repeat constructor.
  split; try done.
  - intros i f [Hi Hf']%get_Some Hlt. simpl in Hlt. replace i with 0 in Hf' by (unfold len in Hi; lia).
    simpl in Hf'. simplify_eq. by split.
  - intros i f [Hi Hf']%get_Some Hge. simpl in Hge.
    replace (Z.to_nat i) with (S (Z.to_nat (i - 1))) in Hf' by lia. simpl in Hf'.
    rewrite Forall_lookup in Hf. by eapply Hf.
Qed.

(** A list of one entry. *)
Lemma one_entry {A} (x y : A) (n : nat) : Some y ∈ (Some x :: replicate n None) -> y = x.
Proof.
  intros [[= ->]|H]%elem_of_cons; [done|]. by apply elem_of_replicate in H as [[=] _].
Qed.

Definition secret_slot : DynamicObjectSlot := {| slot_object := secret_note; slot_extent := Extent 0 1 |}.

Lemma seeded_objects :
  os_objects seeded_state =
  {| allocator := {| base_sector := 96; block_count := 24; bitmap := 1; committed_bitmap := 1 |};
     objects := Some secret_slot :: replicate 23 None |}.
Proof. by vm_compute. Qed.

Lemma marked_first i : marked 1 i <-> i = 0.
Proof. unfold marked. change 1 with (bit 0). rewrite bit_spec by done. naive_solver. Qed.

Lemma seeded_stored : stored (os_objects seeded_state) = {[KNOWN_EXTERNAL_NOTE_ID := secret_slot]}.
Proof. by vm_compute. Qed.

Lemma seeded_store_ok : store_ok (os_objects seeded_state).
Proof.
  assert (bitmap_wf 24 1) as Hb.
  { split; [done|]. intros i ->%marked_first. done. }
  split; [by rewrite seeded_objects; split|by rewrite seeded_objects..| |].
  - rewrite seeded_objects. unfold unique_keys. vm_compute. apply NoDup_singleton.
  - rewrite seeded_stored, seeded_objects. split; simpl.
    + intros k s [<- <-]%lookup_singleton_Some. done.
    + intros k k' s s' [<- <-]%lookup_singleton_Some [<- <-]%lookup_singleton_Some. done.
    + intros i. rewrite marked_first. split.
      * intros ->. exists KNOWN_EXTERNAL_NOTE_ID, secret_slot. by rewrite lookup_singleton_eq.
      * intros (k & s & [<- <-]%lookup_singleton_Some & Hi). unfold in_extent in Hi. simpl in Hi. lia.
Qed.

Definition secret_member : ObjectRelationship :=
  Relationship KNOWN_EXTERNAL_NOTE_ID BelongsTo EXTERNAL_WORKSPACE_OBJECT_ID.

Lemma seeded_members : relationships (os_relationships seeded_state) = Some secret_member :: replicate 23 None.
Proof. by vm_compute. Qed.

Lemma seeded_known : dom (known (os_relationships seeded_state)) =
  workspace_roots ∪ {[KNOWN_EXTERNAL_NOTE_ID]}.
Proof. by vm_compute. Qed.

Lemma seeded_relationships_ok : relationships_ok (os_relationships seeded_state).
Proof.
  split.
  - apply (bool_decide_unpack _). by vm_compute.
  - rewrite seeded_members. apply (bool_decide_unpack _). by vm_compute.
  - intros x. rewrite seeded_members. by intros ->%one_entry.
  - intros x. rewrite seeded_members, seeded_known. intros ->%one_entry. set_solver.
Qed.

Definition secret_revision : CurrentObject := revision_one secret_note 1 intruder_service.

Lemma seeded_revisions : os_revisions seeded_state =
  {| current := Some secret_revision :: replicate 23 None; revisions := replicate 8 None |}.
Proof. by vm_compute. Qed.

Lemma seeded_currents : currents (os_revisions seeded_state) = {[KNOWN_EXTERNAL_NOTE_ID := secret_revision]}.
Proof. by vm_compute. Qed.

Lemma seeded_history_ok : history_ok (os_revisions seeded_state).
Proof.
  split.
  - rewrite seeded_revisions. unfold unique_keys. vm_compute. apply NoDup_singleton.
  - intros r. rewrite seeded_revisions. by intros [[=] _]%elem_of_replicate.
  - intros id c. rewrite seeded_currents. by intros [_ <-]%lookup_singleton_Some.
Qed.

Lemma seeded_parts_ok : parts_ok seeded_state.
Proof.
  split; try by vm_compute.
  - apply seeded_store_ok.
  - apply seeded_relationships_ok.
  - apply seeded_history_ok.
  - split; [by vm_compute|].
    assert (Forall (fun r => 0 <= quota_used r <= max_blocks r /\ max_blocks r < 2 ^ 64)
      (quotas (os_quotas seeded_state))) as H by (apply (bool_decide_unpack _); by vm_compute).
    by rewrite Forall_forall in H.
Qed.

Lemma seeded_service_vault : service_vault seeded_state seeded_vault.
Proof.
  split; [apply seeded_parts_ok|by vm_compute..|apply seeded_handles_represented].
Qed.

Lemma seeded_vault_ok : vault_ok seeded_vault.
Proof.
  assert (uint 64 intruder_service) as Hw by by vm_compute.
  split; simpl; try (intros id c [<- <-]%lookup_singleton_Some); try done.
  - intros id Hid. rewrite lookup_singleton_ne; [done|]. intros <-. by vm_compute in Hid.
  - intros id [x [<- _]%lookup_singleton_Some]. rewrite lookup_singleton_eq. eauto.
  - split_and!; [apply secret_note_wf|done|done].
  - intros r Hr. by apply elem_of_nil in Hr.
  - intros id c n [<- <-]%lookup_singleton_Some. simpl. lia.
  - intros r Hr. by apply elem_of_nil in Hr.
  - intros r r' Hr. by apply elem_of_nil in Hr.
  - constructor.
  - intros id _ c [<- <-]%lookup_singleton_Some. done.
  - by left.
  - unfold store_wf. simpl. set_solver.
Qed.
