(* ===== verification/ObjectSnapshot.v ===== *)
(** * Snapshots of the object service

    [encode_snapshot] and [from_snapshot] of [core/src/object_service.rs]: a
    snapshot is a copy of the stores, and restoring it rebuilds them slot by
    slot. The relationships may come back in other slots, so they are compared
    as maps. *)

From stdpp Require Import base numbers list gmap relations.
From Stdlib Require Import Strings.Byte.
From S2P Require Import Prelude ByteRegions TigRuntime Kernel SlotTable ServiceIdentity Capabilities BlockAllocator UserCopy ObjectFormat ObjectFormatFacts ObjectStore Relationships RevisionHistory StorageQuotas ObjectService ObjectVault ObjectServiceFacts ObjectSeed.

(** ** What a snapshot holds *)

Definition saved_object (o : option DynamicObjectSlot) : option ObjectExtentRecord :=
  (fun r => {| extent_start := start_block (slot_extent r); extent_len := extent_blocks (slot_extent r);
               extent_object := slot_object r |}) <$> o.

Definition saved_home (s : ObjectService) (o : option DynamicObjectSlot) : option WorkspaceRelationshipRecord :=
  r ← o;
  (fun x => {| workspace_object_id := rel_source x; workspace_id := rel_target x |}) <$>
    members (os_relationships s) !! slot_key r.

Definition saved_snapshot (s : ObjectService) : ObjectServiceSnapshot :=
  {| snap_generation := os_generation s; snap_bitmap := allocator_bitmap (os_objects s);
     snap_objects := saved_object <$> objects (os_objects s);
     snap_workspaces := saved_home s <$> objects (os_objects s);
     snap_current := current_records (os_revisions s); snap_prior := prior_records (os_revisions s) |}.

Lemma len_fmap {A B} (f : A -> B) (l : list A) : len (f <$> l) = len l.
Proof. unfold len. by rewrite length_fmap. Qed.

(** A loop that sets every slot builds the array. *)
Lemma fill_array_spec {E A} (f : Z -> outcome E (option A)) (l : list (option A)) :
  (forall i o, get l i = Some o -> f i = Ok o) -> fill_array f (len l) = Ok l.
Proof.
  intros Hf. apply wp_equals.
  eapply (wp_mono _ (fun x => x = filled l (len l)) _ (fun _ => False)); [|by rewrite filled_all|done].
  apply (wp_foldM_range _ _ (fun n x => x = filled l n)); [apply len_nonneg|..].
  - rewrite filled_none. f_equal. unfold len. lia.
  - intros i x Hi ->. destruct (proj2 (get_is_Some l i)) as [o Ho]; [done|]. rewrite (Hf i o Ho). simpl.
    apply wp_index_set; [rewrite len_filled; lia|]. by apply filled_set.
Qed.

Section encode.
Context (s : ObjectService) (Hs : parts_ok s).

Lemma objects_len : len (objects (os_objects s)) = MAX_DYNAMIC_OBJECTS.
Proof. apply Hs. Qed.

Lemma filled_round {A} (l : list (option A)) n o :
  0 <= n < len l -> get l n = Some o ->
  (if empty_slot o then filled l n else <[Z.to_nat n := o]> (filled l n)) = filled l (n + 1).
Proof. intros Hn Ho. destruct o; [by apply filled_set|by apply filled_skip]. Qed.

Lemma encode_round_spec n :
  0 <= n < MAX_DYNAMIC_OBJECTS ->
  wp (encode_round s (filled (saved_object <$> objects (os_objects s)) n,
                      filled (saved_home s <$> objects (os_objects s)) n) n)
    (fun st => st = (filled (saved_object <$> objects (os_objects s)) (n + 1),
                     filled (saved_home s <$> objects (os_objects s)) (n + 1)))
    (fun _ => False).
Proof.
  intros Hn. pose proof objects_len as Hl. unfold encode_round, object_record_at.
  replace (MAX_DYNAMIC_OBJECTS <=? n) with false by lia.
  destruct (proj2 (get_is_Some (objects (os_objects s)) n)) as [o Ho]; [lia|].
  assert (forall A (f : option DynamicObjectSlot -> option A),
    0 <= n < len (f <$> objects (os_objects s)) /\ get (f <$> objects (os_objects s)) n = Some (f o) /\
    len (filled (f <$> objects (os_objects s)) n) = MAX_DYNAMIC_OBJECTS) as Hf.
  { intros A f. rewrite get_fmap, Ho, len_filled, len_fmap by (rewrite len_fmap; lia). split_and!; [lia..|done|done]. }
  destruct (Hf _ saved_object) as (Hn1 & Ho1 & Hl1). destruct (Hf _ (saved_home s)) as (Hn2 & Ho2 & Hl2).
  pose proof (filled_round _ n _ Hn1 Ho1) as H1. pose proof (filled_round _ n _ Hn2 Ho2) as H2.
  unfold index. rewrite Ho. simpl. destruct o as [r|]; simpl in H1, H2; [|by rewrite H1, H2].
  apply wp_bind, wp_index_set; [by rewrite Hl1|]. rewrite H1, query_first_spec by apply Hs.
  destruct (members _ !! _) as [x|]; simpl in H2; [|by rewrite H2].
  apply wp_bind, wp_index_set; [by rewrite Hl2|]. by rewrite H2.
Qed.

Lemma encode_snapshot_spec : encode_snapshot s = Ok (saved_snapshot s).
Proof.
  unfold encode_snapshot. pose proof objects_len as Hl.
  assert (forall A (f : option DynamicObjectSlot -> option A),
    replicate (Z.to_nat MAX_DYNAMIC_OBJECTS) None = filled (f <$> objects (os_objects s)) 0) as Hnone.
  { intros A f. rewrite filled_none, length_fmap. f_equal. unfold len in Hl. lia. }
  assert (foldM (encode_round s) (replicate (Z.to_nat MAX_DYNAMIC_OBJECTS) None,
      replicate (Z.to_nat MAX_DYNAMIC_OBJECTS) None) (range 0 MAX_DYNAMIC_OBJECTS) =
    Ok (saved_object <$> objects (os_objects s), saved_home s <$> objects (os_objects s))) as ->.
  { apply wp_equals. rewrite (Hnone _ saved_object) at 1. rewrite (Hnone _ (saved_home s)).
    eapply (wp_mono _ (fun st => st = (filled (saved_object <$> objects (os_objects s)) MAX_DYNAMIC_OBJECTS,
        filled (saved_home s <$> objects (os_objects s)) MAX_DYNAMIC_OBJECTS)) _ (fun _ => False)); [| |done].
    2:{ intros st ->. rewrite <- Hl. f_equal; erewrite <- len_fmap; apply filled_all. }
    apply (wp_foldM_range _ _ (fun n st => st = (filled (saved_object <$> objects (os_objects s)) n,
                     filled (saved_home s <$> objects (os_objects s)) n))); [done|done|].
    intros n st Hn ->. by apply encode_round_spec. }
  rewrite ok_bind.
  assert (fill_array (current_record_at (os_revisions s)) OBJECT_SERVICE_CURRENT_OBJECTS =
    Ok (current_records (os_revisions s))) as ->.
  { rewrite <- (po_current_len s Hs). rewrite <- (len_fmap (option_map as_revision)).
    apply fill_array_spec. intros i o Ho. apply (get_current_records (os_revisions s)) in Ho as (c & Hc & ->).
    unfold current_record_at, index. rewrite Hc.
    apply get_Some in Hc as [Hi _]. by replace (len (current (os_revisions s)) <=? i) with false by lia. }
  cbn [map_err]. rewrite ok_bind.
  assert (fill_array (prior_record_at (os_revisions s)) MAX_REVISIONS = Ok (prior_records (os_revisions s))) as ->.
  { rewrite <- (po_prior_len s Hs). apply fill_array_spec. intros i o Ho.
    unfold prior_records in Ho. unfold prior_record_at, index. rewrite Ho.
    apply get_Some in Ho as [Hi _]. by replace (len (revisions (os_revisions s)) <=? i) with false by lia. }
  done.
Qed.

Lemma restore_objects_spec : restore_dynamic_objects (saved_snapshot s) = Ok (os_objects s).
Proof.
  unfold restore_dynamic_objects. pose proof objects_len as Hl.
  assert (fill_array (restore_object_round (saved_snapshot s)) MAX_DYNAMIC_OBJECTS =
    Ok (objects (os_objects s))) as ->.
  { rewrite <- Hl. apply fill_array_spec. intros i o Ho.
    unfold restore_object_round, index. simpl. rewrite get_fmap, Ho. simpl. destruct o as [r|]; [|done]. simpl.
    assert (stored (os_objects s) !! slot_key r = Some r) as Hr.
    { apply contents_Some; [apply Hs|]. split; [by eapply get_elem_of|done]. }
    pose proof (eo_inside _ _ (so_extents _ (po_store s Hs)) _ _ Hr) as Hx. unfold extent_wf in Hx.
    rewrite (po_count s Hs) in Hx. change OBJECT_SERVICE_BLOCK_COUNT with 24 in Hx.
    rewrite checked_id by (unfold uint; lia). simpl. by destruct r as [? []]. }
  rewrite ok_bind. simpl. rewrite <- (po_base s Hs), <- (po_count s Hs).
  by rewrite (restore_from_records_id _ (po_store s Hs) : restore_from_records _ _ _ (objects (os_objects s)) = _).
Qed.
End encode.

(** ** Restoring the relationships *)

Section relationships.
Context (s : ObjectService) (v : vault) (Hv : vault_ok v) (Hs : service_vault s v).

Local Abbreviation slots := (objects (os_objects s)).

(** The objects of the first [n] slots. *)
Definition keys (n : Z) : gset Z := list_to_set (slot_key <$> entries_of (take (Z.to_nat n) slots)).

Lemma elem_of_keys n k :
  k ∈ keys n <-> exists j r, j < n /\ get slots j = Some (Some r) /\ slot_key r = k.
Proof.
  unfold keys. rewrite elem_of_list_to_set, list_elem_of_fmap. setoid_rewrite elem_of_entries.
  setoid_rewrite list_elem_of_lookup. setoid_rewrite lookup_take_Some. split.
  - intros (r & -> & i & Hi & Hn). exists (Z.of_nat i), r. rewrite get_of_nat. split_and!; [lia|done|done].
  - intros (j & r & Hj & [Hr Hg]%get_Some & <-). exists r. split; [done|]. exists (Z.to_nat j). split; [done|lia].
Qed.

Lemma keys_next n o :
  get slots n = Some o -> keys (n + 1) = keys n ∪ match o with Some r => {[slot_key r]} | None => ∅ end.
Proof.
  intros Ho. apply set_eq. intros k. rewrite elem_of_union, !elem_of_keys. split.
  - intros (j & r & Hj & Hg & Hk). destruct (decide (j = n)) as [->|Hne].
    + right. simplify_eq. set_solver.
    + left. exists j, r. split_and!; [lia|done|done].
  - intros [(j & r & Hj & Hg & Hk)|Hk]; [exists j, r; split_and!; [lia|done|done]|].
    destruct o as [r|]; [|set_solver]. exists n, r. split_and!; [lia|done|set_solver].
Qed.

Lemma keys_fresh n r : get slots n = Some (Some r) -> slot_key r ∉ keys n.
Proof.
  intros Hr (j & r' & Hj & Hg & Hk)%elem_of_keys. assert (j = n); [|lia].
  by eapply (unique_slots slot_key slots j n r' r); [apply Hs|..].
Qed.

Lemma keys_stored n : keys n ⊆ dom (stored (os_objects s)).
Proof.
  intros k (j & r & _ & Hg & <-)%elem_of_keys. apply contents_dom. exists r. split; [by eapply get_elem_of|done].
Qed.

Lemma keys_all : keys MAX_DYNAMIC_OBJECTS = dom (stored (os_objects s)).
Proof.
  apply set_eq. intros k. split; [apply keys_stored|]. intros (r & [j Hg]%elem_of_get & Hk)%contents_dom.
  apply elem_of_keys. exists j, r. split_and!; [|done..]. apply get_Some in Hg as [Hj _].
  pose proof (so_len _ (po_store s (sv_parts s v Hs))). lia.
Qed.

Lemma stored_current : dom (stored (os_objects s)) = dom (v_current v).
Proof.
  apply set_eq. intros k. rewrite !elem_of_dom. by apply (stored_lookup v s).
Qed.

Lemma keys_room n r : get slots n = Some (Some r) -> (size (keys n) < 24)%nat.
Proof.
  intros Hr. pose proof (keys_fresh n r Hr) as Hf.
  assert (keys n ∪ {[slot_key r]} ⊆ dom (stored (os_objects s))) as Hsub.
  { rewrite <- (keys_next n (Some r) Hr). apply keys_stored. }
  apply subseteq_size in Hsub. rewrite size_union, size_singleton, size_dom in Hsub by set_solver.
  pose proof (size_stored _ (po_store s (sv_parts s v Hs))). lia.
Qed.

Lemma roots_size : size workspace_roots = 2%nat.
Proof. by vm_compute. Qed.

Lemma known_room r n o :
  relationships_ok r -> dom (known r) = workspace_roots ∪ keys n -> get slots n = Some (Some o) ->
  (size (known r) < 26)%nat.
Proof.
  intros Hr Hd Ho. rewrite <- (size_dom (D := gset Z)), Hd. pose proof (keys_room n o Ho).
  pose proof (size_union_alt workspace_roots (keys n)) as Hu. rewrite Hu, roots_size.
  assert (size (keys n ∖ workspace_roots) <= size (keys n))%nat; [|lia]. by apply subseteq_size, subseteq_difference_l.
Qed.

(** The memberships of the objects in [K]. *)
Definition homes (K : gset Z) : gmap Z ObjectRelationship :=
  filter (fun p => p.1 ∈ K) (members (os_relationships s)).

Lemma lookup_homes K k : homes K !! k = if decide (k ∈ K) then members (os_relationships s) !! k else None.
Proof.
  unfold homes. rewrite map_lookup_filter. destruct (_ !! k); simpl; [|by case_decide]. by repeat case_guard || case_decide.
Qed.

(** The store that the loops build. *)
Record rebuilt (known_keys member_keys : gset Z) (r : RelationshipStore) : Prop := {
  rb_ok : relationships_ok r;
  rb_known_len : len (rel_objects r) = OBJECT_SERVICE_RELATIONSHIP_OBJECTS;
  rb_members_len : len (relationships r) = OBJECT_SERVICE_RELATIONSHIPS;
  rb_known : dom (known r) = workspace_roots ∪ known_keys;
  rb_members : members r = homes member_keys;
}.

Lemma rebuilt_roots :
  wp (r ← call_relationships (insert_object (new_object SHELL_WORKSPACE_OBJECT_ID Kind.WorkspaceSession 1))
            (new_relationships OBJECT_SERVICE_RELATIONSHIP_OBJECTS OBJECT_SERVICE_RELATIONSHIPS);
      call_relationships (insert_object (new_object EXTERNAL_WORKSPACE_OBJECT_ID Kind.WorkspaceSession 1)) r)
    (rebuilt (keys 0) (keys 0)) (fun _ => False).
Proof.
  unfold call_relationships.
  assert (relationships_ok (new_relationships OBJECT_SERVICE_RELATIONSHIP_OBJECTS OBJECT_SERVICE_RELATIONSHIPS)) as H0.
  { split; [apply unique_empty|apply unique_empty|intros x [[=] _]%elem_of_replicate..]. }
  assert (keys 0 = ∅) as -> by done.
  act_step. act_step. apply wp_map_err, wp_run. eapply wpA_mono; [by apply insert_object_spec| |].
  2:{ intros e r [_ [[_ H]|[_ H]]]; [by destruct H|]. by vm_compute in H. }
  intros [] r1 (_ & H1 & K1 & M1 & L1 & R1). simpl. apply wp_bind, wp_map_err, wp_run.
  eapply wpA_mono; [by apply insert_object_spec| |].
  2:{ intros e r [_ [[_ H]|[_ H]]]; rewrite K1 in H; [by destruct H|]. rewrite L1 in H. by vm_compute in H. }
  intros [] r2 (_ & H2 & K2 & M2 & L2 & R2). simpl. split; [done|by rewrite L2, L1|by rewrite R2, R1| |].
  - rewrite K2, K1, !dom_insert_L. unfold workspace_roots. simpl. set_solver.
  - rewrite M2, M1. apply map_eq. intros k. rewrite lookup_homes, decide_False by set_solver. done.
Qed.

Lemma restore_known_spec n r :
  0 <= n < MAX_DYNAMIC_OBJECTS -> rebuilt (keys n) (keys 0) r ->
  wp (restore_known (saved_snapshot s) r n) (rebuilt (keys (n + 1)) (keys 0)) (fun _ => False).
Proof.
  intros Hn Hr. pose proof (objects_len s (sv_parts s v Hs)) as Hl.
  destruct (proj2 (get_is_Some slots n)) as [o Ho]; [lia|]. pose proof (keys_next n o Ho) as Hk.
  unfold restore_known, index. simpl. rewrite get_fmap, Ho. simpl.
  destruct o as [x|]; simpl; [|by rewrite Hk, union_empty_r_L].
  pose proof (known_room r n x (rb_ok _ _ _ Hr) (rb_known _ _ _ Hr) Ho) as Hroom.
  unfold call_relationships. act_step. apply wp_map_err, wp_run. eapply wpA_mono; [by apply insert_object_spec, Hr| |].
  - intros [] r' (_ & H' & K' & M' & L' & R'). act_step. destruct Hr as [? ? ? Hd ?].
    split; simpl; [done|congruence..| |congruence].
    rewrite K', dom_insert_L, Hd, Hk. unfold slot_key. set_solver.
  - intros e r' [_ [[_ H]|[_ H]]].
    + apply elem_of_dom in H. rewrite (rb_known _ _ _ Hr), elem_of_union in H.
      destruct H as [H|H]; [|by apply (keys_fresh n x Ho)].
      assert (is_Some (v_current v !! slot_key x)) as [c Hc].
      { apply (stored_lookup v s); [done|]. apply elem_of_dom, (keys_stored (n + 1)). rewrite Hk. set_solver. }
      pose proof (vo_roots v Hv _ H : v_current v !! slot_key x = None). congruence.
    + rewrite (rb_known_len _ _ _ Hr) in H. change OBJECT_SERVICE_RELATIONSHIP_OBJECTS with 26 in H. lia.
Qed.

Lemma member_record k x :
  members (os_relationships s) !! k = Some x ->
  x = Relationship k BelongsTo (rel_target x) /\ rel_target x ∈ workspace_roots /\ k ∈ dom (v_current v).
Proof.
  intros Hx. pose proof (po_rel s (sv_parts s v Hs)) as Hr.
  assert (v_home v !! k = Some (rel_target x)) as Hh.
  { by rewrite <- (sv_members s v Hs), lookup_fmap, Hx. }
  apply contents_Some in Hx as [Hin Hk]; [|apply Hr]. pose proof (ro_belongs _ Hr x Hin).
  split_and!; [by destruct x; simpl in *; subst|by eapply vo_targets|].
  apply elem_of_dom, (vo_home v Hv). eauto.
Qed.

Lemma restore_member_spec n r :
  0 <= n < MAX_DYNAMIC_OBJECTS -> rebuilt (keys MAX_DYNAMIC_OBJECTS) (keys n) r ->
  wp (restore_member (saved_snapshot s) r n) (rebuilt (keys MAX_DYNAMIC_OBJECTS) (keys (n + 1))) (fun _ => False).
Proof.
  intros Hn Hr. pose proof (objects_len s (sv_parts s v Hs)) as Hl.
  destruct (proj2 (get_is_Some slots n)) as [o Ho]; [lia|]. pose proof (keys_next n o Ho) as Hk.
  unfold restore_member, index. simpl. rewrite get_fmap, Ho. simpl.
  destruct o as [x|]; simpl; [|by rewrite Hk, union_empty_r_L].
  assert (forall M', (forall k, k <> slot_key x -> M' !! k = homes (keys n) !! k) ->
    M' !! slot_key x = members (os_relationships s) !! slot_key x -> M' = homes (keys (n + 1))) as Hext.
  { intros M' Hne Heq. apply map_eq. intros k. rewrite lookup_homes, Hk.
    destruct (decide (k = slot_key x)) as [->|Hd]; [by rewrite decide_True by set_solver|].
    rewrite Hne, lookup_homes by done. repeat case_decide; set_solver. }
  destruct (members _ !! slot_key x) as [y|] eqn:Hy; simpl.
  2:{ destruct Hr as [? ? ? ? Hm]. split; try done. rewrite Hm. apply Hext; [done|].
      rewrite lookup_homes, Hy. by case_decide. }
  destruct (member_record _ _ Hy) as (Hyr & Hyt & Hyc).
  assert (forall id, id ∈ workspace_roots ∪ dom (v_current v) -> has_object r id = true) as Hhas.
  { intros id Hid. apply contains_object_spec; [apply Hr|]. apply elem_of_dom.
    rewrite (rb_known _ _ _ Hr), keys_all, stored_current. done. }
  rewrite Hyr. simpl. rewrite !Hhas by set_solver. simpl.
  assert (members r !! slot_key x = None) as Hnone.
  { rewrite (rb_members _ _ _ Hr), lookup_homes. by rewrite decide_False by apply (keys_fresh n x Ho). }
  unfold call_relationships. act_step. apply wp_map_err, wp_run. eapply wpA_mono; [by apply add_belongs_spec, Hr| |].
  - intros [] r' (_ & _ & Hro & Hlen & Hm). destruct (Hm Hnone) as [H' Hmem]. act_step.
    destruct Hr as [? ? ? Hd Hmm]. split; simpl; [done|congruence|congruence|by unfold known in *; rewrite Hro|].
    rewrite Hmem, Hmm. apply Hext; [by intros k Hne; rewrite lookup_insert_ne|]. by rewrite lookup_insert_eq, Hyr.
  - intros e r' [_ [[_ H]|[[_ H]|[[_ H]|[_ H]]]]].
    + apply eq_None_not_Some in H. apply H, contains_object_spec; [apply Hr|]. apply Hhas. set_solver.
    + apply eq_None_not_Some in H. apply H, contains_object_spec; [apply Hr|]. apply Hhas. set_solver.
    + rewrite Hnone in H. by destruct H.
    + rewrite (rb_members_len _ _ _ Hr) in H. change OBJECT_SERVICE_RELATIONSHIPS with 24 in H.
      assert (size (members r) <= size (keys n))%nat as Hle.
      { rewrite <- (size_dom (D := gset Z)). apply subseteq_size. intros k [z Hz]%elem_of_dom.
        rewrite (rb_members _ _ _ Hr), lookup_homes in Hz. by case_decide. }
      pose proof (keys_room n x Ho). lia.
Qed.

Lemma restore_relationships_spec :
  wp (restore_relationships (saved_snapshot s))
    (fun r => rebuilt (keys MAX_DYNAMIC_OBJECTS) (keys MAX_DYNAMIC_OBJECTS) r /\
       members r = members (os_relationships s)) (fun _ => False).
Proof.
  unfold restore_relationships. pose proof rebuilt_roots as Hroots.
  destruct (call_relationships _ _) as [r1|e| |]; [rewrite ok_bind in *|done..].
  act_step. eapply wp_mono; [exact Hroots| |done]. intros r2 H2.
  act_step. eapply (wp_mono _ (rebuilt (keys MAX_DYNAMIC_OBJECTS) (keys 0)) _ (fun _ => False)); [| |done].
  { apply (wp_foldM_range _ _ (fun n => rebuilt (keys n) (keys 0))); [done|done|]. intros n r Hn Hr.
    by apply restore_known_spec. }
  intros r3 H3. eapply (wp_mono _ (rebuilt (keys MAX_DYNAMIC_OBJECTS) (keys MAX_DYNAMIC_OBJECTS)) _ (fun _ => False));
    [| |done].
  { apply (wp_foldM_range _ _ (fun n => rebuilt (keys MAX_DYNAMIC_OBJECTS) (keys n))); [done|done|]. intros n r Hn Hr.
    by apply restore_member_spec. }
  intros r Hr. split; [done|]. rewrite (rb_members _ _ _ Hr). apply map_eq. intros k. rewrite lookup_homes.
  case_decide as Hk; [done|]. symmetry. apply eq_None_not_Some. intros [x Hx].
  destruct (member_record k x Hx) as (_ & _ & Hd). by rewrite keys_all, stored_current in Hk.
Qed.
End relationships.

(** ** Restoring the service *)

(** A restart keeps the objects, their workspaces and their revisions, and
    leaves the authority of a fresh start. *)
Definition vault_restart (v : vault) : vault :=
  {| v_current := v_current v; v_home := v_home v; v_prior := v_prior v; v_handles := seeded_handles |}.

Lemma vault_restart_ok v : vault_ok v -> vault_ok (vault_restart v).
Proof.
  intros Hv. split; simpl; try apply Hv.
  - intros k a [_ <-]%lookup_singleton_Some. by left.
  - unfold store_wf. simpl. set_solver.
Qed.

(** The next note identity lies above every note of the shell. *)
Definition above_notes (l : list (option DynamicObjectSlot)) (n next : Z) : Prop :=
  FIRST_SHELL_NOTE_ID <= next <= KNOWN_EXTERNAL_NOTE_ID /\
  forall j r, j < n -> get l j = Some (Some r) ->
    FIRST_SHELL_NOTE_ID <= slot_key r < KNOWN_EXTERNAL_NOTE_ID -> slot_key r < next.

Lemma next_note_spec s :
  parts_ok s ->
  wp (next_shell_note_id (saved_snapshot s))
    (above_notes (objects (os_objects s)) MAX_DYNAMIC_OBJECTS) (fun _ => False).
Proof.
  intros Hs. pose proof (objects_len s Hs) as Hl.
  apply (wp_foldM_range _ _ (above_notes (objects (os_objects s)))); [done|..].
  - split; [done|]. intros j r Hj [Hj' _]%get_Some. lia.
  - intros n next Hn [Hr Hb]. destruct (proj2 (get_is_Some (objects (os_objects s)) n)) as [o Ho]; [lia|].
    unfold next_note_round, index. simpl. rewrite get_fmap, Ho. simpl.
    assert (forall next', next <= next' <= KNOWN_EXTERNAL_NOTE_ID ->
      (forall r, o = Some r -> FIRST_SHELL_NOTE_ID <= slot_key r < KNOWN_EXTERNAL_NOTE_ID -> slot_key r < next') ->
      above_notes (objects (os_objects s)) (n + 1) next') as Hnext.
    { intros next' Hn' Ho'. split; [lia|]. intros j r Hj Hg Hrange. destruct (decide (j = n)) as [->|Hne].
      - apply Ho'; [congruence|done].
      - specialize (Hb j r ltac:(lia) Hg Hrange). lia. }
    unfold FIRST_SHELL_NOTE_ID, KNOWN_EXTERNAL_NOTE_ID in *. destruct o as [r|]; simpl; [|by apply Hnext; [lia|]].
    change (object_id (slot_object r)) with (slot_key r).
    destruct (_ && _) eqn:Hc; (apply Hnext; [|intros r' [= <-] Hrange]);
      rewrite ?wrap_small by (unfold uint; lia); lia.
Qed.

#[local] Opaque seeded_state.

(** [s'] is [s] after a restart. *)
Record restored (s s' : ObjectService) : Prop := {
  rs_objects : os_objects s' = os_objects s;
  rs_revisions : os_revisions s' = os_revisions s;
  rs_members : members (os_relationships s') = members (os_relationships s);
  rs_generation : os_generation s' = os_generation s;
  rs_capabilities : os_capabilities s' = os_capabilities seeded_state;
  rs_quotas : os_quotas s' = os_quotas seeded_state;
  rs_ticks : os_next_timestamp s' = os_next_timestamp seeded_state;
  rs_note : above_notes (objects (os_objects s)) MAX_DYNAMIC_OBJECTS (os_next_note_id s');
}.

Lemma from_snapshot_spec s v :
  vault_ok v -> service_vault s v ->
  wp (from_snapshot (saved_snapshot s))
    (fun s' => restored s s' /\ service_vault s' (vault_restart v)) (fun _ => False).
Proof.
  intros Hv Hs. unfold from_snapshot. rewrite new_seeded_ok, ok_bind. act_step. apply wp_run.
  unfold apply_snapshot_preserving_runtime_authority. do 2 act_step.
  rewrite (restore_objects_spec s (sv_parts s v Hs)). apply wp_ok. do 4 act_step.
  eapply wp_mono; [by apply (restore_relationships_spec s v)| |done]. intros r [Hr Hm].
  do 4 act_step. simpl snap_current. simpl snap_prior.
  rewrite (restore_history_id (os_revisions s)) by apply Hs. apply wp_ok. do 6 act_step.
  eapply wp_mono; [by apply (next_note_spec s), Hs| |done]. intros next Hnext. repeat act_step.
  split; [split; [reflexivity|reflexivity|exact Hm|reflexivity..|exact Hnext]|].
  pose proof Hnext as [Hrange _]. pose proof seeded_parts_ok as Hseed.
  assert (dom (known r) = workspace_roots ∪ dom (v_current v)) as Hknown.
  { rewrite (rb_known _ _ _ _ Hr). f_equal. etrans; [by eapply keys_all|]. by eapply stored_current. }
  destruct Hs as [Hp Ho Hk Hmm Hc Hpr Hh]. split; simpl.
  - split; simpl; [apply Hp|apply Hp|apply Hp|apply Hr|apply Hr|apply Hr|apply Hp|apply Hp|apply Hp|
      apply (po_quotas _ Hseed)|apply (po_shell _ Hseed)|apply (po_ticks _ Hseed)|].
    unfold FIRST_SHELL_NOTE_ID, KNOWN_EXTERNAL_NOTE_ID, uint in *. lia.
  - exact Ho.
  - exact Hknown.
  - by rewrite Hm.
  - exact Hc.
  - exact Hpr.
  - apply seeded_handles_represented.
Qed.
