(* ===== verification/ObjectServiceSafety.v ===== *)
(** * Histories of the object service

    The calls of [core/src/object_service.rs] in any order, with restarts from
    a snapshot in between, starting from the seeded service. *)

From stdpp Require Import base numbers list gmap relations.
From Stdlib Require Import Strings.Byte.
From S2P Require Import Prelude ByteRegions TigRuntime Kernel SlotTable ServiceIdentity Capabilities BlockAllocator UserCopy ObjectFormat ObjectFormatFacts ObjectStore Relationships RevisionHistory StorageQuotas ObjectService ObjectVault ObjectServiceFacts ObjectServiceRefines ObjectSeed ObjectSnapshot.

(** ** Steps *)

Inductive service_op : Type :=
| OpCreate (caller : ActiveUserProcess) (workspace : PackedCapability) (kind : ObjectKind)
| OpCreateTask (caller : ActiveUserProcess) (object : TypedObjectRecord)
| OpCreatePackage (caller : ActiveUserProcess) (id : ObjectId)
| OpCreateSchema (caller : ActiveUserProcess) (id : ObjectId)
| OpCreateDefined (caller : ActiveUserProcess) (authority : PackedCapability) (input : PackageDefinedCreateInput)
| OpQuery (caller : ActiveUserProcess) (workspace : PackedCapability) (kind : ObjectKind)
| OpRevise (caller : ActiveUserProcess) (c : PackedCapability) (id : ObjectId) (field : Z) (value : list byte)
| OpReviseTask (caller : ActiveUserProcess) (object : TypedObjectRecord)
| OpGrantWorkspace (caller : ActiveUserProcess)
| OpBind (caller : ActiveUserProcess)
| OpPublish (g : Z).

Definition perform (op : service_op) : service_action unit :=
  match op with
  | OpCreate caller workspace kind => create_object caller workspace kind;; mret tt
  | OpCreateTask caller object => create_task_service_object caller object
  | OpCreatePackage caller id => create_package_object caller id;; mret tt
  | OpCreateSchema caller id => create_schema_definition_object caller id;; mret tt
  | OpCreateDefined caller authority input => create_package_defined_object caller authority input;; mret tt
  | OpQuery caller workspace kind => query_objects caller workspace kind;; mret tt
  | OpRevise caller c id field value => revise_field caller c id field value;; mret tt
  | OpReviseTask caller object => revise_task_service_object caller object;; mret tt
  | OpGrantWorkspace caller => grant_workspace_capability caller;; mret tt
  | OpBind caller => bind_shell_caller caller
  | OpPublish g => publish_candidate_generation g
  end.

(** The arguments are values of the machine types. *)
Definition op_wf (op : service_op) : Prop :=
  match op with
  | OpCreate caller _ _ | OpCreateDefined caller _ _ | OpQuery caller _ _ | OpGrantWorkspace caller
  | OpBind caller => uint 64 (process_service caller)
  | OpCreateTask caller object | OpReviseTask caller object =>
      uint 64 (process_service caller) /\ object_wf object
  | OpCreatePackage caller id | OpCreateSchema caller id => uint 64 (process_service caller) /\ uint 64 id
  | OpRevise caller _ _ field _ => uint 64 (process_service caller) /\ uint 16 field
  | OpPublish g => uint 64 g
  end.

Inductive service_step : ObjectService -> ObjectService -> Prop :=
| step_call op r s s' : op_wf op -> perform op s = (r, s') -> service_step s s'
| step_restart snap s s' : encode_snapshot s = Ok snap -> from_snapshot snap = Ok s' -> service_step s s'.

Definition service_reachable (s : ObjectService) : Prop :=
  exists s0, new_seeded = Ok s0 /\ rtc service_step s0 s.

(** ** Every call returns and is a sequence of vault steps *)

Lemma wpA_discard {A} (m : service_action A) s (P : ObjectService -> Prop) :
  wpA m s (fun _ s' => P s') (fun _ s' => P s') -> wpA (m;; mret tt) s (fun _ s' => P s') (fun _ s' => P s').
Proof. intros Hm. by act_step. Qed.

Lemma perform_reaches v s op :
  vault_ok v -> service_vault s v -> op_wf op ->
  wpA (perform op) s (fun _ s' => reaches v s') (fun _ s' => reaches v s').
Proof.
  intros Hv Hs Hop. assert (reaches v s) as Hstay by auto with vault.
  assert (forall s', s' = s -> reaches v s') as Hsame by by intros ? ->.
  destruct op; simpl in *; destruct_and?; try apply wpA_discard.
  - eapply wpA_mono; [by apply (create_object_spec v Hv)| |].
    + intros r s' (_ & _ & _ & _ & Hst & v' & Hst' & H' & _). exists v'. split; [by eapply rtc_l|done].
    + intros e s' [H'|(_ & _ & Hst & H')]; [by apply reaches_refl|]. by eapply reaches_step; [|apply reaches_refl].
  - by apply (create_task_spec v Hv).
  - eapply wpA_mono; [apply (create_internal_spec v Hv); [done|done|by apply new_object_wf]|done|auto].
  - eapply wpA_mono; [apply (create_internal_spec v Hv); [done|done|by apply new_object_wf]|done|auto].
  - eapply wpA_mono; [by apply (create_defined_spec v Hv)|done|auto].
  - eapply wpA_mono; [by apply (query_objects_spec v)| |done]. intros r s' (v' & Hst & H' & _). by exists v'.
  - eapply wpA_mono; [by apply (revise_field_spec v Hv)| |auto].
    intros n s' (old & o & _ & _ & _ & _ & _ & Hst & H'). by eapply reaches_step; [|apply reaches_refl].
  - eapply wpA_mono; [by apply (revise_task_spec v Hv)|done|auto].
  - eapply wpA_mono; [by apply (grant_workspace_spec v)|by intros ? ? [? _]|]. intros e s' H'. by apply reaches_refl.
  - unfold bind_shell_caller. do 2 act_step. act_step; [|done]. intros _. act_step. apply reaches_refl.
    destruct Hs as [[] ? ? ? ? ? ?]. split; done.
  - apply wpA_update, reaches_refl. destruct Hs as [[] ? ? ? ? ? ?]. split; done.
Qed.

(** ** Reachable states *)

(** A step of the vault, or a restart. *)
Inductive vault_move : vault -> vault -> Prop :=
| move_step v v' : vault_step v v' -> vault_move v v'
| move_restart v : vault_move v (vault_restart v).

Lemma vault_move_ok v v' : vault_move v v' -> vault_ok v -> vault_ok v'.
Proof. destruct 1; eauto using vault_step_ok, vault_restart_ok. Qed.

Lemma vault_move_retains v v' : vault_ok v -> vault_move v v' -> retains v v'.
Proof.
  intros Hv. destruct 1 as [v v' Hst|v]; [by apply vault_step_retains|].
  pose proof (retains_refl v) as []. by split.
Qed.

Lemma external_move v v' id :
  vault_ok v -> v_home v !! id = Some EXTERNAL_WORKSPACE_OBJECT_ID -> vault_move v v' ->
  v_current v' !! id = v_current v !! id.
Proof. intros Hv He. destruct 1; [by apply external_step|done]. Qed.

Lemma vault_moves_facts v v' :
  vault_ok v -> rtc vault_move v v' ->
  vault_ok v' /\ retains v v' /\
  forall id, v_home v !! id = Some EXTERNAL_WORKSPACE_OBJECT_ID -> v_current v' !! id = v_current v !! id.
Proof.
  intros Hv Hs. revert Hv. induction Hs as [v|v v1 v2 Hm _ IH]; intros Hv; [done|].
  pose proof (vault_move_retains v v1 Hv Hm) as Hr.
  destruct (IH (vault_move_ok v v1 Hm Hv)) as (Hok & Hr2 & He2). split_and!; [done|by etrans|].
  intros id He. rewrite He2 by by apply (rt_home _ _ Hr). by apply external_move.
Qed.

Lemma service_step_moves v s s' :
  vault_ok v -> service_vault s v -> service_step s s' ->
  exists v', rtc vault_move v v' /\ service_vault s' v'.
Proof.
  intros Hv Hs. destruct 1 as [op r s s' Hop Hrun|snap s s' Henc Hfrom].
  - pose proof (perform_reaches v s op Hv Hs Hop) as Hw. unfold wpA in Hw. rewrite Hrun in Hw.
    assert (reaches v s') as (v' & Hst & H') by by destruct r. exists v'. split; [|done].
    eapply rtc_subrel; [|exact Hst]. by constructor.
  - rewrite (encode_snapshot_spec s (sv_parts s v Hs)) in Henc. injection Henc as <-.
    pose proof (from_snapshot_spec s v Hv Hs) as Hw. rewrite Hfrom in Hw. destruct Hw as [_ H'].
    exists (vault_restart v). split; [apply rtc_once, move_restart|done].
Qed.

Lemma service_steps_moves v s s' :
  vault_ok v -> service_vault s v -> rtc service_step s s' ->
  exists v', rtc vault_move v v' /\ service_vault s' v'.
Proof.
  intros Hv Hs Hst. revert v Hv Hs. induction Hst as [s|s s1 s2 Hst _ IH]; intros v Hv Hs.
  - by exists v.
  - destruct (service_step_moves v s s1 Hv Hs Hst) as (v1 & Hm1 & H1).
    destruct (IH v1) as (v2 & Hm2 & H2); [by apply (vault_moves_facts v)|done|].
    exists v2. split; [by etrans|done].
Qed.

Lemma ok_inj {E A} (a b : A) : (Ok a : outcome E A) = Ok b -> a = b.
Proof. by injection 1. Qed.

#[local] Opaque seeded_state.

Lemma reachable_vault s :
  service_reachable s -> exists v, rtc vault_move seeded_vault v /\ vault_ok v /\ service_vault s v.
Proof.
  intros (s0 & Hseed & Hst). rewrite new_seeded_ok in Hseed. apply ok_inj in Hseed as <-.
  destruct (service_steps_moves seeded_vault seeded_state s) as (v & Hm & Hs);
    [apply seeded_vault_ok|apply seeded_service_vault|done|].
  exists v. split_and!; [done| |done]. by apply (vault_moves_facts seeded_vault v seeded_vault_ok).
Qed.

(** ** Reads of a reachable state *)

Lemma nodup_key {A B} (f : A -> B) (l : list A) x y :
  NoDup (f <$> l) -> x ∈ l -> y ∈ l -> f x = f y -> x = y.
Proof.
  intros Hnd [i Hx]%list_elem_of_lookup [j Hy]%list_elem_of_lookup Hf.
  assert (i = j) as ->; [|congruence]. eapply NoDup_lookup; [done|..]; rewrite list_lookup_fmap.
  - by rewrite Hx.
  - rewrite Hy. simpl. by rewrite Hf.
Qed.

Section reads.
Context (v : vault) (Hv : vault_ok v) (s : ObjectService) (Hs : service_vault s v).

Lemma prior_revision_vault id n r :
  prior_revision (os_revisions s) id n = Some r <->
  r ∈ v_prior v /\ rev_object_id r = id /\ rev_revision r = n.
Proof.
  unfold prior_revision.
  assert (forall x, Some x ∈ revisions (os_revisions s) <-> x ∈ v_prior v) as Hin.
  { intros x. by rewrite (sv_prior s v Hs), elem_of_entries. }
  destruct (find _ _) as [o|] eqn:Hf; simpl.
  - apply find_Some in Hf as [Hin' Hk]. destruct o as [x|]; [|done]. simpl in Hk.
    apply andb_true_iff in Hk as [Hi%Z.eqb_eq Hn%Z.eqb_eq]. apply Hin in Hin' as Hx.
    split; [intros [= <-]; done|]. intros (Hr & Hri & Hrn). f_equal.
    eapply (nodup_key (fun r => (rev_object_id r, rev_revision r)) (v_prior v)); [apply Hv|done|done|].
    simpl. congruence.
  - split; [done|]. intros (Hr & Hi & Hn). apply Hin in Hr. pose proof (find_None _ _ Hf _ Hr) as H.
    simpl in H. rewrite Hi, Hn, !Z.eqb_refl in H. done.
Qed.

Lemma inspect_vault caller c (id : Z) m :
  live (v_handles v) !! unpack_capability c = Some (Authority (process_service caller) id m) ->
  contains m RIGHT_READ = true ->
  inspect_object s caller c id =
    match v_current v !! id with
    | Some x => Ok {| inspected_object := cur_object x; inspected_revision := cur_revision x |}
    | None => Err NotFound
    end.
Proof.
  intros Hl Hm. unfold inspect_object, validate_object, validate_capability_resource.
  rewrite (proj2 (validate_exact _ _ _ _ _ _ (sv_handles s v Hs))) by eauto.
  rewrite (current_revision_vault v) by done. cbn [map_err]. rewrite ok_bind. by destruct (v_current v !! id).
Qed.

(** Without a capability for the object a caller learns nothing. *)
Lemma denied_vault caller c (id : Z) m :
  (forall a, live (v_handles v) !! unpack_capability c = Some a -> auth_resource a <> id) ->
  validate_capability_resource s caller c id m = Err Denied.
Proof.
  intros Hno. pose proof (validate_vault v s caller c id m Hs) as Hw.
  destruct (validate_capability_resource _ _ _ _ _) as [[]|e| |]; simpl in Hw; [|by subst|done..].
  destruct Hw as (r & Hl & _). by destruct (Hno _ Hl).
Qed.
End reads.

(** ** What callers rely on *)

(** C11: Every call of the object service, from any state that calls and
    restarts can lead to, returns: it never panics. The service stands for a
    vault, and the call takes the vault through a sequence of its steps:
    create a fresh object, revise one under a capability that allows writing,
    issue a capability. An error is no exception, so no call can leave an
    object in one store and not in the others. *)
Theorem object_calls_refine_vault s op :
  service_reachable s -> op_wf op ->
  exists r s' v v', perform op s = (r, s') /\ (r = Ok tt \/ exists e, r = Err e) /\
    vault_ok v /\ service_vault s v /\ rtc vault_step v v' /\ service_vault s' v'.
Proof.
  intros (v & _ & Hv & Hs)%reachable_vault Hop.
  destruct (wpA_run _ _ _ _ (perform_reaches v s op Hv Hs Hop)) as
    [([] & s' & Hrun & v' & Hst & H')|(e & s' & Hrun & v' & Hst & H')].
  - exists (Ok tt), s', v, v'. split_and!; auto.
  - exists (Err e), s', v, v'. split_and!; eauto.
Qed.

(** C21: The note of the external workspace is sealed: whatever the callers
    did before, restarts included, nobody can inspect it, read its history or
    revise it with any capability, and it is still in its first revision. *)
Theorem external_note_sealed s caller c field value :
  service_reachable s ->
  inspect_object s caller c KNOWN_EXTERNAL_NOTE_ID = Err Denied /\
  history s caller c KNOWN_EXTERNAL_NOTE_ID = Err Denied /\
  revise_field caller c KNOWN_EXTERNAL_NOTE_ID field value s = (Err Denied, s) /\
  current_revision (os_revisions s) KNOWN_EXTERNAL_NOTE_ID = Some (as_revision secret_revision).
Proof.
  intros (v & Hm & Hv & Hs)%reachable_vault.
  destruct (vault_moves_facts seeded_vault v seeded_vault_ok Hm) as (_ & Hret & Hfrozen).
  assert (v_home seeded_vault !! KNOWN_EXTERNAL_NOTE_ID = Some EXTERNAL_WORKSPACE_OBJECT_ID) as He0.
  { simpl. apply lookup_singleton_eq. }
  assert (v_current v !! KNOWN_EXTERNAL_NOTE_ID = Some secret_revision) as Hc.
  { rewrite Hfrozen by done. simpl. apply lookup_singleton_eq. }
  assert (forall m, validate_capability_resource s caller c KNOWN_EXTERNAL_NOTE_ID m = Err Denied) as Hden.
  { intros m. apply (denied_vault v); [done|]. intros a Ha. eapply external_unreachable; [done| |done].
    by apply (rt_home _ _ Hret). }
  split_and!.
  - unfold inspect_object, validate_object. by rewrite Hden.
  - unfold history, validate_object. by rewrite Hden.
  - unfold revise_field, validate_object, mbind, action_bind, reads. by rewrite Hden.
  - by rewrite (current_revision_vault v), Hc.
Qed.

(** C22: Revisions are never lost: what was the current revision of an object
    is still current after any further calls and restarts, or is found as the
    prior revision of that number, and every number below the current
    revision is a retained one. *)
Theorem revisions_retained s s' id r :
  service_reachable s -> rtc service_step s s' ->
  current_revision (os_revisions s) id = Some r ->
  exists r', current_revision (os_revisions s') id = Some r' /\ rev_revision r <= rev_revision r' /\
    (r' = r \/ prior_revision (os_revisions s') id (rev_revision r) = Some r) /\
    forall n, 1 <= n < rev_revision r' -> is_Some (prior_revision (os_revisions s') id n).
Proof.
  intros (v & _ & Hv & Hs)%reachable_vault Hst Hr.
  destruct (service_steps_moves v s s' Hv Hs Hst) as (v' & Hm & Hs').
  destruct (vault_moves_facts v v' Hv Hm) as (Hv' & Hret & _).
  rewrite (current_revision_vault v) in Hr by done. apply fmap_Some in Hr as (c & Hc & ->).
  destruct (rt_current _ _ Hret id c Hc) as (c' & Hc' & _ & Hle & Hor).
  exists (as_revision c'). rewrite (current_revision_vault v'), Hc' by done. split_and!; [done|done|..].
  - destruct Hor as [->|[Hin _]]; [by left|right]. apply (prior_revision_vault v'); [done..|].
    split_and!; [done| |done]. by apply (vo_keys v Hv).
  - intros n Hn. destruct (vo_complete v' Hv' id c' n Hc' Hn) as (x & Hx & Hid & Hxn).
    exists x. by apply (prior_revision_vault v').
Qed.

Lemma object_rights_allow : contains OBJECT_RIGHTS RIGHT_READ = true /\ contains OBJECT_RIGHTS RIGHT_WRITE = true.
Proof. done. Qed.

(** [create_object] makes a note with an identity that no object had, in
    its first revision, and the capability it returns lets the caller inspect
    it; no other object changes. An error leaves every object as it was, with
    one exception: when only the capability table is full, the note stays
    behind without a capability for it. *)
Theorem create_then_inspect s caller workspace kind :
  service_reachable s -> uint 64 (process_service caller) ->
  let id := os_next_note_id s in
  match create_object caller workspace kind s with
  | (Ok r, s') =>
      kind = Kind.Note /\ created_id r = id /\ current_revision (os_revisions s) id = None /\
      inspect_object s' caller (created_capability r) id =
        Ok {| inspected_object := new_object id Kind.Note 1; inspected_revision := created_revision r |} /\
      forall x, x <> id -> current_revision (os_revisions s') x = current_revision (os_revisions s) x
  | (Err e, s') =>
      forall x, current_revision (os_revisions s') x = current_revision (os_revisions s) x \/
        e = ServiceCapability TableFull /\ x = id /\ current_revision (os_revisions s) id = None
  | _ => False
  end.
Proof.
  intros (v & _ & Hv & Hs)%reachable_vault Hw id.
  pose proof (create_object_spec v Hv s caller workspace kind Hs Hw) as Hc. unfold wpA in Hc.
  assert (forall s' v', service_vault s' v' -> forall x, x <> id -> v_current v' = v_current (note_created v s caller) ->
    current_revision (os_revisions s') x = current_revision (os_revisions s) x) as Hothers.
  { intros s' v' Hs' x Hx Hcur. rewrite (current_revision_vault v'), (current_revision_vault v), Hcur by done.
    simpl. by rewrite lookup_insert_ne. }
  assert (v_current v !! id = None -> current_revision (os_revisions s) id = None) as Hnone.
  { intros Hn. by rewrite (current_revision_vault v), Hn. }
  destruct (create_object _ _ _ _) as [[r|e| |] s']; [| |done..].
  - destruct Hc as (-> & Hid & Hrev & Hn & _ & v' & _ & Hs' & Hcur & _ & Hl). rewrite Hid in Hl.
    split_and!; [done|done|by apply Hnone| |by intros x Hx; eapply Hothers].
    rewrite (inspect_vault v' s' Hs' caller _ id OBJECT_RIGHTS Hl) by apply object_rights_allow.
    rewrite Hcur, Hrev. simpl. by rewrite lookup_insert_eq.
  - intros x. destruct Hc as [Hs'|(-> & Hn & _ & Hs')].
    + left. by rewrite (current_revision_vault v), (current_revision_vault v).
    + destruct (decide (x = id)) as [->|Hx]; [right; auto|left]. by eapply Hothers.
Qed.

(** [revise_field] gives the object the next revision, with the given
    field as its only field, and keeps the old revision as a prior one; the
    caller needs a capability for the object that allows writing. No other
    object changes, and an error changes nothing at all. *)
Theorem revise_then_inspect s caller c id field value :
  service_reachable s -> uint 64 (process_service caller) -> uint 16 field ->
  match revise_field caller c id field value s with
  | (Ok n, s') => exists old new,
      validate_object s caller c id RIGHT_WRITE = Ok tt /\
      current_revision (os_revisions s) id = Some old /\ n = rev_revision old + 1 /\
      current_revision (os_revisions s') id = Some new /\ rev_revision new = n /\
      revised_object (rev_object new) id (object_kind (rev_object old)) field value /\
      store_object (os_objects s') id = Some (rev_object new) /\
      prior_revision (os_revisions s') id (rev_revision old) = Some old /\
      forall x, x <> id -> current_revision (os_revisions s') x = current_revision (os_revisions s) x
  | (Err e, s') => s' = s
  | _ => False
  end.
Proof.
  intros (v & _ & Hv & Hs)%reachable_vault Hw Hf.
  pose proof (revise_field_spec v Hv s caller c id field value Hs Hw Hf) as Hr. unfold wpA in Hr.
  destruct (revise_field _ _ _ _ _ _) as [[n|e| |] s'] eqn:Hrun; [|done..].
  destruct Hr as (old & object & Hold & -> & _ & _ & Hro & Hst & Hs'). pose proof Hro as (Hoi & _).
  pose proof (vault_step_ok _ _ Hst Hv) as Hv'.
  assert (validate_object s caller c id RIGHT_WRITE = Ok tt) as Hval.
  { unfold revise_field, mbind, action_bind, reads in Hrun.
    destruct (validate_object s caller c id RIGHT_WRITE) as [[]|e| |]; done. }
  set (new := {| cur_revision := cur_revision old + 1; cur_timestamp := os_next_timestamp s;
                 cur_writer := process_service caller; cur_object := object |}).
  assert (v_current (vault_revise old object (os_next_timestamp s) (process_service caller) v) !! id = Some new) as Hnew.
  { simpl. by rewrite Hoi, lookup_insert_eq. }
  exists (as_revision old), (as_revision new). split_and!; try done.
  - by rewrite (current_revision_vault v), Hold.
  - by rewrite (current_revision_vault _ _ id Hs'), Hnew.
  - unfold store_object. rewrite store_slot_spec by apply Hs'.
    rewrite <- (lookup_fmap slot_object), (sv_objects _ _ Hs'), lookup_fmap, Hnew. done.
  - apply (prior_revision_vault _ Hv' _ Hs'). split_and!; [by left| |done]. by apply (vo_keys v Hv).
  - intros x Hx. rewrite (current_revision_vault _ _ x Hs'), (current_revision_vault v) by done. simpl.
    by rewrite Hoi, lookup_insert_ne.
Qed.

(** C23: A snapshot of any reachable service restores it: taking it and
    starting from it both succeed, and the objects with their extents, the
    revisions, the workspaces and the generation are those of before. The
    capabilities and the quotas are those of a fresh start, and the next note
    gets an identity above those of the shell's notes. *)
Theorem snapshot_restores_service s :
  service_reachable s ->
  exists snap s', encode_snapshot s = Ok snap /\ from_snapshot snap = Ok s' /\ restored s s' /\
    forall id w, object_belongs_to_workspace s' id w = object_belongs_to_workspace s id w.
Proof.
  intros (v & _ & Hv & Hs)%reachable_vault. exists (saved_snapshot s).
  pose proof (from_snapshot_spec s v Hv Hs) as Hf.
  destruct (from_snapshot (saved_snapshot s)) as [s'|e| |]; simpl in Hf; [|done..]. destruct Hf as [Hr Hs'].
  exists s'. split_and!; [by apply (encode_snapshot_spec s), Hs|done|done|].
  intros id w. unfold object_belongs_to_workspace. rewrite !query_first_spec by (apply Hs || apply Hs').
  by rewrite (rs_members s s' Hr).
Qed.

(** The eight slots for prior revisions are never given back: once they
    are used up no object can be revised again, whatever is called and however
    often the service restarts. *)
Theorem revision_table_exhausts s s' caller c id field value :
  service_reachable s -> (forall o, o ∈ revisions (os_revisions s) -> is_Some o) ->
  rtc service_step s s' -> uint 64 (process_service caller) -> uint 16 field ->
  exists e, revise_field caller c id field value s' = (Err e, s').
Proof.
  intros (v & _ & Hv & Hs)%reachable_vault Hfull Hst Hw Hf.
  destruct (service_steps_moves v s s' Hv Hs Hst) as (v' & Hm & Hs').
  destruct (vault_moves_facts v v' Hv Hm) as (Hv' & Hret & _).
  assert (len (v_prior v) = MAX_REVISIONS) as Hlen.
  { rewrite <- (po_prior_len s (sv_parts s v Hs)). unfold len. rewrite (sv_prior s v Hs).
    pose proof (length_entries_le (revisions (os_revisions s))).
    destruct (decide (length (entries_of (revisions (os_revisions s))) < length (revisions (os_revisions s)))%nat)
      as [Hlt|]; [|lia]. apply length_entries_lt in Hlt. by destruct (Hfull _ Hlt). }
  pose proof (rt_length _ _ Hret) as Hge.
  destruct (wpA_run _ _ _ _ (revise_field_spec v' Hv' s' caller c id field value Hs' Hw Hf)) as
    [(n & s2 & _ & old & o & _ & _ & _ & Hlt & _)|(e & s2 & Hrun & ->)]; [lia|eauto].
Qed.

(** The objects that a query for [kind] selects: the first eight of that kind
    in the shell's workspace, in slot order. *)
Definition query_selection (s : ObjectService) (kind : ObjectKind) : list ObjectId :=
  slot_key <$> filter (fun r => object_kind (slot_object r) = kind /\
    object_belongs_to_workspace s (slot_key r) SHELL_WORKSPACE_OBJECT_ID = true)
    (entries_of (object_records (os_objects s))).

(** What a successful query grants. *)
Lemma query_answers v s caller workspace kind results s' :
  vault_ok v -> service_vault s v -> query_objects caller workspace kind s = (Ok results, s') ->
  exists v', vault_ok v' /\ service_vault s' v' /\ v_current v' = v_current v /\
    forall j id, get (query_selection s kind) j = Some id -> j < MAX_QUERY_RESULTS ->
      exists e, get results j = Some e /\ list_object_id e = id /\
        live (v_handles v') !! unpack_capability (list_capability e) = Some (Authority (process_service caller) id OBJECT_RIGHTS).
Proof.
  intros Hv Hs Hrun. pose proof (query_objects_spec v s caller workspace kind Hv Hs) as Hq.
  destruct (wpA_ok _ _ _ _ _ _ Hq Hrun) as (v' & Hst & Hs' & Hcur & Hl & Hans). exists v'.
  split; [clear -Hst Hv; induction Hst; eauto using vault_step_ok|]. split; [done|]. split; [done|].
  assert (query_selection s kind = selected v kind (object_records (os_objects s))) as ->.
  { unfold query_selection, selected. f_equal. apply list_filter_iff. intros r.
    rewrite (object_belongs_vault v) by done. by rewrite bool_decide_eq_true. }
  intros j id Hj Hlt. by apply (Hans j id Hj ltac:(lia)).
Qed.

(** A successful query answers with the first eight objects of the kind
    in the shell's workspace, and gives the caller a capability for each with
    which it can inspect the object: a caller that holds the workspace
    capability regains access to all of them. *)
Theorem query_regains_access s caller workspace kind results s' :
  service_reachable s -> query_objects caller workspace kind s = (Ok results, s') ->
  len results = MAX_QUERY_RESULTS /\
  forall j id, get (query_selection s kind) j = Some id -> j < MAX_QUERY_RESULTS ->
    exists e o, get results j = Some e /\ list_object_id e = id /\
      store_object (os_objects s) id = Some o /\
      inspect_object s' caller (list_capability e) id =
        Ok {| inspected_object := o; inspected_revision := from_option rev_revision 0 (current_revision (os_revisions s) id) |}.
Proof.
  intros (v & _ & Hv & Hs)%reachable_vault Hrun.
  destruct (query_answers v s caller workspace kind results s' Hv Hs Hrun) as (v' & Hv' & Hs' & Hcur & Hans).
  split; [by apply (wpA_ok _ _ _ _ _ _ (query_objects_spec v s caller workspace kind Hv Hs)) in Hrun as (? & _ & _ & _ & ? & _)|].
  intros j id Hj Hlt. destruct (Hans j id Hj Hlt) as (e & He & Hei & Hlive).
  apply get_elem_of, list_elem_of_fmap in Hj as (r & -> & [_ Hr]%list_elem_of_filter).
  assert (stored (os_objects s) !! slot_key r = Some r) as Hst'.
  { apply contents_Some; [apply Hs|]. split; [by apply elem_of_entries|done]. }
  pose proof (f_equal (lookup (slot_key r)) (sv_objects s v Hs)) as Hobj. rewrite !lookup_fmap, Hst' in Hobj.
  destruct (v_current v !! slot_key r) as [x|] eqn:Hx; [|done]. injection Hobj as Hobj.
  exists e, (slot_object r). split_and!; [done|done| |].
  - unfold store_object. rewrite store_slot_spec by apply Hs. by rewrite Hst'.
  - rewrite (inspect_vault v' s' Hs' caller _ (slot_key r) OBJECT_RIGHTS Hlive) by apply object_rights_allow.
    by rewrite Hcur, Hx, (current_revision_vault v), Hx, Hobj by done.
Qed.

(** ** The clock after a restart *)

(** A query only grants capabilities. *)
Definition same_history (s s' : ObjectService) : Prop :=
  os_next_timestamp s' = os_next_timestamp s /\ os_revisions s' = os_revisions s.

Lemma query_loop_history caller kind rs results n s r s' :
  query_loop caller kind rs results n s = (r, s') -> same_history s s'.
Proof.
  revert results n s. induction rs as [|[x|] rs IH]; intros results n s; cbn [query_loop].
  - by intros [= _ <-].
  - destruct (n <? MAX_QUERY_RESULTS); [|by intros [= _ <-]].
    unfold mbind at 1, action_bind at 1, reads at 1. destruct (bool_decide _ && _); [|apply IH].
    unfold grant_object_capability, on_capabilities, zoom, mbind, action_bind, pure.
    destruct (grant _ _ _ (os_capabilities s)) as [[h|e| |] t]; cbn [map_err]; try (by intros [= _ <-]).
    cbn. destruct (index_set results n _) as [res|e| |]; try (by intros [= _ <-]). intros [H1 H2]%IH. done.
  - destruct (n <? MAX_QUERY_RESULTS); [apply IH|by intros [= _ <-]].
Qed.

Lemma query_history caller workspace kind s r s' : query_objects caller workspace kind s = (r, s') -> same_history s s'.
Proof.
  unfold query_objects, mbind at 1, action_bind at 1, reads at 1.
  destruct (validate_workspace s caller workspace RIGHT_READ) as [u|e| |]; try (by intros [= _ <-]). apply query_loop_history.
Qed.

(** A holder of a write capability is refused for the timestamp alone. *)
Lemma stale_revision_refused v s caller c (id : Z) m old field value :
  vault_ok v -> service_vault s v ->
  live (v_handles v) !! unpack_capability c = Some (Authority (process_service caller) id m) -> contains m RIGHT_WRITE = true ->
  v_current v !! id = Some old -> os_next_timestamp s <= cur_timestamp old -> len (v_prior v) < MAX_REVISIONS ->
  uint 16 field -> len value <= FIELD_VALUE_CAPACITY ->
  revise_field caller c id field value s = (Err (ServiceRevision NonMonotonicTimestamp), s).
Proof.
  intros Hv Hs Hl Hm Hold Hle Hp Hf Hval.
  assert (wpA (revise_field caller c id field value) s (fun _ _ => False)
    (fun e s' => e = ServiceRevision NonMonotonicTimestamp /\ s' = s)) as Hw.
  { unfold revise_field. do 2 act_step. unfold validate_object, validate_capability_resource.
    rewrite (proj2 (validate_exact _ _ _ _ _ _ (sv_handles s v Hs))) by eauto. cbn [map_err]. apply wp_ok.
    do 2 act_step. rewrite (current_revision_vault v), Hold by done. cbn [fmap option_fmap option_map ok_or]. apply wp_ok.
    pose proof (vo_revision v Hv _ _ Hold) as Hr. pose proof (vo_keys v Hv _ _ Hold) as Hid. destruct (vo_wf v Hv _ _ Hold) as [Hwf _].
    change MAX_REVISIONS with 8 in Hp. cbn [as_revision rev_revision rev_object].
    do 2 act_step. unfold checked_add. rewrite checked_id by (unfold uint; lia). apply wp_ok.
    assert (uint 64 id) as Hu by (rewrite <- Hid; apply Hwf).
    pose proof (revised_record_spec id (object_kind (cur_object old)) (wrap 16 (cur_revision old + 1)) field value
      Hu Hf ltac:(by apply wrap_range)) as Hrec.
    do 2 act_step. destruct (map_err _ (new_field _ _ _)) as [f|e| |]; [rewrite ok_bind in Hrec|destruct Hrec; lia|by destruct Hrec..].
    apply wp_ok. do 2 act_step. destruct (map_err _ (push_field _ _)) as [o|e| |]; [|destruct Hrec; lia|by destruct Hrec..]. apply wp_ok.
    destruct Hrec as [_ (Hoi & _)]. eapply wpA_mono; [by apply (wpA_commit v Hv)| |]; rewrite Hoi, Hold.
    - intros n s' (c' & [= <-] & Ht & _). lia.
    - intros e s' (-> & [Hn|(c' & [= <-] & [[-> _]|[_ Hfull]])]); [done|done|]. change MAX_REVISIONS with 8 in Hfull. lia. }
  destruct (wpA_run _ _ _ _ Hw) as [(n & s' & _ & [])|(e & s' & Hrun & -> & ->)]. exact Hrun.
Qed.

(** C36: The clock of revisions starts again with a restart, at 2, while the
    timestamps of the objects are kept. After a restart a caller that queries
    with the workspace capability gets a capability for every object it finds,
    but with it no object whose current revision has a timestamp of 2 or more
    can be revised: although the value fits and the revision table has room,
    the call is refused with [NonMonotonicTimestamp] and changes nothing. *)
Theorem restart_blocks_revision s snap s' caller workspace kind results s2 j id r field value :
  service_reachable s -> encode_snapshot s = Ok snap -> from_snapshot snap = Ok s' ->
  query_objects caller workspace kind s' = (Ok results, s2) ->
  get (query_selection s' kind) j = Some id -> j < MAX_QUERY_RESULTS ->
  current_revision (os_revisions s) id = Some r -> 2 <= rev_timestamp r ->
  None ∈ revisions (os_revisions s) -> uint 16 field -> len value <= FIELD_VALUE_CAPACITY ->
  exists e, get results j = Some e /\ list_object_id e = id /\
    revise_field caller (list_capability e) id field value s2 = (Err (ServiceRevision NonMonotonicTimestamp), s2).
Proof.
  intros (v & _ & Hv & Hs)%reachable_vault Henc Hfrom Hq Hj Hlt Hr Hts Hfree Hf Hval.
  rewrite (encode_snapshot_spec s (sv_parts s v Hs)) in Henc. apply ok_inj in Henc as <-.
  pose proof (from_snapshot_spec s v Hv Hs) as Hsp. rewrite Hfrom in Hsp. destruct Hsp as [Hres Hs'].
  destruct (query_answers (vault_restart v) s' caller workspace kind results s2 (vault_restart_ok v Hv) Hs' Hq) as (v2 & Hv2 & Hs2 & Hcur & Hans).
  destruct (query_history _ _ _ _ _ _ Hq) as [Hclock Hrev]. rewrite (rs_ticks s s' Hres) in Hclock. rewrite (rs_revisions s s' Hres) in Hrev.
  destruct (Hans j id Hj Hlt) as (e & He & Hei & Hlive). exists e. split; [done|]. split; [done|].
  rewrite (current_revision_vault v) in Hr by done. apply fmap_Some in Hr as (old & Hold & ->). simpl in Hts.
  apply (stale_revision_refused v2 s2 caller _ id OBJECT_RIGHTS old); try done.
  - by rewrite Hcur.
  - rewrite Hclock. change (os_next_timestamp seeded_state) with 2. lia.
  - rewrite <- (po_prior_len s2 (sv_parts s2 v2 Hs2)). unfold len. rewrite (sv_prior s2 v2 Hs2), Hrev.
    apply length_entries_lt in Hfree. lia.
Qed.

(** ** Schema references *)

Lemma foldM_not_ok {E S A} (f : S -> A -> outcome E S) (l : list A) x s :
  x ∈ l -> (forall s s', f s x <> Ok s') -> forall s', foldM f s l <> Ok s'.
Proof.
  intros Hx Hf. revert s. induction l as [|y l IH]; intros s s'; [by apply elem_of_nil in Hx|].
  simpl. destruct (f s y) as [s1|e| |] eqn:Hy; simpl; try done.
  apply elem_of_cons in Hx as [->|Hx]; [by destruct (Hf _ _ Hy)|by apply IH].
Qed.

(** An object whose only field is another one has no schema reference. *)
Lemma no_schema_reference object id field value o :
  revised_object object id Kind.PackageDefinedObject field value -> field <> FIELD_PACKAGE_SCHEMA_REF_V0 ->
  package_schema_reference_for_object object <> Ok o.
Proof.
  intros (_ & Hk & Hn & f & Hf & Hid & _) Hne. unfold package_schema_reference_for_object.
  rewrite Hk, Hn. change (range 0 1) with [0]. cbn [foldM negb bool_decide].
  unfold schema_reference_round, field_at, index. rewrite Hn, Hf. cbn. rewrite Hid.
  by replace (field =? FIELD_PACKAGE_SCHEMA_REF_V0) with false by lia.
Qed.

(** C37: Revising a field of a package-defined object replaces all its fields,
    its schema reference among them; from then on the schema references of the
    service cannot be listed any more. *)
Theorem revision_drops_schema_reference s caller c id field value n s' r refs :
  service_reachable s -> uint 64 (process_service caller) -> uint 16 field ->
  current_revision (os_revisions s) id = Some r -> object_kind (rev_object r) = Kind.PackageDefinedObject ->
  field <> FIELD_PACKAGE_SCHEMA_REF_V0 ->
  revise_field caller c id field value s = (Ok n, s') ->
  package_defined_schema_references s' <> Ok refs.
Proof.
  intros (v & _ & Hv & Hs)%reachable_vault Hw Hf Hr Hk Hne Hrun.
  rewrite (current_revision_vault v) in Hr by done. apply fmap_Some in Hr as (old & Hold & ->). simpl in Hk.
  destruct (wpA_ok _ _ _ _ _ _ (revise_field_spec v Hv s caller c id field value Hs Hw Hf) Hrun) as
    (old' & object & Hold' & _ & _ & _ & Hro & _ & Hs'). simplify_eq. rewrite Hk in Hro.
  pose proof Hro as (Hoi & _).
  pose proof (f_equal (lookup id) (sv_objects _ _ Hs')) as Hobj. simpl in Hobj.
  rewrite !lookup_fmap, Hoi, lookup_insert_eq in Hobj. simpl in Hobj.
  apply fmap_Some in Hobj as (x & Hx & ->). apply contents_Some in Hx as [Hin _]; [|apply Hs'].
  unfold package_defined_schema_references. intros Hrefs.
  destruct (foldM collect_reference _ _) as [st|e| |] eqn:Hfold; try done.
  apply (foldM_not_ok collect_reference _ (Some x) _ Hin) in Hfold; [done|].
  intros [refs' m] st'. simpl. destruct (package_schema_reference_for_object _) as [o|e| |] eqn:Ho; try done.
  by apply (no_schema_reference _ _ _ _ o Hro Hne) in Ho.
Qed.
