(* ===== verification/ObjectCheckpoint.v ===== *)
(** * Checkpoints of the object service

    [core/src/object_service_checkpoint.rs]: a snapshot of the object service
    is encoded into a slot image of 26 sectors and written to one of two slots
    of the block device, alternating by generation; recovery takes the
    committed slot with the highest generation. Candidate slots hold
    checkpoints that are named by their SHA-256 digest. The scratch images and
    snapshots of the source are buffers that every operation fills before it
    reads them, so they are values here. *)

From stdpp Require Import base numbers list.
From Stdlib Require Import Strings.Byte.
From S2P Require Import Prelude ByteRegions Fnv Sha256 Kernel ServiceIdentity ObjectFormat ObjectStore RevisionHistory ObjectService.

(** ** Layout *)

Definition SECTOR_SIZE : Z := 512.
Definition OBJECT_SERVICE_SLOT_A_HEADER_SECTOR : Z := 192.
Definition OBJECT_SERVICE_SLOT_A_OBJECT_TABLE_SECTOR : Z := 193.
Definition OBJECT_SERVICE_SLOT_A_RELATIONSHIP_TABLE_SECTOR : Z := 201.
Definition OBJECT_SERVICE_SLOT_A_REVISION_TABLE_SECTOR : Z := 205.
Definition OBJECT_SERVICE_SLOT_A_COMMIT_SECTOR : Z := 217.
Definition OBJECT_SERVICE_SLOT_B_HEADER_SECTOR : Z := 224.
Definition OBJECT_SERVICE_SLOT_B_OBJECT_TABLE_SECTOR : Z := 225.
Definition OBJECT_SERVICE_SLOT_B_RELATIONSHIP_TABLE_SECTOR : Z := 233.
Definition OBJECT_SERVICE_SLOT_B_REVISION_TABLE_SECTOR : Z := 237.
Definition OBJECT_SERVICE_SLOT_B_COMMIT_SECTOR : Z := 249.
Definition OBJECT_SERVICE_TORN_SECTOR : Z := 250.
Definition OBJECT_SERVICE_OBJECT_TABLE_SECTORS : Z := 8.
Definition OBJECT_SERVICE_RELATIONSHIP_TABLE_SECTORS : Z := 4.
Definition OBJECT_SERVICE_REVISION_TABLE_SECTORS : Z := 12.
Definition PACKAGE_CONTENT_BASE_SECTOR : Z := 256.
Definition PACKAGE_CONTENT_MAX_BLOCKS : Z := 8192.

Definition HEADER_IMAGE_INDEX : Z := 0.
Definition OBJECT_IMAGE_INDEX : Z := 1.
Definition RELATIONSHIP_IMAGE_INDEX : Z := OBJECT_IMAGE_INDEX + OBJECT_SERVICE_OBJECT_TABLE_SECTORS.
Definition REVISION_IMAGE_INDEX : Z := RELATIONSHIP_IMAGE_INDEX + OBJECT_SERVICE_RELATIONSHIP_TABLE_SECTORS.
Definition COMMIT_IMAGE_INDEX : Z := REVISION_IMAGE_INDEX + OBJECT_SERVICE_REVISION_TABLE_SECTORS.
Definition OBJECT_SERVICE_SLOT_SECTOR_COUNT : Z := COMMIT_IMAGE_INDEX + 1.

Definition OBJECT_SERVICE_CANDIDATE_BASE_SECTOR : Z := PACKAGE_CONTENT_BASE_SECTOR + PACKAGE_CONTENT_MAX_BLOCKS.
Definition OBJECT_SERVICE_CANDIDATE_SLOT_A_HEADER_SECTOR : Z := OBJECT_SERVICE_CANDIDATE_BASE_SECTOR.
Definition OBJECT_SERVICE_CANDIDATE_SLOT_A_OBJECT_TABLE_SECTOR : Z :=
  OBJECT_SERVICE_CANDIDATE_SLOT_A_HEADER_SECTOR + 1.
Definition OBJECT_SERVICE_CANDIDATE_SLOT_A_RELATIONSHIP_TABLE_SECTOR : Z :=
  OBJECT_SERVICE_CANDIDATE_SLOT_A_OBJECT_TABLE_SECTOR + OBJECT_SERVICE_OBJECT_TABLE_SECTORS.
Definition OBJECT_SERVICE_CANDIDATE_SLOT_A_REVISION_TABLE_SECTOR : Z :=
  OBJECT_SERVICE_CANDIDATE_SLOT_A_RELATIONSHIP_TABLE_SECTOR + OBJECT_SERVICE_RELATIONSHIP_TABLE_SECTORS.
Definition OBJECT_SERVICE_CANDIDATE_SLOT_A_COMMIT_SECTOR : Z :=
  OBJECT_SERVICE_CANDIDATE_SLOT_A_REVISION_TABLE_SECTOR + OBJECT_SERVICE_REVISION_TABLE_SECTORS.
Definition OBJECT_SERVICE_CANDIDATE_SLOT_B_HEADER_SECTOR : Z :=
  OBJECT_SERVICE_CANDIDATE_SLOT_A_HEADER_SECTOR + OBJECT_SERVICE_SLOT_SECTOR_COUNT.
Definition OBJECT_SERVICE_CANDIDATE_SLOT_B_OBJECT_TABLE_SECTOR : Z :=
  OBJECT_SERVICE_CANDIDATE_SLOT_B_HEADER_SECTOR + 1.
Definition OBJECT_SERVICE_CANDIDATE_SLOT_B_RELATIONSHIP_TABLE_SECTOR : Z :=
  OBJECT_SERVICE_CANDIDATE_SLOT_B_OBJECT_TABLE_SECTOR + OBJECT_SERVICE_OBJECT_TABLE_SECTORS.
Definition OBJECT_SERVICE_CANDIDATE_SLOT_B_REVISION_TABLE_SECTOR : Z :=
  OBJECT_SERVICE_CANDIDATE_SLOT_B_RELATIONSHIP_TABLE_SECTOR + OBJECT_SERVICE_RELATIONSHIP_TABLE_SECTORS.
Definition OBJECT_SERVICE_CANDIDATE_SLOT_B_COMMIT_SECTOR : Z :=
  OBJECT_SERVICE_CANDIDATE_SLOT_B_REVISION_TABLE_SECTOR + OBJECT_SERVICE_REVISION_TABLE_SECTORS.

(** [PY52OBJ1] and [PY52DONE] *)
Definition CHECKPOINT_MAGIC : list byte := [x50; x59; x35; x32; x4f; x42; x4a; x31].
Definition COMMIT_MAGIC : list byte := [x50; x59; x35; x32; x44; x4f; x4e; x45].
Definition CHECKPOINT_VERSION : Z := 1.
Definition ACTIVE_RECORD : Z := 1.
Definition HEADER_CHECKSUM_OFFSET : Z := 64.
Definition OBJECT_RECORD_SIZE : Z := 152.
Definition RELATIONSHIP_RECORD_SIZE : Z := 24.
Definition REVISION_RECORD_SIZE : Z := 160.

(** ** Data *)

Inductive BlockDeviceError : Type :=
| DeviceAbsent
| InvalidBar
| CommandRejected
| PortRangeOverflow
| InvalidQueue
| DmaAddress
| RequestFailed
| Timeout.

Inductive GeneralStoragePersistenceError : Type :=
| PersistenceBlock (e : BlockDeviceError)
| PersistenceObjectFormat (e : ObjectFormatError)
| PersistenceBadSnapshot
| TornWrite.

Abbreviation PE := (outcome GeneralStoragePersistenceError).

(** The fields that [decode_slot_into] reads; the magic, the version and the
    reserved field are constants of a decoded header. *)
Record ObjectServiceCheckpointHeader := {
  header_slot : Z;
  header_object_count : Z;
  header_relationship_count : Z;
  header_revision_count : Z;
  header_generation : Z;
  header_object_table : Z;
  header_relationship_table : Z;
  header_revision_table : Z;
  header_commit : Z;
  header_checksum : Z;
}.

Record ObjectCheckpointIdentity := {
  identity_generation : Z;
  root_digest : list byte;
}.

#[export] Instance identity_eq_dec : EqDecision ObjectCheckpointIdentity.
Proof. solve_decision. Defined.

Record ObjectServiceCandidateCheckpoint := {
  candidate_identity : ObjectCheckpointIdentity;
  candidate_generation : Z;
}.

Definition empty_snapshot : ObjectServiceSnapshot :=
  {| snap_generation := 0; snap_bitmap := 0;
     snap_objects := replicate (Z.to_nat MAX_DYNAMIC_OBJECTS) None;
     snap_workspaces := replicate (Z.to_nat MAX_DYNAMIC_OBJECTS) None;
     snap_current := replicate (Z.to_nat MAX_DYNAMIC_OBJECTS) None;
     snap_prior := replicate (Z.to_nat MAX_REVISIONS) None |}.

Inductive CheckpointSlot : Type := SlotA | SlotB | CandidateA | CandidateB.

#[export] Instance checkpoint_slot_eq_dec : EqDecision CheckpointSlot.
Proof. solve_decision. Defined.

(** The sectors of an image. *)
Definition ObjectServiceSlotImage : Type := list (list byte).

Definition blank_sector : list byte := zeros SECTOR_SIZE.
Definition blank_image : ObjectServiceSlotImage :=
  replicate (Z.to_nat OBJECT_SERVICE_SLOT_SECTOR_COUNT) blank_sector.

Record SlotLayout := {
  object_table_sector : Z;
  relationship_table_sector : Z;
  revision_table_sector : Z;
  commit_sector : Z;
}.

Definition slot_layout (slot : CheckpointSlot) : SlotLayout :=
  match slot with
  | SlotA =>
      {| object_table_sector := OBJECT_SERVICE_SLOT_A_OBJECT_TABLE_SECTOR;
         relationship_table_sector := OBJECT_SERVICE_SLOT_A_RELATIONSHIP_TABLE_SECTOR;
         revision_table_sector := OBJECT_SERVICE_SLOT_A_REVISION_TABLE_SECTOR;
         commit_sector := OBJECT_SERVICE_SLOT_A_COMMIT_SECTOR |}
  | SlotB =>
      {| object_table_sector := OBJECT_SERVICE_SLOT_B_OBJECT_TABLE_SECTOR;
         relationship_table_sector := OBJECT_SERVICE_SLOT_B_RELATIONSHIP_TABLE_SECTOR;
         revision_table_sector := OBJECT_SERVICE_SLOT_B_REVISION_TABLE_SECTOR;
         commit_sector := OBJECT_SERVICE_SLOT_B_COMMIT_SECTOR |}
  | CandidateA =>
      {| object_table_sector := OBJECT_SERVICE_CANDIDATE_SLOT_A_OBJECT_TABLE_SECTOR;
         relationship_table_sector := OBJECT_SERVICE_CANDIDATE_SLOT_A_RELATIONSHIP_TABLE_SECTOR;
         revision_table_sector := OBJECT_SERVICE_CANDIDATE_SLOT_A_REVISION_TABLE_SECTOR;
         commit_sector := OBJECT_SERVICE_CANDIDATE_SLOT_A_COMMIT_SECTOR |}
  | CandidateB =>
      {| object_table_sector := OBJECT_SERVICE_CANDIDATE_SLOT_B_OBJECT_TABLE_SECTOR;
         relationship_table_sector := OBJECT_SERVICE_CANDIDATE_SLOT_B_RELATIONSHIP_TABLE_SECTOR;
         revision_table_sector := OBJECT_SERVICE_CANDIDATE_SLOT_B_REVISION_TABLE_SECTOR;
         commit_sector := OBJECT_SERVICE_CANDIDATE_SLOT_B_COMMIT_SECTOR |}
  end.

Definition slot_code (slot : CheckpointSlot) : Z :=
  match slot with SlotA => 0 | SlotB => 1 | CandidateA => 2 | CandidateB => 3 end.

Definition slot_from_code (code : Z) : PE CheckpointSlot :=
  if code =? 0 then Ok SlotA
  else if code =? 1 then Ok SlotB
  else if code =? 2 then Ok CandidateA
  else if code =? 3 then Ok CandidateB
  else Err PersistenceBadSnapshot.

Definition slot_for_generation (generation : Z) : CheckpointSlot :=
  if generation mod 2 =? 1 then SlotA else SlotB.

Definition candidate_slot_for_generation (generation : Z) : CheckpointSlot :=
  if generation mod 2 =? 1 then CandidateA else CandidateB.

Definition is_candidate_slot (slot : CheckpointSlot) : bool :=
  match slot with CandidateA | CandidateB => true | SlotA | SlotB => false end.

Definition slot_header_sector (slot : CheckpointSlot) : Z :=
  match slot with
  | SlotA => OBJECT_SERVICE_SLOT_A_HEADER_SECTOR
  | SlotB => OBJECT_SERVICE_SLOT_B_HEADER_SECTOR
  | CandidateA => OBJECT_SERVICE_CANDIDATE_SLOT_A_HEADER_SECTOR
  | CandidateB => OBJECT_SERVICE_CANDIDATE_SLOT_B_HEADER_SECTOR
  end.

Definition sector_for_image_index (slot : CheckpointSlot) (index : Z) : Z :=
  if index =? HEADER_IMAGE_INDEX then slot_header_sector slot
  else if (OBJECT_IMAGE_INDEX <=? index) && (index <? RELATIONSHIP_IMAGE_INDEX) then
    object_table_sector (slot_layout slot) + (index - OBJECT_IMAGE_INDEX)
  else if (RELATIONSHIP_IMAGE_INDEX <=? index) && (index <? REVISION_IMAGE_INDEX) then
    relationship_table_sector (slot_layout slot) + (index - RELATIONSHIP_IMAGE_INDEX)
  else if (REVISION_IMAGE_INDEX <=? index) && (index <? COMMIT_IMAGE_INDEX) then
    revision_table_sector (slot_layout slot) + (index - REVISION_IMAGE_INDEX)
  else if index =? COMMIT_IMAGE_INDEX then commit_sector (slot_layout slot)
  else OBJECT_SERVICE_TORN_SECTOR.

Definition count_options {A} (records : list (option A)) : Z :=
  len (filter (fun o => is_Some o) records).

(** ** Bytes of an image *)

Section bytes.
Context {E : Type}.

(** [image.sectors[sector][offset]], read and assigned. *)
Definition image_byte (image : ObjectServiceSlotImage) (sector offset : Z) : outcome E byte :=
  bytes ← index image sector;
  index bytes offset.

Definition image_set (image : ObjectServiceSlotImage) (sector offset : Z) (b : byte) :
    outcome E ObjectServiceSlotImage :=
  bytes ← index image sector;
  bytes ← index_set bytes offset b;
  index_set image sector bytes.

Definition table_write_round (first count offset : Z) (bytes : list byte)
    (image : ObjectServiceSlotImage) (i : Z) : outcome E ObjectServiceSlotImage :=
  let absolute := offset + i in
  if absolute <? count * SECTOR_SIZE then
    b ← index bytes i;
    image_set image (first + absolute / SECTOR_SIZE) (absolute mod SECTOR_SIZE) b
  else Ok image.

Definition table_write_bytes (image : ObjectServiceSlotImage) (first count offset : Z)
    (bytes : list byte) : outcome E ObjectServiceSlotImage :=
  foldM (table_write_round first count offset bytes) image (range 0 (len bytes)).

Definition table_write_u16 image first count offset (value : Z) : outcome E ObjectServiceSlotImage :=
  table_write_bytes image first count offset (le_bytes 2 value).

Definition table_write_u64 image first count offset (value : Z) : outcome E ObjectServiceSlotImage :=
  table_write_bytes image first count offset (le_bytes 8 value).

Definition table_read_round (image : ObjectServiceSlotImage) (first offset : Z)
    (bytes : list byte) (i : Z) : outcome E (list byte) :=
  let absolute := offset + i in
  b ← image_byte image (first + absolute / SECTOR_SIZE) (absolute mod SECTOR_SIZE);
  index_set bytes i b.

Definition table_read_bytes (n : Z) (image : ObjectServiceSlotImage) (first offset : Z) :
    outcome E (list byte) :=
  foldM (table_read_round image first offset) (zeros n) (range 0 n).

Definition table_read_u16 image first offset : outcome E Z :=
  le_val <$> table_read_bytes 2 image first offset.

Definition table_read_u64 image first offset : outcome E Z :=
  le_val <$> table_read_bytes 8 image first offset.

(** The accesses to one sector. *)
Definition sector_write_u16 (bytes : list byte) (offset value : Z) : outcome E (list byte) :=
  copy_into bytes offset (le_bytes 2 value).

Definition sector_write_u64 (bytes : list byte) (offset value : Z) : outcome E (list byte) :=
  copy_into bytes offset (le_bytes 8 value).

Definition sector_read (n : Z) (bytes : list byte) (offset : Z) : outcome E (list byte) :=
  expect (get_range bytes offset (offset + n)).

Definition sector_read_u16 (bytes : list byte) (offset : Z) : outcome E Z :=
  le_val <$> sector_read 2 bytes offset.

Definition sector_read_u64 (bytes : list byte) (offset : Z) : outcome E Z :=
  le_val <$> sector_read 8 bytes offset.

(** One round of the loops in [checksum_image]. *)
Definition checksum_byte (sector : Z) (bytes : list byte) (checksum i : Z) : outcome E Z :=
  if (sector =? HEADER_IMAGE_INDEX) &&
     ((HEADER_CHECKSUM_OFFSET <=? i) && (i <? HEADER_CHECKSUM_OFFSET + 8))
  then Ok checksum
  else b ← index bytes i; Ok (fnv_round 64 0x100000001B3 checksum (byte_val b)).

Definition checksum_sector (image : ObjectServiceSlotImage) (checksum sector : Z) : outcome E Z :=
  bytes ← index image sector;
  foldM (checksum_byte sector bytes) checksum (range 0 SECTOR_SIZE).

Definition checksum_image (image : ObjectServiceSlotImage) : outcome E Z :=
  foldM (checksum_sector image) 0xcbf29ce484222325 (range 0 COMMIT_IMAGE_INDEX).

(** The hasher takes the sectors one by one. *)
Definition slot_image_digest (image : ObjectServiceSlotImage) : outcome E (list byte) :=
  h ← foldM sha_update sha_new image;
  sha_finalize h.
End bytes.

(** ** Encoding *)

(** One round of [encode_objects]. *)
Definition encode_object_round (snapshot : ObjectServiceSnapshot) (image : ObjectServiceSlotImage) (i : Z) :
    PE ObjectServiceSlotImage :=
  o ← index (snap_objects snapshot) i;
  match o with
  | None => Ok image
  | Some record =>
      let offset := i * OBJECT_RECORD_SIZE in
      let first := OBJECT_IMAGE_INDEX in
      let count := OBJECT_SERVICE_OBJECT_TABLE_SECTORS in
      image ← table_write_u16 image first count offset ACTIVE_RECORD;
      image ← table_write_u64 image first count (offset + 8) (extent_start record);
      image ← table_write_u16 image first count (offset + 16) (extent_len record);
      bytes ← map_err PersistenceObjectFormat (encode_object (extent_object record));
      table_write_bytes image first count (offset + 24) bytes
  end.

Definition encode_objects (image : ObjectServiceSlotImage) (snapshot : ObjectServiceSnapshot) :
    PE ObjectServiceSlotImage :=
  foldM (encode_object_round snapshot) image (range 0 MAX_DYNAMIC_OBJECTS).

(** One round of [encode_relationships]. *)
Definition encode_relationship_round (snapshot : ObjectServiceSnapshot) (image : ObjectServiceSlotImage) (i : Z) :
    PE ObjectServiceSlotImage :=
  o ← index (snap_workspaces snapshot) i;
  match o with
  | None => Ok image
  | Some record =>
      let offset := i * RELATIONSHIP_RECORD_SIZE in
      let first := RELATIONSHIP_IMAGE_INDEX in
      let count := OBJECT_SERVICE_RELATIONSHIP_TABLE_SECTORS in
      image ← table_write_u16 image first count offset ACTIVE_RECORD;
      image ← table_write_u64 image first count (offset + 8) (workspace_object_id record);
      table_write_u64 image first count (offset + 16) (workspace_id record)
  end.

Definition encode_relationships (image : ObjectServiceSlotImage) (snapshot : ObjectServiceSnapshot) :
    PE ObjectServiceSlotImage :=
  foldM (encode_relationship_round snapshot) image (range 0 MAX_DYNAMIC_OBJECTS).

Definition encode_revision (image : ObjectServiceSlotImage) (i : Z) (record : RevisionRecord) :
    PE ObjectServiceSlotImage :=
  let offset := i * REVISION_RECORD_SIZE in
  let first := REVISION_IMAGE_INDEX in
  let count := OBJECT_SERVICE_REVISION_TABLE_SECTORS in
  image ← table_write_u16 image first count offset ACTIVE_RECORD;
  image ← table_write_u64 image first count (offset + 8) (rev_object_id record);
  image ← table_write_u64 image first count (offset + 16) (rev_revision record);
  image ← table_write_u64 image first count (offset + 24) (rev_timestamp record);
  image ← table_write_u64 image first count (offset + 32) (rev_writer record);
  bytes ← map_err PersistenceObjectFormat (encode_object (rev_object record));
  table_write_bytes image first count (offset + 40) bytes.

(** One round of the loops in [encode_revisions]; the records of [records]
    start at the slot [base]. *)
Definition encode_revision_round (base : Z) (records : list (option RevisionRecord))
    (image : ObjectServiceSlotImage) (i : Z) : PE ObjectServiceSlotImage :=
  o ← index records i;
  match o with
  | None => Ok image
  | Some record => encode_revision image (base + i) record
  end.

Definition encode_revisions (image : ObjectServiceSlotImage) (snapshot : ObjectServiceSnapshot) :
    PE ObjectServiceSlotImage :=
  image ← foldM (encode_revision_round 0 (snap_current snapshot)) image (range 0 MAX_DYNAMIC_OBJECTS);
  foldM (encode_revision_round MAX_DYNAMIC_OBJECTS (snap_prior snapshot)) image (range 0 MAX_REVISIONS).

Definition encode_header_sector (sector : list byte) (slot : CheckpointSlot)
    (snapshot : ObjectServiceSnapshot) (generation checksum : Z) : PE (list byte) :=
  let layout := slot_layout slot in
  sector ← copy_into sector 0 CHECKPOINT_MAGIC;
  sector ← sector_write_u16 sector 8 CHECKPOINT_VERSION;
  sector ← sector_write_u16 sector 10 (slot_code slot);
  sector ← sector_write_u16 sector 12 (wrap 16 (count_options (snap_objects snapshot)));
  sector ← sector_write_u16 sector 14 (wrap 16 (count_options (snap_workspaces snapshot)));
  sector ← sector_write_u16 sector 16
    (wrap 16 (count_options (snap_current snapshot) + count_options (snap_prior snapshot)));
  sector ← sector_write_u16 sector 18 0;
  sector ← sector_write_u64 sector 24 generation;
  sector ← sector_write_u64 sector 32 (object_table_sector layout);
  sector ← sector_write_u64 sector 40 (relationship_table_sector layout);
  sector ← sector_write_u64 sector 48 (revision_table_sector layout);
  sector ← sector_write_u64 sector 56 (commit_sector layout);
  sector ← sector_write_u64 sector HEADER_CHECKSUM_OFFSET checksum;
  sector_write_u64 sector 72 (snap_bitmap snapshot).

(** The sector is borrowed from the image and changed in place. *)
Definition encode_header (image : ObjectServiceSlotImage) (slot : CheckpointSlot)
    (snapshot : ObjectServiceSnapshot) (generation checksum : Z) : PE ObjectServiceSlotImage :=
  sector ← index image HEADER_IMAGE_INDEX;
  sector ← encode_header_sector sector slot snapshot generation checksum;
  index_set image HEADER_IMAGE_INDEX sector.

(** The commit marker, written when the image is committed. *)
Definition encode_commit (image : ObjectServiceSlotImage) (generation : Z) : PE ObjectServiceSlotImage :=
  sector ← index image COMMIT_IMAGE_INDEX;
  sector ← copy_into sector 0 COMMIT_MAGIC;
  sector ← sector_write_u64 sector 8 generation;
  index_set image COMMIT_IMAGE_INDEX sector.

Definition encode_slot_into_with_generation (slot : CheckpointSlot) (snapshot : ObjectServiceSnapshot)
    (generation : Z) (committed : bool) : PE ObjectServiceSlotImage :=
  image ← encode_objects blank_image snapshot;
  image ← encode_relationships image snapshot;
  image ← encode_revisions image snapshot;
  image ← encode_header image slot snapshot generation 0;
  checksum ← checksum_image image;
  image ← encode_header image slot snapshot generation checksum;
  if committed then encode_commit image generation else Ok image.

Definition encode_slot (slot : CheckpointSlot) (snapshot : ObjectServiceSnapshot) (committed : bool) :
    PE ObjectServiceSlotImage :=
  encode_slot_into_with_generation slot snapshot (snap_generation snapshot) committed.

(** ** Decoding *)

Definition decode_header (sector : list byte) : PE ObjectServiceCheckpointHeader :=
  magic ← sector_read 8 sector 0;
  version ← sector_read_u16 sector 8;
  reject (negb (bool_decide (magic = CHECKPOINT_MAGIC)) || negb (version =? CHECKPOINT_VERSION))
    PersistenceBadSnapshot;;
  reserved ← sector_read_u16 sector 18;
  reject (negb (reserved =? 0)) PersistenceBadSnapshot;;
  slot ← sector_read_u16 sector 10;
  objects ← sector_read_u16 sector 12;
  relationships ← sector_read_u16 sector 14;
  revisions ← sector_read_u16 sector 16;
  generation ← sector_read_u64 sector 24;
  object_table ← sector_read_u64 sector 32;
  relationship_table ← sector_read_u64 sector 40;
  revision_table ← sector_read_u64 sector 48;
  commit ← sector_read_u64 sector 56;
  checksum ← sector_read_u64 sector HEADER_CHECKSUM_OFFSET;
  Ok {| header_slot := slot; header_object_count := objects;
        header_relationship_count := relationships; header_revision_count := revisions;
        header_generation := generation; header_object_table := object_table;
        header_relationship_table := relationship_table; header_revision_table := revision_table;
        header_commit := commit; header_checksum := checksum |}.

(** The body of the loop in [decode_objects_into]: the new value of a slot. *)
Definition decode_extent_record (image : ObjectServiceSlotImage) (i : Z) : PE (option ObjectExtentRecord) :=
  let offset := i * OBJECT_RECORD_SIZE in
  active ← table_read_u16 image OBJECT_IMAGE_INDEX offset;
  if active =? ACTIVE_RECORD then
    bytes ← table_read_bytes RECORD_SIZE image OBJECT_IMAGE_INDEX (offset + 24);
    start ← table_read_u64 image OBJECT_IMAGE_INDEX (offset + 8);
    blocks ← table_read_u16 image OBJECT_IMAGE_INDEX (offset + 16);
    object ← map_err PersistenceObjectFormat (decode_object bytes);
    Ok (Some {| extent_start := start; extent_len := blocks; extent_object := object |})
  else if negb (active =? 0) then Err PersistenceBadSnapshot
  else Ok None.

(** The body of the loop in [decode_relationships_into]. *)
Definition decode_workspace_record (image : ObjectServiceSlotImage) (i : Z) :
    PE (option WorkspaceRelationshipRecord) :=
  let offset := i * RELATIONSHIP_RECORD_SIZE in
  active ← table_read_u16 image RELATIONSHIP_IMAGE_INDEX offset;
  if active =? ACTIVE_RECORD then
    object ← table_read_u64 image RELATIONSHIP_IMAGE_INDEX (offset + 8);
    workspace ← table_read_u64 image RELATIONSHIP_IMAGE_INDEX (offset + 16);
    Ok (Some {| workspace_object_id := object; workspace_id := workspace |})
  else if negb (active =? 0) then Err PersistenceBadSnapshot
  else Ok None.

Definition decode_revision (image : ObjectServiceSlotImage) (i : Z) : PE (option RevisionRecord) :=
  let offset := i * REVISION_RECORD_SIZE in
  active ← table_read_u16 image REVISION_IMAGE_INDEX offset;
  if active =? 0 then Ok None
  else
    reject (negb (active =? ACTIVE_RECORD)) PersistenceBadSnapshot;;
    bytes ← table_read_bytes RECORD_SIZE image REVISION_IMAGE_INDEX (offset + 40);
    id ← table_read_u64 image REVISION_IMAGE_INDEX (offset + 8);
    revision ← table_read_u64 image REVISION_IMAGE_INDEX (offset + 16);
    timestamp ← table_read_u64 image REVISION_IMAGE_INDEX (offset + 24);
    writer ← table_read_u64 image REVISION_IMAGE_INDEX (offset + 32);
    object ← map_err PersistenceObjectFormat (decode_object bytes);
    Ok (Some {| rev_object_id := id; rev_revision := revision; rev_timestamp := timestamp;
                rev_writer := writer; rev_object := object |}).

(** [array[i] = x] *)
Definition assign {E A} (i : Z) (x : A) : action (list A) E unit := fun l =>
  match index_set (E := E) l i x with Ok l' => (Ok tt, l') | _ => (Panic, l) end.

(** [for i in first..last { array[i] = None; array[i] = f(i)?; }] *)
Fixpoint assign_each {E A} (f : Z -> outcome E (option A)) (indices : list Z) : action (list (option A)) E unit :=
  match indices with
  | [] => mret tt
  | i :: rest =>
      assign i None;;
      o ← pure (f i);
      assign i o;;
      assign_each f rest
  end.

(** The arrays of a snapshot, borrowed one at a time. *)
Definition set_snap_objects l s :=
  {| snap_generation := snap_generation s; snap_bitmap := snap_bitmap s; snap_objects := l;
     snap_workspaces := snap_workspaces s; snap_current := snap_current s; snap_prior := snap_prior s |}.
Definition set_snap_workspaces l s :=
  {| snap_generation := snap_generation s; snap_bitmap := snap_bitmap s; snap_objects := snap_objects s;
     snap_workspaces := l; snap_current := snap_current s; snap_prior := snap_prior s |}.
Definition set_snap_current l s :=
  {| snap_generation := snap_generation s; snap_bitmap := snap_bitmap s; snap_objects := snap_objects s;
     snap_workspaces := snap_workspaces s; snap_current := l; snap_prior := snap_prior s |}.
Definition set_snap_prior l s :=
  {| snap_generation := snap_generation s; snap_bitmap := snap_bitmap s; snap_objects := snap_objects s;
     snap_workspaces := snap_workspaces s; snap_current := snap_current s; snap_prior := l |}.

Definition decode_objects_into (image : ObjectServiceSlotImage) :=
  assign_each (decode_extent_record image) (range 0 MAX_DYNAMIC_OBJECTS).
Definition decode_relationships_into (image : ObjectServiceSlotImage) :=
  assign_each (decode_workspace_record image) (range 0 MAX_DYNAMIC_OBJECTS).
Definition decode_current_revisions_into (image : ObjectServiceSlotImage) :=
  assign_each (decode_revision image) (range 0 MAX_DYNAMIC_OBJECTS).
Definition decode_prior_revisions_into (image : ObjectServiceSlotImage) :=
  assign_each (fun i => decode_revision image (MAX_DYNAMIC_OBJECTS + i)) (range 0 MAX_REVISIONS).

Definition set_snapshot_root (generation bitmap : Z) (s : ObjectServiceSnapshot) : ObjectServiceSnapshot :=
  {| snap_generation := generation; snap_bitmap := bitmap; snap_objects := snap_objects s;
     snap_workspaces := snap_workspaces s; snap_current := snap_current s; snap_prior := snap_prior s |}.

(** The checks of [decode_slot_into] before it changes the snapshot. *)
Definition decode_slot_header (image : ObjectServiceSlotImage) : PE ObjectServiceCheckpointHeader :=
  commit ← index image COMMIT_IMAGE_INDEX;
  magic ← sector_read 8 commit 0;
  reject (negb (bool_decide (magic = COMMIT_MAGIC))) TornWrite;;
  sector ← index image HEADER_IMAGE_INDEX;
  header ← decode_header sector;
  commit_generation ← sector_read_u64 commit 8;
  slot ← slot_from_code (header_slot header);
  let expected := slot_layout slot in
  checksum ← checksum_image image;
  reject (negb (header_generation header =? commit_generation) ||
          negb (header_object_table header =? object_table_sector expected) ||
          negb (header_relationship_table header =? relationship_table_sector expected) ||
          negb (header_revision_table header =? revision_table_sector expected) ||
          negb (header_commit header =? commit_sector expected) ||
          negb (header_checksum header =? checksum)) PersistenceBadSnapshot;;
  Ok header.

Definition decode_slot_into (image : ObjectServiceSlotImage) :
    action ObjectServiceSnapshot GeneralStoragePersistenceError unit :=
  header ← pure (decode_slot_header image);
  sector ← pure (index image HEADER_IMAGE_INDEX);
  bitmap ← pure (sector_read_u64 sector 72);
  update (set_snapshot_root (header_generation header) bitmap);;
  zoom snap_objects set_snap_objects id (decode_objects_into image);;
  zoom snap_workspaces set_snap_workspaces id (decode_relationships_into image);;
  zoom snap_current set_snap_current id (decode_current_revisions_into image);;
  zoom snap_prior set_snap_prior id (decode_prior_revisions_into image);;
  reads (fun s =>
    reject (negb (header_object_count header =? count_options (snap_objects s)) ||
            negb (header_relationship_count header =? count_options (snap_workspaces s)) ||
            negb (header_revision_count header =?
                    count_options (snap_current s) + count_options (snap_prior s)))
      PersistenceBadSnapshot).

Definition decode_slot (image : ObjectServiceSlotImage) : PE ObjectServiceSnapshot :=
  r ← run (decode_slot_into image) empty_snapshot;
  Ok r.2.

(** The slot that the header names. *)
Definition image_slot (image : ObjectServiceSlotImage) : PE CheckpointSlot :=
  sector ← index image HEADER_IMAGE_INDEX;
  code ← sector_read_u16 sector 10;
  slot_from_code code.

Definition decode_ordinary_slot (image : ObjectServiceSlotImage) : PE ObjectServiceSnapshot :=
  slot ← image_slot image;
  reject (is_candidate_slot slot) PersistenceBadSnapshot;;
  decode_slot image.

Definition slot_probe_is_committed (header commit : list byte) : PE bool :=
  magic ← sector_read 8 header 0;
  if negb (bool_decide (magic = CHECKPOINT_MAGIC)) then Ok false
  else
    mark ← sector_read 8 commit 0;
    if negb (bool_decide (mark = COMMIT_MAGIC)) then Ok false
    else
      a ← sector_read_u64 header 24;
      b ← sector_read_u64 commit 8;
      Ok (a =? b).

Definition select_highest_generation (first second : option ObjectServiceSnapshot) :
    option ObjectServiceSnapshot :=
  match first, second with
  | Some a, Some b => if snap_generation a <? snap_generation b then Some b else Some a
  | Some a, None => Some a
  | None, Some b => Some b
  | None, None => None
  end.

(** ** Identities *)

Definition object_checkpoint_identity_for_slot (slot : CheckpointSlot) (snapshot : ObjectServiceSnapshot) :
    PE ObjectCheckpointIdentity :=
  image ← encode_slot slot snapshot true;
  digest ← slot_image_digest image;
  Ok {| identity_generation := snap_generation snapshot; root_digest := digest |}.

Definition object_checkpoint_identity (snapshot : ObjectServiceSnapshot) : PE ObjectCheckpointIdentity :=
  object_checkpoint_identity_for_slot (slot_for_generation (snap_generation snapshot)) snapshot.

Definition object_candidate_checkpoint_identity (snapshot : ObjectServiceSnapshot) : PE ObjectCheckpointIdentity :=
  object_checkpoint_identity_for_slot (candidate_slot_for_generation (snap_generation snapshot)) snapshot.

Definition object_candidate_checkpoint_identity_from_image (image : ObjectServiceSlotImage) :
    PE ObjectCheckpointIdentity :=
  snapshot ← decode_slot image;
  slot ← image_slot image;
  reject (negb (is_candidate_slot slot)) PersistenceBadSnapshot;;
  digest ← slot_image_digest image;
  Ok {| identity_generation := snap_generation snapshot; root_digest := digest |}.

(** ** The block device

    [read_sector] and [write_sector] of [block_device.rs] drive the hardware.
    The model has the device as an interface: the bytes of every sector,
    whether the device can fail, and the two operations. *)

Class SectorDevice (D : Type) := {
  disk_bytes : D -> Z -> list byte;
  unreliable : Prop;
  read_sector : Z -> action D BlockDeviceError (list byte);
  write_sector : Z -> list byte -> action D BlockDeviceError unit;
}.

Arguments unreliable D {_}.

(** A write that was interrupted: every byte of the sector is old or new. *)
Definition torn (old new now : list byte) : Prop :=
  forall i, get now i = get old i \/ get now i = get new i.

(** What the checkpoints rely on. A read returns the sector and changes
    nothing; a write that succeeds replaces one sector, and a write that fails,
    or that the power failed during, may tear that sector and no other. *)
Class SectorDeviceLaws (D : Type) `{SectorDevice D} : Prop := {
  disk_bytes_len d n : len (disk_bytes d n) = SECTOR_SIZE;
  read_sector_law d n :
    wpA (read_sector n) d (fun bytes d' => bytes = disk_bytes d n /\ disk_bytes d' = disk_bytes d)
      (fun _ d' => unreliable D /\ disk_bytes d' = disk_bytes d);
  write_sector_law d n bytes :
    len bytes = SECTOR_SIZE ->
    wpA (write_sector n bytes) d
      (fun _ d' => disk_bytes d' n = bytes /\ forall m, m <> n -> disk_bytes d' m = disk_bytes d m)
      (fun _ d' => unreliable D /\ torn (disk_bytes d n) bytes (disk_bytes d' n) /\ forall m, m <> n -> disk_bytes d' m = disk_bytes d m);
}.

Section device.
Context {D : Type} `{SectorDevice D}.

Abbreviation device_action := (action D GeneralStoragePersistenceError).

(** [.map_err(GeneralStoragePersistenceError::from)] *)
Definition device_call {A} (m : action D BlockDeviceError A) : device_action A :=
  zoom id (fun d _ => d) PersistenceBlock m.

Definition read_checkpoint_sector (n : Z) : device_action (list byte) := device_call (read_sector n).
Definition write_checkpoint_sector (n : Z) (bytes : list byte) : device_action unit :=
  device_call (write_sector n bytes).

(** [for i in first..last { image.sectors[i] = read(i)?; }] *)
Fixpoint read_each (slot : CheckpointSlot) (indices : list Z) (image : ObjectServiceSlotImage) :
    device_action ObjectServiceSlotImage :=
  match indices with
  | [] => mret image
  | i :: rest =>
      bytes ← read_checkpoint_sector (sector_for_image_index slot i);
      image ← pure (index_set image i bytes);
      read_each slot rest image
  end.

Definition read_slot_image (slot : CheckpointSlot) : device_action ObjectServiceSlotImage :=
  read_each slot (range 0 OBJECT_SERVICE_SLOT_SECTOR_COUNT) blank_image.

(** [result.ok()], which lets a panic through. *)
Definition result_ok {E E' A} (m : outcome E A) : outcome E' (option A) :=
  match m with
  | Ok a => Ok (Some a)
  | Err _ => Ok None
  | Panic => Panic
  | Diverge => Diverge
  end.

Definition read_committed_slot_snapshot (slot : CheckpointSlot) : device_action (option ObjectServiceSnapshot) :=
  header ← read_checkpoint_sector (sector_for_image_index slot HEADER_IMAGE_INDEX);
  commit ← read_checkpoint_sector (sector_for_image_index slot COMMIT_IMAGE_INDEX);
  committed ← pure (slot_probe_is_committed header commit);
  if negb committed then mret None
  else
    image ← pure (index_set blank_image HEADER_IMAGE_INDEX header);
    image ← pure (index_set image COMMIT_IMAGE_INDEX commit);
    image ← read_each slot (range OBJECT_IMAGE_INDEX COMMIT_IMAGE_INDEX) image;
    pure (result_ok (decode_ordinary_slot image)).

Definition with_restored_object_service_checkpoint {R} (f : option ObjectServiceSnapshot -> R) : device_action R :=
  first ← read_committed_slot_snapshot SlotA;
  second ← read_committed_slot_snapshot SlotB;
  mret (f (select_highest_generation first second)).

(** The loop of [write_slot_image] over the tables. *)
Fixpoint write_each (slot : CheckpointSlot) (image : ObjectServiceSlotImage) (indices : list Z) :
    device_action unit :=
  match indices with
  | [] => mret tt
  | i :: rest =>
      bytes ← pure (index image i);
      write_checkpoint_sector (sector_for_image_index slot i) bytes;;
      write_each slot image rest
  end.

Definition write_slot_image (slot : CheckpointSlot) (image : ObjectServiceSlotImage) : device_action unit :=
  write_checkpoint_sector (sector_for_image_index slot COMMIT_IMAGE_INDEX) blank_sector;;
  write_each slot image (range OBJECT_IMAGE_INDEX COMMIT_IMAGE_INDEX);;
  header ← pure (index image HEADER_IMAGE_INDEX);
  write_checkpoint_sector (sector_for_image_index slot HEADER_IMAGE_INDEX) header;;
  commit ← pure (index image COMMIT_IMAGE_INDEX);
  write_checkpoint_sector (sector_for_image_index slot COMMIT_IMAGE_INDEX) commit.

(** [snapshot.map_or(1, |snapshot| snapshot.generation + 1)]; [None] is an overflow. *)
Definition next_generation (current : option ObjectServiceSnapshot) : option Z :=
  match current with
  | None => Some 1
  | Some s => checked_add 64 (snap_generation s) 1
  end.

Definition write_object_service_checkpoint (snapshot : ObjectServiceSnapshot) : device_action unit :=
  next ← with_restored_object_service_checkpoint next_generation;
  next ← pure (expect next);
  let slot := slot_for_generation next in
  image ← pure (encode_slot_into_with_generation slot snapshot next true);
  write_slot_image slot image;;
  written ← read_slot_image slot;
  pure (decode_slot written);;
  mret tt.

Definition write_object_service_candidate_checkpoint (snapshot : ObjectServiceSnapshot) :
    device_action ObjectServiceCandidateCheckpoint :=
  let slot := candidate_slot_for_generation (snap_generation snapshot) in
  image ← pure (encode_slot_into_with_generation slot snapshot (snap_generation snapshot) true);
  write_slot_image slot image;;
  written ← read_slot_image slot;
  identity ← pure (object_candidate_checkpoint_identity_from_image written);
  mret {| candidate_identity := identity; candidate_generation := identity_generation identity |}.

(** The snapshot is filled in place: the errors of the action leave it as it
    was, and the result has the outcome of the decoding with what it left. *)
Definition read_object_service_candidate_checkpoint_into (expected : ObjectCheckpointIdentity)
    (snapshot : ObjectServiceSnapshot) : device_action (PE unit * ObjectServiceSnapshot) :=
  image ← read_slot_image (candidate_slot_for_generation (identity_generation expected));
  slot ← pure (image_slot image);
  pure (reject (negb (is_candidate_slot slot)) PersistenceBadSnapshot);;
  mret (((decode_slot_into image : action ObjectServiceSnapshot GeneralStoragePersistenceError unit);;
         generation ← reads (fun s => Ok (snap_generation s));
         digest ← pure (slot_image_digest image);
         pure (reject (negb (bool_decide
           ({| identity_generation := generation; root_digest := digest |} = expected))) PersistenceBadSnapshot))
        snapshot).

Definition read_object_service_candidate_checkpoint (expected : ObjectCheckpointIdentity) :
    device_action ObjectServiceSnapshot :=
  r ← read_object_service_candidate_checkpoint_into expected empty_snapshot;
  pure (fst r);;
  mret (snd r).

(** ** The retained service

    [restore_or_initialize_in_place] of [object_service.rs], and the retained
    slot of [retained_services.rs] with its initialization and checkpoints. *)

Definition restore_or_initialize_in_place : action D ObjectServiceError ObjectService :=
  r ← zoom id (fun d _ => d) (fun _ => BadSnapshot) (with_restored_object_service_checkpoint
        (fun snapshot => match snapshot with Some snap => from_snapshot snap | None => new_seeded end));
  pure r.

(** The errors of the task service, which has no part here, are left out. *)
Inductive RetainedServiceError : Type :=
| ObjectServiceAlreadyInitialized
| ObjectServiceUnavailable
| RetainedObjectService (e : ObjectServiceError)
| RetainedPersistence (e : GeneralStoragePersistenceError)
| UnmeasuredStackContext.

(** [.map_err(RetainedServiceError::Persistence)] *)
Definition persistence_call {A} (m : device_action A) : action D RetainedServiceError A :=
  zoom id (fun d _ => d) RetainedPersistence m.

(** The initialized flag with the slot that it guards. *)
Definition with_object_service {R} (retained : option ObjectService) (f : ObjectService -> R) :
    outcome RetainedServiceError R :=
  match retained with Some service => Ok (f service) | None => Err ObjectServiceUnavailable end.

(** The device and the retained service; a failed restore clears the flag. *)
Definition initialize_object_service_from_device : action (D * option ObjectService) RetainedServiceError unit :=
  fun '(d, retained) =>
  match retained with
  | Some _ => (Err ObjectServiceAlreadyInitialized, (d, retained))
  | None =>
      match restore_or_initialize_in_place d with
      | (Ok service, d') => (Ok tt, (d', Some service))
      | (Err e, d') => (Err (RetainedObjectService e), (d', None))
      | (Panic, d') => (Panic, (d', None))
      | (Diverge, d') => (Diverge, (d', None))
      end
  end.

(** [on_syscall_stack] is the result of the check of the stack pointer. *)
Definition persist_object_service (on_syscall_stack : bool) (retained : option ObjectService) :
    action D RetainedServiceError unit :=
  pure (reject (negb on_syscall_stack) UnmeasuredStackContext);;
  encoded ← pure (with_object_service retained encode_snapshot);
  snapshot ← pure (map_err RetainedObjectService encoded);
  persistence_call (write_object_service_checkpoint snapshot).
End device.
