(* ===== verification/ObjectImage.v ===== *)
(** * Slot images

    Writing and reading the slot images of [object_service_checkpoint.rs]. An
    image is seen as one array of bytes, sector after sector; the tables and
    the header are regions of it. Decoding the image of a snapshot returns the
    snapshot. *)

From stdpp Require Import base numbers list.
From Stdlib Require Import Strings.Byte.
From S2P Require Import Prelude ByteRegions Fnv Sha256 Kernel ServiceIdentity SlotTable ObjectFormat ObjectFormatFacts ObjectStore RevisionHistory ObjectService ObjectCheckpoint.

(** ** Images as byte arrays *)

Record image_ok (image : ObjectServiceSlotImage) : Prop := {
  io_sectors : len image = OBJECT_SERVICE_SLOT_SECTOR_COUNT;
  io_bytes i s : get image i = Some s -> len s = SECTOR_SIZE;
}.

Definition flat (image : ObjectServiceSlotImage) (i : Z) : option byte :=
  s ← get image (i / SECTOR_SIZE);
  get s (i mod SECTOR_SIZE).

Lemma flat_split image sector offset :
  0 <= offset < SECTOR_SIZE ->
  flat image (sector * SECTOR_SIZE + offset) = s ← get image sector; get s offset.
Proof.
  intros Ho. unfold flat. rewrite Z.div_add_l, Z.div_small, Z.add_0_r by done.
  by rewrite Z.add_comm, Z_mod_plus_full, Z.mod_small.
Qed.

(** Every offset of an image lies in one sector. *)
Lemma offset_split i : exists sector offset, i = sector * SECTOR_SIZE + offset /\ 0 <= offset < SECTOR_SIZE.
Proof.
  exists (i / SECTOR_SIZE), (i mod SECTOR_SIZE). split; [|by apply Z.mod_pos_bound].
  rewrite Z.mul_comm. by apply Z.div_mod.
Qed.

Lemma blank_image_ok : image_ok blank_image.
Proof. split; [done|]. intros i s [-> _]%get_replicate. done. Qed.

Lemma flat_blank i : 0 <= i < OBJECT_SERVICE_SLOT_SECTOR_COUNT * SECTOR_SIZE -> flat blank_image i = Some x00.
Proof.
  intros Hi. destruct (offset_split i) as (s & o & -> & Ho). rewrite flat_split by done.
  change OBJECT_SERVICE_SLOT_SECTOR_COUNT with 26 in Hi. unfold SECTOR_SIZE in *.
  assert (get blank_image s = Some blank_sector) as ->.
  { apply get_replicate. split; [done|]. change (Z.of_nat _) with 26. lia. }
  apply get_replicate. split; [done|]. change (Z.of_nat _) with 512. lia.
Qed.

Section image.
Context {E : Type}.

Lemma sector_present image i :
  image_ok image -> 0 <= i < OBJECT_SERVICE_SLOT_SECTOR_COUNT ->
  exists s, get image i = Some s /\ len s = SECTOR_SIZE /\ index (E := E) image i = Ok s.
Proof.
  intros Hi Hr. destruct (proj2 (get_is_Some image i)) as [s Hs]; [by rewrite (io_sectors _ Hi)|].
  exists s. split_and!; [done|by eapply io_bytes|]. by apply index_ok.
Qed.

(** Replacing a sector. *)
Lemma image_insert (image : list (list byte)) i s :
  image_ok image -> 0 <= i < OBJECT_SERVICE_SLOT_SECTOR_COUNT -> len s = SECTOR_SIZE ->
  image_ok (<[Z.to_nat i := s]> image) /\
  (forall o, 0 <= o < SECTOR_SIZE -> flat (<[Z.to_nat i := s]> image) (i * SECTOR_SIZE + o) = get s o) /\
  same_outside (i * SECTOR_SIZE) (i * SECTOR_SIZE + SECTOR_SIZE) (flat image) (flat (<[Z.to_nat i := s]> image)).
Proof.
  intros [Hn Hb] Hi Hs. split_and!.
  - split; [by rewrite len_insert|]. intros j t Hj. destruct (decide (j = i)) as [->|Hne].
    + rewrite get_insert_eq in Hj by lia. by simplify_eq.
    + rewrite get_insert_ne in Hj by lia. by eapply Hb.
  - intros o Ho. rewrite flat_split, get_insert_eq by lia. done.
  - intros j Hj. destruct (offset_split j) as (k & o & -> & Ho). rewrite !flat_split by done.
    rewrite get_insert_ne; [done|lia|]. intros ->. lia.
Qed.

Lemma wp_image_set (image : list (list byte)) sector offset b (Q : ObjectServiceSlotImage -> Prop) (R : E -> Prop) :
  image_ok image -> 0 <= sector < OBJECT_SERVICE_SLOT_SECTOR_COUNT -> 0 <= offset < SECTOR_SIZE ->
  (forall image', image_ok image' ->
     overwrites (sector * SECTOR_SIZE + offset) [b] (flat image) (flat image') -> Q image') ->
  wp (image_set image sector offset b) Q R.
Proof.
  intros Hok Hs Ho HQ. destruct (sector_present image sector Hok Hs) as (s & Hg & Hl & Hx).
  unfold image_set. rewrite Hx, ok_bind. apply wp_bind, wp_index_set; [lia|].
  apply wp_index_set; [by rewrite (io_sectors _ Hok)|].
  destruct (image_insert image sector (<[Z.to_nat offset := b]> s)) as (H1 & H2 & H3);
    [done|done|by rewrite len_insert|].
  apply HQ; [done|]. split.
  - change (len [b]) with 1. intros j Hj. destruct (offset_split j) as (k & o & -> & Hko).
    destruct (decide (k = sector)) as [->|Hne].
    + rewrite H2, flat_split, Hg by done. simpl. rewrite get_insert_ne; [done|lia|lia].
    + apply H3. unfold SECTOR_SIZE in *. lia.
  - apply holds_at_cons. split; [|apply holds_at_nil]. rewrite H2 by done. apply get_insert_eq. lia.
Qed.

(** ** Tables *)

Lemma wp_table_write image first count offset bytes (Q : ObjectServiceSlotImage -> Prop) (R : E -> Prop) :
  image_ok image -> 0 <= first -> first + count <= OBJECT_SERVICE_SLOT_SECTOR_COUNT ->
  0 <= offset -> offset + len bytes <= count * SECTOR_SIZE ->
  (forall image', image_ok image' ->
     overwrites (first * SECTOR_SIZE + offset) bytes (flat image) (flat image') -> Q image') ->
  wp (table_write_bytes image first count offset bytes) Q R.
Proof.
  intros Hok Hf Hc Ho Hb HQ. unfold table_write_bytes. set (k := first * SECTOR_SIZE + offset) in *.
  eapply (wp_mono _ (fun i => image_ok i /\ overwrites k (take (Z.to_nat (len bytes)) bytes) (flat image) (flat i)) _ (fun _ => False));
    [| |done].
  2:{ intros i [Hi Hw]. apply HQ; [done|]. unfold len in Hw. by rewrite Nat2Z.id, firstn_all in Hw. }
  apply (wp_foldM_range _ _ (fun n i => image_ok i /\ overwrites k (take (Z.to_nat n) bytes) (flat image) (flat i)));
    [apply len_nonneg|split; [done|split; [done|apply holds_at_nil]]|].
  intros n i Hn [Hi Hw]. unfold table_write_round. rewrite (proj2 (Z.ltb_lt _ _)) by lia.
  destruct (proj2 (get_is_Some bytes n)) as [b Hg]; [lia|]. rewrite (index_ok bytes n b Hg), ok_bind.
  destruct (offset_split (offset + n)) as (s & o & Heq & Hso). rewrite Heq.
  rewrite Z.div_add_l, Z.div_small, Z.add_0_r by done. rewrite (Z.add_comm (s * _)), Z_mod_plus_full, Z.mod_small by done.
  unfold SECTOR_SIZE in *. apply wp_image_set; [done|lia|done|]. intros i' Hi' Hw'. split; [done|].
  replace (Z.to_nat (n + 1)) with (S (Z.to_nat n)) by lia. apply get_Some in Hg as [_ Hg]. rewrite (take_S_r _ _ b Hg).
  eapply overwrites_app; [done|]. replace (k + len (take (Z.to_nat n) bytes)) with ((first + s) * 512 + o); [done|].
  unfold len in *. rewrite length_take. unfold k. lia.
Qed.

Lemma table_read_at image first offset bytes n :
  image_ok image -> n = len bytes -> holds_at (flat image) (first * SECTOR_SIZE + offset) bytes ->
  table_read_bytes (E := E) n image first offset = Ok bytes.
Proof.
  intros Hok -> Hb. unfold table_read_bytes. apply wp_equals.
  eapply (wp_mono _ (fun bs => bs = take (Z.to_nat (len bytes)) bytes ++ zeros (len bytes - len bytes)) _ (fun _ => False)); [| |done].
  2:{ intros bs ->. rewrite Z.sub_diag, app_nil_r. unfold len. by rewrite Nat2Z.id, firstn_all. }
  apply (wp_foldM_range _ _ (fun n bs => bs = take (Z.to_nat n) bytes ++ zeros (len bytes - n)));
    [apply len_nonneg|by rewrite Z.sub_0_r|].
  intros n bs Hn ->. unfold table_read_round, image_byte.
  destruct (proj2 (get_is_Some bytes n)) as [b Hg]; [lia|]. specialize (Hb n b Hg).
  destruct (offset_split (offset + n)) as (s & o & Heq & Hso). rewrite Heq.
  rewrite Z.div_add_l, Z.div_small, Z.add_0_r by done. rewrite (Z.add_comm (s * _)), Z_mod_plus_full, Z.mod_small by done.
  replace (first * SECTOR_SIZE + offset + n) with ((first + s) * SECTOR_SIZE + o) in Hb by lia.
  rewrite flat_split in Hb by done. apply bind_Some in Hb as (sec & Hsec & Hb).
  rewrite (index_ok image _ sec Hsec), ok_bind, (index_ok sec o b Hb), ok_bind.
  apply wp_index_set; [rewrite len_app, len_zeros by lia; unfold len in *; rewrite length_take; lia|].
  apply get_Some in Hg as [_ Hg]. replace (Z.to_nat (n + 1)) with (S (Z.to_nat n)) by lia. rewrite (take_S_r _ _ b Hg).
  rewrite insert_app_r_alt by (rewrite length_take; lia). rewrite length_take, Nat.min_l, Nat.sub_diag by (unfold len in *; lia).
  unfold zeros. replace (Z.to_nat (len bytes - n)) with (S (Z.to_nat (len bytes - (n + 1)))) by lia. simpl.
  by rewrite <- app_assoc.
Qed.

Lemma table_read_u16_at image first offset v :
  image_ok image -> uint 16 v -> holds_at (flat image) (first * SECTOR_SIZE + offset) (le_bytes 2 v) ->
  table_read_u16 (E := E) image first offset = Ok v.
Proof.
  intros Hok Hv Hb. unfold table_read_u16. rewrite (table_read_at _ _ _ (le_bytes 2 v) 2 Hok (eq_sym (len_le_bytes 2 v)) Hb). simpl.
  f_equal. by apply (le_val_field 2 16).
Qed.

Lemma table_read_u64_at image first offset v :
  image_ok image -> uint 64 v -> holds_at (flat image) (first * SECTOR_SIZE + offset) (le_bytes 8 v) ->
  table_read_u64 (E := E) image first offset = Ok v.
Proof.
  intros Hok Hv Hb. unfold table_read_u64. rewrite (table_read_at _ _ _ (le_bytes 8 v) 8 Hok (eq_sym (len_le_bytes 8 v)) Hb). cbn [fmap outcome_fmap outcome_bind mbind].  
  f_equal. by apply (le_val_field 8 64).
Qed.
End image.

(** ** Tables of records *)

(** The region at [k] has the fields [fs], given by offset and bytes. *)
Definition fields_at (g : Z -> option byte) (k : Z) (fs : list (Z * list byte)) : Prop :=
  Forall (fun p => holds_at g (k + p.1) p.2) fs.

(** A slot of a table: the flag of an empty slot is zero. *)
Definition slot_fields {A} (f : A -> list (Z * list byte)) (o : option A) : list (Z * list byte) :=
  match o with None => [(0, zeros 2)] | Some a => f a end.

Definition table_at {A} (g : Z -> option byte) (base size : Z) (f : A -> list (Z * list byte))
    (l : list (option A)) : Prop :=
  forall j o, get l j = Some o -> fields_at g (base + j * size) (slot_fields f o).

Definition fields_fit (size : Z) (fs : list (Z * list byte)) : Prop :=
  Forall (fun p => 0 <= p.1 /\ p.1 + len p.2 <= size) fs.

Lemma fields_at_same g g' a b k size fs :
  fields_at g k fs -> fields_fit size fs -> same_outside a b g g' -> k + size <= a \/ b <= k ->
  fields_at g' k fs.
Proof.
  intros Hf Hfit Hs Hd. unfold fields_at, fields_fit in *. rewrite Forall_forall in *. intros p Hp.
  destruct (Hfit p Hp). eapply holds_at_same; [done| |by apply Hf]. lia.
Qed.

Lemma slot_fields_fit {A} size (f : A -> list (Z * list byte)) o :
  2 <= size -> (forall a, o = Some a -> fields_fit size (f a)) -> fields_fit size (slot_fields f o).
Proof. intros Hs Hf. destruct o; simpl; [by apply Hf|]. constructor; [|constructor]. simpl. change (len (zeros 2)) with 2. lia. Qed.

Section table.
Context {A : Type} (base size : Z) (f : A -> list (Z * list byte)) (l : list (option A)).
Hypothesis Hsize : 2 <= size.
Hypothesis Hfit : forall a, Some a ∈ l -> fields_fit size (f a).

Lemma table_slot_fits j o : get l j = Some o -> fields_fit size (slot_fields f o).
Proof. intros Hj. apply slot_fields_fit; [done|]. intros a ->. by eapply Hfit, get_elem_of. Qed.

Lemma table_at_same g g' a b :
  table_at g base size f l -> same_outside a b g g' -> base + len l * size <= a \/ b <= base ->
  table_at g' base size f l.
Proof.
  intros Ht Hs Hd j o Hj. pose proof (proj1 (get_Some _ _ _) Hj) as [Hr _].
  eapply fields_at_same; [by apply Ht|by eapply table_slot_fits|done|].
  assert ((j + 1) * size <= len l * size) by (apply Z.mul_le_mono_nonneg_r; lia). nia.
Qed.

(** A loop that fills the slots of a zeroed table, one after the other. *)
Lemma write_slots (round : ObjectServiceSlotImage -> Z -> PE ObjectServiceSlotImage) image :
  image_ok image -> holds_at (flat image) base (zeros (len l * size)) ->
  (forall i image o, get l i = Some o -> image_ok image ->
     wp (round image i)
       (fun image' => image_ok image' /\
          same_outside (base + i * size) (base + i * size + size) (flat image) (flat image') /\
          match o with None => image' = image | Some a => fields_at (flat image') (base + i * size) (f a) end)
       (fun _ => False)) ->
  wp (foldM round image (range 0 (len l)))
    (fun image' => image_ok image' /\ same_outside base (base + len l * size) (flat image) (flat image') /\
       table_at (flat image') base size f l) (fun _ => False).
Proof.
  intros Hok Hz Hround.
  eapply (wp_mono _ (fun image' => image_ok image' /\ same_outside base (base + len l * size) (flat image) (flat image') /\
    forall j o, j < len l -> get l j = Some o -> fields_at (flat image') (base + j * size) (slot_fields f o)) _ (fun _ => False));
    [| |done].
  2:{ intros i (? & ? & Ht). split_and!; [done..|]. intros j o Hj. apply Ht; [|done]. apply get_Some in Hj as [? _]; lia. }
  apply (wp_foldM_range _ _ (fun n image' => image_ok image' /\ same_outside base (base + n * size) (flat image) (flat image') /\
    forall j o, j < n -> get l j = Some o -> fields_at (flat image') (base + j * size) (slot_fields f o))); [apply len_nonneg|..].
  { split_and!; [done..|]. intros j o Hj [? _]%get_Some. lia. }
  intros n i Hn (Hi & Hs & Ht). destruct (proj2 (get_is_Some l n)) as [o Ho]; [done|].
  eapply wp_mono; [by apply Hround| |done]. intros i' (Hi' & Hs' & Hf'). split_and!; [done| |].
  - eapply same_outside_trans; [eapply same_outside_weaken; [exact Hs|lia|nia]|].
    eapply same_outside_weaken; [exact Hs'|nia|nia].
  - intros j o' Hj Ho'. pose proof (proj1 (get_Some _ _ _) Ho') as [Hr _]. destruct (decide (j = n)) as [->|Hne].
    + assert (o' = o) as -> by congruence. destruct o as [a|]; [done|]. subst i'. constructor; [|constructor]. simpl.
      apply holds_at_zeros. intros k Hk. rewrite Hs by lia.
      replace k with (base + (k - base)) by lia. apply Hz, get_replicate. split; [done|].
      assert ((n + 1) * size <= len l * size) by (apply Z.mul_le_mono_nonneg_r; lia). nia.
    + eapply fields_at_same; [apply Ht; [lia|done]|by eapply table_slot_fits|exact Hs'|left].
      assert ((j + 1) * size <= n * size) by (apply Z.mul_le_mono_nonneg_r; lia). nia.
Qed.
End table.

(** ** The records of a snapshot *)

(** The bytes of an object record. *)
Definition object_code (o : TypedObjectRecord) : list byte :=
  match encode_object o with Ok b => b | _ => [] end.

Lemma object_code_spec o :
  object_wf o ->
  encode_object o = Ok (object_code o) /\ len (object_code o) = RECORD_SIZE /\ decode_object (object_code o) = Ok o.
Proof. intros (b & He & Hl & Hd)%encode_decode_object. unfold object_code. by rewrite He. Qed.

Definition extent_fields (r : ObjectExtentRecord) : list (Z * list byte) :=
  [(0, le_bytes 2 ACTIVE_RECORD); (8, le_bytes 8 (extent_start r)); (16, le_bytes 2 (extent_len r));
   (24, object_code (extent_object r))].

Definition workspace_fields (r : WorkspaceRelationshipRecord) : list (Z * list byte) :=
  [(0, le_bytes 2 ACTIVE_RECORD); (8, le_bytes 8 (workspace_object_id r)); (16, le_bytes 8 (workspace_id r))].

Definition revision_fields (r : RevisionRecord) : list (Z * list byte) :=
  [(0, le_bytes 2 ACTIVE_RECORD); (8, le_bytes 8 (rev_object_id r)); (16, le_bytes 8 (rev_revision r));
   (24, le_bytes 8 (rev_timestamp r)); (32, le_bytes 8 (rev_writer r)); (40, object_code (rev_object r))].

Definition extent_record_wf (r : ObjectExtentRecord) : Prop :=
  uint 64 (extent_start r) /\ uint 16 (extent_len r) /\ object_wf (extent_object r).

Definition workspace_record_wf (r : WorkspaceRelationshipRecord) : Prop :=
  uint 64 (workspace_object_id r) /\ uint 64 (workspace_id r).

Definition revision_record_wf (r : RevisionRecord) : Prop :=
  uint 64 (rev_object_id r) /\ uint 64 (rev_revision r) /\ uint 64 (rev_timestamp r) /\
  uint 64 (rev_writer r) /\ object_wf (rev_object r).

Lemma extent_fields_fit r : extent_record_wf r -> fields_fit OBJECT_RECORD_SIZE (extent_fields r).
Proof.
  intros (_ & _ & (_ & Hl & _)%object_code_spec). unfold extent_fields, fields_fit. rewrite !Forall_cons. cbn [fst snd].
  rewrite Hl, !len_le_bytes. done.
Qed.

Lemma workspace_fields_fit r : fields_fit RELATIONSHIP_RECORD_SIZE (workspace_fields r).
Proof. unfold workspace_fields, fields_fit. rewrite !Forall_cons. cbn [fst snd]. by rewrite !len_le_bytes. Qed.

Lemma revision_fields_fit r : revision_record_wf r -> fields_fit REVISION_RECORD_SIZE (revision_fields r).
Proof.
  intros (_ & _ & _ & _ & (_ & Hl & _)%object_code_spec). unfold revision_fields, fields_fit. rewrite !Forall_cons. cbn [fst snd].
  rewrite Hl, !len_le_bytes. done.
Qed.

(** A field of a slot, written through the table. *)
Ltac write_field :=
  lazymatch goal with |- wp (_ ≫= _) _ _ => apply wp_bind | _ => idtac end; apply wp_table_write; unfold SECTOR_SIZE; rewrite ?len_le_bytes; [done|done|done|lia|lia|];
  let i := fresh "i" in let Hi := fresh "Hi" in let Hw := fresh "Hw" in intros i Hi Hw.

(** Later writes leave a region alone. *)
Ltac region_kept :=
  repeat match goal with
  | H : overwrites ?k ?bs _ ?g |- holds_at ?g ?k' ?bs =>
      (replace k' with k by lia; exact (proj2 H))
  | H : overwrites _ _ _ ?g |- holds_at ?g _ _ =>
      eapply holds_at_same; [exact (proj1 H)|rewrite ?len_le_bytes; lia|]; clear H
  end.

(** Writes inside a region change nothing outside it. *)
Ltac outside_kept :=
  repeat (eapply same_outside_trans; [eapply same_outside_weaken; [match goal with H : overwrites _ _ ?g _ |- same_outside _ _ ?g _ => exact (proj1 H) end|rewrite ?len_le_bytes; lia..]|]);
  try apply same_outside_refl.

Definition record_written {A} (k size : Z) (f : A -> list (Z * list byte)) (o : option A)
    (image image' : ObjectServiceSlotImage) : Prop :=
  image_ok image' /\ same_outside k (k + size) (flat image) (flat image') /\
  match o with None => image' = image | Some a => fields_at (flat image') k (f a) end.

Lemma encode_object_round_spec s i image o :
  len (snap_objects s) = MAX_DYNAMIC_OBJECTS -> get (snap_objects s) i = Some o -> image_ok image ->
  (forall r, o = Some r -> extent_record_wf r) ->
  wp (encode_object_round s image i)
    (record_written (OBJECT_IMAGE_INDEX * SECTOR_SIZE + i * OBJECT_RECORD_SIZE) OBJECT_RECORD_SIZE extent_fields o image)
    (fun _ => False).
Proof.
  intros Hl Ho Hok Hwf. unfold encode_object_round. rewrite (index_ok _ _ _ Ho), ok_bind.
  apply get_Some in Ho as [Hi _]. rewrite Hl in Hi. unfold MAX_DYNAMIC_OBJECTS in Hi.
  destruct o as [r|]; [|by apply wp_ok; split_and!].
  destruct (Hwf r eq_refl) as (_ & _ & (He & Hlen & _)%object_code_spec).
  unfold table_write_u16, table_write_u64, record_written, OBJECT_RECORD_SIZE, OBJECT_IMAGE_INDEX,
    OBJECT_SERVICE_OBJECT_TABLE_SECTORS, SECTOR_SIZE, RECORD_SIZE, HEADER_SIZE, FIELD_SLOT_SIZE, MAX_FIELDS in *.
  do 3 write_field. rewrite He. cbn [map_err]. rewrite ok_bind. write_field. split_and!; [done|outside_kept|].
  unfold extent_fields, fields_at. rewrite !Forall_cons. cbn [fst snd]. split_and!; [region_kept..|constructor].
Qed.

Lemma encode_relationship_round_spec s i image o :
  len (snap_workspaces s) = MAX_DYNAMIC_OBJECTS -> get (snap_workspaces s) i = Some o -> image_ok image ->
  wp (encode_relationship_round s image i)
    (record_written (RELATIONSHIP_IMAGE_INDEX * SECTOR_SIZE + i * RELATIONSHIP_RECORD_SIZE)
       RELATIONSHIP_RECORD_SIZE workspace_fields o image)
    (fun _ => False).
Proof.
  intros Hl Ho Hok. unfold encode_relationship_round. rewrite (index_ok _ _ _ Ho), ok_bind.
  apply get_Some in Ho as [Hi _]. rewrite Hl in Hi. unfold MAX_DYNAMIC_OBJECTS in Hi.
  destruct o as [r|]; [|by apply wp_ok; split_and!].
  change RELATIONSHIP_IMAGE_INDEX with 9.
  unfold table_write_u16, table_write_u64, record_written, RELATIONSHIP_RECORD_SIZE,
    OBJECT_SERVICE_RELATIONSHIP_TABLE_SECTORS, SECTOR_SIZE in *.
  do 3 write_field. split_and!; [done|outside_kept|].
  unfold workspace_fields, fields_at. rewrite !Forall_cons. cbn [fst snd]. split_and!; [region_kept..|constructor].
Qed.

Lemma encode_revision_round_spec base l i image o :
  0 <= base -> base + len l <= MAX_DYNAMIC_OBJECTS + MAX_REVISIONS -> get l i = Some o -> image_ok image ->
  (forall r, o = Some r -> revision_record_wf r) ->
  wp (encode_revision_round base l image i)
    (record_written (REVISION_IMAGE_INDEX * SECTOR_SIZE + (base + i) * REVISION_RECORD_SIZE)
       REVISION_RECORD_SIZE revision_fields o image)
    (fun _ => False).
Proof.
  intros Hb Hl Ho Hok Hwf. unfold encode_revision_round. rewrite (index_ok _ _ _ Ho), ok_bind.
  apply get_Some in Ho as [Hi _]. change (MAX_DYNAMIC_OBJECTS + MAX_REVISIONS) with 32 in Hl.
  destruct o as [r|]; [|by apply wp_ok; split_and!].
  destruct (Hwf r eq_refl) as (_ & _ & _ & _ & (He & Hlen & _)%object_code_spec). unfold encode_revision.
  change REVISION_IMAGE_INDEX with 13.
  unfold table_write_u16, table_write_u64, record_written, REVISION_RECORD_SIZE,
    OBJECT_SERVICE_REVISION_TABLE_SECTORS, SECTOR_SIZE, RECORD_SIZE, HEADER_SIZE, FIELD_SLOT_SIZE, MAX_FIELDS in *.
  do 5 write_field. rewrite He. cbn [map_err]. rewrite ok_bind. write_field. split_and!; [done|outside_kept|].
  unfold revision_fields, fields_at. rewrite !Forall_cons. cbn [fst snd]. split_and!; [region_kept..|constructor].
Qed.

(** ** Reading records *)

Lemma decode_extent_record_at image i o :
  image_ok image -> (forall r, o = Some r -> extent_record_wf r) ->
  fields_at (flat image) (OBJECT_IMAGE_INDEX * SECTOR_SIZE + i * OBJECT_RECORD_SIZE) (slot_fields extent_fields o) ->
  decode_extent_record image i = Ok o.
Proof.
  intros Hok Hwf Hf. unfold decode_extent_record. destruct o as [r|]; unfold fields_at in Hf; cbn [slot_fields] in Hf.
  - unfold extent_fields in Hf. rewrite !Forall_cons in Hf. cbn [fst snd] in Hf. destruct Hf as (H0 & H8 & H16 & H24 & _).
    rewrite <- !Z.add_assoc in *. rewrite Z.add_0_r in H0. destruct (Hwf r eq_refl) as (Hst & Hlen & (_ & Hcl & Hd)%object_code_spec).
    rewrite (table_read_u16_at image _ (i * OBJECT_RECORD_SIZE) ACTIVE_RECORD), ok_bind by done. cbn [Z.eqb ACTIVE_RECORD Pos.eqb].
    rewrite (table_read_at image _ (i * OBJECT_RECORD_SIZE + 24) (object_code (extent_object r))), ok_bind by done.
    rewrite (table_read_u64_at image _ (i * OBJECT_RECORD_SIZE + 8) (extent_start r)), ok_bind by done.
    rewrite (table_read_u16_at image _ (i * OBJECT_RECORD_SIZE + 16) (extent_len r)), ok_bind by done.
    rewrite Hd. by destruct r.
  - rewrite Forall_cons in Hf. cbn [fst snd] in Hf. destruct Hf as [H0 _]. rewrite Z.add_0_r in H0.
    by rewrite (table_read_u16_at image _ (i * OBJECT_RECORD_SIZE) 0), ok_bind.
Qed.

Lemma decode_workspace_record_at image i o :
  image_ok image -> (forall r, o = Some r -> workspace_record_wf r) ->
  fields_at (flat image) (RELATIONSHIP_IMAGE_INDEX * SECTOR_SIZE + i * RELATIONSHIP_RECORD_SIZE) (slot_fields workspace_fields o) ->
  decode_workspace_record image i = Ok o.
Proof.
  intros Hok Hwf Hf. unfold decode_workspace_record. destruct o as [r|]; unfold fields_at in Hf; cbn [slot_fields] in Hf.
  - unfold workspace_fields in Hf. rewrite !Forall_cons in Hf. cbn [fst snd] in Hf. destruct Hf as (H0 & H8 & H16 & _).
    rewrite <- !Z.add_assoc in *. rewrite Z.add_0_r in H0. destruct (Hwf r eq_refl) as (Ho & Hw).
    rewrite (table_read_u16_at image _ (i * RELATIONSHIP_RECORD_SIZE) ACTIVE_RECORD), ok_bind by done. cbn [Z.eqb ACTIVE_RECORD Pos.eqb].
    rewrite (table_read_u64_at image _ (i * RELATIONSHIP_RECORD_SIZE + 8) (workspace_object_id r)), ok_bind by done.
    rewrite (table_read_u64_at image _ (i * RELATIONSHIP_RECORD_SIZE + 16) (workspace_id r)), ok_bind by done.
    by destruct r.
  - rewrite Forall_cons in Hf. cbn [fst snd] in Hf. destruct Hf as [H0 _]. rewrite Z.add_0_r in H0.
    by rewrite (table_read_u16_at image _ (i * RELATIONSHIP_RECORD_SIZE) 0), ok_bind.
Qed.

Lemma decode_revision_at image i o :
  image_ok image -> (forall r, o = Some r -> revision_record_wf r) ->
  fields_at (flat image) (REVISION_IMAGE_INDEX * SECTOR_SIZE + i * REVISION_RECORD_SIZE) (slot_fields revision_fields o) ->
  decode_revision image i = Ok o.
Proof.
  intros Hok Hwf Hf. unfold decode_revision. destruct o as [r|]; unfold fields_at in Hf; cbn [slot_fields] in Hf.
  - unfold revision_fields in Hf. rewrite !Forall_cons in Hf. cbn [fst snd] in Hf.
    destruct Hf as (H0 & H8 & H16 & H24 & H32 & H40 & _). rewrite <- !Z.add_assoc in *. rewrite Z.add_0_r in H0.
    destruct (Hwf r eq_refl) as (H1 & H2 & H3 & H4 & (_ & Hcl & Hd)%object_code_spec).
    rewrite (table_read_u16_at image _ (i * REVISION_RECORD_SIZE) ACTIVE_RECORD), ok_bind by done. cbn [Z.eqb ACTIVE_RECORD Pos.eqb negb reject].
    rewrite ok_bind.
    rewrite (table_read_at image _ (i * REVISION_RECORD_SIZE + 40) (object_code (rev_object r))), ok_bind by done.
    rewrite (table_read_u64_at image _ (i * REVISION_RECORD_SIZE + 8) (rev_object_id r)), ok_bind by done.
    rewrite (table_read_u64_at image _ (i * REVISION_RECORD_SIZE + 16) (rev_revision r)), ok_bind by done.
    rewrite (table_read_u64_at image _ (i * REVISION_RECORD_SIZE + 24) (rev_timestamp r)), ok_bind by done.
    rewrite (table_read_u64_at image _ (i * REVISION_RECORD_SIZE + 32) (rev_writer r)), ok_bind by done.
    rewrite Hd. by destruct r.
  - rewrite Forall_cons in Hf. cbn [fst snd] in Hf. destruct Hf as [H0 _]. rewrite Z.add_0_r in H0.
    by rewrite (table_read_u16_at image _ (i * REVISION_RECORD_SIZE) 0), ok_bind.
Qed.

(** ** The checksum *)

Lemma foldM_ext {E S A} (f g : S -> A -> outcome E S) (l : list A) s :
  (forall s x, x ∈ l -> f s x = g s x) -> foldM f s l = foldM g s l.
Proof.
  revert s. induction l as [|x l IH]; intros s Hfg; [done|]. simpl. rewrite Hfg by left.
  destruct (g s x); simpl; try done. apply IH. intros. apply Hfg. by right.
Qed.

Section checksum.
Context {E : Type}.

(** The checksum covers the bytes before the commit sector, except its own. *)
Lemma checksum_image_same image image' :
  image_ok image -> image_ok image' ->
  (forall i, 0 <= i < COMMIT_IMAGE_INDEX * SECTOR_SIZE ->
     ~ (HEADER_CHECKSUM_OFFSET <= i < HEADER_CHECKSUM_OFFSET + 8) -> flat image' i = flat image i) ->
  checksum_image (E := E) image' = checksum_image image.
Proof.
  intros Hi Hi' Hs. apply foldM_ext. intros c s Hr%elem_of_range. change COMMIT_IMAGE_INDEX with 25 in *.
  unfold checksum_sector.
  destruct (sector_present (E := E) image s) as (b & Hg & Hl & ->); [done|change OBJECT_SERVICE_SLOT_SECTOR_COUNT with 26; lia|].
  destruct (sector_present (E := E) image' s) as (b' & Hg' & Hl' & ->); [done|change OBJECT_SERVICE_SLOT_SECTOR_COUNT with 26; lia|].
  rewrite !ok_bind. apply foldM_ext. intros c' o Ho%elem_of_range.
  unfold checksum_byte, HEADER_IMAGE_INDEX, HEADER_CHECKSUM_OFFSET in *.
  destruct ((s =? 0) && ((64 <=? o) && (o <? 64 + 8))) eqn:Hskip; [done|].
  specialize (Hs (s * SECTOR_SIZE + o)). rewrite !flat_split, Hg, Hg' in Hs by done. simpl in Hs.
  unfold index. unfold SECTOR_SIZE in *. rewrite Hs; [done|lia|].
  rewrite !andb_false_iff, Z.eqb_neq, Z.leb_gt, Z.ltb_ge in Hskip. lia.
Qed.

Lemma checksum_image_total image :
  image_ok image -> wp (checksum_image (E := E) image) (uint 64) (fun _ => False).
Proof.
  intros Hi. apply (wp_foldM_range _ _ (fun _ => uint 64)); [done|done|]. intros s c Hs Hc.
  change COMMIT_IMAGE_INDEX with 25 in *. unfold checksum_sector.
  destruct (sector_present (E := E) image s) as (b & Hg & Hl & ->); [done|change OBJECT_SERVICE_SLOT_SECTOR_COUNT with 26; lia|].
  rewrite ok_bind. apply (wp_foldM_range _ _ (fun _ => uint 64)); [done|done|]. intros o c' Ho Hc'. unfold checksum_byte.
  destruct (_ && _); [done|]. destruct (proj2 (get_is_Some b o)) as [x Hx]; [by rewrite Hl|].
  rewrite (index_ok _ _ _ Hx), ok_bind. by apply fnv_round_range.
Qed.
End checksum.

(** ** The header *)

Definition header_front (slot : CheckpointSlot) (s : ObjectServiceSnapshot) : list byte :=
  CHECKPOINT_MAGIC ++ le_bytes 2 CHECKPOINT_VERSION ++ le_bytes 2 (slot_code slot) ++
  le_bytes 2 (wrap 16 (count_options (snap_objects s))) ++
  le_bytes 2 (wrap 16 (count_options (snap_workspaces s))) ++
  le_bytes 2 (wrap 16 (count_options (snap_current s) + count_options (snap_prior s))) ++ le_bytes 2 0.

Definition header_back (slot : CheckpointSlot) (s : ObjectServiceSnapshot) (generation checksum : Z) : list byte :=
  le_bytes 8 generation ++ le_bytes 8 (object_table_sector (slot_layout slot)) ++
  le_bytes 8 (relationship_table_sector (slot_layout slot)) ++
  le_bytes 8 (revision_table_sector (slot_layout slot)) ++ le_bytes 8 (commit_sector (slot_layout slot)) ++
  le_bytes 8 checksum ++ le_bytes 8 (snap_bitmap s).

Lemma len_checkpoint_magic : len CHECKPOINT_MAGIC = 8.
Proof. done. Qed.

Lemma len_header_front slot s : len (header_front slot s) = 20.
Proof. unfold header_front. by rewrite !len_app, !len_le_bytes. Qed.

Lemma len_header_back slot s g c : len (header_back slot s g c) = 56.
Proof. unfold header_back. by rewrite !len_app, !len_le_bytes. Qed.

#[local] Hint Rewrite len_checkpoint_magic : lens.

(** The bytes that [encode_header] writes. *)
Definition in_header (i : Z) : Prop := 0 <= i < 20 \/ 24 <= i < 80.

Lemma holds_at_agree (g g' : Z -> option byte) k bs :
  holds_at g k bs -> holds_at g' k bs -> forall i, k <= i < k + len bs -> g' i = g i.
Proof.
  intros H H' i Hi. destruct (proj2 (get_is_Some bs (i - k))) as [x Hx]; [lia|].
  replace i with (k + (i - k)) by lia. by rewrite (H _ _ Hx), (H' _ _ Hx).
Qed.

Lemma encode_header_sector_spec bytes slot s g c :
  len bytes = SECTOR_SIZE ->
  wp (encode_header_sector bytes slot s g c)
    (fun b => len b = SECTOR_SIZE /\ (forall i, ~ in_header i -> get b i = get bytes i) /\
       holds_at (get b) 0 (header_front slot s) /\ holds_at (get b) 24 (header_back slot s g c))
    (fun _ => False).
Proof.
  intros Hl. unfold encode_header_sector, sector_write_u16, sector_write_u64, HEADER_CHECKSUM_OFFSET, SECTOR_SIZE in *.
  apply wp_bind, wp_copy_into; [done|by rewrite Hl|]. intros b0 Hl0 Hw0.
  do 6 (apply wp_bind, wp_copy_into; [done|rewrite len_le_bytes; lia|]; let b := fresh "b" in intros b ? ?).
  assert (overwrites 0 (header_front slot s) (get bytes) (get b5)) as Hf by (unfold header_front; collect_writes).
  assert (len b5 = 512) as Hl5 by lia. clear -Hl5 Hf.
  do 6 (apply wp_bind, wp_copy_into; [done|rewrite len_le_bytes; lia|]; let b := fresh "b" in intros b ? ?).
  apply wp_copy_into; [done|rewrite len_le_bytes; lia|]. intros b6 Hl6 Hw6.
  assert (overwrites 24 (header_back slot s g c) (get b5) (get b6)) as Hb by (clear Hf; unfold header_back; collect_writes).
  destruct Hf as [Hf1 Hf2], Hb as [Hb1 Hb2]. rewrite len_header_front in Hf1. rewrite len_header_back in Hb1.
  split_and!; [lia| | |done].
  - intros i Hi. unfold in_header in Hi. rewrite Hb1, Hf1 by lia. done.
  - eapply holds_at_same; [done| |done]. rewrite len_header_front. lia.
Qed.

(** Two headers of the same snapshot differ in the checksum only. *)
Lemma header_agrees slot s g c c' (f f' : Z -> option byte) :
  holds_at f 0 (header_front slot s) -> holds_at f 24 (header_back slot s g c) ->
  holds_at f' 0 (header_front slot s) -> holds_at f' 24 (header_back slot s g c') ->
  (forall i, ~ in_header i -> f' i = f i) ->
  forall i, ~ (HEADER_CHECKSUM_OFFSET <= i < HEADER_CHECKSUM_OFFSET + 8) -> f' i = f i.
Proof.
  intros Hf Hb Hf' Hb' Hs i Hi. unfold HEADER_CHECKSUM_OFFSET in Hi.
  destruct (decide (0 <= i < 20)) as [H1|H1].
  { by apply (holds_at_agree _ _ 0 (header_front slot s)); [..|rewrite len_header_front]. }
  destruct (decide (24 <= i < 80)) as [H2|H2]; [|apply Hs; unfold in_header; lia].
  unfold header_back in *. rewrite !holds_at_app, !len_le_bytes in Hb, Hb'.
  destruct Hb as (B1 & B2 & B3 & B4 & B5 & _ & B7), Hb' as (C1 & C2 & C3 & C4 & C5 & _ & C7).
  destruct (decide (i < 32)); [apply (holds_at_agree _ _ _ _ B1 C1); rewrite len_le_bytes; lia|].
  destruct (decide (i < 40)); [apply (holds_at_agree _ _ _ _ B2 C2); rewrite len_le_bytes; lia|].
  destruct (decide (i < 48)); [apply (holds_at_agree _ _ _ _ B3 C3); rewrite len_le_bytes; lia|].
  destruct (decide (i < 56)); [apply (holds_at_agree _ _ _ _ B4 C4); rewrite len_le_bytes; lia|].
  destruct (decide (i < 64)); [apply (holds_at_agree _ _ _ _ B5 C5); rewrite len_le_bytes; lia|].
  apply (holds_at_agree _ _ _ _ B7 C7); rewrite len_le_bytes; lia.
Qed.

Lemma encode_header_spec image slot s g c :
  image_ok image ->
  wp (encode_header image slot s g c)
    (fun image' => image_ok image' /\ (forall i, ~ in_header i -> flat image' i = flat image i) /\
       holds_at (flat image') 0 (header_front slot s) /\ holds_at (flat image') 24 (header_back slot s g c))
    (fun _ => False).
Proof.
  intros Hok. unfold encode_header, HEADER_IMAGE_INDEX.
  destruct (sector_present (E := GeneralStoragePersistenceError) image 0) as (b & Hg & Hl & ->); [done|done|].
  rewrite ok_bind. apply wp_bind. eapply wp_mono; [by apply encode_header_sector_spec| |done].
  intros b' (Hl' & Hs & Hf & Hb). apply wp_index_set; [by rewrite (io_sectors _ Hok)|].
  destruct (image_insert image 0 b') as (H1 & H2 & H3); [done..|].
  assert (forall o, 0 <= o < SECTOR_SIZE -> flat image o = get b o) as Hold.
  { intros o Ho. pose proof (flat_split image 0 o Ho) as Hx. by rewrite Hg in Hx. }
  assert (forall k bs, 0 <= k -> k + len bs <= SECTOR_SIZE -> holds_at (get b') k bs ->
    holds_at (flat (<[Z.to_nat 0 := b']> image)) k bs) as Hnew.
  { intros k bs Hk Hbs. apply holds_at_ext. intros o Ho. apply (H2 o). lia. }
  split_and!; [done| | |].
  - intros o Ho. destruct (decide (0 <= o < SECTOR_SIZE)) as [Hin|Hout].
    + transitivity (get b' o); [exact (H2 o Hin)|]. rewrite Hold by done. by apply Hs.
    + apply H3. simpl. lia.
  - apply Hnew; [done|by rewrite len_header_front|done].
  - apply Hnew; [done|by rewrite len_header_back|done].
Qed.

(** The commit marker. *)
Definition commit_bytes (g : Z) : list byte := COMMIT_MAGIC ++ le_bytes 8 g.

Lemma len_commit_bytes g : len (commit_bytes g) = 16.
Proof. unfold commit_bytes. by rewrite len_app, len_le_bytes. Qed.

(** The sector that holds it. *)
Definition commit_image (g : Z) : list byte := commit_bytes g ++ zeros (SECTOR_SIZE - 16).

Lemma len_commit_image g : len (commit_image g) = SECTOR_SIZE.
Proof. unfold commit_image. by rewrite len_app, len_commit_bytes. Qed.

Lemma encode_commit_spec image g :
  image_ok image -> get image COMMIT_IMAGE_INDEX = Some blank_sector ->
  encode_commit image g = Ok (<[Z.to_nat COMMIT_IMAGE_INDEX := commit_image g]> (image : list (list byte))).
Proof.
  intros Hok Hb. unfold encode_commit, sector_write_u64. rewrite (index_ok _ _ _ Hb), ok_bind.
  change (copy_into (E := GeneralStoragePersistenceError) blank_sector 0 COMMIT_MAGIC) with
    (Ok (COMMIT_MAGIC ++ zeros 504) : PE (list byte)).
  rewrite ok_bind, (copy_after COMMIT_MAGIC (zeros 504) (le_bytes 8 g) 8), ok_bind by done.
  unfold index_set. rewrite (io_sectors _ Hok). done.
Qed.

(** ** Images of snapshots *)

Record snapshot_wf (s : ObjectServiceSnapshot) : Prop := {
  sw_bitmap : uint 64 (snap_bitmap s);
  sw_objects_len : len (snap_objects s) = MAX_DYNAMIC_OBJECTS;
  sw_workspaces_len : len (snap_workspaces s) = MAX_DYNAMIC_OBJECTS;
  sw_current_len : len (snap_current s) = MAX_DYNAMIC_OBJECTS;
  sw_prior_len : len (snap_prior s) = MAX_REVISIONS;
  sw_objects r : Some r ∈ snap_objects s -> extent_record_wf r;
  sw_workspaces r : Some r ∈ snap_workspaces s -> workspace_record_wf r;
  sw_current r : Some r ∈ snap_current s -> revision_record_wf r;
  sw_prior r : Some r ∈ snap_prior s -> revision_record_wf r;
}.

Abbreviation object_base := (OBJECT_IMAGE_INDEX * SECTOR_SIZE).
Abbreviation workspace_base := (RELATIONSHIP_IMAGE_INDEX * SECTOR_SIZE).
Abbreviation current_base := (REVISION_IMAGE_INDEX * SECTOR_SIZE).
Abbreviation prior_base := (REVISION_IMAGE_INDEX * SECTOR_SIZE + MAX_DYNAMIC_OBJECTS * REVISION_RECORD_SIZE).

(** The tables of an image. *)
Record tables_of (s : ObjectServiceSnapshot) (image : ObjectServiceSlotImage) : Prop := {
  to_ok : image_ok image;
  to_objects : table_at (flat image) object_base OBJECT_RECORD_SIZE extent_fields (snap_objects s);
  to_workspaces : table_at (flat image) workspace_base RELATIONSHIP_RECORD_SIZE workspace_fields (snap_workspaces s);
  to_current : table_at (flat image) current_base REVISION_RECORD_SIZE revision_fields (snap_current s);
  to_prior : table_at (flat image) prior_base REVISION_RECORD_SIZE revision_fields (snap_prior s);
}.

Record image_of (slot : CheckpointSlot) (s : ObjectServiceSnapshot) (g : Z) (image : ObjectServiceSlotImage) : Prop := {
  im_tables : tables_of s image;
  im_front : holds_at (flat image) 0 (header_front slot s);
  im_back : exists c, checksum_image image = (Ok c : PE Z) /\ uint 64 c /\
    holds_at (flat image) 24 (header_back slot s g c);
  im_commit : get image COMMIT_IMAGE_INDEX = Some (commit_image g);
}.

Lemma sector_of_flat image i b :
  image_ok image -> 0 <= i < OBJECT_SERVICE_SLOT_SECTOR_COUNT -> len b = SECTOR_SIZE ->
  (forall o, 0 <= o < SECTOR_SIZE -> flat image (i * SECTOR_SIZE + o) = get b o) -> get image i = Some b.
Proof.
  intros Hok Hi Hb Hf. destruct (sector_present (E := unit) image i Hok Hi) as (b' & Hg & Hl & _).
  rewrite Hg. f_equal. apply get_ext. intros o. destruct (decide (0 <= o < SECTOR_SIZE)) as [Ho|Ho].
  - specialize (Hf o Ho). by rewrite flat_split, Hg in Hf.
  - destruct (get b' o) eqn:H1; [apply get_Some in H1 as [? _]; lia|].
    destruct (get b o) eqn:H2; [apply get_Some in H2 as [? _]; lia|done].
Qed.

Section encode.
Context (s : ObjectServiceSnapshot) (Hs : snapshot_wf s).

Lemma extents_fit r : Some r ∈ snap_objects s -> fields_fit OBJECT_RECORD_SIZE (extent_fields r).
Proof. intros Hr. by apply extent_fields_fit, (sw_objects s Hs). Qed.
Lemma workspaces_fit r : Some r ∈ snap_workspaces s -> fields_fit RELATIONSHIP_RECORD_SIZE (workspace_fields r).
Proof. intros _. apply workspace_fields_fit. Qed.
Lemma current_fit r : Some r ∈ snap_current s -> fields_fit REVISION_RECORD_SIZE (revision_fields r).
Proof. intros Hr. by apply revision_fields_fit, (sw_current s Hs). Qed.
Lemma prior_fit r : Some r ∈ snap_prior s -> fields_fit REVISION_RECORD_SIZE (revision_fields r).
Proof. intros Hr. by apply revision_fields_fit, (sw_prior s Hs). Qed.

(** A zeroed region of an image that was blank. *)
Lemma still_blank image a b k n :
  same_outside a b (flat blank_image) (flat image) -> 0 <= k -> k + n <= OBJECT_SERVICE_SLOT_SECTOR_COUNT * SECTOR_SIZE ->
  b <= k -> holds_at (flat image) k (zeros n).
Proof. intros Ho Hk Hn Hb. apply holds_at_zeros. intros i Hi. rewrite Ho, flat_blank by lia. done. Qed.

Lemma encode_tables_spec :
  wp (image ← encode_objects blank_image s; image ← encode_relationships image s; encode_revisions image s)
    (fun image => tables_of s image /\
       same_outside object_base (COMMIT_IMAGE_INDEX * SECTOR_SIZE) (flat blank_image) (flat image))
    (fun _ => False).
Proof.
  destruct Hs as [_ Ho Hw Hc Hp Hwo Hww Hwc Hwp].
  apply wp_bind. unfold encode_objects. rewrite <- Ho at 1.
  eapply wp_mono; [apply (write_slots object_base OBJECT_RECORD_SIZE extent_fields)| |done];
    [done|apply extents_fit|apply blank_image_ok|by rewrite Ho; apply (still_blank _ 0 0)|..].
  { intros i image o Hg Hok. apply encode_object_round_spec; [done..|]. intros r ->. by eapply Hwo, get_elem_of. }
  intros i1 (Hok1 & Hs1 & Ht1). rewrite Ho in Hs1.
  apply wp_bind. unfold encode_relationships. rewrite <- Hw at 1.
  eapply wp_mono; [apply (write_slots workspace_base RELATIONSHIP_RECORD_SIZE workspace_fields)| |done];
    [done|apply workspaces_fit|done|by rewrite Hw; eapply still_blank|..].
  { intros i image o Hg Hok. by apply encode_relationship_round_spec. }
  intros i2 (Hok2 & Hs2 & Ht2). rewrite Hw in Hs2.
  apply wp_bind. rewrite <- Hc at 1.
  assert (same_outside object_base current_base (flat blank_image) (flat i2)) as Hs12.
  { eapply same_outside_trans; eapply same_outside_weaken; try done. }
  eapply wp_mono; [apply (write_slots current_base REVISION_RECORD_SIZE revision_fields)| |done];
    [done|apply current_fit|done|by rewrite Hc; eapply still_blank|..].
  { intros i image o Hg Hok. apply (encode_revision_round_spec 0); [done|by rewrite Hc|done|done|].
    intros r ->. by eapply Hwc, get_elem_of. }
  intros i3 (Hok3 & Hs3 & Ht3). rewrite Hc in Hs3. rewrite <- Hp at 1.
  assert (same_outside object_base prior_base (flat blank_image) (flat i3)) as Hs13.
  { eapply same_outside_trans; eapply same_outside_weaken; try done. }
  eapply wp_mono; [apply (write_slots prior_base REVISION_RECORD_SIZE revision_fields)| |done];
    [done|apply prior_fit|done|by rewrite Hp; eapply still_blank|..].
  { intros i image o Hg Hok.
    replace (prior_base + i * REVISION_RECORD_SIZE) with (current_base + (MAX_DYNAMIC_OBJECTS + i) * REVISION_RECORD_SIZE) by lia.
    apply encode_revision_round_spec; [done|by rewrite Hp|done|done|].
    intros r ->. by eapply Hwp, get_elem_of. }
  intros i4 (Hok4 & Hs4 & Ht4). rewrite Hp in Hs4. split; [split; [done|..|done]|].
  - eapply table_at_same; [done|exact extents_fit| |exact Hs4|rewrite Ho; by left].
    eapply table_at_same; [done|exact extents_fit| |exact Hs3|rewrite Ho; by left].
    eapply table_at_same; [done|exact extents_fit|exact Ht1|exact Hs2|rewrite Ho; by left].
  - eapply table_at_same; [done|exact workspaces_fit| |exact Hs4|rewrite Hw; by left].
    eapply table_at_same; [done|exact workspaces_fit|exact Ht2|exact Hs3|rewrite Hw; by left].
  - eapply table_at_same; [done|exact current_fit|exact Ht3|exact Hs4|rewrite Hc; by left].
  - eapply same_outside_trans; eapply same_outside_weaken; try done.
Qed.

(** The tables do not depend on the header or on the commit sector. *)
Lemma tables_kept image image' a b :
  tables_of s image -> image_ok image' -> same_outside a b (flat image) (flat image') ->
  b <= object_base \/ COMMIT_IMAGE_INDEX * SECTOR_SIZE <= a -> tables_of s image'.
Proof.
  intros [Hok Ho Hw Hc Hp] Hok' Hd Hab. destruct Hs as [_ Hlo Hlw Hlc Hlp _ _ _ _].
  unfold OBJECT_IMAGE_INDEX, SECTOR_SIZE in Hab. change COMMIT_IMAGE_INDEX with 25 in Hab.
  split; [done|..].
  - eapply table_at_same; [done|exact extents_fit|exact Ho|exact Hd|].
    rewrite Hlo. unfold OBJECT_IMAGE_INDEX, SECTOR_SIZE, OBJECT_RECORD_SIZE, MAX_DYNAMIC_OBJECTS. lia.
  - eapply table_at_same; [done|exact workspaces_fit|exact Hw|exact Hd|].
    rewrite Hlw. change RELATIONSHIP_IMAGE_INDEX with 9. unfold SECTOR_SIZE, RELATIONSHIP_RECORD_SIZE, MAX_DYNAMIC_OBJECTS. lia.
  - eapply table_at_same; [done|exact current_fit|exact Hc|exact Hd|].
    rewrite Hlc. change REVISION_IMAGE_INDEX with 13. unfold SECTOR_SIZE, REVISION_RECORD_SIZE, MAX_DYNAMIC_OBJECTS. lia.
  - eapply table_at_same; [done|exact prior_fit|exact Hp|exact Hd|].
    rewrite Hlp. change REVISION_IMAGE_INDEX with 13. change MAX_REVISIONS with 8.
    unfold SECTOR_SIZE, REVISION_RECORD_SIZE, MAX_DYNAMIC_OBJECTS. lia.
Qed.

Lemma encode_slot_spec slot g :
  wp (encode_slot_into_with_generation slot s g true) (image_of slot s g) (fun _ => False).
Proof.
  pose proof encode_tables_spec as Htab. unfold encode_slot_into_with_generation.
  destruct (encode_objects blank_image s) as [i1| | |]; try done. rewrite ok_bind in *.
  destruct (encode_relationships i1 s) as [i2| | |]; try done. rewrite ok_bind in *.
  destruct (encode_revisions i2 s) as [i3| | |]; try done. rewrite ok_bind. destruct Htab as [Ht Hb].
  apply wp_bind. eapply wp_mono; [by apply encode_header_spec, Ht| |done]. intros i4 (Hok4 & Hs4 & Hf4 & Hb4).
  pose proof (checksum_image_total (E := GeneralStoragePersistenceError) i4 Hok4) as Hc.
  destruct (checksum_image i4) as [c| | |] eqn:Hsum; try done. rewrite ok_bind.
  apply wp_bind. eapply wp_mono; [by apply encode_header_spec| |done]. intros i5 (Hok5 & Hs5 & Hf5 & Hb5).
  assert (forall i, 80 <= i -> flat i5 i = flat i3 i) as H53.
  { intros i Hi. by rewrite Hs5, Hs4 by (unfold in_header; lia). }
  assert (get i5 COMMIT_IMAGE_INDEX = Some blank_sector) as Hcom.
  { apply sector_of_flat; [done..|]. intros o Ho. change COMMIT_IMAGE_INDEX with 25 in *. unfold SECTOR_SIZE in *.
    rewrite H53, Hb, flat_blank by (change OBJECT_SERVICE_SLOT_SECTOR_COUNT with 26 || idtac; unfold SECTOR_SIZE; lia).
    symmetry. apply get_replicate. split; [done|]. change (Z.of_nat _) with 512. lia. }
  rewrite (encode_commit_spec i5 g Hok5 Hcom). apply wp_ok.
  destruct (image_insert i5 COMMIT_IMAGE_INDEX (commit_image g)) as (Hok6 & Hnew & Hs6); [done|done|apply len_commit_image|].
  set (i6 := <[Z.to_nat COMMIT_IMAGE_INDEX := commit_image g]> (i5 : list (list byte))) in *.
  assert (forall i, i < COMMIT_IMAGE_INDEX * SECTOR_SIZE -> flat i6 i = flat i5 i) as H65 by (intros i Hi; apply Hs6; lia).
  split.
  - eapply tables_kept; [|done|exact Hs6|by right]. eapply (tables_kept i3 i5 0 80); [done|done| |by left].
    intros i Hi. by rewrite Hs5, Hs4 by (unfold in_header; lia).
  - eapply holds_at_ext; [|exact Hf5]. intros i Hi. apply H65. rewrite len_header_front in Hi. by etrans; [apply Hi|].
  - exists c. split_and!; [|done|].
    + rewrite <- Hsum. apply checksum_image_same; [done..|]. intros i Hi Hne. rewrite H65 by apply Hi.
      by apply (header_agrees slot s g 0 c).
    + eapply holds_at_ext; [|exact Hb5]. intros i Hi. apply H65. rewrite len_header_back in Hi. by etrans; [apply Hi|].
  - unfold i6. rewrite get_insert_eq; [done|]. by rewrite (io_sectors _ Hok5).
Qed.
End encode.

(** ** Decoding an image *)

Lemma count_options_le {A} (l : list (option A)) : 0 <= count_options l <= len l.
Proof. unfold count_options, len. pose proof (length_filter (fun o : option A => is_Some o) l). lia. Qed.

Section sector_reads.
Context {E : Type}.

Lemma sector_read_at (b : list byte) o n bs :
  len b = SECTOR_SIZE -> n = len bs -> 0 <= o -> o + n <= SECTOR_SIZE -> holds_at (get b) o bs ->
  sector_read (E := E) n b o = Ok bs.
Proof. intros Hl -> Ho Hn Hb. unfold sector_read. rewrite (get_range_holds_at b o _ bs); [done|done|done|done|lia]. Qed.

Lemma sector_read_u16_at (b : list byte) o v :
  len b = SECTOR_SIZE -> 0 <= o -> o + 2 <= SECTOR_SIZE -> uint 16 v -> holds_at (get b) o (le_bytes 2 v) ->
  sector_read_u16 (E := E) b o = Ok v.
Proof.
  intros Hl Ho Hn Hv Hb. unfold sector_read_u16. rewrite (sector_read_at b o 2 (le_bytes 2 v)) by done.
  cbn [fmap outcome_fmap]. f_equal. by apply (le_val_field 2 16).
Qed.

Lemma sector_read_u64_at (b : list byte) o v :
  len b = SECTOR_SIZE -> 0 <= o -> o + 8 <= SECTOR_SIZE -> uint 64 v -> holds_at (get b) o (le_bytes 8 v) ->
  sector_read_u64 (E := E) b o = Ok v.
Proof.
  intros Hl Ho Hn Hv Hb. unfold sector_read_u64. rewrite (sector_read_at b o 8 (le_bytes 8 v)) by done.
  cbn [fmap outcome_fmap]. f_equal. by apply (le_val_field 8 64).
Qed.
End sector_reads.

(** A loop that assigns every slot leaves the array of the assigned values. *)
Lemma assign_each_from {E A} (f : Z -> outcome E (option A)) (l : list (option A)) k :
  (forall i o, get l i = Some o -> f i = Ok o) -> forall n l0, 0 <= n -> n + Z.of_nat k = len l ->
  len l0 = len l -> take (Z.to_nat n) l0 = take (Z.to_nat n) l ->
  assign_each f (range n (len l)) l0 = (Ok tt, l).
Proof.
  intros Hf. induction k as [|k IH]; intros n l0 Hn Hk Hl Ht.
  - rewrite range_nil by lia. cbn. f_equal. unfold len in *. rewrite !take_ge in Ht by lia. done.
  - rewrite range_cons by lia. cbn [assign_each]. unfold mbind, action_bind, assign, pure.
    destruct (proj2 (get_is_Some l n)) as [o Ho]; [lia|].
    assert (forall (l : list (option A)) x, len l = len l0 -> index_set (E := E) l n x = Ok (<[Z.to_nat n := x]> l)) as Hset.
    { intros l' x Hl'. unfold index_set. by replace ((0 <=? n) && (n <? len l')) with true by lia. }
    rewrite Hset by done. rewrite (Hf n o Ho), Hset by by rewrite len_insert. rewrite list_insert_insert_eq.
    apply IH; [lia|lia|by rewrite len_insert|]. apply get_Some in Ho as [_ Ho].
    replace (Z.to_nat (n + 1)) with (S (Z.to_nat n)) by lia. unfold len in *.
    rewrite (take_S_r l _ o Ho), (take_S_r _ _ o) by (apply list_lookup_insert_eq; lia).
    rewrite take_insert_ge by lia. by rewrite Ht.
Qed.

Lemma assign_each_spec {E A} (f : Z -> outcome E (option A)) (l l0 : list (option A)) :
  len l0 = len l -> (forall i o, get l i = Some o -> f i = Ok o) ->
  assign_each f (range 0 (len l)) l0 = (Ok tt, l).
Proof. intros Hl Hf. by apply (assign_each_from f l (length l)). Qed.

Section decode.
Context (slot : CheckpointSlot) (s : ObjectServiceSnapshot) (g : Z) (image : ObjectServiceSlotImage).
Context (Hs : snapshot_wf s) (Hg : uint 64 g) (Him : image_of slot s g image).

(** The header sector. *)
Lemma header_sector :
  exists b, index image HEADER_IMAGE_INDEX = (Ok b : PE (list byte)) /\ get image HEADER_IMAGE_INDEX = Some b /\
    len b = SECTOR_SIZE /\ holds_at (get b) 0 (header_front slot s) /\
    exists c, checksum_image image = (Ok c : PE Z) /\ uint 64 c /\ holds_at (get b) 24 (header_back slot s g c).
Proof.
  destruct Him as [[Hok _ _ _ _] Hf (c & Hc & Hcu & Hb) _].
  destruct (sector_present (E := GeneralStoragePersistenceError) image HEADER_IMAGE_INDEX) as (b & Hgb & Hl & Hx); [done|done|].
  exists b. assert (forall o, 0 <= o < SECTOR_SIZE -> get b o = flat image o) as Heq.
  { intros o Ho. pose proof (flat_split image HEADER_IMAGE_INDEX o Ho) as Hx'. by rewrite Hgb in Hx'. }
  split_and!; [done..| |].
  - eapply holds_at_ext; [|exact Hf]. intros i Hi. rewrite len_header_front in Hi. apply Heq. unfold SECTOR_SIZE. lia.
  - exists c. split_and!; [done..|]. eapply holds_at_ext; [|exact Hb]. intros i Hi.
    rewrite len_header_back in Hi. apply Heq. unfold SECTOR_SIZE. lia.
Qed.

Definition decoded_header (c : Z) : ObjectServiceCheckpointHeader :=
  {| header_slot := slot_code slot; header_object_count := count_options (snap_objects s);
     header_relationship_count := count_options (snap_workspaces s);
     header_revision_count := count_options (snap_current s) + count_options (snap_prior s);
     header_generation := g; header_object_table := object_table_sector (slot_layout slot);
     header_relationship_table := relationship_table_sector (slot_layout slot);
     header_revision_table := revision_table_sector (slot_layout slot);
     header_commit := commit_sector (slot_layout slot); header_checksum := c |}.

Lemma slot_code_uint : uint 16 (slot_code slot).
Proof. by destruct slot. Qed.

Lemma slot_from_code_of : slot_from_code (slot_code slot) = Ok slot.
Proof. by destruct slot. Qed.

Lemma counts_small :
  wrap 16 (count_options (snap_objects s)) = count_options (snap_objects s) /\
  wrap 16 (count_options (snap_workspaces s)) = count_options (snap_workspaces s) /\
  wrap 16 (count_options (snap_current s) + count_options (snap_prior s)) =
    count_options (snap_current s) + count_options (snap_prior s).
Proof.
  destruct Hs as [_ Ho Hw Hc Hp _ _ _ _].
  pose proof (count_options_le (snap_objects s)). pose proof (count_options_le (snap_workspaces s)).
  pose proof (count_options_le (snap_current s)). pose proof (count_options_le (snap_prior s)).
  change MAX_REVISIONS with 8 in Hp. unfold MAX_DYNAMIC_OBJECTS in *.
  split_and!; apply wrap_small; unfold uint; lia.
Qed.

Lemma decode_header_spec b c :
  len b = SECTOR_SIZE -> uint 64 c -> holds_at (get b) 0 (header_front slot s) ->
  holds_at (get b) 24 (header_back slot s g c) -> decode_header b = Ok (decoded_header c).
Proof.
  intros Hl Hc Hf Hb. destruct counts_small as (H1 & H2 & H3). pose proof slot_code_uint.
  pose proof (count_options_le (snap_objects s)) as C1. pose proof (count_options_le (snap_workspaces s)) as C2.
  pose proof (count_options_le (snap_current s)) as C3. pose proof (count_options_le (snap_prior s)) as C4.
  destruct Hs as [_ Ho Hw Hcu Hp _ _ _ _]. rewrite Ho in C1. rewrite Hw in C2. rewrite Hcu in C3. rewrite Hp in C4.
  change MAX_REVISIONS with 8 in C4. unfold MAX_DYNAMIC_OBJECTS in *.
  unfold header_front in Hf. rewrite H1, H2, H3 in Hf. unfold header_back in Hb.
  rewrite !holds_at_app, ?len_le_bytes, ?len_checkpoint_magic in Hf. rewrite !holds_at_app, ?len_le_bytes in Hb.
  destruct Hf as (F0 & F8 & F10 & F12 & F14 & F16 & F18), Hb as (B24 & B32 & B40 & B48 & B56 & B64 & _).
  unfold decode_header. rewrite (sector_read_at b 0 8 CHECKPOINT_MAGIC), ok_bind by done.
  rewrite (sector_read_u16_at b 8 CHECKPOINT_VERSION), ok_bind by done.
  rewrite bool_decide_eq_true_2 by done. cbn [negb orb Z.eqb Pos.eqb CHECKPOINT_VERSION reject]. rewrite ok_bind.
  rewrite (sector_read_u16_at b 18 0), ok_bind by done. cbn [negb Z.eqb reject]. rewrite ok_bind.
  rewrite (sector_read_u16_at b 10 (slot_code slot)), ok_bind by done.
  rewrite (sector_read_u16_at b 12 (count_options (snap_objects s))), ok_bind by (done || unfold uint; lia).
  rewrite (sector_read_u16_at b 14 (count_options (snap_workspaces s))), ok_bind by (done || unfold uint; lia).
  rewrite (sector_read_u16_at b 16 (count_options (snap_current s) + count_options (snap_prior s))), ok_bind by (done || unfold uint; lia).
  rewrite (sector_read_u64_at b 24 g), ok_bind by done.
  rewrite (sector_read_u64_at b 32 (object_table_sector (slot_layout slot))), ok_bind by (done || by destruct slot).
  rewrite (sector_read_u64_at b 40 (relationship_table_sector (slot_layout slot))), ok_bind by (done || by destruct slot).
  rewrite (sector_read_u64_at b 48 (revision_table_sector (slot_layout slot))), ok_bind by (done || by destruct slot).
  rewrite (sector_read_u64_at b 56 (commit_sector (slot_layout slot))), ok_bind by (done || by destruct slot).
  rewrite (sector_read_u64_at b 64 c), ok_bind by done. done.
Qed.

Lemma commit_image_holds h : holds_at (get (commit_image h)) 0 COMMIT_MAGIC /\ holds_at (get (commit_image h)) 8 (le_bytes 8 h).
Proof.
  assert (holds_at (get (commit_image h)) 0 (commit_image h)) as H by (intros j x Hx; by rewrite Z.add_0_l).
  unfold commit_image at 2 in H. unfold commit_bytes in H. rewrite !holds_at_app in H.
  destruct H as [[H1 H2] _]. done.
Qed.

Lemma decode_slot_header_spec :
  exists c, decode_slot_header image = Ok (decoded_header c).
Proof.
  destruct header_sector as (b & Hx & _ & Hl & Hf & c & Hc & Hcu & Hb). exists c.
  destruct (commit_image_holds g) as [Hm Hcg]. pose proof (len_commit_image g) as Hlc.
  unfold decode_slot_header. rewrite (index_ok _ _ _ (im_commit _ _ _ _ Him)), ok_bind.
  rewrite (sector_read_at _ 0 8 COMMIT_MAGIC), ok_bind by done. rewrite bool_decide_eq_true_2 by done.
  cbn [negb reject]. rewrite ok_bind, Hx, ok_bind, (decode_header_spec b c), ok_bind by done.
  rewrite (sector_read_u64_at _ 8 g), ok_bind by done.
  cbn [header_slot decoded_header]. rewrite slot_from_code_of, ok_bind, Hc, ok_bind.
  cbn [header_generation header_object_table header_relationship_table header_revision_table header_commit header_checksum decoded_header].
  by rewrite !Z.eqb_refl.
Qed.

Lemma decode_objects_spec :
  decode_objects_into image (snap_objects empty_snapshot) = (Ok tt, snap_objects s).
Proof.
  destruct Hs as [_ Ho _ _ _ Wo _ _ _]. destruct (im_tables _ _ _ _ Him) as [Hok To _ _ _].
  unfold decode_objects_into. rewrite <- Ho at 1. apply assign_each_spec; [by rewrite Ho|].
  intros i o Hi. apply decode_extent_record_at; [done| |by apply To]. intros r ->. by eapply Wo, get_elem_of.
Qed.

Lemma decode_relationships_spec :
  decode_relationships_into image (snap_workspaces empty_snapshot) = (Ok tt, snap_workspaces s).
Proof.
  destruct Hs as [_ _ Hw _ _ _ Ww _ _]. destruct (im_tables _ _ _ _ Him) as [Hok _ Tw _ _].
  unfold decode_relationships_into. rewrite <- Hw at 1. apply assign_each_spec; [by rewrite Hw|].
  intros i o Hi. apply decode_workspace_record_at; [done| |by apply Tw]. intros r ->. by eapply Ww, get_elem_of.
Qed.

Lemma decode_current_spec :
  decode_current_revisions_into image (snap_current empty_snapshot) = (Ok tt, snap_current s).
Proof.
  destruct Hs as [_ _ _ Hc _ _ _ Wc _]. destruct (im_tables _ _ _ _ Him) as [Hok _ _ Tc _].
  unfold decode_current_revisions_into. rewrite <- Hc at 1. apply assign_each_spec; [by rewrite Hc|].
  intros i o Hi. apply decode_revision_at; [done| |by apply Tc]. intros r ->. by eapply Wc, get_elem_of.
Qed.

Lemma decode_prior_spec :
  decode_prior_revisions_into image (snap_prior empty_snapshot) = (Ok tt, snap_prior s).
Proof.
  destruct Hs as [_ _ _ _ Hp _ _ _ Wp]. destruct (im_tables _ _ _ _ Him) as [Hok _ _ _ Tp].
  unfold decode_prior_revisions_into. rewrite <- Hp at 1. apply assign_each_spec; [by rewrite Hp|].
  intros i o Hi. apply decode_revision_at; [done|intros r ->; by eapply Wp, get_elem_of|].
  rewrite Z.mul_add_distr_r, Z.add_assoc. by apply Tp.
Qed.

(** Decoding the image of a snapshot returns it, with the generation of the image. *)
Lemma decode_slot_into_spec :
  decode_slot_into image empty_snapshot = (Ok tt, set_snapshot_root g (snap_bitmap s) s).
Proof.
  destruct decode_slot_header_spec as [c Hc]. destruct header_sector as (b & Hx & _ & Hl & _ & c' & _ & _ & Hb).
  unfold header_back in Hb. rewrite !holds_at_app, ?len_le_bytes in Hb. destruct Hb as (_ & _ & _ & _ & _ & _ & B72).
  unfold decode_slot_into, mbind, action_bind, pure, update, zoom, reads. rewrite Hc, Hx.
  rewrite (sector_read_u64_at b 72 (snap_bitmap s)) by (done || apply Hs).
  change (snap_objects (set_snapshot_root ?x ?y ?z)) with (snap_objects z).
  rewrite decode_objects_spec. cbn [map_err].
  change (snap_workspaces (set_snap_objects ?x (set_snapshot_root ?y ?t ?z))) with (snap_workspaces z).
  rewrite decode_relationships_spec. cbn [map_err].
  change (snap_current (set_snap_workspaces ?w (set_snap_objects ?x (set_snapshot_root ?y ?t ?z)))) with (snap_current z).
  rewrite decode_current_spec. cbn [map_err].
  change (snap_prior (set_snap_current ?v (set_snap_workspaces ?w (set_snap_objects ?x (set_snapshot_root ?y ?t ?z))))) with (snap_prior z).
  rewrite decode_prior_spec. cbn. by rewrite !Z.eqb_refl.
Qed.

Lemma decode_slot_spec : decode_slot image = Ok (set_snapshot_root g (snap_bitmap s) s).
Proof. unfold decode_slot, run. by rewrite decode_slot_into_spec. Qed.

Lemma image_slot_spec : image_slot image = Ok slot.
Proof.
  destruct header_sector as (b & Hx & _ & Hl & Hf & _). unfold image_slot. rewrite Hx, ok_bind.
  unfold header_front in Hf. rewrite !holds_at_app, ?len_le_bytes, ?len_checkpoint_magic in Hf.
  destruct Hf as (_ & _ & F10 & _). rewrite (sector_read_u16_at b 10 (slot_code slot)), ok_bind by (done || apply slot_code_uint).
  apply slot_from_code_of.
Qed.
End decode.
