(* ===== verification/ObjectDisk.v ===== *)
(** * Checkpoints on the block device

    Reading and writing the slots of [object_service_checkpoint.rs] on a device
    whose writes may fail, or be cut off by a power failure, in the middle of a
    sector. Recovery is a function of the bytes on the device, total on every
    contents; a checkpoint that is interrupted anywhere leaves the old snapshot
    or the new one. *)

From stdpp Require Import base numbers list.
From Stdlib Require Import Strings.Byte.
From S2P Require Import Prelude ByteRegions Fnv Sha256 Kernel ServiceIdentity SlotTable ObjectFormat ObjectFormatFacts ObjectStore RevisionHistory ObjectService ObjectCheckpoint ObjectImage.

(** ** Decoding arbitrary images *)

Abbreviation no_panic m := (wp m (fun _ => True) (fun _ => True)).

Lemma get_seq a b i : 0 <= i < b - a -> get (range a b) i = Some (a + i).
Proof.
  intros Hi. apply get_Some. unfold len. rewrite length_range. split; [lia|].
  unfold range. apply lookup_seqZ. lia.
Qed.

(** Offsets inside an image. *)
Ltac bounds :=
  change OBJECT_SERVICE_SLOT_SECTOR_COUNT with 26; change RELATIONSHIP_IMAGE_INDEX with 9;
  change REVISION_IMAGE_INDEX with 13; change RECORD_SIZE with 120; change MAX_REVISIONS with 8 in *;
  unfold SECTOR_SIZE, MAX_DYNAMIC_OBJECTS, OBJECT_IMAGE_INDEX, OBJECT_RECORD_SIZE, RELATIONSHIP_RECORD_SIZE,
    REVISION_RECORD_SIZE in *; lia.

Section total.
Context (image : ObjectServiceSlotImage) (Hok : image_ok image).

Lemma table_read_total n first offset :
  0 <= n -> 0 <= first -> 0 <= offset -> first * SECTOR_SIZE + offset + n <= OBJECT_SERVICE_SLOT_SECTOR_COUNT * SECTOR_SIZE ->
  exists bs, len bs = n /\ table_read_bytes (E := GeneralStoragePersistenceError) n image first offset = Ok bs.
Proof.
  intros Hn Hf Ho Hb. set (k := first * SECTOR_SIZE + offset).
  assert (0 <= k) by (unfold k, SECTOR_SIZE; lia).
  assert (forall i, 0 <= i < OBJECT_SERVICE_SLOT_SECTOR_COUNT * SECTOR_SIZE -> is_Some (flat image i)) as Hin.
  { intros i Hi. destruct (offset_split i) as (s & o & -> & Hso). rewrite flat_split by done.
    unfold SECTOR_SIZE in *. destruct (sector_present (E := unit) image s) as (b & -> & Hl & _); [done|lia|].
    simpl. apply get_is_Some. unfold SECTOR_SIZE in Hl. lia. }
  set (bs := (fun i => default x00 (flat image (k + i))) <$> range 0 n).
  assert (len bs = n) as Hl by (unfold bs, len; rewrite length_fmap, length_range; lia).
  exists bs. split; [done|]. apply table_read_at; [done|done|]. fold k. intros j x Hx.
  pose proof (proj1 (get_Some _ _ _) Hx) as [Hj _]. rewrite Hl in Hj. unfold bs in Hx. rewrite get_fmap, get_seq in Hx by lia. simpl in Hx.
  rewrite Z.add_0_l in Hx. destruct (Hin (k + j)) as [y Hy]; [lia|]. rewrite Hy in *. simpl in Hx. congruence.
Qed.

Lemma table_read_u16_total first offset :
  0 <= first -> 0 <= offset -> first * SECTOR_SIZE + offset + 2 <= OBJECT_SERVICE_SLOT_SECTOR_COUNT * SECTOR_SIZE ->
  no_panic (table_read_u16 (E := GeneralStoragePersistenceError) image first offset).
Proof.
  intros. unfold table_read_u16. destruct (table_read_total 2 first offset) as (bs & _ & ->); done.
Qed.

Lemma table_read_u64_total first offset :
  0 <= first -> 0 <= offset -> first * SECTOR_SIZE + offset + 8 <= OBJECT_SERVICE_SLOT_SECTOR_COUNT * SECTOR_SIZE ->
  no_panic (table_read_u64 (E := GeneralStoragePersistenceError) image first offset).
Proof.
  intros. unfold table_read_u64. destruct (table_read_total 8 first offset) as (bs & _ & ->); done.
Qed.

(** The steps of a decoder: a read inside the image, or the codec of objects. *)
Ltac decode_step :=
  lazymatch goal with
  | |- wp (_ ≫= _) _ _ => apply wp_bind
  | |- wp (table_read_u16 _ _ _) _ _ => eapply wp_mono; [apply table_read_u16_total; bounds|intros ? _|done]
  | |- wp (table_read_u64 _ _ _) _ _ => eapply wp_mono; [apply table_read_u64_total; bounds|intros ? _|done]
  | |- wp (reject _ _) _ _ => apply wp_reject; [intros _|done]
  | |- wp (if ?b then _ else _) _ _ => destruct b
  | |- wp (table_read_bytes ?n _ ?f ?o) _ _ =>
      let bs := fresh "bs" in let Hl := fresh "Hl" in
      destruct (table_read_total n f o) as (bs & Hl & ->); [bounds..|apply wp_ok]
  | |- wp (map_err _ (decode_object _)) _ _ =>
      apply wp_map_err; eapply wp_mono; [by apply decode_object_wf|intros ? _|done]
  | |- _ => done
  end.

Lemma decode_extent_record_total i : 0 <= i < MAX_DYNAMIC_OBJECTS -> no_panic (decode_extent_record image i).
Proof. intros Hi. unfold decode_extent_record. repeat decode_step. Qed.

Lemma decode_workspace_record_total i : 0 <= i < MAX_DYNAMIC_OBJECTS -> no_panic (decode_workspace_record image i).
Proof. intros Hi. unfold decode_workspace_record. repeat decode_step. Qed.

Lemma decode_revision_total i : 0 <= i < MAX_DYNAMIC_OBJECTS + MAX_REVISIONS -> no_panic (decode_revision image i).
Proof. intros Hi. unfold decode_revision. repeat decode_step. Qed.

Lemma assign_each_total {A} (f : Z -> PE (option A)) indices l :
  Forall (fun i => 0 <= i < len l /\ no_panic (f i)) indices ->
  wpA (assign_each f indices) l (fun _ _ => True) (fun _ _ => True).
Proof.
  revert l. induction indices as [|i rest IH]; intros l Hl; [done|]. apply Forall_cons in Hl as [[Hi Hf] Hrest].
  cbn [assign_each]. apply wpA_bind. unfold assign at 1, wpA at 1, index_set.
  replace ((0 <=? i) && (i <? len l)) with true by lia.
  act_step. act_step. eapply wp_mono; [exact Hf| |done]. intros o _.
  act_step. unfold assign at 1, wpA at 1, index_set. rewrite len_insert.
  replace ((0 <=? i) && (i <? len l)) with true by lia.
  apply IH. eapply Forall_impl; [exact Hrest|]. intros j. by rewrite !len_insert.
Qed.

Lemma range_forall a b (P : Z -> Prop) : (forall i, a <= i < b -> P i) -> Forall P (range a b).
Proof. intros H. apply Forall_forall. intros i Hi%elem_of_range. by apply H. Qed.
End total.

Section sector_total.
Context (b : list byte) (Hb : len b = SECTOR_SIZE).

Lemma sector_read_total n o : 0 <= n -> 0 <= o -> o + n <= SECTOR_SIZE ->
  exists bs, len bs = n /\ sector_read (E := GeneralStoragePersistenceError) n b o = Ok bs.
Proof.
  intros Hn Ho Hs. exists (take (Z.to_nat n) (drop (Z.to_nat o) b)). unfold sector_read. split.
  - unfold len in *. rewrite length_take, length_drop. lia.
  - rewrite (proj2 (get_range_Some b o (o + n) (take (Z.to_nat n) (drop (Z.to_nat o) b)))); [done|]. split_and!; [lia..|]. do 2 f_equal. lia.
Qed.

Lemma sector_read_u16_total o : 0 <= o -> o + 2 <= SECTOR_SIZE ->
  no_panic (sector_read_u16 (E := GeneralStoragePersistenceError) b o).
Proof. intros. unfold sector_read_u16. by destruct (sector_read_total 2 o) as (bs & _ & ->). Qed.

Lemma sector_read_u64_total o : 0 <= o -> o + 8 <= SECTOR_SIZE ->
  no_panic (sector_read_u64 (E := GeneralStoragePersistenceError) b o).
Proof. intros. unfold sector_read_u64. by destruct (sector_read_total 8 o) as (bs & _ & ->). Qed.
End sector_total.

Ltac sector_step :=
  lazymatch goal with
  | |- wp (_ ≫= _) _ _ => apply wp_bind
  | |- wp (sector_read_u16 _ _) _ _ => eapply wp_mono; [by apply sector_read_u16_total|intros ? _|done]
  | |- wp (sector_read_u64 _ _) _ _ => eapply wp_mono; [by apply sector_read_u64_total|intros ? _|done]
  | |- wp (sector_read ?n ?b ?o) _ _ =>
      let bs := fresh "bs" in destruct (sector_read_total b ltac:(done) n o) as (bs & _ & ->); [done..|apply wp_ok]
  | |- wp (reject _ _) _ _ => apply wp_reject; [intros _|done]
  | |- wp (if ?c then _ else _) _ _ => destruct c
  | |- wp (slot_from_code ?c) _ _ => unfold slot_from_code
  | |- wp (Ok _) _ _ => apply wp_ok
  | |- _ => done
  end.

Lemma decode_header_total b : len b = SECTOR_SIZE -> no_panic (decode_header b).
Proof. intros Hb. unfold decode_header. repeat sector_step. Qed.

Section decode_total.
Context (image : ObjectServiceSlotImage) (Hok : image_ok image).

Lemma decode_slot_header_total : no_panic (decode_slot_header image).
Proof.
  unfold decode_slot_header.
  destruct (sector_present (E := GeneralStoragePersistenceError) image COMMIT_IMAGE_INDEX) as (cb & _ & Hcb & ->); [done..|].
  destruct (sector_present (E := GeneralStoragePersistenceError) image HEADER_IMAGE_INDEX) as (hb & _ & Hhb & ->); [done..|].
  rewrite ok_bind. do 4 sector_step. rewrite ok_bind. apply wp_bind.
  eapply wp_mono; [by apply decode_header_total|intros h _|done]. do 2 sector_step.
  apply wp_bind. eapply (wp_mono _ (fun _ => True) _ (fun _ => True)); [unfold slot_from_code; by repeat case_match|intros slot _|done].
  apply wp_bind. eapply wp_mono; [by apply checksum_image_total|intros c _|done]. repeat sector_step.
Qed.

Lemma decode_slot_total : no_panic (decode_slot image).
Proof.
  assert (wpA (decode_slot_into image) empty_snapshot (fun _ _ => True) (fun _ _ => True)) as H.
  { unfold decode_slot_into.
    destruct (sector_present (E := GeneralStoragePersistenceError) image HEADER_IMAGE_INDEX) as (hb & _ & Hhb & Hx); [done..|].
    act_step. act_step. eapply wp_mono; [apply decode_slot_header_total|intros h _|done].
    act_step. act_step. rewrite Hx. apply wp_ok.
    act_step. act_step. eapply wp_mono; [by apply sector_read_u64_total|intros bm _|done].
    act_step. act_step.
    act_step. apply wpA_zoom. eapply wpA_mono; [apply assign_each_total, range_forall| |done].
    { intros i Hi. split; [done|by apply decode_extent_record_total]. }
    intros _ l1 _. act_step. apply wpA_zoom. eapply wpA_mono; [apply assign_each_total, range_forall| |done].
    { intros i Hi. split; [done|by apply decode_workspace_record_total]. }
    intros _ l2 _. act_step. apply wpA_zoom. eapply wpA_mono; [apply assign_each_total, range_forall| |done].
    { intros i Hi. split; [done|]. apply decode_revision_total; [done|]. bounds. }
    intros _ l3 _. act_step. apply wpA_zoom. eapply wpA_mono; [apply assign_each_total, range_forall| |done].
    { intros i Hi. split; [done|]. apply decode_revision_total; [done|]. bounds. }
    intros _ l4 _. act_step. by apply wp_reject. }
  unfold decode_slot, run. unfold wpA in H. by destruct (decode_slot_into image empty_snapshot) as [[] ?].
Qed.

Lemma decode_ordinary_slot_total : no_panic (decode_ordinary_slot image).
Proof.
  unfold decode_ordinary_slot, image_slot.
  destruct (sector_present (E := GeneralStoragePersistenceError) image HEADER_IMAGE_INDEX) as (hb & _ & Hhb & ->); [done..|].
  rewrite ok_bind. apply wp_bind. do 2 sector_step. eapply (wp_mono _ (fun _ => True) _ (fun _ => True)); [unfold slot_from_code; by repeat case_match|intros slot _|done].
  do 2 sector_step. apply decode_slot_total.
Qed.
End decode_total.

(** ** The slots of a device *)

Lemma sector_index slot i :
  0 <= i < OBJECT_SERVICE_SLOT_SECTOR_COUNT -> sector_for_image_index slot i = slot_header_sector slot + i.
Proof.
  change OBJECT_SERVICE_SLOT_SECTOR_COUNT with 26. intros Hi. unfold sector_for_image_index.
  change RELATIONSHIP_IMAGE_INDEX with 9. change REVISION_IMAGE_INDEX with 13. change COMMIT_IMAGE_INDEX with 25.
  unfold HEADER_IMAGE_INDEX, OBJECT_IMAGE_INDEX.
  destruct (Z.eqb_spec i 0) as [->|]; [by rewrite Z.add_0_r|].
  destruct (Z.leb_spec 1 i); [|lia]. destruct (Z.ltb_spec i 9); simpl; [destruct slot; vm_compute slot_header_sector; vm_compute object_table_sector; lia|].
  destruct (Z.leb_spec 9 i); [|lia]. destruct (Z.ltb_spec i 13); simpl; [destruct slot; vm_compute slot_header_sector; vm_compute relationship_table_sector; lia|].
  destruct (Z.leb_spec 13 i); [|lia]. destruct (Z.ltb_spec i 25); simpl; [destruct slot; vm_compute slot_header_sector; vm_compute revision_table_sector; lia|].
  destruct (Z.eqb_spec i 25) as [->|]; [by destruct slot|lia].
Qed.

(** The sectors of the slots are distinct. *)
Lemma sector_inj slot slot' i j :
  0 <= i < OBJECT_SERVICE_SLOT_SECTOR_COUNT -> 0 <= j < OBJECT_SERVICE_SLOT_SECTOR_COUNT ->
  sector_for_image_index slot i = sector_for_image_index slot' j -> slot = slot' /\ i = j.
Proof.
  intros Hi Hj. rewrite !sector_index by done. change OBJECT_SERVICE_SLOT_SECTOR_COUNT with 26 in *.
  assert (slot_header_sector slot = slot_header_sector slot' \/ slot_header_sector slot + 26 <= slot_header_sector slot' \/
    slot_header_sector slot' + 26 <= slot_header_sector slot) as Hd.
  { destruct slot, slot'; vm_compute slot_header_sector; lia. }
  intros H. assert (i = j) as -> by lia. split; [|done].
  assert (slot_header_sector slot = slot_header_sector slot') as Heq by lia. by destruct slot, slot'.
Qed.

Lemma before_commit i : 0 <= i < COMMIT_IMAGE_INDEX -> 0 <= i < OBJECT_SERVICE_SLOT_SECTOR_COUNT.
Proof. change OBJECT_SERVICE_SLOT_SECTOR_COUNT with (COMMIT_IMAGE_INDEX + 1). lia. Qed.

(** What the bytes [c] of a device hold in a slot. *)
Definition slot_sectors (c : Z -> list byte) (slot : CheckpointSlot) : ObjectServiceSlotImage :=
  (fun i => c (sector_for_image_index slot i)) <$> range 0 OBJECT_SERVICE_SLOT_SECTOR_COUNT.

Definition slot_committed (c : Z -> list byte) (slot : CheckpointSlot) : bool :=
  match slot_probe_is_committed (c (sector_for_image_index slot HEADER_IMAGE_INDEX))
          (c (sector_for_image_index slot COMMIT_IMAGE_INDEX)) with
  | Ok b => b
  | _ => false
  end.

Definition slot_snapshot (c : Z -> list byte) (slot : CheckpointSlot) : option ObjectServiceSnapshot :=
  if slot_committed c slot then
    match decode_ordinary_slot (slot_sectors c slot) with Ok s => Some s | _ => None end
  else None.

(** The checkpoint that recovery finds. *)
Definition recovered (c : Z -> list byte) : option ObjectServiceSnapshot :=
  select_highest_generation (slot_snapshot c SlotA) (slot_snapshot c SlotB).

Definition sectors_full (c : Z -> list byte) : Prop := forall n, len (c n) = SECTOR_SIZE.

Lemma get_slot_sectors c slot i :
  0 <= i < OBJECT_SERVICE_SLOT_SECTOR_COUNT ->
  get (slot_sectors c slot) i = Some (c (sector_for_image_index slot i)).
Proof. intros Hi. unfold slot_sectors. rewrite get_fmap, get_seq by lia. simpl. by rewrite Z.add_0_l. Qed.

Lemma len_slot_sectors c slot : len (slot_sectors c slot) = OBJECT_SERVICE_SLOT_SECTOR_COUNT.
Proof. unfold slot_sectors, len. by rewrite length_fmap, length_range. Qed.

Lemma slot_sectors_ok c slot : sectors_full c -> image_ok (slot_sectors c slot).
Proof.
  intros Hc. split; [apply len_slot_sectors|]. intros i s Hi. pose proof (proj1 (get_Some _ _ _) Hi) as [Hr _].
  rewrite len_slot_sectors in Hr. rewrite get_slot_sectors in Hi by done. injection Hi as <-. apply Hc.
Qed.

(** An image that agrees with the device sector by sector. *)
Lemma slot_sectors_eq c slot image :
  len image = OBJECT_SERVICE_SLOT_SECTOR_COUNT ->
  (forall i, 0 <= i < OBJECT_SERVICE_SLOT_SECTOR_COUNT -> get image i = Some (c (sector_for_image_index slot i))) ->
  image = slot_sectors c slot.
Proof.
  intros Hl Hg. apply get_ext. intros i. destruct (decide (0 <= i < OBJECT_SERVICE_SLOT_SECTOR_COUNT)) as [Hi|Hi].
  - by rewrite Hg, get_slot_sectors.
  - destruct (get image i) eqn:H1; [apply get_Some in H1 as [? _]; lia|].
    destruct (get (slot_sectors c slot) i) eqn:H2; [apply get_Some in H2 as [? _]; rewrite len_slot_sectors in *; lia|done].
Qed.

Lemma slot_snapshot_same c c' slot :
  (forall i, 0 <= i < OBJECT_SERVICE_SLOT_SECTOR_COUNT ->
     c' (sector_for_image_index slot i) = c (sector_for_image_index slot i)) ->
  slot_snapshot c' slot = slot_snapshot c slot.
Proof.
  intros Hs. unfold slot_snapshot, slot_committed. rewrite !Hs by done.
  assert (slot_sectors c' slot = slot_sectors c slot) as ->; [|done].
  apply slot_sectors_eq; [apply len_slot_sectors|]. intros i Hi. by rewrite get_slot_sectors, Hs.
Qed.

(** ** Reading *)

Section reading.
Context {D : Type} `{SectorDeviceLaws D}.

Lemma device_full d : sectors_full (disk_bytes d).
Proof. intros n. apply disk_bytes_len. Qed.

Lemma read_checkpoint_sector_spec d n :
  wpA (read_checkpoint_sector n) d (fun b d' => b = disk_bytes d n /\ disk_bytes d' = disk_bytes d)
    (fun _ d' => unreliable D /\ disk_bytes d' = disk_bytes d).
Proof. apply wpA_zoom. eapply wpA_mono; [apply read_sector_law|done|done]. Qed.

Lemma read_each_spec slot indices d (image : list (list byte)) :
  Forall (fun i => 0 <= i < len image) indices ->
  wpA (read_each slot indices image) d
    (fun image' d' => disk_bytes d' = disk_bytes d /\ len image' = len image /\
       (forall i, get image' i = if decide (i ∈ indices) then Some (disk_bytes d (sector_for_image_index slot i)) else get image i))
    (fun _ d' => unreliable D /\ disk_bytes d' = disk_bytes d).
Proof.
  revert d image. induction indices as [|i rest IH]; intros d image Hl; cbn [read_each].
  { apply wpA_ret. split_and!; [done..|]. intros i. by rewrite decide_False by apply not_elem_of_nil. }
  apply Forall_cons in Hl as [Hi Hrest]. act_step.
  eapply wpA_mono; [apply read_checkpoint_sector_spec| |done]. intros b d1 [-> Hd1].
  act_step. act_step. apply wp_index_set; [done|]. eapply wpA_mono; [apply IH| |by intros _ d2 [Hu ->]].
  { eapply Forall_impl; [exact Hrest|]. intros j. by rewrite len_insert. }
  intros image' d2 (Hd2 & Hl' & Hg). split_and!; [congruence|by rewrite Hl', len_insert|].
  intros j. rewrite Hg, Hd1. destruct (decide (j ∈ rest)) as [Hj|Hj].
  - by rewrite decide_True by by right.
  - destruct (decide (j = i)) as [->|Hne].
    + by rewrite decide_True, get_insert_eq by (done || left).
    + rewrite decide_False, get_insert_ne; [done|lia|done|]. by intros [?|?]%elem_of_cons.
Qed.

Lemma read_slot_image_spec slot d :
  wpA (read_slot_image slot) d
    (fun image d' => image = slot_sectors (disk_bytes d) slot /\ disk_bytes d' = disk_bytes d)
    (fun _ d' => unreliable D /\ disk_bytes d' = disk_bytes d).
Proof.
  eapply wpA_mono; [by apply read_each_spec, range_forall| |done].
  intros image d' (Hd & Hl & Hg). split; [|done]. apply slot_sectors_eq; [done|].
  intros i Hi. by rewrite Hg, decide_True by by apply elem_of_range.
Qed.

Lemma slot_probe_total h c :
  len h = SECTOR_SIZE -> len c = SECTOR_SIZE -> exists b, slot_probe_is_committed h c = Ok b.
Proof.
  intros Hh Hc. unfold slot_probe_is_committed.
  destruct (sector_read_total h Hh 8 0) as (m & _ & ->); [done..|]. rewrite ok_bind. case_match; [by eexists|].
  destruct (sector_read_total c Hc 8 0) as (m' & _ & ->); [done..|]. rewrite ok_bind. case_match; [by eexists|].
  unfold sector_read_u64. destruct (sector_read_total h Hh 8 24) as (x & _ & ->); [done..|].
  destruct (sector_read_total c Hc 8 8) as (y & _ & ->); [done..|]. cbn [fmap outcome_fmap]. rewrite !ok_bind. by eexists.
Qed.

(** Reading a slot returns what the bytes hold, whatever they are. *)
Lemma read_committed_slot_spec slot d :
  wpA (read_committed_slot_snapshot slot) d
    (fun s d' => s = slot_snapshot (disk_bytes d) slot /\ disk_bytes d' = disk_bytes d)
    (fun _ d' => unreliable D /\ disk_bytes d' = disk_bytes d).
Proof.
  unfold read_committed_slot_snapshot.
  act_step. eapply wpA_mono; [apply read_checkpoint_sector_spec| |done]. intros h d1 [-> Hd1].
  act_step. eapply wpA_mono; [apply read_checkpoint_sector_spec| |by intros _ d2 [Hu ->]]. intros c d2 [-> Hd2]. rewrite Hd1 in *.
  unfold slot_snapshot, slot_committed. 
  destruct (slot_probe_total (disk_bytes d (sector_for_image_index slot HEADER_IMAGE_INDEX))
    (disk_bytes d (sector_for_image_index slot COMMIT_IMAGE_INDEX))) as [b ->]; [apply disk_bytes_len..|]. act_step. act_step. apply wp_ok.
  destruct b; cbn [negb]; [|by apply wpA_ret].
  act_step. act_step. apply wp_index_set; [done|]. act_step. act_step. apply wp_index_set; [done|].
  act_step. eapply wpA_mono; [apply read_each_spec, range_forall| |by intros _ d3 [Hu ->]].
  { intros i Hi. rewrite !len_insert. change (len blank_image) with 26. change OBJECT_IMAGE_INDEX with 1 in Hi.
    change COMMIT_IMAGE_INDEX with 25 in Hi. lia. }
  intros image d3 (Hd3 & Hl & Hg).
  assert (image = slot_sectors (disk_bytes d) slot) as ->.
  { apply slot_sectors_eq; [by rewrite Hl, !len_insert|]. intros i Hi. rewrite Hg, Hd2.
    change OBJECT_SERVICE_SLOT_SECTOR_COUNT with 26 in Hi.
    destruct (decide (i ∈ _)) as [|Hn]; [done|]. rewrite elem_of_range in Hn. change OBJECT_IMAGE_INDEX with 1 in Hn.
    change COMMIT_IMAGE_INDEX with 25 in *. unfold HEADER_IMAGE_INDEX in *.
    assert (i = 0 \/ i = 25) as [->| ->] by lia.
    - rewrite get_insert_ne, get_insert_eq by (rewrite ?len_insert; done). done.
    - rewrite get_insert_eq by (rewrite ?len_insert; done). done. }
  pose proof (decode_ordinary_slot_total _ (slot_sectors_ok _ slot (device_full d))) as Ht. act_step.
  destruct (decode_ordinary_slot _); cbn [result_ok]; try done; by apply wp_ok; split; [|congruence].
Qed.

Lemma with_restored_spec {R} (f : option ObjectServiceSnapshot -> R) d :
  wpA (with_restored_object_service_checkpoint f) d
    (fun r d' => r = f (recovered (disk_bytes d)) /\ disk_bytes d' = disk_bytes d)
    (fun _ d' => unreliable D /\ disk_bytes d' = disk_bytes d).
Proof.
  unfold with_restored_object_service_checkpoint.
  act_step. eapply wpA_mono; [apply read_committed_slot_spec| |done]. intros s1 d1 [-> Hd1].
  act_step. eapply wpA_mono; [apply read_committed_slot_spec| |by intros _ d2 [Hu ->]]. intros s2 d2 [-> Hd2].
  apply wpA_ret. rewrite Hd2, Hd1. done.
Qed.
End reading.

(** ** Devices with checkpoints *)

(** The generation in the header of a slot, and the commit sector that goes
    with it. *)
Definition generation_bytes (c : Z -> list byte) (slot : CheckpointSlot) : list byte :=
  take 8 (drop 24 (c (sector_for_image_index slot HEADER_IMAGE_INDEX))).

Definition commit_of (g : list byte) : list byte := COMMIT_MAGIC ++ g ++ zeros (SECTOR_SIZE - 16).

(** The commit sector of an ordinary slot is at most the one of its header: a
    byte that is not zero is the byte of the commit marker. *)
Definition commit_bounded (c : Z -> list byte) (slot : CheckpointSlot) : Prop :=
  forall i b, get (c (sector_for_image_index slot COMMIT_IMAGE_INDEX)) i = Some b ->
    b = x00 \/ get (commit_of (generation_bytes c slot)) i = Some b.

(** A slot is not committed, or it holds a snapshot of its parity. *)
Record slot_ok (c : Z -> list byte) (slot : CheckpointSlot) : Prop := {
  sl_bounded : commit_bounded c slot;
  sl_image : slot_committed c slot = true -> exists s g,
    snapshot_wf s /\ uint 64 g /\ slot_for_generation g = slot /\ image_of slot s g (slot_sectors c slot);
}.

Record disk_ok (c : Z -> list byte) : Prop := {
  dk_full : sectors_full c;
  dk_slot slot : is_candidate_slot slot = false -> slot_ok c slot;
}.

Lemma sector_read_inv (b : list byte) n o bs :
  len b = SECTOR_SIZE -> 0 <= n -> 0 <= o -> o + n <= SECTOR_SIZE ->
  sector_read (E := GeneralStoragePersistenceError) n b o = Ok bs ->
  bs = take (Z.to_nat n) (drop (Z.to_nat o) b).
Proof.
  intros Hb Hn Ho Hs. unfold sector_read.
  rewrite (proj2 (get_range_Some b o (o + n) (take (Z.to_nat n) (drop (Z.to_nat o) b)))).
  - by intros [= <-].
  - split_and!; [lia..|]. do 2 f_equal. lia.
Qed.

(** The commit sector of a committed slot. *)
Lemma committed_sector c slot :
  sectors_full c -> commit_bounded c slot -> slot_committed c slot = true ->
  c (sector_for_image_index slot COMMIT_IMAGE_INDEX) = commit_of (generation_bytes c slot).
Proof.
  intros Hf Hb. unfold slot_committed, slot_probe_is_committed.
  set (h := c (sector_for_image_index slot HEADER_IMAGE_INDEX)). set (m := c (sector_for_image_index slot COMMIT_IMAGE_INDEX)).
  pose proof (Hf (sector_for_image_index slot HEADER_IMAGE_INDEX) : len h = _) as Hh.
  pose proof (Hf (sector_for_image_index slot COMMIT_IMAGE_INDEX) : len m = _) as Hm.
  destruct (sector_read_total h Hh 8 0) as (x & _ & ->); [done..|]. rewrite ok_bind.
  destruct (negb (bool_decide (x = CHECKPOINT_MAGIC))); [done|].
  destruct (sector_read_total m Hm 8 0) as (y & _ & Hy); [done..|]. rewrite Hy, ok_bind.
  apply sector_read_inv in Hy; [|done..]. destruct (bool_decide_reflect (y = COMMIT_MAGIC)) as [Hmagic|]; [|done]. cbn [negb].
  unfold sector_read_u64. destruct (sector_read_total h Hh 8 24) as (u & Hlu & Hu); [done..|].
  destruct (sector_read_total m Hm 8 8) as (v & Hlv & Hv); [done..|]. rewrite Hu, Hv. cbn [fmap outcome_fmap].
  rewrite !ok_bind. intros Heq%Z.eqb_eq. apply le_val_inj in Heq; [|unfold len in *; lia].
  apply sector_read_inv in Hu; [|done..]. apply sector_read_inv in Hv; [|done..].
  assert (generation_bytes c slot = v) as Hgv by (rewrite <- Heq, Hu; done).
  rewrite Hgv. unfold commit_of. rewrite <- Hmagic.
  rewrite <- (take_drop 8 m) at 1. rewrite <- (take_drop 8 (drop 8 m)) at 1.
  change (drop (Z.to_nat 0) m) with m in Hy. change (Z.to_nat 8) with 8%nat in *. rewrite <- Hy, <- Hv. do 2 f_equal.
  rewrite drop_drop. simpl. apply get_ext. intros i. destruct (decide (0 <= i < 496)) as [Hi|Hi].
  - destruct (proj2 (get_is_Some (drop 16 m) i)) as [b Hg].
    { unfold SECTOR_SIZE, len in *. rewrite length_drop. lia. }
    rewrite Hg. apply get_Some in Hg as [_ Hg]. rewrite lookup_drop in Hg.
    assert (get (zeros (SECTOR_SIZE - 16)) i = Some x00) as Hz.
    { apply get_replicate. split; [done|]. change (Z.of_nat _) with 496. lia. }
    rewrite Hz. f_equal. destruct (Hb (i + 16) b) as [->|Hc]; [|done|].
    { apply get_Some. fold m. unfold SECTOR_SIZE in Hm. split; [lia|]. rewrite <- Hg. f_equal. lia. }
    unfold commit_of in Hc. rewrite Hgv in Hc. apply get_Some in Hc as [_ Hc].
    rewrite app_assoc, lookup_app_r in Hc by (rewrite length_app; unfold len in *; simpl; lia).
    apply lookup_replicate in Hc as [-> _]. done.
  - destruct (get (drop 16 m) i) eqn:H1; [apply get_Some in H1 as [? _]; unfold SECTOR_SIZE, len in *; rewrite length_drop in *; lia|].
    destruct (get (zeros _) i) eqn:H2; [apply get_replicate in H2 as [_ ?]; unfold SECTOR_SIZE in *; lia|done].
Qed.

(** ** Interrupted checkpoints *)

(** Sectors outside the slot are as before. *)
Definition slot_frame (slot : CheckpointSlot) (c c' : Z -> list byte) : Prop :=
  forall n, (forall i, 0 <= i < OBJECT_SERVICE_SLOT_SECTOR_COUNT -> n <> sector_for_image_index slot i) -> c' n = c n.

(** Sectors of the slot before the commit sector. *)
Definition slot_body (slot : CheckpointSlot) (c : Z -> list byte) (image : ObjectServiceSlotImage) : Prop :=
  forall i, 0 <= i < COMMIT_IMAGE_INDEX -> get image i = Some (c (sector_for_image_index slot i)).

(** Where a write of an image can stop: in the erasure of the old commit
    sector, after it, or in the write of the new commit sector. *)
Inductive interrupted (slot : CheckpointSlot) (image : ObjectServiceSlotImage) (c c' : Z -> list byte) : Prop :=
| erasing :
    slot_body slot c' (slot_sectors c slot) ->
    torn (c (sector_for_image_index slot COMMIT_IMAGE_INDEX)) blank_sector
      (c' (sector_for_image_index slot COMMIT_IMAGE_INDEX)) -> interrupted slot image c c'
| erased :
    c' (sector_for_image_index slot COMMIT_IMAGE_INDEX) = blank_sector -> interrupted slot image c c'
| committing commit :
    slot_body slot c' image -> get image COMMIT_IMAGE_INDEX = Some commit ->
    torn blank_sector commit (c' (sector_for_image_index slot COMMIT_IMAGE_INDEX)) -> interrupted slot image c c'.

Section writing.
Context {D : Type} `{SectorDeviceLaws D}.

Lemma write_checkpoint_sector_spec d n bytes :
  len bytes = SECTOR_SIZE ->
  wpA (write_checkpoint_sector n bytes) d
    (fun _ d' => disk_bytes d' n = bytes /\ forall m, m <> n -> disk_bytes d' m = disk_bytes d m)
    (fun _ d' => unreliable D /\ torn (disk_bytes d n) bytes (disk_bytes d' n) /\
       forall m, m <> n -> disk_bytes d' m = disk_bytes d m).
Proof. intros Hb. apply wpA_zoom. eapply wpA_mono; [by apply write_sector_law|done|done]. Qed.

Section slot.
Context (slot : CheckpointSlot) (image : ObjectServiceSlotImage) (Hok : image_ok image).

Local Abbreviation sector := (sector_for_image_index slot).

Lemma sector_ne i j :
  0 <= i < OBJECT_SERVICE_SLOT_SECTOR_COUNT -> 0 <= j < OBJECT_SERVICE_SLOT_SECTOR_COUNT -> i <> j -> sector i <> sector j.
Proof. intros Hi Hj Hne Heq. by destruct (sector_inj slot slot i j Hi Hj Heq). Qed.

Lemma frame_step i c0 c c' :
  0 <= i < OBJECT_SERVICE_SLOT_SECTOR_COUNT -> slot_frame slot c0 c ->
  (forall m, m <> sector i -> c' m = c m) -> slot_frame slot c0 c'.
Proof. intros Hi Hf Hm n Hn. rewrite Hm by by apply Hn. by apply Hf. Qed.

(** The loop over the tables. *)
Lemma write_each_spec c0 indices d :
  Forall (fun i => 0 <= i < COMMIT_IMAGE_INDEX) indices -> slot_frame slot c0 (disk_bytes d) ->
  wpA (write_each slot image indices) d
    (fun _ d' => slot_frame slot c0 (disk_bytes d') /\
       disk_bytes d' (sector COMMIT_IMAGE_INDEX) = disk_bytes d (sector COMMIT_IMAGE_INDEX) /\
       (forall i, 0 <= i < COMMIT_IMAGE_INDEX ->
          if decide (i ∈ indices) then get image i = Some (disk_bytes d' (sector i))
          else disk_bytes d' (sector i) = disk_bytes d (sector i)))
    (fun _ d' => unreliable D /\ slot_frame slot c0 (disk_bytes d') /\
       disk_bytes d' (sector COMMIT_IMAGE_INDEX) = disk_bytes d (sector COMMIT_IMAGE_INDEX)).
Proof.
  revert d. induction indices as [|i rest IH]; intros d Hl Hf; cbn [write_each].
  { apply wpA_ret. split_and!; [done..|]. intros i Hi. by rewrite decide_False by apply not_elem_of_nil. }
  apply Forall_cons in Hl as [Hi Hrest].
  pose proof before_commit as Hin.
  destruct (sector_present (E := GeneralStoragePersistenceError) image i) as (b & Hg & Hlb & ->); [done|by apply Hin|].
  assert (sector COMMIT_IMAGE_INDEX <> sector i) as Hne by (apply sector_ne; [done|by apply Hin|lia]).
  act_step. act_step. apply wp_ok. act_step. eapply wpA_mono; [by apply write_checkpoint_sector_spec| |].
  2:{ intros _ d1 (Hu & _ & Hd1). split_and!; [done|by eapply frame_step; [apply Hin|..]|by apply Hd1]. }
  intros [] d1 [Hb Hd1]. assert (slot_frame slot c0 (disk_bytes d1)) as Hf1 by by eapply frame_step; [apply Hin|..].
  eapply wpA_mono; [by apply IH| |].
  - intros [] d2 (Hf2 & Hc2 & Ht2). split_and!; [done|by rewrite Hc2, Hd1|]. intros j Hj. specialize (Ht2 j Hj).
    destruct (decide (j ∈ rest)) as [Hr|Hr]; [by rewrite decide_True by by right|].
    destruct (decide (j = i)) as [->|Hji].
    + rewrite decide_True by left. by rewrite Ht2, Hb.
    + rewrite decide_False by by intros [?|?]%elem_of_cons. rewrite Ht2. apply Hd1, sector_ne; [by apply Hin..|done].
  - intros _ d2 (Hu & Hf2 & Hc2). split_and!; [done..|]. by rewrite Hc2, Hd1.
Qed.

Lemma write_slot_image_spec d :
  wpA (write_slot_image slot image) d
    (fun _ d' => slot_frame slot (disk_bytes d) (disk_bytes d') /\ image = slot_sectors (disk_bytes d') slot)
    (fun _ d' => unreliable D /\ slot_frame slot (disk_bytes d) (disk_bytes d') /\ interrupted slot image (disk_bytes d) (disk_bytes d')).
Proof.
  unfold write_slot_image. set (c0 := disk_bytes d).
  destruct (sector_present (E := GeneralStoragePersistenceError) image HEADER_IMAGE_INDEX) as (h & Hgh & Hlh & ->); [done..|].
  destruct (sector_present (E := GeneralStoragePersistenceError) image COMMIT_IMAGE_INDEX) as (k & Hgk & Hlk & ->); [done..|].
  assert (slot_frame slot c0 c0) as Hf0 by done.
  act_step. eapply wpA_mono; [by apply write_checkpoint_sector_spec| |].
  2:{ intros _ d1 (Hu & Ht & Hd1). split_and!; [done|by eapply (frame_step COMMIT_IMAGE_INDEX)|]. apply erasing; [|done].
      intros i Hi. rewrite get_slot_sectors by by apply before_commit.
      f_equal. symmetry. apply Hd1, sector_ne; [by apply before_commit|done|lia]. }
  intros [] d1 [Hb1 Hd1]. assert (slot_frame slot c0 (disk_bytes d1)) as Hf1 by by eapply (frame_step COMMIT_IMAGE_INDEX).
  act_step. eapply wpA_mono; [apply (write_each_spec c0); [|done]| |].
  { apply range_forall. intros i. change OBJECT_IMAGE_INDEX with 1. lia. }
  2:{ intros _ d2 (Hu & Hf2 & Hc2). split_and!; [done..|]. apply erased. by rewrite Hc2. }
  intros [] d2 (Hf2 & Hc2 & Ht2). rewrite Hb1 in Hc2.
  act_step. act_step. apply wp_ok. act_step. eapply wpA_mono; [by apply write_checkpoint_sector_spec| |].
  2:{ intros _ d3 (Hu & _ & Hd3). split_and!; [done|by eapply (frame_step HEADER_IMAGE_INDEX)|]. apply erased.
      rewrite Hd3; [done|]. by apply sector_ne. }
  intros [] d3 [Hb3 Hd3]. assert (slot_frame slot c0 (disk_bytes d3)) as Hf3 by by eapply (frame_step HEADER_IMAGE_INDEX).
  assert (disk_bytes d3 (sector COMMIT_IMAGE_INDEX) = blank_sector) as Hc3 by (rewrite Hd3; [done|by apply sector_ne]).
  assert (slot_body slot (disk_bytes d3) image) as Hbody.
  { intros i Hi. destruct (decide (i = 0)) as [->|Hne]; [by change 0 with HEADER_IMAGE_INDEX; rewrite Hb3|].
    rewrite Hd3 by (apply sector_ne; [by apply before_commit|done|done]).
    specialize (Ht2 i Hi). rewrite decide_True in Ht2 by (apply elem_of_range; change OBJECT_IMAGE_INDEX with 1; lia). done. }
  act_step. act_step. apply wp_ok. eapply wpA_mono; [by apply write_checkpoint_sector_spec| |].
  - intros [] d4 [Hb4 Hd4]. split; [by eapply (frame_step COMMIT_IMAGE_INDEX)|]. apply slot_sectors_eq; [apply Hok|].
    change OBJECT_SERVICE_SLOT_SECTOR_COUNT with (COMMIT_IMAGE_INDEX + 1). intros i Hi.
    destruct (decide (i = COMMIT_IMAGE_INDEX)) as [->|Hne]; [by rewrite Hb4|]. rewrite Hd4.
    + apply Hbody. lia.
    + apply sector_ne; [apply before_commit; lia|done|done].
  - intros _ d4 (Hu & Ht & Hd4). split_and!; [done|by eapply (frame_step COMMIT_IMAGE_INDEX)|]. rewrite Hc3 in Ht. eapply committing; [|done|done].
    intros i Hi. rewrite Hd4; [by apply Hbody|]. apply sector_ne; [by apply before_commit|done|lia].
Qed.
End slot.
End writing.

(** ** What a checkpoint leaves *)

Lemma commit_of_generation g : commit_of (le_bytes 8 g) = commit_image g.
Proof. unfold commit_of, commit_image, commit_bytes. by rewrite <- app_assoc. Qed.

(** The snapshot of an image that is on the device. *)
Lemma slot_snapshot_image c slot s g :
  sectors_full c -> snapshot_wf s -> uint 64 g -> is_candidate_slot slot = false ->
  image_of slot s g (slot_sectors c slot) ->
  slot_snapshot c slot = (if slot_committed c slot then Some (set_snapshot_root g (snap_bitmap s) s) else None).
Proof.
  intros Hf Hs Hg Hord Him. unfold slot_snapshot, decode_ordinary_slot.
  rewrite (image_slot_spec slot s g _ Him), ok_bind, Hord. cbn [reject]. rewrite ok_bind.
  by rewrite (decode_slot_spec slot s g _ Hs Hg Him).
Qed.

Lemma image_committed c slot s g :
  sectors_full c -> snapshot_wf s -> uint 64 g -> image_of slot s g (slot_sectors c slot) -> slot_committed c slot = true.
Proof.
  intros Hf Hs Hg Him. destruct (header_sector slot s g _ Him) as (b & _ & Hgb & Hl & Hfr & cs & _ & _ & Hbk).
  rewrite get_slot_sectors in Hgb by done. injection Hgb as Hgb.
  pose proof (im_commit _ _ _ _ Him) as Hc. rewrite get_slot_sectors in Hc by done. injection Hc as Hc.
  unfold slot_committed, slot_probe_is_committed. rewrite Hgb, Hc.
  unfold header_front in Hfr. rewrite holds_at_app in Hfr. destruct Hfr as [Hm _].
  unfold header_back in Hbk. rewrite holds_at_app in Hbk. destruct Hbk as [Hgen _].
  destruct (commit_image_holds g) as [Hcm Hcg]. pose proof (len_commit_image g) as Hlc.
  rewrite (sector_read_at b 0 8 CHECKPOINT_MAGIC), ok_bind by done. rewrite bool_decide_eq_true_2 by done. cbn [negb].
  rewrite (sector_read_at _ 0 8 COMMIT_MAGIC), ok_bind by done. rewrite bool_decide_eq_true_2 by done. cbn [negb].
  rewrite (sector_read_u64_at b 24 g), ok_bind by done. rewrite (sector_read_u64_at _ 8 g), ok_bind by done.
  apply Z.eqb_refl.
Qed.

(** The header of an image carries its generation. *)
Lemma image_generation_bytes c slot s g image :
  sectors_full c -> snapshot_wf s -> uint 64 g -> image_of slot s g image -> slot_body slot c image ->
  generation_bytes c slot = le_bytes 8 g.
Proof.
  intros Hf Hs Hg Him Hbody. destruct (header_sector slot s g _ Him) as (b & _ & Hgb & Hl & _ & cs & _ & _ & Hbk).
  rewrite (Hbody HEADER_IMAGE_INDEX) in Hgb by done. injection Hgb as Hgb. unfold generation_bytes. rewrite Hgb.
  unfold header_back in Hbk. rewrite holds_at_app in Hbk. destruct Hbk as [Hgen _].
  pose proof (get_range_holds_at b 24 8 (le_bytes 8 g) Hgen) as Hr.
  rewrite len_le_bytes in Hr. specialize (Hr ltac:(done) eq_refl ltac:(by rewrite Hl)).
  apply get_range_Some in Hr as (_ & _ & Hr). symmetry. exact Hr.
Qed.

(** The slot whose write was interrupted. *)
Section outcome.
Context (c c' : Z -> list byte) (slot : CheckpointSlot) (s : ObjectServiceSnapshot) (g : Z) (image : ObjectServiceSlotImage).
Context (Hfull : sectors_full c) (Hfull' : sectors_full c') (Hord : is_candidate_slot slot = false).
Context (Hs : snapshot_wf s) (Hg : uint 64 g) (Hslot : slot_for_generation g = slot) (Him : image_of slot s g image).

Local Abbreviation commit_at := (sector_for_image_index slot COMMIT_IMAGE_INDEX).
Local Abbreviation new := (set_snapshot_root g (snap_bitmap s) s).

Lemma written_slot_ok :
  image = slot_sectors c' slot -> slot_ok c' slot /\ slot_snapshot c' slot = Some new.
Proof.
  intros Heq. rewrite Heq in Him. split; [split|].
  - intros i b Hi. right.
    assert (slot_body slot c' (slot_sectors c' slot)) as Hb.
    { intros j Hj. apply get_slot_sectors. by apply before_commit. }
    rewrite (image_generation_bytes c' slot s g _ Hfull' Hs Hg Him Hb), commit_of_generation.
    pose proof (im_commit _ _ _ _ Him) as Hc. rewrite get_slot_sectors in Hc by done. injection Hc as Hc. by rewrite <- Hc.
  - intros _. exists s, g. done.
  - rewrite (slot_snapshot_image c' slot s g) by done. by rewrite (image_committed c' slot s g).
Qed.

Lemma same_slot_ok :
  slot_ok c slot ->
  (forall i, 0 <= i < OBJECT_SERVICE_SLOT_SECTOR_COUNT ->
     c' (sector_for_image_index slot i) = c (sector_for_image_index slot i)) ->
  slot_ok c' slot /\ slot_snapshot c' slot = slot_snapshot c slot.
Proof.
  intros [Hb Hi] Hsame. split; [|by apply slot_snapshot_same].
  assert (slot_sectors c' slot = slot_sectors c slot) as Hsec.
  { symmetry. apply slot_sectors_eq; [apply len_slot_sectors|]. intros i Hr. by rewrite get_slot_sectors, Hsame. }
  split.
  - intros i b. unfold generation_bytes. rewrite !Hsame by done. apply Hb.
  - unfold slot_committed. rewrite Hsec, !Hsame by done. exact Hi.
Qed.

Lemma uncommitted_slot_ok :
  commit_bounded c' slot -> slot_committed c' slot = false -> slot_ok c' slot /\ slot_snapshot c' slot = None.
Proof. intros Hb Hc. split; [split; [done|]|unfold slot_snapshot]; by rewrite Hc. Qed.

Lemma erased_slot_ok :
  c' commit_at = blank_sector -> slot_ok c' slot /\ slot_snapshot c' slot = None.
Proof.
  intros Hb. apply uncommitted_slot_ok.
  - intros i b Hi. rewrite Hb in Hi. left. by apply get_replicate in Hi as [-> _].
  - unfold slot_committed, slot_probe_is_committed. rewrite Hb.
    destruct (sector_read_total _ (Hfull' (sector_for_image_index slot HEADER_IMAGE_INDEX)) 8 0) as (m & _ & ->); [done..|].
    rewrite ok_bind. destruct (negb (bool_decide (m = CHECKPOINT_MAGIC))); [done|].
    change (sector_read 8 blank_sector 0) with (Ok (zeros 8) : PE (list byte)). rewrite ok_bind.
    by rewrite bool_decide_eq_false_2 by (vm_compute; congruence).
Qed.

Lemma erasing_slot_ok :
  slot_ok c slot -> slot_body slot c' (slot_sectors c slot) -> torn (c commit_at) blank_sector (c' commit_at) ->
  slot_ok c' slot /\ (slot_snapshot c' slot = slot_snapshot c slot \/ slot_snapshot c' slot = None).
Proof.
  intros Hok Hbody Ht.
  assert (forall i, 0 <= i < COMMIT_IMAGE_INDEX -> c' (sector_for_image_index slot i) = c (sector_for_image_index slot i)) as Hsame.
  { intros i Hi. specialize (Hbody i Hi). rewrite get_slot_sectors in Hbody by by apply before_commit. by injection Hbody. }
  assert (generation_bytes c' slot = generation_bytes c slot) as Hgen by (unfold generation_bytes; by rewrite Hsame).
  assert (commit_bounded c' slot) as Hbound.
  { intros i b Hi. destruct (Ht i) as [Hx|Hx]; rewrite Hx in Hi.
    - rewrite Hgen. by apply (sl_bounded c slot Hok).
    - left. by apply get_replicate in Hi as [-> _]. }
  destruct (slot_committed c' slot) eqn:Hc.
  - pose proof (committed_sector c' slot Hfull' Hbound Hc) as Hnow. rewrite Hgen in Hnow.
    assert (c commit_at = c' commit_at) as Heq.
    { rewrite Hnow. apply get_ext. intros i. destruct (get (c commit_at) i) as [b|] eqn:Hi.
      - destruct (sl_bounded c slot Hok i b Hi) as [->|Hb]; [|done].
        destruct (Ht i) as [Hx|Hx]; rewrite Hnow in Hx; rewrite Hx; [done|]. symmetry. apply get_replicate. split; [done|].
        apply get_Some in Hi as [Hr _]. rewrite Hfull in Hr. done.
      - destruct (get (commit_of _) i) eqn:Hi'; [|done]. exfalso. rewrite <- Hnow in Hi'.
        apply get_Some in Hi' as [Hr _]. rewrite Hfull', <- (Hfull commit_at) in Hr. apply get_is_Some in Hr as [? Hr]. congruence. }
    destruct same_slot_ok as [Hok' Hsn]; [done| |split; [done|by left]].
    intros i Hi. destruct (decide (i = COMMIT_IMAGE_INDEX)) as [->|Hne]; [done|]. apply Hsame.
    change OBJECT_SERVICE_SLOT_SECTOR_COUNT with (COMMIT_IMAGE_INDEX + 1) in Hi. lia.
  - destruct (uncommitted_slot_ok Hbound Hc) as [? ?]. split; [done|by right].
Qed.

Lemma committing_slot_ok :
  slot_body slot c' image -> torn blank_sector (commit_image g) (c' commit_at) ->
  slot_ok c' slot /\ (slot_snapshot c' slot = None \/ slot_snapshot c' slot = Some new).
Proof.
  intros Hbody Ht. pose proof (image_generation_bytes c' slot s g image Hfull' Hs Hg Him Hbody) as Hgen.
  assert (commit_bounded c' slot) as Hbound.
  { intros i b Hi. rewrite Hgen, commit_of_generation. destruct (Ht i) as [Hx|Hx]; rewrite Hx in Hi; [|by right].
    left. by apply get_replicate in Hi as [-> _]. }
  destruct (slot_committed c' slot) eqn:Hc.
  - pose proof (committed_sector c' slot Hfull' Hbound Hc) as Hnow. rewrite Hgen, commit_of_generation in Hnow.
    destruct written_slot_ok as [? ?]; [|split; [done|by right]].
    apply slot_sectors_eq; [apply Him|]. intros i Hi. destruct (decide (i = COMMIT_IMAGE_INDEX)) as [->|Hne].
    + rewrite Hnow. apply Him.
    + apply Hbody. change OBJECT_SERVICE_SLOT_SECTOR_COUNT with (COMMIT_IMAGE_INDEX + 1) in Hi. lia.
  - destruct (uncommitted_slot_ok Hbound Hc) as [? ?]. split; [done|by left].
Qed.

(** An interrupted write keeps the snapshot of the slot, loses it or completes it. *)
Lemma interrupted_slot_ok :
  slot_ok c slot -> interrupted slot image c c' ->
  slot_ok c' slot /\
  (slot_snapshot c' slot = slot_snapshot c slot \/ slot_snapshot c' slot = None \/ slot_snapshot c' slot = Some new).
Proof.
  intros Hok [Hb Ht|Hb|k Hb Hk Ht].
  - destruct (erasing_slot_ok Hok Hb Ht) as [? [?|?]]; auto.
  - destruct (erased_slot_ok Hb) as [? ?]; auto.
  - rewrite (im_commit _ _ _ _ Him) in Hk. injection Hk as <-.
    destruct (committing_slot_ok Hb Ht) as [? [?|?]]; auto.
Qed.
End outcome.

(** A device whose ordinary slots are blank. *)
Lemma blank_disk_ok c :
  sectors_full c ->
  (forall slot, is_candidate_slot slot = false -> c (sector_for_image_index slot COMMIT_IMAGE_INDEX) = blank_sector) ->
  disk_ok c /\ recovered c = None.
Proof.
  intros Hc Hb. split; [split; [done|]|unfold recovered].
  - intros slot Hs. by apply (erased_slot_ok c slot Hc), Hb.
  - rewrite (proj2 (erased_slot_ok c SlotA Hc (Hb SlotA eq_refl))).
    by rewrite (proj2 (erased_slot_ok c SlotB Hc (Hb SlotB eq_refl))).
Qed.

(** ** Crash safety *)

Lemma slot_for_generation_ordinary g : is_candidate_slot (slot_for_generation g) = false.
Proof. unfold slot_for_generation. by destruct (_ =? _). Qed.

Lemma slot_for_generation_cases g : slot_for_generation g = SlotA \/ slot_for_generation g = SlotB.
Proof. unfold slot_for_generation. destruct (_ =? _); auto. Qed.

Lemma snapshot_root_wf s g : snapshot_wf s -> snapshot_wf (set_snapshot_root g (snap_bitmap s) s).
Proof. intros []. by split. Qed.

Lemma slot_snapshot_home c slot t :
  disk_ok c -> is_candidate_slot slot = false -> slot_snapshot c slot = Some t ->
  slot_for_generation (snap_generation t) = slot /\ uint 64 (snap_generation t) /\ snapshot_wf t.
Proof.
  intros [Hf Hd] Hord Ht. destruct (Hd slot Hord) as [_ Him].
  assert (slot_committed c slot = true) as Hc by (unfold slot_snapshot in Ht; by destruct (slot_committed c slot)).
  destruct (Him Hc) as (s & g & Hs & Hg & Hslot & Hi). rewrite (slot_snapshot_image c slot s g), Hc in Ht by done.
  injection Ht as <-. split_and!; [done..|by apply snapshot_root_wf].
Qed.

Lemma select_cases a b t : select_highest_generation a b = Some t -> a = Some t \/ b = Some t.
Proof. unfold select_highest_generation. destruct a, b; try case_match; naive_solver. Qed.

Lemma recovered_wf c t : disk_ok c -> recovered c = Some t -> uint 64 (snap_generation t) /\ snapshot_wf t.
Proof.
  intros Hd [Ht|Ht]%select_cases.
  - destruct (slot_snapshot_home c SlotA t Hd eq_refl Ht) as (_ & Hu & Hw). exact (conj Hu Hw).
  - destruct (slot_snapshot_home c SlotB t Hd eq_refl Ht) as (_ & Hu & Hw). exact (conj Hu Hw).
Qed.

Lemma next_slot_other g g' :
  0 <= g -> g' = g + 1 -> slot_for_generation g' <> slot_for_generation g.
Proof.
  intros Hg ->. unfold slot_for_generation. rewrite (Z.add_mod g 1 2) by done.
  pose proof (Z.mod_pos_bound g 2). destruct (Z.eqb_spec (g mod 2) 1) as [->|]; [done|].
  by assert (g mod 2 = 0) as -> by lia.
Qed.

Lemma next_generation_inv t g :
  uint 64 (snap_generation t) -> next_generation (Some t) = Some g ->
  g = snap_generation t + 1 /\ slot_for_generation g <> slot_for_generation (snap_generation t).
Proof.
  intros [Hlo _]. simpl. unfold checked_add, checked. case_match; [|done]. intros [= <-].
  split; [done|by apply next_slot_other].
Qed.

(** The snapshots of the two slots have the parity of their slot. *)
Definition home_of (slot : CheckpointSlot) (o : option ObjectServiceSnapshot) : Prop :=
  forall t, o = Some t -> slot_for_generation (snap_generation t) = slot /\ uint 64 (snap_generation t).

(** The slot of the next generation does not hold the recovered snapshot. *)
Lemma select_without a b g :
  home_of SlotA a -> home_of SlotB b -> next_generation (select_highest_generation a b) = Some g ->
  select_highest_generation a b = (if decide (slot_for_generation g = SlotA) then b else a).
Proof.
  intros HA HB Hn. destruct (select_highest_generation a b) as [t|] eqn:Hsel.
  - destruct (select_cases a b t Hsel) as [Ha|Hb].
    + destruct (HA t Ha) as [Hh Hu]. destruct (next_generation_inv t g Hu Hn) as [_ Hne]. rewrite Hh in Hne. by rewrite decide_False.
    + destruct (HB t Hb) as [Hh Hu]. destruct (next_generation_inv t g Hu Hn) as [_ Hne]. rewrite Hh in Hne.
      rewrite decide_True; [done|]. by destruct (slot_for_generation_cases g).
  - unfold select_highest_generation in Hsel. destruct a, b; try case_match; try done.
Qed.

(** The snapshot of the next generation is newer than the other slot. *)
Lemma select_next a b g t :
  home_of SlotA a -> home_of SlotB b -> next_generation (select_highest_generation a b) = Some g -> snap_generation t = g ->
  (slot_for_generation g = SlotA -> select_highest_generation (Some t) b = Some t) /\
  (slot_for_generation g = SlotB -> select_highest_generation a (Some t) = Some t).
Proof.
  intros HA HB Hn Ht. pose proof (select_without a b g HA HB Hn) as Hw. split; intros Hg.
  - rewrite decide_True in Hw by done. rewrite Hw in Hn. destruct b as [y|]; [|done].
    destruct (next_generation_inv y g (proj2 (HB y eq_refl)) Hn) as [Hgy _]. simpl.
    by rewrite (proj2 (Z.ltb_ge _ _)) by lia.
  - rewrite decide_False in Hw by (by rewrite Hg). rewrite Hw in Hn. destruct a as [x|]; [|done].
    destruct (next_generation_inv x g (proj2 (HA x eq_refl)) Hn) as [Hgx _]. simpl.
    by rewrite (proj2 (Z.ltb_lt _ _)) by lia.
Qed.

Lemma disk_homes c : disk_ok c -> home_of SlotA (slot_snapshot c SlotA) /\ home_of SlotB (slot_snapshot c SlotB).
Proof.
  intros Hd. split; intros t Ht.
  - destruct (slot_snapshot_home c SlotA t Hd eq_refl Ht) as (H1 & H2 & _). exact (conj H1 H2).
  - destruct (slot_snapshot_home c SlotB t Hd eq_refl Ht) as (H1 & H2 & _). exact (conj H1 H2).
Qed.

(** Recovery when only the slot of the next generation has changed. *)
Lemma recovered_after c c' g t :
  disk_ok c -> next_generation (recovered c) = Some g -> snap_generation t = g ->
  (forall other, is_candidate_slot other = false -> other <> slot_for_generation g -> slot_snapshot c' other = slot_snapshot c other) ->
  let now := slot_snapshot c' (slot_for_generation g) in
  (now = slot_snapshot c (slot_for_generation g) \/ now = None -> recovered c' = recovered c) /\
  (now = Some t -> recovered c' = Some t).
Proof.
  intros Hd Hn Ht Hother. destruct (disk_homes c Hd) as [HA HB]. unfold recovered in *.
  pose proof (select_without _ _ g HA HB Hn) as Hw. destruct (select_next _ _ g t HA HB Hn Ht) as [HsA HsB].
  destruct (decide (slot_for_generation g = SlotA)) as [Hg|Hg].
  - rewrite Hg in *. rewrite (Hother SlotB) by done. cbn zeta. split.
    + intros [->| ->]; [done|]. rewrite Hw. by destruct (slot_snapshot c SlotB).
    + intros ->. by apply HsA.
  - assert (slot_for_generation g = SlotB) as Hg' by by destruct (slot_for_generation_cases g).
    rewrite Hg' in *. rewrite (Hother SlotA) by done. cbn zeta. split.
    + intros [->| ->]; [done|]. rewrite Hw. by destruct (slot_snapshot c SlotA).
    + intros ->. by apply HsB.
Qed.

(** Only the slot of the frame changes. *)
Lemma frame_other c c' slot other :
  slot_frame slot c c' -> other <> slot ->
  forall i, 0 <= i < OBJECT_SERVICE_SLOT_SECTOR_COUNT ->
    c' (sector_for_image_index other i) = c (sector_for_image_index other i).
Proof. intros Hf Hne i Hi. apply Hf. intros j Hj Heq. by destruct (sector_inj other slot i j Hi Hj Heq). Qed.

(** The device after a write that changed the slot of the next generation. *)
Lemma disk_ok_after c c' g t :
  disk_ok c -> sectors_full c' -> next_generation (recovered c) = Some g -> snap_generation t = g ->
  slot_frame (slot_for_generation g) c c' -> slot_ok c' (slot_for_generation g) ->
  let now := slot_snapshot c' (slot_for_generation g) in
  disk_ok c' /\
  (now = slot_snapshot c (slot_for_generation g) \/ now = None -> recovered c' = recovered c) /\
  (now = Some t -> recovered c' = Some t).
Proof.
  intros Hd Hf' Hn Ht Hframe Hok. pose proof (dk_full c Hd) as Hf. split.
  - split; [done|]. intros other Hord. destruct (decide (other = slot_for_generation g)) as [->|Hne]; [done|].
    apply (same_slot_ok c c' other); [by apply Hd|]. by apply (frame_other c c' (slot_for_generation g)).
  - apply recovered_after; [done..|]. intros other _ Hne. apply slot_snapshot_same.
    by apply (frame_other c c' (slot_for_generation g)).
Qed.

Section safety.
Context {D : Type} `{SectorDeviceLaws D}.

(** A checkpoint replaces the recovered snapshot, or, when a device operation
    fails or the power is cut, leaves the old snapshot or the new one. *)
Lemma write_checkpoint_spec s g d :
  disk_ok (disk_bytes d) -> snapshot_wf s -> next_generation (recovered (disk_bytes d)) = Some g -> uint 64 g ->
  let new := set_snapshot_root g (snap_bitmap s) s in
  wpA (write_object_service_checkpoint s) d
    (fun _ d' => disk_ok (disk_bytes d') /\ recovered (disk_bytes d') = Some new)
    (fun _ d' => unreliable D /\ disk_ok (disk_bytes d') /\
       (recovered (disk_bytes d') = recovered (disk_bytes d) \/ recovered (disk_bytes d') = Some new)).
Proof.
  intros Hd Hs Hn Hg new. unfold write_object_service_checkpoint.
  act_step. eapply wpA_mono; [apply with_restored_spec| |intros _ d1 [Hu ->]; exact (conj Hu (conj Hd (or_introl eq_refl)))]. intros r d1 [-> Hd1].
  act_step. act_step. apply wp_expect. exists g. split; [done|].
  pose proof (encode_slot_spec s Hs (slot_for_generation g) g) as He.
  destruct (encode_slot_into_with_generation _ s g true) as [image| | |]; try done. simpl in He.
  act_step. act_step. apply wp_ok. pose proof (to_ok _ _ (im_tables _ _ _ _ He)) as Hiok.
  pose proof (slot_for_generation_ordinary g) as Hord. pose proof (dk_slot _ Hd _ Hord) as Hslot.
  act_step. eapply wpA_mono; [by apply write_slot_image_spec| |]; rewrite Hd1.
  - intros [] d2 [Hframe Heq]. pose proof (device_full d2) as Hf2.
    destruct (written_slot_ok _ _ s g image Hf2 Hord Hs Hg eq_refl He Heq) as [Hok2 Hsn2].
    destruct (disk_ok_after _ _ g new Hd Hf2 Hn eq_refl Hframe Hok2) as (Hd2 & _ & Hr2). specialize (Hr2 Hsn2).
    act_step. eapply wpA_mono; [apply read_slot_image_spec| |intros _ d3 [Hu ->]; exact (conj Hu (conj Hd2 (or_intror Hr2)))]. intros written d3 [-> Hd3].
    rewrite <- Heq. act_step. act_step. rewrite (decode_slot_spec _ s g image Hs Hg He). apply wp_ok. apply wpA_ret.
    by rewrite Hd3.
  - intros _ d2 (Hu & Hframe & Hint). pose proof (device_full d2) as Hf2.
    destruct (interrupted_slot_ok _ _ _ s g image (dk_full _ Hd) Hf2 Hord Hs Hg eq_refl He Hslot Hint) as [Hok2 Hsn2].
    destruct (disk_ok_after _ _ g new Hd Hf2 Hn eq_refl Hframe Hok2) as (Hd2 & Hold & Hnew).
    split; [exact Hu|]. split; [exact Hd2|]. destruct Hsn2 as [Hx|[Hx|Hx]]; [left; apply Hold; left|left; apply Hold; right|right; apply Hnew]; exact Hx.
Qed.

(** After the last generation a checkpoint panics before it writes. *)
Lemma write_checkpoint_exhausted s d r d' :
  next_generation (recovered (disk_bytes d)) = None -> write_object_service_checkpoint s d = (r, d') ->
  disk_bytes d' = disk_bytes d /\ (r = Panic \/ exists e, r = Err e).
Proof.
  intros Hn. pose proof (with_restored_spec next_generation d) as Hr.
  unfold write_object_service_checkpoint, mbind, action_bind, wpA in *.
  destruct (with_restored_object_service_checkpoint next_generation d) as [[next|e| |] d1]; try done.
  - destruct Hr as [-> Hd]. rewrite Hn. cbn. intros [= <- <-]. split; [exact Hd|by left].
  - intros [= <- <-]. split; [exact (proj2 Hr)|]. right. by exists e.
Qed.

Lemma next_generation_uint c g : disk_ok c -> next_generation (recovered c) = Some g -> uint 64 g.
Proof.
  intros Hd. destruct (recovered c) as [t|]; simpl; [|by intros [= <-]].
  unfold checked_add. by intros [-> Hu]%checked_Some.
Qed.
End safety.

(** ** Candidate checkpoints *)

Lemma slot_image_digest_spec {E} image :
  slot_image_digest (E := E) image = Ok (sha256_digest (concat image)).
Proof. apply sha_pieces. Qed.

Lemma candidate_slot g : is_candidate_slot (candidate_slot_for_generation g) = true.
Proof. unfold candidate_slot_for_generation. by destruct (_ =? _). Qed.

Lemma set_root_id s : set_snapshot_root (snap_generation s) (snap_bitmap s) s = s.
Proof. by destruct s. Qed.

Section candidates.
Context {D : Type} `{SectorDeviceLaws D}.

(** Writing a candidate slot does not change what recovery finds. *)
Lemma candidate_frame slot c c' :
  is_candidate_slot slot = true -> slot_frame slot c c' -> recovered c' = recovered c.
Proof.
  intros Hc Hf. unfold recovered. assert (SlotA <> slot /\ SlotB <> slot) as [HA HB] by by destruct slot.
  by rewrite (slot_snapshot_same c c' SlotA (frame_other c c' slot SlotA Hf HA)),
    (slot_snapshot_same c c' SlotB (frame_other c c' slot SlotB Hf HB)).
Qed.

(** The identity of a candidate that is on the device. *)
Definition candidate_on (c : Z -> list byte) (s : ObjectServiceSnapshot) (id : ObjectCheckpointIdentity) : Prop :=
  image_of (candidate_slot_for_generation (snap_generation s)) s (snap_generation s)
    (slot_sectors c (candidate_slot_for_generation (snap_generation s))) /\
  id = {| identity_generation := snap_generation s;
          root_digest := sha256_digest (concat (slot_sectors c (candidate_slot_for_generation (snap_generation s)))) |}.

Lemma write_candidate_spec s d :
  snapshot_wf s -> uint 64 (snap_generation s) ->
  wpA (write_object_service_candidate_checkpoint s) d
    (fun k d' => recovered (disk_bytes d') = recovered (disk_bytes d) /\
       candidate_on (disk_bytes d') s (candidate_identity k) /\ candidate_generation k = snap_generation s)
    (fun _ d' => unreliable D /\ recovered (disk_bytes d') = recovered (disk_bytes d)).
Proof.
  intros Hs Hg. unfold write_object_service_candidate_checkpoint.
  set (slot := candidate_slot_for_generation (snap_generation s)). pose proof (candidate_slot (snap_generation s) : is_candidate_slot slot = true) as Hc.
  pose proof (encode_slot_spec s Hs slot (snap_generation s)) as He.
  destruct (encode_slot_into_with_generation slot s _ true) as [image| | |]; [|destruct He..]. simpl in He.
  act_step. act_step. apply wp_ok. pose proof (to_ok _ _ (im_tables _ _ _ _ He)) as Hiok.
  act_step. eapply wpA_mono; [exact (write_slot_image_spec slot image Hiok d)| |].
  2:{ intros _ d1 (Hu & Hf & _). exact (conj Hu (candidate_frame slot _ _ Hc Hf)). }
  intros [] d1 [Hf Heq]. pose proof (candidate_frame slot _ _ Hc Hf) as Hr.
  act_step. eapply wpA_mono; [exact (read_slot_image_spec slot d1)| |intros _ d2 [Hu ->]; exact (conj Hu Hr)]. intros written d2 [-> Hd2].
  act_step. act_step. unfold object_candidate_checkpoint_identity_from_image. rewrite <- Heq.
  rewrite (decode_slot_spec slot s _ image Hs Hg He), ok_bind, (image_slot_spec slot s _ image He), ok_bind, Hc. cbn [negb reject].
  rewrite ok_bind, slot_image_digest_spec, ok_bind. apply wp_ok. apply wpA_ret. rewrite Hd2. split_and!; [exact Hr|split|reflexivity].
  - fold slot. rewrite <- Heq. exact He.
  - fold slot. rewrite <- Heq. reflexivity.
Qed.

Lemma read_candidate_spec s id d :
  snapshot_wf s -> uint 64 (snap_generation s) -> candidate_on (disk_bytes d) s id ->
  wpA (read_object_service_candidate_checkpoint id) d (fun t d' => t = s /\ disk_bytes d' = disk_bytes d)
    (fun _ d' => unreliable D /\ disk_bytes d' = disk_bytes d).
Proof.
  intros Hs Hg [Him ->]. set (slot := candidate_slot_for_generation (snap_generation s)) in *.
  unfold read_object_service_candidate_checkpoint, read_object_service_candidate_checkpoint_into. cbn [identity_generation].
  act_step. act_step. eapply wpA_mono; [exact (read_slot_image_spec slot d)| |intros e d1 Hu; exact Hu]. intros image d1 [-> Hd1].
  act_step. act_step. rewrite (image_slot_spec slot s _ _ Him). apply wp_ok. act_step. act_step.
  rewrite (candidate_slot (snap_generation s) : is_candidate_slot slot = true). apply wp_ok. apply wpA_ret.
  unfold reads, pure, mbind, action_bind. rewrite (decode_slot_into_spec slot s _ _ Hs Hg Him). rewrite set_root_id.
  rewrite slot_image_digest_spec, bool_decide_eq_true_2 by reflexivity.
  cbn. split; [reflexivity|exact Hd1].
Qed.

(** A candidate that is returned has the digest it was asked for by. *)
Lemma read_candidate_digest id d s d' :
  read_object_service_candidate_checkpoint id d = (Ok s, d') ->
  snap_generation s = identity_generation id /\
  root_digest id = sha256_digest (concat (slot_sectors (disk_bytes d) (candidate_slot_for_generation (identity_generation id)))).
Proof.
  unfold read_object_service_candidate_checkpoint, read_object_service_candidate_checkpoint_into.
  set (slot := candidate_slot_for_generation _). pose proof (read_slot_image_spec slot d) as Hr.
  unfold wpA in Hr. unfold mbind, action_bind at 1 2 3. unfold mbind, action_bind in *.
  destruct (read_slot_image slot d) as [[image| | |] d1]; try discriminate. destruct Hr as [-> Hd1].
  unfold pure at 1. destruct (image_slot _) as [k| | |]; try discriminate. unfold pure at 1. destruct (reject _ _); try discriminate.
  unfold mret, action_ret. cbn [fst snd].
  destruct (decode_slot_into _ empty_snapshot) as [[u| | |] t]; try discriminate.
  unfold reads, pure. rewrite slot_image_digest_spec. cbn [fst snd].
  destruct (bool_decide_reflect ({| identity_generation := snap_generation t;
    root_digest := sha256_digest (concat (slot_sectors (disk_bytes d) slot)) |} = id)) as [Heq|]; cbn [negb reject]; [|discriminate].
  intros Hx. injection Hx as <- _. by rewrite <- Heq.
Qed.
End candidates.
