(* ===== verification/ObjectDurability.v ===== *)
(** * Durability of the object service

    The object service with its checkpoints: calls change the service in
    memory, [persist_object_service] writes it to the device, and a boot
    restores it with [restore_or_initialize_in_place]. Any device operation may
    fail and the power may fail at any write. The specification is the object
    vault together with the vaults that may be on the device. *)

From stdpp Require Import base numbers list gmap relations.
From Stdlib Require Import Strings.Byte.
From S2P Require Import Prelude ByteRegions Sha256 TigRuntime Kernel SlotTable ServiceIdentity Capabilities BlockAllocator UserCopy ObjectFormat ObjectFormatFacts ObjectStore Relationships RevisionHistory StorageQuotas ObjectService ObjectVault ObjectServiceFacts ObjectServiceRefines ObjectSeed ObjectSnapshot ObjectServiceSafety ObjectCheckpoint ObjectImage ObjectDisk.

(** ** Snapshots of the service fit their images *)

Lemma elem_of_fmap_Some {A B} (f : A -> option B) (l : list A) y :
  Some y ∈ f <$> l -> exists x, x ∈ l /\ f x = Some y.
Proof. intros (x & Hx & Hin)%list_elem_of_fmap. eauto. Qed.

Section saved.
Context (s : ObjectService) (v : vault) (Hv : vault_ok v) (Hs : service_vault s v).

Lemma prior_count : len (v_prior v) <= MAX_REVISIONS.
Proof.
  pose proof (po_prior_len s (sv_parts s v Hs)) as Hl. pose proof (sv_prior s v Hs) as Hp.
  apply Permutation_length in Hp. unfold len in *. rewrite Hp. rewrite <- Hl.
  clear. induction (revisions (os_revisions s)) as [|[r|] l IH]; simpl in *; lia.
Qed.

Lemma saved_current_wf r : Some r ∈ current_records (os_revisions s) -> revision_record_wf r.
Proof.
  intros (o & Ho & Hin)%elem_of_fmap_Some. destruct o as [c|]; [|done]. injection Hin as <-.
  assert (v_current v !! current_key c = Some c) as Hc.
  { rewrite <- (sv_current s v Hs). apply contents_Some; [apply (sv_parts s v Hs)|done]. }
  destruct (vo_wf v Hv _ c Hc) as (Hw & Ht & Hwr). pose proof (vo_revision v Hv _ c Hc). pose proof prior_count as Hp.
  change MAX_REVISIONS with 8 in Hp. unfold revision_record_wf. simpl. split_and!; [apply Hw|unfold uint; lia|done..].
Qed.

Lemma saved_prior_wf r : Some r ∈ prior_records (os_revisions s) -> revision_record_wf r.
Proof.
  intros Hin. assert (r ∈ v_prior v) as Hr by (rewrite (sv_prior s v Hs); by apply elem_of_entries).
  destruct (vo_prior_wf v Hv r Hr) as (Hw & Ht & Hwr & Hid & H1). destruct (vo_older v Hv r Hr) as (c & Hc & Hlt & _).
  pose proof (vo_revision v Hv _ c Hc). pose proof prior_count as Hp. change MAX_REVISIONS with 8 in Hp.
  unfold revision_record_wf. split_and!; [rewrite Hid; apply Hw|unfold uint; lia|done..].
Qed.

Lemma saved_objects_wf r : Some r ∈ saved_object <$> objects (os_objects s) -> extent_record_wf r.
Proof.
  intros (o & Ho & Hin)%elem_of_fmap_Some. destruct o as [x|]; [|done]. injection Hin as <-.
  assert (stored (os_objects s) !! slot_key x = Some x) as Hx.
  { apply contents_Some; [apply (sv_parts s v Hs)|done]. }
  pose proof (eo_inside _ _ (so_extents _ (po_store s (sv_parts s v Hs))) _ _ Hx) as He. unfold extent_wf in He.
  rewrite (po_count s (sv_parts s v Hs)) in He. change OBJECT_SERVICE_BLOCK_COUNT with 24 in He.
  pose proof (f_equal (lookup (slot_key x)) (sv_objects s v Hs)) as Ho'. rewrite !lookup_fmap, Hx in Ho'. simpl in Ho'.
  symmetry in Ho'. apply fmap_Some in Ho' as (c & Hc & ->). destruct (vo_wf v Hv _ c Hc) as [Hw _].
  unfold extent_record_wf. simpl. split_and!; [unfold uint; lia..|done].
Qed.

Lemma saved_homes_wf r : Some r ∈ saved_home s <$> objects (os_objects s) -> workspace_record_wf r.
Proof.
  intros (o & Ho & Hin)%elem_of_fmap_Some. destruct o as [x|]; [|done]. simpl in Hin.
  apply fmap_Some in Hin as (m & Hm & ->).
  destruct (member_record s v Hv Hs (slot_key x) m Hm) as (Hk & Ht & (c & Hc)%elem_of_dom).
  rewrite Hk. unfold workspace_record_wf. simpl. split.
  - rewrite <- (vo_keys v Hv _ c Hc). apply (vo_wf v Hv _ c Hc).
  - unfold workspace_roots in Ht. set_unfold in Ht. by destruct Ht as [->| ->].
Qed.

Lemma saved_snapshot_wf : snapshot_wf (saved_snapshot s).
Proof.
  pose proof (sv_parts s v Hs) as Hp. pose proof (po_store s Hp) as Hst. split; simpl.
  - pose proof (so_allocator _ Hst) as Ha. eapply bitmap_uint; [apply Ha|apply (aw_count _ Ha)].
  - by rewrite len_fmap, (so_len _ Hst).
  - by rewrite len_fmap, (so_len _ Hst).
  - unfold current_records. by rewrite len_fmap, (po_current_len s Hp).
  - apply (po_prior_len s Hp).
  - apply saved_objects_wf.
  - apply saved_homes_wf.
  - apply saved_current_wf.
  - apply saved_prior_wf.
Qed.
End saved.

(** ** What is on the device *)

Lemma generation_vault s v g : service_vault s v -> service_vault (set_generation g s) v.
Proof. intros [[] ? ? ? ? ? ?]. split; done. Qed.

(** The snapshot of a service under another generation is the snapshot of the
    service with that generation. *)
Lemma saved_generation s g :
  set_snapshot_root g (snap_bitmap (saved_snapshot s)) (saved_snapshot s) = saved_snapshot (set_generation g s).
Proof. done. Qed.

(** A boot from the bytes [c] finds the vault [v]; a blank device starts with
    the seeded vault. *)
Definition disk_holds (c : Z -> list byte) (v : vault) : Prop :=
  disk_ok c /\
  match recovered c with
  | None => v = seeded_vault
  | Some snap => exists s, snap = saved_snapshot s /\ service_vault s v /\ vault_ok v
  end.

Lemma seeded_restart : vault_restart seeded_vault = seeded_vault.
Proof. done. Qed.

Section device.
Context {D : Type} `{SectorDeviceLaws D}.

#[local] Opaque seeded_state.

(** A boot restores the vault with the seeded capabilities; it fails only when
    the device does not answer. *)
Lemma restore_spec d v :
  disk_holds (disk_bytes d) v ->
  wpA restore_or_initialize_in_place d
    (fun s d' => service_vault s (vault_restart v) /\ disk_bytes d' = disk_bytes d)
    (fun e d' => e = BadSnapshot /\ unreliable D /\ disk_bytes d' = disk_bytes d).
Proof.
  intros [_ Hv]. unfold restore_or_initialize_in_place. act_step. apply wpA_zoom.
  eapply wpA_mono; [apply with_restored_spec| |done]. intros r d' [-> Hd']. act_step. unfold id in *.
  destruct (recovered (disk_bytes d)) as [snap|].
  - destruct Hv as (s & -> & Hs & Hok). eapply wp_mono; [exact (from_snapshot_spec s v Hok Hs)| |intros e []].
    intros s' [_ Hs']. exact (conj Hs' Hd').
  - subst v. rewrite new_seeded_ok, seeded_restart. apply wp_ok. split; [exact seeded_service_vault|exact Hd'].
Qed.

Lemma persist_run s v d :
  service_vault s v ->
  persist_object_service true (Some s) d = persistence_call (write_object_service_checkpoint (saved_snapshot s)) d.
Proof.
  intros Hs. unfold persist_object_service, with_object_service, mbind, action_bind, pure. cbn [negb reject].
  by rewrite (encode_snapshot_spec s (sv_parts s v Hs)).
Qed.

(** [persist_object_service] replaces the vault on the device; when it fails,
    the old one or the new one is there. It panics only when the generations
    have run out, and then it has not touched the device. *)
Lemma persist_spec s v p d r d' :
  vault_ok v -> service_vault s v -> disk_holds (disk_bytes d) p ->
  persist_object_service true (Some s) d = (r, d') ->
  match r with
  | Ok _ => disk_holds (disk_bytes d') v
  | Err e => (exists e', e = RetainedPersistence e') /\ (disk_holds (disk_bytes d') p \/ disk_holds (disk_bytes d') v)
  | Panic => disk_holds (disk_bytes d') p
  | Diverge => False
  end.
Proof.
  intros Hv Hs Hp. pose proof Hp as [Hd Hrec].
  rewrite (persist_run s v d Hs). unfold persistence_call, zoom. unfold id.
  destruct (write_object_service_checkpoint (saved_snapshot s) d) as [w d1] eqn:Hw.
  destruct (next_generation (recovered (disk_bytes d))) as [g|] eqn:Hn.
  - pose proof (write_checkpoint_spec (saved_snapshot s) g d Hd (saved_snapshot_wf s v Hv Hs) Hn
      (next_generation_uint _ g Hd Hn)) as Hspec. unfold wpA in Hspec. rewrite Hw in Hspec.
    assert (forall c, disk_ok c -> recovered c = Some (set_snapshot_root g (snap_bitmap (saved_snapshot s)) (saved_snapshot s)) ->
      disk_holds c v) as Hnew.
    { intros c Hc Hr. split; [exact Hc|]. rewrite Hr. exists (set_generation g s).
      split_and!; [apply saved_generation|by apply generation_vault|exact Hv]. }
    destruct w as [[]|e| |]; [| |destruct Hspec|destruct Hspec]; cbn [map_err]; intros Hx; injection Hx as <- <-.
    + destruct Hspec as [Hc Hr]. exact (Hnew _ Hc Hr).
    + destruct Hspec as (_ & Hc & Hr). split; [by exists e|].
      destruct Hr as [Hr|Hr]; [left|right; exact (Hnew _ Hc Hr)]. split; [exact Hc|]. rewrite Hr. exact Hrec.
  - destruct (write_checkpoint_exhausted _ _ _ _ Hn Hw) as [Heq [->|[e ->]]]; cbn [map_err]; intros Hx; injection Hx as <- <-.
    + rewrite Heq. exact Hp.
    + split; [by exists e|]. left. rewrite Heq. exact Hp.
Qed.

(** The snapshot that a checkpoint leaves. *)
Lemma persisted_snapshot s v p d d' :
  vault_ok v -> service_vault s v -> disk_holds (disk_bytes d) p ->
  persist_object_service true (Some s) d = (Ok tt, d') ->
  exists g, recovered (disk_bytes d') = Some (saved_snapshot (set_generation g s)).
Proof.
  intros Hv Hs [Hd _]. rewrite (persist_run s v d Hs). unfold persistence_call, zoom. unfold id.
  destruct (write_object_service_checkpoint (saved_snapshot s) d) as [w d1] eqn:Hw. intros Hx.
  destruct (next_generation (recovered (disk_bytes d))) as [g|] eqn:Hn.
  - pose proof (write_checkpoint_spec (saved_snapshot s) g d Hd (saved_snapshot_wf s v Hv Hs) Hn
      (next_generation_uint _ g Hd Hn)) as Hspec. unfold wpA in Hspec. rewrite Hw in Hspec.
    destruct w as [[]|e| |]; try discriminate Hx. injection Hx as <-. exists g. exact (proj2 Hspec).
  - destruct (write_checkpoint_exhausted _ _ _ _ Hn Hw) as [_ [->|[e ->]]]; discriminate Hx.
Qed.

(** ** Runs of the machine *)

(** The device and the service in memory, which is lost when the power goes
    off. *)
Definition machine : Type := D * option ObjectService.

(** What happens to the machine, with the result that the code returns. *)
Inductive machine_event : Type :=
| Called (op : service_op) (r : outcome ObjectServiceError unit)
| Persisted (on_syscall_stack : bool) (r : outcome RetainedServiceError unit)
| PoweredOff
| Booted (r : outcome RetainedServiceError unit).

(** A power failure during a checkpoint is a checkpoint whose write fails,
    followed by [PoweredOff]. *)
Inductive machine_does : machine_event -> machine -> machine -> Prop :=
| machine_call op r d s s' :
    op_wf op -> perform op s = (r, s') -> machine_does (Called op r) (d, Some s) (d, Some s')
| machine_persist stack r d o d' :
    persist_object_service stack o d = (r, d') -> machine_does (Persisted stack r) (d, o) (d', o)
| machine_off d o : machine_does PoweredOff (d, o) (d, None)
| machine_boot r m m' :
    initialize_object_service_from_device m = (r, m') -> machine_does (Booted r) m m'.

Definition machine_step (m m' : machine) : Prop := exists e, machine_does e m m'.

(** The specification: the vault in memory, and the vaults that a boot may
    find. *)
Definition durable_vault : Type := option vault * list vault.

(** The specification of each event with its result. A checkpoint that returns
    leaves only the vault in memory to be found; a checkpoint that fails adds
    it; nothing else changes what may be found, but a boot, which decides. *)
Inductive durable_does : machine_event -> durable_vault -> durable_vault -> Prop :=
| durable_call op r v v' ps :
    rtc vault_step v v' -> durable_does (Called op r) (Some v, ps) (Some v', ps)
| durable_saved v ps : durable_does (Persisted true (Ok tt)) (Some v, ps) (Some v, [v])
| durable_unsure e v ps :
    durable_does (Persisted true (Err (RetainedPersistence e))) (Some v, ps) (Some v, v :: ps)
| durable_exhausted v ps : durable_does (Persisted true Panic) (Some v, ps) (Some v, ps)
| durable_stack w : durable_does (Persisted false (Err UnmeasuredStackContext)) w w
| durable_unavailable ps :
    durable_does (Persisted true (Err ObjectServiceUnavailable)) (None, ps) (None, ps)
| durable_off o ps : durable_does PoweredOff (o, ps) (None, ps)
| durable_boot ps p : p ∈ ps -> durable_does (Booted (Ok tt)) (None, ps) (Some (vault_restart p), [p])
| durable_boot_failed ps : durable_does (Booted (Err (RetainedObjectService BadSnapshot))) (None, ps) (None, ps)
| durable_running v ps : durable_does (Booted (Err ObjectServiceAlreadyInitialized)) (Some v, ps) (Some v, ps).

(** A run: the events with the state after each of them. *)
Inductive event_run {S} (does : machine_event -> S -> S -> Prop) : S -> list (machine_event * S) -> Prop :=
| run_nil s : event_run does s []
| run_cons s e s' h : does e s s' -> event_run does s' h -> event_run does s ((e, s') :: h).

Definition retained_vault (o : option ObjectService) (w : option vault) : Prop :=
  match o, w with
  | Some s, Some v => vault_ok v /\ service_vault s v
  | None, None => True
  | _, _ => False
  end.

Record machine_vault (m : machine) (w : durable_vault) : Prop := {
  mv_service : retained_vault m.2 w.1;
  mv_possible : Forall vault_ok w.2;
  mv_disk : exists p, p ∈ w.2 /\ disk_holds (disk_bytes m.1) p;
}.

(** What one event of the machine has to show. *)
Definition simulated (e : machine_event) (m' : machine) (w : durable_vault) : Prop :=
  exists w', durable_does e w w' /\ machine_vault m' w'.

Lemma simulated_by e m' w w' : durable_does e w w' -> machine_vault m' w' -> simulated e m' w.
Proof. intros Hst Hm. by exists w'. Qed.

Lemma call_simulated op r d s s' w :
  machine_vault (d, Some s) w -> op_wf op -> perform op s = (r, s') -> simulated (Called op r) (d, Some s') w.
Proof.
  destruct w as [[v|] ps]; intros [Hret Hall Hd] Hop Hrun; [|destruct Hret]. destruct Hret as [Hok Hs].
  pose proof (perform_reaches v s op Hok Hs Hop) as Hw. unfold wpA in Hw. rewrite Hrun in Hw.
  assert (reaches v s') as (v' & Hvs & Hs') by by destruct r.
  apply simulated_by with (Some v', ps); [by apply durable_call|].
  split; [|exact Hall|exact Hd]. split; [|exact Hs']. clear -Hvs Hok. induction Hvs; eauto using vault_step_ok.
Qed.

Lemma persist_simulated stack r d o d' w :
  machine_vault (d, o) w -> persist_object_service stack o d = (r, d') -> simulated (Persisted stack r) (d', o) w.
Proof.
  intros Hm Hrun. destruct stack; [|injection Hrun as <- <-; by apply simulated_by with w; [constructor|]].
  destruct w as [w ps], o as [s|], Hm as [Hret Hall (p & Hp & Hd)]; cbn [fst snd] in *.
  - destruct w as [v|]; [|destruct Hret]. destruct Hret as [Hok Hs].
    pose proof (persist_spec s v p d r d' Hok Hs Hd Hrun) as Hps. pose proof (conj Hok Hs) as Hret.
    destruct r as [[]|e| |]; [| | |destruct Hps].
    + apply simulated_by with (Some v, [v]); [apply durable_saved|]. split; [exact Hret|by constructor|].
      exists v. split; [by left|exact Hps].
    + destruct Hps as [[e' ->] Hps]. apply simulated_by with (Some v, v :: ps); [apply durable_unsure|].
      split; [exact Hret|by constructor|].
      destruct Hps as [Hps|Hps]; [exists p; split; [by right|exact Hps]|exists v; split; [by left|exact Hps]].
    + apply simulated_by with (Some v, ps); [constructor|]. split; [exact Hret|exact Hall|]. by exists p.
  - destruct w as [v|]; [destruct Hret|]. injection Hrun as <- <-. apply simulated_by with (None, ps); [constructor|].
    split; [exact Hret|exact Hall|]. by exists p.
Qed.

Lemma boot_simulated r m m' w :
  machine_vault m w -> initialize_object_service_from_device m = (r, m') -> simulated (Booted r) m' w.
Proof.
  destruct m as [d [s|]], w as [w ps]; intros Hm Hrun.
  { injection Hrun as <- <-. destruct w as [v|]; [|destruct (mv_service _ _ Hm)].
    by apply simulated_by with (Some v, ps); [constructor|]. }
  destruct Hm as [Hret Hall (p & Hp & Hd)]; cbn [fst snd] in *. destruct w as [v|]; [destruct Hret|].
  pose proof (restore_spec d p Hd) as Hw. unfold wpA in Hw. unfold initialize_object_service_from_device in Hrun.
  destruct (restore_or_initialize_in_place d) as [[s'|e| |] d']; [| |destruct Hw..]; injection Hrun as <- <-.
  - destruct Hw as [Hs' Hd']. apply simulated_by with (Some (vault_restart p), [p]); [by apply durable_boot|].
    rewrite Forall_forall in Hall. pose proof (Hall p Hp) as Hok. split.
    + exact (conj (vault_restart_ok p Hok) Hs').
    + constructor; [exact Hok|constructor].
    + exists p. split; [by left|]. cbn [fst]. rewrite Hd'. exact Hd.
  - destruct Hw as (-> & _ & Hd'). apply simulated_by with (None, ps); [constructor|]. split; [exact Hret|exact Hall|].
    exists p. split; [exact Hp|]. cbn [fst]. rewrite Hd'. exact Hd.
Qed.

Lemma machine_event_refines e m m' w : machine_vault m w -> machine_does e m m' -> simulated e m' w.
Proof.
  intros Hm Hst. destruct Hst as [op r d s s' Hop Hrun|stack r d o d' Hrun|d o|r m m' Hrun].
  - by eapply call_simulated.
  - by eapply persist_simulated.
  - destruct w as [w ps], Hm as [_ Hall Hd]. by apply simulated_by with (None, ps); [apply durable_off|].
  - by eapply boot_simulated.
Qed.

(** The two levels agree on the events and are related after each of them. *)
Definition same_event (x : machine_event * machine) (y : machine_event * durable_vault) : Prop :=
  x.1 = y.1 /\ machine_vault x.2 y.2.

Lemma machine_run_refines m w h :
  machine_vault m w -> event_run machine_does m h -> exists h', event_run durable_does w h' /\ Forall2 same_event h h'.
Proof.
  intros Hm Hrun. revert w Hm. induction Hrun as [m|m e m' h Hst _ IH]; intros w Hm.
  { exists []. split; constructor. }
  destruct (machine_event_refines e m m' w Hm Hst) as (w' & Hw & Hm'). destruct (IH w' Hm') as (h' & Hrun & Hall).
  exists ((e, w') :: h'). split; [by apply run_cons|]. by constructor.
Qed.

Lemma machine_steps_refine m m' w :
  machine_vault m w -> rtc machine_step m m' -> exists w', machine_vault m' w'.
Proof.
  intros Hm Hst. revert w Hm. induction Hst as [m|m m1 m2 [e Hst] _ IH]; intros w Hm; [by exists w|].
  destruct (machine_event_refines e m m1 w Hm Hst) as (w1 & _ & Hm1). by apply (IH w1).
Qed.
End device.

(** ** Properties *)

(** The image of a well-formed snapshot decodes to the snapshot, for every
    slot and generation: all objects, extents, workspaces and revisions come
    back in their slots, and the checksum and the counts are accepted. *)
Theorem checkpoint_roundtrip slot s g :
  snapshot_wf s -> uint 64 g ->
  exists image, encode_slot_into_with_generation slot s g true = Ok image /\
    decode_slot image = Ok (set_snapshot_root g (snap_bitmap s) s).
Proof.
  intros Hs Hg. pose proof (encode_slot_spec s Hs slot g) as He.
  destruct (encode_slot_into_with_generation slot s g true) as [image| | |]; [|destruct He..].
  exists image. split; [reflexivity|]. exact (decode_slot_spec slot s g image Hs Hg He).
Qed.

Section properties.
Context {D : Type} `{SectorDeviceLaws D}.

(** Recovery returns on every contents of the device, also on damaged ones:
    it finds the newest slot that is committed and decodes, changes nothing,
    and fails only when the device does. *)
Theorem recovery_total d :
  wpA (with_restored_object_service_checkpoint id) d
    (fun r d' => r = recovered (disk_bytes d) /\ disk_bytes d' = disk_bytes d)
    (fun _ d' => unreliable D /\ disk_bytes d' = disk_bytes d).
Proof. exact (with_restored_spec id d). Qed.

(** C13: A checkpoint is atomic. When it returns, recovery finds the new
    snapshot; when a device operation fails in it, or the power fails in any
    sector it writes, recovery finds the old snapshot or the new one, and the
    next checkpoint has the same guarantee. *)
Theorem checkpoint_crash_safe s g d :
  disk_ok (disk_bytes d) -> snapshot_wf s -> next_generation (recovered (disk_bytes d)) = Some g ->
  let new := set_snapshot_root g (snap_bitmap s) s in
  let '(r, d') := write_object_service_checkpoint s d in
  disk_ok (disk_bytes d') /\
  match r with
  | Ok _ => recovered (disk_bytes d') = Some new
  | Err _ => unreliable D /\
      (recovered (disk_bytes d') = recovered (disk_bytes d) \/ recovered (disk_bytes d') = Some new)
  | Panic | Diverge => False
  end.
Proof.
  intros Hd Hs Hn new.
  pose proof (write_checkpoint_spec s g d Hd Hs Hn (next_generation_uint _ g Hd Hn)) as Hw. unfold wpA in Hw.
  destruct (write_object_service_checkpoint s d) as [[[]|e| |] d']; [exact Hw| |destruct Hw..].
  destruct Hw as (Hu & Hd' & Hr). exact (conj Hd' (conj Hu Hr)).
Qed.

(** The slots of the device have no commit marker. *)
Definition unformatted (c : Z -> list byte) : Prop :=
  forall slot, is_candidate_slot slot = false -> c (sector_for_image_index slot COMMIT_IMAGE_INDEX) = blank_sector.

Lemma first_boot d : unformatted (disk_bytes d) -> machine_vault (d, None) (None, [seeded_vault]).
Proof.
  intros Hb. destruct (blank_disk_ok _ (device_full d) Hb) as [Hok Hr]. split; cbn [fst snd].
  - exact I.
  - constructor; [exact seeded_vault_ok|constructor].
  - exists seeded_vault. split; [left|]. split; [exact Hok|]. rewrite Hr. reflexivity.
Qed.

Lemma machine_history d m :
  unformatted (disk_bytes d) -> rtc machine_step (d, None) m -> exists w, machine_vault m w.
Proof. intros Hb Hst. exact (machine_steps_refine _ m _ (first_boot d Hb) Hst). Qed.

(** C12: From a device without checkpoints, every run of boots, calls,
    checkpoints and power failures, with any failing device operations, is a
    run of the durable vault with the same events and results, and after each
    event the machine has the vault of the specification in memory and one of
    its possible vaults on the device. So a boot that returns finds the vault
    that the last checkpoint that returned had in memory, or that of a later
    checkpoint that returned an error, and the seeded vault when there was
    none; and it fails only as a [BadSnapshot] or because the service runs. *)
Theorem machine_refines_durable_vault d h :
  unformatted (disk_bytes d) -> event_run machine_does (d, None) h ->
  exists h', event_run durable_does (None, [seeded_vault]) h' /\ Forall2 same_event h h'.
Proof. intros Hb. exact (machine_run_refines _ _ h (first_boot d Hb)). Qed.

Lemma initialize_spec d (Q : ObjectService -> Prop) (R : ObjectServiceError -> Prop) :
  wpA restore_or_initialize_in_place d (fun s _ => Q s) (fun e _ => R e) ->
  wpA initialize_object_service_from_device (d, None) (fun _ m => exists s, m.2 = Some s /\ Q s)
    (fun e m => exists e', e = RetainedObjectService e' /\ R e' /\ m.2 = None).
Proof.
  unfold wpA, initialize_object_service_from_device. destruct (restore_or_initialize_in_place d) as [[s|e| |] d']; intros Hw; [| |exact Hw..].
  - by exists s.
  - by exists e.
Qed.

(** What a boot restores of the service [s]. *)
Definition same_stores (s s' : ObjectService) : Prop :=
  os_objects s' = os_objects s /\ os_revisions s' = os_revisions s /\
  members (os_relationships s') = members (os_relationships s).

(** C24: What was checkpointed is there after the next boot: when
    [persist_object_service] returns in any reachable state, a boot from the
    bytes it left restores every object with its extent, every revision and
    every workspace; the boot fails only when the device does. *)
Theorem persisted_service_returns d0 d s d1 d2 :
  unformatted (disk_bytes d0) -> rtc machine_step (d0, None) (d, Some s) ->
  persist_object_service true (Some s) d = (Ok tt, d1) -> disk_bytes d2 = disk_bytes d1 ->
  wpA initialize_object_service_from_device (d2, None)
    (fun _ m => exists s', m.2 = Some s' /\ same_stores s s')
    (fun e m => e = RetainedObjectService BadSnapshot /\ unreliable D /\ m.2 = None).
Proof.
  intros Hb Hst Hper H2. destruct (machine_history d0 (d, Some s) Hb Hst) as [[[v|] ps] [Hret _ (p & _ & Hd)]]; [|destruct Hret].
  destruct Hret as [Hv Hs]. cbn [fst snd] in *. destruct (persisted_snapshot s v p d d1 Hv Hs Hd Hper) as [g Hr]. rewrite <- H2 in Hr.
  eapply wpA_mono; [apply (initialize_spec d2 (same_stores s) (fun e => e = BadSnapshot /\ unreliable D))|done|].
  2:{ intros e m (e' & -> & [-> Hu] & Hm). exact (conj eq_refl (conj Hu Hm)). }
  unfold restore_or_initialize_in_place. act_step. apply wpA_zoom.
  eapply wpA_mono; [apply with_restored_spec| |intros e d' [Hu _]; exact (conj eq_refl Hu)]. intros r d' [-> _]. act_step. unfold id. rewrite Hr.
  eapply wp_mono; [exact (from_snapshot_spec _ v Hv (generation_vault s v g Hs))| |intros e []].
  intros s' [[Ho Hre Hm _ _ _ _ _] _]. exact (conj Ho (conj Hre Hm)).
Qed.

(** A candidate checkpoint is read back under the identity that its write
    returned, and neither its write nor a failure of it changes what recovery
    finds in the ordinary slots. *)
Theorem candidate_roundtrip s d :
  snapshot_wf s -> uint 64 (snap_generation s) ->
  wpA (write_object_service_candidate_checkpoint s) d
    (fun k d1 => recovered (disk_bytes d1) = recovered (disk_bytes d) /\
       forall d2, disk_bytes d2 = disk_bytes d1 ->
         wpA (read_object_service_candidate_checkpoint (candidate_identity k)) d2
           (fun t _ => t = s) (fun _ _ => unreliable D))
    (fun _ d1 => unreliable D /\ recovered (disk_bytes d1) = recovered (disk_bytes d)).
Proof.
  intros Hs Hg. eapply wpA_mono; [exact (write_candidate_spec s d Hs Hg)| |intros e d1 H1; exact H1].
  intros k d1 (Hr & Hon & _). split; [exact Hr|]. intros d2 H2. rewrite <- H2 in Hon.
  eapply wpA_mono; [exact (read_candidate_spec s _ d2 Hs Hg Hon)|intros t d3 [Ht _]; exact Ht|].
  intros e d3 [Hu _]. exact Hu.
Qed.

(** Whatever is on the device, a candidate checkpoint is returned only when
    the SHA-256 digest of its slot and its generation are the ones asked for. *)
Theorem candidate_named_by_digest id d s d' :
  read_object_service_candidate_checkpoint id d = (Ok s, d') ->
  snap_generation s = identity_generation id /\
  root_digest id =
    sha256_digest (concat (slot_sectors (disk_bytes d) (candidate_slot_for_generation (identity_generation id)))).
Proof. apply read_candidate_digest. Qed.
End properties.
