(* ===== verification/PackageContent.v ===== *)
(** * The package content store

    Models [core/src/package_content_store.rs] with the content records of
    [core/src/package_registry.rs]: contents are staged in a transaction, their
    blocks are reserved in a bitmap, and a commit publishes both. On the device
    a content is a list of extents; what is read back is checked against its
    digest. A registry is the list of the records that
    [PackageRegistry::content_record] returns. *)

From stdpp Require Import base numbers list.
From Stdlib Require Import Strings.Byte.
From S2P Require Import Prelude Kernel ByteRegions Sha256 PackageArtifact ObjectCheckpoint.
Import Artifact (MAX_CONTENT_BYTES, MAX_CONTENT_ENTRIES, MAX_CONTENT_EXTENTS_PER_RECORD).

Module Content.

Definition PACKAGE_CONTENT_BITMAP_WORDS : Z := 128.
Definition PACKAGE_CONTENT_MAX_STAGED_RECORDS : Z := 64.
Definition PACKAGE_CONTENT_BLOCK_BYTES : Z := 512.

Inductive PackageStatus : Type :=
| StatusOk | Denied | NotFound | BadRequest | BufferTooSmall | InvalidMagic | UnsupportedMajor
| UnsupportedRequiredMinor | InvalidOffset | LengthOverflow | BoundsExceeded | DuplicateStableName
| DigestMismatch | InvalidLocator | SourceMissing | SourceHandleInvalid | SourceReadDenied | InstallDenied
| InvalidManifest | InvalidSchema | PythTigVerificationFailed | QuotaDenied | TransactionAnchorMismatch
| RegistryWriteDenied | PackageDisabled | PackageTombstoned | ExportMissing | ContentCorrupt
| RequiredGrantMissing | FinalCapabilityDenied | LiveProcessExists | SchemaRetained | ContentRetained
| RegistryRecoveryDenied.

Record PackageExtent := Extent { start_block : Z; block_count : Z }.

Definition EMPTY : PackageExtent := Extent 0 0.

#[export] Instance extent_eq_dec : EqDecision PackageExtent.
Proof. solve_decision. Defined.

Record ContentId := { id_package : Z; id_release : list byte; id_index : Z }.

#[export] Instance content_id_eq_dec : EqDecision ContentId.
Proof. solve_decision. Defined.

Record PackageContentRecord := {
  content_id : ContentId;
  role : Z;
  format : Z;
  digest : list byte;
  byte_len : Z;
  extents : list PackageExtent;
  extent_count : Z;
  retention_count : Z;
  committed : bool;
}.

#[export] Instance content_record_eq_dec : EqDecision PackageContentRecord.
Proof. solve_decision. Defined.

Record PackageContentSlot := { slot_record : PackageContentRecord; slot_bytes : list byte }.

Record PackageContentTransaction := {
  package_object_id : Z;
  release_digest : list byte;
  staged_slots : list (option PackageContentSlot);
  staged_count : Z;
  next_content_index : Z;
}.

Record PackageContentCommit := { record_count : Z; committed_bitmap : list Z }.

Record PackageExtentAllocator := { committed_words : list Z; staged_words : list Z }.

(** The record of the registry. *)
Record PackageRegistryContentRecord := {
  reg_package : Z;
  reg_release : list byte;
  reg_index : Z;
  reg_role : Z;
  reg_format : Z;
  reg_digest : list byte;
  reg_byte_len : Z;
  reg_extents : list PackageExtent;
  reg_extent_count : Z;
  reg_retention_count : Z;
  reg_flags : Z;
}.

(** [persisted] is whether a device is attached. *)
Record PackageContentStore := {
  allocator : PackageExtentAllocator;
  committed_slots : list (option PackageContentSlot);
  committed_count : Z;
  persisted : bool;
  persisted_records : list (option PackageRegistryContentRecord);
}.

Abbreviation R := (outcome PackageStatus).

(** ** Bitmaps *)

Definition no_words : list Z := replicate (Z.to_nat PACKAGE_CONTENT_BITMAP_WORDS) 0.
Definition no_slots {A} : list (option A) := replicate (Z.to_nat PACKAGE_CONTENT_MAX_STAGED_RECORDS) None.

Definition empty_allocator : PackageExtentAllocator := {| committed_words := no_words; staged_words := no_words |}.

(** [restore] and [restore_from_bitmap] *)
Definition restore (bitmap : list Z) : PackageExtentAllocator :=
  {| committed_words := bitmap; staged_words := no_words |}.

Definition validate_extent (extent : PackageExtent) : R unit :=
  reject (block_count extent =? 0) BoundsExceeded;;
  reject (PACKAGE_CONTENT_MAX_BLOCKS <? start_block extent + block_count extent) BoundsExceeded.

Definition bit_is_set (bitmap : list Z) (block : Z) : R bool :=
  word ← index bitmap (block / 64);
  Ok (negb (Z.land word (Z.shiftl 1 (block mod 64)) =? 0)).

Definition mark_block (allocated : bool) (bitmap : list Z) (block : Z) : R (list Z) :=
  word ← index bitmap (block / 64);
  let mask := Z.shiftl 1 (block mod 64) in
  index_set bitmap (block / 64) (if allocated then Z.lor word mask else Z.ldiff word mask).

Definition mark_range (bitmap : list Z) (first count : Z) (allocated : bool) : R (list Z) :=
  foldM (mark_block allocated) bitmap (range first (first + count)).

(** The loop of [range_is_free] over the given blocks. *)
Fixpoint blocks_free (a : PackageExtentAllocator) (blocks : list Z) : R bool :=
  match blocks with
  | [] => Ok true
  | block :: rest =>
      used ← bit_is_set (committed_words a) block;
      if used : bool then Ok false
      else
        used ← bit_is_set (staged_words a) block;
        if used : bool then Ok false else blocks_free a rest
  end.

Definition range_is_free (a : PackageExtentAllocator) (first count : Z) : R bool :=
  blocks_free a (range first (first + count)).

(** The loop of [allocate_staged] over the given starts. *)
Fixpoint first_free (a : PackageExtentAllocator) (count : Z) (starts : list Z) : R (option Z) :=
  match starts with
  | [] => Ok None
  | first :: rest =>
      free ← range_is_free a first count;
      if free : bool then Ok (Some first) else first_free a count rest
  end.

Definition allocate_staged (count : Z) : action PackageExtentAllocator PackageStatus PackageExtent :=
  pure (validate_extent (Extent 0 count));;
  found ← reads (fun a => first_free a count (range 0 (PACKAGE_CONTENT_MAX_BLOCKS - count + 1)));
  first ← pure (ok_or found QuotaDenied);
  words ← reads (fun a => mark_range (staged_words a) first count true);
  update (fun a => {| committed_words := committed_words a; staged_words := words |});;
  mret (Extent first count).

Definition rollback_staged (a : PackageExtentAllocator) : PackageExtentAllocator :=
  {| committed_words := committed_words a; staged_words := no_words |}.

Definition commit_word (staged : list Z) (committed : list Z) (i : Z) : R (list Z) :=
  old ← index committed i;
  new ← index staged i;
  index_set committed i (Z.lor old new).

Definition commit_staged : action PackageExtentAllocator PackageStatus (list Z) :=
  words ← reads (fun a => foldM (commit_word (staged_words a)) (committed_words a) (range 0 PACKAGE_CONTENT_BITMAP_WORDS));
  update (fun a => rollback_staged {| committed_words := words; staged_words := staged_words a |});;
  mret words.

(** The loop over the blocks that must be set. *)
Fixpoint blocks_set (bitmap : list Z) (blocks : list Z) : R bool :=
  match blocks with
  | [] => Ok true
  | block :: rest =>
      used ← bit_is_set bitmap block;
      if used : bool then blocks_set bitmap rest else Ok false
  end.

Definition extent_blocks (e : PackageExtent) : list Z := range (start_block e) (start_block e + block_count e).

Definition free_committed (extent : PackageExtent) : action PackageExtentAllocator PackageStatus unit :=
  pure (validate_extent extent);;
  live ← reads (fun a => blocks_set (committed_words a) (extent_blocks extent));
  pure (reject (negb live) NotFound);;
  words ← reads (fun a => mark_range (committed_words a) (start_block extent) (block_count extent) false);
  update (fun a => {| committed_words := words; staged_words := staged_words a |}).

Definition is_committed_allocated (a : PackageExtentAllocator) (block : Z) : R bool :=
  if PACKAGE_CONTENT_MAX_BLOCKS <=? block then Ok false else bit_is_set (committed_words a) block.

Definition mark_extent (extents : list PackageExtent) (bitmap : list Z) (i : Z) : R (list Z) :=
  extent ← index extents i;
  validate_extent extent;;
  mark_range bitmap (start_block extent) (block_count extent) true.

Definition mark_record_extents (bitmap : list Z) (extents : list PackageExtent) (count : Z) : R (list Z) :=
  reject (MAX_CONTENT_EXTENTS_PER_RECORD <? count) BoundsExceeded;;
  foldM (mark_extent extents) bitmap (range 0 count).

Definition blocks_for_len (n : Z) : R Z :=
  if n =? 0 then Ok 0
  else
    sum ← ok_or (checked_add 64 n (PACKAGE_CONTENT_BLOCK_BYTES - 1)) LengthOverflow;
    let blocks := sum / PACKAGE_CONTENT_BLOCK_BYTES in
    reject (PACKAGE_CONTENT_MAX_BLOCKS <? blocks) BoundsExceeded;;
    Ok blocks.

(** ** Transactions *)

Definition new_transaction (package : Z) (release : list byte) : PackageContentTransaction :=
  {| package_object_id := package; release_digest := release; staged_slots := no_slots;
     staged_count := 0; next_content_index := 0 |}.

(** [clear] *)
Definition clear (t : PackageContentTransaction) : PackageContentTransaction :=
  new_transaction (package_object_id t) (release_digest t).

Definition reset (package : Z) (release : list byte) (t : PackageContentTransaction) : PackageContentTransaction :=
  clear {| package_object_id := package; release_digest := release; staged_slots := staged_slots t;
           staged_count := staged_count t; next_content_index := next_content_index t |}.

Definition reset_empty (t : PackageContentTransaction) : PackageContentTransaction := reset 0 (zeros 32) t.

Definition push_staged (slot : PackageContentSlot) : action PackageContentTransaction PackageStatus unit :=
  count ← reads (fun t => Ok (staged_count t));
  pure (reject (PACKAGE_CONTENT_MAX_STAGED_RECORDS <=? count) QuotaDenied);;
  slots ← reads (fun t => index_set (staged_slots t) (staged_count t) (Some slot));
  update (fun t => {| package_object_id := package_object_id t; release_digest := release_digest t;
                      staged_slots := slots; staged_count := staged_count t + 1;
                      next_content_index := next_content_index t + 1 |}).

(** ** The store *)

Definition empty_store : PackageContentStore :=
  {| allocator := empty_allocator; committed_slots := no_slots; committed_count := 0;
     persisted := false; persisted_records := no_slots |}.

Definition set_allocator (a : PackageExtentAllocator) (s : PackageContentStore) : PackageContentStore :=
  {| allocator := a; committed_slots := committed_slots s; committed_count := committed_count s;
     persisted := persisted s; persisted_records := persisted_records s |}.

Definition set_committed (slots : list (option PackageContentSlot)) (count : Z) (s : PackageContentStore) : PackageContentStore :=
  {| allocator := allocator s; committed_slots := slots; committed_count := count;
     persisted := persisted s; persisted_records := persisted_records s |}.

Definition on_allocator {T A} (m : action PackageExtentAllocator PackageStatus A) :
    action (PackageContentStore * T) PackageStatus A :=
  on_fst (zoom allocator set_allocator id m).

Definition single_extent (extent : PackageExtent) : list PackageExtent :=
  <[0%nat := extent]> (replicate (Z.to_nat MAX_CONTENT_EXTENTS_PER_RECORD) EMPTY).

Definition no_extents : list PackageExtent := replicate (Z.to_nat MAX_CONTENT_EXTENTS_PER_RECORD) EMPTY.

Definition staged_record (id : ContentId) (role format : Z) (expected : list byte) (n : Z)
    (es : list PackageExtent) (count : Z) : PackageContentRecord :=
  {| content_id := id; role := role; format := format; digest := expected; byte_len := n;
     extents := es; extent_count := count; retention_count := 0; committed := false |}.

Definition next_content_id (t : PackageContentTransaction) : ContentId :=
  {| id_package := package_object_id t; id_release := release_digest t; id_index := next_content_index t |}.

Definition stage_content (role format : Z) (bytes expected : list byte) :
    action (PackageContentStore * PackageContentTransaction) PackageStatus ContentId :=
  pure (reject (MAX_CONTENT_BYTES <? len bytes) BoundsExceeded);;
  actual ← pure (sha256 bytes);
  pure (reject (negb (bool_decide (actual = expected))) DigestMismatch);;
  blocks ← pure (blocks_for_len (len bytes));
  reserved ← (if blocks =? 0 then mret (no_extents, 0)
              else extent ← on_allocator (allocate_staged blocks); mret (single_extent extent, 1));
  id ← reads (fun st => Ok (next_content_id (snd st)));
  let slot := {| slot_record := staged_record id role format expected (len bytes) (fst reserved) (snd reserved);
                 slot_bytes := bytes |} in
  or_undo (on_snd (push_staged slot))
    (if blocks =? 0 then mret tt else on_allocator (update rollback_staged));;
  mret id.

Definition has_id (id : ContentId) (slot : PackageContentSlot) : bool :=
  bool_decide (content_id (slot_record slot) = id).

(** [iter().flatten()] *)
Definition flatten {A} (slots : list (option A)) : list A := omap id slots.

Definition read_committed (s : PackageContentStore) (id : ContentId) : R (list byte) :=
  slot ← ok_or (find (has_id id) (flatten (committed_slots s))) NotFound;
  actual ← sha256 (slot_bytes slot);
  reject (negb (byte_len (slot_record slot) =? len (slot_bytes slot)) ||
          negb (bool_decide (actual = digest (slot_record slot)))) ContentCorrupt;;
  Ok (slot_bytes slot).

Definition rollback (st : PackageContentStore * PackageContentTransaction) :
    PackageContentStore * PackageContentTransaction :=
  (set_allocator (rollback_staged (allocator (fst st))) (fst st), clear (snd st)).

Definition validate_commit_capacity (s : PackageContentStore) (t : PackageContentTransaction) : R unit :=
  reject (PACKAGE_CONTENT_MAX_STAGED_RECORDS <? committed_count s + staged_count t) QuotaDenied.

Definition commit_record (r : PackageContentRecord) : PackageContentRecord :=
  {| content_id := content_id r; role := role r; format := format r; digest := digest r; byte_len := byte_len r;
     extents := extents r; extent_count := extent_count r; retention_count := retention_count r; committed := true |}.

Definition commit_slot (slot : PackageContentSlot) : PackageContentSlot :=
  {| slot_record := commit_record (slot_record slot); slot_bytes := slot_bytes slot |}.

(** One round of [commit]: the committed slots, their count and the number of
    new records. *)
Definition commit_round (staged : list (option PackageContentSlot)) (s : list (option PackageContentSlot) * Z * Z)
    (i : Z) : R (list (option PackageContentSlot) * Z * Z) :=
  let '(slots, count, records) := s in
  o ← index staged i;
  match o with
  | None => Ok s
  | Some slot => slots ← index_set slots count (Some (commit_slot slot)); Ok (slots, count + 1, records + 1)
  end.

Definition commit : action (PackageContentStore * PackageContentTransaction) PackageStatus PackageContentCommit :=
  reads (fun st => validate_commit_capacity (fst st) (snd st));;
  r ← reads (fun st => foldM (commit_round (staged_slots (snd st)))
        (committed_slots (fst st), committed_count (fst st), 0) (range 0 PACKAGE_CONTENT_MAX_STAGED_RECORDS));
  let '(slots, count, records) := r in
  update (fun st => (set_committed slots count (fst st), snd st));;
  words ← on_allocator commit_staged;
  update (fun st => (fst st, clear (snd st)));;
  mret {| record_count := records; committed_bitmap := words |}.

(** ** The registry *)

Definition same_content (r : PackageRegistryContentRecord) (package : Z) (release : list byte) (i : Z) : bool :=
  (reg_package r =? package) && bool_decide (reg_release r = release) && (reg_index r =? i).

(** The loop of [validate_content_record]: the blocks of the used extents. *)
Definition count_extent (r : PackageRegistryContentRecord) (blocks i : Z) : R Z :=
  extent ← index (reg_extents r) i;
  if i <? reg_extent_count r then
    reject ((block_count extent =? 0) || (PACKAGE_CONTENT_MAX_BLOCKS <? start_block extent + block_count extent)) BoundsExceeded;;
    Ok (blocks + block_count extent)
  else
    reject (negb (bool_decide (extent = EMPTY))) RegistryRecoveryDenied;;
    Ok blocks.

Definition validate_content_record (r : PackageRegistryContentRecord) : R unit :=
  reject ((MAX_CONTENT_BYTES <? reg_byte_len r) || (MAX_CONTENT_EXTENTS_PER_RECORD <? reg_extent_count r)) BoundsExceeded;;
  sum ← ok_or (checked_add 64 (reg_byte_len r) 511) LengthOverflow;
  blocks ← foldM (count_extent r) 0 (range 0 MAX_CONTENT_EXTENTS_PER_RECORD);
  reject (negb (blocks =? sum / 512)) BoundsExceeded.

(** [MAX_REGISTRY_CONTENT] is [MAX_CONTENT_ENTRIES]. *)
Definition add_content_record (r : PackageRegistryContentRecord) :
    action (list PackageRegistryContentRecord) PackageStatus unit :=
  pure (validate_content_record r);;
  records ← reads Ok;
  pure (reject (MAX_CONTENT_ENTRIES <=? len records) QuotaDenied);;
  pure (reject (existsb (fun x => same_content x (reg_package r) (reg_release r) (reg_index r)) records) DuplicateStableName);;
  update (fun records => records ++ [r]).

Definition registry_record (r : PackageContentRecord) : PackageRegistryContentRecord :=
  {| reg_package := id_package (content_id r); reg_release := id_release (content_id r); reg_index := id_index (content_id r);
     reg_role := role r; reg_format := format r; reg_digest := digest r; reg_byte_len := byte_len r;
     reg_extents := extents r; reg_extent_count := extent_count r; reg_retention_count := retention_count r; reg_flags := 0 |}.

Definition add_staged_records_to_registry (t : PackageContentTransaction) :
    action (list PackageRegistryContentRecord) PackageStatus unit :=
  foldA (fun _ slot => add_content_record (registry_record (slot_record slot))) tt (flatten (staged_slots t)).

Definition live_bitmap_from_registry (registry : list PackageRegistryContentRecord) : R (list Z) :=
  foldM (fun bitmap r => mark_record_extents bitmap (reg_extents r) (reg_extent_count r)) no_words registry.

Definition extent_live_in_registry (registry : list PackageRegistryContentRecord) (extent : PackageExtent) : R bool :=
  validate_extent extent;;
  bitmap ← live_bitmap_from_registry registry;
  blocks_set bitmap (extent_blocks extent).

Definition registry_content_record_for_id (registry : list PackageRegistryContentRecord) (id : ContentId) :
    option PackageRegistryContentRecord :=
  find (fun r => same_content r (id_package id) (id_release id) (id_index id)) registry.

(** [persisted_records[index] = Some(record)] for the records of the registry. *)
Definition fill_records (registry : list PackageRegistryContentRecord) : R (list (option PackageRegistryContentRecord)) :=
  foldM (fun slots ir => index_set slots (fst ir) (Some (snd ir))) no_slots (enumerate registry).

Definition restore_from_validated_registry_into (registry : list PackageRegistryContentRecord)
    (validated : PackageContentCommit) : action PackageContentStore PackageStatus unit :=
  bitmap ← pure (live_bitmap_from_registry registry);
  pure (reject (negb (bool_decide (bitmap = committed_bitmap validated)) ||
                negb (len registry =? record_count validated)) RegistryRecoveryDenied);;
  records ← pure (fill_records registry);
  update (fun _ => {| allocator := restore bitmap; committed_slots := no_slots; committed_count := record_count validated;
                      persisted := true; persisted_records := records |}).

Definition restore_from_validated_registry (registry : list PackageRegistryContentRecord)
    (validated : PackageContentCommit) : R PackageContentStore :=
  r ← run (restore_from_validated_registry_into registry validated) empty_store;
  Ok (snd r).

Definition copy_restored_state_from (source s : PackageContentStore) : PackageContentStore :=
  {| allocator := allocator source; committed_slots := no_slots; committed_count := committed_count source;
     persisted := persisted source; persisted_records := persisted_records source |}.

Definition expected_record (r : PackageRegistryContentRecord) : PackageContentRecord :=
  {| content_id := {| id_package := reg_package r; id_release := reg_release r; id_index := reg_index r |};
     role := reg_role r; format := reg_format r; digest := reg_digest r; byte_len := reg_byte_len r;
     extents := reg_extents r; extent_count := reg_extent_count r; retention_count := reg_retention_count r;
     committed := true |}.

(** The closure of [find_map]; [sha256] returns on every input. *)
Fixpoint find_cached (expected : PackageContentRecord) (slots : list PackageContentSlot) : R (option PackageContentSlot) :=
  match slots with
  | [] => Ok None
  | slot :: rest =>
      let cached := commit_record (slot_record slot) in
      actual ← sha256 (slot_bytes slot);
      if bool_decide (cached = expected) && (byte_len cached =? len (slot_bytes slot)) && bool_decide (actual = digest cached)
      then Ok (Some slot) else find_cached expected rest
  end.

Definition reconstruct_round (cached : list PackageContentSlot) (slots : list (option PackageContentSlot))
    (ir : Z * PackageRegistryContentRecord) : R (list (option PackageContentSlot)) :=
  let expected := expected_record (snd ir) in
  found ← find_cached expected cached;
  slot ← ok_or found RegistryRecoveryDenied;
  index_set slots (fst ir) (Some {| slot_record := expected; slot_bytes := slot_bytes slot |}).

Definition reconstruct_from_validated_candidate_registry (s : PackageContentStore)
    (registry : list PackageRegistryContentRecord) (validated : PackageContentCommit)
    (prepared : PackageContentTransaction) : R PackageContentStore :=
  bitmap ← live_bitmap_from_registry registry;
  reject (negb (bool_decide (bitmap = committed_bitmap validated)) ||
          negb (len registry =? record_count validated)) RegistryRecoveryDenied;;
  slots ← foldM (reconstruct_round (flatten (committed_slots s) ++ flatten (staged_slots prepared))) no_slots (enumerate registry);
  Ok {| allocator := restore bitmap; committed_slots := slots; committed_count := record_count validated;
        persisted := false; persisted_records := no_slots |}.

(** A cached slot with the fields of its registry record. *)
Definition retained_slot (slot : PackageContentSlot) (r : PackageRegistryContentRecord) : PackageContentSlot :=
  {| slot_record :=
       {| content_id := content_id (slot_record slot); role := reg_role r; format := reg_format r; digest := reg_digest r;
          byte_len := reg_byte_len r; extents := reg_extents r; extent_count := reg_extent_count r;
          retention_count := reg_retention_count r; committed := true |};
     slot_bytes := slot_bytes slot |}.

Definition retain_round (registry : list PackageRegistryContentRecord) (s : list (option PackageContentSlot) * Z)
    (slot : PackageContentSlot) : R (list (option PackageContentSlot) * Z) :=
  match registry_content_record_for_id registry (content_id (slot_record slot)) with
  | None => Ok s
  | Some r => slots ← index_set (fst s) (snd s) (Some (retained_slot slot r)); Ok (slots, snd s + 1)
  end.

(** [content_count() as u16] *)
Definition retain_only_registry_content (registry : list PackageRegistryContentRecord) :
    action PackageContentStore PackageStatus PackageContentCommit :=
  bitmap ← pure (live_bitmap_from_registry registry);
  kept ← reads (fun s => foldM (retain_round registry) (no_slots, 0) (flatten (committed_slots s)));
  records ← pure (fill_records registry);
  update (fun s => {| allocator := restore bitmap; committed_slots := fst kept; committed_count := wrap 16 (len registry);
                      persisted := persisted s; persisted_records := records |});;
  mret {| record_count := wrap 16 (len registry); committed_bitmap := bitmap |}.

(** ** The device *)

Section device.
Context {D : Type} `{SectorDevice D}.

Abbreviation disk_action := (action D PackageStatus).

(** [.map_err(|_| error)] *)
Definition disk_call {A} (error : PackageStatus) (m : action D BlockDeviceError A) : disk_action A :=
  zoom id (fun d _ => d) (fun _ => error) m.

Definition read_package_candidate_sector (n : Z) : disk_action (list byte) := disk_call ContentCorrupt (read_sector n).
Definition write_package_candidate_sector (n : Z) (bytes : list byte) : disk_action unit :=
  disk_call RegistryWriteDenied (write_sector n bytes).

Definition content_sector (extent : PackageExtent) (offset : Z) : R Z :=
  ok_or (checked_add 64 PACKAGE_CONTENT_BASE_SECTOR (start_block extent + offset)) LengthOverflow.

(** [for extent_index in 0..extent_count], with the extent at that index. *)
Definition each_extent {T} (es : list PackageExtent) (count : Z) (f : T -> PackageExtent -> disk_action T) (t : T) :
    disk_action T :=
  foldA (fun t i => extent ← pure (index es i); f t extent) t (range 0 count).

Definition write_block (bytes : list byte) (extent : PackageExtent) (byte_offset block_offset : Z) : disk_action Z :=
  let remaining := Z.max 0 (len bytes - byte_offset) in
  let copy_len := Z.min remaining SECTOR_SIZE in
  sector ← pure (if copy_len =? 0 then Ok (zeros SECTOR_SIZE)
                 else data ← expect (get_range bytes byte_offset (byte_offset + copy_len)); copy_into (zeros SECTOR_SIZE) 0 data);
  n ← pure (content_sector extent block_offset);
  write_package_candidate_sector n sector;;
  mret (byte_offset + copy_len).

(** The blocks, the hasher and the remaining bytes. *)
Definition hash_sector (extent : PackageExtent) (s : Z * Sha256 * Z) (block_offset : Z) : disk_action (Z * Sha256 * Z) :=
  let '(blocks, hasher, remaining) := s in
  n ← pure (content_sector extent block_offset);
  sector ← read_package_candidate_sector n;
  let take := Z.min remaining SECTOR_SIZE in
  data ← pure (expect (get_range sector 0 take));
  hasher ← pure (sha_update hasher data);
  mret (blocks, hasher, remaining - take).

Definition validate_stored_bytes (expected : list byte) (n : Z) (es : list PackageExtent) (count : Z) : disk_action unit :=
  pure (reject ((MAX_CONTENT_BYTES <? n) || (MAX_CONTENT_EXTENTS_PER_RECORD <? count)) BoundsExceeded);;
  sum ← pure (ok_or (checked_add 64 n (SECTOR_SIZE - 1)) LengthOverflow);
  r ← each_extent es count (fun s extent =>
        pure (validate_extent extent);;
        let '(blocks, hasher, remaining) := s in
        foldA (hash_sector extent) (blocks + block_count extent, hasher, remaining) (range 0 (block_count extent)))
      (0, sha_new, n);
  let '(blocks, hasher, remaining) := r in
  actual ← pure (sha_finalize hasher);
  pure (reject (negb (blocks =? sum / SECTOR_SIZE) || negb (remaining =? 0) || negb (bool_decide (actual = expected)))
    ContentCorrupt).

Definition write_record_bytes (r : PackageContentRecord) (bytes : list byte) : disk_action unit :=
  actual ← pure (sha256 bytes);
  pure (reject (negb (byte_len r =? len bytes) || negb (bool_decide (actual = digest r))) ContentCorrupt);;
  written ← each_extent (extents r) (extent_count r) (fun off extent =>
        pure (validate_extent extent);;
        foldA (write_block bytes extent) off (range 0 (block_count extent))) 0;
  pure (reject (negb (written =? len bytes)) BoundsExceeded);;
  validate_stored_bytes (digest r) (byte_len r) (extents r) (extent_count r).

Definition validate_record_bytes (r : PackageRegistryContentRecord) : disk_action unit :=
  validate_stored_bytes (reg_digest r) (reg_byte_len r) (reg_extents r) (reg_extent_count r).

(** The offset and the output buffer. *)
Definition read_block (n : Z) (extent : PackageExtent) (s : Z * list byte) (block_offset : Z) : disk_action (Z * list byte) :=
  let '(byte_offset, out) := s in
  number ← pure (content_sector extent block_offset);
  sector ← read_package_candidate_sector number;
  let copy_len := Z.min (n - byte_offset) SECTOR_SIZE in
  data ← pure (expect (get_range sector 0 copy_len));
  out ← pure (copy_into out byte_offset data);
  mret (byte_offset + copy_len, out).

Definition read_record_bytes_into (r : PackageRegistryContentRecord) (out : list byte) : disk_action (Z * list byte) :=
  let n := reg_byte_len r in
  pure (reject (len out <? n) BufferTooSmall);;
  validate_record_bytes r;;
  s ← each_extent (reg_extents r) (reg_extent_count r) (fun s extent =>
        foldA (read_block n extent) s (range 0 (block_count extent))) (0, out);
  pure (reject (negb (fst s =? n)) ContentCorrupt);;
  mret (n, snd s).

Definition read_published (s : PackageContentStore) (id : ContentId) (out : list byte) : disk_action (Z * list byte) :=
  match read_committed s id with
  | Ok bytes =>
      pure (reject (len out <? len bytes) BufferTooSmall);;
      out ← pure (copy_into out 0 bytes);
      mret (len bytes, out)
  | Err NotFound =>
      pure (reject (negb (persisted s)) NotFound);;
      r ← pure (ok_or (registry_content_record_for_id (flatten (persisted_records s)) id) NotFound);
      read_record_bytes_into r out
  | Err e => pure (Err e)
  | Panic => pure Panic
  | Diverge => pure Diverge
  end.

Definition write_candidate_round (s : list Z * Z) (slot : PackageContentSlot) : disk_action (list Z * Z) :=
  write_record_bytes (slot_record slot) (slot_bytes slot);;
  bitmap ← pure (mark_record_extents (fst s) (extents (slot_record slot)) (extent_count (slot_record slot)));
  count ← pure (ok_or (checked_add 16 (snd s) 1) LengthOverflow);
  mret (bitmap, count).

Definition write_candidate_content (s : PackageContentStore) (t : PackageContentTransaction) : disk_action PackageContentCommit :=
  r ← foldA write_candidate_round (committed_words (allocator s), 0) (flatten (staged_slots t));
  mret {| record_count := snd r; committed_bitmap := fst r |}.

Definition read_validate_round (s : list Z * Z) (r : PackageRegistryContentRecord) : disk_action (list Z * Z) :=
  validate_record_bytes r;;
  bitmap ← pure (mark_record_extents (fst s) (reg_extents r) (reg_extent_count r));
  count ← pure (ok_or (checked_add 16 (snd s) 1) LengthOverflow);
  mret (bitmap, count).

Definition read_validate_candidate_content (registry : list PackageRegistryContentRecord) : disk_action PackageContentCommit :=
  r ← foldA read_validate_round (no_words, 0) registry;
  mret {| record_count := snd r; committed_bitmap := fst r |}.
End device.

End Content.
