(* ===== verification/PackageContentFacts.v ===== *)
(** * Properties of the package content store

    Contents never share a block, staging and committing keep that, and on the
    device an interrupted installation leaves published contents as they are. *)

From stdpp Require Import base numbers list sets.
From Stdlib Require Import Strings.Byte.
From S2P Require Import Prelude Kernel ByteRegions Bitset BitWords Sha256 PackageArtifact PackageArtifactFacts ObjectCheckpoint PackageContent.
Import Artifact (MAX_CONTENT_BYTES, MAX_CONTENT_ENTRIES, MAX_CONTENT_EXTENTS_PER_RECORD).
Import Content.

(** ** Bitmaps *)

Definition words_ok (bm : list Z) : Prop := len bm = PACKAGE_CONTENT_BITMAP_WORDS.

Definition block_ok (b : Z) : Prop := 0 <= b < PACKAGE_CONTENT_MAX_BLOCKS.

Lemma block_word bm b : words_ok bm -> block_ok b -> 0 <= b / 64 < len bm /\ 0 <= b mod 64.
Proof.
  unfold words_ok, block_ok. intros -> Hb. change PACKAGE_CONTENT_BITMAP_WORDS with 128.
  change PACKAGE_CONTENT_MAX_BLOCKS with 8192 in Hb. pose proof (Z.mod_pos_bound b 64).
  split; [split; [apply Z.div_pos|apply Z.div_lt_upper_bound]|]; lia.
Qed.

Lemma bit_is_set_spec bm b (Q : bool -> Prop) R :
  words_ok bm -> block_ok b -> (forall u, (u = true <-> marked bm b) -> Q u) -> wp (bit_is_set bm b) Q R.
Proof.
  intros Hbm Hb HQ. destruct (block_word bm b Hbm Hb) as [Hw Hm]. unfold bit_is_set. apply wp_bind, wp_index; [done|].
  intros w Hget. apply wp_ok, HQ. by rewrite negb_true_iff, marked_test.
Qed.

(** Which blocks are marked after a change of one block. *)
Definition toggled (allocated : bool) (b : Z) (old new : list Z) : Prop :=
  words_ok new /\ forall b', marked new b' <-> (if allocated then marked old b' \/ b' = b else marked old b' /\ b' <> b).

Lemma mark_block_spec allocated bm b :
  words_ok bm -> block_ok b -> wp (mark_block allocated bm b) (toggled allocated b bm) (fun _ => False).
Proof.
  intros Hbm Hb. destruct (block_word bm b Hbm Hb) as [Hw Hm]. unfold mark_block. apply wp_bind, wp_index; [done|].
  intros w Hget. apply wp_index_set; [done|]. split; [unfold words_ok; by rewrite len_insert|]. intros b'. by apply marked_put.
Qed.

Lemma mark_range_spec allocated bm first count :
  words_ok bm -> 0 <= first -> 0 <= count -> first + count <= PACKAGE_CONTENT_MAX_BLOCKS ->
  wp (mark_range bm first count allocated)
    (fun bm' => words_ok bm' /\ forall b, marked bm' b <->
       (if allocated then marked bm b \/ first <= b < first + count else marked bm b /\ ~ (first <= b < first + count)))
    (fun _ => False).
Proof.
  intros Hbm Hf Hc Hmax. unfold mark_range.
  eapply wp_mono; [apply (wp_foldM_range _ (fun _ => False) (fun i bm' => words_ok bm' /\ forall b, marked bm' b <->
     (if allocated then marked bm b \/ first <= b < i else marked bm b /\ ~ (first <= b < i))))|done|done].
  - lia.
  - split; [done|]. intros b. destruct allocated; split; [by left|by intros [?|?]; [|lia]|by intros ?; split; [|lia]|by intros [? _]].
  - intros i bm' Hi [Hok Hm]. eapply wp_mono; [apply mark_block_spec; [done|]| |done].
    + unfold block_ok. lia.
    + intros bm2 [Hok2 Hm2]. split; [done|]. intros b. rewrite Hm2. destruct allocated; rewrite Hm.
      * split; [intros [[?|?]| ->]; [by left|right; lia|right; lia]|]. intros [?|?]; [by left; left|].
        destruct (decide (b = i)); [by right|]. left. right. lia.
      * split; [intros [[? ?] ?]; split; [done|lia]|]. intros [? ?]. split; [split; [done|lia]|]. intros ->. lia.
Qed.

(** ** Allocation *)

Definition alloc_ok (a : PackageExtentAllocator) : Prop := words_ok (committed_words a) /\ words_ok (staged_words a).

(** The run of [count] blocks at [first] is free. *)
Definition run_free (a : PackageExtentAllocator) (count first : Z) : Prop :=
  forall b, first <= b < first + count -> ~ marked (committed_words a) b /\ ~ marked (staged_words a) b.

Lemma content_blocks_free_spec a bs (R : PackageStatus -> Prop) :
  alloc_ok a -> Forall block_ok bs ->
  wp (blocks_free a bs)
    (fun u => u = true <-> forall b, b ∈ bs -> ~ marked (committed_words a) b /\ ~ marked (staged_words a) b) R.
Proof.
  intros [Hc Hs]. induction bs as [|b bs IH]; intros Hbs; cbn [blocks_free].
  - apply wp_ok. split; [|done]. intros _ b Hb. by apply not_elem_of_nil in Hb.
  - apply Forall_cons in Hbs as [Hb Hbs]. apply wp_bind, bit_is_set_spec; [done..|]. intros [] Hu.
    { apply wp_ok. split; [done|]. intros H. destruct (H b) as [Hn _]; [by left|]. by destruct Hn; apply Hu. }
    apply wp_bind, bit_is_set_spec; [done..|]. intros [] Hv.
    { apply wp_ok. split; [done|]. intros H. destruct (H b) as [_ Hn]; [by left|]. by destruct Hn; apply Hv. }
    eapply wp_mono; [by apply IH| |done]. intros u ->. split.
    + intros H c [->|Hc']%elem_of_cons; [|by apply H]. split; intros Hm; [by apply Hu in Hm|by apply Hv in Hm].
    + intros H c Hc'. apply H. by right.
Qed.

Lemma range_blocks first count : 0 <= first -> first + count <= PACKAGE_CONTENT_MAX_BLOCKS -> Forall block_ok (range first (first + count)).
Proof. intros. apply Forall_forall. intros b Hb%elem_of_range. unfold block_ok. lia. Qed.

Lemma range_is_free_spec a first count (R : PackageStatus -> Prop) :
  alloc_ok a -> 0 <= first -> first + count <= PACKAGE_CONTENT_MAX_BLOCKS ->
  wp (range_is_free a first count) (fun u => u = true <-> run_free a count first) R.
Proof.
  intros Ha Hf Hc. eapply wp_mono; [by apply content_blocks_free_spec, range_blocks| |done].
  intros u ->. unfold run_free. split; intros H b Hb; apply H; by apply elem_of_range.
Qed.

Lemma first_free_run_spec a count k (R : PackageStatus -> Prop) :
  alloc_ok a -> 0 <= k ->
  wp (first_free a count (range k (PACKAGE_CONTENT_MAX_BLOCKS - count + 1)))
    (fun o => match o with
       | Some s => k <= s /\ s + count <= PACKAGE_CONTENT_MAX_BLOCKS /\ run_free a count s /\ forall s', k <= s' < s -> ~ run_free a count s'
       | None => forall s, k <= s -> s + count <= PACKAGE_CONTENT_MAX_BLOCKS -> ~ run_free a count s
       end) R.
Proof.
  intros Ha. remember (Z.to_nat (PACKAGE_CONTENT_MAX_BLOCKS - count + 1 - k)) as n eqn:Hn. revert k Hn.
  induction n as [|n IH]; intros k Hn Hk.
  - rewrite range_nil by lia. apply wp_ok. intros s ? ?. lia.
  - rewrite range_cons by lia. cbn [first_free]. apply wp_bind. eapply wp_mono; [by apply range_is_free_spec; [| |lia]| |done].
    intros [] Hu.
    + apply wp_ok. split_and!; [lia|lia|by apply Hu|]. intros s' ?. lia.
    + eapply wp_mono; [apply IH; lia| |done]. intros [s|].
      * intros (H1 & H2 & H3 & H4). split_and!; [lia|done|done|]. intros s' Hs'. destruct (decide (s' = k)) as [->|]; [|apply H4; lia].
        intros Hr. by apply Hu in Hr.
      * intros H s Hs1 Hs2. destruct (decide (s = k)) as [->|]; [|apply H; lia]. intros Hr. by apply Hu in Hr.
Qed.

(** The extent [e] was free in [a], no run before it was, and [a'] has it
    staged. *)
Record allocated (a : PackageExtentAllocator) (count : Z) (e : PackageExtent) (a' : PackageExtentAllocator) : Prop := {
  al_count : block_count e = count /\ 0 < count;
  al_range : 0 <= start_block e /\ start_block e + count <= PACKAGE_CONTENT_MAX_BLOCKS;
  al_free : run_free a count (start_block e);
  al_first : forall s, 0 <= s < start_block e -> ~ run_free a count s;
  al_ok : alloc_ok a';
  al_committed : committed_words a' = committed_words a;
  al_staged : forall b, marked (staged_words a') b <-> marked (staged_words a) b \/ start_block e <= b < start_block e + count;
}.

Lemma allocate_staged_spec a count :
  alloc_ok a -> 0 <= count ->
  wpA (allocate_staged count) a (allocated a count)
    (fun e a' => a' = a /\ (e = BoundsExceeded /\ (count = 0 \/ PACKAGE_CONTENT_MAX_BLOCKS < count) \/
       e = QuotaDenied /\ forall s, 0 <= s -> s + count <= PACKAGE_CONTENT_MAX_BLOCKS -> ~ run_free a count s)).
Proof.
  intros Ha Hn. unfold allocate_staged, validate_extent. cbn [block_count start_block]. change (0 + count) with count.
  act_step. act_step. act_step. act_step; [intros Hz%Z.eqb_neq|intros Hz%Z.eqb_eq; split; [done|]; left; auto].
  act_step; [intros Hm%Z.ltb_ge|intros Hm%Z.ltb_lt; split; [done|]; left; auto].
  act_step. act_step. eapply wp_mono; [by apply (first_free_run_spec a count 0 (fun _ => False))| |done]. intros [s|] Hs; act_step; act_step; cbn [ok_or]; [|split; [done|right; auto]].
  destruct Hs as (Hs0 & Hs1 & Hf & Hfirst). act_step. act_step. act_step.
  eapply wp_mono; [apply mark_range_spec; [apply Ha|lia..]| |done]. intros words [Hw Hmk]. act_step. act_step. act_step.
  split; cbn; [lia|lia|done|exact Hfirst|split; [apply Ha|done]|done|done].
Qed.

Lemma not_marked_empty b : ~ marked no_words b.
Proof. intros (w & [-> _]%get_replicate & Ht). by rewrite Z.bits_0 in Ht. Qed.

Lemma no_words_ok : words_ok no_words.
Proof. unfold words_ok, no_words. by rewrite len_replicate. Qed.

(** A commit unites the words. *)
Lemma commit_staged_spec a :
  alloc_ok a ->
  wpA commit_staged a
    (fun words a' => alloc_ok a' /\ committed_words a' = words /\ staged_words a' = no_words /\
       forall b, marked words b <-> marked (committed_words a) b \/ marked (staged_words a) b)
    (fun _ _ => False).
Proof.
  intros [Hc Hs]. unfold commit_staged. act_step. act_step.
  eapply wp_mono; [apply (wp_foldM_range _ (fun _ => False) (fun k words => words_ok words /\ forall i x y,
     get (committed_words a) i = Some x -> get (staged_words a) i = Some y ->
     get words i = Some (if decide (i < k) then Z.lor x y else x)))| |done].
  - done.
  - split; [done|]. intros i x y Hx Hy. rewrite decide_False; [done|]. apply get_Some in Hx. lia.
  - intros i words Hi [Hw Hg]. unfold commit_word, words_ok in *. change PACKAGE_CONTENT_BITMAP_WORDS with 128 in *.
    apply wp_bind, wp_index; [lia|]. intros x Hx. apply wp_bind, wp_index; [lia|]. intros y Hy. apply wp_index_set; [lia|].
    split; [by rewrite len_insert|]. intros j x' y' Hx' Hy'. destruct (decide (j = i)) as [->|Hne].
    + rewrite get_insert_eq by lia. rewrite (Hg i x' y' Hx' Hy') in Hx. rewrite decide_False in Hx by lia. simplify_eq. by rewrite decide_True by lia.
    + rewrite get_insert_ne by lia. rewrite (Hg j x' y' Hx' Hy'). by do 2 case_decide; try lia.
  - intros words [Hw Hg]. act_step. act_step. act_step. unfold rollback_staged. cbn [committed_words staged_words].
    split; [split; [done|apply no_words_ok]|]. split; [done|]. split; [done|]. intros b. unfold marked.
    unfold words_ok in *. change PACKAGE_CONTENT_BITMAP_WORDS with 128 in *.
    destruct (decide (0 <= b / 64 < 128)) as [Hb|Hb].
    + destruct (proj2 (get_is_Some (committed_words a) (b / 64)) ltac:(lia)) as [x Hx].
      destruct (proj2 (get_is_Some (staged_words a) (b / 64)) ltac:(lia)) as [y Hy].
      rewrite (Hg _ x y Hx Hy), Hx, Hy, decide_True by lia. split.
      * intros (w & [= <-] & Ht). rewrite Z.lor_spec in Ht. apply orb_true_iff in Ht as [Ht|Ht]; [left|right]; eauto.
      * intros [(w & [= <-] & Ht)|(w & [= <-] & Ht)]; eexists; (split; [reflexivity|]); rewrite Z.lor_spec, Ht; [done|apply orb_true_r].
    + rewrite !(proj2 (get_None _ _)) by lia. naive_solver.
Qed.

(** ** Slots *)

Definition in_extent (e : PackageExtent) (b : Z) : Prop := start_block e <= b < start_block e + block_count e.

Definition flat (es : list PackageExtent) : list Z := concat (extent_blocks <$> es).

(** The blocks of the first [count] extents. *)
Definition blocks_of (es : list PackageExtent) (count : Z) : list Z := flat (take (Z.to_nat count) es).

Lemma flat_app es es' : flat (es ++ es') = flat es ++ flat es'.
Proof. unfold flat. by rewrite fmap_app, concat_app. Qed.

Lemma flat_snoc es e : flat (es ++ [e]) = flat es ++ extent_blocks e.
Proof. rewrite flat_app. unfold flat at 2. simpl. by rewrite app_nil_r. Qed.

Definition extent_ok (e : PackageExtent) : Prop :=
  0 <= start_block e /\ 0 < block_count e /\ start_block e + block_count e <= PACKAGE_CONTENT_MAX_BLOCKS.

(** An extent of [u16] fields. *)
Definition extent_uint (e : PackageExtent) : Prop := uint 16 (start_block e) /\ uint 16 (block_count e).

Record extents_ok (es : list PackageExtent) (count : Z) : Prop := {
  xo_len : len es = MAX_CONTENT_EXTENTS_PER_RECORD;
  xo_count : 0 <= count <= MAX_CONTENT_EXTENTS_PER_RECORD;
  xo_extents : Forall extent_ok (take (Z.to_nat count) es);
  xo_uint : Forall extent_uint es;
  xo_apart : NoDup (blocks_of es count);
}.

Definition slot_blocks (x : PackageContentSlot) : list Z := blocks_of (extents (slot_record x)) (extent_count (slot_record x)).

Definition blocks_needed (n : Z) : Z := (n + 511) / 512.

Record slot_ok (x : PackageContentSlot) : Prop := {
  so_extents : extents_ok (extents (slot_record x)) (extent_count (slot_record x));
  so_len : byte_len (slot_record x) = len (slot_bytes x) /\ len (slot_bytes x) <= MAX_CONTENT_BYTES;
  so_digest : digest (slot_record x) = sha256_digest (slot_bytes x);
  so_blocks : len (slot_blocks x) = blocks_needed (len (slot_bytes x));
}.

Definition apart (x y : PackageContentSlot) : Prop := forall b, b ∈ slot_blocks x -> b ∈ slot_blocks y -> False.

(** Array slots filled from the front; the slots from [n] on are empty. *)
Definition filled {A} (l : list (option A)) (n : Z) : Prop := Forall (fun o => o = None) (drop (Z.to_nat n) l).

Lemma flatten_app {A} (l k : list (option A)) : flatten (l ++ k) = flatten l ++ flatten k.
Proof. apply omap_app. Qed.

Lemma flatten_none {A} (l : list (option A)) : Forall (fun o => o = None) l -> flatten l = [].
Proof. induction 1 as [|o l -> _ IH]; [done|exact IH]. Qed.

Lemma filled_flatten {A} (l : list (option A)) n : filled l n -> flatten l = flatten (take (Z.to_nat n) l).
Proof. intros H. rewrite <- (take_drop (Z.to_nat n) l) at 1. by rewrite flatten_app, (flatten_none _ H), app_nil_r. Qed.

Lemma filled_insert {A} (l : list (option A)) n (x : A) :
  filled l n -> 0 <= n < len l ->
  flatten (<[Z.to_nat n := Some x]> l) = flatten l ++ [x] /\ filled (<[Z.to_nat n := Some x]> l) (n + 1).
Proof.
  intros H Hn. assert (Z.to_nat n < length l)%nat as Hlt by (unfold len in Hn; lia). unfold filled in *.
  replace (Z.to_nat (n + 1)) with (S (Z.to_nat n)) by lia.
  assert (Forall (fun o => o = None) (drop (S (Z.to_nat n)) l)) as Hd.
  { replace (S (Z.to_nat n)) with (Z.to_nat n + 1)%nat by lia. rewrite <- drop_drop. by apply Forall_drop. }
  split; [|by rewrite drop_insert_lt by lia]. rewrite insert_take_drop by done. rewrite flatten_app, (filled_flatten l n H).
  change (Some x :: drop (S (Z.to_nat n)) l) with ([Some x] ++ drop (S (Z.to_nat n)) l).
  by rewrite flatten_app, (flatten_none _ Hd), app_nil_r.
Qed.

(** ** The invariant of a store and its transaction *)

Abbreviation cslots s := (flatten (committed_slots s)).
Abbreviation tslots t := (flatten (staged_slots t)).

Record content_inv (s : PackageContentStore) (t : PackageContentTransaction) : Prop := {
  ci_alloc : alloc_ok (allocator s);
  ci_committed : len (committed_slots s) = 64 /\ 0 <= committed_count s <= 64 /\ filled (committed_slots s) (committed_count s);
  ci_staged : len (staged_slots t) = 64 /\ 0 <= staged_count t <= 64 /\ filled (staged_slots t) (staged_count t);
  ci_staged_count : len (tslots t) = staged_count t;
  ci_slots : Forall slot_ok (cslots s ++ tslots t);
  ci_apart : ForallOrdPairs apart (cslots s ++ tslots t);
  ci_cmarked : forall x b, x ∈ cslots s -> b ∈ slot_blocks x -> marked (committed_words (allocator s)) b;
  ci_smarked : forall x b, x ∈ tslots t -> b ∈ slot_blocks x -> marked (staged_words (allocator s)) b;
  ci_fresh : forall x b, x ∈ tslots t -> b ∈ slot_blocks x -> ~ marked (committed_words (allocator s)) b;
}.

Lemma no_slots_filled {A} n : filled (no_slots (A := A)) n /\ flatten (no_slots (A := A)) = [] /\ len (no_slots (A := A)) = 64.
Proof. split_and!; [|done..]. unfold filled, no_slots. apply Forall_drop, Forall_replicate. done. Qed.

(** Without staged slots the staged words do not matter. *)
Lemma inv_cleared s t a :
  content_inv s t -> alloc_ok a -> committed_words a = committed_words (allocator s) ->
  forall p r, content_inv (set_allocator a s) (new_transaction p r).
Proof.
  intros [Ha Hc _ _ Hok Hap Hcm _ _] Ha' Hw p r. apply Forall_app in Hok as [Hok _]. apply ordpairs_app in Hap as (Hap & _ & _).
  destruct (no_slots_filled (A := PackageContentSlot) 0) as (Hf & Hn & Hl).
  split; cbn [allocator set_allocator committed_slots committed_count new_transaction staged_slots staged_count]; rewrite ?Hn, ?app_nil_r; try done.
  - intros x b Hx Hb. rewrite Hw. by apply (Hcm x).
  - intros x b Hx. by apply not_elem_of_nil in Hx.
  - intros x b Hx. by apply not_elem_of_nil in Hx.
Qed.

Lemma empty_inv p r : content_inv empty_store (new_transaction p r).
Proof.
  destruct (no_slots_filled (A := PackageContentSlot) 0) as (Hf & Hn & Hl).
  split; cbn [allocator empty_store committed_slots committed_count new_transaction staged_slots staged_count]; rewrite ?Hn; try done.
  - constructor.
  - intros x b Hx. by apply not_elem_of_nil in Hx.
  - intros x b Hx. by apply not_elem_of_nil in Hx.
  - intros x b Hx. by apply not_elem_of_nil in Hx.
Qed.

(** The blocks of a new slot are free. *)
Lemma blocks_of_none : blocks_of no_extents 0 = [].
Proof. done. Qed.

Lemma blocks_of_single e : blocks_of (single_extent e) 1 = extent_blocks e.
Proof. change (blocks_of (single_extent e) 1) with (extent_blocks e ++ []). apply app_nil_r. Qed.

Lemma elem_of_extent_blocks e b : b ∈ extent_blocks e <-> in_extent e b.
Proof. apply elem_of_range. Qed.

Lemma none_extents_ok : extents_ok no_extents 0.
Proof.
  split; [done|by change MAX_CONTENT_EXTENTS_PER_RECORD with 32|constructor| |constructor]. by apply Forall_replicate.
Qed.

Lemma single_extents_ok e : extent_ok e -> extents_ok (single_extent e) 1.
Proof.
  intros He. split; [done|by change MAX_CONTENT_EXTENTS_PER_RECORD with 32| | |].
  - change (Forall extent_ok [e]). constructor; [exact He|constructor].
  - apply Forall_insert; [by apply Forall_replicate|]. destruct He as (? & ? & Hm). change PACKAGE_CONTENT_MAX_BLOCKS with 8192 in Hm.
    unfold extent_uint, uint. change (2 ^ 16) with 65536. lia.
  - rewrite blocks_of_single. apply NoDup_range.
Qed.

Lemma len_extent_blocks e : extent_ok e -> len (extent_blocks e) = block_count e.
Proof. intros (? & ? & ?). unfold len, extent_blocks. rewrite length_range. lia. Qed.

Lemma blocks_for_len_spec n :
  0 <= n <= MAX_CONTENT_BYTES -> blocks_for_len n = Ok (blocks_needed n) /\ 0 <= blocks_needed n <= PACKAGE_CONTENT_MAX_BLOCKS /\
    (blocks_needed n = 0 <-> n = 0).
Proof.
  intros Hn. change MAX_CONTENT_BYTES with 4194304 in Hn. unfold blocks_for_len, blocks_needed. change PACKAGE_CONTENT_MAX_BLOCKS with 8192.
  change PACKAGE_CONTENT_BLOCK_BYTES with 512. change (512 - 1) with 511.
  assert (0 <= (n + 511) / 512 <= 8192) as Hd
    by (split; [apply Z.div_pos|apply Z.lt_succ_r, Z.div_lt_upper_bound]; lia).
  split; [|split; [lia|]].
  - destruct (Z.eqb_spec n 0) as [->|Hz]; [done|]. unfold checked_add. rewrite checked_id by (unfold uint; lia). cbn [ok_or].
    rewrite ok_bind. by replace (8192 <? (n + 511) / 512) with false by lia.
  - split; [|by intros ->]. intros H0. apply Z.div_small_iff in H0; lia.
Qed.

(** ** Staging *)

Definition new_slot (t : PackageContentTransaction) (role format : Z) (bytes : list byte) (es : list PackageExtent) (count : Z) :
    PackageContentSlot :=
  {| slot_record := staged_record (next_content_id t) role format (sha256_digest bytes) (len bytes) es count; slot_bytes := bytes |}.

Definition pushed (x : PackageContentSlot) (t t' : PackageContentTransaction) : Prop :=
  package_object_id t' = package_object_id t /\ release_digest t' = release_digest t /\ staged_count t' = staged_count t + 1 /\
  next_content_index t' = next_content_index t + 1 /\ len (staged_slots t') = 64 /\ filled (staged_slots t') (staged_count t') /\
  tslots t' = tslots t ++ [x].

Lemma push_staged_spec x t :
  len (staged_slots t) = 64 -> 0 <= staged_count t -> filled (staged_slots t) (staged_count t) ->
  wpA (push_staged x) t (fun _ t' => staged_count t < 64 /\ pushed x t t') (fun e t' => e = QuotaDenied /\ 64 <= staged_count t /\ t' = t).
Proof.
  intros Hl H0 Hf. unfold push_staged. change PACKAGE_CONTENT_MAX_STAGED_RECORDS with 64. act_step. act_step. act_step.
  act_step. act_step. act_step; [intros Hc%Z.leb_gt|intros Hc%Z.leb_le; done]. act_step. act_step. apply wp_index_set; [lia|]. act_step.
  destruct (filled_insert (staged_slots t) (staged_count t) x Hf ltac:(lia)) as [Hfl Hfi].
  split; [done|]. split_and!; cbn; [done|done|done|done|by rewrite len_insert|exact Hfi|exact Hfl].
Qed.

(** The published contents are the same. *)
Definition kept_published (s s' : PackageContentStore) : Prop :=
  persisted_records s' = persisted_records s /\ committed_words (allocator s') = committed_words (allocator s) /\
  committed_count s' = committed_count s.

Section stage.
Variables (role format : Z) (bytes expected : list byte).
Variables (s : PackageContentStore) (t : PackageContentTransaction).
Hypothesis (Hinv : content_inv s t).
Hypothesis (Hroom : staged_count t < 64).

(** The new slot and the state it is pushed into. *)
Lemma push_inv a t' es count :
  expected = sha256_digest bytes -> len bytes <= MAX_CONTENT_BYTES ->
  alloc_ok a -> committed_words a = committed_words (allocator s) ->
  (forall b, marked (staged_words a) b <-> marked (staged_words (allocator s)) b \/ b ∈ blocks_of es count) ->
  extents_ok es count -> len (blocks_of es count) = blocks_needed (len bytes) ->
  (forall b, b ∈ blocks_of es count -> ~ marked (committed_words (allocator s)) b /\ ~ marked (staged_words (allocator s)) b) ->
  pushed (new_slot t role format bytes es count) t t' -> content_inv (set_allocator a s) t'.
Proof.
  intros -> Hmax Ha Hcw Hsw Hes Hlen Hfree (_ & _ & Hcount & _ & Hl & Hf & Hfl). destruct Hinv as [_ Hc Hst Hsc Hok Hap Hcm Hsm Hfr].
  set (x := new_slot _ _ _ _ _ _) in *.
  split; cbn [allocator set_allocator committed_slots committed_count]; rewrite ?Hfl, ?app_assoc.
  - done.
  - done.
  - split; [done|]. split; [lia|done].
  - rewrite len_app. change (len [x]) with 1. lia.
  - apply Forall_app. split; [done|]. constructor; [|constructor]. by split.
  - apply ordpairs_app. split_and!; [done|constructor; constructor|]. intros y z Hy Hz b Hb1 Hb2.
    apply list_elem_of_singleton in Hz as ->. change (b ∈ blocks_of es count) in Hb2. destruct (Hfree b Hb2) as [Hn1 Hn2].
    apply elem_of_app in Hy as [Hy|Hy]; [by eapply Hn1, Hcm|by eapply Hn2, Hsm].
  - intros y b Hy Hb. rewrite Hcw. by apply (Hcm y).
  - intros y b [Hy|Hy]%elem_of_app Hb; apply Hsw; [left; by apply (Hsm y)|right]. apply list_elem_of_singleton in Hy as ->. exact Hb.
  - intros y b [Hy|Hy]%elem_of_app Hb; rewrite Hcw; [by apply (Hfr y)|]. apply list_elem_of_singleton in Hy as ->. by apply Hfree.
Qed.

(** Why a call fails. *)
Definition stage_failure (e : PackageStatus) : Prop :=
  e = BoundsExceeded /\ MAX_CONTENT_BYTES < len bytes \/
  e = DigestMismatch /\ expected <> sha256_digest bytes \/
  e = QuotaDenied /\ forall first, 0 <= first -> first + blocks_needed (len bytes) <= PACKAGE_CONTENT_MAX_BLOCKS ->
    ~ run_free (allocator s) (blocks_needed (len bytes)) first.

(** A staged content gets the next identifier and a slot whose blocks were
    free; a failed call changes nothing. *)
Lemma stage_content_spec :
  wpA (stage_content role format bytes expected) (s, t)
    (fun id st => content_inv st.1 st.2 /\ id = next_content_id t /\ expected = sha256_digest bytes /\
       committed_slots st.1 = committed_slots s /\ kept_published s st.1 /\
       exists es count, pushed (new_slot t role format bytes es count) t st.2)
    (fun e st => st = (s, t) /\ stage_failure e).
Proof.
  unfold stage_content. act_step. act_step. act_step; [intros Hmax%Z.ltb_ge|intros Hmax%Z.ltb_lt; by split; [|left]]. act_step. act_step.
  rewrite sha256_ok. act_step. act_step. act_step. act_step; [intros Hd%negb_false_iff%bool_decide_eq_true|].
  2:{ intros Hd%negb_true_iff%bool_decide_eq_false. split; [done|]. right. left. by split; [|intros ->]. }
  destruct (blocks_for_len_spec (len bytes)) as (Hbl & Hbn & Hbz); [pose proof (len_nonneg bytes); lia|].
  act_step. act_step. rewrite Hbl. act_step. destruct Hinv as [Ha Hc (Hsl & Hs0 & Hsf) _ _ _ _ _ _].
  destruct (Z.eqb_spec (blocks_needed (len bytes)) 0) as [Hz|Hnz].
  - act_step. act_step. act_step. act_step. act_step. act_step. apply wpA_or_undo, wpA_on_snd.
    eapply wpA_mono; [by apply push_staged_spec; [|lia|]| |].
    + intros u t' [_ Hp]. act_step. cbn [fst snd] in *. rewrite <- Hd in Hp. split_and!; try done; [|by eexists _, _].
      replace s with (set_allocator (allocator s) s) by by destruct s.
      apply (push_inv (allocator s) t' no_extents 0 (eq_sym Hd) Hmax Ha eq_refl); [|exact none_extents_ok|by rewrite Hz| |exact Hp].
      * intros b. split; [by left|]. intros [?|Hb]; [done|]. by apply not_elem_of_nil in Hb.
      * intros b Hb. by apply not_elem_of_nil in Hb.
    + intros e t' (_ & ? & _). lia.
  - act_step. act_step. unfold on_allocator. apply wpA_on_fst, wpA_zoom. unfold id.
    eapply wpA_mono; [by apply allocate_staged_spec; [|lia]| |].
    + intros e a [[He Hpos] Hr Hfree _ Ha' Hcw Hsw]. act_step. act_step. act_step. act_step. act_step. cbn [fst snd].
      apply wpA_or_undo, wpA_on_snd. eapply wpA_mono; [by apply push_staged_spec; [|lia|]| |].
      * intros u t' [_ Hp]. act_step. cbn [fst snd] in *. rewrite <- Hd in Hp. split_and!; try done; [|by eexists _, _].
        assert (extent_ok e) as Heo by (unfold extent_ok; lia).
        apply (push_inv a t' (single_extent e) 1 (eq_sym Hd) Hmax Ha' Hcw); [|by apply single_extents_ok| | |exact Hp]; rewrite ?blocks_of_single; [|by rewrite len_extent_blocks|].
        -- intros b. rewrite elem_of_extent_blocks. unfold in_extent. rewrite He. apply Hsw.
        -- intros b Hb%elem_of_extent_blocks. unfold in_extent in Hb. rewrite He in Hb. by apply Hfree.
      * intros e' t' (_ & ? & _). lia.
    + intros e a [-> [[_ ?]|Hq]]; [lia|]. split; [by destruct s|]. right. right. exact Hq.
Qed.
End stage.

(** ** Commits *)

Lemma flatten_take_S {A} (l : list (option A)) i o :
  l !! i = Some o -> flatten (take (S i) l) = flatten (take i l) ++ flatten [o].
Proof. intros Ho. by rewrite (take_S_r l i o Ho), flatten_app. Qed.

Lemma flatten_take_lt {A} (l : list (option A)) i x : l !! i = Some (Some x) -> (length (flatten (take i l)) < length (flatten l))%nat.
Proof.
  intros Hx. rewrite <- (take_drop_middle l i (Some x) Hx) at 2. change (Some x :: drop (S i) l) with ([Some x] ++ drop (S i) l).
  rewrite !flatten_app, !length_app. simpl. lia.
Qed.

Lemma commit_loop_spec slots count staged k :
  len staged = 64 -> len slots = 64 -> 0 <= count -> filled slots count -> count + len (flatten staged) <= 64 -> k = 64 ->
  wp (foldM (commit_round staged) (slots, count, 0) (range 0 k))
    (fun r => r.2 = len (flatten staged) /\ r.1.2 = count + len (flatten staged) /\ len r.1.1 = 64 /\ filled r.1.1 r.1.2 /\
       flatten r.1.1 = flatten slots ++ (commit_slot <$> flatten staged))
    (fun _ => False).
Proof.
  intros Hst Hsl Hc Hf Hcap ->.
  eapply wp_mono; [apply (wp_foldM_prefix _ (fun _ => False) (fun i r => let d := flatten (take i staged) in
    r.2 = len d /\ r.1.2 = count + len d /\ len r.1.1 = 64 /\ filled r.1.1 r.1.2 /\ flatten r.1.1 = flatten slots ++ (commit_slot <$> d)))| |done].
  - split_and!; [done|unfold len; simpl; lia|done|done|by rewrite app_nil_r].
  - intros i x [[l n] m] [-> Hlt]%lookup_range (Hm & Hn & Hl & Hfl & Hd). cbn [fst snd] in *. unfold commit_round.
    apply wp_bind, wp_index; [lia|]. intros o Ho. apply get_Some in Ho as [_ Ho]. rewrite Z.add_0_l, Nat2Z.id in Ho.
    pose proof (flatten_take_S staged i o Ho) as Hflat. destruct o as [slot|].
    + pose proof (flatten_take_lt staged i slot Ho) as Hlen. change (flatten [Some slot]) with [slot] in Hflat.
      apply wp_bind, wp_index_set; [unfold len in *; lia|].
      destruct (filled_insert l n (commit_slot slot) Hfl ltac:(unfold len in *; lia)) as [Hf1 Hf2]. apply wp_ok. cbn [fst snd].
      rewrite Hflat, len_app, fmap_app, app_assoc. change (len [slot]) with 1. split_and!; [lia|lia|by rewrite len_insert|exact Hf2|].
      by rewrite Hf1, Hd.
    + apply wp_ok. cbn [fst snd]. change (flatten [None]) with (@nil PackageContentSlot) in Hflat. by rewrite Hflat, app_nil_r.
  - intros r. rewrite length_range. change (Z.to_nat (64 - 0)) with 64%nat. by rewrite take_ge by (unfold len in *; lia).
Qed.

Lemma commit_slots_blocks (L : list PackageContentSlot) b y : y ∈ commit_slot <$> L -> b ∈ slot_blocks y -> exists x, x ∈ L /\ b ∈ slot_blocks x.
Proof. intros [x [-> Hx]]%list_elem_of_fmap Hb. by exists x. Qed.

(** The published contents of a commit are the staged ones. *)
Definition committed_from (s : PackageContentStore) (t : PackageContentTransaction) (s' : PackageContentStore) : Prop :=
  cslots s' = cslots s ++ (commit_slot <$> tslots t).

Lemma content_commit_spec s t :
  content_inv s t ->
  wpA commit (s, t)
    (fun c st => content_inv st.1 st.2 /\ committed_from s t st.1 /\ st.2 = clear t /\ persisted_records st.1 = persisted_records s /\
       record_count c = len (tslots t) /\ committed_bitmap c = committed_words (allocator st.1) /\
       forall b, marked (committed_bitmap c) b <->
         marked (committed_words (allocator s)) b \/ marked (staged_words (allocator s)) b)
    (fun e st => e = QuotaDenied /\ st = (s, t) /\ 64 < committed_count s + staged_count t).
Proof.
  intros [Ha (Hcl & Hc0 & Hcf) (Hsl & Hs0 & Hsf) Hsc Hok Hap Hcm Hsm _]. unfold commit, validate_commit_capacity.
  change PACKAGE_CONTENT_MAX_STAGED_RECORDS with 64. act_step. act_step. cbn [fst snd]. act_step; [intros Hcap%Z.ltb_ge|intros Hcap%Z.ltb_lt; done].
  act_step. act_step. cbn [fst snd]. eapply wp_mono; [apply commit_loop_spec; done || lia| |done].
  intros [[slots count] records] (Hr & Hn & Hl & Hf & Hflat). cbn [fst snd] in *. act_step. act_step. act_step.
  unfold on_allocator. cbn [fst snd]. apply wpA_on_fst, wpA_zoom. unfold id. cbn [allocator set_committed].
  eapply wpA_mono; [by apply commit_staged_spec| |done]. intros words a (Ha' & Hcw & Hsw & Hmk). act_step. act_step. act_step.
  cbn [fst snd]. destruct (no_slots_filled (A := PackageContentSlot) 0) as (Hf0 & Hn0 & Hl0).
  split_and!; try done. apply Forall_app in Hok as [Hok1 Hok2]. apply ordpairs_app in Hap as (Hap1 & Hap2 & Hap3).
  split; cbn [allocator set_allocator committed_slots committed_count set_committed clear new_transaction staged_slots staged_count];
    rewrite ?Hflat, ?Hn0, ?app_nil_r; try done.
  - split; [done|]. split; [lia|done].
  - apply Forall_app. split; [done|]. apply Forall_fmap. eapply Forall_impl; [exact Hok2|]. intros x [? ? ? ?]. by split.
  - apply ordpairs_app. split_and!; [done| |].
    + clear -Hap2. induction Hap2 as [|x l Hx _ IH]; [constructor|]. constructor; [|exact IH]. apply Forall_fmap.
      eapply Forall_impl; [exact Hx|]. intros y Hy. exact Hy.
    + intros x y Hx [z [-> Hz]]%list_elem_of_fmap b Hb1 Hb2. exact (Hap3 x z Hx Hz b Hb1 Hb2).
  - intros x b Hx Hb. rewrite Hcw, Hmk. apply elem_of_app in Hx as [Hx|Hx]; [left; by apply (Hcm x)|right].
    destruct (commit_slots_blocks _ b x Hx Hb) as (y & Hy & Hb'). by apply (Hsm y).
  - intros x b Hx. by apply not_elem_of_nil in Hx.
  - intros x b Hx. by apply not_elem_of_nil in Hx.
Qed.

(** ** The blocks of records *)

Lemma content_extent_spec e :
  extent_uint e -> wp (validate_extent e) (fun _ => extent_ok e) (fun er => er = BoundsExceeded /\ ~ extent_ok e).
Proof.
  intros [[? _] [? _]]. unfold validate_extent, extent_ok. act_step. act_step; [intros Hz%Z.eqb_neq|intros Hz%Z.eqb_eq; split; [done|lia]].
  act_step; [intros Hm%Z.ltb_ge; lia|intros Hm%Z.ltb_lt; split; [done|lia]].
Qed.

(** The extents of a record as it is represented: an array of 32 pairs of
    [u16] and a count that is not negative. *)
Record extents_rep (es : list PackageExtent) (count : Z) : Prop := {
  xr_len : len es = MAX_CONTENT_EXTENTS_PER_RECORD;
  xr_count : 0 <= count;
  xr_uint : Forall extent_uint es;
}.

Lemma extents_ok_rep es count : extents_ok es count -> extents_rep es count.
Proof. intros [? ? _ ? _]. split; [done|lia|done]. Qed.

(** Marking a record marks the blocks of its extents; it fails exactly when
    they are out of bounds. *)
Lemma mark_record_extents_spec bm es count :
  words_ok bm -> extents_rep es count ->
  let fits := count <= MAX_CONTENT_EXTENTS_PER_RECORD /\ Forall extent_ok (take (Z.to_nat count) es) in
  wp (mark_record_extents bm es count)
    (fun bm' => fits /\ words_ok bm' /\ forall b, marked bm' b <-> marked bm b \/ b ∈ blocks_of es count) (fun _ => ~ fits).
Proof.
  intros Hbm [Hl Hc Hu] fits. unfold mark_record_extents. act_step. act_step; [intros Hm%Z.ltb_ge|intros Hm%Z.ltb_lt []; lia].
  eapply wp_mono; [apply (wp_foldM_prefix _ (fun _ => ~ fits) (fun i bm' => let pre := take i es in
    Forall extent_ok pre /\ words_ok bm' /\ forall b, marked bm' b <-> marked bm b \/ b ∈ flat pre))| |done].
  - split; [constructor|]. split; [done|]. intros b. split; [by left|]. intros [?|Hb]; [done|]. by apply not_elem_of_nil in Hb.
  - intros i x bm' [-> Hi]%lookup_range (Hok & Hw & Hmk). unfold mark_extent. apply wp_bind, wp_index; [lia|].
    intros e [_ He]%get_Some. rewrite Z.add_0_l, Nat2Z.id in He. rewrite Forall_lookup in Hu. rewrite (take_S_r es i e He), flat_snoc.
    apply wp_bind. eapply wp_mono; [by eapply content_extent_spec, Hu| |].
    + intros u Heo. pose proof Heo as (? & ? & ?). eapply wp_mono; [by apply mark_range_spec; [|lia..]| |done].
      intros bm2 [Hw2 Hm2]. split; [apply Forall_app; by split; [|constructor]|]. split; [done|]. intros b.
      rewrite Hm2, Hmk, elem_of_app, elem_of_extent_blocks. unfold in_extent. tauto.
    + intros er Hbad [_ Hall]. apply Hbad. rewrite Forall_lookup in Hall. apply (Hall i). rewrite lookup_take_lt by lia. done.
  - intros bm'. rewrite length_range, Z.sub_0_r. intros (Hok & Hw & Hmk). by split_and!.
Qed.

(** ** Contents on the device *)

Definition sector_of (b : Z) : Z := PACKAGE_CONTENT_BASE_SECTOR + b.

Lemma sector_of_inj b b' : sector_of b = sector_of b' -> b = b'.
Proof. unfold sector_of. lia. Qed.

(** The bytes of the given blocks. *)
Definition stream (c : Z -> list byte) (bs : list Z) : list byte := concat ((fun b => c (sector_of b)) <$> bs).

(** The content of [n] bytes that lies in the given extents. *)
Definition stored (c : Z -> list byte) (es : list PackageExtent) (count n : Z) : list byte :=
  take (Z.to_nat n) (stream c (blocks_of es count)).

Lemma stream_app c bs bs' : stream c (bs ++ bs') = stream c bs ++ stream c bs'.
Proof. unfold stream. by rewrite fmap_app, concat_app. Qed.

Section disk.
Context {D : Type} `{SectorDeviceLaws D}.

Lemma len_stream (d : D) bs : len (stream (disk_bytes d) bs) = 512 * len bs.
Proof.
  induction bs as [|b bs IH]; [done|]. change (b :: bs) with ([b] ++ bs). rewrite stream_app, !len_app, IH.
  unfold stream. simpl. rewrite app_nil_r, disk_bytes_len. change (len [b]) with 1. change SECTOR_SIZE with 512. lia.
Qed.

Lemma content_sector_ok e off : extent_uint e -> 0 <= off < block_count e -> content_sector e off = Ok (sector_of (start_block e + off)).
Proof.
  intros [[? ?] [? ?]] Hoff. unfold content_sector, checked_add, sector_of. change PACKAGE_CONTENT_BASE_SECTOR with 256.
  by rewrite checked_id by (split; [lia|]; change (2 ^ 64) with 18446744073709551616; change (2 ^ 16) with 65536 in *; lia).
Qed.

(** The loop over the blocks of one extent. *)
Lemma wpA_blocks {T} (f : T -> Z -> action D PackageStatus T) (I : list Z -> T -> D -> Prop) R e (done : list Z) t d :
  0 <= block_count e ->
  (forall i t d, 0 <= i < block_count e -> I (done ++ range (start_block e) (start_block e + i)) t d ->
     wpA (f t i) d (I (done ++ range (start_block e) (start_block e + i) ++ [start_block e + i])) R) ->
  I done t d -> wpA (foldA f t (range 0 (block_count e))) d (I (done ++ extent_blocks e)) R.
Proof.
  intros Hc Hf Hz. unfold extent_blocks.
  pose proof (wpA_foldA f (fun i => I (done ++ range (start_block e) (start_block e + Z.of_nat i))) R (range 0 (block_count e)) t d) as Hw.
  rewrite length_range, Z.sub_0_r, Z2Nat.id in Hw by done. apply Hw; clear Hw.
  - rewrite range_nil by lia. by rewrite app_nil_r.
  - intros i x t' d' [-> Hi]%lookup_range HI. rewrite Z.add_0_l. eapply wpA_mono; [apply Hf; [lia|exact HI]| |done].
    intros t2 d2. enough (range (start_block e) (start_block e + Z.of_nat i) ++ [start_block e + Z.of_nat i] =
      range (start_block e) (start_block e + Z.of_nat (S i))) as -> by done.
    unfold range. replace (start_block e + Z.of_nat (S i) - start_block e) with (Z.of_nat (S i)) by lia.
    rewrite seqZ_S. f_equal. f_equal. lia.
Qed.

(** The loop over extents. *)
Lemma wpA_each_extent {T} (f : T -> PackageExtent -> action D PackageStatus T) (I : list PackageExtent -> T -> D -> Prop) R es count t d :
  0 <= count <= len es -> Forall extent_uint es ->
  (forall pre e rest t d, take (Z.to_nat count) es = pre ++ e :: rest -> extent_uint e -> I pre t d -> wpA (f t e) d (I (pre ++ [e])) R) ->
  I [] t d -> wpA (each_extent es count f t) d (I (take (Z.to_nat count) es)) R.
Proof.
  intros Hc Hes Hf Hz. unfold each_extent.
  pose proof (wpA_foldA (fun t i => extent ← pure (index es i); f t extent) (fun i => I (take i es)) R (range 0 count) t d) as Hw.
  rewrite length_range, Z.sub_0_r in Hw. apply Hw; clear Hw; [exact Hz|].
  intros i x t' d' [-> Hi]%lookup_range HI. act_step. act_step. apply wp_index; [lia|]. intros e [_ He]%get_Some.
  rewrite Z.add_0_l, Nat2Z.id in He. rewrite Forall_lookup in Hes. rewrite (take_S_r es i e He).
  apply (Hf (take i es) e (drop (S i) (take (Z.to_nat count) es))); [|by eapply Hes|exact HI].
  rewrite <- (take_drop_middle (take (Z.to_nat count) es) i e) at 1 by (rewrite lookup_take_lt by lia; done).
  by rewrite take_take, Nat.min_l by lia.
Qed.

Lemma read_candidate_sector_spec n (d : D) :
  wpA (read_package_candidate_sector n) d
    (fun bytes d' => bytes = disk_bytes d n /\ disk_bytes d' = disk_bytes d)
    (fun e d' => disk_bytes d' = disk_bytes d /\ e = ContentCorrupt /\ unreliable D).
Proof.
  unfold read_package_candidate_sector, disk_call. apply wpA_zoom. eapply wpA_mono; [apply read_sector_law| |]; unfold id; [done|].
  intros e d' [Hu Hd]. exact (conj Hd (conj eq_refl Hu)).
Qed.

Lemma write_candidate_sector_spec n bytes (d : D) :
  len bytes = SECTOR_SIZE ->
  wpA (write_package_candidate_sector n bytes) d
    (fun _ d' => disk_bytes d' n = bytes /\ forall m, m <> n -> disk_bytes d' m = disk_bytes d m)
    (fun e d' => unreliable D /\ forall m, m <> n -> disk_bytes d' m = disk_bytes d m).
Proof.
  intros Hl. unfold write_package_candidate_sector, disk_call. apply wpA_zoom.
  eapply wpA_mono; [by apply write_sector_law| |]; unfold id; [done|]. intros e d' (Hu & _ & Hd). exact (conj Hu Hd).
Qed.
End disk.

(** ** Reading contents back *)

Section reading.
Context {D : Type} `{SectorDeviceLaws D}.

Lemma take_stream_snoc (d : D) n bs b :
  0 <= n ->
  let part := take (Z.to_nat n) (stream (disk_bytes d) bs) in
  take (Z.to_nat n) (stream (disk_bytes d) (bs ++ [b])) =
  part ++ take (Z.to_nat (Z.min (n - len part) SECTOR_SIZE)) (disk_bytes d (sector_of b)).
Proof.
  intros Hn part. unfold part. pose proof (len_stream d bs) as Hl. pose proof (disk_bytes_len d (sector_of b)) as Hs.
  rewrite stream_app, take_app. change (stream (disk_bytes d) [b]) with (disk_bytes d (sector_of b) ++ []). rewrite app_nil_r.
  f_equal. change SECTOR_SIZE with 512 in *. unfold len in *. rewrite length_take.
  destruct (decide (Z.to_nat n - length (stream (disk_bytes d) bs) <= 512)%nat).
  - f_equal. lia.
  - rewrite !take_ge by lia. done.
Qed.

(** What the validation of a stored content has read. *)
Definition hash_state (c : Z -> list byte) (n : Z) (bs : list Z) (s : Z * Sha256 * Z) : Prop :=
  represents s.1.2 (take (Z.to_nat n) (stream c bs)) /\ s.2 = n - len (take (Z.to_nat n) (stream c bs)).

Lemma hash_sector_spec (d0 d : D) n e bs off s :
  0 <= n -> extent_uint e -> 0 <= off < block_count e -> disk_bytes d = disk_bytes d0 -> hash_state (disk_bytes d0) n bs s ->
  wpA (hash_sector e s off) d
    (fun s' d' => disk_bytes d' = disk_bytes d0 /\ hash_state (disk_bytes d0) n (bs ++ [start_block e + off]) s' /\ s'.1.1 = s.1.1)
    (fun e d' => disk_bytes d' = disk_bytes d0 /\ e = ContentCorrupt /\ unreliable D).
Proof.
  intros Hn He Hoff Hd [Hr Hrem]. destruct s as [[blocks h] remaining]. cbn [fst snd] in *. unfold hash_sector.
  act_step. act_step. rewrite content_sector_ok by done. act_step. act_step.
  eapply wpA_mono; [apply read_candidate_sector_spec| |by intros ? ? [-> ?]]. intros sector d' [-> Hd'].
  pose proof (disk_bytes_len d0 (sector_of (start_block e + off))) as Hl. change SECTOR_SIZE with 512 in *.
  assert (0 <= remaining) as Hrem0 by (rewrite Hrem; unfold len; rewrite length_take; lia). rewrite Hd in *.
  act_step. act_step. rewrite (proj2 (get_range_Some _ 0 _ _)) by (split_and!; [lia..|reflexivity]). apply wp_ok. act_step. act_step.
  eapply wp_mono; [by apply sha_update_spec| |done]. intros h' Hh'. act_step. cbn [fst snd].
  rewrite Z.sub_0_r, drop_0 in Hh'.
  pose proof (take_stream_snoc d0 n bs (start_block e + off) Hn) as Hsnoc. cbv zeta in Hsnoc. rewrite <- Hrem in Hsnoc.
  split; [done|]. split; [|done]. split; cbn [fst snd]; rewrite Hsnoc; [exact Hh'|].
  rewrite len_app, Z.sub_add_distr, <- Hrem. f_equal. change SECTOR_SIZE with 512. unfold len in *. rewrite length_take. lia.
Qed.

(** The content in the extents is well placed and has the digest. *)
Record stored_ok (c : Z -> list byte) (expected : list byte) (n : Z) (es : list PackageExtent) (count : Z) : Prop := {
  st_len : n <= MAX_CONTENT_BYTES;
  st_count : count <= MAX_CONTENT_EXTENTS_PER_RECORD;
  st_extents : Forall extent_ok (take (Z.to_nat count) es);
  st_blocks : len (blocks_of es count) = blocks_needed n;
  st_digest : expected = sha256_digest (stored c es count n);
}.

Lemma len_app_extent bs e : extent_uint e -> len (bs ++ extent_blocks e) = len bs + block_count e.
Proof. intros [_ [? _]]. rewrite len_app. f_equal. unfold len, extent_blocks. rewrite length_range. lia. Qed.

Lemma len_stored (d : D) n es count :
  0 <= n -> len (blocks_of es count) = blocks_needed n -> len (stored (disk_bytes d) es count n) = n.
Proof.
  intros Hn Hb. pose proof (len_stream d (blocks_of es count)) as Hl. unfold stored, blocks_needed in *.
  pose proof (Z.div_mod (n + 511) 512). pose proof (Z.mod_pos_bound (n + 511) 512). unfold len in *. rewrite length_take. lia.
Qed.

(** Why a content is not accepted. *)
Definition stored_fault (e : PackageStatus) (c : Z -> list byte) (expected : list byte) (n : Z) (es : list PackageExtent) (count : Z) : Prop :=
  e = BoundsExceeded /\ (MAX_CONTENT_BYTES < n \/ MAX_CONTENT_EXTENTS_PER_RECORD < count \/ ~ Forall extent_ok (take (Z.to_nat count) es)) \/
  e = ContentCorrupt /\ (len (blocks_of es count) <> blocks_needed n \/ expected <> sha256_digest (stored c es count n) \/ unreliable D).

Lemma stored_fault_bad e c expected n es count :
  stored_fault e c expected n es count -> unreliable D \/ ~ stored_ok c expected n es count.
Proof.
  intros [[_ [?|[?|?]]]|[_ [?|[?|?]]]]; try (by left); right; intros []; done || lia.
Qed.

(** Validation succeeds exactly on contents that are well placed and have the
    digest, unless the device fails. *)
Lemma validate_stored_bytes_spec (d : D) expected n es count :
  0 <= n -> 0 <= count -> len es = MAX_CONTENT_EXTENTS_PER_RECORD -> Forall extent_uint es ->
  wpA (validate_stored_bytes expected n es count) d
    (fun _ d' => disk_bytes d' = disk_bytes d /\ stored_ok (disk_bytes d) expected n es count)
    (fun e d' => disk_bytes d' = disk_bytes d /\ stored_fault e (disk_bytes d) expected n es count).
Proof.
  intros Hn Hc Hes Hu. unfold validate_stored_bytes. act_step. act_step.
  act_step; [intros [Hm%Z.ltb_ge Hx%Z.ltb_ge]%orb_false_iff|intros [Hm%Z.ltb_lt|Hx%Z.ltb_lt]%orb_true_iff; (split; [done|]; left; auto)].
  act_step. act_step. unfold checked_add. change (SECTOR_SIZE - 1) with 511. change MAX_CONTENT_BYTES with 4194304 in Hm.
  rewrite checked_id by (unfold uint; lia). cbn [ok_or]. act_step. act_step.
  set (bad := fun (e : PackageStatus) d' => disk_bytes d' = disk_bytes d /\ stored_fault e (disk_bytes d) expected n es count).
  eapply wpA_mono; [apply (wpA_each_extent _ (fun pre s d' => disk_bytes d' = disk_bytes d /\ hash_state (disk_bytes d) n (flat pre) s /\
    s.1.1 = len (flat pre) /\ Forall extent_ok pre) bad); [lia|done| |]| |done].
  - intros pre e rest [[blocks h] remaining] d' Htake He (Hd' & Hs & Hb & Hpre). act_step. act_step.
    eapply wp_mono; [by apply content_extent_spec| |].
    2:{ intros er [-> Her]. split; [done|]. left. split; [done|]. right. right. intros Hall. rewrite Htake, Forall_app, Forall_cons in Hall. by destruct Hall as (_ & ? & _). }
    intros u Heo. cbn [fst snd] in Hb. rewrite flat_snoc.
    eapply wpA_mono; [apply (wpA_blocks _ (fun bs' s d' => disk_bytes d' = disk_bytes d /\ hash_state (disk_bytes d) n bs' s /\ s.1.1 = blocks + block_count e)
      bad e (flat pre)); [apply He| |]| |done].
    + intros i s d2 Hi (Hd2 & Hs2 & Hb2). eapply wpA_mono; [by apply (hash_sector_spec d d2 n)| |].
      * intros s3 d3 (Hd3 & Hs3 & Hb3). rewrite <- app_assoc in Hs3. split; [done|]. split; [done|congruence].
      * intros er d3 (Hd3 & -> & Hu3). split; [done|]. right. by auto.
    + done.
    + intros s d2 (Hd2 & Hs2 & Hb2). split; [done|]. split; [done|]. split; [rewrite Hb2, len_app_extent by done; lia|]. apply Forall_app. by split; [|constructor].
  - split; [done|]. split; [|by split]. unfold hash_state. cbn [fst snd]. change (stream (disk_bytes d) (flat [])) with (@nil byte).
    rewrite take_nil. split; [exact represents_new|]. change (len (@nil byte)) with 0. lia.
  - intros [[blocks h] remaining] d' (Hd' & [Hr Hrem] & Hb & Hall). fold (blocks_of es count) in *. cbn [fst snd] in *.
    act_step. act_step. rewrite (sha_finalize_spec _ _ Hr). act_step. act_step. change ((n + 511) / SECTOR_SIZE) with (blocks_needed n). act_step.
    + intros [[Hbl%negb_false_iff%Z.eqb_eq Hre%negb_false_iff%Z.eqb_eq]%orb_false_iff Hdg%negb_false_iff%bool_decide_eq_true]%orb_false_iff.
      split; [done|]. split; [by change MAX_CONTENT_BYTES with 4194304|done|done|by rewrite <- Hb|exact (eq_sym Hdg)].
    + intros Hbad. split; [done|]. right. split; [done|].
      destruct (decide (len (blocks_of es count) = blocks_needed n)) as [Hbl|]; [|by left]. right. left. intros Hdg. pose proof (len_stored d n es count Hn Hbl) as Hls. unfold stored in Hls, Hdg.
      rewrite Hb, Hbl, Z.eqb_refl, Hrem, Hls, Z.sub_diag, bool_decide_eq_true_2 in Hbad by (by symmetry). done.
Qed.

(** The buffer after the content [data] was copied to its front. *)
Definition filled_with (data out : list byte) : list byte := data ++ drop (length data) out.

Lemma copy_next {E} data part out :
  len data + len part <= len out ->
  copy_into (E := E) (filled_with data out) (len data) part = Ok (filled_with (data ++ part) out).
Proof.
  intros Hl. unfold copy_into, filled_with.
  assert (len (data ++ drop (length data) out) = len out) as Hlen.
  { unfold len in *. rewrite length_app, length_drop. lia. }
  rewrite Hlen. pose proof (len_nonneg data). replace ((0 <=? len data) && (len data + len part <=? len out)) with true by lia.
  f_equal. unfold len in *. rewrite Nat2Z.id, take_app_length, length_app, <- app_assoc. f_equal. f_equal.
  rewrite drop_app_ge by lia. rewrite drop_drop. f_equal. lia.
Qed.

Definition read_state (c : Z -> list byte) (n : Z) (out : list byte) (bs : list Z) (s : Z * list byte) : Prop :=
  let data := take (Z.to_nat n) (stream c bs) in s.1 = len data /\ s.2 = filled_with data out.

Lemma read_block_spec (d0 d : D) n out e bs off s :
  0 <= n <= len out -> extent_uint e -> 0 <= off < block_count e -> disk_bytes d = disk_bytes d0 -> read_state (disk_bytes d0) n out bs s ->
  wpA (read_block n e s off) d
    (fun s' d' => disk_bytes d' = disk_bytes d0 /\ read_state (disk_bytes d0) n out (bs ++ [start_block e + off]) s')
    (fun e d' => disk_bytes d' = disk_bytes d0 /\ e = ContentCorrupt /\ unreliable D).
Proof.
  intros Hn He Hoff Hd [Hs1 Hs2]. destruct s as [o buf]. cbn [fst snd] in *. subst o buf. unfold read_block.
  act_step. act_step. rewrite content_sector_ok by done. act_step. act_step.
  eapply wpA_mono; [apply read_candidate_sector_spec| |by intros ? ? [-> ?]]. intros sector d' [-> Hd']. rewrite Hd in *.
  pose proof (disk_bytes_len d0 (sector_of (start_block e + off))) as Hl. change SECTOR_SIZE with 512 in *.
  pose proof (take_stream_snoc d0 n bs (start_block e + off) ltac:(lia)) as Hsnoc. cbv zeta in Hsnoc. change SECTOR_SIZE with 512 in *.
  set (data := take (Z.to_nat n) (stream (disk_bytes d0) bs)) in *.
  assert (len data <= n) as Hdn by (subst data; unfold len; rewrite length_take; lia). pose proof (len_nonneg data).
  act_step. act_step. rewrite (proj2 (get_range_Some _ 0 _ _)) by (split_and!; [lia..|reflexivity]). apply wp_ok. rewrite Z.sub_0_r, drop_0.
  set (part := take (Z.to_nat (Z.min (n - len data) 512)) _) in *. assert (len part = Z.min (n - len data) 512) as Hp by (subst part; unfold len in *; rewrite length_take; lia).
  act_step. act_step. rewrite copy_next by lia. act_step. act_step. split; [done|]. unfold read_state. rewrite Hsnoc. cbn [fst snd].
  split; [rewrite len_app; lia|done].
Qed.

(** A content that is read has the digest of its record, whatever the device
    holds; reading fails exactly for a small buffer, and else only for a content
    that is not stored as its record says or on a device that fails. *)
Lemma read_record_bytes_spec (d : D) r out :
  0 <= reg_byte_len r -> 0 <= reg_extent_count r -> len (reg_extents r) = MAX_CONTENT_EXTENTS_PER_RECORD -> Forall extent_uint (reg_extents r) ->
  let is_stored := stored_ok (disk_bytes d) (reg_digest r) (reg_byte_len r) (reg_extents r) (reg_extent_count r) in
  wpA (read_record_bytes_into r out) d
    (fun s d' => disk_bytes d' = disk_bytes d /\ reg_byte_len r <= len out /\ is_stored /\ s.1 = reg_byte_len r /\
       s.2 = filled_with (stored (disk_bytes d) (reg_extents r) (reg_extent_count r) (reg_byte_len r)) out)
    (fun e d' => disk_bytes d' = disk_bytes d /\ 
       (e = BufferTooSmall /\ len out < reg_byte_len r \/ reg_byte_len r <= len out /\
        stored_fault e (disk_bytes d) (reg_digest r) (reg_byte_len r) (reg_extents r) (reg_extent_count r))).
Proof.
  intros Hn Hc Hes Hu is_stored. unfold read_record_bytes_into. act_step. act_step. act_step; [intros Ho%Z.ltb_ge|intros Ho%Z.ltb_lt; by split; [|left]].
  act_step. unfold validate_record_bytes. eapply wpA_mono; [by apply validate_stored_bytes_spec| |by intros er d1 [? ?]; split; [|right]].
  intros u d1 (Hd1 & Hst). fold is_stored in Hst. act_step. pose proof (st_count _ _ _ _ _ Hst).
  eapply wpA_mono; [apply (wpA_each_extent _ (fun pre s d' => disk_bytes d' = disk_bytes d /\ read_state (disk_bytes d) (reg_byte_len r) out (flat pre) s)
    (fun e d' => disk_bytes d' = disk_bytes d /\ e = ContentCorrupt /\ unreliable D)); [lia|done| |]| |intros er d2 (? & -> & ?); split; [done|]; right; split; [done|]; right; by auto].
  - intros pre e rest s d' _ He (Hd' & Hs). rewrite flat_snoc.
    eapply wpA_mono; [apply (wpA_blocks _ (fun bs' s d' => disk_bytes d' = disk_bytes d /\ read_state (disk_bytes d) (reg_byte_len r) out bs' s)
      (fun e d' => disk_bytes d' = disk_bytes d /\ e = ContentCorrupt /\ unreliable D) e (flat pre)); [apply He| |]|done|done]; [|done].
    intros i s2 d2 Hi (Hd2 & Hs2). rewrite app_assoc. by apply read_block_spec.
  - split; [done|]. unfold read_state, filled_with. change (stream (disk_bytes d) (flat [])) with (@nil byte). by rewrite take_nil.
  - intros [o buf] d' (Hd' & Ho' & Hb'). fold (blocks_of (reg_extents r) (reg_extent_count r)) in *. cbn [fst snd] in *.
    pose proof (len_stored d _ _ _ Hn (st_blocks _ _ _ _ _ Hst)) as Hls. unfold stored in Hls.
    act_step. act_step. rewrite Ho', Hls, Z.eqb_refl. act_step; [intros _|done]. act_step. by split_and!.
Qed.
End reading.

(** ** Writing contents *)

(** The sector of the [k]-th block: the bytes, then zeros. *)
Definition chunk (bytes : list byte) (k : nat) : list byte :=
  let part := take 512 (drop (512 * k) bytes) in part ++ zeros (512 - len part).

Lemma len_chunk bytes k : len (chunk bytes k) = 512.
Proof. unfold chunk. rewrite len_app, len_zeros; unfold len; rewrite length_take; lia. Qed.

Lemma chunks_cover bytes k : (length bytes <= 512 * k)%nat -> take (length bytes) (concat (chunk bytes <$> seq 0 k)) = bytes.
Proof.
  revert bytes. induction k as [|k IH]; intros bytes Hl; [by destruct bytes; [|simpl in Hl; lia]|].
  cbn [seq]. rewrite <- fmap_S_seq, fmap_cons, <- list_fmap_compose. cbn [concat].
  assert (chunk bytes ∘ S <$> seq 0 k = chunk (drop 512 bytes) <$> seq 0 k) as ->.
  { apply list_fmap_ext. intros i j _. unfold compose, chunk. rewrite drop_drop. by replace (512 * S j)%nat with (512 + 512 * j)%nat by lia. }
  unfold chunk at 1. rewrite Nat.mul_0_r, drop_0. destruct (decide (length bytes <= 512)%nat).
  - rewrite !take_ge with (n := 512%nat) by lia. by rewrite <- app_assoc, take_app_length.
  - assert (len (take 512 bytes) = 512) as -> by (unfold len; rewrite length_take; lia). rewrite app_nil_r.
    rewrite take_app_ge by (rewrite length_take; lia). rewrite length_take, Nat.min_l by lia.
    rewrite <- length_drop, IH by (rewrite length_drop; lia). apply take_drop.
Qed.

Section writing.
Context {D : Type} `{SectorDeviceLaws D}.

(** Nothing outside the given blocks differs. *)
Definition same_but (bs : list Z) (c c' : Z -> list byte) : Prop := forall n, n ∉ sector_of <$> bs -> c' n = c n.

(** The first blocks of the content were written. *)
Definition write_state (c : Z -> list byte) (bytes : list byte) (bs : list Z) (off : Z) (c' : Z -> list byte) : Prop :=
  off = Z.min (len bytes) (512 * len bs) /\ (fun b => c' (sector_of b)) <$> bs = chunk bytes <$> seq 0 (length bs) /\ same_but bs c c'.

Lemma same_but_app bs bs' c c' : same_but bs c c' -> same_but (bs ++ bs') c c'.
Proof. intros Hs n Hn. apply Hs. rewrite fmap_app, not_elem_of_app in Hn. by destruct Hn. Qed.

Lemma write_state_snoc c bytes bs off c' c2 b :
  write_state c bytes bs off c' -> NoDup (bs ++ [b]) -> c2 (sector_of b) = chunk bytes (length bs) ->
  (forall n, n <> sector_of b -> c2 n = c' n) ->
  write_state c bytes (bs ++ [b]) (Z.min (len bytes) (512 * len (bs ++ [b]))) c2.
Proof.
  intros (_ & Hm & Hs) Hnd Hb Ho. apply NoDup_app in Hnd as (_ & Hnd & _). split; [done|]. split.
  - rewrite fmap_app, length_app, seq_app, fmap_app. simpl. rewrite Hb. f_equal. rewrite <- Hm. apply list_fmap_ext.
    intros i x Hx. apply Ho. intros Heq%sector_of_inj. subst. apply (Hnd b); [by eapply list_elem_of_lookup_2|by left].
  - intros n Hn. rewrite fmap_app, not_elem_of_app in Hn. destruct Hn as [Hn1 Hn2]. rewrite Ho; [by apply Hs|].
    intros ->. apply Hn2. by left.
Qed.

Lemma write_block_spec (c : Z -> list byte) (d : D) bytes e bs i off :
  extent_uint e -> 0 <= i < block_count e -> NoDup (bs ++ [start_block e + i]) -> write_state c bytes bs off (disk_bytes d) ->
  wpA (write_block bytes e off i) d
    (fun off' d' => write_state c bytes (bs ++ [start_block e + i]) off' (disk_bytes d'))
    (fun _ d' => unreliable D /\ same_but (bs ++ [start_block e + i]) c (disk_bytes d')).
Proof.
  intros He Hi Hnd Hw. pose proof Hw as (Hoff & Hm & Hs). unfold write_block. change SECTOR_SIZE with 512.
  pose proof (len_nonneg bytes). pose proof (len_nonneg bs).
  set (copy_len := Z.min (Z.max 0 (len bytes - off)) 512). act_step. act_step.
  assert ((if copy_len =? 0 then Ok (zeros 512) else data ← expect (get_range bytes off (off + copy_len)); copy_into (zeros 512) 0 data)
    = Ok (E := PackageStatus) (chunk bytes (length bs))) as ->.
  { assert (take 512 (drop (512 * length bs) bytes) = take (Z.to_nat copy_len) (drop (Z.to_nat off) bytes)) as Hpart.
    { subst copy_len off. unfold len in *. destruct (decide (512 * length bs <= length bytes)%nat).
      - replace (Z.to_nat (Z.min (Z.of_nat (length bytes)) (512 * Z.of_nat (length bs)))) with (512 * length bs)%nat by lia.
        destruct (decide (512 <= length bytes - 512 * length bs)%nat); [f_equal; lia|].
        rewrite !take_ge by (rewrite length_drop; lia). done.
      - rewrite !drop_ge by lia. by rewrite !take_nil. }
    assert (len (take 512 (drop (512 * length bs) bytes)) = copy_len) as Hcl.
    { subst copy_len off. unfold len in *. rewrite length_take, length_drop. lia. }
    unfold chunk. rewrite Hcl. destruct (Z.eqb_spec copy_len 0) as [Hz|Hz].
    - rewrite Hz in Hcl |- *. by destruct (take 512 _).
    - rewrite (proj2 (get_range_Some _ _ _ _)) by (split_and!; [subst copy_len; lia..|reflexivity]). cbn [expect]. rewrite ok_bind.
      replace (off + copy_len - off) with copy_len by lia. rewrite <- Hpart. unfold copy_into. rewrite Hcl. change (len (zeros 512)) with 512.
      replace ((0 <=? 0) && (0 + copy_len <=? 512)) with true by (subst copy_len; lia). f_equal. change (Z.to_nat 0) with 0%nat. rewrite take_0, app_nil_l, Nat.add_0_l.
      f_equal. unfold zeros. rewrite drop_replicate. f_equal. unfold len in Hcl. lia. }
  act_step. act_step. act_step. rewrite content_sector_ok by done. act_step. act_step.
  eapply wpA_mono; [apply write_candidate_sector_spec, len_chunk| |].
  - intros u d' [Hb Ho]. act_step. enough (off + copy_len = Z.min (len bytes) (512 * len (bs ++ [start_block e + i]))) as -> by by eapply write_state_snoc.
    rewrite len_app. change (len [start_block e + i]) with 1. subst copy_len off. lia.
  - intros er d' [Hu Ho]. split; [done|]. intros n Hn. rewrite fmap_app, not_elem_of_app in Hn. destruct Hn as [Hn1 Hn2]. rewrite Ho; [by apply Hs|].
    intros ->. apply Hn2. by left.
Qed.

Lemma same_but_mono bs bs' c c' : same_but bs c c' -> bs ⊆ bs' -> same_but bs' c c'.
Proof. intros Hs Hsub n Hn. apply Hs. contradict Hn. apply list_elem_of_fmap in Hn as (b & -> & Hb). apply list_elem_of_fmap. exists b. auto. Qed.

Lemma extent_blocks_at e i :
  extent_uint e -> 0 <= i < block_count e ->
  extent_blocks e = range (start_block e) (start_block e + i) ++ [start_block e + i] ++ range (start_block e + i + 1) (start_block e + block_count e).
Proof.
  intros _ Hi. unfold extent_blocks. cbn [app]. rewrite <- (range_cons (start_block e + i)) by lia. unfold range.
  replace (start_block e + block_count e - start_block e) with (i + (start_block e + block_count e - (start_block e + i))) by lia.
  rewrite seqZ_app by lia. f_equal. f_equal. lia.
Qed.

(** Writing a record stores its bytes; it fails only with the device and then
    touches no other block. *)
Lemma write_record_bytes_spec (d : D) x :
  slot_ok x ->
  wpA (write_record_bytes (slot_record x) (slot_bytes x)) d
    (fun _ d' => same_but (slot_blocks x) (disk_bytes d) (disk_bytes d') /\
       stored (disk_bytes d') (extents (slot_record x)) (extent_count (slot_record x)) (len (slot_bytes x)) = slot_bytes x)
    (fun _ d' => unreliable D /\ same_but (slot_blocks x) (disk_bytes d) (disk_bytes d')).
Proof.
  intros [Hx [Hbl Hmax] Hdg Hblocks]. unfold write_record_bytes. act_step. act_step. rewrite sha256_ok. act_step.
  act_step. act_step. rewrite Hbl, Hdg, Z.eqb_refl, bool_decide_eq_true_2 by done. act_step; [intros _|done].
  act_step. destruct Hx as [Hxl Hxc Hxe Hu Hxn]. pose proof (len_nonneg (slot_bytes x)).
  eapply wpA_mono; [apply (wpA_each_extent _ (fun pre off d' => write_state (disk_bytes d) (slot_bytes x) (flat pre) off (disk_bytes d'))
    (fun _ d' => unreliable D /\ same_but (slot_blocks x) (disk_bytes d) (disk_bytes d'))); [lia|done| |]| |done].
  - intros pre e rest off d' Htake He Hw. rewrite flat_snoc. set (bs := flat pre) in *.
    assert (slot_blocks x = bs ++ extent_blocks e ++ flat rest) as Hall.
    { unfold slot_blocks, blocks_of. rewrite Htake. change (e :: rest) with ([e] ++ rest). rewrite app_assoc, flat_app, flat_snoc. by rewrite <- app_assoc. }
    assert (extent_ok e) as Heo by (rewrite Htake, Forall_app, Forall_cons in Hxe; apply Hxe).
    act_step. act_step. eapply wp_mono; [by apply content_extent_spec| |by intros er [_ ?]]. intros u _.
    apply (wpA_blocks _ (fun bs off d' => write_state (disk_bytes d) (slot_bytes x) bs off (disk_bytes d'))); [apply He| |exact Hw].
    intros i off' d2 Hi Hw2. rewrite app_assoc. pose proof (extent_blocks_at e i He Hi) as Hat.
    assert (slot_blocks x = ((bs ++ range (start_block e) (start_block e + i)) ++ [start_block e + i]) ++
      range (start_block e + i + 1) (start_block e + block_count e) ++ flat rest) as Hsb.
    { rewrite Hall, Hat. by rewrite <- !app_assoc. }
    eapply wpA_mono; [apply (write_block_spec (disk_bytes d)); [done|done| |exact Hw2]|done|].
    + fold (slot_blocks x) in Hxn. rewrite Hsb in Hxn. by apply NoDup_app in Hxn as [? _].
    + intros er d3 [Hur Hs]. split; [done|]. eapply same_but_mono; [exact Hs|]. rewrite Hsb. set_solver.
  - split; [unfold len; simpl; lia|]. split; [done|]. by intros n _.
  - intros off d' (Hoff & Hm & Hs). change (flat (take _ _)) with (slot_blocks x) in *.
    assert (len (slot_bytes x) <= 512 * len (slot_blocks x)) as Hroom.
    { rewrite Hblocks. unfold blocks_needed. pose proof (Z.div_mod (len (slot_bytes x) + 511) 512).
      pose proof (Z.mod_pos_bound (len (slot_bytes x) + 511) 512). lia. }
    act_step. act_step. rewrite Hoff, Z.min_l, Z.eqb_refl by done. act_step; [intros _|done].
    assert (stored (disk_bytes d') (extents (slot_record x)) (extent_count (slot_record x)) (len (slot_bytes x)) = slot_bytes x) as Hst.
    { unfold stored, stream. fold (slot_blocks x). rewrite Hm. unfold len at 1. rewrite Nat2Z.id. apply chunks_cover. unfold len in *. lia. }
    eapply wpA_mono; [apply validate_stored_bytes_spec; [done|lia|done|done]| |].
    + intros u d2 (Hd2 & _). rewrite Hd2. done.
    + intros er d2 [Hd2 [Hur|Hno]%stored_fault_bad]; [by rewrite Hd2|]. destruct Hno. split; [done|lia|done|done|by rewrite Hst].
Qed.
End writing.
