(* ===== verification/PackageContentRestore.v ===== *)
(** * Package contents and registries

    What the operations of the package content store do to the invariant of the
    store and its transaction: restoring from a registry, copying a restored
    store, keeping only the contents of a registry, rebuilding the store of a
    candidate registry, staging into a full transaction, and the rest. *)

From stdpp Require Import base numbers list sets relations.
From Stdlib Require Import Strings.Byte.
From S2P Require Import Prelude Kernel ByteRegions Bitset BitWords Sha256 PackageArtifact PackageArtifactFacts ObjectCheckpoint.
From S2P Require Import PackageContent PackageContentFacts.
Import Artifact (MAX_CONTENT_BYTES, MAX_CONTENT_ENTRIES, MAX_CONTENT_EXTENTS_PER_RECORD).
Import Content.

#[local] Opaque sha256_digest.

(** ** Published records *)

Definition reg_blocks (r : PackageRegistryContentRecord) : list Z := blocks_of (reg_extents r) (reg_extent_count r).

(** A record whose fields have the width of their type. *)
Definition record_rep (r : PackageRegistryContentRecord) : Prop :=
  0 <= reg_byte_len r /\ extents_rep (reg_extents r) (reg_extent_count r).

Definition reg_content (c : Z -> list byte) (r : PackageRegistryContentRecord) : list byte :=
  stored c (reg_extents r) (reg_extent_count r) (reg_byte_len r).

Definition record_id (r : PackageRegistryContentRecord) : ContentId :=
  {| id_package := reg_package r; id_release := reg_release r; id_index := reg_index r |}.

Lemma same_content_spec r id : same_content r (id_package id) (id_release id) (id_index id) = true <-> record_id r = id.
Proof.
  unfold same_content. rewrite !andb_true_iff, bool_decide_eq_true, !Z.eqb_eq. destruct id. unfold record_id. simpl. split.
  - intros [[-> ->] ->]. done.
  - by intros [= -> -> ->].
Qed.

(** The used extents of a record are in bounds. *)
Definition record_fits (r : PackageRegistryContentRecord) : Prop :=
  reg_extent_count r <= MAX_CONTENT_EXTENTS_PER_RECORD /\ Forall extent_ok (take (Z.to_nat (reg_extent_count r)) (reg_extents r)).

Lemma live_bitmap_spec registry :
  Forall record_rep registry ->
  wp (live_bitmap_from_registry registry)
    (fun bm => words_ok bm /\ forall b, marked bm b <-> exists r, r ∈ registry /\ b ∈ reg_blocks r)
    (fun _ => ~ Forall record_fits registry).
Proof.
  intros Hr. unfold live_bitmap_from_registry.
  eapply wp_mono; [apply (wp_foldM_prefix _ (fun _ => ~ Forall record_fits registry) (fun i bm => words_ok bm /\
    forall b, marked bm b <-> exists r, r ∈ take i registry /\ b ∈ reg_blocks r))| |done].
  - split; [exact no_words_ok|]. intros b. split; [by intros ?%not_marked_empty|].
    intros (r & Hin & _). by apply not_elem_of_nil in Hin.
  - intros i r bm Hi [Hw Hm]. rewrite Forall_lookup in Hr.
    eapply wp_mono; [apply mark_record_extents_spec; [done|by eapply Hr]| |].
    2:{ intros e Hbad Hall. rewrite Forall_lookup in Hall. exact (Hbad (Hall i r Hi)). }
    intros bm2 (_ & Hw2 & Hm2). split; [done|]. intros b. rewrite Hm2, Hm, (take_S_r registry i r Hi).
    setoid_rewrite elem_of_app. setoid_rewrite list_elem_of_singleton. split.
    + intros [(r' & ? & ?)|?]; [exists r'|exists r]; auto.
    + intros (r' & [?| ->] & ?); [left; by exists r'|by right].
  - intros bm. by rewrite take_ge.
Qed.

Lemma fill_records_spec registry (R : PackageStatus -> Prop) :
  len registry <= 64 -> wp (fill_records registry) (fun l => flatten l = registry) R.
Proof.
  intros Hl. unfold fill_records. destruct (no_slots_filled (A := PackageRegistryContentRecord) 0) as (Hf & Hn & Hlen).
  eapply wp_mono; [apply (wp_foldM_prefix _ R (fun i l => len l = 64 /\ filled l (Z.of_nat i) /\ flatten l = take i registry))| |done].
  - done.
  - intros i [k r] l [-> Hi]%lookup_enumerate (Hl1 & Hf1 & Hfl). cbn [fst snd]. pose proof (lookup_lt_Some _ _ _ Hi).
    apply wp_index_set; [unfold len in *; lia|].
    destruct (filled_insert l (Z.of_nat i) r Hf1 ltac:(unfold len in *; lia)) as [Hg1 Hg2].
    split; [by rewrite len_insert|]. replace (Z.of_nat (S i)) with (Z.of_nat i + 1) by lia. split; [done|].
    by rewrite Hg1, Hfl, (take_S_r registry i r Hi).
  - intros l (_ & _ & Hfl). by rewrite length_enumerate, take_ge in Hfl.
Qed.

(** ** The states of a store *)

Abbreviation records s := (flatten (persisted_records s)).

Definition content_index_id (t : PackageContentTransaction) (i : Z) : ContentId :=
  {| id_package := package_object_id t; id_release := release_digest t; id_index := i |}.

Definition slot_id (x : PackageContentSlot) : ContentId := content_id (slot_record x).

Record store_inv (st : PackageContentStore * PackageContentTransaction) : Prop := {
  si_content : content_inv st.1 st.2;
  si_records : Forall record_rep (records st.1);
  si_published : forall r b, r ∈ records st.1 -> b ∈ reg_blocks r -> marked (committed_words (allocator st.1)) b;
  si_next : 0 <= next_content_index st.2;
  si_ids : slot_id <$> tslots st.2 = content_index_id st.2 <$> range 0 (next_content_index st.2);
}.

Lemma wpA_state {S E A} (m : action S E A) (s : S) (I : S -> Prop) :
  wpA m s (fun _ s' => I s') (fun _ s' => I s') -> I (snd (m s)).
Proof. unfold wpA. by destruct (m s) as [[] s']. Qed.

Lemma ids_none p r : slot_id <$> tslots (new_transaction p r) = content_index_id (new_transaction p r) <$> range 0 0.
Proof. done. Qed.

(** A new transaction on the same published contents. *)
Lemma inv_restart s t a p r :
  store_inv (s, t) -> alloc_ok a -> committed_words a = committed_words (allocator s) ->
  store_inv (set_allocator a s, new_transaction p r).
Proof.
  intros [Hc Hr Hp _ _] Ha Hw. cbn [fst snd] in *. split; cbn [fst snd]; [by eapply inv_cleared|done| |done|apply ids_none].
  intros x b Hx Hb. cbn [allocator set_allocator]. rewrite Hw. by apply (Hp x).
Qed.

Lemma set_same_allocator s : set_allocator (allocator s) s = s.
Proof. by destruct s. Qed.

(** A store without staged contents. *)
Lemma published_inv s p r :
  alloc_ok (allocator s) -> len (committed_slots s) = 64 -> 0 <= committed_count s <= 64 ->
  filled (committed_slots s) (committed_count s) -> Forall slot_ok (cslots s) -> ForallOrdPairs apart (cslots s) ->
  (forall x b, x ∈ cslots s -> b ∈ slot_blocks x -> marked (committed_words (allocator s)) b) ->
  Forall record_rep (records s) ->
  (forall x b, x ∈ records s -> b ∈ reg_blocks x -> marked (committed_words (allocator s)) b) ->
  store_inv (s, new_transaction p r).
Proof.
  intros Ha Hl Hc Hf Hok Hap Hm Hr Hp. destruct (no_slots_filled (A := PackageContentSlot) 0) as (Hf0 & Hn & Hl0).
  split; cbn [fst snd]; [|done|done|done|apply ids_none].
  split; cbn [new_transaction staged_slots staged_count]; rewrite ?Hn, ?app_nil_r; try done.
  - intros x b Hx. by apply not_elem_of_nil in Hx.
  - intros x b Hx. by apply not_elem_of_nil in Hx.
Qed.

Lemma filled_mono {A} (l : list (option A)) n m : filled l n -> 0 <= n <= m -> filled l m.
Proof.
  unfold filled. intros Hf Hn. replace (Z.to_nat m) with (Z.to_nat n + Z.to_nat (m - n))%nat by lia.
  rewrite <- drop_drop. by apply Forall_drop.
Qed.

Lemma restored_inv registry validated s p r :
  Forall record_rep registry -> len registry <= 64 -> restore_from_validated_registry registry validated = Ok s ->
  store_inv (s, new_transaction p r) /\ records s = registry.
Proof.
  intros Hr Hl Hs.
  assert (wp (restore_from_validated_registry registry validated)
    (fun s => store_inv (s, new_transaction p r) /\ records s = registry) (fun _ => True)) as Hw; [|by rewrite Hs in Hw].
  unfold restore_from_validated_registry. apply wp_bind, wp_run. unfold restore_from_validated_registry_into.
  act_step. act_step. eapply wp_mono; [by apply live_bitmap_spec| |done]. intros bm [Hbm Hmk].
  act_step. act_step. act_step; [intros [_ Hc%negb_false_iff%Z.eqb_eq]%orb_false_iff|done].
  act_step. act_step. eapply wp_mono; [by apply (fill_records_spec _ (fun _ => False))| |done]. intros l Hfl.
  act_step. apply wp_ok. cbn [snd]. split; [|exact Hfl]. pose proof (len_nonneg registry).
  destruct (no_slots_filled (A := PackageContentSlot) (record_count validated)) as (Hf & Hn & Hle).
  apply published_inv; cbn [persisted_records allocator committed_slots committed_count restore committed_words]; rewrite ?Hfl, ?Hn; try done.
  - lia.
  - constructor.
  - intros x b Hx. by apply not_elem_of_nil in Hx.
  - intros x b Hx Hb. apply Hmk. by exists x.
Qed.

(** [copy_restored_state_from] takes the records and the bitmap over. *)
Lemma copied_inv source t s p r : store_inv (source, t) -> store_inv (copy_restored_state_from source s, new_transaction p r).
Proof.
  intros [[Ha (_ & Hc & _) _ _ _ _ _ _ _] Hr Hp _ _]. cbn [fst snd] in *.
  destruct (no_slots_filled (A := PackageContentSlot) (committed_count source)) as (Hf & Hn & Hle).
  apply published_inv; cbn [copy_restored_state_from persisted_records allocator committed_slots committed_count]; rewrite ?Hn; try done.
  - constructor.
  - intros x b Hx. by apply not_elem_of_nil in Hx.
Qed.

(** ** Staging into a full transaction *)

(** Only the allocator changes, and its committed words stay. *)
Definition same_published (s s' : PackageContentStore) : Prop :=
  exists a, s' = set_allocator a s /\ alloc_ok a /\ committed_words a = committed_words (allocator s).

Lemma same_published_refl s : alloc_ok (allocator s) -> same_published s s.
Proof. exists (allocator s). by rewrite set_same_allocator. Qed.

(** Staging never changes what is published, whether there is room or not. *)
Lemma stage_keeps_published role format bytes expected s t :
  content_inv s t ->
  wpA (stage_content role format bytes expected) (s, t) (fun _ st => same_published s st.1) (fun _ st => same_published s st.1).
Proof.
  intros [Ha _ (Hsl & Hs0 & Hsf) _ _ _ _ _ _]. pose proof (same_published_refl s Ha) as Hsame. unfold stage_content.
  act_step. act_step. act_step; [intros Hmax%Z.ltb_ge|done]. act_step. act_step. rewrite sha256_ok.
  act_step. act_step. act_step. act_step; [intros _|done].
  destruct (blocks_for_len_spec (len bytes)) as (Hbl & Hbn & Hbz); [pose proof (len_nonneg bytes); lia|].
  act_step. act_step. rewrite Hbl. act_step. destruct (Z.eqb_spec (blocks_needed (len bytes)) 0) as [Hz|Hnz].
  - act_step. act_step. act_step. act_step. act_step. act_step. apply wpA_or_undo, wpA_on_snd.
    eapply wpA_mono; [by apply push_staged_spec; [|lia|]| |].
    + intros u t' _. act_step. exact Hsame.
    + intros e t' _. act_step. exact Hsame.
  - act_step. act_step. unfold on_allocator. apply wpA_on_fst, wpA_zoom. unfold id.
    eapply wpA_mono; [by apply allocate_staged_spec; [|lia]| |].
    + intros e a [_ _ _ _ Ha' Hcw _]. act_step. act_step. act_step. act_step. act_step. cbn [fst snd].
      apply wpA_or_undo, wpA_on_snd. eapply wpA_mono; [by apply push_staged_spec; [|lia|]| |].
      * intros u t' _. act_step. by exists a.
      * intros er t' _. apply wpA_on_fst, wpA_zoom. act_step. exists (rollback_staged a). split; [done|]. split; [|done].
        split; [apply Ha'|exact no_words_ok].
    + intros e a [-> _]. by exists (allocator s).
Qed.

Lemma failed_stage_inv st role format bytes expected :
  store_inv st -> store_inv (rollback (snd (stage_content role format bytes expected st))).
Proof.
  destruct st as [s t]. intros Hst.
  pose proof (wpA_state _ _ (fun st => same_published s st.1)
    (stage_keeps_published role format bytes expected s t (si_content _ Hst))) as (a & Hs & Ha & Hw).
  destruct (snd (stage_content role format bytes expected (s, t))) as [s' t']. cbn [fst snd] in *. subst s'.
  apply (inv_restart s t (rollback_staged a)); [done| |done]. split; [apply Ha|exact no_words_ok].
Qed.

(** ** Keeping the contents of a registry *)

(** The registry has the content of the slot where it has the identifier; its
    retention count may differ. *)
Definition same_data (r : PackageRegistryContentRecord) (x : PackageContentSlot) : Prop :=
  reg_digest r = digest (slot_record x) /\ reg_byte_len r = byte_len (slot_record x) /\
  reg_extents r = extents (slot_record x) /\ reg_extent_count r = extent_count (slot_record x).

(** A registry that describes the committed contents of the store: at most 64
    records, which agree with the committed slot of the same identifier; no
    identifier is committed twice. *)
Record registry_describes (registry : list PackageRegistryContentRecord) (s : PackageContentStore) : Prop := {
  rd_records : Forall record_rep registry;
  rd_len : len registry <= 64;
  rd_ids : NoDup (slot_id <$> cslots s);
  rd_same : forall r x, r ∈ registry -> x ∈ cslots s -> record_id r = slot_id x -> same_data r x;
}.

Definition retained (registry : list PackageRegistryContentRecord) (x : PackageContentSlot) : option PackageContentSlot :=
  retained_slot x <$> registry_content_record_for_id registry (slot_id x).

Lemma record_for_id registry id r :
  registry_content_record_for_id registry id = Some r -> r ∈ registry /\ record_id r = id.
Proof. intros [Hr Hid%same_content_spec]%find_Some. done. Qed.

Lemma retained_Some registry x y :
  retained registry x = Some y -> exists r, r ∈ registry /\ record_id r = slot_id x /\ y = retained_slot x r.
Proof. intros (r & Hr & ->)%fmap_Some. destruct (record_for_id _ _ _ Hr). by exists r. Qed.

Lemma retained_data r x : same_data r x -> slot_ok x -> slot_ok (retained_slot x r) /\ slot_blocks (retained_slot x r) = slot_blocks x.
Proof.
  destruct r, x as [[] ?]. unfold same_data, slot_blocks. cbn. intros (-> & -> & -> & ->) [He Hl Hd Hb].
  split; [by split|done].
Qed.

Lemma omap_sublist_ids registry L : (slot_id <$> omap (retained registry) L) `sublist_of` (slot_id <$> L).
Proof.
  induction L as [|x L IH]; [done|]. cbn [omap list_omap fmap list_fmap]. destruct (retained registry x) as [y|] eqn:Hy.
  - apply retained_Some in Hy as (r & _ & _ & ->). cbn. by apply sublist_skip.
  - by apply sublist_cons.
Qed.

Lemma retained_count registry L : NoDup (slot_id <$> L) -> len (omap (retained registry) L) <= len registry.
Proof.
  intros Hnd. assert (slot_id <$> omap (retained registry) L ⊆+ record_id <$> registry) as Hsub%submseteq_length.
  { apply NoDup_submseteq; [by eapply sublist_NoDup, omap_sublist_ids|].
    intros id (y & -> & (x & _ & (r & Hr & Hid & ->)%retained_Some)%list_elem_of_omap)%list_elem_of_fmap.
    apply list_elem_of_fmap. by exists r. }
  rewrite !length_fmap in Hsub. unfold len. lia.
Qed.

(** The loop fills the slots with the contents that the registry has. *)
Lemma retain_loop_spec registry (L : list PackageContentSlot) (R : PackageStatus -> Prop) :
  len L <= 64 ->
  wp (foldM (retain_round registry) (no_slots, 0) L)
    (fun k => len k.1 = 64 /\ filled k.1 k.2 /\ k.2 = len (omap (retained registry) L) /\ flatten k.1 = omap (retained registry) L) R.
Proof.
  intros HL. destruct (no_slots_filled (A := PackageContentSlot) 0) as (Hf0 & Hn & Hl0).
  eapply wp_mono; [apply (wp_foldM_prefix _ R (fun i k => len k.1 = 64 /\ filled k.1 k.2 /\
    k.2 = len (omap (retained registry) (take i L)) /\ flatten k.1 = omap (retained registry) (take i L)))| |done].
  - done.
  - intros i x [slots n] Hi (Hl & Hf & Hc & Hfl). cbn [fst snd] in *. unfold retain_round. cbn [fst snd].
    change (content_id (slot_record x)) with (slot_id x). rewrite (take_S_r L i x Hi), omap_app. cbn [omap list_omap].
    pose proof (lookup_lt_Some _ _ _ Hi) as Hlt.
    change (retained registry x) with (retained_slot x <$> registry_content_record_for_id registry (slot_id x)).
    destruct (registry_content_record_for_id registry (slot_id x)) as [r|]; cbn [fmap option_fmap option_map].
    + assert (0 <= n < len slots) as Hn'.
      { pose proof (sublist_length _ _ (omap_sublist_ids registry (take i L))) as Hle. rewrite !length_fmap, length_take in Hle. unfold len in *. lia. }
      destruct (filled_insert slots n (retained_slot x r) Hf Hn') as [Hg1 Hg2].
      act_step. apply wp_index_set; [lia|]. apply wp_ok. cbn [fst snd]. split_and!; [by rewrite len_insert|done| |by rewrite Hg1, Hfl].
      rewrite Hc, len_app. done.
    + apply wp_ok. cbn [fst snd]. by rewrite app_nil_r.
  - intros k. by rewrite take_ge.
Qed.
Lemma len_flatten {A} (l : list (option A)) : len (flatten l) <= len l.
Proof. induction l as [|[x|] l IH]; [done|..]; unfold len, flatten in *; cbn in *; lia. Qed.

(** [omap] keeps contents apart when it keeps their blocks. *)
Lemma omap_apart (f : PackageContentSlot -> option PackageContentSlot) L :
  (forall x y, x ∈ L -> f x = Some y -> slot_blocks y = slot_blocks x) -> ForallOrdPairs apart L -> ForallOrdPairs apart (omap f L).
Proof.
  intros Hf Hap. induction Hap as [|x L Hx _ IH]; [constructor|]. cbn [omap list_omap].
  assert (ForallOrdPairs apart (omap f L)) as HL by (apply IH; intros z y Hz; apply Hf; by right).
  destruct (f x) as [y|] eqn:Hy; [|exact HL]. constructor; [|exact HL]. apply Forall_forall.
  intros z (w & Hw & Hz)%list_elem_of_omap b Hb Hb'. rewrite Forall_forall in Hx. apply (Hx w Hw b).
  - rewrite <- (Hf x y); [done|by left|done].
  - rewrite <- (Hf w z); [done|by right|done].
Qed.

Lemma retain_inv registry s t p r :
  store_inv (s, t) -> registry_describes registry s ->
  wpA (retain_only_registry_content registry) s (fun _ s' => store_inv (s', new_transaction p r) /\ records s' = registry)
    (fun _ s' => s' = s).
Proof.
  intros [[_ (Hcl & Hcc & Hcf) _ _ Hok Hap _ _ _] _ _ _ _] [Hrep Hlen Hids Hsame]. cbn [fst snd] in *.
  apply Forall_app in Hok as [Hok _]. apply ordpairs_app in Hap as (Hap & _ & _). rewrite Forall_forall in Hok.
  assert (len (cslots s) <= 64) as HL by (rewrite <- Hcl; apply len_flatten).
  assert (forall x y, x ∈ cslots s -> retained registry x = Some y ->
    slot_ok y /\ slot_blocks y = slot_blocks x /\ exists q, q ∈ registry /\ reg_blocks q = slot_blocks y) as Hkept.
  { intros x y Hx (q & Hq & Hid & ->)%retained_Some. pose proof (Hsame q x Hq Hx Hid) as Hd.
    destruct (retained_data q x Hd (Hok x Hx)). split; [done|]. split; [done|]. by exists q. }
  unfold retain_only_registry_content. act_step. act_step. eapply wp_mono; [by apply live_bitmap_spec| |done]. intros bm [Hbm Hmk].
  act_step. act_step. eapply wp_mono; [by apply (retain_loop_spec _ _ (fun _ => False))| |done]. intros [slots n] (Hsl & Hsf & Hn & Hfl).
  act_step. act_step. eapply wp_mono; [by apply (fill_records_spec _ (fun _ => False))| |done]. intros l Hl. cbn [fst snd] in *.
  act_step. act_step. act_step. cbn [fst snd]. split; [|exact Hl].
  pose proof (retained_count registry _ Hids). pose proof (len_nonneg registry). pose proof (len_nonneg (omap (retained registry) (cslots s))).
  assert (wrap 16 (len registry) = len registry) as Hwrap by (apply wrap_small; unfold uint; lia).
  apply published_inv; cbn [persisted_records allocator committed_slots committed_count restore committed_words]; rewrite ?Hl, ?Hfl, ?Hwrap; try done.
  - eapply filled_mono; [exact Hsf|lia].
  - apply Forall_forall. intros y (x & Hx & Hy)%list_elem_of_omap. by apply (Hkept x y).
  - apply omap_apart; [|done]. intros x y Hx Hy. by apply (Hkept x y).
  - intros y b (x & Hx & Hy)%list_elem_of_omap Hb. destruct (Hkept x y Hx Hy) as (_ & _ & q & Hq & Hqb).
    apply Hmk. exists q. by rewrite Hqb.
  - intros x b Hx Hb. apply Hmk. by exists x.
Qed.

(** ** Rebuilding the store of a candidate registry *)

Lemma find_cached_spec expected L (R : PackageStatus -> Prop) :
  wp (find_cached expected L)
    (fun o => forall x, o = Some x -> x ∈ L /\ commit_record (slot_record x) = expected) R.
Proof.
  induction L as [|x L IH]; cbn [find_cached]; [by apply wp_ok|]. rewrite sha256_ok, ok_bind.
  destruct (bool_decide _ && _ && _) eqn:Hc.
  - apply andb_true_iff in Hc as [[Hc%bool_decide_eq_true _]%andb_true_iff _]. apply wp_ok. intros y [= <-]. split; [by left|done].
  - eapply wp_mono; [exact IH| |done]. intros o Ho y Hy. destruct (Ho y Hy). split; [by right|done].
Qed.

(** The content [y] of the record [r] is the cached content [x]. *)
Definition rebuilt (L : list PackageContentSlot) (r : PackageRegistryContentRecord) (y : PackageContentSlot) : Prop :=
  slot_record y = expected_record r /\ exists x, x ∈ L /\ y = commit_slot x.

Lemma rebuild_loop_spec registry (L : list PackageContentSlot) :
  len registry <= 64 ->
  wp (foldM (reconstruct_round L) no_slots (enumerate registry))
    (fun l => len l = 64 /\ filled l (len registry) /\ Forall2 (rebuilt L) registry (flatten l)) (fun _ => True).
Proof.
  intros Hl. destruct (no_slots_filled (A := PackageContentSlot) 0) as (Hf & Hn & Hlen).
  eapply wp_mono; [apply (wp_foldM_prefix _ (fun _ => True) (fun i l => len l = 64 /\ filled l (Z.of_nat i) /\
    Forall2 (rebuilt L) (take i registry) (flatten l)))| |done].
  - rewrite Hn. split_and!; [done|done|constructor].
  - intros i [k r] l [-> Hi]%lookup_enumerate (Hl1 & Hf1 & Hfl). cbn [fst snd]. pose proof (lookup_lt_Some _ _ _ Hi).
    unfold reconstruct_round. cbn [fst snd]. act_step. eapply wp_mono; [apply (find_cached_spec _ _ (fun _ => True))| |done]. intros [x|] Hx; cbn [ok_or]; act_step; [|done].
    destruct (Hx x eq_refl) as [Hin Heq]. apply wp_index_set; [unfold len in *; lia|].
    destruct (filled_insert l (Z.of_nat i) {| slot_record := expected_record r; slot_bytes := slot_bytes x |} Hf1 ltac:(unfold len in *; lia)) as [Hg1 Hg2].
    split; [by rewrite len_insert|]. replace (Z.of_nat (S i)) with (Z.of_nat i + 1) by lia. split; [done|].
    rewrite Hg1, (take_S_r registry i r Hi). apply Forall2_app; [done|]. constructor; [|constructor]. split; [done|]. exists x.
    unfold commit_slot. by rewrite Heq.
  - intros l (Hl1 & Hf1 & Hfl). rewrite length_enumerate in Hf1, Hfl. by rewrite take_ge in Hfl.
Qed.

Lemma rebuilt_apart L registry Y :
  ForallOrdPairs apart L -> NoDup (record_id <$> registry) -> Forall2 (rebuilt L) registry Y -> ForallOrdPairs apart Y.
Proof.
  intros HL Hnd HY. induction HY as [|r y registry Y [Hy (x & Hx & ->)] HY IH]; [constructor|].
  apply NoDup_cons in Hnd as [Hr Hnd]. constructor; [|by apply IH]. apply Forall_forall. intros z Hz.
  apply list_elem_of_lookup in Hz as [i Hi]. destruct (Forall2_lookup_r _ _ _ _ _ HY Hi) as (q & Hq & Hzq & w & Hw & ->).
  assert (x <> w) as Hne.
  { intros ->. apply Hr, list_elem_of_fmap. exists q. split; [|by eapply list_elem_of_lookup_2].
    change (slot_record (commit_slot w)) with (commit_record (slot_record w)) in Hy, Hzq. rewrite Hy in Hzq. unfold record_id. by injection Hzq as -> -> ->. }
  rewrite list_elem_of_In in Hx, Hw. intros b Hb Hb'.
  destruct (ForallOrdPairs_In HL x w Hx Hw) as [Heq|[Ha|Ha]]; [done|by apply (Ha b)|by apply (Ha b)].
Qed.

Lemma rebuilt_inv s t s0 registry validated p r :
  store_inv (s, t) -> committed_slots s0 = committed_slots s ->
  Forall record_rep registry -> len registry <= 64 -> NoDup (record_id <$> registry) ->
  wp (reconstruct_from_validated_candidate_registry s0 registry validated t)
    (fun s' => store_inv (s', new_transaction p r)) (fun _ => True).
Proof.
  intros [[_ _ _ _ Hok Hap _ _ _] _ _ _ _] Hs0 Hrep Hl Hnd. cbn [fst snd] in *. unfold reconstruct_from_validated_candidate_registry.
  rewrite Hs0. act_step. eapply wp_mono; [by apply live_bitmap_spec| |done]. intros bm [Hbm Hmk].
  act_step. act_step; [intros [_ Hc%negb_false_iff%Z.eqb_eq]%orb_false_iff|done].
  act_step. eapply wp_mono; [by apply rebuild_loop_spec| |done]. intros slots (Hsl & Hsf & HY). apply wp_ok.
  pose proof (len_nonneg registry). rewrite Forall_forall in Hok.
  assert (forall y, y ∈ flatten slots -> slot_ok y /\ exists q, q ∈ registry /\ reg_blocks q = slot_blocks y) as Hy.
  { intros y [i Hi]%list_elem_of_lookup. destruct (Forall2_lookup_r _ _ _ _ _ HY Hi) as (q & Hq & Hrec & x & Hx & ->).
    split; [by destruct (Hok x Hx)|]. exists q. split; [by eapply list_elem_of_lookup_2|]. unfold slot_blocks. by rewrite Hrec. }
  apply published_inv; cbn [persisted_records allocator committed_slots committed_count restore committed_words]; try done.
  - lia.
  - by rewrite <- Hc.
  - apply Forall_forall. intros y Hin. by apply Hy.
  - by eapply rebuilt_apart.
  - intros y b Hin Hb. destruct (Hy y Hin) as (_ & q & Hq & Hqb). apply Hmk. exists q. by rewrite Hqb.
  - intros x b Hx. by apply not_elem_of_nil in Hx.
Qed.

(** A transaction without staged contents. *)
Lemma empty_transaction s t :
  store_inv (s, t) -> staged_count t = 0 -> t = new_transaction (package_object_id t) (release_digest t).
Proof.
  intros [[_ _ (Hl & _ & Hf) Hc _ _ _ _ _] _ _ Hn Hi] H0. cbn [fst snd] in *. rewrite H0 in Hf, Hc. unfold filled in Hf. simpl in Hf.
  assert (tslots t = []) as Ht by (apply flatten_none, Hf). rewrite Ht in Hi. symmetry in Hi. apply fmap_nil_inv in Hi.
  assert (next_content_index t = 0) as Hx.
  { assert (len (range 0 (next_content_index t)) = 0) as Hr by (by rewrite Hi). unfold len, range in Hr. rewrite length_seqZ in Hr. lia. }
  assert (staged_slots t = no_slots) as Hs.
  { unfold no_slots. replace (Z.to_nat PACKAGE_CONTENT_MAX_STAGED_RECORDS) with (length (staged_slots t)) by (unfold len in Hl; change PACKAGE_CONTENT_MAX_STAGED_RECORDS with 64; lia).
    clear -Hf. rewrite drop_0 in Hf. induction Hf as [|o l -> _ IH]; [done|]. simpl. by f_equal. }
  destruct t. simpl in *. by subst.
Qed.

(** Every operation keeps the invariant. *)
Lemma stage_inv st role format bytes expected :
  store_inv st -> staged_count st.2 < 64 -> store_inv (snd (stage_content role format bytes expected st)).
Proof.
  destruct st as [s t]. intros Hst Hroom. pose proof Hst as [Hc Hr Hp Hn Hi]. cbn [fst snd] in *. apply wpA_state.
  eapply wpA_mono; [by apply stage_content_spec| |by intros e st' [-> _]].
  intros id [s' t'] (Hinv & _ & _ & _ & Hkeep & es & count & Hpush). cbn [fst snd] in *.
  destruct Hpush as (Hpk & Hrl & _ & Hnx & _ & _ & Hsl). destruct Hkeep as (Hk1 & Hk2 & _).
  split; cbn [fst snd]; rewrite ?Hk1, ?Hk2; [done|done|done|lia|].
  rewrite Hsl, fmap_app, Hi, Hnx. unfold range. rewrite !Z.sub_0_r, Z.add_1_r.
  replace (Z.succ (next_content_index t)) with (next_content_index t + 1) by lia. rewrite seqZ_app, fmap_app by lia.
  unfold content_index_id. rewrite Hpk, Hrl. f_equal.
Qed.

Lemma commit_keeps_inv st : store_inv st -> store_inv (snd (commit st)).
Proof.
  destruct st as [s t]. intros Hst. pose proof Hst as [Hc Hr Hp Hn Hi]. cbn [fst snd] in *. apply wpA_state.
  eapply wpA_mono; [by apply content_commit_spec| |by intros e st' (_ & -> & _)].
  intros c [s' t'] (Hinv & _ & Ht & Hrec & _ & Hbm & Hmk). cbn [fst snd] in *. subst t'.
  split; cbn [fst snd]; rewrite ?Hrec; [done|done| |done|apply ids_none].
  intros r b Hin Hb. rewrite <- Hbm. apply Hmk. left. by apply (Hp r).
Qed.

