(* ===== verification/PackageContentSafety.v ===== *)
(** * Installations of package contents

    The states that the store and its transaction reach: contents are staged,
    committed and rolled back, registries are restored, copied, kept and
    rebuilt. Contents never share a block, writing the candidate leaves
    every published content as it is, and what is written is read back. *)

From stdpp Require Import base numbers list sets relations.
From Stdlib Require Import Strings.Byte.
From S2P Require Import Prelude Kernel ByteRegions Bitset BitWords Sha256 PackageArtifact PackageArtifactFacts ObjectCheckpoint.
From S2P Require Import PackageContent PackageContentFacts PackageContentRestore.
Import Artifact (MAX_CONTENT_BYTES, MAX_CONTENT_ENTRIES, MAX_CONTENT_EXTENTS_PER_RECORD).
Import Content.

#[local] Opaque sha256_digest.

(** ** The states of a store *)

(** The states of the store with the transaction of the service, under every
    operation of the store that the service calls; calls that fail are steps
    too.

    A content that does not fit into the transaction is staged as the service
    does it: [install] and [prepare_install_candidate] roll back when a call
    fails, so a full transaction is followed by a rollback. A registry holds at
    most 64 records with fields of their widths; [retain_only_registry_content]
    runs without staged contents and on a registry that describes the committed
    ones, and a candidate registry, which has no identifier twice, is rebuilt
    from the transaction and from a copy of the store with the same committed
    slots. *)
Inductive content_reach : PackageContentStore * PackageContentTransaction -> Prop :=
| reach_empty package release : content_reach (empty_store, new_transaction package release)
| reach_restore registry validated s package release :
    Forall record_rep registry -> len registry <= 64 ->
    restore_from_validated_registry registry validated = Ok s ->
    content_reach (s, new_transaction package release)
| reach_stage st role format bytes expected :
    content_reach st -> staged_count st.2 < 64 -> content_reach (snd (stage_content role format bytes expected st))
| reach_stage_rollback st role format bytes expected :
    content_reach st -> content_reach (rollback (snd (stage_content role format bytes expected st)))
| reach_commit st : content_reach st -> content_reach (snd (commit st))
| reach_rollback st : content_reach st -> content_reach (rollback st)
| reach_begin st package release : content_reach st -> content_reach (st.1, reset package release st.2)
| reach_copy source st :
    content_reach source -> content_reach st -> content_reach (copy_restored_state_from source.1 st.1, reset_empty st.2)
| reach_retain st registry :
    content_reach st -> staged_count st.2 = 0 -> registry_describes registry st.1 ->
    content_reach (snd (retain_only_registry_content registry st.1), st.2)
| reach_publish st prepared registry validated s package release :
    content_reach st -> committed_slots prepared = committed_slots st.1 ->
    Forall record_rep registry -> len registry <= 64 -> NoDup (record_id <$> registry) ->
    reconstruct_from_validated_candidate_registry prepared registry validated st.2 = Ok s ->
    content_reach (s, new_transaction package release).

Lemma reach_inv st : content_reach st -> store_inv st.
Proof.
  induction 1 as [p r|registry validated s p r Hr Hl Hs|st role format bytes expected _ IH Hroom|st role format bytes expected _ IH|
    st _ IH|[s t] _ IH|[s t] p r _ IH|[s0 t0] st _ IH _ _|[s t] registry _ IH H0 Hd|[s t] s0 registry validated s' p r _ IH Hs Hr Hl Hnd Hrun].
  - split; cbn [fst snd]; [apply empty_inv|by constructor| |done|apply ids_none]. intros r' b Hr'. by apply not_elem_of_nil in Hr'.
  - by eapply restored_inv.
  - by apply stage_inv.
  - by apply failed_stage_inv.
  - by apply commit_keeps_inv.
  - apply (inv_restart s t); [done| |done]. split; [apply IH|exact no_words_ok].
  - cbn [fst snd]. rewrite <- (set_same_allocator s). apply (inv_restart s t); [done|apply IH|done].
  - by eapply copied_inv.
  - cbn [fst snd] in *. pose proof (empty_transaction s t IH H0) as Ht. rewrite Ht.
    apply (wpA_state _ _ (fun s' => store_inv (s', _))). eapply wpA_mono; [by eapply retain_inv|by intros c s' [? _]|].
    intros e s' ->. by rewrite <- Ht.
  - pose proof (rebuilt_inv s t s0 registry validated p r IH Hs Hr Hl Hnd) as Hw. cbn [snd] in Hrun. by rewrite Hrun in Hw.
Qed.

Lemma elem_of_slots (L : list PackageContentSlot) b :
  b ∈ concat (slot_blocks <$> L) <-> exists x, x ∈ L /\ b ∈ slot_blocks x.
Proof.
  rewrite list_elem_of_In, in_concat. split.
  - intros (bs & Hbs & Hb). apply list_elem_of_In, list_elem_of_fmap in Hbs as (x & -> & Hx). exists x. split; [done|by apply list_elem_of_In].
  - intros (x & Hx & Hb). exists (slot_blocks x). split; apply list_elem_of_In; [|done]. apply list_elem_of_fmap. by exists x.
Qed.

Lemma apart_blocks L : Forall slot_ok L -> ForallOrdPairs apart L -> NoDup (concat (slot_blocks <$> L)).
Proof.
  intros Hok Hap. induction Hap as [|x L Hx _ IH]; [constructor|]. apply Forall_cons in Hok as [Hxo Hok]. cbn [fmap list_fmap concat].
  apply NoDup_app. split; [apply Hxo|]. split; [|by apply IH]. intros b Hb Hin.
  apply elem_of_slots in Hin as (y & Hy & Hin). rewrite Forall_forall in Hx. exact (Hx y Hy b Hb Hin).
Qed.

Lemma slot_blocks_bound x b : slot_ok x -> b ∈ slot_blocks x -> block_ok b.
Proof.
  intros [[_ _ Hes _ _] _ _ _] Hb. unfold slot_blocks, blocks_of, flat in Hb.
  apply list_elem_of_In, in_concat in Hb as (bs & Hbs & Hin). apply list_elem_of_In, list_elem_of_fmap in Hbs as (e & -> & He).
  rewrite Forall_forall in Hes. destruct (Hes e He) as (? & ? & ?). apply list_elem_of_In, elem_of_extent_blocks in Hin as [? ?].
  unfold block_ok. lia.
Qed.

(** C15: under the operations that the service calls ([content_reach], with its
    conditions on registries and with a rollback after a content that does not
    fit into the transaction), no two contents of the package content store,
    committed or staged, share a block, and no staged content has a block of a
    published record. Every block is in range; the blocks of committed contents
    and of published records are marked in the committed bitmap and the blocks
    of staged contents in the staged bitmap. *)
Theorem contents_never_share_blocks st :
  content_reach st ->
  let committed := cslots st.1 in
  let staged := tslots st.2 in
  let bitmaps := allocator st.1 in
  NoDup (concat (slot_blocks <$> (committed ++ staged))) /\
  Forall block_ok (concat (slot_blocks <$> (committed ++ staged))) /\
  (forall x r b, x ∈ staged -> r ∈ records st.1 -> b ∈ slot_blocks x -> b ∉ reg_blocks r) /\
  (forall x b, x ∈ committed -> b ∈ slot_blocks x -> marked (committed_words bitmaps) b) /\
  (forall r b, r ∈ records st.1 -> b ∈ reg_blocks r -> marked (committed_words bitmaps) b) /\
  (forall x b, x ∈ staged -> b ∈ slot_blocks x -> marked (staged_words bitmaps) b).
Proof.
  intros [[_ _ _ _ Hok Hap Hcm Hsm Hfr] _ Hp _ _]%reach_inv. split_and!; [by apply apart_blocks| | |done|done|done].
  - apply Forall_forall. intros b (x & Hx & Hb)%elem_of_slots. rewrite Forall_forall in Hok. apply (slot_blocks_bound x); [by apply Hok|done].
  - intros x r b Hx Hr Hb Hb'. by apply (Hfr x b Hx Hb), (Hp r).
Qed.

(** ** Writing a candidate *)

Section candidate.
Context {D : Type} `{SectorDeviceLaws D}.

Definition slot_content (c : Z -> list byte) (x : PackageContentSlot) : list byte :=
  stored c (extents (slot_record x)) (extent_count (slot_record x)) (byte_len (slot_record x)).

Lemma stored_same_but bs c c' es count n :
  same_but bs c c' -> (forall b, b ∈ blocks_of es count -> b ∉ bs) -> stored c' es count n = stored c es count n.
Proof.
  intros Hs Hd. unfold stored, stream. f_equal. f_equal. apply list_fmap_ext. intros i b Hb. apply Hs.
  intros (b' & Heq%sector_of_inj & Hb')%list_elem_of_fmap. subst b'. apply (Hd b); [by eapply list_elem_of_lookup_2|done].
Qed.

Lemma same_but_trans bs c1 c2 c3 : same_but bs c1 c2 -> same_but bs c2 c3 -> same_but bs c1 c3.
Proof. intros H1 H2 n Hn. rewrite H2, H1; done. Qed.

Lemma same_but_refl bs c : same_but bs c c.
Proof. by intros n _. Qed.

(** The first contents are written and marked. *)
Definition candidate_state (c : Z -> list byte) (bm : list Z) (L : list PackageContentSlot) (s : list Z * Z) (c' : Z -> list byte) : Prop :=
  words_ok s.1 /\ s.2 = len L /\ (forall b, marked s.1 b <-> marked bm b \/ b ∈ concat (slot_blocks <$> L)) /\
  same_but (concat (slot_blocks <$> L)) c c' /\ forall x, x ∈ L -> slot_content c' x = slot_bytes x.

Lemma concat_snoc (L : list PackageContentSlot) x : concat (slot_blocks <$> (L ++ [x])) = concat (slot_blocks <$> L) ++ slot_blocks x.
Proof. rewrite fmap_app, concat_app. simpl. by rewrite app_nil_r. Qed.

Lemma candidate_round_spec c bm L x s (d : D) :
  slot_ok x -> (forall y, y ∈ L -> apart y x) -> len L < 64 -> candidate_state c bm L s (disk_bytes d) ->
  wpA (write_candidate_round s x) d (fun s' d' => candidate_state c bm (L ++ [x]) s' (disk_bytes d'))
    (fun _ d' => unreliable D /\ same_but (concat (slot_blocks <$> (L ++ [x]))) c (disk_bytes d')).
Proof.
  intros Hx Hap Hlen (Hw & Hc & Hm & Hs & Hst). pose proof (len_nonneg L). unfold write_candidate_round. rewrite concat_snoc.
  assert (same_but (concat (slot_blocks <$> L) ++ slot_blocks x) c (disk_bytes d)) as Hs1 by (eapply same_but_mono; [exact Hs|set_solver]).
  assert (forall d' : D, same_but (slot_blocks x) (disk_bytes d) (disk_bytes d') ->
    same_but (concat (slot_blocks <$> L) ++ slot_blocks x) c (disk_bytes d')) as Hs2.
  { intros d' Hd'. eapply same_but_trans; [exact Hs1|]. eapply same_but_mono; [exact Hd'|set_solver]. }
  act_step. eapply wpA_mono; [by apply write_record_bytes_spec| |by intros e d' [? ?]; split; [|apply Hs2]].
  intros u d' [Hd' Hbytes]. act_step. act_step.
  eapply wp_mono; [apply mark_record_extents_spec; [done|by apply extents_ok_rep, Hx]| |].
  2:{ intros e Hno. destruct Hno. destruct Hx as [[_ ? ? _ _] _ _ _]. split; [lia|done]. }
  intros bm2 (_ & Hw2 & Hm2). act_step. act_step. unfold checked_add. rewrite checked_id by (rewrite Hc; unfold uint; lia).
  cbn [ok_or]. act_step. act_step. split; cbn [fst snd]; [done|]. rewrite len_app, Hc. split; [done|]. rewrite concat_snoc. split_and!.
  - intros b. rewrite Hm2, Hm, elem_of_app. unfold slot_blocks at 3. tauto.
  - by apply Hs2.
  - intros y [Hy| ->%list_elem_of_singleton]%elem_of_app.
    + rewrite <- (Hst y Hy). apply (stored_same_but (slot_blocks x)); [done|]. intros b Hb Hb'. exact (Hap y Hy b Hb Hb').
    + unfold slot_content. destruct Hx as [_ [-> _] _ _]. exact Hbytes.
Qed.

Lemma wpA_foldA_list {T A} (f : T -> A -> action D PackageStatus T) (I : list A -> T -> D -> Prop) R l t (d : D) :
  I [] t d ->
  (forall pre x rest t d, l = pre ++ x :: rest -> I pre t d -> wpA (f t x) d (I (pre ++ [x])) R) ->
  wpA (foldA f t l) d (I l) R.
Proof.
  intros Hz Hf. pose proof (wpA_foldA f (fun i => I (take i l)) R l t d Hz) as Hw. cbn beta in Hw. rewrite firstn_all in Hw. apply Hw.
  intros i x t' d' Hi HI. rewrite (take_S_r l i x Hi). apply (Hf _ _ (drop (S i) l)); [|done].
  symmetry. by apply take_drop_middle.
Qed.

Lemma write_contents_spec s t (d : D) :
  content_inv s t ->
  wpA (write_candidate_content s t) d
    (fun c d' => candidate_state (disk_bytes d) (committed_words (allocator s)) (tslots t) (committed_bitmap c, record_count c) (disk_bytes d'))
    (fun _ d' => unreliable D /\ same_but (concat (slot_blocks <$> tslots t)) (disk_bytes d) (disk_bytes d')).
Proof.
  intros [Ha _ (_ & Hst & _) Hsc Hok Hap _ _ _]. apply Forall_app in Hok as [_ Hok]. apply ordpairs_app in Hap as (_ & Hap & _).
  unfold write_candidate_content. act_step.
  eapply wpA_mono; [apply (wpA_foldA_list _ (fun pre s' d' => candidate_state (disk_bytes d) (committed_words (allocator s)) pre s' (disk_bytes d'))
    (fun _ d' => unreliable D /\ same_but (concat (slot_blocks <$> tslots t)) (disk_bytes d) (disk_bytes d')))| |done].
  - split; [apply Ha|]. split; [done|]. split; [|split; [apply same_but_refl|intros x Hx; by apply not_elem_of_nil in Hx]].
    intros b. split; [by left|]. intros [?|Hb]; [done|]. by apply not_elem_of_nil in Hb.
  - intros pre x rest s' d' Hl Hs'. rewrite Hl in Hok, Hap, Hsc |- *. apply Forall_app in Hok as [_ [Hx _]%Forall_cons].
    apply ordpairs_app in Hap as (_ & _ & Hap). rewrite len_app in Hsc. pose proof (len_nonneg rest).
    assert (len (x :: rest) = 1 + len rest) as Hlx by (unfold len; simpl; lia).
    eapply wpA_mono; [apply (candidate_round_spec (disk_bytes d) (committed_words (allocator s)) pre); [done| |lia|exact Hs']|done|].
    + intros y Hy. apply Hap; [done|by left].
    + intros e d2 [Hu Hs2]. split; [done|]. eapply same_but_mono; [exact Hs2|]. change (x :: rest) with ([x] ++ rest).
      rewrite app_assoc, (fmap_app _ (pre ++ [x])), concat_app. set_solver.
  - intros [bm count] d' Hs'. act_step. exact Hs'.
Qed.

(** C14: in every state of [content_reach], writing the contents of an
    installation leaves every published content as it was: whatever the device
    does, and wherever it fails, the contents of the committed slots and of the
    published records are the same afterwards. The call returns unless the
    device is one that can fail; when it returns, every staged content is on the
    device, the record count is the number of staged contents, and the bitmap it
    returns marks the blocks that were committed and those of the staged
    contents. *)
Theorem interrupted_install_keeps_contents st (d : D) :
  content_reach st ->
  wpA (write_candidate_content st.1 st.2) d
    (fun c d' => (forall x, x ∈ tslots st.2 -> slot_content (disk_bytes d') x = slot_bytes x) /\
       record_count c = staged_count st.2 /\
       forall b, marked (committed_bitmap c) b <->
         marked (committed_words (allocator st.1)) b \/ exists x, x ∈ tslots st.2 /\ b ∈ slot_blocks x)
    (fun _ _ => unreliable D) /\
  let d' := snd (write_candidate_content st.1 st.2 d) in
  (forall r, r ∈ records st.1 -> reg_content (disk_bytes d') r = reg_content (disk_bytes d) r) /\
  (forall x, x ∈ cslots st.1 -> slot_content (disk_bytes d') x = slot_content (disk_bytes d) x).
Proof.
  intros [Hinv _ Hp _ _]%reach_inv. pose proof (write_contents_spec st.1 st.2 d Hinv) as Hw. split.
  - eapply wpA_mono; [exact Hw| |by intros e d' [? _]]. intros c d' (_ & Hc & Hm & _ & Hst). cbn [fst snd] in *.
    split; [done|]. split; [by rewrite Hc, (ci_staged_count _ _ Hinv)|]. intros b. by rewrite Hm, elem_of_slots.
  - apply (wpA_state _ _ (fun d' => (forall r, r ∈ records st.1 -> reg_content (disk_bytes d') r = reg_content (disk_bytes d) r) /\
      (forall x, x ∈ cslots st.1 -> slot_content (disk_bytes d') x = slot_content (disk_bytes d) x))).
    assert (forall d' : D, same_but (concat (slot_blocks <$> tslots st.2)) (disk_bytes d) (disk_bytes d') ->
      (forall r, r ∈ records st.1 -> reg_content (disk_bytes d') r = reg_content (disk_bytes d) r) /\
      (forall x, x ∈ cslots st.1 -> slot_content (disk_bytes d') x = slot_content (disk_bytes d) x)) as Hkeep.
    { intros d' Hs. split; intros y Hy; (eapply stored_same_but; [exact Hs|]); intros b Hb (x & Hx & Hb')%elem_of_slots.
      - by apply (ci_fresh _ _ Hinv x b Hx Hb'), (Hp y).
      - by apply (ci_fresh _ _ Hinv x b Hx Hb'), (ci_cmarked _ _ Hinv y). }
    eapply wpA_mono; [exact Hw| |by intros e d' [_ ?]; apply Hkeep]. intros c d' (_ & _ & _ & Hs & _). by apply Hkeep.
Qed.

(** C16: a content that an installation wrote is read back from the device. After
    [write_candidate_content] returned, the registry record of a staged content
    reads as exactly the bytes that were staged, into any buffer that can hold
    them, and the buffer is unchanged behind them; the call returns unless
    the device is one that can fail. *)
Theorem installed_content_readable st (d d' : D) c x out :
  content_reach st -> write_candidate_content st.1 st.2 d = (Ok c, d') -> x ∈ tslots st.2 -> len (slot_bytes x) <= len out ->
  wpA (read_record_bytes_into (registry_record (slot_record x)) out) d'
    (fun s d2 => disk_bytes d2 = disk_bytes d' /\ s = (len (slot_bytes x), slot_bytes x ++ drop (length (slot_bytes x)) out))
    (fun _ d2 => disk_bytes d2 = disk_bytes d' /\ unreliable D).
Proof.
  intros [Hinv _ _ _ _]%reach_inv Hw Hx Hout. pose proof (wpA_ok _ _ _ _ _ _ (write_contents_spec _ _ d Hinv) Hw) as (_ & _ & _ & _ & Hst).
  pose proof (ci_slots _ _ Hinv) as Hok. rewrite Forall_forall in Hok. destruct (Hok x) as [Hes [Hl Hmax] Hdg Hbn]; [apply elem_of_app; by right|].
  specialize (Hst x Hx). unfold slot_content in Hst. pose proof (len_nonneg (slot_bytes x)).
  assert (stored_ok (disk_bytes d') (digest (slot_record x)) (byte_len (slot_record x)) (extents (slot_record x)) (extent_count (slot_record x))) as Hso.
  { destruct Hes. split; [lia|lia|done|by rewrite Hl|by rewrite Hst]. }
  destruct Hes as [Hel Hec _ Hu _].
  eapply wpA_mono; [apply read_record_bytes_spec; cbn [registry_record reg_byte_len reg_extent_count reg_extents]; [lia|lia|done|done]| |];
    cbn [registry_record reg_byte_len reg_extent_count reg_extents reg_digest].
  - intros [n buf] d2 (Hd2 & _ & _ & Hn & Hb). cbn [fst snd] in *. split; [done|]. rewrite Hn, Hb, Hst, Hl. done.
  - intros e d2 (Hd2 & [[_ ?]|[_ [?|Hno]%stored_fault_bad]]); [lia|by split|by destruct Hno].
Qed.
End candidate.

(** ** Reading published contents *)

(** A committed content is found under its identifier and is intact. *)
Lemma read_committed_spec s t id :
  content_inv s t ->
  match find (has_id id) (cslots s) with
  | Some x => x ∈ cslots s /\ slot_id x = id /\ read_committed s id = Ok (slot_bytes x)
  | None => read_committed s id = Err NotFound /\ forall x, x ∈ cslots s -> slot_id x <> id
  end.
Proof.
  intros Hinv. unfold read_committed. destruct (find (has_id id) (cslots s)) as [x|] eqn:Hf.
  - apply find_Some in Hf. destruct Hf as [Hx Hid%bool_decide_eq_true]. split; [done|]. split; [done|].
    pose proof (ci_slots _ _ Hinv) as Hok. rewrite Forall_forall in Hok. destruct (Hok x) as [_ [Hl _] Hdg _]; [apply elem_of_app; by left|].
    cbn [ok_or]. rewrite ok_bind, sha256_ok, ok_bind, Hl, Hdg, Z.eqb_refl, bool_decide_eq_true_2 by done. done.
  - cbn [ok_or]. split; [done|]. intros x Hx Hid. pose proof (find_None _ _ Hf x Hx) as Hn. by apply bool_decide_eq_false in Hn.
Qed.


Lemma staged_ids_distinct st : store_inv st -> NoDup (slot_id <$> tslots st.2).
Proof.
  intros [_ _ _ _ ->]. apply NoDup_fmap_2; [|apply NoDup_range]. intros i j [= Hij]. exact Hij.
Qed.

(** A commit publishes the staged contents: when no content of the package's
    release was committed before, each of them is read back under the
    identifier it was staged with, and the transaction is empty. *)
Theorem committed_content_readable st c st' x :
  content_reach st -> commit st = (Ok c, st') ->
  (forall y, y ∈ cslots st.1 -> id_package (slot_id y) <> package_object_id st.2 \/ id_release (slot_id y) <> release_digest st.2) ->
  x ∈ tslots st.2 ->
  read_committed st'.1 (slot_id x) = Ok (slot_bytes x) /\ tslots st'.2 = [].
Proof.
  intros Hreach Hc Hnew Hx. pose proof (reach_inv st Hreach) as Hst. destruct st as [s t]. cbn [fst snd] in *.
  pose proof (wpA_ok _ _ _ _ _ _ (content_commit_spec s t (si_content _ Hst)) Hc) as (Hinv & Hfrom & Ht & _).
  pose proof (staged_ids_distinct _ Hst) as Hnd. cbn [fst snd] in Hnd. split; [|by rewrite Ht].
  pose proof (read_committed_spec _ _ (slot_id x) Hinv) as Hrc. unfold committed_from in Hfrom. rewrite Hfrom in Hrc.
  destruct (find _ _) as [y|].
  - destruct Hrc as (Hy & Hid & ->). apply elem_of_app in Hy as [Hy|Hy].
    + assert (slot_id x ∈ slot_id <$> tslots t) as Hin by (apply list_elem_of_fmap; by exists x).
      pose proof (si_ids _ Hst) as Hids. cbn [fst snd] in Hids. rewrite Hids in Hin. apply list_elem_of_fmap in Hin as (i & Hi & _).
      destruct (Hnew y Hy) as [Hne|Hne]; rewrite Hid, Hi in Hne; done.
    + apply list_elem_of_fmap in Hy as (z & -> & Hz). change (slot_id (commit_slot z)) with (slot_id z) in Hid.
      apply list_elem_of_lookup in Hx as [i Hi], Hz as [j Hj].
      assert (i = j) as -> by (eapply NoDup_lookup; [exact Hnd|rewrite list_lookup_fmap, Hi; reflexivity|rewrite list_lookup_fmap, Hj; cbn; by rewrite Hid]).
      rewrite Hi in Hj. by injection Hj as ->.
  - destruct Hrc as [_ Hno]. destruct (Hno (commit_slot x)); [|done]. apply elem_of_app. right. apply list_elem_of_fmap. by exists x.
Qed.

(** ** A full transaction *)

(** C38: staging a content into a full transaction fails with [QuotaDenied], but
    it drops the reservations of every content that was staged before: the
    transaction still lists them and no block is reserved for any of them. *)
Theorem full_transaction_drops_reservations role format bytes s t :
  alloc_ok (allocator s) -> len (staged_slots t) = 64 -> staged_count t = 64 ->
  0 < len bytes <= MAX_CONTENT_BYTES ->
  (exists first, 0 <= first /\ first + blocks_needed (len bytes) <= PACKAGE_CONTENT_MAX_BLOCKS /\
     run_free (allocator s) (blocks_needed (len bytes)) first) ->
  exists s', stage_content role format bytes (sha256_digest bytes) (s, t) = (Err QuotaDenied, (s', t)) /\
    forall b, ~ marked (staged_words (allocator s')) b.
Proof.
  intros Ha Hl Hc Hb (first & Hf0 & Hf1 & Hrun).
  assert (wpA (stage_content role format bytes (sha256_digest bytes)) (s, t) (fun _ _ => False)
    (fun e st => e = QuotaDenied /\ st.2 = t /\ forall b, ~ marked (staged_words (allocator st.1)) b)) as Hw.
  { destruct (blocks_for_len_spec (len bytes) ltac:(lia)) as (Hbl & Hbn & Hbz). unfold stage_content.
    act_step. act_step. act_step; [intros _|intros Hm%Z.ltb_lt; lia]. act_step. act_step. rewrite sha256_ok. act_step. act_step. act_step.
    rewrite bool_decide_eq_true_2 by done. act_step; [intros _|done]. act_step. act_step. rewrite Hbl. act_step.
    destruct (Z.eqb_spec (blocks_needed (len bytes)) 0) as [Hz|Hnz]; [by apply Hbz in Hz; lia|].
    act_step. act_step. unfold on_allocator. apply wpA_on_fst, wpA_zoom. unfold id.
    eapply wpA_mono; [by apply allocate_staged_spec; [|lia]| |].
    - intros e a Hal. act_step. act_step. act_step. act_step. act_step. cbn [fst snd]. apply wpA_or_undo, wpA_on_snd.
      eapply wpA_mono; [apply push_staged_spec; [done|lia|]| |].
      + rewrite Hc. unfold filled. rewrite drop_ge by (unfold len in Hl; lia). constructor.
      + intros u t' [? _]. lia.
      + intros er t' (-> & _ & ->). apply wpA_on_fst, wpA_zoom. act_step. cbn. split; [done|]. split; [done|]. exact not_marked_empty.
    - intros e a [-> [[-> ?]|[-> Hnone]]]; [lia|]. by destruct (Hnone first Hf0 Hf1). }
  apply wpA_run in Hw as [(? & ? & _ & [])|(e & [s' t'] & -> & -> & Ht & Hm)]. cbn [fst snd] in *. subst t'. by exists s'.
Qed.
