(* ===== verification/ObjectExamples.v ===== *)
(** * Object service examples

    Concrete histories of the object service on which its theorems apply: the
    shell creates notes and revises one, a schema and an object of it are
    created, and the service restarts from a snapshot. *)

From stdpp Require Import base numbers list gmap relations.
From Stdlib Require Import Strings.Byte.
From S2P Require Import Prelude ByteRegions TigRuntime Kernel SlotTable ServiceIdentity Capabilities BlockAllocator UserCopy ObjectFormat ObjectFormatFacts ObjectStore Relationships RevisionHistory StorageQuotas ObjectService ObjectVault ObjectServiceFacts ObjectServiceRefines ObjectSeed ObjectSnapshot ObjectServiceSafety.

(** The state after an operation. *)
Definition after (op : service_op) (s : ObjectService) : ObjectService := snd (perform op s).

Lemma seeded_reachable : service_reachable seeded_state.
Proof. exists seeded_state. split; [apply new_seeded_ok|apply rtc_refl]. Qed.

Lemma after_step op s : op_wf op -> service_step s (after op s).
Proof. intros Hop. apply (step_call op (fst (perform op s))); [done|]. apply surjective_pairing. Qed.

Lemma after_reachable op s : op_wf op -> service_reachable s -> service_reachable (after op s).
Proof.
  intros Hop (s0 & Hs0 & Hst). exists s0. split; [done|]. eapply rtc_r; [done|by apply after_step].
Qed.

(** The shell, its workspace capability, and the capability for its first note. *)
Definition shell : ActiveUserProcess := os_shell_caller seeded_state.
Definition workspace_cap : PackedCapability := os_shell_workspace_capability seeded_state.
Definition note_cap : PackedCapability := from_parts 1 1.

(** [b"hello"] *)
Definition hello : list byte := [x68; x65; x6c; x6c; x6f].

Definition op_note : service_op := OpCreate shell workspace_cap Kind.Note.
Definition op_hello : service_op := OpRevise shell note_cap FIRST_SHELL_NOTE_ID FIELD_TEXT hello.

Definition note_state : ObjectService := after op_note seeded_state.
Definition hello_state : ObjectService := after op_hello note_state.

Lemma op_hello_wf : op_wf op_hello.
Proof. by vm_compute. Qed.

Lemma note_reachable : service_reachable note_state.
Proof. apply after_reachable; [by vm_compute|apply seeded_reachable]. Qed.

Lemma hello_reachable : service_reachable hello_state.
Proof. apply after_reachable; [by vm_compute|apply note_reachable]. Qed.

(** The revision is the second one and holds the text. *)
Example hello_revision :
  from_option rev_revision 0 (current_revision (os_revisions hello_state) FIRST_SHELL_NOTE_ID) = 2.
Proof. by vm_compute. Qed.

Lemma object_calls_refine_vault_witness :
  exists r s' v v', perform op_note seeded_state = (r, s') /\ (r = Ok tt \/ exists e, r = Err e) /\
    vault_ok v /\ service_vault seeded_state v /\ rtc vault_step v v' /\ service_vault s' v'.
Proof. apply (object_calls_refine_vault seeded_state op_note); [apply seeded_reachable|by vm_compute]. Defined.

Lemma external_note_sealed_witness :
  inspect_object hello_state shell note_cap KNOWN_EXTERNAL_NOTE_ID = Err Denied.
Proof. apply (external_note_sealed hello_state shell note_cap FIELD_TEXT hello hello_reachable). Defined.

Lemma revisions_retained_witness :
  exists r r', current_revision (os_revisions note_state) FIRST_SHELL_NOTE_ID = Some r /\
    current_revision (os_revisions hello_state) FIRST_SHELL_NOTE_ID = Some r' /\
    rev_revision r <= rev_revision r'.
Proof.
  assert (is_Some (current_revision (os_revisions note_state) FIRST_SHELL_NOTE_ID)) as [r Hr]
    by (vm_compute; eauto).
  destruct (revisions_retained note_state hello_state FIRST_SHELL_NOTE_ID r note_reachable) as (r' & H1 & H2 & _).
  - unfold hello_state. apply rtc_once, after_step, op_hello_wf.
  - exact Hr.
  - exists r, r'. split; [exact Hr|]. split; [exact H1|exact H2].
Defined.

Lemma create_then_inspect_witness :
  match create_object shell workspace_cap Kind.Note seeded_state with
  | (Ok r, s') => created_id r = FIRST_SHELL_NOTE_ID /\
      inspect_object s' shell (created_capability r) FIRST_SHELL_NOTE_ID =
        Ok {| inspected_object := new_object FIRST_SHELL_NOTE_ID Kind.Note 1; inspected_revision := 1 |}
  | _ => False
  end.
Proof.
  pose proof (create_then_inspect seeded_state shell workspace_cap Kind.Note seeded_reachable ltac:(by vm_compute)) as H.
  assert (fst (create_object shell workspace_cap Kind.Note seeded_state) =
    Ok {| created_id := FIRST_SHELL_NOTE_ID; created_revision := 1; created_capability := note_cap |}) as Hok
    by by vm_compute.
  assert (os_next_note_id seeded_state = FIRST_SHELL_NOTE_ID) as Hid by by vm_compute.
  cbv zeta in H. rewrite Hid in H.
  destruct (create_object shell workspace_cap Kind.Note seeded_state) as [o s']. cbn [fst] in Hok. rewrite Hok in *.
  destruct H as (_ & H1 & _ & H2 & _). split; [exact H1|exact H2].
Defined.

Lemma revise_then_inspect_witness :
  exists s' new, revise_field shell note_cap FIRST_SHELL_NOTE_ID FIELD_TEXT hello note_state = (Ok 2, s') /\
    current_revision (os_revisions s') FIRST_SHELL_NOTE_ID = Some new /\
    revised_object (rev_object new) FIRST_SHELL_NOTE_ID Kind.Note FIELD_TEXT hello.
Proof.
  pose proof (revise_then_inspect note_state shell note_cap FIRST_SHELL_NOTE_ID FIELD_TEXT hello note_reachable
    ltac:(by vm_compute) ltac:(by vm_compute)) as H.
  assert (fst (revise_field shell note_cap FIRST_SHELL_NOTE_ID FIELD_TEXT hello note_state) = Ok 2) as Hok
    by by vm_compute.
  assert ((object_kind ∘ rev_object) <$> current_revision (os_revisions note_state) FIRST_SHELL_NOTE_ID =
    Some Kind.Note) as Hkind by by vm_compute.
  destruct (revise_field _ _ _ _ _ _) as [o s']. cbn [fst] in Hok. subst o.
  destruct H as (old & new & _ & Hold & _ & Hnew & _ & Hro & _). rewrite Hold in Hkind.
  injection Hkind as Hkind. unfold compose in Hkind. exists s', new. rewrite Hkind in Hro.
  split; [reflexivity|]. split; [exact Hnew|exact Hro].
Defined.

Lemma snapshot_restores_service_witness :
  exists snap s', encode_snapshot hello_state = Ok snap /\ from_snapshot snap = Ok s' /\ restored hello_state s'.
Proof.
  destruct (snapshot_restores_service hello_state hello_reachable) as (snap & s' & H1 & H2 & H3 & _).
  exists snap, s'. split; [exact H1|]. split; [exact H2|exact H3].
Defined.

(** The service restarted after the note was created: the clock is back at 2. *)
Definition restarted_state : ObjectService :=
  match from_snapshot (saved_snapshot note_state) with Ok s => s | _ => note_state end.

Lemma note_saved : encode_snapshot note_state = Ok (saved_snapshot note_state).
Proof. by vm_compute. Qed.
Lemma note_restarts : from_snapshot (saved_snapshot note_state) = Ok restarted_state.
Proof. by vm_compute. Qed.

(** The new shell queries for notes. *)
Definition requeried : outcome ObjectServiceError (list ObjectListEntry) * ObjectService :=
  query_objects shell workspace_cap Kind.Note restarted_state.

Definition requeried_results : list ObjectListEntry := match fst requeried with Ok l => l | _ => [] end.

Lemma requeried_run : query_objects shell workspace_cap Kind.Note restarted_state = (Ok requeried_results, snd requeried).
Proof. by vm_compute. Qed.

(** With the capability that the new shell gets for the note, the revision is
    refused for its timestamp. *)
Lemma restart_blocks_revision_witness :
  exists e, get requeried_results 0 = Some e /\ list_object_id e = FIRST_SHELL_NOTE_ID /\
    revise_field shell (list_capability e) FIRST_SHELL_NOTE_ID FIELD_TEXT hello (snd requeried) =
      (Err (ServiceRevision NonMonotonicTimestamp), snd requeried).
Proof.
  assert (exists r, current_revision (os_revisions note_state) FIRST_SHELL_NOTE_ID = Some r /\ 2 <= rev_timestamp r) as (r & Hr & Hle).
  { vm_compute. eexists. split; [reflexivity|]. discriminate. }
  apply (restart_blocks_revision note_state (saved_snapshot note_state) restarted_state shell workspace_cap Kind.Note requeried_results
    (snd requeried) 0 FIRST_SHELL_NOTE_ID r FIELD_TEXT hello note_reachable note_saved note_restarts requeried_run); [|done|exact Hr|exact Hle| | |].
  - by vm_compute.
  - apply list_elem_of_lookup. exists 0%nat. by vm_compute.
  - clear. by vm_compute.
  - clear. by vm_compute.
Defined.

(** Eight revisions of the note fill the table. *)
Definition full_state : ObjectService := Nat.iter 8 (after op_hello) note_state.

Lemma full_reachable : service_reachable full_state.
Proof.
  unfold full_state. generalize 8%nat. induction n as [|n IH]; [apply note_reachable|].
  apply after_reachable; [apply op_hello_wf|exact IH].
Qed.

Lemma revision_table_exhausts_witness :
  exists e, revise_field shell note_cap FIRST_SHELL_NOTE_ID FIELD_TEXT hello full_state = (Err e, full_state).
Proof.
  assert (Forall is_Some (revisions (os_revisions full_state))) as Hfull
    by (apply (bool_decide_unpack _); by vm_compute).
  rewrite Forall_forall in Hfull.
  apply (revision_table_exhausts full_state full_state shell note_cap FIRST_SHELL_NOTE_ID FIELD_TEXT hello
    full_reachable Hfull (rtc_refl _ _)).
  - clear. by vm_compute.
  - clear. by vm_compute.
Defined.

Lemma query_regains_access_witness :
  exists results s' e o, query_objects shell workspace_cap Kind.Note hello_state = (Ok results, s') /\
    get results 0 = Some e /\ list_object_id e = FIRST_SHELL_NOTE_ID /\
    inspect_object s' shell (list_capability e) FIRST_SHELL_NOTE_ID = Ok o.
Proof.
  assert (exists results, fst (query_objects shell workspace_cap Kind.Note hello_state) = Ok results) as [results Hok]
    by (vm_compute; eauto).
  assert (get (query_selection hello_state Kind.Note) 0 = Some FIRST_SHELL_NOTE_ID) as Hsel by by vm_compute.
  destruct (query_objects shell workspace_cap Kind.Note hello_state) as [o s'] eqn:Hrun. cbn [fst] in Hok. subst o.
  destruct (query_regains_access hello_state shell workspace_cap Kind.Note results s' hello_reachable Hrun) as [_ H].
  destruct (H 0 FIRST_SHELL_NOTE_ID Hsel eq_refl) as (e & o & H1 & H2 & _ & H4).
  exists results, s', e. eexists. split; [reflexivity|]. split; [exact H1|]. split; [exact H2|exact H4].
Defined.

(** A schema and an object of it. *)
Definition schema_id : ObjectId := 0x9000.
Definition defined_input : PackageDefinedCreateInput :=
  {| input_schema_id := schema_id; input_schema_revision := 1;
     input_state_format := PACKAGE_DEFINED_STATE_FORMAT_EMPTY; input_initial_state := [] |}.
Definition defined_state : ObjectService :=
  after (OpCreateDefined shell workspace_cap defined_input) (after (OpCreateSchema shell schema_id) seeded_state).
Definition defined_cap : PackedCapability := from_parts 2 1.

Lemma defined_reachable : service_reachable defined_state.
Proof. do 2 (apply after_reachable; [by vm_compute|]). apply seeded_reachable. Qed.

Example defined_references :
  entries_of (default [] (match package_defined_schema_references defined_state with Ok l => Some l | _ => None end)) =
    [{| reference_schema_id := schema_id; reference_schema_revision := 1 |}].
Proof. by vm_compute. Qed.

Lemma revision_drops_schema_reference_witness :
  exists s', revise_field shell defined_cap FIRST_SHELL_NOTE_ID FIELD_TEXT hello defined_state = (Ok 2, s') /\
    forall refs, package_defined_schema_references s' <> Ok refs.
Proof.
  assert (fst (revise_field shell defined_cap FIRST_SHELL_NOTE_ID FIELD_TEXT hello defined_state) = Ok 2) as Hok
    by by vm_compute.
  assert (exists r, current_revision (os_revisions defined_state) FIRST_SHELL_NOTE_ID = Some r /\
    object_kind (rev_object r) = Kind.PackageDefinedObject) as (r & Hr & Hk).
  { vm_compute. eexists. split; reflexivity. }
  assert (uint 64 (process_service shell)) as Hw by (clear; by vm_compute).
  destruct (revise_field _ _ _ _ _ defined_state) as [o s'] eqn:Hrun. cbn [fst] in Hok. subst o.
  exists s'. split; [reflexivity|]. intros refs.
  apply (revision_drops_schema_reference defined_state shell defined_cap FIRST_SHELL_NOTE_ID FIELD_TEXT hello 2 s' r
    refs defined_reachable Hw ltac:(clear; by vm_compute) Hr Hk ltac:(clear; by vm_compute) Hrun).
Defined.

(** Two mappings and a range in the second. *)
Definition demo_map : UserCopyMap :=
  snd (add_mapping 0x40000000 0x2000 true true (snd (add_mapping 0x1000 0x1000 true false new_copy_map))).

Lemma demo_map_reachable : copy_map_reachable demo_map.
Proof.
  eapply rtc_l; [|eapply rtc_once]; eapply copy_map_add; [| |apply surjective_pairing| | |apply surjective_pairing];
    by vm_compute.
Qed.

Lemma user_range_exact_witness :
  exists m, mapped demo_map m /\ mapping_start m <= 0x40000100 < mapping_end m.
Proof.
  pose proof (user_range_exact demo_map 0x40000100 16 AccessWrite demo_map_reachable
    ltac:(by vm_compute) ltac:(by vm_compute)) as H.
  assert (exists r, validate_user_range demo_map 0x40000100 16 AccessWrite = Ok r) as [r Hr] by (vm_compute; eauto).
  rewrite Hr in H. destruct H as (_ & _ & m & Hm & _ & Hin & _). exists m. split; [exact Hm|].
  apply Hin. lia.
Defined.
