(* ===== verification/CheckpointExamples.v ===== *)
(** * Checkpoints on a concrete device

    A block device in memory with a schedule of faults, as an instance of the
    device interface, and the theorems on checkpoints applied to it. *)

From stdpp Require Import base numbers list gmap relations.
From Stdlib Require Import Strings.Byte.
From S2P Require Import Prelude ByteRegions Sha256 TigRuntime Kernel SlotTable ServiceIdentity Capabilities ObjectFormat ObjectFormatFacts ObjectStore RevisionHistory ObjectService ObjectVault ObjectServiceFacts ObjectSeed ObjectSnapshot ObjectServiceSafety ObjectCheckpoint ObjectImage ObjectDisk ObjectDurability.

(** ** A device in memory *)

(** An operation without a fault succeeds; a write with the fault [Some k] is
    cut off after [k] bytes. When the schedule is empty, nothing fails. *)
Record RamDisk := {
  ram : gmap Z (list byte);
  faults : list (option nat);
}.

Definition ram_bytes (d : RamDisk) (n : Z) : list byte :=
  take (Z.to_nat SECTOR_SIZE) (default [] (ram d !! n) ++ blank_sector).

Definition next_fault (d : RamDisk) : option nat * list (option nat) :=
  match faults d with [] => (None, []) | f :: rest => (f, rest) end.

Definition ram_read (n : Z) : action RamDisk BlockDeviceError (list byte) := fun d =>
  let '(f, rest) := next_fault d in
  (match f with None => Ok (ram_bytes d n) | Some _ => Err Timeout end, {| ram := ram d; faults := rest |}).

Definition ram_write (n : Z) (bytes : list byte) : action RamDisk BlockDeviceError unit := fun d =>
  let '(f, rest) := next_fault d in
  match f with
  | None => (Ok tt, {| ram := <[n := bytes]> (ram d); faults := rest |})
  | Some k => (Err Timeout, {| ram := <[n := take k bytes ++ drop k (ram_bytes d n)]> (ram d); faults := rest |})
  end.

#[export] Instance ram_device : SectorDevice RamDisk :=
  {| disk_bytes := ram_bytes; unreliable := True; read_sector := ram_read; write_sector := ram_write |}.

Lemma len_ram_bytes d n : len (ram_bytes d n) = SECTOR_SIZE.
Proof.
  unfold ram_bytes, len. rewrite length_take, length_app. change (length blank_sector) with 512%nat.
  change (Z.to_nat SECTOR_SIZE) with 512%nat. unfold SECTOR_SIZE. lia.
Qed.

Lemma ram_bytes_insert d n bytes fs :
  len bytes = SECTOR_SIZE -> ram_bytes {| ram := <[n := bytes]> (ram d); faults := fs |} n = bytes.
Proof.
  intros Hl. unfold ram_bytes. simpl. rewrite lookup_insert_eq. simpl. rewrite take_app_le.
  - apply take_ge. unfold len in Hl. lia.
  - unfold len in Hl. lia.
Qed.

Lemma ram_bytes_insert_ne d n m bytes fs :
  m <> n -> ram_bytes {| ram := <[n := bytes]> (ram d); faults := fs |} m = ram_bytes d m.
Proof. intros Hm. unfold ram_bytes. simpl. by rewrite lookup_insert_ne. Qed.

#[export] Instance ram_device_laws : SectorDeviceLaws RamDisk.
Proof.
  split.
  - apply len_ram_bytes.
  - intros d n. unfold wpA. cbn. unfold ram_read. destruct (next_fault d) as [[k|] rest]; repeat split.
  - intros d n bytes Hl. unfold wpA. cbn. unfold ram_write. destruct (next_fault d) as [[k|] rest].
    + assert (len (take k bytes ++ drop k (ram_bytes d n)) = SECTOR_SIZE) as Hlen.
      { pose proof (len_ram_bytes d n). unfold len in *. rewrite length_app, length_take, length_drop. lia. }
      split; [done|]. split; [|intros m Hm; by apply ram_bytes_insert_ne].
      rewrite ram_bytes_insert by done. intros i. pose proof (len_ram_bytes d n) as Hr. unfold get. rewrite Hlen, Hl, Hr.
      destruct ((0 <=? i) && (i <? SECTOR_SIZE)) eqn:Hi; [|by left].
      apply andb_true_iff in Hi as [?%Z.leb_le Hi%Z.ltb_lt].
      unfold len in *. destruct (decide (Z.to_nat i < k)%nat) as [Hk|Hk].
      * right. rewrite lookup_app_l by (rewrite length_take; lia). by apply lookup_take_lt.
      * left. rewrite lookup_app_r by (rewrite length_take; lia). rewrite length_take, lookup_drop. f_equal. lia.
    + split; [by apply ram_bytes_insert|]. intros m Hm. by apply ram_bytes_insert_ne.
Qed.

Definition new_disk (fs : list (option nat)) : RamDisk := {| ram := ∅; faults := fs |}.

Lemma new_disk_unformatted fs : unformatted (disk_bytes (new_disk fs)).
Proof. intros slot _. unfold new_disk, disk_bytes, ram_device, ram_bytes. simpl. by rewrite lookup_empty. Qed.

(** ** Runs *)

#[local] Opaque seeded_state.

Definition seeded_snapshot : ObjectServiceSnapshot := saved_snapshot seeded_state.

Lemma seeded_snapshot_wf : snapshot_wf seeded_snapshot.
Proof. exact (saved_snapshot_wf _ _ seeded_vault_ok seeded_service_vault). Qed.

Lemma checkpoint_roundtrip_witness :
  snapshot_wf seeded_snapshot /\ uint 64 7 /\
  exists image, encode_slot_into_with_generation SlotA seeded_snapshot 7 true = Ok image /\
    decode_slot image = Ok (set_snapshot_root 7 (snap_bitmap seeded_snapshot) seeded_snapshot).
Proof. split_and!; [exact seeded_snapshot_wf|done|exact (checkpoint_roundtrip SlotA _ 7 seeded_snapshot_wf ltac:(done))]. Defined.

(** A device whose header and commit sectors hold text. *)
Definition scribbled_disk : RamDisk :=
  {| ram := <[192 := CHECKPOINT_MAGIC ++ COMMIT_MAGIC]> (<[217 := COMMIT_MAGIC]> ∅); faults := [] |}.

Lemma recovery_total_witness :
  wpA (with_restored_object_service_checkpoint id) scribbled_disk
    (fun r d' => r = recovered (disk_bytes scribbled_disk) /\ disk_bytes d' = disk_bytes scribbled_disk)
    (fun _ d' => unreliable RamDisk /\ disk_bytes d' = disk_bytes scribbled_disk).
Proof. exact (recovery_total scribbled_disk). Defined.

(** The reads of recovery and the first 26 writes succeed; the power fails in
    the write of the commit sector, after 12 bytes. *)
Definition cut_off : list (option nat) := replicate 4 None ++ replicate 26 None ++ [Some 12%nat].

Lemma new_disk_ok fs : disk_ok (disk_bytes (new_disk fs)) /\ recovered (disk_bytes (new_disk fs)) = None.
Proof. exact (blank_disk_ok _ (device_full (new_disk fs)) (new_disk_unformatted fs)). Qed.

Lemma checkpoint_crash_safe_witness :
  disk_ok (disk_bytes (new_disk cut_off)) /\ snapshot_wf seeded_snapshot /\
  let '(r, d') := write_object_service_checkpoint seeded_snapshot (new_disk cut_off) in
  disk_ok (disk_bytes d') /\
  match r with
  | Ok _ => recovered (disk_bytes d') = Some (set_snapshot_root 1 (snap_bitmap seeded_snapshot) seeded_snapshot)
  | Err _ => unreliable RamDisk /\
      (recovered (disk_bytes d') = recovered (disk_bytes (new_disk cut_off)) \/
       recovered (disk_bytes d') = Some (set_snapshot_root 1 (snap_bitmap seeded_snapshot) seeded_snapshot))
  | Panic | Diverge => False
  end.
Proof.
  destruct (new_disk_ok cut_off) as [Hd Hr]. split; [exact Hd|]. split; [exact seeded_snapshot_wf|].
  apply (checkpoint_crash_safe seeded_snapshot 1 (new_disk cut_off) Hd seeded_snapshot_wf). rewrite Hr. reflexivity.
Defined.

(** ** A device without faults *)

Record PerfectDisk := { perfect : RamDisk }.

Definition perfect_write (n : Z) (bytes : list byte) (d : PerfectDisk) : PerfectDisk :=
  {| perfect := {| ram := <[n := bytes]> (ram (perfect d)); faults := [] |} |}.

#[export] Instance perfect_device : SectorDevice PerfectDisk :=
  {| disk_bytes := fun d => ram_bytes (perfect d); unreliable := False;
     read_sector := fun n d => (Ok (ram_bytes (perfect d) n), d);
     write_sector := fun n bytes d => (Ok tt, perfect_write n bytes d) |}.

#[export] Instance perfect_device_laws : SectorDeviceLaws PerfectDisk.
Proof.
  split.
  - intros d. apply len_ram_bytes.
  - intros d n. split; reflexivity.
  - intros d n bytes Hl. split; [by apply ram_bytes_insert|]. intros m Hm. by apply ram_bytes_insert_ne.
Qed.

Definition fresh_disk : PerfectDisk := {| perfect := new_disk [] |}.

Lemma fresh_disk_unformatted : unformatted (disk_bytes fresh_disk).
Proof. exact (new_disk_unformatted []). Qed.

Lemma uint_one : uint 64 1.
Proof. by split. Qed.

(** On a device without faults the first boot seeds the service. *)
Definition booted_disk : PerfectDisk := (snd (initialize_object_service_from_device (fresh_disk, None))).1.

Lemma boot_succeeds :
  initialize_object_service_from_device (fresh_disk, None) = (Ok tt, (booted_disk, Some seeded_state)) /\
  disk_bytes booted_disk = disk_bytes fresh_disk.
Proof.
  destruct (blank_disk_ok _ (device_full fresh_disk) fresh_disk_unformatted) as [_ Hr].
  assert (wpA restore_or_initialize_in_place fresh_disk
    (fun s d' => s = seeded_state /\ disk_bytes d' = disk_bytes fresh_disk) (fun _ _ => False)) as Hw.
  { unfold restore_or_initialize_in_place. act_step. apply wpA_zoom.
    eapply wpA_mono; [apply with_restored_spec| |intros e d' [[] _]]. intros r d' [-> Hd']. act_step. unfold id in *.
    rewrite Hr, new_seeded_ok. apply wp_ok. exact (conj eq_refl Hd'). }
  unfold booted_disk, initialize_object_service_from_device, wpA in *.
  destruct (restore_or_initialize_in_place fresh_disk) as [[s|e| |] d']; [|destruct Hw..].
  destruct Hw as [-> Hd']. exact (conj eq_refl Hd').
Qed.

Lemma boot_history : rtc machine_step (fresh_disk, None) (booted_disk, Some seeded_state).
Proof. apply rtc_once. exists (Booted (Ok tt)). exact (machine_boot _ _ _ (proj1 boot_succeeds)). Qed.

(** A checkpoint returns. *)
Definition persisted : outcome RetainedServiceError unit * PerfectDisk :=
  persist_object_service true (Some seeded_state) booted_disk.

Lemma persisted_run : persist_object_service true (Some seeded_state) booted_disk = (Ok tt, snd persisted).
Proof.
  destruct (blank_disk_ok _ (device_full fresh_disk) fresh_disk_unformatted) as [Hd Hr].
  rewrite <- (proj2 boot_succeeds) in Hd, Hr. unfold persisted.
  rewrite (persist_run seeded_state seeded_vault booted_disk seeded_service_vault).
  assert (next_generation (recovered (disk_bytes booted_disk)) = Some 1) as Hn by (rewrite Hr; reflexivity).
  pose proof (write_checkpoint_spec _ 1 booted_disk Hd seeded_snapshot_wf Hn uint_one) as Hw.
  unfold wpA in Hw. unfold persistence_call, zoom. unfold id. fold seeded_snapshot.
  destruct (write_object_service_checkpoint seeded_snapshot booted_disk) as [[[]|e| |] d'];
    [reflexivity|destruct Hw as [[] _]|destruct Hw..].
Qed.

(** The power goes off and the next boot returns. *)
Definition rebooted : @machine PerfectDisk := snd (initialize_object_service_from_device (snd persisted, None)).

Lemma reboot_succeeds : initialize_object_service_from_device (snd persisted, None) = (Ok tt, rebooted).
Proof.
  destruct (blank_disk_ok _ (device_full fresh_disk) fresh_disk_unformatted) as [Hd Hr].
  rewrite <- (proj2 boot_succeeds) in Hd, Hr.
  assert (disk_holds (disk_bytes booted_disk) seeded_vault) as Hh by (split; [exact Hd|]; rewrite Hr; reflexivity).
  pose proof (persist_spec seeded_state seeded_vault seeded_vault booted_disk _ _ seeded_vault_ok seeded_service_vault Hh persisted_run) as Hp.
  cbn beta iota in Hp. pose proof (restore_spec (snd persisted) seeded_vault Hp) as Hw. unfold wpA in Hw.
  unfold rebooted, initialize_object_service_from_device.
  destruct (restore_or_initialize_in_place (snd persisted)) as [[s|e| |] d']; [reflexivity|destruct Hw as (_ & [] & _)|destruct Hw..].
Qed.

(** A boot, a checkpoint, a power failure and another boot. *)
Definition saved_history : list (machine_event * @machine PerfectDisk) :=
  [(Booted (Ok tt), (booted_disk, Some seeded_state));
   (Persisted true (Ok tt), (snd persisted, Some seeded_state));
   (PoweredOff, (snd persisted, None));
   (Booted (Ok tt), rebooted)].

Lemma saved_history_runs : event_run machine_does (fresh_disk, None) saved_history.
Proof.
  apply run_cons; [exact (machine_boot _ _ _ (proj1 boot_succeeds))|].
  apply run_cons; [exact (machine_persist true _ _ _ _ persisted_run)|].
  apply run_cons; [apply machine_off|].
  apply run_cons; [exact (machine_boot _ _ _ reboot_succeeds)|apply run_nil].
Qed.

Lemma machine_refines_durable_vault_witness :
  unformatted (disk_bytes fresh_disk) /\ event_run machine_does (fresh_disk, None) saved_history /\
  exists h', event_run durable_does (None, [seeded_vault]) h' /\ Forall2 same_event saved_history h'.
Proof.
  split; [exact fresh_disk_unformatted|]. split; [exact saved_history_runs|].
  exact (machine_refines_durable_vault fresh_disk saved_history fresh_disk_unformatted saved_history_runs).
Defined.

Lemma persisted_service_returns_witness :
  persist_object_service true (Some seeded_state) booted_disk = (Ok tt, snd persisted) /\
  wpA initialize_object_service_from_device (snd persisted, None)
    (fun _ m => exists s', m.2 = Some s' /\ same_stores seeded_state s')
    (fun e m => e = RetainedObjectService BadSnapshot /\ unreliable PerfectDisk /\ m.2 = None).
Proof.
  split; [exact persisted_run|].
  exact (persisted_service_returns fresh_disk booted_disk seeded_state (snd persisted) (snd persisted)
    fresh_disk_unformatted boot_history persisted_run (@eq_refl (Z -> list byte) (disk_bytes (snd persisted)))).
Defined.

(** ** Candidates *)

Lemma seeded_generation : uint 64 (snap_generation seeded_snapshot).
Proof. Transparent seeded_state. vm_compute. split; [discriminate|reflexivity]. Qed.

#[local] Opaque seeded_state.

Lemma candidate_roundtrip_witness :
  snapshot_wf seeded_snapshot /\ uint 64 (snap_generation seeded_snapshot) /\
  wpA (write_object_service_candidate_checkpoint seeded_snapshot) fresh_disk
    (fun k d1 => recovered (disk_bytes d1) = recovered (disk_bytes fresh_disk) /\
       forall d2 : PerfectDisk, disk_bytes d2 = disk_bytes d1 ->
         wpA (read_object_service_candidate_checkpoint (candidate_identity k)) d2
           (fun t _ => t = seeded_snapshot) (fun _ _ => unreliable PerfectDisk))
    (fun _ d1 => unreliable PerfectDisk /\ recovered (disk_bytes d1) = recovered (disk_bytes fresh_disk)).
Proof.
  split; [exact seeded_snapshot_wf|]. split; [exact seeded_generation|].
  exact (candidate_roundtrip seeded_snapshot fresh_disk seeded_snapshot_wf seeded_generation).
Defined.

(** A candidate that was written is read back by its identity. *)
Lemma candidate_read_back :
  exists id s (d d' : PerfectDisk), read_object_service_candidate_checkpoint id d = (Ok s, d').
Proof.
  pose proof (write_candidate_spec seeded_snapshot fresh_disk seeded_snapshot_wf seeded_generation) as Hw. unfold wpA in Hw.
  destruct (write_object_service_candidate_checkpoint seeded_snapshot fresh_disk) as [[k|e| |] d]; [|destruct Hw as [[] _]|destruct Hw..].
  destruct Hw as (_ & Hon & _).
  pose proof (read_candidate_spec seeded_snapshot _ d seeded_snapshot_wf seeded_generation Hon) as Hr. unfold wpA in Hr.
  destruct (read_object_service_candidate_checkpoint (candidate_identity k) d) as [[s|e| |] d'] eqn:Hrun; [|destruct Hr as [[] _]|destruct Hr..].
  exists (candidate_identity k), s, d, d'. exact Hrun.
Qed.

Lemma candidate_named_by_digest_witness :
  exists id s (d d' : PerfectDisk), read_object_service_candidate_checkpoint id d = (Ok s, d') /\
    snap_generation s = identity_generation id /\
    root_digest id =
      sha256_digest (concat (slot_sectors (disk_bytes d) (candidate_slot_for_generation (identity_generation id)))).
Proof.
  destruct candidate_read_back as (id & s & d & d' & Hrun). exists id, s, d, d'. split; [exact Hrun|].
  exact (candidate_named_by_digest id d s d' Hrun).
Defined.
