(* ===== verification/PackageExamples.v ===== *)
(** * Package contents on concrete devices

    A content of two bytes is staged in an empty store, committed, written to a
    device without faults and restored from it; a second content is staged
    after it and written to a device that loses power; the hypotheses of the
    properties of [PackageContentSafety] hold there. *)

From stdpp Require Import base numbers list.
From Stdlib Require Import Strings.Byte.
From S2P Require Import Prelude Kernel ByteRegions BitWords Sha256 PackageArtifact PackageArtifactFacts ObjectCheckpoint CheckpointExamples.
From S2P Require Import PackageContent PackageContentFacts PackageContentRestore PackageContentSafety.
Import Artifact (MAX_CONTENT_BYTES).
Import Content.

#[local] Opaque sha256_digest.

Definition demo_bytes : list byte := [x50; x79].

Definition demo_start : PackageContentStore * PackageContentTransaction := (empty_store, new_transaction 7 (zeros 32)).

Definition demo_call : outcome PackageStatus ContentId * (PackageContentStore * PackageContentTransaction) :=
  stage_content 1 2 demo_bytes (sha256_digest demo_bytes) demo_start.

Lemma empty_run n : run_free empty_allocator n 0.
Proof. intros b _. split; apply not_marked_empty. Qed.

Lemma demo_staged :
  exists x, tslots (snd demo_call).2 = [x] /\ slot_bytes x = demo_bytes /\ cslots (snd demo_call).1 = [] /\
    committed_count (snd demo_call).1 = 0 /\ staged_count (snd demo_call).2 = 1.
Proof.
  pose proof (stage_content_spec 1 2 demo_bytes (sha256_digest demo_bytes) empty_store (new_transaction 7 (zeros 32))
    (empty_inv 7 (zeros 32)) ltac:(reflexivity)) as Hw.
  apply wpA_run in Hw as [(id & st & Hrun & _ & _ & _ & Hc & (_ & _ & Hn) & es & count & Hp)|(e & st & _ & _ & [[_ Hm]|[[_ Hd]|[_ Hno]]])].
  - unfold demo_call, demo_start. rewrite Hrun. exists (new_slot (new_transaction 7 (zeros 32)) 1 2 demo_bytes es count).
    destruct Hp as (_ & _ & Hs & _ & _ & _ & Ht). cbn [snd]. rewrite Ht, Hc, Hn, Hs. split_and!; reflexivity.
  - discriminate Hm.
  - by destruct Hd.
  - destruct (Hno 0); [done|by compute|apply empty_run].
Qed.

Lemma demo_reach : content_reach (snd demo_call).
Proof. exact (reach_stage demo_start 1 2 demo_bytes (sha256_digest demo_bytes) (reach_empty 7 (zeros 32)) eq_refl). Qed.

Lemma demo_written :
  exists c d', write_candidate_content (snd demo_call).1 (snd demo_call).2 fresh_disk = (Ok c, d').
Proof.
  pose proof (write_contents_spec (snd demo_call).1 (snd demo_call).2 fresh_disk (si_content _ (reach_inv _ demo_reach))) as Hw.
  apply wpA_run in Hw as [(c & d' & Hrun & _)|(e & d' & _ & [] & _)]. by exists c, d'.
Qed.

Lemma installed_content_readable_witness :
  exists c d' x, write_candidate_content (snd demo_call).1 (snd demo_call).2 fresh_disk = (Ok c, d') /\ slot_bytes x = demo_bytes /\
    wpA (read_record_bytes_into (registry_record (slot_record x)) (zeros 4)) d'
      (fun s d2 => disk_bytes d2 = disk_bytes d' /\ s = (2, demo_bytes ++ zeros 2))
      (fun _ d2 => disk_bytes d2 = disk_bytes d' /\ False).
Proof.
  destruct demo_written as (c & d' & Hw). destruct demo_staged as (x & Ht & Hx & _).
  exists c, d', x. split; [exact Hw|]. split; [exact Hx|].
  pose proof (installed_content_readable (snd demo_call) fresh_disk d' c x (zeros 4) demo_reach Hw) as Hr. rewrite Hx in Hr.
  apply Hr; [rewrite Ht; by left|by compute].
Defined.

Lemma demo_commits : exists c st, commit (snd demo_call) = (Ok c, st).
Proof.
  destruct demo_staged as (x & _ & _ & _ & Hc & Hs). pose proof (si_content _ (reach_inv _ demo_reach)) as Hinv.
  destruct (snd demo_call) as [s t]. cbn [fst snd] in *.
  pose proof (content_commit_spec s t Hinv) as Hw.
  apply wpA_run in Hw as [(c & st & Hrun & _)|(e & st & _ & _ & _ & Hcap)]; [by exists c, st|]. rewrite Hc, Hs in Hcap. discriminate Hcap.
Qed.

(** The content is committed, and a second one is staged. *)
Definition second_start : PackageContentStore * PackageContentTransaction :=
  ((snd (commit (snd demo_call))).1, reset 8 (zeros 32) (snd (commit (snd demo_call))).2).

Definition second_bytes : list byte := [x74; x69; x67].

Definition second_call : outcome PackageStatus ContentId * (PackageContentStore * PackageContentTransaction) :=
  stage_content 1 2 second_bytes (sha256_digest second_bytes) second_start.

Lemma second_start_reach : content_reach second_start.
Proof. apply reach_begin, reach_commit, demo_reach. Qed.

Lemma second_reach : content_reach (snd second_call).
Proof. apply reach_stage; [exact second_start_reach|reflexivity]. Qed.

Lemma second_committed : exists x, cslots second_start.1 = [x] /\ slot_bytes x = demo_bytes /\ records second_start.1 = [].
Proof.
  destruct demo_commits as (c & st & Hrun). destruct demo_staged as (x & Ht & Hx & Hn & _).
  pose proof (si_content _ (reach_inv _ demo_reach)) as Hinv. unfold second_start. rewrite Hrun. cbn [fst snd].
  assert (records (snd demo_call).1 = []) as Hr.
  { pose proof (stage_keeps_published 1 2 demo_bytes (sha256_digest demo_bytes) empty_store (new_transaction 7 (zeros 32)) (empty_inv 7 (zeros 32))) as Hw.
    apply (wpA_state _ _ (fun st => same_published empty_store st.1)) in Hw. destruct Hw as (a & Hs & _). unfold demo_call, demo_start. by rewrite Hs. }
  destruct (snd demo_call) as [s t]. cbn [fst snd] in *.
  pose proof (wpA_ok _ _ _ _ _ _ (content_commit_spec s t Hinv) Hrun) as (_ & Hfrom & _ & Hrec & _). unfold committed_from in Hfrom.
  exists (commit_slot x). rewrite Hfrom, Hrec, Hn, Ht. split_and!; [done|exact Hx|exact Hr].
Qed.

(** Staging the second content keeps the first one. *)
Lemma second_keeps : exists x, cslots (snd second_call).1 = [x] /\ slot_bytes x = demo_bytes.
Proof.
  destruct second_committed as (x & Hc & Hx & _). exists x. split; [|exact Hx].
  pose proof (stage_keeps_published 1 2 second_bytes (sha256_digest second_bytes) second_start.1 second_start.2
    (si_content _ (reach_inv _ second_start_reach))) as Hw.
  apply (wpA_state _ _ (fun st => same_published second_start.1 st.1)) in Hw. rewrite <- surjective_pairing in Hw.
  destruct Hw as (a & Hs & _). unfold second_call. rewrite Hs. exact Hc.
Qed.

Lemma contents_never_share_blocks_witness :
  content_reach (snd second_call) /\ (exists x, cslots (snd second_call).1 = [x] /\ slot_bytes x = demo_bytes) /\
  NoDup (concat (slot_blocks <$> (cslots (snd second_call).1 ++ tslots (snd second_call).2))).
Proof.
  split; [exact second_reach|]. split; [exact second_keeps|]. exact (proj1 (contents_never_share_blocks (snd second_call) second_reach)).
Defined.

(** Power fails in the first sector of the second content. *)
Lemma interrupted_install_keeps_contents_witness :
  exists x, x ∈ cslots (snd second_call).1 /\ slot_bytes x = demo_bytes /\
    let d := new_disk [Some 2%nat] in
    slot_content (disk_bytes (snd (write_candidate_content (snd second_call).1 (snd second_call).2 d))) x = slot_content (disk_bytes d) x.
Proof.
  destruct second_keeps as (x & Hc & Hx). exists x. assert (x ∈ cslots (snd second_call).1) as Hin by (rewrite Hc; by left).
  split; [exact Hin|]. split; [exact Hx|].
  exact (proj2 (proj2 (interrupted_install_keeps_contents (snd second_call) (new_disk [Some 2%nat]) second_reach)) x Hin).
Defined.



Lemma committed_content_readable_witness :
  exists c st x, commit (snd demo_call) = (Ok c, st) /\ slot_bytes x = demo_bytes /\
    read_committed st.1 (slot_id x) = Ok demo_bytes /\ tslots st.2 = [].
Proof.
  destruct demo_commits as (c & st & Hc). destruct demo_staged as (x & Ht & Hx & Hn & _). exists c, st, x. split; [exact Hc|]. split; [exact Hx|].
  pose proof (committed_content_readable (snd demo_call) c st x demo_reach Hc) as Hr. rewrite Hx in Hr. apply Hr.
  - rewrite Hn. intros y Hy. destruct (not_elem_of_nil _ Hy).
  - rewrite Ht. by left.
Defined.

(** A transaction with 64 staged contents. *)
Definition full_slot : PackageContentSlot :=
  {| slot_record := staged_record (next_content_id demo_start.2) 1 2 (sha256_digest demo_bytes) 2 (single_extent (Extent 0 1)) 1;
     slot_bytes := demo_bytes |}.

Definition full_transaction : PackageContentTransaction :=
  {| package_object_id := 7; release_digest := zeros 32; staged_slots := replicate 64 (Some full_slot);
     staged_count := 64; next_content_index := 64 |}.

Lemma full_transaction_drops_reservations_witness :
  exists s', stage_content 1 2 demo_bytes (sha256_digest demo_bytes) (empty_store, full_transaction) = (Err QuotaDenied, (s', full_transaction)) /\
    forall b, ~ marked (staged_words (allocator s')) b.
Proof.
  apply full_transaction_drops_reservations.
  - split; exact no_words_ok.
  - reflexivity.
  - reflexivity.
  - by compute.
  - exists 0. split; [done|]. split; [by compute|]. exact (empty_run _).
Defined.
