(* ===== verification/KernelExamples.v ===== *)
(** * Kernel services on concrete inputs

    The hypotheses of the kernel theorems hold on concrete tables, journals and
    allocators; each example applies its theorem to one. *)

From stdpp Require Import base numbers list gmap relations.
From S2P Require Import Prelude Kernel ServiceIdentity Capabilities StorageService.
From S2P Require Import StorageJournal BlockAllocator.

(** ** Identities *)

Definition one_service : ServiceIdentityTable := snd (register_task 10 new_identity_table).

Lemma one_service_reachable : identity_reachable one_service.
Proof.
  eapply rtc_l; [|apply rtc_refl]. by apply (identity_register 10 (Ok 1)).
Qed.

Lemma register_task_fresh_witness :
  task_for (snd (register_task 11 one_service)) 2 = Some 11.
Proof.
  destruct (register_task_fresh one_service 11 one_service_reachable) as (_ & H & _). exact H.
Defined.

Lemma unregistered_stays_unknown_witness :
  task_for (snd (register_task 12 (snd (unregister 1 one_service)))) 1 = None.
Proof.
  destruct (unregistered_stays_unknown one_service 1 one_service_reachable) as (_ & H & _).
  apply H. eapply rtc_l; [|apply rtc_refl]. by apply (identity_register 12 (Ok 2)).
Defined.

(** ** Capabilities *)

Definition granted_table : CapabilityTable := snd (grant_with_provenance 1 5 3 new_capability_table).

Lemma granted_table_reachable : capability_reachable granted_table.
Proof.
  eapply rtc_l; [|apply rtc_refl]. exists (OpGrant 1 5 3).
  by apply (capability_grant 1 5 3 (Ok (Created (Handle 0 1)))).
Qed.

Lemma granted_handle_authority_witness :
  validate granted_table 1 (Handle 0 1) 5 RIGHT_READ = Ok tt.
Proof.
  destruct (granted_handle_authority new_capability_table 1 5 3 (rtc_refl _ _)) as (H & _).
  exact (H granted_table RIGHT_READ (rtc_refl _ _) eq_refl).
Defined.

Lemma revocation_is_permanent_witness :
  validate (snd (revoke (Handle 0 1) granted_table)) 1 (Handle 0 1) 5 RIGHT_READ <> Ok tt.
Proof.
  destruct (revocation_is_permanent granted_table (Handle 0 1) granted_table_reachable) as (H & _).
  apply H. apply rtc_refl.
Defined.

(** 32 grants on distinct resources. *)
Definition fill_table (n : nat) : CapabilityTable :=
  foldl (fun t r => snd (grant_with_provenance 1 (Z.of_nat r) 1 t)) new_capability_table (seq 0 n).

Lemma fill_table_reachable n : capability_reachable (fill_table n).
Proof.
  unfold fill_table, capability_reachable, capability_steps.
  generalize new_capability_table as t. generalize 0%nat as k.
  induction n as [|n IH]; intros k t; simpl; [apply rtc_refl|].
  eapply rtc_l; [|apply IH]. exists (OpGrant 1 (Z.of_nat k) 1).
  destruct (grant_with_provenance 1 (Z.of_nat k) 1 t) as [r t'] eqn:Hg.
  by apply (capability_grant _ _ _ r).
Qed.

Lemma fill_table_full : table_full (fill_table 32).
Proof.
  unfold table_full. rewrite <- Forall_forall. apply (bool_decide_unpack _). by vm_compute.
Qed.

Lemma full_table_stays_full_witness :
  fst (grant_with_provenance 1 99 1 (snd (revoke (Handle 0 1) (fill_table 32)))) = Err TableFull.
Proof.
  assert (capability_steps (fill_table 32) (snd (revoke (Handle 0 1) (fill_table 32)))) as Hs.
  { eapply rtc_l; [|apply rtc_refl]. exists (OpRevoke (Handle 0 1)).
    destruct (revoke (Handle 0 1) (fill_table 32)) as [r t'] eqn:Hr. by apply (capability_revoke _ r). }
  pose proof (full_table_stays_full _ _ 1 99 1 (fill_table_reachable 32) fill_table_full Hs) as [_ H].
  revert H. by vm_compute.
Defined.

(** ** Storage *)

Definition disk : BlockDeviceInfo :=
  Virtio {| virtio_bus := 0; virtio_device := 6; virtio_function := 0; virtio_io_base := 0xC000;
            virtio_capacity_sectors := 16; virtio_queue_size := 8 |}.

Definition storage_table : CapabilityTable :=
  snd (grant_with_provenance 1 STORAGE_RESOURCE_ID 3 new_capability_table).

Lemma storage_table_reachable : capability_reachable storage_table.
Proof.
  eapply rtc_l; [|apply rtc_refl]. exists (OpGrant 1 STORAGE_RESOURCE_ID 3).
  by apply (capability_grant _ _ _ (Ok (Created (Handle 0 1)))).
Qed.

Lemma storage_access_exact_witness :
  on_device (new_storage_service disk) 15 1.
Proof.
  destruct (storage_access_exact disk storage_table 1 (Handle 0 1) (write_request 15 1)
              storage_table_reachable) as (_ & H & _); [by split; vm_compute|]. exact H.
Defined.

Lemma revoked_handle_has_no_storage_witness :
  is_ok (authorize_request (new_storage_service disk) (snd (revoke (Handle 0 1) storage_table))
           1 (Handle 0 1) (write_request 15 1)) = false.
Proof.
  apply (revoked_handle_has_no_storage _ storage_table (snd (revoke (Handle 0 1) storage_table)));
    [apply storage_table_reachable|by vm_compute|apply rtc_refl].
Defined.

(** ** Journal *)

Definition sample_access : StorageAccess :=
  {| operation := Write; start_sector := 3; sector_count := 1 |}.
Definition one_record : AppendOnlyJournal := snd (commit_last (snd (append_write sample_access new_journal))).

Lemma one_record_reachable : journal_reachable one_record.
Proof.
  eapply rtc_l; [|eapply rtc_l; [|apply rtc_refl]].
  - by eapply (journal_append sample_access), surjective_pairing.
  - by eapply journal_commit, surjective_pairing.
Qed.

Lemma damaged_record_rejected_witness :
  validate_committed (with_seal (checksum_for (pending 0 sample_access)) COMMIT_MARKER
    {| sequence := 2; record_operation := Write; record_start_sector := 3;
       record_sector_count := 1; checksum := 0; commit_marker := 0 |}) = Err ChecksumMismatch.
Proof.
  destruct (damaged_record_rejected (committed (pending 0 sample_access))
    (with_seal (checksum_for (pending 0 sample_access)) COMMIT_MARKER
      {| sequence := 2; record_operation := Write; record_start_sector := 3;
         record_sector_count := 1; checksum := 0; commit_marker := 0 |})
    (committed_valid _)) as (_ & _ & H).
  apply H; [done|by vm_compute|]. exists 0%nat, 1, 2.
  split_and!; [by vm_compute|lia|unfold uint; lia|by vm_compute].
Defined.

Lemma recovery_replays_committed_prefix_witness :
  exists rep, recover_committed_prefix one_record = Ok rep /\ last_sequence rep = 1.
Proof.
  destruct (recovery_replays_committed_prefix one_record one_record_reachable)
    as (rep & Hr & _ & _ & Hs).
  exists rep. split; [exact Hr|]. rewrite Hs. vm_compute in Hr. injection Hr as <-. reflexivity.
Defined.

Lemma one_record_valid : valid_prefix one_record (journal_len one_record).
Proof.
  assert (journal_len one_record = 1) as -> by by vm_compute.
  split; [replace (journal_len one_record) with 1 by (by vm_compute); lia|split].
  2:{ replace (journal_len one_record) with 1 by (by vm_compute). lia. }
  intros i r Hi Hr. assert (i = 0) as -> by lia.
  vm_compute in Hr. injection Hr as <-. by vm_compute.
Qed.

Lemma append_commit_crash_safe_witness :
  exists rep, recover_committed_prefix (snd (commit_last (snd (append_write sample_access one_record))))
    = Ok rep /\ replayed_records rep = 2.
Proof.
  destruct (append_commit_crash_safe one_record sample_access
    (pending 1 sample_access) (snd (append_write sample_access one_record))
    (committed (pending 1 sample_access))
    (snd (commit_last (snd (append_write sample_access one_record))))
    one_record_reachable one_record_valid) as (_ & (rep & Hr & Hn & _) & _);
    [by vm_compute..|].
  exists rep. split; [exact Hr|]. rewrite Hn. by vm_compute.
Defined.

(** ** Allocator *)

Definition empty_allocator : BlockAllocator :=
  {| base_sector := 64; block_count := 8; bitmap := 0; committed_bitmap := 0 |}.

Lemma empty_allocator_wf : allocator_wf empty_allocator.
Proof. apply (layout_wf _ 64 8 0); try done. apply empty_bitmap_wf. Qed.

Lemma allocator_constructors_witness :
  exists a, restore_from_bitmap 64 8 5 = Ok a /\ allocator_wf a.
Proof.
  destruct (allocator_constructors disk 64 8 5) as [_ H]; [by vm_compute..|].
  eexists. split; [by vm_compute|]. exact (proj1 (proj2 (proj2 H))).
Defined.

Lemma allocate_first_fit_witness : free_at empty_allocator 3 0.
Proof.
  destruct (allocate_first_fit empty_allocator 3 empty_allocator_wf) as (_ & _ & H & _);
    [by vm_compute|]. exact H.
Defined.

Lemma allocate_free_roundtrip_witness :
  exists a2, free_extent (Extent 0 3) (snd (allocate 3 empty_allocator)) = (Ok tt, a2) /\
    bitmap a2 = 0.
Proof.
  destruct (allocate_free_roundtrip empty_allocator 3 (Extent 0 3) (snd (allocate 3 empty_allocator))
    empty_allocator_wf) as (a2 & H & Hb & _); [by vm_compute..|].
  by exists a2.
Defined.

Lemma recovery_agrees_with_allocator_witness :
  recover_allocator_journal (snd (snd (allocate_journaled 2 (empty_allocator, new_allocator_journal))))
  = Ok {| report_replayed := 0; report_rolled_back := 1; report_bitmap := 0 |}.
Proof.
  destruct (recovery_agrees_with_allocator Waiting
    (fst (snd (allocate_journaled 2 (empty_allocator, new_allocator_journal))))
    (snd (snd (allocate_journaled 2 (empty_allocator, new_allocator_journal))))) as [_ H].
  - apply (history_journaled Settled 2 (Ok (Extent 0 2)) (empty_allocator, new_allocator_journal)).
    + by apply (history_start 64 8).
    + by vm_compute.
    + by vm_compute.
  - rewrite H. by vm_compute.
Defined.
